(* ===== verification/_CoqProject ===== *)
-Q . S2P
Prelude.v
RuleErrors.v
WireTx.v
WireInference.v
WireBlock.v
Chaincfg.v
Difficulty.v
BlockIndex.v
Merkle.v
Script.v
ScriptBuilder.v
Utxo.v
Covenant.v
TxRules.v
ScriptVal.v
BlockRules.v
Connect.v
Compress.v
ChainIO.v
SizeHelper.v
UtxoCache.v
ThresholdState.v
MedianTime.v
Orphans.v
Detach.v
Chain.v
Reorg.v
ChainInv.v
Interleave.v
BestChain.v
ScriptStack.v
SigHash.v
Taproot.v
Opcodes.v
Engine.v
EngineInv.v
EngineRun.v
EngineCache.v
ScriptPool.v
EngineSpend.v
GoHeap.v
FeeHeap.v
MempoolPolicy.v
Mempool.v
MempoolOrphans.v
MempoolMain.v
MempoolRbf.v
MempoolInv.v
MempoolThms.v
Mining.v
MiningSelect.v
MiningBlock.v
Bech32.v
Bech32Thms.v
Address.v
