(* ===== verification/Prelude.v ===== *)
(** * modelOS node: consensus code, modelled and verified

    The node under src/node is a fork of btcd: a block chain whose blocks carry
    zero-knowledge proof-of-work certificates, or merge-mined Pearl work, and
    whose transactions carry an inference marketplace (bounties, result proofs,
    authorised issuances).  This library models the consensus code of the node,
    from the bytes on the wire to the connection of a block, as executable
    functions and states what makes them correct.

    ** The program's parts and the files that model them

    - [Prelude]: bytes, fixed-width integers with their wrap-around ([wrapU],
      [wrapS]), little-endian encodings, the error monad [res] ([let?]), the
      [io.Reader] monad [reader] and the class [Codec] of an encoder and a
      decoder that are inverse on well-formed values.
    - [RuleErrors] (blockchain/error.go): error codes and the error type.
    - [WireTx] (wire/msgtx.go, wire/common.go), [WireInference]
      (wire/msginferencetx.go, msginferencego.go), [WireBlock] (wire/blockheader.go,
      certificate.go, certificate_zk.go, auxpow.go, msgheaders.go, msgblock.go):
      the wire formats.  Decoders are [reader]s over the bytes still on the
      stream, and the shared script slab of the transaction decoder is a number
      of bytes left that is passed along.
    - [Chaincfg] (chaincfg/params.go, deployment_time_frame.go): the networks and
      the interface [HeaderCtx] through which headers are walked.
    - [Difficulty] (blockchain/difficulty.go, aserti.go, internal/workmath).
    - [BlockIndex] (blockchain/blockindex.go, chainview.go): nodes are records on
      a heap, a [*blockNode] is a [ptr] into it, so aliasing is the code's.
    - [Merkle] (blockchain/merkle.go, rolling_merkle.go).
    - [Script], [ScriptBuilder] (txscript/tokenizer.go, script.go, standard.go,
      scriptnum.go, scriptbuilder.go).
    - [Utxo] (blockchain/utxoviewpoint.go): the view of the unspent outputs with
      its packed flags; a nil entry in the map is [Some None].
    - [Covenant] (blockchain/inference_covenant.go, inferencego.go).
    - [TxRules] (transaction part of blockchain/validate.go, vsize.go, sequence
      locks of chain.go), [BlockRules] (block part of validate.go, auxpow.go,
      checkpoints.go, zkpow/verify.go), [ScriptVal] (scriptval.go, the pool of
      goroutines as a step relation), [Connect] (what the connection of a block
      as a whole guarantees).
    - [Compress], [ChainIO] (blockchain/compress.go, chainio.go): the rows of the
      database; [SizeHelper], [UtxoCache] (sizehelper.go, utxocache.go): the cache
      over them, its flush and the recovery after a crash.
    - [ThresholdState] (thresholdstate.go, versionbits.go), [MedianTime]
      (mediantime.go), [Orphans] (orphans of chain.go).
    - [Chain] (chain.go, process.go, accept.go): processing, best-chain selection,
      connecting, disconnecting and reorganising, as handlers over one record of
      index, cache, database and orphans; [Detach], [Reorg], [ChainInv],
      [BestChain] and [Interleave] hold its theorems.
    - [ScriptStack] (txscript/stack.go), [SigHash] (sighash.go, hashcache.go,
      sigcache.go), [Taproot] (taproot.go), [Opcodes] (opcode.go, sigvalidate.go),
      [Engine] (engine.go): the script engine, as computations [sM] over its state
      ([vm!]); [EngineInv] and [EngineRun] are a program logic for it and its
      invariant, [EngineCache] relates runs with different signature caches,
      [EngineSpend] says which witnesses are accepted, [ScriptPool] puts the
      engine into the validators of [ScriptVal];
    - [GoHeap] (Go's container/heap, against the class [HeapLaws]), [FeeHeap]
      (node/mempool/fee_heap.go), [MempoolPolicy] (policy.go, error.go), [Mempool]
      (mempool.go: the pool, the orphans, replacement, acceptance, eviction), with
      the invariants of the orphans in [MempoolOrphans], of the main pool in
      [MempoolMain], of replacement in [MempoolRbf], of acceptance in [MempoolInv]
      and the theorems and a run in [MempoolThms].
    - addresses: [Bech32] (node/btcutil/bech32) with its theorems in [Bech32Thms],
      [Address] (node/btcutil/address.go, the registry of node/chaincfg/params.go,
      the scripts of node/txscript/standard.go).
    - mining: [Mining] (node/mining/mining.go, policy.go: the priority queue, the
      selection, the coinbase, the template and its updates), with the selection
      proved in [MiningSelect] and the block in [MiningBlock].

    ** Parameters

    Code outside the repository is a parameter: the hash functions (SHA-256,
    SHA3-256, BLAKE3) are functions on bytes, the curve and the Schnorr library
    are the classes [Schnorr] and [TapTweak], the Rust proof verifier the class
    [ZkVerifier], the XMSS verifier a function.  [ScriptVal] and [BlockRules] take
    the script engine as an argument, which [ScriptPool] instantiates.  A property
    that needs collision resistance is stated as "or here is a collision", with
    the colliding strings computed from the inputs.  The mempool takes the chain
    through the functions of its configuration, and the clock and the order of
    each map iteration, as a record [Env] per call; its transactions have a rank
    that grows from a parent to its children, as hashes do not form cycles.  The
    template generator asks the chain, the pool and the clock through the record
    [ChainView].

    ** What the theorems show

    - value: the subsidies stay below the supply cap, a connected block creates
      no more than its subsidy and its authorised issuances, the accounting of a
      transaction and the sanity checks accept exactly what they should, and
      disconnecting a block undoes connecting it;
    - wire formats: transactions, blocks and marketplace payloads are decoded
      from exactly the bytes they are encoded to;
    - chain structure: skip pointers, fork points, locators, cumulative work,
      median time and the best-chain slice agree with their definitions by
      parent pointers;
    - difficulty: the demanded bits are always acceptable, ASERT is monotone
      and halves and doubles with its half-life;
    - optimised code agrees with its reference (rolling Merkle root, skip
      pointers, tokenizer), concurrent script validation is correct, ends and
      leaks no goroutine under every schedule;
    - the state of the node: processing any block keeps the chain invariant, a
      reorganisation refines moving the coin set from one branch to another, the
      branch that is ahead by enough work wins, the cache refines the stored coins and a
      crash loses none of them;
    - the script engine: it ends without a panic on every input, stays within its
      limits at every step, accepts exactly the key and script spends it should,
      and answers the same with every sound signature cache, for every schedule;
      the taproot signature hash commits to what it signs;
    - the mempool: every sequence of public calls returns and keeps the invariant
      (no two transactions spend the same output, exact index, size and heap,
      bounded pool and orphans), removal leaves no redeemer behind, the
      replacement rule is exact, the cached recursions equal reachability, the
      fee-rate heap is a priority queue;
    - addresses: the checksum is linear, decoding accepts exactly the encodings in
      either case, and addresses, strings and scripts determine each other;
    - block templates: the generator returns; what it chooses is valid in order and
      within the size limit, an eligible transaction that is left out waits for one
      that is not in the block or failed in its turn in the queue, the commitments
      of the block hold, and the miner's updates keep them;
    - where the code does not keep what its comments promise, a theorem exhibits
      it: a block with a double spend that is accepted, a decoder panic, bounty
      payments anybody can redirect, merge-mined work that is not bound to a
      block, a flush marker that goes stale, signatures of merkle root inputs that
      do not cover what they spend, a fee floor that hardly ever applies.

    ** Fuel

    Loops that are not structural take fuel that is proved enough: one unit per
    byte of a script in the tokenizer, the height of a node in the walks over
    the index, the number of leaves in the rolling Merkle tree, 64 doublings in
    locators, one unit per byte of the scripts and the witness in the engine, one
    unit per transaction or orphan in the recursions of the mempool, one per
    considered transaction in the selection for a block.  The theorems state the
    result, not only that a result is right.

    ** Not modelled

    Storage (database/ffldb), the peer protocol, RPC, fee estimation, the wallet
    and the light client, the arithmetic of the curve; of the script engine
    disassembly and the debugging callback.  Mutexes are left out where each
    operation is atomic under one lock; where a lock is released half way
    ([connectBlock]) or a cache is shared ([ScriptPool]) the steps are explicit. *)
From Stdlib Require Import ZArith Lia Strings.Byte Strings.String.
From stdpp Require Import base list gmap sorting.
Open Scope Z_scope.

Declare Scope go_scope.
Delimit Scope go_scope with go.
Open Scope go_scope.

(** ** Bytes *)

(** Go's [byte]: the 256-constructor type of the Standard Library, so that a
    [byte] is in range by construction. *)
Abbreviation byte := Byte.byte.
Abbreviation bytes := (list Byte.byte).

#[export] Instance byte_eq_dec : EqDecision byte := Byte.byte_eq_dec.

#[export] Program Instance byte_countable : Countable byte :=
  inj_countable Byte.to_N Byte.of_N _.
Next Obligation. intros b. apply Byte.of_to_N. Qed.

(** [b2z b] is the value of the byte; [z2b] is the Go conversion [byte(x)],
    which keeps the low eight bits. *)
Definition b2z (b : byte) : Z := Z.of_N (Byte.to_N b).

Definition z2b (z : Z) : byte :=
  match Byte.of_N (Z.to_N (z mod 256)) with
  | Some b => b
  | None => x00
  end.

Lemma b2z_range b : 0 <= b2z b < 256.
Proof.
  unfold b2z. pose proof (Byte.to_N_bounded b). lia.
Qed.

Lemma b2z_z2b z : b2z (z2b z) = z mod 256.
Proof.
  unfold b2z, z2b. pose proof (Z.mod_pos_bound z 256 ltac:(lia)).
  destruct (Byte.of_N (Z.to_N (z mod 256))) as [b|] eqn:E.
  - apply Byte.to_of_N in E. rewrite E. lia.
  - apply Byte.of_N_None_iff in E. lia.
Qed.

Lemma z2b_b2z b : z2b (b2z b) = b.
Proof.
  unfold z2b. rewrite Z.mod_small by apply b2z_range.
  unfold b2z. rewrite N2Z.id, Byte.of_to_N. reflexivity.
Qed.

Lemma b2z_inj a b : b2z a = b2z b → a = b.
Proof. intros H. rewrite <- (z2b_b2z a), <- (z2b_b2z b). by rewrite H. Qed.

Lemma z2b_mod z : z2b (z mod 256) = z2b z.
Proof. apply b2z_inj. rewrite !b2z_z2b. apply Z.mod_mod. lia. Qed.

(** ** Machine integers: the Go conversions [uintN(x)] and [intN(x)]. *)
Definition wrapU (w z : Z) : Z := z mod 2 ^ w.
Definition wrapS (w z : Z) : Z := (z + 2 ^ (w - 1)) mod 2 ^ w - 2 ^ (w - 1).

Abbreviation u8 := (wrapU 8).
Abbreviation u16 := (wrapU 16).
Abbreviation u32 := (wrapU 32).
Abbreviation u64 := (wrapU 64).
Abbreviation i32 := (wrapS 32).
Abbreviation i64 := (wrapS 64).

Definition inU (w z : Z) : Prop := 0 <= z < 2 ^ w.
Definition inS (w z : Z) : Prop := - 2 ^ (w - 1) <= z < 2 ^ (w - 1).

#[export] Instance inU_dec w z : Decision (inU w z).
Proof. unfold inU. apply _. Defined.
#[export] Instance inS_dec w z : Decision (inS w z).
Proof. unfold inS. apply _. Defined.

Lemma wrapU_small w z : inU w z → wrapU w z = z.
Proof. apply Z.mod_small. Qed.

Lemma wrapU_in w z : 0 <= w → inU w (wrapU w z).
Proof. intros. apply Z.mod_pos_bound. apply Z.pow_pos_nonneg; lia. Qed.

Lemma pow2_half w : 0 < w → 2 ^ w = 2 * 2 ^ (w - 1).
Proof. intros. rewrite <- Z.pow_succ_r by lia. f_equal. lia. Qed.

Lemma wrapS_small w z : 0 < w → inS w z → wrapS w z = z.
Proof.
  unfold wrapS, inS. intros Hw H. pose proof (pow2_half w Hw).
  rewrite Z.mod_small; lia.
Qed.

Lemma wrapS_in w z : 0 < w → inS w (wrapS w z).
Proof.
  unfold wrapS, inS. intros Hw. pose proof (pow2_half w Hw).
  assert (0 < 2 ^ w) by (apply Z.pow_pos_nonneg; lia).
  pose proof (Z.mod_pos_bound (z + 2 ^ (w - 1)) (2 ^ w) ltac:(lia)). lia.
Qed.

(** Reinterpreting a signed integer as unsigned and back loses nothing. *)
Lemma wrapS_wrapU w z : 0 < w → inS w z → wrapS w (wrapU w z) = z.
Proof.
  intros Hw Hz. rewrite <- (wrapS_small w z Hw Hz) at 2.
  unfold wrapS, wrapU. rewrite Z.add_mod_idemp_l; [done|].
  apply Z.pow_nonzero; lia.
Qed.

Lemma wrapU_wrapS w z : 0 < w → inU w z → wrapU w (wrapS w z) = z.
Proof.
  intros Hw Hz. unfold wrapU, wrapS.
  rewrite Zminus_mod_idemp_l. replace (z + _ - _) with z by lia.
  by apply Z.mod_small.
Qed.

(** ** Little-endian integers ([encoding/binary.LittleEndian]) *)
Fixpoint le_encode (n : nat) (z : Z) : bytes :=
  match n with
  | O => []
  | S n' => z2b z :: le_encode n' (z / 256)
  end.

Fixpoint le_decode (l : bytes) : Z :=
  match l with
  | [] => 0
  | b :: l' => b2z b + 256 * le_decode l'
  end.

(** ** Big-endian integers ([encoding/binary.BigEndian], [big.Int.SetBytes]) *)
Definition be_encode (n : nat) (z : Z) : bytes := reverse (le_encode n z).
Definition be_decode (l : bytes) : Z := le_decode (reverse l).

Lemma length_le_encode n z : length (le_encode n z) = n.
Proof. revert z; induction n; intros; simpl; auto. Qed.

Lemma length_be_encode n z : length (be_encode n z) = n.
Proof. unfold be_encode. by rewrite length_reverse, length_le_encode. Qed.

Lemma le_decode_range l : 0 <= le_decode l < 256 ^ Z.of_nat (length l).
Proof.
  induction l as [|b l IH]; [simpl; lia|]. cbn [le_decode length].
  rewrite Nat2Z.inj_succ, Z.pow_succ_r by lia. pose proof (b2z_range b). lia.
Qed.

Lemma le_decode_encode n z : le_decode (le_encode n z) = z mod 256 ^ Z.of_nat n.
Proof.
  revert z; induction n as [|n IH]; intros z.
  - simpl. by rewrite Z.mod_1_r.
  - cbn [le_encode le_decode]. rewrite IH, b2z_z2b, Nat2Z.inj_succ, Z.pow_succ_r by lia.
    rewrite Z.rem_mul_r; [lia|lia|]. apply Z.pow_pos_nonneg; lia.
Qed.

Lemma le_encode_decode l : le_encode (length l) (le_decode l) = l.
Proof.
  induction l as [|b l IH]; simpl; [done|]. pose proof (b2z_range b).
  f_equal.
  - apply b2z_inj. rewrite b2z_z2b, Z.mul_comm, Z_mod_plus_full.
    by apply Z.mod_small.
  - rewrite Z.mul_comm, Z.div_add, Z.div_small by lia. done.
Qed.

Lemma pow256 n : 256 ^ Z.of_nat n = 2 ^ (8 * Z.of_nat n).
Proof. change 256 with (2 ^ 8). rewrite <- Z.pow_mul_r; lia. Qed.

Lemma le_roundtrip n w z : w = 8 * Z.of_nat n → inU w z → le_decode (le_encode n z) = z.
Proof. intros -> Hz. rewrite le_decode_encode, pow256. by apply Z.mod_small. Qed.

Lemma le_decode_inU n w l : w = 8 * Z.of_nat n → length l = n → inU w (le_decode l).
Proof. intros -> <-. unfold inU. rewrite <- pow256. apply le_decode_range. Qed.

Lemma le_encode_decode' n l : length l = n → le_encode n (le_decode l) = l.
Proof. intros <-. apply le_encode_decode. Qed.

Lemma le_encode_inj n w a b :
  w = 8 * Z.of_nat n → inU w a → inU w b → le_encode n a = le_encode n b → a = b.
Proof.
  intros Hw Ha Hb H. rewrite <- (le_roundtrip n w a), <- (le_roundtrip n w b) by done.
  by rewrite H.
Qed.

Lemma le_decode_1 d : le_decode [d] = b2z d.
Proof. simpl. lia. Qed.

Lemma le_encode_1 z : le_encode 1 z = [z2b z].
Proof. done. Qed.

#[global] Opaque le_encode le_decode.

(** ** Slices: [s[i:j]] *)
Definition slice {A} (i j : nat) (l : list A) : list A := take (j - i) (drop i l).

Lemma length_slice {A} i j (l : list A) :
  (i ≤ j)%nat → (j ≤ length l)%nat → length (slice i j l) = (j - i)%nat.
Proof. intros. unfold slice. rewrite length_take, length_drop. lia. Qed.

Lemma drop_slice {A} i j (l : list A) :
  (i ≤ j)%nat → drop i l = slice i j l ++ drop j l.
Proof.
  intros. unfold slice. rewrite <- (take_drop (j - i) (drop i l)) at 1.
  f_equal. rewrite drop_drop. f_equal. lia.
Qed.

Lemma slice_app_skip {A} i j (a b : list A) :
  (length a ≤ i)%nat → slice i j (a ++ b) = slice (i - length a) (j - length a) b.
Proof.
  intros H. unfold slice. rewrite drop_app_ge by done. f_equal. lia.
Qed.

Lemma slice_app_hit {A} j (a b : list A) :
  length a = j → slice 0 j (a ++ b) = a.
Proof.
  intros <-. unfold slice. rewrite drop_0, Nat.sub_0_r. apply take_app_length.
Qed.

Lemma slice_all {A} j (a : list A) : length a = j → slice 0 j a = a.
Proof. intros <-. unfold slice. rewrite drop_0, Nat.sub_0_r. apply take_ge. lia. Qed.

Lemma slice_join {A} i j k (l : list A) :
  (i ≤ j ≤ k)%nat → slice i j l ++ slice j k l = slice i k l.
Proof.
  intros H. unfold slice. replace (drop j l) with (drop (j - i) (drop i l)).
  2: { rewrite drop_drop. f_equal. lia. }
  rewrite take_take_drop. f_equal. lia.
Qed.

Lemma slice_head {A} (a : A) l : l !! 0%nat = Some a → [a] = slice 0 1 l.
Proof. destruct l; [done|]. by intros [= ->]. Qed.

Lemma slice_drop {A} n i j (l : list A) : slice i j (drop n l) = slice (n + i) (n + j) l.
Proof. unfold slice. rewrite drop_drop. f_equal. lia. Qed.

(** [slices] evaluates [slice i j (p1 ++ p2 ++ ...)] for parts of known length. *)
Ltac slices :=
  repeat (rewrite slice_app_skip by (simpl; lia));
  match goal with
  | |- context [slice ?i ?j (?a ++ _)] =>
      replace i with 0%nat by (simpl; lia); rewrite (slice_app_hit j a) by (simpl; lia)
  | |- context [slice ?i ?j ?a] =>
      replace i with 0%nat by (simpl; lia); rewrite (slice_all j a) by (simpl; lia)
  end.

(** ** Results *)
Inductive res (E A : Type) : Type :=
| Ok (a : A)
| Err (e : E).
Arguments Ok {E A} a.
Arguments Err {E A} e.

Definition res_bind {E A B} (c : res E A) (k : A → res E B) : res E B :=
  match c with
  | Ok a => k a
  | Err e => Err e
  end.

Notation "'let?' x ':=' c 'in' k" := (res_bind c (λ x, k))
  (at level 200, x pattern, c at level 200, k at level 200) : go_scope.
Notation "'check?' b 'else' e 'in' k" := (if b then k else Err e)
  (at level 200, b at level 200, e at level 200, k at level 200) : go_scope.

Definition is_Ok {E A} (r : res E A) : bool :=
  match r with Ok _ => true | Err _ => false end.

Lemma res_bind_Ok {E A B} (c : res E A) (k : A → res E B) b :
  res_bind c k = Ok b ↔ ∃ a, c = Ok a ∧ k a = Ok b.
Proof.
  destruct c as [a|e]; simpl; split; intros H; [by exists a| |done|].
  - by destruct H as (a' & [= ->] & H).
  - by destruct H as (a' & [=] & H).
Qed.

(** [res_inv] turns [res_bind]/[if] chains that returned [Ok] in the context
    into their steps. *)
Ltac res_inv :=
  repeat match goal with
  | H : res_bind _ _ = Ok _ |- _ =>
      let a := fresh "a" in let Ha := fresh "Hok" in
      apply res_bind_Ok in H as (a & Ha & H)
  | H : Ok _ = Ok _ |- _ => injection H as H
  | H : Err _ = Ok _ |- _ => discriminate H
  | H : Ok _ = Err _ |- _ => discriminate H
  | H : (if ?b then _ else _) = Ok _ |- _ => let E := fresh "Hb" in destruct b eqn:E
  | x : (_ * _)%type |- _ => destruct x
  end.

(** A loop [for _, b := range l] that threads a value and may return early. *)
Fixpoint res_foldl {E A B} (f : A → B → res E A) (a : A) (l : list B) : res E A :=
  match l with
  | [] => Ok a
  | b :: l' => let? a' := f a b in res_foldl f a' l'
  end.

(** A loop over [l] that only checks each element. *)
Fixpoint res_forall {E B} (f : B → res E unit) (l : list B) : res E unit :=
  match l with
  | [] => Ok tt
  | b :: l' => let? _ := f b in res_forall f l'
  end.

Lemma res_foldl_ind {E A B} (P : list B → A → Prop) (f : A → B → res E A) l a0 a :
  P [] a0 → (∀ pre b x x', pre ++ [b] `prefix_of` l → P pre x → f x b = Ok x' → P (pre ++ [b]) x') →
  res_foldl f a0 l = Ok a → P l a.
Proof.
  assert (G : ∀ l pre a0, P pre a0 →
    (∀ p b x x', p ++ [b] `prefix_of` pre ++ l → P p x → f x b = Ok x' → P (p ++ [b]) x') →
    res_foldl f a0 l = Ok a → P (pre ++ l) a); [|exact (G l [] a0)].
  clear. intros l. induction l as [|b l IH]; intros pre a0 H0 Hstep H.
  - injection H as <-. by rewrite app_nil_r.
  - cbn in H. apply res_bind_Ok in H as (x & Hx & H).
    change (b :: l) with ([b] ++ l) in *. rewrite app_assoc in *.
    apply (IH _ x); [|done|done]. apply (Hstep _ _ a0); [by apply prefix_app_r|done|done].
Qed.

Lemma res_forall_Ok {E B} (f : B → res E unit) l :
  res_forall f l = Ok tt ↔ Forall (λ b, f b = Ok tt) l.
Proof.
  induction l as [|b l IH]; cbn; [by split; [constructor|]|].
  rewrite Forall_cons, <- IH. destruct (f b) as [[]|e]; cbn; naive_solver.
Qed.

(** ** Readers: [io.Reader] over a byte buffer *)
(** The errors a decoder returns.  [GoPanic] is not an error value of the
    program: it marks a run-time panic (a slice bound out of range), which no
    decoder recovers from. *)
Inductive ioerr :=
| EOF
| UnexpectedEOF
| ErrStr (msg : string)
| GoPanic (msg : string).

Definition reader (A : Type) : Type := bytes → res ioerr (A * bytes).

(** [io.ReadFull(r, buf)] for a buffer of [n] bytes. *)
Definition ReadFull (n : nat) : reader bytes := λ s,
  if (n =? 0)%nat then Ok ([], s)
  else match s with
       | [] => Err EOF
       | _ => if (length s <? n)%nat then Err UnexpectedEOF
              else Ok (take n s, drop n s)
       end.

Definition rret {A} (a : A) : reader A := λ s, Ok (a, s).
Definition rfail {A} (e : ioerr) : reader A := λ _, Err e.
Definition rbind {A B} (c : reader A) (k : A → reader B) : reader B := λ s,
  match c s with
  | Ok (a, s') => k a s'
  | Err e => Err e
  end.

Arguments rbind : simpl never.

Notation "'read' x ':=' c 'in' k" := (rbind c (λ x, k))
  (at level 200, x pattern, c at level 200, k at level 200) : go_scope.

Lemma ReadFull_app n a s : length a = n → ReadFull n (a ++ s) = Ok (a, s).
Proof.
  intros <-. unfold ReadFull. destruct a as [|b a]; [done|].
  change (length (b :: a) =? 0)%nat with false. cbn [app].
  destruct (Nat.ltb_spec (length (b :: a ++ s)) (length (b :: a))) as [H|_].
  - simpl in H. rewrite length_app in H. lia.
  - f_equal. f_equal; simpl; [by rewrite take_app_length|by rewrite drop_app_length].
Qed.

Lemma ReadFull_Ok n s a r : ReadFull n s = Ok (a, r) → s = a ++ r ∧ length a = n.
Proof.
  unfold ReadFull. destruct (Nat.eqb_spec n 0) as [->|Hn].
  - intros [= <- <-]. done.
  - destruct s as [|b s]; [done|].
    destruct (Nat.ltb_spec (length (b :: s)) n) as [|H]; [done|].
    intros [= <- <-]. split; [by rewrite take_drop|]. rewrite length_take. lia.
Qed.

Lemma ReadFull_exact n a : length a = n → ReadFull n a = Ok (a, []).
Proof. intros H. rewrite <- (app_nil_r a) at 1. by apply ReadFull_app. Qed.

Lemma rbind_Ok {A B} (c : reader A) (k : A → reader B) s b r :
  rbind c k s = Ok (b, r) ↔ ∃ a s', c s = Ok (a, s') ∧ k a s' = Ok (b, r).
Proof.
  unfold rbind. destruct (c s) as [[a s']|e]; split; intros H.
  - by exists a, s'.
  - by destruct H as (? & ? & [= <- <-] & H).
  - done.
  - by destruct H as (? & ? & [=] & H).
Qed.

Lemma rbind_step {A B} (c : reader A) (k : A → reader B) s a s' :
  c s = Ok (a, s') → rbind c k s = k a s'.
Proof. unfold rbind. by intros ->. Qed.

(** One step of a decoder whose result is known. *)
Ltac rstep tac := erewrite rbind_step by tac; cbv beta iota.

(** ** The codec interface

    What an encoder and its decoder promise to the code that nests them: the
    decoder reads back every well-formed value and leaves the rest of the
    stream, and it accepts nothing but the encodings of well-formed values. *)
Class Codec {A} (enc : A → bytes) (dec : reader A) (wf : A → Prop) : Prop := {
  codec_roundtrip a r : wf a → dec (enc a ++ r) = Ok (a, r);
  codec_canonical s a r : dec s = Ok (a, r) → s = enc a ++ r ∧ wf a }.

Lemma codec_iff {A} (enc : A → bytes) dec wf `{!Codec enc dec wf} s a r :
  dec s = Ok (a, r) ↔ s = enc a ++ r ∧ wf a.
Proof.
  split; [apply codec_canonical|]. intros [-> Ha]. by apply codec_roundtrip.
Qed.

(** A codec's encoding is prefix-free. *)
Lemma codec_prefix_free {A} (enc : A → bytes) dec wf `{!Codec enc dec wf} a b r r' :
  wf a → wf b → enc a ++ r = enc b ++ r' → a = b ∧ r = r'.
Proof.
  intros Ha Hb H. pose proof (codec_roundtrip (dec:=dec) a r Ha) as H1.
  rewrite H, (codec_roundtrip b r' Hb) in H1. by injection H1.
Qed.

#[export] Instance ReadFull_codec n : Codec id (ReadFull n) (λ b, length b = n).
Proof.
  split; [intros a r; apply ReadFull_app|intros s a r; apply ReadFull_Ok].
Qed.

(** A little-endian field of [n] bytes. *)
Definition ReadLE (n : nat) : reader Z := read b := ReadFull n in rret (le_decode b).

(** A counted loop [for i := 0; i < n; i++] whose body reads one element and
    threads a loop state. *)
Fixpoint rloop {A St} (n : nat) (body : St → reader (A * St)) (st : St)
  : reader (list A * St) :=
  match n with
  | O => rret ([], st)
  | S n' =>
      read (a, st') := body st in
      read (l, st'') := rloop n' body st' in
      rret (a :: l, st'')
  end.

(** ** Hint databases and shared tactics *)
Create HintDb golen.
#[export] Hint Rewrite @length_app @length_cons @length_nil length_le_encode
  length_be_encode @length_replicate @length_fmap : golen.

(** [solve_len] closes goals about the length of concatenated buffers. *)
Ltac solve_len := autorewrite with golen in *; simpl length in *; lia.

Lemma Forall_fmap_inv {A B} (f : A → B) (P : B → Prop) l :
  Forall P (f <$> l) → Forall (λ a, P (f a)) l.
Proof. rewrite !Forall_forall. intros H a Ha. apply H, list_elem_of_fmap. eauto. Qed.

Section rloop_facts.
Context {A : Type} (enc : A → bytes) (cost : A → Z).
Context (body : Z → reader (A * Z)).

(** If the body decodes [enc a] and charges [cost a] against the budget, the
    loop decodes a whole list within its total cost. *)
Lemma rloop_encode (P : A → Prop) l c r :
  (∀ a c r, P a → 0 <= cost a <= c → body c (enc a ++ r) = Ok ((a, c - cost a), r)) →
  Forall (λ a, P a ∧ 0 <= cost a) l →
  foldr (λ a n, cost a + n) 0 l <= c →
  rloop (length l) body c (concat (enc <$> l) ++ r)
  = Ok ((l, c - foldr (λ a n, cost a + n) 0 l), r).
Proof.
  intros Hb Hl. revert c r. induction Hl as [|a l [Ha Hc] Hl IH]; intros c r Hsum.
  - cbn. unfold rret. rewrite Z.sub_0_r. done.
  - cbn [rloop length concat fmap list_fmap foldr] in *. assert (0 <= foldr (λ a n, cost a + n) 0 l).
    { clear -Hl. induction Hl as [|? ? [? ?] ?]; simpl; lia. }
    rewrite <- app_assoc.
    rstep ltac:(apply Hb; [done|lia]).
    rstep ltac:(apply IH; lia).
    unfold rret. do 3 f_equal. lia.
Qed.

(** If whatever the body accepts is the encoding of its result, so it is for
    the loop. *)
Lemma rloop_canonical (P : A → Prop) n c s l c' r :
  (∀ c s a c' r, 0 <= c → body c s = Ok ((a, c'), r) →
     s = enc a ++ r ∧ P a ∧ c' = c - cost a ∧ 0 <= c') →
  0 <= c →
  rloop n body c s = Ok ((l, c'), r) →
  s = concat (enc <$> l) ++ r ∧ length l = n ∧ Forall P l
  ∧ c' = c - foldr (λ a n, cost a + n) 0 l ∧ 0 <= c'.
Proof.
  intros Hb. revert c s l c' r. induction n as [|n IH]; intros c s l c' r Hc H.
  - injection H as <- <- <-. simpl. repeat split; [constructor|lia|lia].
  - cbn [rloop] in H. apply rbind_Ok in H as ([a c1] & s1 & H1 & H).
    apply rbind_Ok in H as ([l' c2] & s2 & H2 & H). injection H as <- <- <-.
    apply Hb in H1 as (-> & Ha & -> & Hc1); [|done].
    apply IH in H2 as (-> & <- & Hl & -> & Hc2); [|done].
    simpl. rewrite <- app_assoc. repeat split; [by constructor|lia|lia].
Qed.
End rloop_facts.

(** A loop that decodes the elements of a codec and threads no state. *)
Lemma rloop_codec {A} (enc : A → bytes) dec wf `{!Codec enc dec wf} n l s r :
  rloop n (λ _ : Z, read a := dec in rret (a, 0)) 0 s = Ok ((l, 0), r)
  ↔ s = concat (enc <$> l) ++ r ∧ length l = n ∧ Forall wf l.
Proof.
  split.
  - revert l s r. induction n as [|n IH]; intros l s r H.
    + injection H as <- <-. done.
    + cbn [rloop] in H. apply rbind_Ok in H as ([a c] & s1 & H1 & H).
      apply rbind_Ok in H1 as (a' & s2 & H1 & H2). injection H2 as -> <- ->.
      apply rbind_Ok in H as ([l' c'] & s3 & H2 & H). injection H as <- -> <-.
      apply IH in H2 as (-> & <- & Hl). apply codec_canonical in H1 as [-> Ha].
      csimpl. rewrite <- app_assoc. by split_and!; [..|constructor].
  - intros (-> & <- & Hl). revert r. induction Hl as [|a l Ha Hl IH]; intros r; [done|].
    cbn [length rloop]. csimpl. rewrite <- app_assoc. unfold rbind at 1.
    rewrite (rbind_step dec _ _ a (concat (enc <$> l) ++ r)) by (by apply codec_roundtrip).
    unfold rret at 1. rewrite (rbind_step _ _ _ _ _ (IH r)). done.
Qed.

Lemma rloop_codec_state {A} (dec : reader A) n l s r c :
  rloop n (λ _ : Z, read a := dec in rret (a, 0)) 0 s = Ok ((l, c), r) → c = 0.
Proof.
  revert l s r. induction n as [|n IH]; intros l s r H.
  - by injection H.
  - cbn [rloop] in H. apply rbind_Ok in H as ([a c'] & s1 & H1 & H).
    apply rbind_Ok in H1 as (a' & s2 & H1 & H2). injection H2 as -> <- ->.
    apply rbind_Ok in H as ([l' c''] & s3 & H2 & H). injection H as <- <- <-.
    by eapply IH.
Qed.

Lemma beq_true {A} `{EqDecision A} (a b : A) : bool_decide (a = b) = true ↔ a = b.
Proof. apply bool_decide_eq_true. Qed.

(** Case analysis on the [bool] tests the models use. *)
Ltac bsplit :=
  repeat match goal with
  | H : (_ && _) = true |- _ => apply andb_true_iff in H as [? ?]
  | H : bool_decide _ = true |- _ => apply bool_decide_eq_true in H
  | H : bool_decide _ = false |- _ => apply bool_decide_eq_false in H
  | H : negb _ = true |- _ => apply negb_true_iff in H
  | H : negb _ = false |- _ => apply negb_false_iff in H
  | H : (_ =? _) = true |- _ => apply Z.eqb_eq in H
  | H : (_ =? _) = false |- _ => apply Z.eqb_neq in H
  | H : (_ <? _) = true |- _ => apply Z.ltb_lt in H
  | H : (_ <? _) = false |- _ => apply Z.ltb_ge in H
  | H : (_ <=? _) = true |- _ => apply Z.leb_le in H
  | H : (_ <=? _) = false |- _ => apply Z.leb_gt in H
  | H : (_ =? _)%nat = true |- _ => apply Nat.eqb_eq in H
  | H : (_ =? _)%nat = false |- _ => apply Nat.eqb_neq in H
  | H : (_ <? _)%nat = true |- _ => apply Nat.ltb_lt in H
  | H : (_ <? _)%nat = false |- _ => apply Nat.ltb_ge in H
  end.
