(* ===== verification/RuleErrors.v ===== *)
(** * Rule violations (src/node/blockchain/error.go)

    The error codes of the consensus rules, in the order of the source, and
    the errors a validation function can return. *)
From stdpp Require Import base decidable list.

Inductive ErrorCode :=
| ErrDuplicateBlock
| ErrBlockTooBig
| ErrBlockVersionTooOld
| ErrInvalidTime
| ErrTimeTooOld
| ErrTimeTooNew
| ErrDifficultyTooLow
| ErrUnexpectedDifficulty
| ErrHighHash
| ErrCertificateTooLarge
| ErrCertificateMissing
| ErrDisallowedCertVersion
| ErrBadMerkleRoot
| ErrBadCheckpoint
| ErrForkTooOld
| ErrCheckpointTimeTooOld
| ErrNoTransactions
| ErrNoTxInputs
| ErrNoTxOutputs
| ErrTxTooBig
| ErrBadTxOutValue
| ErrDuplicateTxInputs
| ErrBadTxInput
| ErrMissingTxOut
| ErrUnfinalizedTx
| ErrDuplicateTx
| ErrOverwriteTx
| ErrImmatureSpend
| ErrSpendTooHigh
| ErrBadFees
| ErrInsufficientFee
| ErrFirstTxNotCoinbase
| ErrMultipleCoinbases
| ErrBadCoinbaseScriptLen
| ErrBadCoinbaseValue
| ErrMissingCoinbaseHeight
| ErrBadCoinbaseHeight
| ErrScriptMalformed
| ErrScriptValidation
| ErrUnexpectedWitness
| ErrInvalidWitnessCommitment
| ErrWitnessCommitmentMismatch
| ErrPreviousBlockUnknown
| ErrInvalidAncestorBlock
| ErrPrevBlockNotBest
| ErrTimewarpAttack
| ErrTooManyTransactions
| ErrBadAuxPoW.

#[export] Instance ErrorCode_eq_dec : EqDecision ErrorCode.
Proof. solve_decision. Defined.

(** [RuleError], [AssertError], or an error that is not a rule violation (a
    database failure, a malformed script found by another package).
    [RuntimePanic] is not an error value of the program: it marks a run-time
    panic (a nil dereference, an index out of range, a division by zero). *)
Inductive verr :=
| RuleError (c : ErrorCode)
| AssertError
| OtherError
| RuntimePanic.

#[export] Instance verr_eq_dec : EqDecision verr.
Proof. solve_decision. Defined.

Abbreviation ruleError c := (RuleError c).
