(* ===== verification/WireTx.v ===== *)
(** The transaction codec: the variable-length integers of
    [src/node/wire/common.go] and the transaction message of
    [src/node/wire/msgtx.go].

    A [Serialize] method writes to an in-memory buffer that does not fail, so it
    is the list of bytes it writes; a decoder is a [reader].  The script buffer
    [sbuf] that [prlDecode] slices its scripts from is modelled by the capacity
    it has left: slicing past it is the run-time panic [GoPanic]. *)
From Stdlib Require Import ZArith Lia Strings.Byte Strings.String.
From stdpp Require Import base list gmap.
From S2P Require Import Prelude.
Open Scope Z_scope.

(** ** Variable-length integers *)

Definition nonCanonicalVarInt : ioerr :=
  ErrStr "ReadVarInt: non-canonical varint".

Definition ReadVarIntBuf : reader Z :=
  read b := ReadFull 1 in
  let discriminant := le_decode b in
  if discriminant =? 0xff then
    read buf := ReadFull 8 in
    let rv := le_decode buf in
    if rv <? 0x100000000 then rfail nonCanonicalVarInt else rret rv
  else if discriminant =? 0xfe then
    read buf := ReadFull 4 in
    let rv := le_decode buf in
    if rv <? 0x10000 then rfail nonCanonicalVarInt else rret rv
  else if discriminant =? 0xfd then
    read buf := ReadFull 2 in
    let rv := le_decode buf in
    if rv <? 0xfd then rfail nonCanonicalVarInt else rret rv
  else rret discriminant.

Definition WriteVarIntBuf (val : Z) : bytes :=
  if val <? 0xfd then le_encode 1 val
  else if val <=? 0xffff then xfd :: le_encode 2 val
  else if val <=? 0xffffffff then xfe :: le_encode 4 val
  else xff :: le_encode 8 val.

Definition VarIntSerializeSize (val : Z) : Z :=
  if val <? 0xfd then 1
  else if val <=? 0xffff then 3
  else if val <=? 0xffffffff then 5
  else 9.

Definition WriteVarBytesBuf (b : bytes) : bytes :=
  WriteVarIntBuf (Z.of_nat (length b)) ++ b.

Definition ReadVarBytesBuf (maxAllowed : Z) (fieldName : string) : reader bytes :=
  read count := ReadVarIntBuf in
  if maxAllowed <? count
  then rfail (ErrStr ("ReadVarBytes: " ++ fieldName ++ " is larger than the max allowed size"))
  else ReadFull (Z.to_nat count).

(** ** Transactions: data *)

Definition HashSize : nat := 32.

Record OutPoint := mkOutPoint { op_Hash : bytes; op_Index : Z }.

Record TxIn := mkTxIn {
  ti_PreviousOutPoint : OutPoint;
  ti_SignatureScript : bytes;
  ti_Witness : list bytes;
  ti_Sequence : Z }.

Record TxOut := mkTxOut { to_Value : Z; to_PkScript : bytes }.

Record MsgTx := mkMsgTx {
  tx_Version : Z;
  tx_TxIn : list TxIn;
  tx_TxOut : list TxOut;
  tx_LockTime : Z }.

#[export] Instance OutPoint_eq_dec : EqDecision OutPoint.
Proof. solve_decision. Defined.
#[export] Instance TxIn_eq_dec : EqDecision TxIn.
Proof. solve_decision. Defined.
#[export] Instance TxOut_eq_dec : EqDecision TxOut.
Proof. solve_decision. Defined.
#[export] Instance MsgTx_eq_dec : EqDecision MsgTx.
Proof. solve_decision. Defined.
#[export] Instance OutPoint_countable : Countable OutPoint.
Proof.
  refine (inj_countable' (λ o, (op_Hash o, op_Index o)) (λ p, mkOutPoint p.1 p.2) _).
  by intros [].
Defined.

Definition TxVersion := 1.
Definition TxVersionInference := 3.
Definition TxVersionInferenceProof := 4.
Definition TxVersionInferenceGo := 5.
Definition MaxMessagePayload := 1024 * 1024 * 32.
Definition MaxBlockPayload := 4000000.
Definition minTxInPayload := 9 + Z.of_nat HashSize.
Definition maxTxInPerMessage := MaxMessagePayload / minTxInPayload + 1.
Definition MinTxOutPayload := 9.
Definition maxTxOutPerMessage := MaxMessagePayload / MinTxOutPayload + 1.
Definition maxWitnessItemsPerInput := 4000000.
Definition maxWitnessItemSize := 4000000.
Definition scriptSlabSize := 2 ^ 22.
Definition TxFlagMarker := 0.
Definition WitnessFlag := 1.

Inductive MessageEncoding := BaseEncoding | WitnessEncoding.

(** ** Transactions: operations *)

Definition HasWitness (msg : MsgTx) : bool :=
  existsb (λ ti, negb (length (ti_Witness ti) =? 0)%nat) (tx_TxIn msg).

Definition readOutPointBuf : reader OutPoint :=
  read h := ReadFull HashSize in
  read buf := ReadFull 4 in
  rret (mkOutPoint h (le_decode buf)).

Definition writeOutPointBuf (op : OutPoint) : bytes :=
  op_Hash op ++ le_encode 4 (op_Index op).

(** [s[:count]] panics when [count] exceeds the capacity of [s]. *)
Definition readScriptBuf (s : Z) (fieldName : string) : reader bytes :=
  read count := ReadVarIntBuf in
  if maxWitnessItemSize <? count
  then rfail (ErrStr ("readScript: " ++ fieldName ++ " is larger than the max allowed size"))
  else if s <? count then rfail (GoPanic "slice bounds out of range")
  else ReadFull (Z.to_nat count).

Definition readTxInBuf (s : Z) : reader TxIn :=
  read op := readOutPointBuf in
  read script := readScriptBuf s "transaction input signature script" in
  read buf := ReadFull 4 in
  rret (mkTxIn op script [] (le_decode buf)).

Definition writeTxInBuf (ti : TxIn) : bytes :=
  writeOutPointBuf (ti_PreviousOutPoint ti)
  ++ WriteVarBytesBuf (ti_SignatureScript ti)
  ++ le_encode 4 (ti_Sequence ti).

Definition readTxOutBuf (s : Z) : reader TxOut :=
  read buf := ReadFull 8 in
  read script := readScriptBuf s "transaction output public key script" in
  rret (mkTxOut (i64 (le_decode buf)) script).

Definition WriteTxOutBuf (to : TxOut) : bytes :=
  le_encode 8 (u64 (to_Value to)) ++ WriteVarBytesBuf (to_PkScript to).

Definition writeTxWitnessBuf (wit : list bytes) : bytes :=
  WriteVarIntBuf (Z.of_nat (length wit)) ++ concat (WriteVarBytesBuf <$> wit).

Definition zlen {A} (l : list A) : Z := Z.of_nat (length l).

(** The loop bodies of [prlDecode]: each charges the script it read to [sbuf]. *)
Definition txInBody (sbuf : Z) : reader (TxIn * Z) :=
  read ti := readTxInBuf sbuf in
  rret (ti, sbuf - zlen (ti_SignatureScript ti)).

Definition txOutBody (sbuf : Z) : reader (TxOut * Z) :=
  read to := readTxOutBuf sbuf in
  rret (to, sbuf - zlen (to_PkScript to)).

Definition witnessItemBody (sbuf : Z) : reader (bytes * Z) :=
  read w := readScriptBuf sbuf "script witness item" in
  rret (w, sbuf - zlen w).

Definition witnessBody (sbuf : Z) : reader (list bytes * Z) :=
  read witCount := ReadVarIntBuf in
  if maxWitnessItemsPerInput <? witCount
  then rfail (ErrStr "MsgTx.PrlDecode: too many witness items to fit into max message size")
  else rloop (Z.to_nat witCount) witnessItemBody sbuf.

Definition setWitness (ti : TxIn) (w : list bytes) : TxIn :=
  mkTxIn (ti_PreviousOutPoint ti) (ti_SignatureScript ti) w (ti_Sequence ti).

Definition errSuperfluousWitnessRecord : ioerr :=
  ErrStr "witness flag set but tx has no witnesses".

(** [prlDecode], the witness marker and flag: a zero input count announces the
    witness encoding. *)
Definition prlDecodeFlag (enc : MessageEncoding) (count : Z) : reader (Z * Z) :=
  match enc with
  | WitnessEncoding =>
      if count =? TxFlagMarker then
        read fbuf := ReadFull 1 in
        let flag := le_decode fbuf in
        if negb (flag =? WitnessFlag)
        then rfail (ErrStr "MsgTx.PrlDecode: witness tx but flag byte is")
        else read count := ReadVarIntBuf in rret (flag, count)
      else rret (0, count)
  | BaseEncoding => rret (0, count)
  end.

(** [prlDecode], the witnesses of all inputs. *)
Definition prlDecodeWitness (version flag sbuf : Z) (txIns : list TxIn)
  (txOuts : list TxOut) : reader (list TxIn) :=
  if negb (flag =? 0) then
    read (wits, _) := rloop (length txIns) witnessBody sbuf in
    let txIns := zip_with setWitness txIns wits in
    if negb (HasWitness (mkMsgTx version txIns txOuts 0))
    then rfail errSuperfluousWitnessRecord
    else rret txIns
  else rret txIns.

(** [prlDecode], inputs, outputs, witnesses and lock time.  The final copy of
    every script into one allocation changes no content. *)
Definition prlDecodeBody (version flag count sbuf : Z) : reader MsgTx :=
  if maxTxInPerMessage <? count
  then rfail (ErrStr "MsgTx.PrlDecode: too many input transactions to fit into max message size")
  else
  read (txIns, sbuf) := rloop (Z.to_nat count) txInBody sbuf in
  read count := ReadVarIntBuf in
  if maxTxOutPerMessage <? count
  then rfail (ErrStr "MsgTx.PrlDecode: too many output transactions to fit into max message size")
  else
  read (txOuts, sbuf) := rloop (Z.to_nat count) txOutBody sbuf in
  read txIns := prlDecodeWitness version flag sbuf txIns txOuts in
  read lbuf := ReadFull 4 in
  rret (mkMsgTx version txIns txOuts (le_decode lbuf)).

Definition prlDecode (enc : MessageEncoding) (sbuf : Z) : reader MsgTx :=
  read vbuf := ReadFull 4 in
  let version := i32 (le_decode vbuf) in
  read count := ReadVarIntBuf in
  read (flag, count) := prlDecodeFlag enc count in
  prlDecodeBody version flag count sbuf.

Definition Deserialize : reader MsgTx := prlDecode WitnessEncoding scriptSlabSize.
Definition DeserializeNoWitness : reader MsgTx := prlDecode BaseEncoding scriptSlabSize.

Definition prlEncode (enc : MessageEncoding) (msg : MsgTx) : bytes :=
  let doWitness :=
    match enc with WitnessEncoding => HasWitness msg | BaseEncoding => false end in
  le_encode 4 (u32 (tx_Version msg))
  ++ (if doWitness then [z2b TxFlagMarker; z2b WitnessFlag] else [])
  ++ WriteVarIntBuf (zlen (tx_TxIn msg))
  ++ concat (writeTxInBuf <$> tx_TxIn msg)
  ++ WriteVarIntBuf (zlen (tx_TxOut msg))
  ++ concat (WriteTxOutBuf <$> tx_TxOut msg)
  ++ (if doWitness then concat ((λ ti, writeTxWitnessBuf (ti_Witness ti)) <$> tx_TxIn msg)
      else [])
  ++ le_encode 4 (tx_LockTime msg).

Definition Serialize : MsgTx → bytes := prlEncode WitnessEncoding.
Definition SerializeNoWitness : MsgTx → bytes := prlEncode BaseEncoding.

Definition TxIn_SerializeSize (t : TxIn) : Z :=
  40 + VarIntSerializeSize (zlen (ti_SignatureScript t)) + zlen (ti_SignatureScript t).

Definition TxOut_SerializeSize (t : TxOut) : Z :=
  8 + VarIntSerializeSize (zlen (to_PkScript t)) + zlen (to_PkScript t).

Definition TxWitness_SerializeSize (t : list bytes) : Z :=
  foldl (λ n w, n + VarIntSerializeSize (zlen w) + zlen w)
    (VarIntSerializeSize (zlen t)) t.

Definition baseSize (msg : MsgTx) : Z :=
  let n := 8 + VarIntSerializeSize (zlen (tx_TxIn msg))
             + VarIntSerializeSize (zlen (tx_TxOut msg)) in
  let n := foldl (λ n ti, n + TxIn_SerializeSize ti) n (tx_TxIn msg) in
  foldl (λ n to, n + TxOut_SerializeSize to) n (tx_TxOut msg).

Definition SerializeSize (msg : MsgTx) : Z :=
  let n := baseSize msg in
  if HasWitness msg
  then foldl (λ n ti, n + TxWitness_SerializeSize (ti_Witness ti)) (n + 2) (tx_TxIn msg)
  else n.

Definition SerializeSizeStripped (msg : MsgTx) : Z := baseSize msg.

(** [chainhash.DoubleHashRaw]/[DoubleHashH] hash with SHA-256 twice. *)
Section Hashes.
Context (sha256 : bytes → bytes).

Definition DoubleHashH (b : bytes) : bytes := sha256 (sha256 b).
Definition TxHash (msg : MsgTx) : bytes := DoubleHashH (SerializeNoWitness msg).
Definition WitnessHash (msg : MsgTx) : bytes :=
  if HasWitness msg then DoubleHashH (Serialize msg) else TxHash msg.
End Hashes.

(** ** Well-formedness: what the Go types and the decoder's limits allow *)

Definition wfOutPoint (o : OutPoint) : Prop :=
  length (op_Hash o) = HashSize ∧ inU 32 (op_Index o).

Definition wfScript (s : bytes) : Prop := zlen s <= maxWitnessItemSize.

Definition wfTxIn (ti : TxIn) : Prop :=
  wfOutPoint (ti_PreviousOutPoint ti) ∧ wfScript (ti_SignatureScript ti)
  ∧ inU 32 (ti_Sequence ti).

Definition wfWitness (w : list bytes) : Prop :=
  zlen w <= maxWitnessItemsPerInput ∧ Forall wfScript w.

Definition wfTxOut (to : TxOut) : Prop :=
  inS 64 (to_Value to) ∧ wfScript (to_PkScript to).

Definition sumZ {A} (f : A → Z) (l : list A) : Z := foldr (λ a n, f a + n) 0 l.

(** The bytes of script the decoder copies into its slab. *)
Definition scriptBytes (msg : MsgTx) : Z :=
  sumZ (λ ti, zlen (ti_SignatureScript ti)) (tx_TxIn msg)
  + sumZ (λ to, zlen (to_PkScript to)) (tx_TxOut msg)
  + sumZ (λ ti, sumZ zlen (ti_Witness ti)) (tx_TxIn msg).

Definition wfTx (msg : MsgTx) : Prop :=
  inS 32 (tx_Version msg) ∧ inU 32 (tx_LockTime msg)
  ∧ Forall wfTxIn (tx_TxIn msg) ∧ Forall wfTxOut (tx_TxOut msg)
  ∧ Forall (λ ti, wfWitness (ti_Witness ti)) (tx_TxIn msg)
  ∧ zlen (tx_TxIn msg) <= maxTxInPerMessage
  ∧ zlen (tx_TxOut msg) <= maxTxOutPerMessage
  ∧ scriptBytes msg <= scriptSlabSize.

(** ** Lemmas *)

Lemma zlen_nonneg {A} (l : list A) : 0 <= zlen l.
Proof. unfold zlen. lia. Qed.

Lemma sumZ_app {A} (f : A → Z) l k : sumZ f (l ++ k) = sumZ f l + sumZ f k.
Proof. unfold sumZ. induction l as [|a l IH]; cbn [app foldr]; lia. Qed.

Lemma sumZ_Forall_nonneg {A} (f : A → Z) l : Forall (λ a, 0 <= f a) l → 0 <= sumZ f l.
Proof. unfold sumZ. induction 1; cbn [foldr]; lia. Qed.

Lemma sumZ_nonneg {A} (f : A → Z) l : (∀ a, 0 <= f a) → 0 <= sumZ f l.
Proof. intros H. induction l; simpl; [lia|]. unfold sumZ in *. specialize (H a). lia. Qed.

Lemma ReadFull_le n w v r :
  w = 8 * Z.of_nat n → inU w v →
  ∃ b, ReadFull n (le_encode n v ++ r) = Ok (b, r) ∧ le_decode b = v.
Proof.
  intros Hw Hv. exists (le_encode n v). split.
  - apply ReadFull_app, length_le_encode.
  - by eapply le_roundtrip.
Qed.

(** [read_le] reads back an integer field that was just written. *)
Ltac read_le n w :=
  match goal with
  | |- context [le_encode n ?v ++ ?r] =>
      let b := fresh "b" in let H1 := fresh in let H2 := fresh in
      destruct (ReadFull_le n w v r) as (b & H1 & H2);
      [reflexivity|try done|rewrite (rbind_step _ _ _ _ _ H1); cbv beta; rewrite H2; clear H1 H2]
  end.

Lemma WriteVarIntBuf_length v : Z.of_nat (length (WriteVarIntBuf v)) = VarIntSerializeSize v.
Proof.
  unfold WriteVarIntBuf, VarIntSerializeSize.
  repeat case_match; simpl; done.
Qed.

Lemma ReadFull_1 d s : ReadFull 1 (d :: s) = Ok ([d], s).
Proof. apply (ReadFull_app 1 [d]). done. Qed.

(** Evaluate the comparison of a literal tag byte with a literal. *)
Ltac eval_tags :=
  repeat match goal with
  | |- context [b2z ?d =? ?k] =>
      let v := eval vm_compute in (b2z d =? k) in
      lazymatch v with
      | true => change (b2z d =? k) with true
      | false => change (b2z d =? k) with false
      end
  end.

Lemma ReadVarIntBuf_roundtrip v r :
  inU 64 v → ReadVarIntBuf (WriteVarIntBuf v ++ r) = Ok (v, r).
Proof.
  intros Hv. pose proof Hv as [H0 H1]. unfold ReadVarIntBuf, WriteVarIntBuf.
  destruct (Z.ltb_spec v 0xfd).
  { rewrite le_encode_1. cbn [app]. rstep ltac:(apply ReadFull_1). rewrite le_decode_1, b2z_z2b.
    rewrite Z.mod_small by lia. repeat (case_match; bsplit; [lia|]). done. }
  destruct (Z.leb_spec v 0xffff); [|destruct (Z.leb_spec v 0xffffffff)];
    cbn [app]; rstep ltac:(apply ReadFull_1); rewrite le_decode_1;
    eval_tags; cbv beta iota zeta.
  - read_le 2%nat 16; [unfold inU; lia|]. case_match; bsplit; [lia|done].
  - read_le 4%nat 32; [unfold inU; lia|]. case_match; bsplit; [lia|done].
  - read_le 8%nat 64. case_match; bsplit; [lia|done].
Qed.

(** [read_inv] inverts the steps of a successful decoder. *)
Ltac read_inv :=
  repeat match goal with
  | H : rbind _ _ _ = Ok (_, _) |- _ =>
      let a := fresh "a" in let s := fresh "s" in let Ha := fresh "Hr" in
      apply rbind_Ok in H as (a & s & Ha & H)
  | H : ReadFull _ _ = Ok (_, _) |- _ =>
      let H1 := fresh in let H2 := fresh "Hlen" in
      apply ReadFull_Ok in H as [H1 H2]; try subst
  | H : rfail _ _ = Ok _ |- _ => discriminate H
  | H : rret _ _ = Ok (_, _) |- _ => unfold rret in H; injection H; clear H; intros; subst
  | H : (if ?b then _ else _) _ = Ok _ |- _ => let E := fresh "Hb" in destruct b eqn:E
  | x : (_ * _)%type |- _ => destruct x
  end.

Lemma ReadVarIntBuf_canonical s v r :
  ReadVarIntBuf s = Ok (v, r) → s = WriteVarIntBuf v ++ r ∧ inU 64 v.
Proof.
  unfold ReadVarIntBuf, WriteVarIntBuf. intros H.
  assert (Hpow : 256 ^ Z.of_nat 8 = 2 ^ 64 ∧ 256 ^ Z.of_nat 4 = 2 ^ 32
                 ∧ 256 ^ Z.of_nat 2 = 2 ^ 16) by done.
  destruct Hpow as (P8 & P4 & P2).
  read_inv; bsplit;
    (destruct a as [|d [|? ?]]; [done| |done]); rewrite le_decode_1 in *.
  1-3: match goal with H : length ?l = S (S _) |- _ =>
      pose proof (le_decode_range l) as Hrng; rewrite H in Hrng end.
  - assert (d = xff) as -> by (by apply b2z_inj).
    split; [|unfold inU; lia].
    repeat (case_match; bsplit; [lia|]). by rewrite (le_encode_decode' 8).
  - assert (d = xfe) as -> by (by apply b2z_inj).
    split; [|unfold inU; lia].
    repeat (case_match; bsplit; [lia|]). case_match; bsplit; [|lia].
    by rewrite (le_encode_decode' 4).
  - assert (d = xfd) as -> by (by apply b2z_inj).
    split; [|unfold inU; lia].
    repeat (case_match; bsplit; [lia|]). case_match; bsplit; [|lia].
    by rewrite (le_encode_decode' 2).
  - pose proof (b2z_range d). split; [|unfold inU; lia].
    case_match; bsplit; [|lia]. by rewrite le_encode_1, z2b_b2z.
Qed.

#[export] Instance VarInt_codec : Codec WriteVarIntBuf ReadVarIntBuf (inU 64).
Proof.
  split; [intros a r; apply ReadVarIntBuf_roundtrip|apply ReadVarIntBuf_canonical].
Qed.

#[export] Instance OutPoint_codec : Codec writeOutPointBuf readOutPointBuf wfOutPoint.
Proof.
  unfold readOutPointBuf, writeOutPointBuf. split.
  - intros [h i] r [Hh Hi]. simpl in *. rewrite <- app_assoc.
    rstep ltac:(by apply ReadFull_app). by read_le 4%nat 32.
  - intros s [h i] r H. read_inv. simpl. rewrite <- app_assoc.
    rewrite (le_encode_decode' 4) by done. split; [done|]. split; [done|].
    by apply (le_decode_inU 4).
Qed.

(** The scripts of a transaction: what [readScriptBuf] accepts with [s] bytes
    of slab left. *)
Definition wfScriptIn (s : Z) (b : bytes) : Prop := wfScript b ∧ zlen b <= s.

Lemma wfScript_inU b : wfScript b → inU 64 (zlen b).
Proof.
  unfold wfScript, maxWitnessItemSize, inU. pose proof (zlen_nonneg b). lia.
Qed.

#[export] Instance Script_codec s f :
  Codec WriteVarBytesBuf (readScriptBuf s f) (wfScriptIn s).
Proof.
  unfold readScriptBuf, WriteVarBytesBuf. split.
  - intros b r [Hb Hs]. rewrite <- app_assoc. fold (zlen b).
    rstep ltac:(apply ReadVarIntBuf_roundtrip; by apply wfScript_inU).
    unfold wfScript in Hb. rewrite (proj2 (Z.ltb_ge _ _)), (proj2 (Z.ltb_ge _ _)) by lia.
    unfold zlen. rewrite Nat2Z.id. by apply ReadFull_app.
  - intros st b r H. read_inv; bsplit.
    apply ReadVarIntBuf_canonical in Hr as [-> [Ha ?]].
    assert (Z.of_nat (length b) = a) as Hba by lia.
    rewrite Hba, <- app_assoc. split; [done|].
    unfold wfScriptIn, wfScript, zlen. lia.
Qed.

#[export] Instance TxOut_codec s :
  Codec WriteTxOutBuf (readTxOutBuf s) (λ o, wfTxOut o ∧ zlen (to_PkScript o) <= s).
Proof.
  unfold readTxOutBuf, WriteTxOutBuf. split.
  - intros [v p] r [[Hv Hp] Hs]. simpl in *. rewrite <- app_assoc.
    read_le 8%nat 64; [by apply wrapU_in|]. rewrite wrapS_wrapU by done.
    by rstep ltac:(by apply codec_roundtrip).
  - intros st [v p] r H. read_inv. simpl. rewrite <- app_assoc.
    apply codec_canonical in Hr0 as [-> [Hp1 Hp2]].
    rewrite wrapU_wrapS by (done || by apply (le_decode_inU 8)).
    rewrite (le_encode_decode' 8) by done. repeat split; try done; by apply wrapS_in.
Qed.

#[export] Instance TxIn_codec s :
  Codec writeTxInBuf (readTxInBuf s)
    (λ i, (wfTxIn i ∧ ti_Witness i = []) ∧ zlen (ti_SignatureScript i) <= s).
Proof.
  unfold readTxInBuf, writeTxInBuf. split.
  - intros [op sc w sq] r [[(Ho & Hsc & Hsq) Hw] Hs]. simpl in *. subst w.
    rewrite <- !app_assoc.
    rstep ltac:(by apply codec_roundtrip). rstep ltac:(by apply codec_roundtrip).
    by read_le 4%nat 32.
  - intros st [op sc w sq] r H. read_inv. simpl. rewrite <- !app_assoc.
    apply codec_canonical in Hr as [-> Ho]. apply codec_canonical in Hr0 as [-> [Hsc ?]].
    rewrite (le_encode_decode' 4) by done. split; [done|].
    unfold wfTxIn. simpl. split_and!; try done. by apply (le_decode_inU 4).
Qed.

(** *** The loops *)

Lemma writeTxInBuf_strip ti w : writeTxInBuf (setWitness ti w) = writeTxInBuf ti.
Proof. by destruct ti. Qed.

Definition stripIn (ti : TxIn) : TxIn := setWitness ti [].

Lemma concat_strip l : concat (writeTxInBuf <$> (stripIn <$> l)) = concat (writeTxInBuf <$> l).
Proof. 
  induction l as [|a l IH]; [done|]. rewrite !fmap_cons. cbn [concat].
  unfold stripIn at 1. by rewrite writeTxInBuf_strip, IH.
 Qed.

Lemma txInBody_encode ti c r :
  wfTxIn ti ∧ ti_Witness ti = [] → 0 <= zlen (ti_SignatureScript ti) <= c →
  txInBody c (writeTxInBuf ti ++ r) = Ok ((ti, c - zlen (ti_SignatureScript ti)), r).
Proof. intros H [? ?]. unfold txInBody. by rstep ltac:(by apply codec_roundtrip). Qed.

Lemma txInBody_canonical c s ti c' r :
  0 <= c → txInBody c s = Ok ((ti, c'), r) →
  s = writeTxInBuf ti ++ r ∧ (wfTxIn ti ∧ ti_Witness ti = [])
  ∧ c' = c - zlen (ti_SignatureScript ti) ∧ 0 <= c'.
Proof.
  unfold txInBody. intros Hc H. read_inv.
  apply codec_canonical in Hr as [-> [? ?]]. split_and!; try done; naive_solver lia.
Qed.

Lemma txOutBody_encode to c r :
  wfTxOut to → 0 <= zlen (to_PkScript to) <= c →
  txOutBody c (WriteTxOutBuf to ++ r) = Ok ((to, c - zlen (to_PkScript to)), r).
Proof. intros H [? ?]. unfold txOutBody. by rstep ltac:(by apply codec_roundtrip). Qed.

Lemma txOutBody_canonical c s to c' r :
  0 <= c → txOutBody c s = Ok ((to, c'), r) →
  s = WriteTxOutBuf to ++ r ∧ wfTxOut to ∧ c' = c - zlen (to_PkScript to) ∧ 0 <= c'.
Proof.
  unfold txOutBody. intros Hc H. read_inv.
  apply codec_canonical in Hr as [-> [? ?]]. split_and!; try done; lia.
Qed.

Lemma witnessItemBody_encode w c r :
  wfScript w → 0 <= zlen w <= c →
  witnessItemBody c (WriteVarBytesBuf w ++ r) = Ok ((w, c - zlen w), r).
Proof.
  intros H [? ?]. unfold witnessItemBody. by rstep ltac:(by apply codec_roundtrip).
Qed.

Lemma witnessItemBody_canonical c s w c' r :
  0 <= c → witnessItemBody c s = Ok ((w, c'), r) →
  s = WriteVarBytesBuf w ++ r ∧ wfScript w ∧ c' = c - zlen w ∧ 0 <= c'.
Proof.
  unfold witnessItemBody. intros Hc H. read_inv.
  apply codec_canonical in Hr as [-> [? ?]]. split_and!; try done; lia.
Qed.

Lemma Forall_cost {A} (P : A → Prop) (f : A → Z) l :
  (∀ a, 0 <= f a) → Forall P l → Forall (λ a, P a ∧ 0 <= f a) l.
Proof. intros Hf H. eapply Forall_impl; [exact H|naive_solver]. Qed.

Lemma witnessBody_encode w c r :
  wfWitness w → 0 <= sumZ zlen w <= c →
  witnessBody c (writeTxWitnessBuf w ++ r) = Ok ((w, c - sumZ zlen w), r).
Proof.
  intros [Hn Hw] [_ Hs]. unfold witnessBody, writeTxWitnessBuf. fold (zlen w).
  rewrite <- app_assoc.
  rstep ltac:(apply ReadVarIntBuf_roundtrip; pose proof (zlen_nonneg w);
    unfold maxWitnessItemsPerInput in Hn; unfold inU; lia).
  rewrite (proj2 (Z.ltb_ge _ _)) by done. unfold zlen at 1. rewrite Nat2Z.id.
  apply (rloop_encode WriteVarBytesBuf zlen _ wfScript).
  - apply witnessItemBody_encode.
  - apply Forall_cost; [apply zlen_nonneg|done].
  - done.
Qed.

Lemma witnessBody_canonical c s w c' r :
  0 <= c → witnessBody c s = Ok ((w, c'), r) →
  s = writeTxWitnessBuf w ++ r ∧ wfWitness w ∧ c' = c - sumZ zlen w ∧ 0 <= c'.
Proof.
  unfold witnessBody, writeTxWitnessBuf. intros Hc H. read_inv; bsplit.
  apply codec_canonical in Hr as [-> [? ?]].
  apply (rloop_canonical WriteVarBytesBuf zlen _ wfScript) in H
    as (-> & Hl & ? & ? & ?); [|apply witnessItemBody_canonical|done].
  assert (Z.of_nat (length w) = a) as Hw by lia.
  rewrite Hw, <- app_assoc. split; [done|]. unfold wfWitness, zlen. rewrite Hw. by split_and!.
Qed.

(** *** The whole transaction *)

Lemma zip_setWitness l : zip_with setWitness (stripIn <$> l) (ti_Witness <$> l) = l.
Proof.
  induction l as [|[] l IH]; [done|]. rewrite !fmap_cons. cbn [zip_with]. by rewrite IH.
Qed.

Lemma HasWitness_false_strip v l o t :
  HasWitness (mkMsgTx v l o t) = false → stripIn <$> l = l.
Proof.
  unfold HasWitness. csimpl. induction l as [|[op sc w sq] l IH]; [done|]. csimpl.
  intros H. apply orb_false_iff in H as [H1 H2]. bsplit.
  destruct w; [|done]. by rewrite IH.
Qed.

Lemma HasWitness_fields v v' l o o' t t' :
  HasWitness (mkMsgTx v l o t) = HasWitness (mkMsgTx v' l o' t').
Proof. done. Qed.

Lemma maxTxInPerMessage_val : maxTxInPerMessage = 818401.
Proof. done. Qed.
Lemma maxTxOutPerMessage_val : maxTxOutPerMessage = 3728271.
Proof. done. Qed.

Lemma sumZ_strip l :
  sumZ (λ ti, zlen (ti_SignatureScript ti)) (stripIn <$> l)
  = sumZ (λ ti, zlen (ti_SignatureScript ti)) l.
Proof.
  unfold sumZ. induction l as [|a l IH]; [done|]. rewrite fmap_cons. cbn [foldr]. by rewrite IH.
Qed.

Lemma sumZ_fmap {A B} (f : B → Z) (g : A → B) l :
  sumZ f (g <$> l) = sumZ (λ a, f (g a)) l.
Proof.
  unfold sumZ. induction l as [|a l IH]; [done|]. rewrite fmap_cons. cbn [foldr]. by rewrite IH.
Qed.

Definition txScriptsIn (tx : MsgTx) := sumZ (λ ti, zlen (ti_SignatureScript ti)) (tx_TxIn tx).
Definition txScriptsOut (tx : MsgTx) := sumZ (λ to, zlen (to_PkScript to)) (tx_TxOut tx).

(** The bytes [prlDecodeWitness] reads for the witnesses of [tx]. *)
Definition witnessBytes (flag : Z) (tx : MsgTx) : bytes :=
  if negb (flag =? 0)
  then concat ((λ ti, writeTxWitnessBuf (ti_Witness ti)) <$> tx_TxIn tx) else [].

Lemma prlDecodeWitness_encode flag sbuf tx r :
  (flag =? 0) = negb (HasWitness tx) →
  Forall (λ ti, wfWitness (ti_Witness ti)) (tx_TxIn tx) →
  sumZ (λ ti, sumZ zlen (ti_Witness ti)) (tx_TxIn tx) <= sbuf →
  prlDecodeWitness (tx_Version tx) flag sbuf (stripIn <$> tx_TxIn tx) (tx_TxOut tx)
    (witnessBytes flag tx ++ r) = Ok (tx_TxIn tx, r).
Proof.
  destruct tx as [v ins outs lt]. simpl. intros Hf Hw Hs.
  unfold prlDecodeWitness, witnessBytes. rewrite Hf, negb_involutive. simpl.
  destruct (HasWitness _) eqn:E.
  - rewrite length_fmap, <- (length_fmap ti_Witness ins).
    rewrite (list_fmap_compose ti_Witness writeTxWitnessBuf).
    rstep ltac:(apply (rloop_encode writeTxWitnessBuf (sumZ zlen) _ wfWitness);
      [apply witnessBody_encode
      |apply Forall_cost; [intros; apply sumZ_nonneg; intros; apply zlen_nonneg|by apply Forall_fmap]
      |change (sumZ (sumZ zlen) (ti_Witness <$> ins) <= sbuf); by rewrite sumZ_fmap]).
    rewrite zip_setWitness. by rewrite (HasWitness_fields v v ins outs outs 0 lt), E.
  - by rewrite (HasWitness_false_strip v ins outs lt E).
Qed.

Lemma prlDecodeBody_encode flag tx sbuf r :
  wfTx tx → scriptBytes tx <= sbuf → (flag =? 0) = negb (HasWitness tx) →
  prlDecodeBody (tx_Version tx) flag (zlen (tx_TxIn tx)) sbuf
    (concat (writeTxInBuf <$> tx_TxIn tx) ++ WriteVarIntBuf (zlen (tx_TxOut tx))
     ++ concat (WriteTxOutBuf <$> tx_TxOut tx) ++ witnessBytes flag tx
     ++ le_encode 4 (tx_LockTime tx) ++ r) = Ok (tx, r).
Proof.
  intros (Hv & Hl & Hi & Ho & Hw & Hni & Hno & _) Hs Hf.
  unfold scriptBytes in Hs.
  assert (0 <= sumZ (λ to, zlen (to_PkScript to)) (tx_TxOut tx))
    by (apply sumZ_nonneg; intros; apply zlen_nonneg).
  assert (0 <= sumZ (λ ti, sumZ zlen (ti_Witness ti)) (tx_TxIn tx))
    by (apply sumZ_nonneg; intros; apply sumZ_nonneg; intros; apply zlen_nonneg).
  unfold prlDecodeBody. rewrite (proj2 (Z.ltb_ge _ _)) by done.
  rewrite <- concat_strip. unfold zlen at 1. rewrite Nat2Z.id, <- (length_fmap stripIn).
  rstep ltac:(apply (rloop_encode writeTxInBuf (λ ti, zlen (ti_SignatureScript ti)) _
     (λ ti, wfTxIn ti ∧ ti_Witness ti = []));
    [apply txInBody_encode
    |apply Forall_cost; [intros; apply zlen_nonneg|apply Forall_fmap; eapply Forall_impl; [exact Hi|by intros []]]
    |fold (sumZ (λ ti, zlen (ti_SignatureScript ti)) (stripIn <$> tx_TxIn tx));
     rewrite sumZ_strip; lia]).
  fold (sumZ (λ ti, zlen (ti_SignatureScript ti)) (stripIn <$> tx_TxIn tx)). rewrite sumZ_strip.
  rstep ltac:(apply codec_roundtrip; pose proof (zlen_nonneg (tx_TxOut tx));
    rewrite maxTxOutPerMessage_val in Hno; unfold inU; lia).
  rewrite (proj2 (Z.ltb_ge _ _)) by done. unfold zlen at 1. rewrite Nat2Z.id.
  rstep ltac:(apply (rloop_encode WriteTxOutBuf (λ to, zlen (to_PkScript to)) _ wfTxOut);
    [apply txOutBody_encode|apply Forall_cost; [intros; apply zlen_nonneg|done]
    |fold (sumZ (λ to, zlen (to_PkScript to)) (tx_TxOut tx)); lia]).
  fold (sumZ (λ to, zlen (to_PkScript to)) (tx_TxOut tx)).
  rstep ltac:(apply prlDecodeWitness_encode; [done..|lia]).
  read_le 4%nat 32. by destruct tx.
Qed.

Lemma strip_zip l ws :
  length ws = length l → Forall (λ ti, ti_Witness ti = []) l →
  stripIn <$> zip_with setWitness l ws = l ∧ ti_Witness <$> zip_with setWitness l ws = ws.
Proof.
  revert ws. induction l as [|[op sc w sq] l IH]; intros [|w' ws] Hl Hf; try done.
  inversion Hf as [|? ? Hw Hf']; subst. simpl in Hw. subst w.
  csimpl. destruct (IH ws) as [-> ->]; [by injection Hl|done|done].
Qed.

Lemma stripped_no_witness v l o t :
  Forall (λ ti, ti_Witness ti = []) l → HasWitness (mkMsgTx v l o t) = false.
Proof.
  unfold HasWitness. simpl. induction 1 as [|ti l H Hl IH]; [done|]. simpl. by rewrite H.
Qed.

Lemma prlDecodeWitness_canonical v flag c ins outs s ins' r t :
  0 <= c → Forall (λ ti, ti_Witness ti = []) ins →
  prlDecodeWitness v flag c ins outs s = Ok (ins', r) →
  let tx := mkMsgTx v ins' outs t in
  s = witnessBytes flag tx ++ r ∧ stripIn <$> ins' = ins
  ∧ Forall (λ ti, wfWitness (ti_Witness ti)) ins'
  ∧ sumZ (λ ti, sumZ zlen (ti_Witness ti)) ins' <= c
  ∧ (flag =? 0) = negb (HasWitness tx).
Proof.
  intros Hc Hs H tx. subst tx. unfold prlDecodeWitness, witnessBytes in *.
  destruct (flag =? 0) eqn:Ef; simpl negb in *; cbv iota in *.
  - injection H as -> ->. rewrite stripped_no_witness by done. split_and!; try done.
    + induction Hs as [|[op sc w sq] l Hw Hl IH]; [done|]. simpl in Hw. subst w.
      csimpl. by rewrite IH.
    + eapply Forall_impl; [exact Hs|]. intros ti ->. by split.
    + induction Hs as [|ti l Hw Hl IH]; [done|]. unfold sumZ in *. simpl. rewrite Hw. done.
  - read_inv; bsplit; try discriminate. rename l into ws.
    apply (rloop_canonical writeTxWitnessBuf (sumZ zlen) _ wfWitness) in Hr
      as (-> & Hl & Hw & Hz & Hz0); [|apply witnessBody_canonical|done].
    destruct (strip_zip ins ws Hl Hs) as [E1 E2].
    simpl. rewrite (list_fmap_compose ti_Witness writeTxWitnessBuf), E2.
    split_and!; try done.
    + by apply Forall_fmap_inv; rewrite E2.
    + rewrite <- (sumZ_fmap (sumZ zlen) ti_Witness), E2.
      unfold sumZ at 1. lia.
    + rewrite (HasWitness_fields v v _ outs outs t 0). match goal with H : HasWitness _ = true |- _ => by rewrite H end.
Qed.

Lemma wfTxIn_strip l : Forall wfTxIn (stripIn <$> l) → Forall wfTxIn l.
Proof. intros H. apply Forall_fmap_inv in H. eapply Forall_impl; [exact H|by intros []]. Qed.

Lemma prlDecodeBody_canonical v flag count sbuf s tx r :
  0 <= sbuf <= scriptSlabSize → 0 <= count → inS 32 v →
  prlDecodeBody v flag count sbuf s = Ok (tx, r) →
  wfTx tx ∧ tx_Version tx = v ∧ zlen (tx_TxIn tx) = count
  ∧ (flag =? 0) = negb (HasWitness tx)
  ∧ s = concat (writeTxInBuf <$> tx_TxIn tx) ++ WriteVarIntBuf (zlen (tx_TxOut tx))
        ++ concat (WriteTxOutBuf <$> tx_TxOut tx) ++ witnessBytes flag tx
        ++ le_encode 4 (tx_LockTime tx) ++ r.
Proof.
  intros [Hs0 Hs] Hc Hv H. unfold prlDecodeBody in H.
  destruct (Z.ltb_spec maxTxInPerMessage count) as [|Hmi]; [done|].
  apply rbind_Ok in H as ([ins c1] & s1 & Hr & H).
  apply rbind_Ok in H as (nout & s2 & Hr0 & H).
  destruct (Z.ltb_spec maxTxOutPerMessage nout) as [|Hmo]; [done|].
  apply rbind_Ok in H as ([outs c2] & s3 & Hr1 & H).
  apply rbind_Ok in H as (ins' & s4 & Hr2 & H).
  apply rbind_Ok in H as (lbuf & s5 & Hr3 & H).
  apply ReadFull_Ok in Hr3 as [-> Hlen]. injection H as <- <-.
  apply (rloop_canonical writeTxInBuf (λ ti, zlen (ti_SignatureScript ti)) _
    (λ ti, wfTxIn ti ∧ ti_Witness ti = [])) in Hr
    as (-> & Hni & Hins & Hz1 & Hz1'); [|apply txInBody_canonical|done].
  apply codec_canonical in Hr0 as [-> [Hno0 _]].
  apply (rloop_canonical WriteTxOutBuf (λ to, zlen (to_PkScript to)) _ wfTxOut) in Hr1
    as (-> & Hno & Houts & Hz2 & Hz2'); [|apply txOutBody_canonical|done].
  apply Forall_and in Hins as [Hins1 Hins2].
  apply (prlDecodeWitness_canonical _ _ _ _ _ _ _ _ (le_decode lbuf)) in Hr2
    as (-> & Hst & Hww & Hwz & Hfl); [|done|done].
  assert (Hlen' : length ins' = length ins) by (by rewrite <- Hst, length_fmap).
  assert (zlen outs = nout) as Hzo by (unfold zlen; lia).
  split; [|split; [done|split; [unfold zlen; simpl; lia|split; [done|]]]].
  - unfold wfTx. simpl. split; [done|]. split; [by apply (le_decode_inU 4)|].
    split; [apply wfTxIn_strip; by rewrite Hst|]. split; [done|]. split; [done|].
    split; [unfold zlen; lia|]. split; [lia|].
    unfold scriptBytes. simpl. rewrite <- (sumZ_strip ins'), Hst.
    fold (sumZ (λ ti, zlen (ti_SignatureScript ti)) ins) in Hz1.
    fold (sumZ (λ to, zlen (to_PkScript to)) outs) in Hz2. lia.
  - simpl. rewrite (le_encode_decode' 4) by done. rewrite Hzo.
    rewrite <- (concat_strip ins'), Hst. done.
Qed.

Lemma zlen_nil_iff {A} (l : list A) : zlen l = 0 ↔ l = [].
Proof. unfold zlen. destruct l; simpl; split; intros; (done || lia). Qed.

Lemma HasWitness_nonempty tx : HasWitness tx = true → tx_TxIn tx ≠ [].
Proof. unfold HasWitness. by destruct (tx_TxIn tx). Qed.

Lemma zlen_inU_in tx : wfTx tx → inU 64 (zlen (tx_TxIn tx)).
Proof.
  intros (_ & _ & _ & _ & _ & H & _). rewrite maxTxInPerMessage_val in H.
  pose proof (zlen_nonneg (tx_TxIn tx)). unfold inU. lia.
Qed.

Lemma ReadVarIntBuf_marker s : ReadVarIntBuf (z2b TxFlagMarker :: s) = Ok (0, s).
Proof. unfold ReadVarIntBuf. rstep ltac:(apply ReadFull_1). by rewrite le_decode_1. Qed.

Lemma prlDecodeFlag_witness n r :
  inU 64 n →
  prlDecodeFlag WitnessEncoding 0 (z2b WitnessFlag :: WriteVarIntBuf n ++ r)
  = Ok ((WitnessFlag, n), r).
Proof.
  intros Hn. unfold prlDecodeFlag. change (0 =? TxFlagMarker) with true. cbv iota.
  rstep ltac:(apply ReadFull_1). rewrite le_decode_1.
  change (negb (b2z (z2b WitnessFlag) =? WitnessFlag)) with false. cbv iota.
  by rstep ltac:(by apply codec_roundtrip).
Qed.

#[export] Instance MsgTx_codec :
  Codec Serialize Deserialize (λ tx, wfTx tx ∧ tx_TxIn tx ≠ []).
Proof.
  unfold Serialize, Deserialize, prlEncode, prlDecode. split.
  - intros tx r [Hwf Hne]. rewrite <- !app_assoc.
    read_le 4%nat 32; [by apply wrapU_in|]. rewrite wrapS_wrapU by (done || apply Hwf).
    pose proof (zlen_inU_in tx Hwf).
    destruct (HasWitness tx) eqn:E; cbn [app].
    + rstep ltac:(apply ReadVarIntBuf_marker).
      rstep ltac:(by apply prlDecodeFlag_witness).
      change (concat ((λ ti, writeTxWitnessBuf (ti_Witness ti)) <$> tx_TxIn tx))
        with (witnessBytes WitnessFlag tx).
      apply prlDecodeBody_encode; [done|apply Hwf|by rewrite E].
    + rstep ltac:(by apply codec_roundtrip). unfold prlDecodeFlag.
      destruct (Z.eqb_spec (zlen (tx_TxIn tx)) TxFlagMarker) as [Hz|_].
      { by apply zlen_nil_iff in Hz. }
      unfold rbind, rret at 1. apply (prlDecodeBody_encode 0); [done|apply Hwf|by rewrite E].
  - intros s tx r H. apply rbind_Ok in H as (vbuf & s1 & Hr & H).
    apply ReadFull_Ok in Hr as [-> Hvb]. apply rbind_Ok in H as (c0 & s2 & Hr0 & H).
    apply rbind_Ok in H as ([flag count] & s3 & Hr1 & H).
    apply codec_canonical in Hr0 as [-> Hc0]. unfold prlDecodeFlag in Hr1.
    assert (Hslab : 0 <= scriptSlabSize <= scriptSlabSize) by done.
    assert (Hv : inS 32 (i32 (le_decode vbuf))) by (by apply wrapS_in).
    destruct (c0 =? TxFlagMarker) eqn:E0.
    + read_inv. bsplit. apply codec_canonical in Hr as [-> Hcount]. subst c0.
      apply prlDecodeBody_canonical in H as (Hwf & HV & Hn & Hfl & ->); [|done|apply Hcount|done].
      destruct a as [|d [|? ?]]; try done. rewrite le_decode_1 in *. rewrite Hb in Hfl.
      assert (d = x01) as -> by (by apply b2z_inj).
      assert (E : HasWitness tx = true) by (by destruct (HasWitness tx)). rewrite E.
      rewrite HV, wrapU_wrapS by (done || by apply (le_decode_inU 4)).
      rewrite (le_encode_decode' 4) by done. rewrite <- !app_assoc, Hn.
      split; [done|]. split; [done|]. by apply HasWitness_nonempty.
    + read_inv. bsplit.
      apply prlDecodeBody_canonical in H as (Hwf & HV & Hn & Hfl & ->); [|done|apply Hc0|done].
      assert (E : HasWitness tx = false) by (by destruct (HasWitness tx)). rewrite E.
      rewrite HV, wrapU_wrapS by (done || by apply (le_decode_inU 4)).
      rewrite (le_encode_decode' 4) by done. rewrite <- !app_assoc, Hn.
      split; [done|]. split; [done|]. intros Hnil. rewrite Hnil in Hn. done.
Qed.

(** *** Sizes *)

Lemma foldl_sumZ {A} (f : A → Z) l n : foldl (λ n a, n + f a) n l = n + sumZ f l.
Proof.
  revert n. induction l as [|a l IH]; intros n; simpl; [unfold sumZ; simpl; lia|].
  rewrite IH. unfold sumZ. simpl. lia.
Qed.

Lemma zlen_app {A} (a b : list A) : zlen (a ++ b) = zlen a + zlen b.
Proof. unfold zlen. rewrite length_app. lia. Qed.

Lemma zlen_concat {A B} (f : A → list B) l : zlen (concat (f <$> l)) = sumZ (λ a, zlen (f a)) l.
Proof.
  induction l as [|a l IH]; [done|]. csimpl. rewrite zlen_app, IH. done.
Qed.

Lemma sumZ_ext {A} (f g : A → Z) l : (∀ a, a ∈ l → f a = g a) → sumZ f l = sumZ g l.
Proof.
  induction l as [|a l IH]; intros H; [done|]. unfold sumZ in *. simpl.
  rewrite H by left. rewrite IH; [done|]. intros b Hb. apply H. by right.
Qed.

Lemma zlen_le_encode n z : zlen (le_encode n z) = Z.of_nat n.
Proof. unfold zlen. by rewrite length_le_encode. Qed.

Lemma zlen_varint v : zlen (WriteVarIntBuf v) = VarIntSerializeSize v.
Proof. apply WriteVarIntBuf_length. Qed.

Lemma zlen_varbytes b : zlen (WriteVarBytesBuf b) = VarIntSerializeSize (zlen b) + zlen b.
Proof. unfold WriteVarBytesBuf. by rewrite zlen_app, zlen_varint. Qed.

Lemma zlen_nil {A} : zlen (@nil A) = 0.
Proof. done. Qed.

Lemma zlen_cons {A} (a : A) l : zlen (a :: l) = 1 + zlen l.
Proof. unfold zlen. simpl. lia. Qed.

#[export] Hint Rewrite @zlen_nil @zlen_cons @zlen_app @zlen_concat zlen_le_encode zlen_varint zlen_varbytes
  @foldl_sumZ : golen.

Lemma TxIn_SerializeSize_ok ti :
  wfOutPoint (ti_PreviousOutPoint ti) → zlen (writeTxInBuf ti) = TxIn_SerializeSize ti.
Proof.
  intros [Hh _]. unfold writeTxInBuf, writeOutPointBuf, TxIn_SerializeSize.
  autorewrite with golen.
  assert (zlen (op_Hash (ti_PreviousOutPoint ti)) = 32) as -> by (unfold zlen; by rewrite Hh).
  lia.
Qed.

Lemma TxOut_SerializeSize_ok to : zlen (WriteTxOutBuf to) = TxOut_SerializeSize to.
Proof. unfold WriteTxOutBuf, TxOut_SerializeSize. autorewrite with golen. lia. Qed.

Lemma TxWitness_SerializeSize_ok w :
  zlen (writeTxWitnessBuf w) = TxWitness_SerializeSize w.
Proof.
  unfold writeTxWitnessBuf, TxWitness_SerializeSize. fold (zlen w).
  autorewrite with golen.
  rewrite (sumZ_ext _ (λ w, VarIntSerializeSize (zlen w) + zlen w)) by (intros; apply zlen_varbytes).
  rewrite <- foldl_sumZ. generalize (VarIntSerializeSize (zlen w)) as n.
  induction w as [|a w IH]; intros n; [done|]. simpl. rewrite IH. f_equal. lia.
Qed.

Lemma baseSize_ok msg :
  Forall wfTxIn (tx_TxIn msg) → zlen (SerializeNoWitness msg) = baseSize msg.
Proof.
  intros Hi. unfold SerializeNoWitness, prlEncode, baseSize.
  autorewrite with golen.
  rewrite (sumZ_ext (λ a, zlen (writeTxInBuf a)) TxIn_SerializeSize).
  2: { intros ti Hti. apply TxIn_SerializeSize_ok.
       rewrite Forall_forall in Hi. by apply Hi. }
  rewrite (sumZ_ext (λ a, zlen (WriteTxOutBuf a)) TxOut_SerializeSize)
    by (intros; apply TxOut_SerializeSize_ok).
  lia.
Qed.

Lemma SerializeSize_witness msg :
  zlen (Serialize msg) = zlen (SerializeNoWitness msg)
    + (if HasWitness msg
       then 2 + sumZ (λ ti, zlen (writeTxWitnessBuf (ti_Witness ti))) (tx_TxIn msg) else 0).
Proof.
  unfold Serialize, SerializeNoWitness, prlEncode. autorewrite with golen.
  destruct (HasWitness msg); autorewrite with golen; lia.
Qed.

Definition stripTx (msg : MsgTx) : MsgTx :=
  mkMsgTx (tx_Version msg) (stripIn <$> tx_TxIn msg) (tx_TxOut msg) (tx_LockTime msg).

Lemma SerializeNoWitness_strip msg : SerializeNoWitness (stripTx msg) = SerializeNoWitness msg.
Proof.
  unfold SerializeNoWitness, prlEncode, stripTx. cbn [tx_Version tx_TxIn tx_TxOut tx_LockTime].
  rewrite concat_strip. unfold zlen. by rewrite length_fmap.
Qed.

Lemma readScriptBuf_panic s f n r :
  inU 64 n → n <= maxWitnessItemSize → s < n →
  readScriptBuf s f (WriteVarIntBuf n ++ r) = Err (GoPanic "slice bounds out of range").
Proof.
  intros Hn Hm Hs. unfold readScriptBuf. rstep ltac:(by apply codec_roundtrip).
  rewrite (proj2 (Z.ltb_ge _ _)), (proj2 (Z.ltb_lt _ _)) by lia. done.
Qed.

(** ** Properties *)

(** C28. The transaction codec is exact: [Deserialize] accepts a byte string
    with rest [r] and returns [tx] if and only if the string is [Serialize tx]
    followed by [r], [tx] satisfies the decoder's limits and has an input.  So
    every such transaction survives the round trip and no transaction has a
    second encoding (no malleability by non-canonical lengths, by a superfluous
    witness flag or by the marker). *)
Theorem Deserialize_iff s tx r :
  Deserialize s = Ok (tx, r) ↔ s = Serialize tx ++ r ∧ wfTx tx ∧ tx_TxIn tx ≠ [].
Proof. apply (codec_iff Serialize Deserialize (λ tx, wfTx tx ∧ tx_TxIn tx ≠ [])). Qed.

(** The declared sizes are the sizes written: [SerializeSize] and
    [SerializeSizeStripped] count exactly the bytes [Serialize] and
    [SerializeNoWitness] produce. *)
Lemma SerializeSize_exact msg :
  Forall wfTxIn (tx_TxIn msg) →
  SerializeSize msg = Z.of_nat (length (Serialize msg))
  ∧ SerializeSizeStripped msg = Z.of_nat (length (SerializeNoWitness msg)).
Proof.
  intros Hi. fold (zlen (Serialize msg)) (zlen (SerializeNoWitness msg)).
  rewrite SerializeSize_witness, baseSize_ok by done.
  unfold SerializeSize, SerializeSizeStripped. split; [|done].
  destruct (HasWitness msg); [|lia]. rewrite foldl_sumZ.
  rewrite (sumZ_ext (λ ti, zlen (writeTxWitnessBuf (ti_Witness ti)))
    (λ ti, TxWitness_SerializeSize (ti_Witness ti))) by (intros; apply TxWitness_SerializeSize_ok).
  lia.
Qed.

Definition exTxIn : TxIn :=
  mkTxIn (mkOutPoint (replicate 32 x07) 1) [x51; x52] [[x01; x02]; []] 0xffffffff.
Definition exTx : MsgTx := mkMsgTx 2 [exTxIn] [mkTxOut 5000 [x51]] 17.

Lemma SerializeSize_exact_witness :
  Forall wfTxIn (tx_TxIn exTx)
  ∧ SerializeSize exTx = Z.of_nat (length (Serialize exTx))
  ∧ SerializeSizeStripped exTx = Z.of_nat (length (SerializeNoWitness exTx)).
Proof.
  assert (H : Forall wfTxIn (tx_TxIn exTx)).
  { repeat constructor; vm_compute; congruence. }
  split; [exact H|]. apply (SerializeSize_exact exTx H).
Defined.

(** A script length is checked against the per-item limit but not against
    what is left of the decoder's script slab, so a peer reaches a run-time
    panic: a transaction whose first input carries a script long enough that
    the slab has fewer than [maxWitnessItemSize] bytes left, and whose second
    input merely announces a script of [maxWitnessItemSize] bytes. *)
Lemma Deserialize_slab_panic v ti op r :
  inU 32 v → wfTxIn ti → wfOutPoint op →
  scriptSlabSize - zlen (ti_SignatureScript ti) < maxWitnessItemSize →
  Deserialize (le_encode 4 v ++ WriteVarIntBuf 2 ++ writeTxInBuf ti
    ++ writeOutPointBuf op ++ WriteVarIntBuf maxWitnessItemSize ++ r)
  = Err (GoPanic "slice bounds out of range").
Proof.
  intros Hv Hti Hop Hs. unfold Deserialize, prlDecode. read_le 4%nat 32.
  rstep ltac:(by apply codec_roundtrip).
  unfold prlDecodeFlag. change (2 =? TxFlagMarker) with false. cbv iota.
  unfold rbind at 1, rret at 1. unfold prlDecodeBody.
  rewrite maxTxInPerMessage_val. change (818401 <? 2) with false. cbv iota.
  change (Z.to_nat 2) with 2%nat. unfold rbind at 1. cbn [rloop].
  pose proof (zlen_nonneg (ti_SignatureScript ti)).
  rewrite <- (writeTxInBuf_strip ti []).
  rewrite (rbind_step _ _ _ (stripIn ti, scriptSlabSize - zlen (ti_SignatureScript ti)) 
     (writeOutPointBuf op ++ WriteVarIntBuf maxWitnessItemSize ++ r)).
  2: { apply (txInBody_encode (stripIn ti)); [by destruct ti|].
       destruct Hti as (_ & Hsc & _). unfold wfScript, maxWitnessItemSize in Hsc.
       unfold scriptSlabSize. destruct ti; simpl in *; lia. }
  unfold rbind at 1 2. unfold txInBody, readTxInBuf. unfold rbind at 1 2.
  rewrite codec_roundtrip by done. unfold rbind at 1.
  by rewrite readScriptBuf_panic.
Qed.

(** A first script of 200,000 bytes is enough. *)
Definition slabOp : OutPoint := mkOutPoint (replicate 32 x00) 0.
Definition slabIn : TxIn := mkTxIn slabOp (replicate (Z.to_nat 200000) x51) [] 0.

Lemma slabIn_script : zlen (ti_SignatureScript slabIn) = 200000.
Proof.
  unfold zlen, slabIn, ti_SignatureScript. rewrite length_replicate. apply Z2Nat.id. lia.
Qed.

Lemma Deserialize_slab_panic_witness :
  Deserialize (le_encode 4 1 ++ WriteVarIntBuf 2 ++ writeTxInBuf slabIn
    ++ writeOutPointBuf slabOp ++ WriteVarIntBuf maxWitnessItemSize ++ [])
  = Err (GoPanic "slice bounds out of range").
Proof.
  apply (Deserialize_slab_panic 1 slabIn slabOp []).
  - by vm_compute.
  - split; [by vm_compute|]. split; [|by vm_compute].
    unfold wfScript. rewrite slabIn_script. by vm_compute.
  - by vm_compute.
  - rewrite slabIn_script. by vm_compute.
Defined.

(** The transaction id does not cover the witness: stripping every witness
    leaves [TxHash] unchanged, and a transaction without witness has the same
    witness hash and transaction hash, for any hash function. *)
Lemma TxHash_ignores_witness sha256 msg :
  TxHash sha256 (stripTx msg) = TxHash sha256 msg
  ∧ (HasWitness msg = false → WitnessHash sha256 msg = TxHash sha256 msg)
  ∧ WitnessHash sha256 (stripTx msg) = TxHash sha256 msg.
Proof.
  unfold WitnessHash, TxHash. rewrite SerializeNoWitness_strip.
  split; [done|]. split; [by intros ->|].
  unfold stripTx. rewrite stripped_no_witness; [done|].
  apply Forall_fmap. by apply Forall_true.
Qed.
