(* ===== verification/WireInference.v ===== *)
(** The inference marketplace payloads of [src/node/wire/msginferencetx.go]
    (request payload of a version-3 transaction, result proof of a version-4
    transaction) and [src/node/wire/msginferencego.go] (issuance payload of a
    version-5 transaction): their wire formats and their OP_RETURN framing.

    A Go byte array [[n]byte] is a list of [n] bytes; the [wf] predicates state
    the lengths and the integer widths the Go types guarantee. *)
From Stdlib Require Import ZArith Lia Strings.Byte Strings.String.
From stdpp Require Import base list gmap.
From S2P Require Import Prelude WireTx.
Open Scope Z_scope.

(** ** The request payload (version 3) *)
Module Payload.

Definition inferencePayloadVersion : byte := x02.
Definition MaxInferenceTokens : Z := 65535.
Definition InferenceProofWindowBlocks : Z := 5.
Definition inferencePayloadSize : nat := 141.

Record InferencePayload := mk {
  PromptHash : bytes;
  ResultAddress : bytes;
  ModelVersion : Z;
  MaxTokens : Z;
  Nonce : Z;
  CoordinatorPubKey : bytes }.

Definition wf (p : InferencePayload) : Prop :=
  length (PromptHash p) = 32%nat ∧ length (ResultAddress p) = 64%nat
  ∧ inU 16 (ModelVersion p) ∧ inU 16 (MaxTokens p) ∧ inU 64 (Nonce p)
  ∧ length (CoordinatorPubKey p) = 32%nat.

Definition SerialiseSize : nat := (1 + 32 + 64 + 2 + 2 + 8 + 32)%nat.

(** The fields fill the fixed buffer back to back. *)
Definition Serialise (p : InferencePayload) : bytes :=
  [inferencePayloadVersion]
  ++ PromptHash p ++ ResultAddress p
  ++ le_encode 2 (ModelVersion p) ++ le_encode 2 (MaxTokens p) ++ le_encode 8 (Nonce p)
  ++ CoordinatorPubKey p.

(** The field extraction shared by [Deserialise] and [parseInferenceOpReturn]. *)
Definition fields (buf : bytes) : InferencePayload :=
  mk (slice 1 33 buf) (slice 33 97 buf)
     (le_decode (slice 97 99 buf)) (le_decode (slice 99 101 buf))
     (le_decode (slice 101 109 buf)) (slice 109 141 buf).

Definition Deserialise : reader InferencePayload :=
  read buf := ReadFull 141 in
  if negb (bool_decide (buf !! 0%nat = Some inferencePayloadVersion))
  then rfail (ErrStr "unsupported inference payload version")
  else rret (fields buf).

Definition parseInferenceOpReturn (pkScript : bytes) : option InferencePayload :=
  if negb (length pkScript =? 3 + inferencePayloadSize)%nat then None
  else if negb (bool_decide (pkScript !! 0%nat = Some x6a)) then None
  else if negb (bool_decide (pkScript !! 1%nat = Some x4c)) then None
  else if negb (bool_decide (pkScript !! 2%nat = Some x8d)) then None
  else
    let d := drop 3 pkScript in
    if negb (length d =? inferencePayloadSize)%nat then None
    else if negb (bool_decide (d !! 0%nat = Some inferencePayloadVersion)) then None
    else Some (fields d).

Definition inferenceOpReturnPrefix : bytes := [x6a; x4c; x8d].

Definition hasInferencePayloadOutput (tx : MsgTx) : bool :=
  existsb (λ out, match parseInferenceOpReturn (to_PkScript out) with
                  | Some _ => true | None => false end) (tx_TxOut tx).

Definition IsInferenceTx (tx : MsgTx) : bool :=
  (tx_Version tx =? TxVersionInference) && (1 <=? length (tx_TxOut tx))%nat
  && hasInferencePayloadOutput tx.

(** The first output that parses. *)
Fixpoint firstPayload (outs : list TxOut) : option InferencePayload :=
  match outs with
  | [] => None
  | out :: outs' =>
      match parseInferenceOpReturn (to_PkScript out) with
      | Some p => Some p
      | None => firstPayload outs'
      end
  end.

Definition ExtractInferencePayload (tx : MsgTx) : res string InferencePayload :=
  if negb (tx_Version tx =? TxVersionInference) then Err "not an inference_tx"%string
  else match firstPayload (tx_TxOut tx) with
       | Some p => Ok p
       | None => Err "no valid InferencePayload OP_RETURN output found"%string
       end.

Lemma payload_Serialise_length p : wf p → length (Serialise p) = inferencePayloadSize.
Proof. intros (H1 & H2 & _ & _ & _ & H3). unfold Serialise, inferencePayloadSize. solve_len. Qed.

Lemma payload_fields_Serialise p : wf p → fields (Serialise p) = p.
Proof.
  destruct p as [ph ra mv mt no cp]. intros (H1 & H2 & H3 & H4 & H5 & H6).
  simpl in *. unfold fields, Serialise. cbn [PromptHash ResultAddress ModelVersion MaxTokens
    Nonce CoordinatorPubKey].
  pose proof (length_le_encode 2 mv). pose proof (length_le_encode 2 mt).
  pose proof (length_le_encode 8 no).
  f_equal; slices; try done; by eapply le_roundtrip.
Qed.

Lemma payload_Serialise_fields buf :
  length buf = inferencePayloadSize → buf !! 0%nat = Some inferencePayloadVersion →
  Serialise (fields buf) = buf ∧ wf (fields buf).
Proof.
  intros Hl H0. unfold inferencePayloadSize in Hl. unfold Serialise, wf, fields.
  cbn [PromptHash ResultAddress ModelVersion MaxTokens Nonce CoordinatorPubKey].
  split.
  - rewrite !le_encode_decode' by (rewrite length_slice; lia).
    rewrite (slice_head _ _ H0), !slice_join by lia. by apply slice_all.
  - rewrite !length_slice by lia. split; [done|]. split; [done|].
    split; [by apply (le_decode_inU 2); [|rewrite length_slice; lia]|].
    split; [by apply (le_decode_inU 2); [|rewrite length_slice; lia]|].
    split; [by apply (le_decode_inU 8); [|rewrite length_slice; lia]|done].
Qed.

#[export] Instance payload_codec : Codec Serialise Deserialise wf.
Proof.
  unfold Deserialise. split.
  - intros p r Hp. rstep ltac:(by apply ReadFull_app, payload_Serialise_length).
    rewrite bool_decide_true by done. simpl. unfold rret. by rewrite payload_fields_Serialise.
  - intros s p r H. read_inv; bsplit.
    by destruct (payload_Serialise_fields a) as [-> ?].
Qed.

Lemma parse_iff s p :
  parseInferenceOpReturn s = Some p ↔ wf p ∧ s = inferenceOpReturnPrefix ++ Serialise p.
Proof.
  unfold parseInferenceOpReturn. split.
  - intros H. repeat (case_match; bsplit; [done|]). injection H as <-.
    destruct s as [|b0 [|b1 [|b2 s]]]; try done. simpl in *. simplify_eq.
    rewrite drop_0 in *. destruct (payload_Serialise_fields s) as [E ?]; [done..|].
    split; [done|]. by rewrite E.
  - intros [Hp ->]. pose proof (payload_Serialise_length p Hp) as Hl.
    assert (Hh : Serialise p !! 0%nat = Some inferencePayloadVersion) by done.
    replace (Some p) with (Some (fields (Serialise p))) by (by rewrite payload_fields_Serialise).
    revert Hl Hh. generalize (Serialise p) as b.
    intros b Hl Hh. cbv zeta. rewrite length_app, Hl. cbn [inferenceOpReturnPrefix app drop].
    by rewrite drop_0, Hh, Hl.
Qed.

End Payload.

(** ** The result proof (version 4) *)
Module Proof.

Definition inferenceProofSize : nat := 258.

Record InferenceResultProof := mk {
  CommitmentHash : bytes;
  ResultHash : bytes;
  WorkerAddress : bytes;
  BlockHash : bytes;
  Signature : bytes;
  CoordinatorSignature : bytes }.

Definition wf (p : InferenceResultProof) : Prop :=
  length (CommitmentHash p) = 32%nat ∧ length (ResultHash p) = 32%nat
  ∧ length (WorkerAddress p) = 34%nat ∧ length (BlockHash p) = 32%nat
  ∧ length (Signature p) = 64%nat ∧ length (CoordinatorSignature p) = 64%nat.

Definition SerialiseSize : nat := (32 + 32 + 34 + HashSize + 64 + 64)%nat.

Definition Serialise (p : InferenceResultProof) : bytes :=
  CommitmentHash p ++ ResultHash p ++ WorkerAddress p ++ BlockHash p
  ++ Signature p ++ CoordinatorSignature p.

Definition fields (buf : bytes) : InferenceResultProof :=
  mk (slice 0 32 buf) (slice 32 64 buf) (slice 64 98 buf) (slice 98 130 buf)
     (slice 130 194 buf) (slice 194 258 buf).

Definition Deserialise : reader InferenceResultProof :=
  read buf := ReadFull 258 in rret (fields buf).

Definition inferenceProofOpReturnPrefix : bytes := [x6a; x4d; x02; x01].

Definition parseInferenceProofOpReturn (pkScript : bytes) : option InferenceResultProof :=
  if negb (length pkScript =? 4 + inferenceProofSize)%nat then None
  else if negb (bool_decide (pkScript !! 0%nat = Some x6a)) then None
  else if negb (bool_decide (pkScript !! 1%nat = Some x4d)) then None
  else if negb (le_decode (slice 2 4 pkScript) =? Z.of_nat inferenceProofSize) then None
  else
    let data := drop 4 pkScript in
    if negb (length data =? inferenceProofSize)%nat then None
    else Some (fields data).

Definition hasInferenceProofOutput (tx : MsgTx) : bool :=
  existsb (λ out, match parseInferenceProofOpReturn (to_PkScript out) with
                  | Some _ => true | None => false end) (tx_TxOut tx).

Definition IsInferenceProofTx (tx : MsgTx) : bool :=
  (tx_Version tx =? TxVersionInferenceProof) && (1 <=? length (tx_TxOut tx))%nat
  && hasInferenceProofOutput tx.

Fixpoint firstProof (outs : list TxOut) : option InferenceResultProof :=
  match outs with
  | [] => None
  | out :: outs' =>
      match parseInferenceProofOpReturn (to_PkScript out) with
      | Some p => Some p
      | None => firstProof outs'
      end
  end.

Definition ExtractInferenceResultProof (tx : MsgTx) : res string InferenceResultProof :=
  if negb (tx_Version tx =? TxVersionInferenceProof) then Err "not an inference_proof_tx"%string
  else match firstProof (tx_TxOut tx) with
       | Some p => Ok p
       | None => Err "no valid InferenceResultProof OP_RETURN output found"%string
       end.

Lemma proof_Serialise_length p : wf p → length (Serialise p) = inferenceProofSize.
Proof. intros (H1 & H2 & H3 & H4 & H5 & H6). unfold Serialise, inferenceProofSize. solve_len. Qed.

Lemma proof_fields_Serialise p : wf p → fields (Serialise p) = p.
Proof.
  destruct p as [ch rh wa bh sg cs]. intros (H1 & H2 & H3 & H4 & H5 & H6).
  simpl in *. unfold fields, Serialise. cbn [CommitmentHash ResultHash WorkerAddress BlockHash
    Signature CoordinatorSignature].
  f_equal; by slices.
Qed.

Lemma proof_Serialise_fields buf :
  length buf = inferenceProofSize → Serialise (fields buf) = buf ∧ wf (fields buf).
Proof.
  intros Hl. unfold inferenceProofSize in Hl. unfold Serialise, wf, fields.
  cbn [CommitmentHash ResultHash WorkerAddress BlockHash Signature CoordinatorSignature].
  split.
  - rewrite !slice_join by lia. by apply slice_all.
  - by rewrite !length_slice by lia.
Qed.

#[export] Instance proof_codec : Codec Serialise Deserialise wf.
Proof.
  unfold Deserialise. split.
  - intros p r Hp. rstep ltac:(by apply ReadFull_app, proof_Serialise_length).
    unfold rret. by rewrite proof_fields_Serialise.
  - intros s p r H. read_inv. by destruct (proof_Serialise_fields a) as [-> ?].
Qed.

Lemma parse_proof_iff s p :
  parseInferenceProofOpReturn s = Some p
  ↔ wf p ∧ s = inferenceProofOpReturnPrefix ++ Serialise p.
Proof.
  unfold parseInferenceProofOpReturn. split.
  - intros H. repeat (case_match; bsplit; [done|]). injection H as <-.
    destruct s as [|b0 [|b1 [|b2 [|b3 s]]]]; try done. simpl in *. simplify_eq.
    rewrite drop_0 in *. destruct (proof_Serialise_fields s) as [E ?]; [done|].
    split; [done|]. rewrite E. unfold inferenceProofOpReturnPrefix.
    assert (Hx : [b2; b3] = [x02; x01]).
    { rewrite <- (le_encode_decode [b2; b3]), <- (le_encode_decode [x02; x01]).
      change (slice 2 4 (x6a :: x4d :: b2 :: b3 :: s)) with [b2; b3] in *.
      match goal with H : le_decode [b2; b3] = _ |- _ => rewrite H end. done. }
    by injection Hx as -> ->.
  - intros [Hp ->]. pose proof (proof_Serialise_length p Hp) as Hl.
    replace (Some p) with (Some (fields (Serialise p))) by (by rewrite proof_fields_Serialise).
    revert Hl. generalize (Serialise p) as b.
    intros b Hl. cbv zeta. rewrite length_app, Hl.
    cbn [inferenceProofOpReturnPrefix app drop]. by rewrite drop_0, Hl.
Qed.

End Proof.

(** ** The issuance payload (version 5) *)
Module GoPayload.

Definition inferenceGoPayloadVersion : byte := x01.
Definition InferenceGoPayloadSize : nat := (1 + 8 + 32 + 64)%nat.

Record InferenceGoPayload := mk {
  Amount : Z;
  Destination : bytes;
  Signature : bytes }.

Definition wf (p : InferenceGoPayload) : Prop :=
  inU 64 (Amount p) ∧ length (Destination p) = 32%nat ∧ length (Signature p) = 64%nat.

Definition HasDestination (p : InferenceGoPayload) : bool :=
  negb (bool_decide (Destination p = replicate 32 x00)).

Definition Serialise (p : InferenceGoPayload) : bytes :=
  [inferenceGoPayloadVersion] ++ le_encode 8 (Amount p) ++ Destination p ++ Signature p.

Definition Deserialise : reader InferenceGoPayload :=
  read buf := ReadFull InferenceGoPayloadSize in
  if negb (bool_decide (buf !! 0%nat = Some inferenceGoPayloadVersion))
  then rfail (ErrStr "unsupported InferenceGoPayload version")
  else rret (mk (le_decode (slice 1 9 buf)) (slice 9 41 buf) (slice 41 105 buf)).

Definition SignedBytes (p : InferenceGoPayload) : bytes :=
  [inferenceGoPayloadVersion] ++ le_encode 8 (Amount p) ++ Destination p.

Definition inferenceGoOpReturnPrefix : bytes :=
  [x6a; x4c; z2b (Z.of_nat InferenceGoPayloadSize)].

Definition parseInferenceGoOpReturn (pkScript : bytes) : option InferenceGoPayload :=
  if negb (length pkScript =? length inferenceGoOpReturnPrefix + InferenceGoPayloadSize)%nat
  then None
  else if negb (bool_decide (take (length inferenceGoOpReturnPrefix) pkScript
                             = inferenceGoOpReturnPrefix)) then None
  else match Deserialise (drop (length inferenceGoOpReturnPrefix) pkScript) with
       | Ok (p, _) => Some p
       | Err _ => None
       end.

Definition BuildInferenceGoOpReturn (p : InferenceGoPayload) : bytes :=
  inferenceGoOpReturnPrefix ++ Serialise p.

Definition InferenceGoP2TRScript (outputKey : bytes) : bytes := [x51; x20] ++ outputKey.

Definition CountInferenceGoPayloadOutputs (tx : MsgTx) : nat :=
  length (List.filter (λ out, match parseInferenceGoOpReturn (to_PkScript out) with
                         | Some _ => true | None => false end) (tx_TxOut tx)).

Definition hasInferenceGoPayloadOutput (tx : MsgTx) : bool :=
  existsb (λ out, match parseInferenceGoOpReturn (to_PkScript out) with
                  | Some _ => true | None => false end) (tx_TxOut tx).

Definition IsInferenceGoTx (tx : MsgTx) : bool :=
  (tx_Version tx =? TxVersionInferenceGo) && (1 <=? length (tx_TxOut tx))%nat
  && hasInferenceGoPayloadOutput tx.

Fixpoint firstGoPayload (outs : list TxOut) : option InferenceGoPayload :=
  match outs with
  | [] => None
  | out :: outs' =>
      match parseInferenceGoOpReturn (to_PkScript out) with
      | Some p => Some p
      | None => firstGoPayload outs'
      end
  end.

Definition ExtractInferenceGoPayload (tx : MsgTx) : res string InferenceGoPayload :=
  if negb (tx_Version tx =? TxVersionInferenceGo) then Err "not an inferencego_tx"%string
  else match firstGoPayload (tx_TxOut tx) with
       | Some p => Ok p
       | None => Err "no valid InferenceGoPayload OP_RETURN output found"%string
       end.

Lemma go_Serialise_length p : wf p → length (Serialise p) = InferenceGoPayloadSize.
Proof. intros (_ & H1 & H2). unfold Serialise, InferenceGoPayloadSize. solve_len. Qed.

#[export] Instance gopayload_codec : Codec Serialise Deserialise wf.
Proof.
  unfold Deserialise. split.
  - intros [am de sg] r Hp. rstep ltac:(by apply ReadFull_app, go_Serialise_length).
    rewrite bool_decide_true by done. destruct Hp as (H1 & H2 & H3). simpl negb. cbv iota.
    simpl in *. unfold rret, Serialise. cbn [Amount Destination Signature].
    pose proof (length_le_encode 8 am).
    do 3 f_equal; slices; try done. by eapply le_roundtrip.
  - intros s p r H. read_inv; bsplit. unfold Serialise, wf.
    cbn [Amount Destination Signature]. unfold InferenceGoPayloadSize in *.
    rewrite !le_encode_decode' by (rewrite length_slice; lia).
    match goal with H : a !! 0%nat = _ |- _ => rewrite (slice_head _ _ H) end.
    rewrite !slice_join by lia. rewrite slice_all by done.
    rewrite !length_slice by lia. split; [done|].
    split; [|done]. by apply (le_decode_inU 8); [|rewrite length_slice; lia].
Qed.

Lemma parse_go_iff s p :
  parseInferenceGoOpReturn s = Some p ↔ wf p ∧ s = BuildInferenceGoOpReturn p.
Proof.
  unfold parseInferenceGoOpReturn, BuildInferenceGoOpReturn. split.
  - intros H. case_match; bsplit; [done|]. case_match; bsplit; [done|].
    destruct (Deserialise _) as [[q t]|] eqn:E; [|done]. injection H as ->.
    pose proof E as E'. apply codec_canonical in E as [E ?]. split; [done|].
    assert (t = []) as ->.
    { apply nil_length_inv. apply (f_equal length) in E.
      rewrite length_app, go_Serialise_length in E by done.
      rewrite length_drop in E. lia. }
    rewrite app_nil_r in E. rewrite <- E.
    match goal with H : take _ s = _ |- _ => rewrite <- H at 1 end. by rewrite take_drop.
  - intros [Hp ->]. pose proof (go_Serialise_length p Hp) as Hl.
    rewrite length_app, Hl, Nat.eqb_refl, take_app_length, drop_app_length.
    rewrite bool_decide_true by done. simpl negb. cbv iota.
    rewrite <- (app_nil_r (Serialise p)). by rewrite codec_roundtrip.
Qed.

End GoPayload.

(** ** Properties *)

(** The OP_RETURN framing of the three marketplace payloads is exact: a
    script parses as a request payload, a result proof or an issuance payload
    if and only if it is the canonical prefix followed by the serialisation of
    a well-formed payload. *)
Lemma opreturn_framing_exact :
  (∀ s p, Payload.parseInferenceOpReturn s = Some p
     ↔ Payload.wf p ∧ s = Payload.inferenceOpReturnPrefix ++ Payload.Serialise p)
  ∧ (∀ s p, Proof.parseInferenceProofOpReturn s = Some p
     ↔ Proof.wf p ∧ s = Proof.inferenceProofOpReturnPrefix ++ Proof.Serialise p)
  ∧ (∀ s p, GoPayload.parseInferenceGoOpReturn s = Some p
     ↔ GoPayload.wf p ∧ s = GoPayload.BuildInferenceGoOpReturn p).
Proof.
  split; [exact Payload.parse_iff|]. split; [exact Proof.parse_proof_iff|].
  exact GoPayload.parse_go_iff.
Qed.
