(* ===== verification/WireBlock.v ===== *)
(** Block headers, certificates, AuxPoW data and blocks:
    [src/node/wire/blockheader.go], [certificate.go], [certificate_zk.go],
    [auxpow.go], [msgheaders.go] ([MsgHeader]) and [msgblock.go].

    A [time.Time] is a count of nanoseconds since the Unix epoch, so that the
    whole-second rounding of the header codec is visible. *)
From Stdlib Require Import ZArith Lia Strings.Byte Strings.String.
From stdpp Require Import base list gmap.
From S2P Require Import Prelude WireTx.
Open Scope Z_scope.

(** ** Block header *)

Definition second : Z := 1000000000.
(** [time.Unix(s, 0)] and [t.Unix()]. *)
Definition timeUnix (s : Z) : Z := s * second.
Definition unixOf (t : Z) : Z := t / second.

Record BlockHeader := mkBlockHeader {
  bh_Version : Z;
  bh_PrevBlock : bytes;
  bh_MerkleRoot : bytes;
  bh_Timestamp : Z;
  bh_Bits : Z;
  bh_ProofCommitment : bytes }.

Definition MaxBlockHeaderPayload : Z := 12 + Z.of_nat HashSize * 3.

Definition readBlockHeaderBuf : reader BlockHeader :=
  read buf := ReadFull 4 in
  let version := i32 (le_decode buf) in
  read prev := ReadFull HashSize in
  read root := ReadFull HashSize in
  read buf := ReadFull 4 in
  let ts := timeUnix (le_decode buf) in
  read buf := ReadFull 4 in
  let bits := le_decode buf in
  read pc := ReadFull HashSize in
  rret (mkBlockHeader version prev root ts bits pc).

Definition writeBlockHeaderBuf (bh : BlockHeader) : bytes :=
  le_encode 4 (u32 (bh_Version bh)) ++ bh_PrevBlock bh ++ bh_MerkleRoot bh
  ++ le_encode 4 (u32 (unixOf (bh_Timestamp bh)))
  ++ le_encode 4 (bh_Bits bh) ++ bh_ProofCommitment bh.

Definition BlockHash (sha256 : bytes → bytes) (h : BlockHeader) : bytes :=
  DoubleHashH sha256 (writeBlockHeaderBuf h).

Definition auxPowMask : Z := 0x1101.
Definition IsAuxPowBlock (header : BlockHeader) : bool :=
  Z.land (bh_Version header) auxPowMask =? auxPowMask.

(** ** Certificates *)

Definition PublicDataSize : nat := 164.
Definition MaxZKProofSize : Z := 60000.
Definition CertificateMaxSize : Z := 65000.
Definition CertificateVersionNull : Z := 0.
Definition CertificateVersionZK : Z := 1.

Record ZKCertificate := mkZKCertificate {
  zk_Hash : bytes;
  zk_PublicData : bytes;
  zk_ProofData : bytes }.

Definition ZK_ProofCommitment (sha256 : bytes → bytes) (c : ZKCertificate) : bytes :=
  DoubleHashH sha256 (le_encode 4 CertificateVersionZK ++ zk_PublicData c).

Definition ZK_Serialize (c : ZKCertificate) : bytes :=
  zk_Hash c ++ zk_PublicData c ++ le_encode 4 (u32 (zlen (zk_ProofData c))) ++ zk_ProofData c.

Definition ZK_Deserialize : reader ZKCertificate :=
  read h := ReadFull HashSize in
  read pd := ReadFull PublicDataSize in
  read lbuf := ReadFull 4 in
  let proofLen := le_decode lbuf in
  if MaxZKProofSize <? proofLen then rfail (ErrStr "proof data too large")
  else
  read proof := ReadFull (Z.to_nat proofLen) in
  rret (mkZKCertificate h pd proof).

Definition ZK_SerializedSize (c : ZKCertificate) : Z :=
  32 + Z.of_nat PublicDataSize + 4 + zlen (zk_ProofData c).

(** [BlockCertificate] has one implementation, [ZKCertificate]; [nil] is [None]. *)
Definition BlockCertificate : Type := option ZKCertificate.

Definition IsCertVersionAllowed (v : Z) : bool := v =? CertificateVersionZK.

Definition MsgCertificate_SerializeSize (m : BlockCertificate) : Z :=
  match m with
  | None => 4
  | Some c => 4 + ZK_SerializedSize c
  end.

Definition MsgCertificate_PrlEncode (m : BlockCertificate) : res ioerr bytes :=
  match m with
  | None => Ok (le_encode 4 CertificateVersionNull)
  | Some c =>
      if CertificateMaxSize <? MsgCertificate_SerializeSize m
      then Err (ErrStr "certificate too large")
      else Ok (le_encode 4 CertificateVersionZK ++ ZK_Serialize c)
  end.

(** [io.LimitReader(r, n)]: the reader sees at most [n] bytes of the stream. *)
Definition LimitReader {A} (n : nat) (dec : reader A) : reader A := λ s,
  match dec (take n s) with
  | Ok (a, rest) => Ok (a, drop (length (take n s) - length rest) s)
  | Err e => Err e
  end.

Definition MsgCertificate_PrlDecode : reader BlockCertificate :=
  read vbuf := ReadFull 4 in
  let version := le_decode vbuf in
  if version =? CertificateVersionNull then rret None
  else if version =? CertificateVersionZK then
    read c := LimitReader (Z.to_nat CertificateMaxSize) ZK_Deserialize in rret (Some c)
  else rfail (ErrStr "unsupported certificate version").

Record MsgHeader := mkMsgHeader {
  mh_Certificate : BlockCertificate;
  mh_BlockHeader : BlockHeader }.

Definition MsgHeader_PrlDecode : reader MsgHeader :=
  read c := MsgCertificate_PrlDecode in
  read h := readBlockHeaderBuf in
  rret (mkMsgHeader c h).

Definition MsgHeader_PrlEncode (mh : MsgHeader) : res ioerr bytes :=
  let? c := MsgCertificate_PrlEncode (mh_Certificate mh) in
  Ok (c ++ writeBlockHeaderBuf (mh_BlockHeader mh)).

Definition MsgHeader_SerializeSize (mh : MsgHeader) : Z :=
  MaxBlockHeaderPayload + MsgCertificate_SerializeSize (mh_Certificate mh).

(** ** AuxPoW data *)

Definition PearlHeaderSize : nat := 108.
Definition MaxCoinbaseBranchDepth : Z := 32.
Definition maxPearlHeight : Z := 1000000000.
Definition AuxPowMagic : bytes := [x4d; x44; x4c; x2a].

Record AuxPowMerkleNode := mkAuxPowMerkleNode { an_Hash : bytes; an_IsLeft : bool }.

Record AuxPowData := mkAuxPowData {
  ap_PearlHeader : bytes;
  ap_ModelOSStateHash : bytes;
  ap_PearlHeight : Z;
  ap_PearlPublicData : bytes;
  ap_PearlProofData : bytes;
  ap_PearlCoinbaseTx : bytes;
  ap_CoinbaseBranch : list AuxPowMerkleNode }.

Definition PearlMerkleRoot (a : AuxPowData) : bytes := slice 36 68 (ap_PearlHeader a).
Definition PearlHeaderBits (header : bytes) : Z := le_decode (slice 72 76 header).

Definition writeMerkleNode (n : AuxPowMerkleNode) : bytes :=
  an_Hash n ++ [if an_IsLeft n then x01 else x00].

Definition AuxPow_Serialise (a : AuxPowData) : bytes :=
  ap_PearlHeader a ++ ap_ModelOSStateHash a
  ++ le_encode 4 (u32 (ap_PearlHeight a))
  ++ ap_PearlPublicData a
  ++ le_encode 4 (u32 (zlen (ap_PearlProofData a))) ++ ap_PearlProofData a
  ++ le_encode 4 (u32 (zlen (ap_PearlCoinbaseTx a))) ++ ap_PearlCoinbaseTx a
  ++ [z2b (zlen (ap_CoinbaseBranch a))]
  ++ concat (writeMerkleNode <$> ap_CoinbaseBranch a).

Definition AuxPow_SerialiseSize (a : AuxPowData) : Z :=
  Z.of_nat PearlHeaderSize + 32 + 4 + Z.of_nat PublicDataSize + 4 + zlen (ap_PearlProofData a)
  + 4 + zlen (ap_PearlCoinbaseTx a) + 1 + zlen (ap_CoinbaseBranch a) * 33.

(** The sibling flag is any non-zero byte. *)
Definition readMerkleNode (_ : Z) : reader (AuxPowMerkleNode * Z) :=
  read nodeBuf := ReadFull 33 in
  rret (mkAuxPowMerkleNode (slice 0 32 nodeBuf)
          (negb (bool_decide (nodeBuf !! 32%nat = Some x00))), 0).

Definition AuxPow_Deserialise : reader AuxPowData :=
  read header := ReadFull PearlHeaderSize in
  let bits := PearlHeaderBits header in
  if bits =? 0 then rfail (ErrStr "auxpow: PearlBits (from header) is zero")
  else if negb (Z.land bits 0x00800000 =? 0)
  then rfail (ErrStr "auxpow: PearlBits has sign bit set (negative compact target invalid)")
  else
  read stateHash := ReadFull HashSize in
  read heightBuf := ReadFull 4 in
  let height := i32 (le_decode heightBuf) in
  if height <=? 0 then rfail (ErrStr "auxpow: PearlHeight must be positive")
  else if maxPearlHeight <? height then rfail (ErrStr "auxpow: PearlHeight exceeds maximum")
  else
  read publicData := ReadFull PublicDataSize in
  read proofLenBuf := ReadFull 4 in
  let proofLen := le_decode proofLenBuf in
  if proofLen =? 0
  then rfail (ErrStr "auxpow: PearlProofData missing - parent proof-of-work unverifiable")
  else if MaxZKProofSize <? proofLen
  then rfail (ErrStr "auxpow: PearlProofData length exceeds max")
  else
  read proofData := ReadFull (Z.to_nat proofLen) in
  read cbLenBuf := ReadFull 4 in
  let cbLen := le_decode cbLenBuf in
  if 1000000 <? cbLen then rfail (ErrStr "auxpow: PearlCoinbaseTx length exceeds 1 MB")
  else
  read coinbase := ReadFull (Z.to_nat cbLen) in
  read branchLenBuf := ReadFull 1 in
  let branchLen := le_decode branchLenBuf in
  if MaxCoinbaseBranchDepth <? branchLen
  then rfail (ErrStr "auxpow: CoinbaseBranch depth exceeds maximum")
  else
  read (branch, _) := rloop (Z.to_nat branchLen) readMerkleNode 0 in
  rret (mkAuxPowData header stateHash height publicData proofData coinbase branch).

(** [AuxPowProofCommitment], over the BLAKE3 digest of the third-party package. *)
Definition AuxPowProofCommitment (blake3 : bytes → bytes) (a : AuxPowData) (network : Z) : bytes :=
  blake3 (le_encode 4 (u32 network) ++ [x00; x00; x00; x00] ++ AuxPow_Serialise a).

Definition merkleStep (sha256 : bytes → bytes) (current : bytes) (node : AuxPowMerkleNode) : bytes :=
  DoubleHashH sha256
    (if an_IsLeft node then an_Hash node ++ current else current ++ an_Hash node).

Definition VerifyCoinbaseMerkleRoot (sha256 : bytes → bytes) (a : AuxPowData)
  (coinbaseTxid : bytes) : bytes :=
  foldl (merkleStep sha256) coinbaseTxid (ap_CoinbaseBranch a).

(** [scriptSig[i..i+3]] is the merged-mining magic. *)
Definition magicAt (s : bytes) (i : nat) : bool := bool_decide (slice i (i + 4) s = AuxPowMagic).

(** The scan of [ContainsModelosCommitment] from offset [i], with [fuel]
    iterations left, the current [found] and [magicCount]. *)
Fixpoint commitmentScan (s sigma : bytes) (fuel i : nat) (found : Z) (magicCount : nat) : Z :=
  match fuel with
  | O => found
  | S fuel' =>
      if magicAt s i then
        let magicCount := S magicCount in
        if (1 <? magicCount)%nat then -1
        else
          let found :=
            if (i + 36 <=? length s)%nat && bool_decide (slice (i + 4) (i + 36) s = sigma)
            then Z.of_nat i else found in
          commitmentScan s sigma fuel' (S i) found magicCount
      else commitmentScan s sigma fuel' (S i) found magicCount
  end.

(** The loop runs for [i = 0 .. len-4]: [len-3] iterations, none when the
    script is shorter than the magic. *)
Definition ContainsModelosCommitment (scriptSig sigmaModelos : bytes) : Z :=
  commitmentScan scriptSig sigmaModelos (length scriptSig - 3) 0 (-1) 0.

(** ** Blocks *)

Record MsgBlock := mkMsgBlock {
  mb_MsgHeader : MsgHeader;
  mb_AuxPow : option AuxPowData;
  mb_Transactions : list MsgTx }.

Definition mb_BlockHeader (b : MsgBlock) : BlockHeader := mh_BlockHeader (mb_MsgHeader b).
Definition mb_BlockCertificate (b : MsgBlock) : BlockCertificate := mh_Certificate (mb_MsgHeader b).

Definition minTxPayload : Z := 10.
Definition maxTxPerBlock : Z := MaxBlockPayload / minTxPayload + 1.

(** Each transaction is decoded against the whole script buffer. *)
Definition blockTxBody (enc : MessageEncoding) (_ : Z) : reader (MsgTx * Z) :=
  read tx := prlDecode enc scriptSlabSize in rret (tx, 0).

Definition MsgBlock_PrlDecode (enc : MessageEncoding) : reader MsgBlock :=
  read mh := MsgHeader_PrlDecode in
  read aux :=
    (if IsAuxPowBlock (mh_BlockHeader mh) then
       λ s, match AuxPow_Deserialise s with
            | Ok (a, r) => Ok (Some a, r)
            | Err (GoPanic m) => Err (GoPanic m)
            | Err _ => Err (ErrStr "MsgBlock.PrlDecode: auxpow")
            end
     else rret None) in
  read txCount := ReadVarIntBuf in
  if maxTxPerBlock <? txCount
  then rfail (ErrStr "MsgBlock.PrlDecode: too many transactions to fit into a block")
  else
  read (txs, _) := rloop (Z.to_nat txCount) (blockTxBody enc) 0 in
  rret (mkMsgBlock mh aux txs).

Definition MsgBlock_PrlEncode (enc : MessageEncoding) (msg : MsgBlock) : res ioerr bytes :=
  let? h := MsgHeader_PrlEncode (mb_MsgHeader msg) in
  let? a :=
    (if IsAuxPowBlock (mb_BlockHeader msg) then
       match mb_AuxPow msg with
       | None => Err (ErrStr "MsgBlock.PrlEncode: auxpow: AuxPoW block missing AuxPowData")
       | Some a => Ok (AuxPow_Serialise a)
       end
     else Ok []) in
  Ok (h ++ a ++ WriteVarIntBuf (zlen (mb_Transactions msg))
      ++ concat (prlEncode enc <$> mb_Transactions msg)).

Definition MsgBlock_SerializeSize (msg : MsgBlock) : Z :=
  let n := MsgHeader_SerializeSize (mb_MsgHeader msg)
           + VarIntSerializeSize (zlen (mb_Transactions msg)) in
  let n := match mb_AuxPow msg with Some a => n + AuxPow_SerialiseSize a | None => n end in
  foldl (λ n tx, n + SerializeSize tx) n (mb_Transactions msg).

Definition MsgBlock_SerializeSizeStripped (msg : MsgBlock) : Z :=
  foldl (λ n tx, n + SerializeSizeStripped tx)
    (MaxBlockHeaderPayload + VarIntSerializeSize (zlen (mb_Transactions msg)))
    (mb_Transactions msg).

Definition MsgBlock_SerializeWitnessSize (msg : MsgBlock) : Z :=
  foldl (λ n tx, n + (SerializeSize tx - SerializeSizeStripped tx)) 0 (mb_Transactions msg).

(** ** Well-formedness *)

Definition wfHeader (h : BlockHeader) : Prop :=
  inS 32 (bh_Version h) ∧ length (bh_PrevBlock h) = HashSize
  ∧ length (bh_MerkleRoot h) = HashSize
  ∧ (inU 32 (unixOf (bh_Timestamp h)) ∧ bh_Timestamp h = timeUnix (unixOf (bh_Timestamp h)))
  ∧ inU 32 (bh_Bits h) ∧ length (bh_ProofCommitment h) = HashSize.

Definition wfZK (c : ZKCertificate) : Prop :=
  length (zk_Hash c) = HashSize ∧ length (zk_PublicData c) = PublicDataSize
  ∧ zlen (zk_ProofData c) <= MaxZKProofSize.

Definition wfCert (m : BlockCertificate) : Prop :=
  match m with None => True | Some c => wfZK c end.

Definition wfNode (n : AuxPowMerkleNode) : Prop := length (an_Hash n) = 32%nat.

Definition wfAux (a : AuxPowData) : Prop :=
  length (ap_PearlHeader a) = PearlHeaderSize
  ∧ (PearlHeaderBits (ap_PearlHeader a) ≠ 0
     ∧ Z.land (PearlHeaderBits (ap_PearlHeader a)) 0x00800000 = 0)
  ∧ length (ap_ModelOSStateHash a) = HashSize
  ∧ 0 < ap_PearlHeight a <= maxPearlHeight
  ∧ length (ap_PearlPublicData a) = PublicDataSize
  ∧ 0 < zlen (ap_PearlProofData a) <= MaxZKProofSize
  ∧ zlen (ap_PearlCoinbaseTx a) <= 1000000
  ∧ zlen (ap_CoinbaseBranch a) <= MaxCoinbaseBranchDepth
  ∧ Forall wfNode (ap_CoinbaseBranch a).

Definition wfBlock (b : MsgBlock) : Prop :=
  wfCert (mb_BlockCertificate b) ∧ wfHeader (mb_BlockHeader b)
  ∧ (if IsAuxPowBlock (mb_BlockHeader b)
     then ∃ a, mb_AuxPow b = Some a ∧ wfAux a else mb_AuxPow b = None)
  ∧ zlen (mb_Transactions b) <= maxTxPerBlock
  ∧ Forall (λ tx, wfTx tx ∧ tx_TxIn tx ≠ []) (mb_Transactions b).

(** ** Lemmas *)

Lemma unixOf_timeUnix s : unixOf (timeUnix s) = s.
Proof. unfold unixOf, timeUnix, second. by rewrite Z.div_mul. Qed.

#[export] Instance BlockHeader_codec : Codec writeBlockHeaderBuf readBlockHeaderBuf wfHeader.
Proof.
  unfold writeBlockHeaderBuf, readBlockHeaderBuf. split.
  - intros [v p m t b c] r (Hv & Hp & Hm & (Ht & Ht') & Hb & Hc). simpl in *.
    rewrite <- !app_assoc. read_le 4%nat 32; [by apply wrapU_in|].
    rewrite wrapS_wrapU by done. do 2 rstep ltac:(by apply ReadFull_app).
    rewrite (wrapU_small 32 (unixOf t)) by done. read_le 4%nat 32. read_le 4%nat 32.
    rstep ltac:(by apply ReadFull_app). by rewrite <- Ht'.
  - intros s h r H. read_inv. unfold wfHeader. simpl. rewrite <- !app_assoc.
    rewrite wrapU_wrapS by (done || by apply (le_decode_inU 4)).
    rewrite unixOf_timeUnix, (wrapU_small 32) by (by apply (le_decode_inU 4)).
    rewrite !(le_encode_decode' 4) by done.
    split; [done|]. split; [by apply wrapS_in|]. split; [done|]. split; [done|].
    split; [split; [by apply (le_decode_inU 4)|done]|]. split; [by apply (le_decode_inU 4)|done].
Qed.

#[export] Instance ZK_codec : Codec ZK_Serialize ZK_Deserialize wfZK.
Proof.
  unfold ZK_Serialize, ZK_Deserialize. split.
  - intros [h p d] r (Hh & Hp & Hd). simpl in *. rewrite <- !app_assoc.
    do 2 rstep ltac:(by apply ReadFull_app). pose proof (zlen_nonneg d).
    rewrite wrapU_small by (unfold inU, MaxZKProofSize in *; lia).
    read_le 4%nat 32; [unfold inU, MaxZKProofSize in *; lia|].
    rewrite (proj2 (Z.ltb_ge _ _)) by done. unfold zlen. rewrite Nat2Z.id.
    by rstep ltac:(by apply ReadFull_app).
  - intros s [h p d] r H. read_inv; bsplit. unfold wfZK, zlen. simpl. rewrite <- !app_assoc.
    match goal with H : length a1 = 4%nat |- _ => pose proof (le_decode_inU 4 32 a1 eq_refl H) as [? ?] end.
    match goal with H : length d = _ |- _ => rewrite H end.
    rewrite Z2Nat.id by done. rewrite wrapU_small by done.
    by rewrite (le_encode_decode' 4).
Qed.

Lemma ZK_Serialize_size c : wfZK c → zlen (ZK_Serialize c) = ZK_SerializedSize c.
Proof.
  intros (H1 & H2 & _). unfold ZK_Serialize, ZK_SerializedSize. autorewrite with golen.
  unfold zlen at 1 2. rewrite H1, H2. unfold HashSize, PublicDataSize. lia.
Qed.

(** A limit no encoding exceeds does not change a codec. *)
Lemma LimitReader_codec {A} (enc : A → bytes) dec wf n :
  Codec enc dec wf → (∀ a, wf a → (length (enc a) ≤ n)%nat) → Codec enc (LimitReader n dec) wf.
Proof.
  intros Hc Hn. unfold LimitReader. split.
  - intros a r Ha. specialize (Hn a Ha). rewrite take_app_ge by done.
    rewrite codec_roundtrip by done. do 2 f_equal.
    replace (length (enc a ++ _) - _)%nat with (length (enc a)) by (rewrite length_app; lia).
    by rewrite drop_app_length.
  - intros s a r H. destruct (dec (take n s)) as [[a' rest]|] eqn:E; [|done].
    injection H as <- <-. apply codec_canonical in E as [E Ha]. split; [|done].
    rewrite E, length_app, Nat.add_sub.
    rewrite <- (take_drop n s) at 1. rewrite E, <- app_assoc. f_equal.
    rewrite <- (take_drop n s) at 2. by rewrite E, <- app_assoc, drop_app_length.
Qed.

Definition certBytes (m : BlockCertificate) : bytes :=
  match m with
  | None => le_encode 4 CertificateVersionNull
  | Some c => le_encode 4 CertificateVersionZK ++ ZK_Serialize c
  end.

Lemma cert_not_too_large c : wfZK c → MsgCertificate_SerializeSize (Some c) <= CertificateMaxSize.
Proof.
  intros (_ & _ & H). unfold MsgCertificate_SerializeSize, ZK_SerializedSize, CertificateMaxSize,
    PublicDataSize, MaxZKProofSize in *. lia.
Qed.

Lemma MsgCertificate_PrlEncode_ok m : wfCert m → MsgCertificate_PrlEncode m = Ok (certBytes m).
Proof.
  destruct m as [c|]; [|done]. intros H. unfold MsgCertificate_PrlEncode.
  rewrite (proj2 (Z.ltb_ge _ _)) by (by apply cert_not_too_large). done.
Qed.

#[export] Instance ZK_limited_codec :
  Codec ZK_Serialize (LimitReader (Z.to_nat CertificateMaxSize) ZK_Deserialize) wfZK.
Proof.
  apply LimitReader_codec; [apply _|]. intros c Hc.
  pose proof (ZK_Serialize_size c Hc) as Hs. pose proof (cert_not_too_large c Hc) as Hl.
  unfold MsgCertificate_SerializeSize in Hl. unfold zlen in Hs.
  apply Nat2Z.inj_le. rewrite Z2Nat.id by done. lia.
Qed.

#[export] Instance MsgCertificate_codec : Codec certBytes MsgCertificate_PrlDecode wfCert.
Proof.
  unfold MsgCertificate_PrlDecode. split.
  - intros [c|] r Hc; simpl certBytes.
    + rewrite <- app_assoc. read_le 4%nat 32.
      change (CertificateVersionZK =? CertificateVersionNull) with false.
      change (CertificateVersionZK =? CertificateVersionZK) with true. cbv iota.
      by rstep ltac:(by apply codec_roundtrip).
    + by read_le 4%nat 32.
  - intros s m r H. read_inv; bsplit.
    + cbn [certBytes]. rewrite <- Hb. by rewrite (le_encode_decode' 4).
    + apply codec_canonical in Hr as [-> Hc]. cbn [certBytes wfCert].
      rewrite <- Hb0, <- app_assoc.
      by rewrite (le_encode_decode' 4).
Qed.

Definition headerBytes (mh : MsgHeader) : bytes :=
  certBytes (mh_Certificate mh) ++ writeBlockHeaderBuf (mh_BlockHeader mh).
Definition wfMsgHeader (mh : MsgHeader) : Prop :=
  wfCert (mh_Certificate mh) ∧ wfHeader (mh_BlockHeader mh).

#[export] Instance MsgHeader_codec : Codec headerBytes MsgHeader_PrlDecode wfMsgHeader.
Proof.
  unfold headerBytes, MsgHeader_PrlDecode. split.
  - intros [c h] r [Hc Hh]. simpl in *. rewrite <- app_assoc.
    by do 2 rstep ltac:(by apply codec_roundtrip).
  - intros s [c h] r H. read_inv. apply codec_canonical in Hr as [-> Hc].
    apply codec_canonical in Hr0 as [-> Hh]. simpl. by rewrite <- app_assoc.
Qed.

(** *** AuxPoW data *)

Lemma readMerkleNode_encode n c r :
  wfNode n → 0 <= 0 <= c → c = 0 →
  readMerkleNode c (writeMerkleNode n ++ r) = Ok ((n, c - 0), r).
Proof.
  destruct n as [h l]. unfold wfNode, readMerkleNode, writeMerkleNode. simpl. intros Hn _ ->.
  rstep ltac:(apply ReadFull_app; solve_len). unfold rret. simpl.
  rewrite slice_app_hit by done. rewrite lookup_app_r, Hn by lia. simpl. by destruct l.
Qed.

Lemma readMerkleNodes_encode l r :
  Forall wfNode l →
  rloop (length l) readMerkleNode 0 (concat (writeMerkleNode <$> l) ++ r) = Ok ((l, 0), r).
Proof.
  induction 1 as [|n l Hn Hl IH]; [done|]. cbn [length rloop]. csimpl. rewrite <- app_assoc.
  rstep ltac:(by apply readMerkleNode_encode). by rstep ltac:(apply IH).
Qed.

Lemma readMerkleNodes_wf k c s l c' r :
  rloop k readMerkleNode c s = Ok ((l, c'), r) → Forall wfNode l ∧ length l = k.
Proof.
  revert c s l c' r. induction k as [|k IH]; intros c s l c' r H.
  - injection H as <- <- <-. by split.
  - cbn [rloop] in H. apply rbind_Ok in H as ([n c1] & s1 & H1 & H).
    apply rbind_Ok in H as ([l' c2] & s2 & H2 & H). injection H as <- <- <-.
    unfold readMerkleNode in H1. read_inv. apply IH in H2 as [? <-].
    split; [|done]. constructor; [|done]. unfold wfNode. simpl.
    rewrite length_slice; lia.
Qed.

Lemma wf_len_inU {A} (l : list A) b : 0 <= zlen l <= b → b < 2 ^ 32 → inU 32 (zlen l).
Proof. unfold inU. lia. Qed.

Lemma AuxPow_roundtrip a r :
  wfAux a → AuxPow_Deserialise (AuxPow_Serialise a ++ r) = Ok (a, r).
Proof.
  destruct a as [hd st ht pd pf cb br].
  intros (H1 & (H2 & H2') & H3 & H4 & H5 & H6 & H7 & H8 & H9).
  unfold AuxPow_Deserialise, AuxPow_Serialise. cbn [ap_PearlHeader ap_ModelOSStateHash
    ap_PearlHeight ap_PearlPublicData ap_PearlProofData ap_PearlCoinbaseTx ap_CoinbaseBranch] in *.
  unfold MaxZKProofSize, maxPearlHeight, MaxCoinbaseBranchDepth in *.
  pose proof (zlen_nonneg cb). pose proof (zlen_nonneg br).
  rewrite <- !app_assoc. rstep ltac:(by apply ReadFull_app).
  rewrite (proj2 (Z.eqb_neq _ _) H2), (proj2 (Z.eqb_eq _ _) H2'). cbv beta iota delta [negb].
  rstep ltac:(by apply ReadFull_app).
  read_le 4%nat 32; [by apply wrapU_in|]. rewrite wrapS_wrapU by (done || unfold inS; lia).
  rewrite (proj2 (Z.leb_gt _ _)), (proj2 (Z.ltb_ge _ _)) by lia.
  rstep ltac:(by apply ReadFull_app).
  rewrite (wrapU_small 32 (zlen pf)) by (unfold inU; lia).
  read_le 4%nat 32; [unfold inU; lia|].
  rewrite (proj2 (Z.eqb_neq _ _)), (proj2 (Z.ltb_ge _ _)) by lia.
  unfold zlen at 1. rewrite Nat2Z.id. rstep ltac:(by apply ReadFull_app).
  rewrite (wrapU_small 32 (zlen cb)) by (unfold inU; lia).
  read_le 4%nat 32; [unfold inU; lia|]. rewrite (proj2 (Z.ltb_ge _ _)) by lia.
  unfold zlen at 1. rewrite Nat2Z.id. rstep ltac:(by apply ReadFull_app).
  cbn [app]. rstep ltac:(apply ReadFull_1). rewrite le_decode_1, b2z_z2b, Z.mod_small by lia.
  rewrite (proj2 (Z.ltb_ge _ _)) by lia. unfold zlen at 1. rewrite Nat2Z.id.
  by rstep ltac:(by apply readMerkleNodes_encode).
Qed.

Lemma AuxPow_decoded_wf s a r : AuxPow_Deserialise s = Ok (a, r) → wfAux a.
Proof.
  unfold AuxPow_Deserialise. intros H.
  apply rbind_Ok in H as (hd & s1 & Hr1 & H). apply ReadFull_Ok in Hr1 as [_ Hhd].
  case_match eqn:E1; [done|]. case_match eqn:E2; [done|].
  apply rbind_Ok in H as (st & s2 & Hr2 & H). apply ReadFull_Ok in Hr2 as [_ Hst].
  apply rbind_Ok in H as (hb & s3 & Hr3 & H). apply ReadFull_Ok in Hr3 as [_ Hhb].
  case_match eqn:E3; [done|]. case_match eqn:E4; [done|].
  apply rbind_Ok in H as (pd & s4 & Hr4 & H). apply ReadFull_Ok in Hr4 as [_ Hpd].
  apply rbind_Ok in H as (lb & s5 & Hr5 & H). apply ReadFull_Ok in Hr5 as [_ Hlb].
  case_match eqn:E5; [done|]. case_match eqn:E6; [done|].
  apply rbind_Ok in H as (pf & s6 & Hr6 & H). apply ReadFull_Ok in Hr6 as [_ Hpf].
  apply rbind_Ok in H as (cl & s7 & Hr7 & H). apply ReadFull_Ok in Hr7 as [_ Hcl].
  case_match eqn:E7; [done|].
  apply rbind_Ok in H as (cb & s8 & Hr8 & H). apply ReadFull_Ok in Hr8 as [_ Hcb].
  apply rbind_Ok in H as (bl & s9 & Hr9 & H). apply ReadFull_Ok in Hr9 as [_ Hbl].
  case_match eqn:E8; [done|].
  apply rbind_Ok in H as ([br c] & s10 & Hr10 & H). injection H as <- <-.
  apply readMerkleNodes_wf in Hr10 as [Hbr Hbrl]. bsplit.
  pose proof (le_decode_range lb). pose proof (le_decode_range cl). pose proof (le_decode_range bl).
  unfold wfAux. simpl. unfold zlen. rewrite Hpf, Hcb, Hbrl. split_and!; try done; lia.
Qed.

(** *** Blocks *)

Definition auxBytes (b : MsgBlock) : bytes :=
  match mb_AuxPow b with Some a => AuxPow_Serialise a | None => [] end.

Definition blockBytes (b : MsgBlock) : bytes :=
  headerBytes (mb_MsgHeader b) ++ auxBytes b
  ++ WriteVarIntBuf (zlen (mb_Transactions b)) ++ concat (Serialize <$> mb_Transactions b).

Lemma MsgBlock_PrlEncode_ok b :
  wfBlock b → MsgBlock_PrlEncode WitnessEncoding b = Ok (blockBytes b).
Proof.
  intros (Hc & _ & Ha & _). unfold MsgBlock_PrlEncode, MsgHeader_PrlEncode, blockBytes, auxBytes.
  rewrite MsgCertificate_PrlEncode_ok by done. simpl.
  destruct (IsAuxPowBlock _).
  - destruct Ha as (a & -> & _). done.
  - by rewrite Ha.
Qed.

Lemma MsgBlock_decode_ok b r :
  wfBlock b → MsgBlock_PrlDecode WitnessEncoding (blockBytes b ++ r) = Ok (b, r).
Proof.
  destruct b as [mh aux txs]. intros (Hc & Hh & Ha & Hn & Ht). unfold mb_BlockHeader in *.
  simpl in *. unfold MsgBlock_PrlDecode, blockBytes, auxBytes. simpl. rewrite <- !app_assoc.
  rstep ltac:(by apply codec_roundtrip).
  rewrite (rbind_step _ _ _ aux (WriteVarIntBuf (zlen txs) ++ concat (Serialize <$> txs) ++ r)).
  2: { destruct (IsAuxPowBlock _).
       - destruct Ha as (a & -> & Hwf). by rewrite AuxPow_roundtrip.
       - by rewrite Ha. }
  pose proof (zlen_nonneg txs). change maxTxPerBlock with 400001 in *.
  rstep ltac:(apply codec_roundtrip; unfold inU; lia).
  rewrite (proj2 (Z.ltb_ge _ _)) by done. unfold zlen at 1. rewrite Nat2Z.id.
  rstep ltac:(by apply (rloop_codec Serialize Deserialize (λ tx, wfTx tx ∧ tx_TxIn tx ≠ []))).
  done.
Qed.

Lemma MsgBlock_decoded_wf s b r :
  MsgBlock_PrlDecode WitnessEncoding s = Ok (b, r) → wfBlock b.
Proof.
  unfold MsgBlock_PrlDecode. intros H.
  apply rbind_Ok in H as (mh & s1 & H1 & H). apply codec_canonical in H1 as [-> [Hc Hh]].
  apply rbind_Ok in H as (aux & s2 & H2 & H).
  apply rbind_Ok in H as (n & s3 & H3 & H). apply codec_canonical in H3 as [-> [Hn0 _]].
  case_match eqn:E; [done|]. bsplit.
  apply rbind_Ok in H as ([txs c] & s4 & H4 & H). injection H as <- <-.
  pose proof (rloop_codec_state _ _ _ _ _ _ H4) as ->.
  apply (rloop_codec Serialize Deserialize (λ tx, wfTx tx ∧ tx_TxIn tx ≠ [])) in H4
    as (-> & Hl & Hf).
  unfold wfBlock, mb_BlockHeader, mb_BlockCertificate. simpl. split_and!; try done.
  - destruct (IsAuxPowBlock _).
    + destruct (AuxPow_Deserialise s1) as [[a r']|e] eqn:Ea.
      * injection H2 as <- _. exists a. split; [done|]. by eapply AuxPow_decoded_wf.
      * by destruct e.
    + by injection H2 as <- _.
  - unfold zlen. lia.
Qed.

(** *** The merged-mining commitment scan *)

Lemma commitmentScan_spec s sigma fuel i found n :
  (n ≤ 1)%nat → length sigma = 32%nat →
  commitmentScan s sigma fuel i found n =
  let hits := List.filter (magicAt s) (seq i fuel) in
  if (1 <? n + length hits)%nat then -1
  else match hits with
       | j :: _ => if bool_decide (slice (j + 4) (j + 36) s = sigma) then Z.of_nat j else found
       | [] => found
       end.
Proof.
  intros Hn Hs. revert i found n Hn. induction fuel as [|fuel IH]; intros i found n Hn.
  - simpl. rewrite Nat.add_0_r. by destruct (Nat.ltb_spec 1 n); [lia|].
  - cbn [commitmentScan seq List.filter]. destruct (magicAt s i) eqn:E.
    + destruct (Nat.ltb_spec 1 (S n)).
      * simpl. destruct (Nat.ltb_spec 1 (n + S (length (List.filter (magicAt s) (seq (S i) fuel))))); [done|lia].
      * assert (n = 0%nat) as -> by lia. rewrite IH by lia. simpl.
        destruct (List.filter (magicAt s) (seq (S i) fuel)) as [|j l] eqn:El; [|done].
        simpl. case_bool_decide as Hb.
        -- assert (i + 36 ≤ length s)%nat.
           { rewrite <- Hb in Hs. unfold slice in Hs. rewrite length_take, length_drop in Hs. lia. }
           by rewrite (proj2 (Nat.leb_le _ _)).
        -- by rewrite andb_false_r.
    + by apply IH.
Qed.

(** The offsets the scan visits are the ones a magic can start at. *)
Lemma magicAt_bound s i : magicAt s i = true → (i < length s - 3)%nat.
Proof.
  unfold magicAt. intros H. bsplit. apply (f_equal length) in H.
  unfold slice in H. rewrite length_take, length_drop in H. simpl in H. lia.
Qed.

Lemma magic_hits s i :
  i ∈ List.filter (magicAt s) (seq 0 (length s - 3)) ↔ magicAt s i = true.
Proof.
  rewrite list_elem_of_In, filter_In, in_seq. split; [tauto|].
  intros H. pose proof (magicAt_bound s i H). split; [lia|done].
Qed.

Lemma magic_hits_NoDup s : NoDup (List.filter (magicAt s) (seq 0 (length s - 3))).
Proof. apply NoDup_ListNoDup, List.NoDup_filter, List.seq_NoDup. Qed.

(** ** Properties *)

(** A block survives its wire format: a well-formed block encodes without
    error and decodes to itself, whatever follows it on the stream; and
    whatever the decoder accepts is a well-formed block, so that re-encoding
    and decoding it is stable. *)
Lemma MsgBlock_wire_stable :
  (∀ b, wfBlock b →
     ∃ bs, MsgBlock_PrlEncode WitnessEncoding b = Ok bs
       ∧ ∀ r, MsgBlock_PrlDecode WitnessEncoding (bs ++ r) = Ok (b, r))
  ∧ (∀ s b r, MsgBlock_PrlDecode WitnessEncoding s = Ok (b, r) → wfBlock b).
Proof.
  split; [|apply MsgBlock_decoded_wf].
  intros b Hb. exists (blockBytes b). split; [by apply MsgBlock_PrlEncode_ok|].
  intros r. by apply MsgBlock_decode_ok.
Qed.

Lemma commitment_unique scriptSig sigma (i : nat) :
  length sigma = 32%nat →
  (ContainsModelosCommitment scriptSig sigma = Z.of_nat i
   ↔ magicAt scriptSig i = true ∧ slice (i + 4) (i + 36) scriptSig = sigma
     ∧ ∀ j, magicAt scriptSig j = true → j = i)
  ∧ (ContainsModelosCommitment scriptSig sigma = -1
     ∨ ∃ k : nat, ContainsModelosCommitment scriptSig sigma = Z.of_nat k).
Proof.
  intros Hs. unfold ContainsModelosCommitment. rewrite commitmentScan_spec by (done || lia).
  pose proof (magic_hits scriptSig) as Hh. pose proof (magic_hits_NoDup scriptSig) as Hd.
  destruct (List.filter _ _) as [|j [|k l]]; simpl.
  - split; [|by left]. split; [lia|]. intros (H & _). apply Hh in H. by apply not_elem_of_nil in H.
  - case_bool_decide as Hb.
    + split; [|right; by exists j]. split.
      * intros H. assert (j = i) as -> by lia. split; [by apply Hh; left|]. split; [done|].
        intros k Hk. apply Hh in Hk. by apply list_elem_of_singleton in Hk.
      * intros (_ & _ & H). f_equal. apply H, Hh. by left.
    + split; [|by left]. split; [lia|]. intros (H & Hb' & _). apply Hh in H.
      apply list_elem_of_singleton in H as ->. done.
  - split; [|by left]. split; [lia|]. intros (_ & _ & H).
    assert (j = i) as -> by (apply H, Hh; left).
    assert (k = i) as -> by (apply H, Hh; right; left).
    apply NoDup_cons in Hd as [Hd _]. exfalso. apply Hd. left.
Qed.

(** The merged-mining commitment scan accepts exactly the scripts in which
    the magic occurs once and is followed by the expected 32-byte hash: it
    returns a non-negative offset [i] if and only if [i] is the only offset of
    the magic and the hash follows it; otherwise it returns -1. *)
Lemma ContainsModelosCommitment_unique scriptSig sigma (i : nat) :
  length sigma = 32%nat →
  (ContainsModelosCommitment scriptSig sigma = Z.of_nat i
   ↔ magicAt scriptSig i = true ∧ slice (i + 4) (i + 36) scriptSig = sigma
     ∧ ∀ j, magicAt scriptSig j = true → j = i)
  ∧ (ContainsModelosCommitment scriptSig sigma = -1
     ∨ ∃ k : nat, ContainsModelosCommitment scriptSig sigma = Z.of_nat k).
Proof. apply commitment_unique. Qed.

Definition exSigma : bytes := replicate 32 xab.
Definition exCoinbaseScript : bytes := [x03; x01; x02] ++ AuxPowMagic ++ exSigma ++ [x00].

Lemma ContainsModelosCommitment_unique_witness :
  length exSigma = 32%nat ∧ ContainsModelosCommitment exCoinbaseScript exSigma = 3
  ∧ (∀ j, magicAt exCoinbaseScript j = true → j = 3%nat).
Proof.
  split; [reflexivity|]. split; [by vm_compute|].
  destruct (ContainsModelosCommitment_unique exCoinbaseScript exSigma 3 eq_refl) as [H _].
  apply H. by vm_compute.
Defined.

(** The extractor of the binding argument: it replays the branch from two
    transaction ids and returns the first pair of preimages with equal digest. *)
Definition merklePreimage (current : bytes) (node : AuxPowMerkleNode) : bytes :=
  if an_IsLeft node then an_Hash node ++ current else current ++ an_Hash node.

Fixpoint branchCollision (sha256 : bytes → bytes) (l : list AuxPowMerkleNode) (t1 t2 : bytes)
  : option (bytes * bytes) :=
  match l with
  | [] => None
  | n :: l' =>
      let x := merklePreimage t1 n in let y := merklePreimage t2 n in
      if bool_decide (DoubleHashH sha256 x = DoubleHashH sha256 y) then Some (x, y)
      else branchCollision sha256 l' (DoubleHashH sha256 x) (DoubleHashH sha256 y)
  end.

Lemma merklePreimage_inj t1 t2 n : t1 ≠ t2 → merklePreimage t1 n ≠ merklePreimage t2 n.
Proof.
  intros Hne E. apply Hne. unfold merklePreimage in E.
  destruct (an_IsLeft n); [by apply app_inv_head in E|by apply app_inv_tail in E].
Qed.

(** The coinbase Merkle branch binds the coinbase transaction: when two
    different transaction ids reach the same root through the same branch, the
    extractor returns two different strings on that path with the same double
    SHA-256. *)
Lemma coinbase_branch_binding sha256 a t1 t2 :
  VerifyCoinbaseMerkleRoot sha256 a t1 = VerifyCoinbaseMerkleRoot sha256 a t2 → t1 ≠ t2 →
  ∃ x y, branchCollision sha256 (ap_CoinbaseBranch a) t1 t2 = Some (x, y)
    ∧ x ≠ y ∧ DoubleHashH sha256 x = DoubleHashH sha256 y.
Proof.
  unfold VerifyCoinbaseMerkleRoot. revert t1 t2.
  induction (ap_CoinbaseBranch a) as [|n l IH]; intros t1 t2 H Hne; [done|].
  cbn [branchCollision foldl] in *. case_bool_decide as Hb.
  - do 2 eexists. split; [done|]. split; [by apply merklePreimage_inj|done].
  - by apply IH.
Qed.

Definition exBranch : AuxPowData :=
  mkAuxPowData [] [] 1 [] [] [] [mkAuxPowMerkleNode (replicate 32 x01) true].

Lemma coinbase_branch_binding_witness :
  let h := λ _ : bytes, replicate 32 x00 in
  ∃ x y, branchCollision h (ap_CoinbaseBranch exBranch) [x0a] [x0b] = Some (x, y)
    ∧ x ≠ y ∧ DoubleHashH h x = DoubleHashH h y.
Proof.
  intros h. apply (coinbase_branch_binding h exBranch [x0a] [x0b]); [reflexivity|discriminate].
Defined.
