(* ===== verification/Chaincfg.v ===== *)
(** * Chain parameters and the header interface (src/node/chaincfg)

    The consensus fields of [Params] for each network, the deployments of the
    version-bits rules with their median-time starters and enders, and
    [HeaderCtx], the interface through which the difficulty, version-bits and
    header-validation code walks the chain.  [BlockIndex] provides the
    implementation the node uses. *)
From Stdlib Require Import ZArith Lia Strings.Byte Strings.Ascii Strings.String.
From stdpp Require Import base list gmap.
From S2P Require Import Prelude.
Open Scope string_scope.
Open Scope Z_scope.

(** ** Durations ([time.Duration], nanoseconds in an int64) *)
Definition Second : Z := 1000000000.
Definition Minute : Z := 60 * Second.
Definition Hour : Z := 60 * Minute.

(** ** Checkpoints *)

(** [newHashFromStr]: sixty-four hexadecimal digits, most significant byte
    first, into the little-endian [chainhash.Hash]. *)
Definition hexDigit (c : ascii) : Z :=
  let n := Z.of_N (N_of_ascii c) in
  if (48 <=? n) && (n <=? 57) then n - 48
  else if (97 <=? n) && (n <=? 102) then n - 87
  else if (65 <=? n) && (n <=? 70) then n - 55 else 0.

Fixpoint hexBytes (s : string) : bytes :=
  match s with
  | String a (String b s') => z2b (16 * hexDigit a + hexDigit b) :: hexBytes s'
  | _ => []
  end.

Definition newHashFromStr (s : string) : bytes := reverse (hexBytes s).

Record Checkpoint := { cp_Height : Z; cp_Hash : bytes }.

(** ** Version-bits deployments *)

(** [MedianTimeDeploymentStarter] and [MedianTimeDeploymentEnder]: a UNIX time,
    [None] for Go's zero [time.Time], and whether [SynchronizeClock] has been
    called. *)
Record MedianTimeDeploymentStarter := {
  startTime : option Z;
  st_blockClock : bool }.

Record MedianTimeDeploymentEnder := {
  endTime : option Z;
  en_blockClock : bool }.

Definition NewMedianTimeDeploymentStarter (t : option Z) : MedianTimeDeploymentStarter :=
  {| startTime := t; st_blockClock := false |}.

Definition NewMedianTimeDeploymentEnder (t : option Z) : MedianTimeDeploymentEnder :=
  {| endTime := t; en_blockClock := false |}.

Record ConsensusDeployment := {
  BitNumber : Z;                       (* uint8 *)
  MinActivationHeight : Z;             (* uint32 *)
  CustomActivationThreshold : Z;       (* uint32 *)
  AlwaysActiveHeight : Z;              (* uint32 *)
  DeploymentStarter : MedianTimeDeploymentStarter;
  DeploymentEnder : MedianTimeDeploymentEnder }.

Definition SynchronizeStarter (s : MedianTimeDeploymentStarter) : MedianTimeDeploymentStarter :=
  {| startTime := startTime s; st_blockClock := true |}.

Definition SynchronizeEnder (e : MedianTimeDeploymentEnder) : MedianTimeDeploymentEnder :=
  {| endTime := endTime e; en_blockClock := true |}.

(** [MaxUint32] stands for "never". *)
Definition EffectiveAlwaysActiveHeight (d : ConsensusDeployment) : Z :=
  if AlwaysActiveHeight d =? 0 then 4294967295 else AlwaysActiveHeight d.

Inductive deploymentErr := ErrNoBlockClock | ErrPastMedianTime.

(** [HasStarted] and [HasEnded]; [pastMedianTime] is what the block clock
    returns for the header. *)
Definition HasStarted (s : MedianTimeDeploymentStarter) (pastMedianTime : res deploymentErr Z)
  : res deploymentErr bool :=
  if negb (st_blockClock s) then Err ErrNoBlockClock
  else match startTime s with
       | None => Ok true
       | Some t => let? m := pastMedianTime in Ok (t <=? m)
       end.

Definition HasEnded (e : MedianTimeDeploymentEnder) (pastMedianTime : res deploymentErr Z)
  : res deploymentErr bool :=
  if negb (en_blockClock e) then Err ErrNoBlockClock
  else match endTime e with
       | None => Ok false
       | Some t => let? m := pastMedianTime in Ok (t <=? m)
       end.

Definition DeploymentTestDummy : nat := 0.
Definition DeploymentTestDummyMinActivation : nat := 1.
Definition DeploymentTestDummyAlwaysActive : nat := 2.
Definition DefinedDeployments : nat := 3.

(** ** Parameters *)
Record Params := {
  Name : string;
  Net : Z;
  DefaultPort : string;
  PowLimit : Z;
  PowLimitBits : Z;
  PoWNoRetargeting : bool;
  CoinbaseMaturity : Z;
  TargetTimePerBlock : Z;
  WTEMAHalfLife : Z;
  ReduceMinDifficulty : bool;
  MinDiffReductionTime : Z;
  GenerateSupported : bool;
  MaxSupportedTxVersion : Z;
  MaxTimeOffsetMinutes : Z;
  Checkpoints : list Checkpoint;
  RuleChangeActivationThreshold : Z;
  MinerConfirmationWindow : Z;
  Deployments : list ConsensusDeployment;
  RelayNonStdTxs : bool;
  Bech32HRPSegwit : string;
  HDPrivateKeyID : Z;                  (* four bytes, big endian *)
  HDPublicKeyID : Z;
  HDCoinType : Z }.

Definition mainPowLimit : Z := Z.shiftl 1 208 - 1.
Definition testPowLimit : Z := Z.shiftl 1 208 - 1.
Definition regressionPowLimit : Z := Z.shiftl 1 233 - 1.
Definition simNetPowLimit : Z := Z.shiftl 1 233 - 1.
Definition sigNetPowLimit : Z := Z.shiftl 1 228 - 1.

Definition MainNet : Z := 0x4D444C4D.
Definition RegTest : Z := 0x4D444C52.
Definition TestNet : Z := 0x4D444C31.
Definition TestNet2 : Z := 0x4D444C32.
Definition SimNet : Z := 0x4D444C53.

Definition HDCoinTypeModelOS : Z := 778572.
Definition HDCoinTypeTestnet : Z := 1.

(** The three entries every network declares. *)
Definition dummyDeployments (start stop : option Z) (custom minHeight alwaysBit : Z)
  : list ConsensusDeployment :=
  [ {| BitNumber := 28; MinActivationHeight := 0; CustomActivationThreshold := 0;
       AlwaysActiveHeight := 0;
       DeploymentStarter := NewMedianTimeDeploymentStarter start;
       DeploymentEnder := NewMedianTimeDeploymentEnder stop |};
    {| BitNumber := 22; MinActivationHeight := minHeight;
       CustomActivationThreshold := custom; AlwaysActiveHeight := 0;
       DeploymentStarter := NewMedianTimeDeploymentStarter start;
       DeploymentEnder := NewMedianTimeDeploymentEnder stop |};
    {| BitNumber := alwaysBit; MinActivationHeight := 0; CustomActivationThreshold := 0;
       AlwaysActiveHeight := 1;
       DeploymentStarter := NewMedianTimeDeploymentStarter None;
       DeploymentEnder := NewMedianTimeDeploymentEnder None |} ].

Definition MainNetParams : Params := {|
  Name := "mainnet";
  Net := MainNet;
  DefaultPort := "44208";
  PowLimit := mainPowLimit;
  PowLimitBits := 0x1b00ffff;
  PoWNoRetargeting := false;
  CoinbaseMaturity := 100;
  TargetTimePerBlock := 3 * Minute + 14 * Second;
  WTEMAHalfLife := 168 * Hour;
  ReduceMinDifficulty := false;
  MinDiffReductionTime := 0;
  GenerateSupported := false;
  MaxSupportedTxVersion := 5;
  MaxTimeOffsetMinutes := 5;
  Checkpoints := [
    {| cp_Height := 2000; cp_Hash := newHashFromStr "db2442bfbcd5a9814135aed51cb9e6337d4880a12ab4230c94b1ce60475694bb" |};
    {| cp_Height := 5000; cp_Hash := newHashFromStr "1e16f1bef355dae580546bdf37116be40683f050abf6f7552fd3ca5146467a26" |};
    {| cp_Height := 8000; cp_Hash := newHashFromStr "76cb6d65a9ce5a787a8fa9a91efcf238e3fd4dc7c0ad2264f6a501bad95d8831" |};
    {| cp_Height := 11000; cp_Hash := newHashFromStr "1a01af1039be3a2f71fa1e330f9be1eccf871180dd1a640a8025c6f92cbb886b" |};
    {| cp_Height := 14000; cp_Hash := newHashFromStr "015eb33ed54a91525408e190ca058c2b47a4473eb660b9c5c198fa3052868fe4" |};
    {| cp_Height := 17000; cp_Hash := newHashFromStr "d7fcd969038ff2842ede030be0df3def62861069ae15a30cca20c659ddc5747b" |} ];
  RuleChangeActivationThreshold := 1916;
  MinerConfirmationWindow := 2016;
  Deployments := dummyDeployments (Some 1767225601) (Some 1777247999) 1815 100000 30;
  RelayNonStdTxs := false;
  Bech32HRPSegwit := "mdl";
  HDPrivateKeyID := 0x04b2430c;
  HDPublicKeyID := 0x04b24746;
  HDCoinType := HDCoinTypeModelOS |}.

Definition RegressionNetParams : Params := {|
  Name := "regtest";
  Net := RegTest;
  DefaultPort := "18444";
  PowLimit := regressionPowLimit;
  PowLimitBits := 0x1e010000;
  PoWNoRetargeting := true;
  CoinbaseMaturity := 100;
  TargetTimePerBlock := 3 * Minute + 14 * Second;
  WTEMAHalfLife := 168 * Hour;
  ReduceMinDifficulty := true;
  MinDiffReductionTime := 6 * Minute + 28 * Second;
  GenerateSupported := true;
  MaxSupportedTxVersion := 5;
  MaxTimeOffsetMinutes := 120;
  Checkpoints := [];
  RuleChangeActivationThreshold := 108;
  MinerConfirmationWindow := 144;
  Deployments := dummyDeployments None None 72 600 30;
  RelayNonStdTxs := true;
  Bech32HRPSegwit := "rmdl";
  HDPrivateKeyID := 0x045f18bc;
  HDPublicKeyID := 0x045f1cf6;
  HDCoinType := HDCoinTypeTestnet |}.

Definition TestNetParams : Params := {|
  Name := "testnet";
  Net := TestNet;
  DefaultPort := "44210";
  PowLimit := testPowLimit;
  PowLimitBits := 0x1b00ffff;
  PoWNoRetargeting := false;
  CoinbaseMaturity := 100;
  TargetTimePerBlock := 3 * Minute + 14 * Second;
  WTEMAHalfLife := 168 * Hour;
  ReduceMinDifficulty := true;
  MinDiffReductionTime := 4 * Hour;
  GenerateSupported := false;
  MaxSupportedTxVersion := 5;
  MaxTimeOffsetMinutes := 5;
  Checkpoints := [];
  RuleChangeActivationThreshold := 1512;
  MinerConfirmationWindow := 2016;
  Deployments := dummyDeployments (Some 1767225601) (Some 1777247999) 1815 100000 30;
  RelayNonStdTxs := true;
  Bech32HRPSegwit := "tmdl";
  HDPrivateKeyID := 0x045f18bc;
  HDPublicKeyID := 0x045f1cf6;
  HDCoinType := HDCoinTypeTestnet |}.

Definition TestNet2Params : Params := {|
  Name := "testnet2";
  Net := TestNet2;
  DefaultPort := "44212";
  PowLimit := testPowLimit;
  PowLimitBits := 0x1b00ffff;
  PoWNoRetargeting := false;
  CoinbaseMaturity := 100;
  TargetTimePerBlock := 3 * Minute + 14 * Second;
  WTEMAHalfLife := 168 * Hour;
  ReduceMinDifficulty := true;
  MinDiffReductionTime := 4 * Hour;
  GenerateSupported := false;
  MaxSupportedTxVersion := 5;
  MaxTimeOffsetMinutes := 5;
  Checkpoints := [];
  RuleChangeActivationThreshold := 1512;
  MinerConfirmationWindow := 2016;
  Deployments := dummyDeployments (Some 1767225601) (Some 1777247999) 1815 100000 30;
  RelayNonStdTxs := true;
  Bech32HRPSegwit := "tmdl";
  HDPrivateKeyID := 0x045f18bc;
  HDPublicKeyID := 0x045f1cf6;
  HDCoinType := HDCoinTypeTestnet |}.

Definition SimNetParams : Params := {|
  Name := "simnet";
  Net := SimNet;
  DefaultPort := "18555";
  PowLimit := simNetPowLimit;
  PowLimitBits := 0x1e010000;
  PoWNoRetargeting := true;
  CoinbaseMaturity := 100;
  TargetTimePerBlock := 3 * Minute + 14 * Second;
  WTEMAHalfLife := 168 * Hour;
  ReduceMinDifficulty := true;
  MinDiffReductionTime := 6 * Minute + 28 * Second;
  GenerateSupported := true;
  MaxSupportedTxVersion := 5;
  MaxTimeOffsetMinutes := 120;
  Checkpoints := [];
  RuleChangeActivationThreshold := 75;
  MinerConfirmationWindow := 100;
  Deployments := dummyDeployments None None 50 600 29;
  RelayNonStdTxs := true;
  Bech32HRPSegwit := "smdl";
  HDPrivateKeyID := 0x0420b900;
  HDPublicKeyID := 0x0420bd3a;
  HDCoinType := HDCoinTypeTestnet |}.

(** Signet: the network identifier comes from the double hash of the challenge. *)
Definition DefaultSignetChallenge : bytes :=
  hexBytes "512103ad5e0edad18cb1f0fc0d28a3d4f1f3e445640337489abb10404f2d1e086be430210359ef5021964fe22d6f8e05b2463c9540ce96883fe3b278760f048f5189f2e6c452ae".
Definition CustomSignetParams (sha256 : bytes → bytes) (challenge : bytes) : Params :=
  let challengeLength := z2b (Z.of_nat (length challenge)) in
  let hashDouble := sha256 (sha256 (challengeLength :: challenge)) in
  let net := le_decode (take 4 hashDouble) in {|
  Name := "signet";
  Net := net;
  DefaultPort := "38333";
  PowLimit := sigNetPowLimit;
  PowLimitBits := 0x1d0fffff;
  PoWNoRetargeting := false;
  CoinbaseMaturity := 100;
  TargetTimePerBlock := 3 * Minute + 14 * Second;
  WTEMAHalfLife := 168 * Hour;
  ReduceMinDifficulty := false;
  MinDiffReductionTime := 6 * Minute + 28 * Second;
  GenerateSupported := false;
  MaxSupportedTxVersion := 2;
  MaxTimeOffsetMinutes := 5;
  Checkpoints := [];
  RuleChangeActivationThreshold := 1916;
  MinerConfirmationWindow := 2016;
  Deployments := dummyDeployments (Some 1767225601) (Some 1777247999) 1815 100000 30;
  RelayNonStdTxs := false;
  Bech32HRPSegwit := "tprl";
  HDPrivateKeyID := 0x04358394;
  HDPublicKeyID := 0x043587cf;
  HDCoinType := HDCoinTypeTestnet |}.
Definition SigNetParams (sha256 : bytes → bytes) : Params := CustomSignetParams sha256 DefaultSignetChallenge.

(** The networks the node can run, a signet with its own challenge included; the
    well-formedness of a parameter set that the difficulty code relies on. *)
Definition networks (sha256 : bytes → bytes) (challenge : bytes) : list Params :=
  [MainNetParams; RegressionNetParams; TestNetParams; TestNet2Params; SimNetParams; SigNetParams sha256; CustomSignetParams sha256 challenge].

Record wfParams (p : Params) : Prop := {
  wp_limit_pos : 0 < PowLimit p;
  wp_limit_256 : PowLimit p < 2 ^ 256;
  wp_spacing : TargetTimePerBlock p = 194 * Second;
  wp_half_life : WTEMAHalfLife p = 604800 * Second;
  wp_net : ReduceMinDifficulty p = true → Net p ≠ MainNet }.

Lemma networks_wf sha256 challenge : Forall wfParams (networks sha256 challenge).
Proof. repeat constructor; cbn [PowLimit TargetTimePerBlock WTEMAHalfLife ReduceMinDifficulty Net SigNetParams CustomSignetParams]; done. Qed.

(** ** The header interface *)
Class HeaderCtx (N : Type) := {
  Height : N → Z;                      (* int32 *)
  Bits : N → Z;                        (* uint32 *)
  Timestamp : N → Z;                   (* int64 seconds *)
  Parent : N → option N;
  RelativeAncestorCtx : N → Z → option N }.

(** Walking [n] parents back. *)
Fixpoint parents {N} `{HeaderCtx N} (n : nat) (h : N) : option N :=
  match n with
  | O => Some h
  | S n' => Parent h ≫= parents n'
  end.

(** What an implementation promises of the headers [V] it hands out: heights
    count the parents, fields are in range, and [RelativeAncestorCtx] is the
    parent walk. *)
Class HeaderCtxLaws (N : Type) (V : N → Prop) `{HeaderCtx N} : Prop := {
  hc_height h : V h → 0 <= Height h < 2 ^ 31;
  hc_bits h : V h → inU 32 (Bits h);
  hc_timestamp h : V h → inU 32 (Timestamp h);
  hc_parent h p : V h → Parent h = Some p → V p ∧ Height h = Height p + 1;
  hc_root h : V h → Parent h = None → Height h = 0;
  hc_relative h d : V h → 0 <= d < 2 ^ 31 → RelativeAncestorCtx h d = parents (Z.to_nat d) h }.

Section header_facts.
Context {N : Type} {V : N → Prop} `{HeaderCtxLaws N V}.

Lemma parents_height n h a :
  V h → parents n h = Some a → V a ∧ Height h = Height a + Z.of_nat n.
Proof.
  revert h. induction n as [|n IH]; intros h Hh; cbn [parents].
  - intros [= ->]. split; [done|lia].
  - destruct (Parent h) as [p|] eqn:Hp; [|done]. cbn.
    apply hc_parent in Hp as [Hv Hp]; [|done]. intros [? ?]%IH; [|done]. split; [done|lia].
Qed.

Lemma parents_defined n h : V h → Z.of_nat n <= Height h → is_Some (parents n h).
Proof.
  revert h. induction n as [|n IH]; intros h Hh Hn; [by eexists|].
  cbn [parents]. destruct (Parent h) as [p|] eqn:Hp.
  - apply hc_parent in Hp as [Hv Hp]; [|done]. apply IH; [done|lia].
  - apply hc_root in Hp; [lia|done].
Qed.
End header_facts.

(** A chain given as the list of its headers, tip first: the simplest
    implementation of the interface. *)
Module ListChain.
Record hdr := { l_bits : Z; l_time : Z }.
Definition chain : Type := hdr * list hdr.
Definition relative (c : chain) (d : Z) : option chain :=
  match drop (Z.to_nat d) (c.1 :: c.2) with
  | [] => None
  | h :: t => if d <? 0 then None else Some (h, t)
  end.
#[global] Instance list_ctx : HeaderCtx chain := {|
  Height c := Z.of_nat (length c.2);
  Bits c := l_bits c.1;
  Timestamp c := l_time c.1;
  Parent c := match c.2 with [] => None | h :: t => Some (h, t) end;
  RelativeAncestorCtx := relative |}.

Definition valid (c : chain) : Prop :=
  Z.of_nat (length c.2) < 2 ^ 31 ∧
  Forall (λ h, inU 32 (l_bits h) ∧ inU 32 (l_time h)) (c.1 :: c.2).

Lemma relative_parents n (h : hdr) t :
  relative (h, t) (Z.of_nat n) = parents n (h, t).
Proof.
  unfold relative. rewrite Nat2Z.id. revert h t. induction n as [|n IH]; intros h t.
  - cbn. done.
  - cbn [drop parents fst snd]. destruct t as [|h' t].
    + cbn. by rewrite drop_nil.
    + cbn [Parent list_ctx snd]. cbn [mbind option_bind]. rewrite <- IH. cbn [fst snd].
      destruct (drop n (h' :: t)); [done|].
      destruct (Z.ltb_spec (Z.of_nat (S n)) 0); [lia|].
      destruct (Z.ltb_spec (Z.of_nat n) 0); [lia|done].
Qed.

#[global] Instance list_laws : HeaderCtxLaws chain valid.
Proof.
  split.
  - intros [h t] [? ?]. cbn in *. lia.
  - intros [h t] [? [[? ?] ?]%Forall_cons]. done.
  - intros [h t] [? [[? ?] ?]%Forall_cons]. done.
  - intros [h t] p [Hl Hf] Hp. cbn in Hp, Hl |- *. destruct t as [|h' t]; [done|].
    injection Hp as <-. cbn [length fst snd] in *. apply Forall_cons in Hf as [_ Hf].
    split; [split; [cbn [snd]; lia|done]|lia].
  - intros [h t] _. cbn. by destruct t.
  - intros [h t] d _ Hd. rewrite <- (Z2Nat.id d) at 1 by lia. apply relative_parents.
Qed.
End ListChain.
