(* ===== verification/Difficulty.v ===== *)
(** * Proof-of-work targets and the difficulty algorithms
    (src/node/blockchain/internal/workmath/difficulty.go,
    src/node/blockchain/difficulty.go, src/node/blockchain/aserti.go)

    The compact encoding of targets, the work of a block, the two difficulty
    algorithms (WTEMA below block 15860, absolute ASERT after it) and the bound
    on the easiest difficulty used while a checkpoint is known. *)
From Stdlib Require Import ZArith Lia Zquot.
From stdpp Require Import base list.
From S2P Require Import Prelude Chaincfg.
Open Scope Z_scope.

(** ** Compact targets *)

(** The hash is little endian, [SetBytes] big endian. *)
Definition HashToBig (hash : bytes) : Z := be_decode (reverse hash).

Definition CompactToBig (compact : Z) : Z :=
  let mantissa := Z.land compact 0x007fffff in
  let isNegative := negb (Z.land compact 0x00800000 =? 0) in
  let exponent := Z.shiftr compact 24 in
  let bn := if exponent <=? 3
            then Z.shiftr mantissa (8 * (3 - exponent))
            else Z.shiftl mantissa (8 * (exponent - 3)) in
  if isNegative then - bn else bn.

(** [len(n.Bytes())] of a [big.Int]: the bytes of its magnitude. *)
Definition bytesLen (n : Z) : Z := if n =? 0 then 0 else Z.log2 (Z.abs n) / 8 + 1.

(** [Bits()[0]] is the low word of the magnitude; [Rsh] of a negative number
    rounds towards minus infinity. *)
Definition BigToCompact (n : Z) : Z :=
  if n =? 0 then 0 else
  let exponent := bytesLen n in
  let mantissa := if exponent <=? 3
                  then u32 (Z.shiftl (u32 (Z.abs n)) (8 * (3 - exponent)))
                  else u32 (Z.abs (Z.shiftr n (8 * (exponent - 3)))) in
  let '(mantissa, exponent) :=
    if negb (Z.land mantissa 0x00800000 =? 0)
    then (Z.shiftr mantissa 8, exponent + 1) else (mantissa, exponent) in
  let compact := Z.lor (u32 (Z.shiftl exponent 24)) mantissa in
  if n <? 0 then Z.lor compact 0x00800000 else compact.

Definition CalcWork (bits : Z) : Z :=
  let difficultyNum := CompactToBig bits in
  if difficultyNum <=? 0 then 0
  else 2 ^ 256 / (difficultyNum + 1).

(** ** ASERT *)
Definition colossusTargetBlockTime : Z := 194.
Definition colossusASERTHalflife : Z := 96 * 194.
Definition colossusAuxPowActivationBlock : Z := 15860.
Definition colossusReanchorBlock : Z := 17500.

Definition applyTargetFloor (target powLimit : Z) : Z :=
  if target <=? 0 then 1
  else if powLimit <? target then powLimit else target.

(** The cubic approximation of [65536 * 2^(frac/65536)], in uint64. *)
Definition asertFactor (frac : Z) : Z :=
  65536 + i64 (Z.shiftr
    (u64 (u64 (u64 (u64 (195766423245049 * frac)
                    + u64 (u64 (971821376 * frac) * frac))
               + u64 (u64 (u64 (5127 * frac) * frac) * frac))
          + 2 ^ 47)) 48).

(** The exponent in 2^16 fixed point; Go's division truncates. *)
Definition asertExponent (spacing timeDiff heightDiff halfLife : Z) : Z :=
  Z.quot (i64 (i64 (timeDiff - i64 (spacing * i64 (heightDiff + 1))) * 65536)) halfLife.

(** The target before clamping. *)
Definition asertScale (anchorTarget exponent : Z) : Z :=
  let shifts := Z.shiftr exponent 16 in
  let frac := u16 exponent in
  let next := anchorTarget * asertFactor frac in
  let shifts := shifts - 16 in
  if shifts <? 0 then Z.shiftr next (- shifts) else Z.shiftl next shifts.

Definition calcASERT (anchorTarget spacing timeDiff heightDiff powLimit halfLife : Z) : Z :=
  applyTargetFloor
    (asertScale anchorTarget (asertExponent spacing timeDiff heightDiff halfLife)) powLimit.

(** ** WTEMA: the weighted-target moving average of one block that took [t]
    seconds. *)
Definition wtemaTarget (params : Params) (t oldTarget : Z) : Z :=
  let T := Z.quot (TargetTimePerBlock params) Second in
  let halfLife := Z.quot (WTEMAHalfLife params) Second in
  let adjustment := i64 (t - T) * oldTarget / halfLife in
  let newTarget := oldTarget + adjustment in
  let newTarget := if PowLimit params <? newTarget then PowLimit params else newTarget in
  if newTarget <=? 0 then 1 else newTarget.

Inductive diffErr := ReduceMinDifficultyOnMainnet.

Section difficulty.
Context {N : Type} `{HeaderCtx N}.

Definition calcNextAsertTarget (lastNode : N) (powLimit : Z) : Z :=
  let anchorHeight :=
    if (0 <? colossusReanchorBlock) && (colossusReanchorBlock <=? Height lastNode)
    then colossusReanchorBlock else colossusAuxPowActivationBlock in
  let steps := i32 (Height lastNode - anchorHeight) in
  if steps <? 0 then applyTargetFloor (CompactToBig (Bits lastNode)) powLimit else
  let anchor := if 0 <? steps then RelativeAncestorCtx lastNode steps else Some lastNode in
  match anchor with
  | None => applyTargetFloor (CompactToBig (Bits lastNode)) powLimit
  | Some anchor =>
      let anchorTime := match Parent anchor with
                        | Some ap => Timestamp ap
                        | None => Timestamp anchor
                        end in
      calcASERT (CompactToBig (Bits anchor)) colossusTargetBlockTime
        (i64 (Timestamp lastNode - anchorTime))
        (i32 (Height lastNode - Height anchor)) powLimit colossusASERTHalflife
  end.

(** Phase 1 between two blocks of the chain. *)
Definition calcWTEMA (params : Params) (lastNode parentNode : N) : Z :=
  wtemaTarget params (i64 (Timestamp lastNode - Timestamp parentNode))
    (CompactToBig (Bits lastNode)).

Definition calcNextRequiredDifficulty (params : Params) (lastNode : option N)
    (newBlockTime : Z) : res diffErr Z :=
  match lastNode with
  | None => Ok (PowLimitBits params)
  | Some lastNode =>
      if PoWNoRetargeting params then Ok (PowLimitBits params) else
      if ReduceMinDifficulty params && (Net params =? MainNet)
      then Err ReduceMinDifficultyOnMainnet else
      if ReduceMinDifficulty params
         && (i64 (Timestamp lastNode + Z.quot (MinDiffReductionTime params) Second)
               <? newBlockTime)
      then Ok (PowLimitBits params) else
      if colossusAuxPowActivationBlock <=? Height lastNode
      then Ok (BigToCompact (calcNextAsertTarget lastNode (PowLimit params)))
      else match Parent lastNode with
           | None => Ok (Bits lastNode)
           | Some parentNode => Ok (BigToCompact (calcWTEMA params lastNode parentNode))
           end
  end.
End difficulty.

(** ** The easiest difficulty reachable in a span of time *)
Definition calcEasiestDifficulty (params : Params) (bits duration : Z) : Z :=
  let durationVal := Z.quot duration Second in
  if ReduceMinDifficulty params
     && (Z.quot (MinDiffReductionTime params) Second <? durationVal)
  then PowLimitBits params else
  let halfLifeSec := Z.quot (WTEMAHalfLife params) Second in
  let newTarget := CompactToBig bits in
  let clamp (t : Z) := BigToCompact (if PowLimit params <? t then PowLimit params else t) in
  if 0 <? durationVal then
    let periods := Z.quot (i64 (i64 (durationVal + halfLifeSec) - 1)) halfLifeSec in
    if 177 <? periods then PowLimitBits params
    else clamp (Z.shiftr (newTarget * 87 ^ periods) (5 * periods))
  else clamp newTarget.

(** ** Facts about the compact encoding *)
Lemma land_bit x k : 0 <= k → Z.land x (2 ^ k) = if Z.testbit x k then 2 ^ k else 0.
Proof.
  intros Hk. apply Z.bits_inj'. intros i Hi. rewrite Z.land_spec, Z.pow2_bits_eqb by lia.
  destruct (Z.eqb_spec k i) as [->|Hne].
  - rewrite andb_true_r. destruct (Z.testbit x i); [|by rewrite Z.testbit_0_l].
    rewrite Z.pow2_bits_eqb by lia. by rewrite Z.eqb_refl.
  - rewrite andb_false_r. destruct (Z.testbit x k); [|by rewrite Z.testbit_0_l].
    rewrite Z.pow2_bits_eqb by lia. by apply Z.eqb_neq in Hne as ->.
Qed.

Lemma testbit_div x k : 0 <= k → Z.testbit x k = Z.odd (x / 2 ^ k).
Proof. intros Hk. by rewrite Z.testbit_odd, Z.shiftr_div_pow2. Qed.

Lemma lor_shift e m k : 0 <= k → 0 <= e → 0 <= m < 2 ^ k → Z.lor (Z.shiftl e k) m = e * 2 ^ k + m.
Proof.
  intros Hk He Hm. assert (Hl : Z.land (Z.shiftl e k) m = 0).
  { apply Z.bits_inj'. intros i Hi. rewrite Z.land_spec, Z.testbit_0_l, Z.shiftl_spec by lia.
    destruct (decide (i < k)).
    - by rewrite Z.testbit_neg_r by lia.
    - rewrite <- (Z.mod_small m (2 ^ k)), Z.mod_pow2_bits_high, andb_false_r by lia. done. }
  rewrite <- Z.shiftl_mul_pow2, Z.add_nocarry_lxor, Z.lxor_lor by done. done.
Qed.

(** The exponent and the mantissa of the normal form of a positive number. *)
Definition cexp (n : Z) : Z := (Z.log2 n + 9) / 8.
Definition cmant (n : Z) : Z :=
  if cexp n <=? 3 then n * 2 ^ (8 * (3 - cexp n)) else n / 2 ^ (8 * (cexp n - 3)).

Lemma cexp_spec n : 0 < n → 2 ^ (8 * cexp n - 9) <= n < 2 ^ (8 * cexp n - 1) ∧ 1 <= cexp n.
Proof.
  intros Hn. pose proof (Z.log2_spec n Hn) as [H1 H2]. pose proof (Z.log2_nonneg n).
  unfold cexp. pose proof (Z.div_mod (Z.log2 n + 9) 8 ltac:(lia)).
  pose proof (Z.mod_pos_bound (Z.log2 n + 9) 8 ltac:(lia)).
  assert (1 <= (Z.log2 n + 9) / 8) by (apply Z.div_le_lower_bound; lia).
  split; [|done]. split.
  - etrans; [|exact H1]. destruct (decide (8 * ((Z.log2 n + 9) / 8) - 9 < 0)).
    + rewrite Z.pow_neg_r by done. pose proof (Z.pow_pos_nonneg 2 (Z.log2 n)). lia.
    + apply Z.pow_le_mono_r; lia.
  - eapply Z.lt_le_trans; [exact H2|]. apply Z.pow_le_mono_r; lia.
Qed.

Lemma cexp_unique n e : 0 < n → 1 <= e → 2 ^ (8 * e - 9) <= n < 2 ^ (8 * e - 1) → cexp n = e.
Proof.
  intros Hn He [H1 H2]. destruct (cexp_spec n Hn) as [[H3 H4] H5].
  destruct (decide (cexp n < e)); [|destruct (decide (e < cexp n)); [|lia]]; exfalso.
  - pose proof (Z.pow_le_mono_r 2 (8 * cexp n - 1) (8 * e - 9)). lia.
  - pose proof (Z.pow_le_mono_r 2 (8 * e - 1) (8 * cexp n - 9)). lia.
Qed.

Lemma cmant_range n : 0 < n → 2 ^ 15 <= cmant n < 2 ^ 23.
Proof.
  intros Hn. destruct (cexp_spec n Hn) as [[H1 H2] H3]. unfold cmant.
  destruct (Z.leb_spec (cexp n) 3).
  - assert (cexp n = 1 ∨ cexp n = 2 ∨ cexp n = 3) as [E|[E|E]] by lia; rewrite E in *; simpl in *; lia.
  - set (k := 8 * (cexp n - 3)) in *.
    replace (8 * cexp n - 9) with (15 + k) in H1 by lia.
    replace (8 * cexp n - 1) with (23 + k) in H2 by lia.
    rewrite Z.pow_add_r in H1, H2 by lia.
    assert (0 < 2 ^ k) by (apply Z.pow_pos_nonneg; lia). split.
    + apply Z.div_le_lower_bound; lia.
    + apply Z.div_lt_upper_bound; lia.
Qed.

Lemma CompactToBig_eq e m : 0 <= e → 0 <= m < 2 ^ 23 →
  CompactToBig (e * 2 ^ 24 + m)
  = if e <=? 3 then m / 2 ^ (8 * (3 - e)) else m * 2 ^ (8 * (e - 3)).
Proof.
  intros He Hm. unfold CompactToBig.
  assert (Hp : 2 ^ 24 = 2 * 2 ^ 23) by done.
  replace 0x007fffff with (Z.ones 23) by done. rewrite Z.land_ones by lia.
  assert (H1 : (e * 2 ^ 24 + m) mod 2 ^ 23 = m).
  { replace (e * 2 ^ 24 + m) with (m + (2 * e) * 2 ^ 23) by lia.
    rewrite Z.mod_add by lia. apply Z.mod_small. lia. }
  rewrite H1. replace 0x00800000 with (2 ^ 23) by done. rewrite land_bit, testbit_div by lia.
  replace ((e * 2 ^ 24 + m) / 2 ^ 23) with (2 * e).
  2:{ apply Z.div_unique with m; lia. }
  rewrite Z.odd_mul. cbn [Z.odd andb negb Z.eqb].
  replace (Z.shiftr (e * 2 ^ 24 + m) 24) with e.
  2:{ rewrite Z.shiftr_div_pow2 by lia. apply Z.div_unique with m; lia. }
  destruct (Z.leb_spec e 3).
  - apply Z.shiftr_div_pow2. lia.
  - apply Z.shiftl_mul_pow2. lia.
Qed.

(** Evaluates closed powers of two and comparisons. *)
Ltac closed_arith :=
  repeat match goal with
  | |- context [2 ^ ?k] => progress (let v := eval vm_compute in (2 ^ k) in change (2 ^ k) with v)
  | |- context [?a <=? ?b] => let v := eval vm_compute in (a <=? b) in change (a <=? b) with v
  end; cbv iota.

(** The mantissa before the sign bit is cleared: three bytes from the top. *)
Lemma mantissa3_range n b : 0 < n → b = bytesLen n →
  let m := if b <=? 3 then n * 2 ^ (8 * (3 - b)) else n / 2 ^ (8 * (b - 3)) in
  2 ^ 16 <= m < 2 ^ 24 ∧ 1 <= b ∧
  (m < 2 ^ 23 → cexp n = b ∧ cmant n = m) ∧
  (2 ^ 23 <= m → cexp n = b + 1 ∧ cmant n = m / 2 ^ 8).
Proof.
  intros Hn Hb. unfold bytesLen in Hb. destruct (Z.eqb_spec n 0) as [|_]; [lia|].
  rewrite Z.abs_eq in Hb by lia. pose proof (Z.log2_spec n Hn) as [H1 H2].
  pose proof (Z.log2_nonneg n).
  pose proof (Z.div_mod (Z.log2 n) 8 ltac:(lia)).
  pose proof (Z.mod_pos_bound (Z.log2 n) 8 ltac:(lia)).
  pose proof (Z.div_pos (Z.log2 n) 8).
  assert (Hlo : 2 ^ (8 * b - 8) <= n) by (etrans; [apply Z.pow_le_mono_r|exact H1]; lia).
  assert (Hhi : n < 2 ^ (8 * b)) by (eapply Z.lt_le_trans; [exact H2|]; apply Z.pow_le_mono_r; lia).
  assert (1 <= b) by lia. clear Hb H1 H2.
  destruct (Z.leb_spec b 3) as [Hle|Hgt]; cbv zeta.
  - assert (b = 1 ∨ b = 2 ∨ b = 3) as [E|[E|E]] by lia; subst b; cbn in Hlo, Hhi;
      (split; [cbn; lia|]); (split; [lia|]); split; intros Hm; cbn in Hm.
    all: match goal with
         | |- cexp ?x = ?e ∧ _ => assert (He : cexp x = e) by (apply cexp_unique; cbn; lia)
         end; split; [exact He|]; unfold cmant; rewrite He; cbn.
    all: closed_arith; try done.
    all: try (apply Z.div_unique_exact; lia).
    all: by rewrite Z.mul_1_r.
  - set (k := 8 * (b - 3)) in *. assert (0 < 2 ^ k) by (apply Z.pow_pos_nonneg; lia).
    replace (8 * b - 8) with (16 + k) in Hlo by lia.
    replace (8 * b) with (24 + k) in Hhi by lia.
    rewrite Z.pow_add_r in Hlo, Hhi by lia.
    assert (Hm1 : 2 ^ 16 <= n / 2 ^ k) by (apply Z.div_le_lower_bound; lia).
    assert (Hm2 : n / 2 ^ k < 2 ^ 24) by (apply Z.div_lt_upper_bound; lia).
    pose proof (Z.div_mod n (2 ^ k) ltac:(lia)) as Hd.
    pose proof (Z.mod_pos_bound n (2 ^ k) ltac:(lia)) as Hr.
    split; [lia|]. split; [lia|]. split; intros Hm.
    + assert (He : cexp n = b).
      { apply cexp_unique; [lia|lia|]. replace (8 * b - 9) with (15 + k) by lia.
        replace (8 * b - 1) with (23 + k) by lia. rewrite !Z.pow_add_r by lia. nia. }
      split; [done|]. unfold cmant. rewrite He. destruct (Z.leb_spec b 3); [lia|done].
    + assert (He : cexp n = b + 1).
      { apply cexp_unique; [lia|lia|]. replace (8 * (b + 1) - 9) with (23 + k) by lia.
        replace (8 * (b + 1) - 1) with (31 + k) by lia. rewrite !Z.pow_add_r by lia. nia. }
      split; [done|]. unfold cmant. rewrite He. destruct (Z.leb_spec (b + 1) 3); [lia|].
      replace (8 * (b + 1 - 3)) with (k + 8) by lia.
      rewrite Z.pow_add_r, Z.div_div by lia. done.
Qed.

Lemma BigToCompact_eq n : 0 < n < 2 ^ 2031 →
  BigToCompact n = cexp n * 2 ^ 24 + cmant n ∧ 1 <= cexp n <= 254.
Proof.
  intros [Hn Hlt]. assert (Hb : 1 <= cexp n <= 254).
  { destruct (cexp_spec n Hn) as [[H1 _] H3]. split; [done|].
    destruct (decide (cexp n <= 254)); [done|]. exfalso.
    pose proof (Z.pow_le_mono_r 2 2031 (8 * cexp n - 9)). lia. }
  split; [|done].
  unfold BigToCompact. destruct (Z.eqb_spec n 0) as [|_]; [lia|].
  destruct (mantissa3_range n _ Hn eq_refl) as (Hm & Hb1 & Hlow & Hhigh).
  set (b := bytesLen n) in *.
  set (m := if b <=? 3 then n * 2 ^ (8 * (3 - b)) else n / 2 ^ (8 * (b - 3))) in *.
  assert (Em : (if b <=? 3 then u32 (Z.shiftl (u32 (Z.abs n)) (8 * (3 - b)))
                else u32 (Z.abs (Z.shiftr n (8 * (b - 3))))) = m).
  { unfold m in *. destruct (Z.leb_spec b 3).
    - rewrite Z.abs_eq by lia. assert (n < 2 ^ 24).
      { assert (1 <= 2 ^ (8 * (3 - b))) by (apply (Z.pow_le_mono_r 2 0); lia). nia. }
      rewrite (wrapU_small 32 n) by (unfold inU; lia).
      rewrite Z.shiftl_mul_pow2 by lia. apply wrapU_small. unfold inU. lia.
    - rewrite Z.shiftr_div_pow2, Z.abs_eq by lia. apply wrapU_small. unfold inU. lia. }
  rewrite Em. replace 0x00800000 with (2 ^ 23) by done.
  rewrite land_bit, testbit_div by lia.
  destruct (Z.ltb_spec n 0); [lia|].
  destruct (decide (m < 2 ^ 23)) as [Hs|Hs].
  - rewrite Z.div_small by lia. cbn [Z.odd Z.eqb negb].
    destruct (Hlow Hs) as [He Hc]. rewrite He in *. rewrite Hc.
    rewrite (wrapU_small 32) by (unfold inU; rewrite Z.shiftl_mul_pow2; lia).
    apply lor_shift; lia.
  - replace (m / 2 ^ 23) with 1 by (apply Z.div_unique with (m - 2 ^ 23); lia).
    cbn [Z.odd]. replace (negb (2 ^ 23 =? 0)) with true by done.
    destruct (Hhigh ltac:(lia)) as [He Hc]. rewrite He in *. rewrite Hc, Z.shiftr_div_pow2 by lia.
    rewrite (wrapU_small 32) by (unfold inU; rewrite Z.shiftl_mul_pow2; lia).
    apply lor_shift; [lia|lia|]. split; [apply Z.div_pos; lia|apply Z.div_lt_upper_bound; lia].
Qed.

(** The bits dropped by the encoding of [n]. *)
Definition cshift (n : Z) : Z := if cexp n <=? 3 then 0 else 8 * (cexp n - 3).

Lemma compact_decode n : 0 < n < 2 ^ 2031 →
  CompactToBig (BigToCompact n) = n / 2 ^ cshift n * 2 ^ cshift n.
Proof.
  intros Hn. destruct (BigToCompact_eq n Hn) as [-> He].
  rewrite CompactToBig_eq by (try lia; pose proof (cmant_range n); lia).
  unfold cshift, cmant. destruct (Z.leb_spec (cexp n) 3); [|done].
  rewrite Z.div_mul by (apply Z.pow_nonzero; lia). by rewrite Z.div_1_r, Z.mul_1_r.
Qed.

Lemma cshift_small n : 0 < n → 0 <= cshift n ∧ (cshift n = 0 ∨ 2 ^ (15 + cshift n) <= n).
Proof.
  intros Hn. destruct (cexp_spec n Hn) as [[H1 _] _]. unfold cshift.
  destruct (Z.leb_spec (cexp n) 3); [lia|]. split; [lia|right].
  by replace (15 + 8 * (cexp n - 3)) with (8 * cexp n - 9) by lia.
Qed.

Lemma compact_decode_le n : 0 < n < 2 ^ 2031 →
  0 < CompactToBig (BigToCompact n) <= n ∧ (n - CompactToBig (BigToCompact n)) * 2 ^ 15 <= n.
Proof.
  intros Hn. rewrite compact_decode by done.
  destruct (cshift_small n) as [Hs Hc]; [lia|]. set (s := cshift n) in *.
  assert (Hp : 0 < 2 ^ s) by (apply Z.pow_pos_nonneg; lia).
  pose proof (Z.div_mod n (2 ^ s) ltac:(lia)). pose proof (Z.mod_pos_bound n (2 ^ s) Hp).
  destruct Hc as [Hc|Hc].
  - rewrite Hc in *. rewrite Z.div_1_r. lia.
  - rewrite Z.pow_add_r in Hc by lia.
    assert (2 ^ 15 <= n / 2 ^ s) by (apply Z.div_le_lower_bound; lia). nia.
Qed.

Lemma cexp_decode n : 0 < n < 2 ^ 2031 → cexp (CompactToBig (BigToCompact n)) = cexp n.
Proof.
  intros Hn. destruct (compact_decode_le n Hn) as [Hd _].
  destruct (cexp_spec n) as [[H1 H2] H3]; [lia|].
  apply cexp_unique; [lia|lia|]. split; [|lia]. rewrite compact_decode by done.
  unfold cshift. destruct (Z.leb_spec (cexp n) 3).
  - by rewrite Z.div_1_r, Z.mul_1_r.
  - replace (8 * cexp n - 9) with (15 + 8 * (cexp n - 3)) in * by lia.
    rewrite Z.pow_add_r in * by lia.
    assert (0 < 2 ^ (8 * (cexp n - 3))) by (apply Z.pow_pos_nonneg; lia).
    apply Z.mul_le_mono_nonneg_r; [lia|]. apply Z.div_le_lower_bound; lia.
Qed.

Lemma BigToCompact_idem n : 0 < n < 2 ^ 2031 →
  BigToCompact (CompactToBig (BigToCompact n)) = BigToCompact n.
Proof.
  intros Hn. destruct (compact_decode_le n Hn) as [Hd _].
  pose proof (cexp_decode n Hn) as He. pose proof (compact_decode n Hn) as Hv.
  set (d := CompactToBig (BigToCompact n)) in *.
  rewrite (proj1 (BigToCompact_eq d ltac:(lia))), (proj1 (BigToCompact_eq n Hn)).
  unfold cmant. rewrite He. f_equal. rewrite Hv.
  unfold cshift. destruct (Z.leb_spec (cexp n) 3).
  - by rewrite Z.div_1_r, Z.mul_1_r.
  - rewrite Z.div_mul; [done|]. apply Z.pow_nonzero; lia.
Qed.

Lemma BigToCompact_mono a b : 0 < a → a <= b → b < 2 ^ 2031 → BigToCompact a <= BigToCompact b.
Proof.
  intros Ha Hab Hb. rewrite (proj1 (BigToCompact_eq a ltac:(lia))).
  rewrite (proj1 (BigToCompact_eq b ltac:(lia))).
  pose proof (cmant_range a Ha). pose proof (cmant_range b ltac:(lia)).
  assert (Hc : cexp a <= cexp b).
  { unfold cexp. apply Z.div_le_mono; [lia|]. pose proof (Z.log2_le_mono a b Hab). lia. }
  destruct (decide (cexp a = cexp b)) as [E|]; [|lia].
  unfold cmant in *. rewrite E in *. destruct (cexp b <=? 3).
  - assert (0 < 2 ^ (8 * (3 - cexp b)) ∨ 2 ^ (8 * (3 - cexp b)) = 0); [|nia].
    pose proof (Z.pow_nonneg 2 (8 * (3 - cexp b))). lia.
  - pose proof (Z.pow_nonneg 2 (8 * (cexp b - 3)) ltac:(lia)).
    destruct (decide (2 ^ (8 * (cexp b - 3)) = 0)) as [E2|].
    + rewrite E2, !Zdiv_0_r in *. lia.
    + pose proof (Z.div_le_mono a b (2 ^ (8 * (cexp b - 3)))). lia.
Qed.

(** The compact form of a target: encoding then decoding never raises the
    target and loses less than one part in 2^15 of it, encoding is
    idempotent and monotone, and small targets are exact. *)
Lemma compact_encoding (n n' : Z) (Hn : 0 < n <= n') (Hn' : n' < 2 ^ 256) :
  let d := CompactToBig (BigToCompact n) in
  0 < d <= n ∧ (n - d) * 2 ^ 15 <= n ∧ BigToCompact d = BigToCompact n
  ∧ BigToCompact n <= BigToCompact n' ∧ inU 32 (BigToCompact n)
  ∧ (n < 2 ^ 23 → d = n).
Proof.
  assert (Hb : 0 < n < 2 ^ 2031) by lia. cbv zeta.
  destruct (compact_decode_le n Hb) as [Hd Ht].
  split; [exact Hd|]. split; [exact Ht|]. split; [by apply BigToCompact_idem|].
  split; [apply BigToCompact_mono; lia|]. split.
  - destruct (BigToCompact_eq n Hb) as [-> He]. pose proof (cmant_range n ltac:(lia)).
    unfold inU. lia.
  - intros Hs. rewrite compact_decode by done. unfold cshift.
    destruct (Z.leb_spec (cexp n) 3); [by rewrite Z.div_1_r, Z.mul_1_r|].
    destruct (cexp_spec n) as [[H1 _] _]; [lia|].
    pose proof (Z.pow_le_mono_r 2 23 (8 * cexp n - 9)). lia.
Qed.

Lemma compact_encoding_witness :
  CompactToBig (BigToCompact (2 ^ 208 - 1)) = 0xffff * 2 ^ 192 ∧
  BigToCompact (CompactToBig (BigToCompact (2 ^ 208 - 1))) = BigToCompact (2 ^ 208 - 1).
Proof.
  split; [vm_compute; reflexivity|].
  apply (compact_encoding (2 ^ 208 - 1) (2 ^ 208 - 1)); lia.
Defined.

(** ** Facts about ASERT *)
Definition asertPoly (f : Z) : Z :=
  195766423245049 * f + 971821376 * f * f + 5127 * f * f * f + 2 ^ 47.

Lemma asertPoly_mono f f' : 0 <= f <= f' → asertPoly f <= asertPoly f'.
Proof.
  intros Hf. unfold asertPoly. assert (f * f <= f' * f') by nia.
  assert (f * f * f <= f' * f' * f') by nia. lia.
Qed.

(** The uint64 arithmetic of the factor never wraps around. *)
Lemma asertFactor_eq f : inU 16 f → asertFactor f = 65536 + asertPoly f / 2 ^ 48.
Proof.
  intros Hf. unfold inU in Hf. unfold asertFactor.
  assert (Hmax : asertPoly f < 2 ^ 64).
  { eapply Z.le_lt_trans; [apply (asertPoly_mono f 65535); lia|vm_compute; reflexivity]. }
  assert (f * f <= 65535 * 65535) by nia.
  assert (0 <= f * f * f) by nia. assert (0 <= f * f) by nia.
  assert (f * f * f <= 65535 * 65535 * 65535) by nia.
  unfold asertPoly in *.
  rewrite !(wrapU_small 64) by
    (repeat match goal with |- context [wrapU 64 ?x] => rewrite (wrapU_small 64 x) by (unfold inU; lia) end;
     unfold inU; lia).
  rewrite Z.shiftr_div_pow2 by lia. rewrite wrapS_small; [done|lia|].
  unfold inS. split.
  - etrans; [|apply Z.div_pos; lia]. lia.
  - apply Z.div_lt_upper_bound; lia.
Qed.

Lemma asertFactor_mono f f' : inU 16 f' → 0 <= f <= f' → asertFactor f <= asertFactor f'.
Proof.
  intros Hf' Hf. rewrite !asertFactor_eq by (unfold inU in *; lia).
  pose proof (Z.div_le_mono _ _ (2 ^ 48) ltac:(lia) (asertPoly_mono f f' Hf)). lia.
Qed.

Lemma asertFactor_range f : inU 16 f → 65536 <= asertFactor f < 131072.
Proof.
  intros Hf. unfold inU in Hf. split.
  - etrans; [|apply (asertFactor_mono 0); [done|lia]]. vm_compute. done.
  - eapply Z.le_lt_trans; [apply (asertFactor_mono f 65535); [done|lia]|]. vm_compute. done.
Qed.

Lemma asertScale_shiftl T e : asertScale T e = Z.shiftl (T * asertFactor (u16 e)) (e / 2 ^ 16 - 16).
Proof.
  unfold asertScale. rewrite Z.shiftr_div_pow2 by lia.
  destruct (Z.ltb_spec (e / 2 ^ 16 - 16) 0); [|done].
  by rewrite <- (Z.opp_involutive (e / 2 ^ 16 - 16)) at 2; rewrite Z.shiftl_opp_r.
Qed.

(** A signed shift is monotone in the shifted number and the shift together. *)
Lemma shiftl_le K a b x y : 0 <= K → 0 <= a + K → 0 <= b + K →
  x * 2 ^ (a + K) <= y * 2 ^ (b + K) → Z.shiftl x a <= Z.shiftl y b.
Proof.
  intros HK Ha Hb Hle.
  assert (E : ∀ z c, 0 <= c + K → Z.shiftl z c = z * 2 ^ (c + K) / 2 ^ K).
  { intros z c Hc. rewrite <- Z.shiftl_mul_pow2, <- Z.shiftr_div_pow2 by lia.
    rewrite Z.shiftr_shiftl_l by lia. f_equal. lia. }
  rewrite !E by done. apply Z.div_le_mono; [apply Z.pow_pos_nonneg; lia|done].
Qed.

Lemma asertScale_mono T e e' : 0 <= T → e <= e' → asertScale T e <= asertScale T e'.
Proof.
  intros HT He. rewrite !asertScale_shiftl. unfold wrapU.
  pose proof (Z.div_mod e (2 ^ 16) ltac:(lia)) as D. pose proof (Z.mod_pos_bound e (2 ^ 16) ltac:(lia)).
  pose proof (Z.div_mod e' (2 ^ 16) ltac:(lia)) as D'. pose proof (Z.mod_pos_bound e' (2 ^ 16) ltac:(lia)).
  set (s := e / 2 ^ 16) in *. set (s' := e' / 2 ^ 16) in *.
  set (f := e mod 2 ^ 16) in *. set (f' := e' mod 2 ^ 16) in *.
  pose proof (asertFactor_range f ltac:(unfold inU; lia)).
  pose proof (asertFactor_range f' ltac:(unfold inU; lia)).
  assert (Hs : s <= s') by lia.
  apply (shiftl_le (16 + Z.abs s)); [lia..|].
  rewrite <- !Z.mul_assoc. apply Z.mul_le_mono_nonneg_l; [done|].
  destruct (decide (s = s')) as [E|Hne].
  - rewrite E. apply Z.mul_le_mono_nonneg_r; [apply Z.pow_nonneg; lia|].
    apply asertFactor_mono; [unfold inU|]; lia.
  - set (k := s - 16 + (16 + Z.abs s)).
    assert (0 < 2 ^ k) by (apply Z.pow_pos_nonneg; lia).
    etrans; [|apply Z.mul_le_mono_nonneg_l; [lia|apply (Z.pow_le_mono_r 2 (k + 1)); lia]].
    rewrite Z.pow_add_r by lia. nia.
Qed.

(** Bounds within which the int64 exponent arithmetic is exact: UNIX times of
    32 bits and heights of 31 bits stay far inside them. *)
Definition asertDomain (timeDiff heightDiff : Z) : Prop :=
  - 2 ^ 33 < timeDiff < 2 ^ 33 ∧ 0 <= heightDiff < 2 ^ 31.

Lemma asertExponent_exact timeDiff heightDiff : asertDomain timeDiff heightDiff →
  asertExponent colossusTargetBlockTime timeDiff heightDiff colossusASERTHalflife
  = Z.quot ((timeDiff - 194 * (heightDiff + 1)) * 65536) 18624.
Proof.
  intros [Ht Hh]. unfold asertExponent, colossusTargetBlockTime, colossusASERTHalflife.
  rewrite (wrapS_small 64 (heightDiff + 1)) by (unfold inS; lia).
  rewrite (wrapS_small 64 (194 * _)) by (unfold inS; lia).
  rewrite (wrapS_small 64 (timeDiff - _)) by (unfold inS; lia).
  rewrite (wrapS_small 64) by (unfold inS; lia). done.
Qed.

Lemma applyTargetFloor_range t limit : 1 <= limit → 1 <= applyTargetFloor t limit <= limit.
Proof.
  intros. unfold applyTargetFloor. destruct (Z.leb_spec t 0); [lia|].
  destruct (Z.ltb_spec limit t); lia.
Qed.

Lemma applyTargetFloor_mono t t' limit : 1 <= limit → t <= t' →
  applyTargetFloor t limit <= applyTargetFloor t' limit.
Proof.
  intros. unfold applyTargetFloor.
  destruct (Z.leb_spec t 0), (Z.leb_spec t' 0), (Z.ltb_spec limit t), (Z.ltb_spec limit t'); lia.
Qed.

(** ASERT never moves the wrong way: with the anchor fixed, more elapsed
    time never makes the next target smaller (difficulty higher) and more
    blocks in the same time never make it larger, and the result stays in
    [1, powLimit]. *)
Lemma asert_monotone (anchor limit td td' hd hd' : Z)
  (HT : 0 <= anchor) (Hl : 1 <= limit)
  (Hd : asertDomain td hd) (Hd' : asertDomain td' hd')
  (Htd : td <= td') (Hhd : hd' <= hd) :
  let next t h := calcASERT anchor colossusTargetBlockTime t h limit colossusASERTHalflife in
  1 <= next td hd <= next td' hd' ∧ next td' hd' <= limit.
Proof.
  cbv zeta. unfold calcASERT. rewrite !asertExponent_exact by done.
  split; [split|]; try (by apply applyTargetFloor_range).
  apply applyTargetFloor_mono; [done|]. apply asertScale_mono; [done|].
  apply Z.quot_le_mono; lia.
Qed.

Lemma asert_monotone_witness :
  let next t h := calcASERT (2 ^ 200) colossusTargetBlockTime t h (2 ^ 208 - 1) colossusASERTHalflife in
  1 <= next 194 0 <= next 388 0 ∧ next 388 0 <= 2 ^ 208 - 1.
Proof.
  apply (asert_monotone (2 ^ 200) (2 ^ 208 - 1) 194 388 0 0); unfold asertDomain; lia.
Defined.

(** What ASERT computes: when the schedule deviation is exactly [k]
    half-lives (k of either sign; 0 when the chain is on schedule), the next
    target is the anchor's target times 2^k (rounded down), clamped to
    [1, powLimit]. *)
Lemma asert_halflife (anchor limit td hd k : Z)
  (Hd : asertDomain td hd) (Hk : td - 194 * (hd + 1) = k * 18624) :
  calcASERT anchor colossusTargetBlockTime td hd limit colossusASERTHalflife
  = applyTargetFloor (Z.shiftl anchor k) limit.
Proof.
  unfold calcASERT. rewrite asertExponent_exact, Hk by done.
  replace (k * 18624 * 65536) with (k * 65536 * 18624) by lia. rewrite Z.quot_mul by done.
  rewrite asertScale_shiftl. f_equal. unfold wrapU. change (2 ^ 16) with 65536.
  rewrite Z.mod_mul, Z.div_mul by done. replace (asertFactor 0) with (2 ^ 16) by done.
  rewrite <- Z.shiftl_mul_pow2, Z.shiftl_shiftl by lia. f_equal. lia.
Qed.

Lemma asert_halflife_witness :
  calcASERT (2 ^ 200) colossusTargetBlockTime (194 * 11 + 2 * 18624) 10 (2 ^ 208 - 1)
    colossusASERTHalflife = 2 ^ 202.
Proof.
  rewrite (asert_halflife (2 ^ 200) (2 ^ 208 - 1) (194 * 11 + 2 * 18624) 10 2).
  - vm_compute. reflexivity.
  - unfold asertDomain. lia.
  - lia.
Defined.

(** ** The next required difficulty *)

(** A target that the proof-of-work checks accept. *)
Definition validBits (p : Params) (bits : Z) : Prop :=
  inU 32 bits ∧ 0 < CompactToBig bits <= PowLimit p.

Lemma BigToCompact_valid p t : wfParams p → 1 <= t <= PowLimit p → validBits p (BigToCompact t).
Proof.
  intros Hp Ht. pose proof (wp_limit_256 p Hp).
  assert (Hb : 0 < t < 2 ^ 2031) by lia. destruct (compact_decode_le t Hb) as [Hd _].
  split; [|lia]. destruct (BigToCompact_eq t Hb) as [-> He].
  pose proof (cmant_range t ltac:(lia)). unfold inU. lia.
Qed.

Lemma networks_limit_bits sha256 challenge : Forall (λ p, validBits p (PowLimitBits p)) (networks sha256 challenge).
Proof.
  repeat constructor; cbn [PowLimitBits PowLimit]; try (unfold inU; cbn; lia);
    vm_compute; done.
Qed.

Section next_difficulty.
Context {N : Type} {V : N → Prop} `{HeaderCtxLaws N V}.

Definition anchorHeightOf (last : N) : Z :=
  if colossusReanchorBlock <=? Height last then colossusReanchorBlock
  else colossusAuxPowActivationBlock.

Lemma calcNextAsertTarget_eq last limit :
  V last → colossusAuxPowActivationBlock <= Height last →
  ∃ anchor ap,
    parents (Z.to_nat (Height last - anchorHeightOf last)) last = Some anchor
    ∧ V anchor ∧ V ap ∧ Height anchor = anchorHeightOf last ∧ Parent anchor = Some ap
    ∧ asertDomain (Timestamp last - Timestamp ap) (Height last - Height anchor)
    ∧ calcNextAsertTarget last limit
      = calcASERT (CompactToBig (Bits anchor)) colossusTargetBlockTime
          (Timestamp last - Timestamp ap) (Height last - Height anchor) limit
          colossusASERTHalflife.
Proof.
  intros HV Hh. pose proof (hc_height _ HV) as Hr. unfold colossusAuxPowActivationBlock in *.
  set (ah := anchorHeightOf last).
  assert (Hah : 15860 <= ah <= Height last).
  { unfold ah, anchorHeightOf, colossusReanchorBlock, colossusAuxPowActivationBlock.
    destruct (Z.leb_spec 17500 (Height last)); lia. }
  destruct (parents_defined (Z.to_nat (Height last - ah)) last HV ltac:(lia)) as [anchor Ha].
  destruct (parents_height _ _ _ HV Ha) as [HVa Hha].
  assert (Hha' : Height anchor = ah) by lia. clear Hha.
  destruct (Parent anchor) as [ap|] eqn:Hp; [|apply hc_root in Hp; [lia|done]].
  destruct (hc_parent _ _ HVa Hp) as [HVp _]. exists anchor, ap.
  pose proof (hc_timestamp _ HV) as T1. pose proof (hc_timestamp _ HVp) as T2. unfold inU in *.
  assert (Hdom : asertDomain (Timestamp last - Timestamp ap) (Height last - Height anchor))
    by (unfold asertDomain; lia).
  split; [exact Ha|]. split; [exact HVa|]. split; [exact HVp|]. split; [exact Hha'|].
  split; [exact Hp|]. split; [exact Hdom|].
  assert (Efirst : (if (0 <? colossusReanchorBlock) && (colossusReanchorBlock <=? Height last)
       then colossusReanchorBlock else colossusAuxPowActivationBlock) = ah) by done.
  unfold calcNextAsertTarget. rewrite Efirst. cbv zeta.
  rewrite (wrapS_small 32 (Height last - ah)) by (unfold inS; lia).
  destruct (Z.ltb_spec (Height last - ah) 0); [lia|].
  assert (Eanchor : (if 0 <? Height last - ah then RelativeAncestorCtx last (Height last - ah)
                     else Some last) = Some anchor).
  { destruct (Z.ltb_spec 0 (Height last - ah)).
    - rewrite hc_relative by (done || lia). done.
    - replace (Height last - ah) with 0 in Ha by lia. done. }
  rewrite Eanchor, Hp. rewrite (wrapS_small 64) by (unfold inS; lia).
  rewrite (wrapS_small 32) by (unfold inS; lia). done.
Qed.

Lemma calcNextAsertTarget_range last limit :
  V last → colossusAuxPowActivationBlock <= Height last → 1 <= limit →
  1 <= calcNextAsertTarget last limit <= limit.
Proof.
  intros HV Hh Hl. destruct (calcNextAsertTarget_eq last limit HV Hh) as
    (anchor & ap & _ & _ & _ & _ & _ & _ & ->). unfold calcASERT. by apply applyTargetFloor_range.
Qed.

Lemma calcWTEMA_range (p : Params) (last parent : N) :
  1 <= PowLimit p → 1 <= calcWTEMA p last parent <= PowLimit p.
Proof.
  intros Hl. unfold calcWTEMA, wtemaTarget. destruct (_ <? _) eqn:E1; destruct (_ <=? 0) eqn:E2; bsplit; lia.
Qed.

(** C32. The difficulty the chain demands of a block is never a Go panic and
    always one that the proof-of-work checks accept: the compact bits decode to
    a target in (0, powLimit], on the WTEMA, ASERT and minimum-difficulty paths
    alike, provided the genesis block's own bits and the network's limit bits do
    and the parameters are well formed, as those of every network are
    ([networks_wf], [networks_limit_bits]). *)
Theorem next_difficulty_valid (p : Params) (last : option N) (now : Z)
  (Hp : wfParams p) (Hlim : validBits p (PowLimitBits p))
  (HV : ∀ l, last = Some l → V l)
  (Hgen : ∀ l, last = Some l → Height l = 0 → validBits p (Bits l)) :
  ∃ bits, calcNextRequiredDifficulty p last now = Ok bits ∧ validBits p bits.
Proof.
  pose proof (wp_limit_pos p Hp). pose proof (wp_net p Hp) as Hnet.
  unfold calcNextRequiredDifficulty. destruct last as [l|]; [|by eexists].
  specialize (HV l eq_refl). specialize (Hgen l eq_refl).
  destruct (PoWNoRetargeting p); [by eexists|].
  destruct (ReduceMinDifficulty p && (Net p =? MainNet)) eqn:E1.
  { bsplit. by destruct Hnet. } clear E1.
  destruct (_ && _); [by eexists|].
  destruct (Z.leb_spec colossusAuxPowActivationBlock (Height l)).
  - eexists; split; [reflexivity|]. apply BigToCompact_valid; [done|].
    apply calcNextAsertTarget_range; [done|done|lia].
  - destruct (Parent l) as [q|] eqn:Hq; eexists; (split; [reflexivity|]).
    + apply BigToCompact_valid; [done|]. apply calcWTEMA_range. lia.
    + apply Hgen. by apply hc_root in Hq.
Qed.
End next_difficulty.

Lemma next_difficulty_valid_witness :
  ∃ bits, calcNextRequiredDifficulty MainNetParams
            (Some ((ListChain.Build_hdr 0x1b00ffff 1000, [ListChain.Build_hdr 0x1b00ffff 700])
                   : ListChain.chain)) 0
          = Ok bits ∧ validBits MainNetParams bits.
Proof.
  apply (next_difficulty_valid (V:=ListChain.valid)).
  - exact (Forall_inv (networks_wf id [])).
  - exact (Forall_inv (networks_limit_bits id [])).
  - intros l [= <-]. split; [cbn; lia|]. repeat constructor; cbn; lia.
  - intros l [= <-]. done.
Defined.

(** ** The easiest difficulty *)

(** [(1 + 1/604800)^604800 <= 87/32], by squaring with upward rounding in
    2^-64 fixed point. *)
Definition grows (j u : Z) : Prop := 604801 ^ j * 2 ^ 64 <= u * 604800 ^ j.

Lemma grows_double j u : 0 <= j → 0 <= u → grows j u → grows (2 * j) (u * u / 2 ^ 64 + 1).
Proof.
  unfold grows. intros Hj Hu H.
  replace (2 * j) with (j + j) by lia. rewrite !Z.pow_add_r by lia.
  assert (0 < 604800 ^ j) by (apply Z.pow_pos_nonneg; lia).
  assert (0 < 604801 ^ j) by (apply Z.pow_pos_nonneg; lia).
  set (x := 604801 ^ j) in *. set (y := 604800 ^ j) in *.
  assert (Hsq : x * x * 2 ^ 64 * 2 ^ 64 <= u * u * (y * y)) by nia.
  pose proof (Z.mul_succ_div_gt (u * u) (2 ^ 64) ltac:(lia)).
  assert (u * u * (y * y) <= 2 ^ 64 * (u * u / 2 ^ 64 + 1) * (y * y)) by nia. nia.
Qed.

Lemma grows_succ j u : 0 <= j → 0 <= u → grows j u → grows (j + 1) (u * 604801 / 604800 + 1).
Proof.
  unfold grows. intros Hj Hu H. rewrite !Z.pow_add_r, !Z.pow_1_r by lia.
  assert (0 < 604800 ^ j) by (apply Z.pow_pos_nonneg; lia).
  set (x := 604801 ^ j) in *. set (y := 604800 ^ j) in *.
  pose proof (Z.mul_succ_div_gt (u * 604801) 604800 ltac:(lia)). nia.
Qed.

Ltac grow_norm H := match type of H with grows ?j ?u =>
  let j' := eval vm_compute in j in let u' := eval vm_compute in u in
  change (grows j' u') in H end.
Ltac grow0 H := apply grows_double in H; [|lia|lia]; grow_norm H.
Ltac grow1 H := grow0 H; apply grows_succ in H; [|lia|lia]; grow_norm H.

Lemma grows_halflife : ∃ u, 0 <= u ∧ u * 32 <= 87 * 2 ^ 64 ∧ grows 604800 u.
Proof.
  assert (H0 : grows 0 (2 ^ 64)) by (unfold grows; rewrite !Z.pow_0_r; lia).
  (* the binary digits of 604800 from the top *)
  pose proof (grows_succ 0 (2 ^ 64) ltac:(lia) ltac:(lia) H0) as H.
  grow_norm H.
  grow0 H. grow0 H. grow1 H. grow0 H. grow0 H. grow1 H. grow1 H.
  grow1 H. grow0 H. grow1 H. grow0 H.
  grow1 H. grow0 H. grow0 H. grow0 H. grow0 H. grow0 H. grow0 H. grow0 H.
  eexists. split; [|split; [|exact H]]; lia.
Qed.

Lemma growth_gen a b h u D p : 0 < a <= b → 0 <= h → 0 <= u → u * 32 <= 87 * 2 ^ 64 →
  b ^ h * 2 ^ 64 <= u * a ^ h → 0 <= p → 0 <= D <= h * p → b ^ D * 32 ^ p <= 87 ^ p * a ^ D.
Proof.
  intros Hab Hh Hu Hu2 Hg Hp HD.
  assert (Hb : b ^ h * 32 <= 87 * a ^ h).
  { assert (0 < a ^ h) by (apply Z.pow_pos_nonneg; lia).
    set (x := b ^ h) in *. set (y := a ^ h) in *. nia. }
  assert (Hbp : b ^ (h * p) * 32 ^ p <= 87 ^ p * a ^ (h * p)).
  { rewrite !Z.pow_mul_r by lia. rewrite <- !Z.pow_mul_l. apply Z.pow_le_mono_l.
    split; [|exact Hb]. apply Z.mul_nonneg_nonneg; [apply Z.pow_nonneg; lia|lia]. }
  clear Hg Hb Hu Hu2. set (r := h * p - D).
  replace (h * p) with (D + r) in Hbp by lia. rewrite !Z.pow_add_r in Hbp by lia.
  assert (Hr : a ^ r <= b ^ r) by (apply Z.pow_le_mono_l; lia).
  assert (0 < a ^ r) by (apply Z.pow_pos_nonneg; lia).
  assert (0 <= b ^ D * 32 ^ p) by (apply Z.mul_nonneg_nonneg; apply Z.pow_nonneg; lia).
  apply (Z.mul_le_mono_pos_r _ _ (a ^ r)); [done|].
  apply (Z.mul_le_mono_nonneg_l _ _ (b ^ D * 32 ^ p)) in Hr; [|done]. lia.
Qed.

Lemma growth_bound D p : 0 <= p → 0 <= D <= 604800 * p →
  604801 ^ D * 32 ^ p <= 87 ^ p * 604800 ^ D.
Proof.
  intros Hp HD. destruct grows_halflife as (u & Hu & Hu2 & Hg).
  by apply (growth_gen 604800 604801 604800 u).
Qed.

(** Bernoulli's inequality, up and down. *)
Lemma bernoulli_up x : 0 <= x → (604800 + x) * 604800 ^ x <= 604800 * 604801 ^ x.
Proof.
  intros Hx. pattern x. apply natlike_ind; [lia| |done]. clear. intros x Hx IH.
  rewrite !Z.pow_succ_r by done. assert (0 <= 604800 ^ x) by (apply Z.pow_nonneg; lia). nia.
Qed.

Lemma bernoulli_down s : 0 <= s → (604800 - s) * 604801 ^ s <= 604800 * 604800 ^ s.
Proof.
  intros Hs. pattern s. apply natlike_ind; [lia| |done]. clear. intros s Hs IH.
  rewrite !Z.pow_succ_r by done. assert (0 <= 604801 ^ s) by (apply Z.pow_nonneg; lia). nia.
Qed.

(** The compact bits after a run of WTEMA blocks that took [ts] seconds, no
    target having reached the floor of 1. *)
Inductive wtemaRun (p : Params) : Z → list Z → Z → Prop :=
| run_nil b : wtemaRun p b [] b
| run_cons b t ts b1 b2 :
    b1 = BigToCompact (wtemaTarget p t (CompactToBig b)) →
    2 <= CompactToBig b1 → - 2 ^ 40 < t < 2 ^ 40 →
    wtemaRun p b1 ts b2 → wtemaRun p b (t :: ts) b2.

(** How far past schedule the run is. *)
Definition lateness (ts : list Z) : Z := foldr (λ t n, t - 194 + n) 0 ts.

(** [a <= b * (604801/604800)^x] without rationals. *)
Definition atMost (a b x : Z) : Prop :=
  ∃ P M, 0 <= P ∧ 0 <= M ∧ x = P - M ∧
    a * 604800 ^ P * 604801 ^ M <= b * 604801 ^ P * 604800 ^ M.

Lemma wtemaTarget_atMost p t old : wfParams p → 0 < old → - 2 ^ 40 < t < 2 ^ 40 →
  2 <= wtemaTarget p t old → atMost (wtemaTarget p t old) old (t - 194).
Proof.
  intros Hp Ho Ht. unfold wtemaTarget. rewrite (wp_spacing p Hp), (wp_half_life p Hp).
  change (Z.quot (194 * Second) Second) with 194.
  change (Z.quot (604800 * Second) Second) with 604800.
  rewrite (wrapS_small 64) by (unfold inS; lia). set (x := t - 194).
  pose proof (Z.mul_div_le (x * old) 604800 ltac:(lia)) as Hdiv. cbv zeta.
  intros H2. set (new := if _ <=? 0 then 1 else _) in *.
  assert (Hnew : new * 604800 <= old * (604800 + x)).
  { revert H2. unfold new. destruct (Z.ltb_spec (PowLimit p) (old + x * old / 604800));
      destruct (_ <=? 0); lia. }
  clearbody new. destruct (decide (0 <= x)) as [Hx|Hx].
  - exists x, 0. rewrite Z.pow_0_r, !Z.mul_1_r. split; [done|]. split; [done|]. split; [lia|].
    pose proof (bernoulli_up x Hx). assert (0 <= 604800 ^ x) by (apply Z.pow_nonneg; lia). nia.
  - exists 0, (- x). rewrite Z.pow_0_r, !Z.mul_1_r. split; [done|]. split; [lia|]. split; [lia|].
    pose proof (bernoulli_down (- x) ltac:(lia)).
    assert (0 <= 604801 ^ (- x)) by (apply Z.pow_nonneg; lia). nia.
Qed.

Lemma atMost_trans a b c x y : 0 <= b → atMost a b x → atMost b c y → atMost a c (x + y).
Proof.
  intros Hb (P & M & HP & HM & -> & H1) (Q & L & HQ & HL & -> & H2).
  exists (P + Q), (M + L). split; [lia|]. split; [lia|]. split; [lia|].
  rewrite !Z.pow_add_r by lia.
  assert (0 <= 604800 ^ Q) by (apply Z.pow_nonneg; lia).
  assert (0 <= 604801 ^ L) by (apply Z.pow_nonneg; lia).
  assert (0 <= 604801 ^ P) by (apply Z.pow_nonneg; lia).
  assert (0 <= 604800 ^ M) by (apply Z.pow_nonneg; lia).
  etrans; [|etrans].
  - apply (Z.mul_le_mono_nonneg_r _ _ (604800 ^ Q * 604801 ^ L)) in H1; [|nia].
    etrans; [|exact H1]. apply Z.eq_le_incl. ring.
  - apply (Z.mul_le_mono_nonneg_r _ _ (604801 ^ P * 604800 ^ M)) in H2; [|nia].
    etrans; [|exact H2]. apply Z.eq_le_incl. ring.
  - apply Z.eq_le_incl. ring.
Qed.

Lemma atMost_le a' a b x : a' <= a → atMost a b x → atMost a' b x.
Proof.
  intros Ha (P & M & HP & HM & -> & H1). exists P, M. split; [done|]. split; [done|].
  split; [done|]. etrans; [|exact H1].
  assert (0 <= 604800 ^ P * 604801 ^ M) by (apply Z.mul_nonneg_nonneg; apply Z.pow_nonneg; lia). nia.
Qed.

Lemma atMost_bound a b x D p : 0 <= a → 0 <= b → atMost a b x → x <= D → 0 <= D <= 604800 * p → 0 <= p →
  a * 32 ^ p <= b * 87 ^ p.
Proof.
  intros Ha Hb (P & M & HP & HM & -> & H1) HxD HD Hp. set (r := D + M - P).
  assert (Hr : 604800 ^ r <= 604801 ^ r) by (apply Z.pow_le_mono_l; lia).
  assert (0 < 604800 ^ D) by (apply Z.pow_pos_nonneg; lia).
  assert (0 < 604800 ^ M) by (apply Z.pow_pos_nonneg; lia).
  assert (0 < 604801 ^ M) by (apply Z.pow_pos_nonneg; lia).
  assert (0 < 604800 ^ r) by (apply Z.pow_pos_nonneg; lia).
  assert (0 < 604801 ^ P) by (apply Z.pow_pos_nonneg; lia).
  assert (HDa : a * 604800 ^ D <= b * 604801 ^ D).
  { apply (Z.mul_le_mono_pos_r _ _ (604800 ^ M * 604801 ^ M)); [nia|].
    assert (E1 : 604800 ^ D * 604800 ^ M = 604800 ^ P * 604800 ^ r)
      by (rewrite <- !Z.pow_add_r by lia; f_equal; lia).
    assert (E2 : 604801 ^ D * 604801 ^ M = 604801 ^ P * 604801 ^ r)
      by (rewrite <- !Z.pow_add_r by lia; f_equal; lia).
    replace (a * 604800 ^ D * (604800 ^ M * 604801 ^ M))
      with (a * 604801 ^ M * (604800 ^ D * 604800 ^ M)) by ring.
    replace (b * 604801 ^ D * (604800 ^ M * 604801 ^ M))
      with (b * 604800 ^ M * (604801 ^ D * 604801 ^ M)) by ring.
    rewrite E1, E2. etrans.
    - apply (Z.mul_le_mono_nonneg_r _ _ (604800 ^ r)) in H1; [|lia].
      etrans; [|exact H1]. apply Z.eq_le_incl. ring.
    - apply (Z.mul_le_mono_nonneg_l _ _ (b * 604801 ^ P * 604800 ^ M)) in Hr; [|nia].
      etrans; [exact Hr|]. apply Z.eq_le_incl. ring. }
  pose proof (growth_bound D p Hp HD) as Hg.
  assert (0 <= 32 ^ p) by (apply Z.pow_nonneg; lia).
  apply (Z.mul_le_mono_pos_r _ _ (604800 ^ D)); [done|]. etrans.
  - apply (Z.mul_le_mono_nonneg_r _ _ (32 ^ p)) in HDa; [|done].
    etrans; [|exact HDa]. apply Z.eq_le_incl. ring.
  - apply (Z.mul_le_mono_nonneg_l _ _ b) in Hg; [|done].
    etrans; [|etrans; [exact Hg|]]; apply Z.eq_le_incl; ring.
Qed.

Lemma compact_decode_mono a b : 0 < a → a <= b → b < 2 ^ 2031 →
  CompactToBig (BigToCompact a) <= CompactToBig (BigToCompact b).
Proof.
  intros Ha Hab Hb.
  assert (Hc : cexp a <= cexp b).
  { unfold cexp. apply Z.div_le_mono; [lia|]. pose proof (Z.log2_le_mono a b Hab). lia. }
  destruct (decide (cexp a = cexp b)) as [E|].
  - rewrite !compact_decode by lia. unfold cshift. rewrite E.
    apply Z.mul_le_mono_nonneg_r; [apply Z.pow_nonneg; lia|].
    destruct (Z.leb_spec (cexp b) 3); [by rewrite !Z.div_1_r|].
    apply Z.div_le_mono; [apply Z.pow_pos_nonneg; lia|done].
  - pose proof (cexp_decode b ltac:(lia)) as Eb.
    destruct (compact_decode_le a ltac:(lia)) as [Hda _].
    destruct (compact_decode_le b ltac:(lia)) as [Hdb _].
    destruct (cexp_spec (CompactToBig (BigToCompact b))) as [[H1 _] _]; [lia|].
    rewrite Eb in H1. destruct (cexp_spec a) as [[_ H2] H3]; [lia|].
    pose proof (Z.pow_le_mono_r 2 (8 * cexp a - 1) (8 * cexp b - 9)). lia.
Qed.

Lemma wtemaTarget_limit p t old : 1 <= PowLimit p → 1 <= wtemaTarget p t old <= PowLimit p.
Proof.
  intros Hl. unfold wtemaTarget. destruct (_ <? _) eqn:E1; destruct (_ <=? 0) eqn:E2; bsplit; lia.
Qed.

Lemma wtemaRun_atMost p b ts b' : wfParams p → 0 < CompactToBig b →
  wtemaRun p b ts b' → atMost (CompactToBig b') (CompactToBig b) (lateness ts).
Proof.
  intros Hp Hb Hrun. induction Hrun as [b|b t ts b1 b2 -> H2 Ht Hrun IH].
  - exists 0, 0. cbn [lateness foldr]. lia.
  - pose proof (wtemaTarget_limit p t (CompactToBig b) ltac:(pose proof (wp_limit_pos p Hp); lia)).
    pose proof (wp_limit_256 p Hp).
    destruct (compact_decode_le (wtemaTarget p t (CompactToBig b)) ltac:(lia)) as [Hd _].
    cbn [lateness foldr]. fold (lateness ts). rewrite Z.add_comm.
    apply (atMost_trans _ (CompactToBig (BigToCompact (wtemaTarget p t (CompactToBig b)))));
      [lia|apply IH; lia|].
    eapply atMost_le; [apply Hd|]. apply wtemaTarget_atMost; [done|done|done|lia].
Qed.

(** The bits at the end of a run are the encoding of some target. *)
Lemma wtemaRun_canonical p b ts b' t0 : wfParams p → b = BigToCompact t0 → 1 <= t0 <= PowLimit p →
  wtemaRun p b ts b' → ∃ t', b' = BigToCompact t' ∧ 1 <= t' <= PowLimit p.
Proof.
  intros Hp Hb Ht Hrun. revert t0 Hb Ht. induction Hrun as [b|b t ts b1 b2 -> H2 Ht2 Hrun IH]; eauto.
  intros t0 _ _. eapply IH; [done|]. apply wtemaTarget_limit. pose proof (wp_limit_pos p Hp). lia.
Qed.

(** While WTEMA governs the chain the checkpoint guard is sound: a run of
    blocks that ends at most [D] seconds past its schedule cannot reach a
    target above the one [calcEasiestDifficulty] allows for [D] seconds. *)
Lemma easiest_difficulty_sound (t0 D : Z) (ts : list Z) (b' : Z)
  (Ht0 : 1 <= t0 <= PowLimit MainNetParams)
  (Hrun : wtemaRun MainNetParams (BigToCompact t0) ts b')
  (HD : 0 <= D < 2 ^ 33) (Hlate : lateness ts <= D) :
  CompactToBig b' <= CompactToBig
    (calcEasiestDifficulty MainNetParams (BigToCompact t0) (D * Second)).
Proof.
  pose proof (Forall_inv (networks_wf id [])) as Hwf.
  assert (Hlim : PowLimit MainNetParams = 2 ^ 208 - 1) by done.
  destruct (compact_decode_le t0 ltac:(lia)) as [Hd0 _].
  destruct (wtemaRun_canonical _ _ _ _ _ Hwf eq_refl Ht0 Hrun) as (t' & -> & Ht').
  destruct (compact_decode_le t' ltac:(lia)) as [Hd' _].
  pose proof (wtemaRun_atMost _ _ _ _ Hwf (proj1 Hd0) Hrun) as Hm.
  set (T0 := CompactToBig (BigToCompact t0)) in *.
  set (T' := CompactToBig (BigToCompact t')) in *.
  assert (Hself : T' = CompactToBig (BigToCompact T'))
    by (unfold T'; by rewrite BigToCompact_idem by lia).
  assert (Hclamp : ∀ z, T' <= z → T' <= CompactToBig (BigToCompact
     (if PowLimit MainNetParams <? z then PowLimit MainNetParams else z))).
  { intros z Hz. rewrite Hself at 1.
    destruct (Z.ltb_spec (PowLimit MainNetParams) z); apply compact_decode_mono; lia. }
  assert (Hsec : 0 < Second) by done.
  unfold calcEasiestDifficulty. change (ReduceMinDifficulty MainNetParams) with false.
  cbn [andb]. change (Z.quot (WTEMAHalfLife MainNetParams) Second) with 604800.
  rewrite Z.quot_mul by lia. cbv zeta. fold T0.
  destruct (Z.ltb_spec 0 D).
  - rewrite (wrapS_small 64 (D + 604800)), (wrapS_small 64) by (unfold inS; lia).
    rewrite Z.quot_div_nonneg by lia. set (pe := (D + 604800 - 1) / 604800).
    destruct (Z.ltb_spec 177 pe).
    + rewrite <- (eq_refl : BigToCompact (PowLimit MainNetParams) = PowLimitBits MainNetParams).
      unfold T'. apply compact_decode_mono; lia.
    + pose proof (Z.div_mod (D + 604800 - 1) 604800 ltac:(lia)).
      pose proof (Z.mod_pos_bound (D + 604800 - 1) 604800 ltac:(lia)).
      assert (0 <= pe) by (apply Z.div_pos; lia).
      apply Hclamp. rewrite Z.shiftr_div_pow2 by lia. rewrite Z.pow_mul_r by lia.
      change (2 ^ 5) with 32. apply Z.div_le_lower_bound; [apply Z.pow_pos_nonneg; lia|].
      rewrite Z.mul_comm. eapply atMost_bound; [| |exact Hm|exact Hlate| |done]; lia.
  - apply Hclamp. pose proof (atMost_bound T' T0 _ D 0 ltac:(lia) ltac:(lia) Hm Hlate ltac:(lia)).
    rewrite !Z.pow_0_r in *. lia.
Qed.

Lemma easiest_difficulty_sound_witness :
  CompactToBig 0x1a0154a7 <= CompactToBig
    (calcEasiestDifficulty MainNetParams (BigToCompact (2 ^ 200)) (400000 * Second)).
Proof.
  apply (easiest_difficulty_sound (2 ^ 200) 400000 [194 + 200000]).
  - change (PowLimit MainNetParams) with (2 ^ 208 - 1). lia.
  - apply (run_cons _ _ _ _ 0x1a0154a7); [vm_compute; reflexivity|vm_compute; discriminate|lia|].
    apply run_nil.
  - lia.
  - cbn. lia.
Defined.

(** Above block 15860 the same guard is too strict: two ASERT half-lives
    (37248 s) behind schedule the chain itself demands four times the anchor
    target, and [calcEasiestDifficulty], still computed from the WTEMA
    half-life of a week, puts its limit strictly below that. *)
Lemma easiest_difficulty_underestimates_asert (t0 td hd : Z)
  (Ht0 : 2 ^ 16 <= t0) (Hlim : 4 * t0 <= PowLimit MainNetParams)
  (Htd : 0 < td <= 604800) (Hhd : 0 <= hd)
  (Hlate : td - 194 * (hd + 1) = 2 * 18624) :
  let anchor := CompactToBig (BigToCompact t0) in
  let required := BigToCompact (calcASERT anchor colossusTargetBlockTime td hd
                                 (PowLimit MainNetParams) colossusASERTHalflife) in
  CompactToBig (calcEasiestDifficulty MainNetParams (BigToCompact t0) (td * Second))
    < CompactToBig required.
Proof.
  cbv zeta. assert (Hl : PowLimit MainNetParams = 2 ^ 208 - 1) by done.
  destruct (compact_decode_le t0 ltac:(lia)) as [Hd0 Hp0].
  rewrite (asert_halflife _ _ td hd 2) by (done || (unfold asertDomain; lia)).
  unfold calcEasiestDifficulty. change (ReduceMinDifficulty MainNetParams) with false.
  set (T := CompactToBig (BigToCompact t0)) in *.
  cbn [andb]. change (Z.quot (WTEMAHalfLife MainNetParams) Second) with 604800.
  rewrite Z.quot_mul by done. cbv zeta. destruct (Z.ltb_spec 0 td); [|lia].
  rewrite (wrapS_small 64 (td + 604800)), (wrapS_small 64) by (unfold inS; lia).
  rewrite Z.quot_div_nonneg by lia.
  replace ((td + 604800 - 1) / 604800) with 1 by (apply Z.div_unique with (td - 1); lia).
  cbn [Z.ltb Z.compare Pos.compare Pos.compare_cont]. rewrite Z.pow_1_r.
  rewrite Z.shiftr_div_pow2 by lia. change (2 ^ (5 * 1)) with 32.
  rewrite Z.shiftl_mul_pow2 by lia. change (2 ^ 2) with 4.
  assert (Hf : T * 87 / 32 <= 3 * T) by (apply Z.div_le_upper_bound; lia).
  assert (Hpos : 0 < T * 87 / 32) by (apply Z.div_str_pos; lia).
  destruct (Z.ltb_spec (PowLimit MainNetParams) (T * 87 / 32)); [lia|].
  unfold applyTargetFloor. destruct (Z.leb_spec (T * 4) 0); [lia|].
  destruct (Z.ltb_spec (PowLimit MainNetParams) (T * 4)); [lia|].
  destruct (compact_decode_le (T * 87 / 32) ltac:(lia)) as [Hz1 _].
  destruct (compact_decode_le (T * 4) ltac:(lia)) as [_ Hz2]. lia.
Qed.

Lemma easiest_difficulty_underestimates_asert_witness :
  CompactToBig (calcEasiestDifficulty MainNetParams (BigToCompact (2 ^ 200)) (37442 * Second))
  < CompactToBig (BigToCompact (calcASERT (CompactToBig (BigToCompact (2 ^ 200)))
      colossusTargetBlockTime 37442 0 (PowLimit MainNetParams) colossusASERTHalflife)).
Proof.
  apply (easiest_difficulty_underestimates_asert (2 ^ 200) 37442 0); try lia.
  change (PowLimit MainNetParams) with (2 ^ 208 - 1). lia.
Defined.
