(* ===== verification/BlockIndex.v ===== *)
(** * The block index and the chain view
    (src/node/blockchain/blockindex.go, src/node/blockchain/chainview.go)

    Block nodes live in a shared heap and point to each other: [heap] is that
    heap, a [ptr] a [*blockNode], [option ptr] a pointer that may be nil.  Each
    node carries a parent pointer and one skip pointer; [Ancestor] follows
    them.  The chain view is the slice of the nodes of one branch, by height. *)
From Stdlib Require Import ZArith Lia Strings.Byte.
From stdpp Require Import base list gmap sorting.
From S2P Require Import Prelude WireTx WireBlock Chaincfg Difficulty.
Open Scope Z_scope.

(** ** Block status *)
Definition statusDataStored : Z := 1.
Definition statusValid : Z := 2.
Definition statusValidateFailed : Z := 4.
Definition statusInvalidAncestor : Z := 8.
Definition statusNone : Z := 0.

Definition HaveData (status : Z) : bool := negb (Z.land status statusDataStored =? 0).
Definition KnownValid (status : Z) : bool := negb (Z.land status statusValid =? 0).
Definition KnownInvalid (status : Z) : bool :=
  negb (Z.land status (Z.lor statusValidateFailed statusInvalidAncestor) =? 0).

(** ** Block nodes *)
Abbreviation ptr := nat.

Record blockNode := mkBlockNode {
  bn_parent : option ptr;
  bn_ancestor : option ptr;
  bn_hash : bytes;
  bn_workSum : Z;
  bn_height : Z;                       (* int32 *)
  bn_version : Z;
  bn_bits : Z;
  bn_timestamp : Z;
  bn_merkleRoot : bytes;
  bn_proofCommitment : bytes;
  bn_vsize : Z;
  bn_status : Z }.

Abbreviation heap := (gmap nat blockNode).

Definition invertLowestOne (n : Z) : Z := Z.land n (i32 (n - 1)).
Definition getAncestorHeight (height : Z) : Z := invertLowestOne (invertLowestOne height).

(** The loop of [Ancestor]; [fuel] bounds the nodes visited. *)
Fixpoint ancestorLoop (fuel : nat) (h : heap) (height : Z) (n : option ptr) : option ptr :=
  match fuel, n with
  | S fuel', Some p =>
      nd ← h !! p;
      if bn_height nd =? height then Some p
      else match bn_ancestor nd with
           | Some a => if height <=? getAncestorHeight (bn_height nd)
                       then ancestorLoop fuel' h height (Some a)
                       else ancestorLoop fuel' h height (bn_parent nd)
           | None => ancestorLoop fuel' h height (bn_parent nd)
           end
  | _, _ => None
  end.

Definition Ancestor (h : heap) (node : ptr) (height : Z) : option ptr :=
  nd ← h !! node;
  if (height <? 0) || (bn_height nd <? height) then None
  else ancestorLoop (S (Z.to_nat (bn_height nd))) h height (Some node).

Definition RelativeAncestor (h : heap) (node : ptr) (distance : Z) : option ptr :=
  nd ← h !! node; Ancestor h node (i32 (bn_height nd - distance)).

(** [newBlockNode], with [buildAncestor] inlined where the code calls it: the
    node is built with its parent, its height, its cumulative work and its
    skip pointer. *)
Definition newBlockNode (sha256 : bytes → bytes) (h : heap) (header : BlockHeader)
    (parent : option ptr) (status vsize : Z) : blockNode :=
  let base (par anc : option ptr) (height work : Z) :=
    mkBlockNode par anc (BlockHash sha256 header) work height (bh_Version header)
      (bh_Bits header) (unixOf (bh_Timestamp header)) (bh_MerkleRoot header)
      (bh_ProofCommitment header) vsize status in
  match parent ≫= (h !!.) with
  | None => base None None 0 (CalcWork (bh_Bits header))
  | Some pn =>
      let height := i32 (bn_height pn + 1) in
      base parent (p ← parent; Ancestor h p (getAncestorHeight height)) height
        (bn_workSum pn + CalcWork (bh_Bits header))
  end.

Definition Equals (a b : blockNode) : bool :=
  bool_decide (bn_hash a = bn_hash b) && (bn_workSum a =? bn_workSum b)
  && (bn_height a =? bn_height b) && (bn_version a =? bn_version b)
  && (bn_bits a =? bn_bits b) && (bn_timestamp a =? bn_timestamp b)
  && bool_decide (bn_merkleRoot a = bn_merkleRoot b)
  && bool_decide (bn_proofCommitment a = bn_proofCommitment b)
  && (bn_vsize a =? bn_vsize b) && (bn_status a =? bn_status b).

Definition IsAncestor (h : heap) (node : ptr) (otherNode : option ptr) : bool :=
  match otherNode ≫= (h !!.), h !! node with
  | Some other, Some nd =>
      match Ancestor h node (bn_height other) ≫= (h !!.) with
      | None => false
      | Some anc => if bn_height nd =? bn_height anc then false else Equals anc other
      end
  | _, _ => false
  end.

(** ** The index *)
Record blockIndex := mkBlockIndex {
  bi_heap : heap;
  bi_next : ptr;                       (* the next free address *)
  bi_index : gmap bytes ptr;
  bi_dirty : gset ptr }.

Definition newBlockIndex : blockIndex := mkBlockIndex ∅ 0%nat ∅ ∅.

Definition HaveBlock (bi : blockIndex) (hash : bytes) : bool :=
  bool_decide (is_Some (bi_index bi !! hash)).
Definition LookupNode (bi : blockIndex) (hash : bytes) : option ptr := bi_index bi !! hash.

(** [newBlockNode] followed by [addNode]: allocates the node and enters it in
    the map. *)
Definition allocNode (bi : blockIndex) (nd : blockNode) : ptr * blockIndex :=
  (bi_next bi, mkBlockIndex (<[bi_next bi := nd]> (bi_heap bi)) (S (bi_next bi))
                 (bi_index bi) (bi_dirty bi)).
Definition addNode (bi : blockIndex) (p : ptr) : blockIndex :=
  match bi_heap bi !! p with
  | Some nd => mkBlockIndex (bi_heap bi) (bi_next bi) (<[bn_hash nd := p]> (bi_index bi)) (bi_dirty bi)
  | None => bi
  end.
Definition Add (sha256 : bytes → bytes) (bi : blockIndex) (header : BlockHeader)
    (parent : option ptr) (status vsize : Z) : ptr * blockIndex :=
  let '(p, bi) := allocNode bi (newBlockNode sha256 (bi_heap bi) header parent status vsize) in
  (p, addNode bi p).

Definition setStatus (nd : blockNode) (st : Z) : blockNode :=
  mkBlockNode (bn_parent nd) (bn_ancestor nd) (bn_hash nd) (bn_workSum nd) (bn_height nd)
    (bn_version nd) (bn_bits nd) (bn_timestamp nd) (bn_merkleRoot nd) (bn_proofCommitment nd)
    (bn_vsize nd) st.

Definition updStatus (bi : blockIndex) (p : ptr) (f : Z → Z) : blockIndex :=
  match bi_heap bi !! p with
  | Some nd => mkBlockIndex (<[p := setStatus nd (f (bn_status nd))]> (bi_heap bi)) (bi_next bi)
                 (bi_index bi) ({[ p ]} ∪ bi_dirty bi)
  | None => bi
  end.
Definition NodeStatus (bi : blockIndex) (p : ptr) : option Z := bn_status <$> bi_heap bi !! p.
Definition SetStatusFlags (bi : blockIndex) (p : ptr) (flags : Z) : blockIndex :=
  updStatus bi p (λ st, Z.lor st flags).
Definition UnsetStatusFlags (bi : blockIndex) (p : ptr) (flags : Z) : blockIndex :=
  updStatus bi p (λ st, Z.ldiff st flags).

(** [flushToDB]: the statuses written, and the index with nothing dirty; on a
    database error the dirty set is kept. *)
Definition flushToDB (dbOk : bool) (bi : blockIndex) : list (bytes * Z) * blockIndex :=
  if bool_decide (bi_dirty bi = ∅) then ([], bi)
  else if dbOk
  then (omap (λ p, (λ nd, (bn_hash nd, bn_status nd)) <$> bi_heap bi !! p) (elements (bi_dirty bi)),
        mkBlockIndex (bi_heap bi) (bi_next bi) (bi_index bi) ∅)
  else ([], bi).

(** ** The past median time *)
Definition medianTimeBlocks : nat := 11.

(** The timestamps of the node and up to [n - 1] of its ancestors. *)
Fixpoint timestamps {N} `{HeaderCtx N} (n : nat) (iterNode : option N) : list Z :=
  match n, iterNode with
  | S n', Some nd => Timestamp nd :: timestamps n' (Parent nd)
  | _, _ => []
  end.

Definition median (l : list Z) : Z := merge_sort Z.le l !!! (length l / 2)%nat.

Definition CalcPastMedianTime {N} `{HeaderCtx N} (node : N) : Z :=
  median (timestamps medianTimeBlocks (Some node)).

(** ** The chain view: [c.nodes], by height *)
Abbreviation chainView := (list (option ptr)).

(** [fastLog2Floor]: the five rounds of the loop. *)
Definition log2Round (mask exponent : Z) (st : Z * Z) : Z * Z :=
  let '(rv, n) := st in
  if negb (Z.land n mask =? 0) then (u8 (rv + exponent), Z.shiftr n exponent) else (rv, n).
Definition fastLog2Floor (n : Z) : Z :=
  fst (log2Round 0x2 1 (log2Round 0xc 2 (log2Round 0xf0 4
        (log2Round 0xff00 8 (log2Round 0xffff0000 16 (0, n)))))).

Definition genesis (c : chainView) : option ptr := mjoin (c !! 0%nat).
Definition tip (c : chainView) : option ptr := mjoin (last c).
Definition cv_height (c : chainView) : Z := Z.of_nat (length c) - 1.
Definition nodeByHeight (c : chainView) (height : Z) : option ptr :=
  if (height <? 0) || (Z.of_nat (length c) <=? height) then None
  else mjoin (c !! Z.to_nat height).

(** Both branches of [setTip] leave a slice of length [needed]: a reallocation
    copies the old entries, and a reslice clears the ones past the old length. *)
Definition cv_resize (needed : nat) (c : chainView) : chainView :=
  take needed c ++ replicate (needed - length c) None.

Fixpoint setTipLoop (fuel : nat) (h : heap) (node : option ptr) (c : chainView) : chainView :=
  match fuel, node with
  | S fuel', Some p =>
      match h !! p with
      | Some nd =>
          if bool_decide (c !! Z.to_nat (bn_height nd) = Some (Some p)) then c
          else setTipLoop fuel' h (bn_parent nd) (<[Z.to_nat (bn_height nd) := Some p]> c)
      | None => c
      end
  | _, _ => c
  end.

Definition setTip (h : heap) (c : chainView) (node : option ptr) : chainView :=
  match node ≫= (h !!.) with
  | None => []
  | Some nd =>
      let needed := Z.to_nat (bn_height nd + 1) in
      setTipLoop needed h node (cv_resize needed c)
  end.

Definition newChainView (h : heap) (node : option ptr) : chainView := setTip h [] node.

Definition cv_Equals (c other : chainView) : bool :=
  (length c =? length other)%nat && bool_decide (tip c = tip other).

Definition contains (h : heap) (c : chainView) (node : ptr) : bool :=
  match h !! node with
  | Some nd => bool_decide (nodeByHeight c (bn_height nd) = Some node)
  | None => false
  end.

Definition next (h : heap) (c : chainView) (node : option ptr) : option ptr :=
  p ← node;
  nd ← h !! p;
  if contains h c p then nodeByHeight c (i32 (bn_height nd + 1)) else None.

Fixpoint findForkLoop (fuel : nat) (h : heap) (c : chainView) (node : option ptr) : option ptr :=
  match fuel, node with
  | S fuel', Some p =>
      if contains h c p then Some p
      else nd ← h !! p; findForkLoop fuel' h c (bn_parent nd)
  | _, _ => None
  end.

Definition findFork (h : heap) (c : chainView) (node : option ptr) : option ptr :=
  p ← node;
  nd ← h !! p;
  let chainHeight := cv_height c in
  let node := if chainHeight <? bn_height nd then Ancestor h p chainHeight else Some p in
  findForkLoop (S (Z.to_nat (bn_height nd))) h c node.

(** The loop of [blockLocator]; [n] is the number of entries so far. *)
Fixpoint locatorLoop (fuel : nat) (h : heap) (c : chainView) (node : option ptr)
    (n : nat) (step : Z) : list bytes :=
  match fuel, node with
  | S fuel', Some p =>
      match h !! p with
      | None => []
      | Some nd =>
          bn_hash nd ::
          (if bn_height nd =? 0 then []
           else
             let height := i32 (bn_height nd - step) in
             let height := if height <? 0 then 0 else height in
             let node' := if contains h c p then mjoin (c !! Z.to_nat height)
                          else Ancestor h p height in
             locatorLoop fuel' h c node' (S n)
               (if (10 <? S n)%nat then i32 (step * 2) else step))
      end
  | _, _ => []
  end.

Definition blockLocator (h : heap) (c : chainView) (node : option ptr) : list bytes :=
  match (match node with None => tip c | Some _ => node end) with
  | None => []
  | Some p =>
      match h !! p with
      | None => []
      | Some nd => locatorLoop (S (Z.to_nat (bn_height nd))) h c (Some p) 0 1
      end
  end.

(** [InactiveTips]: nodes of the index outside the chain that are nobody's
    parent outside the chain.  The result is a set: Go's map order is not
    specified. *)
Definition InactiveTips (bi : blockIndex) (c : chainView) : gset ptr :=
  let orphans := filter (λ kv : bytes * ptr, contains (bi_heap bi) c kv.2 = false) (bi_index bi) in
  let parentHash (p : ptr) : option bytes :=
    nd ← bi_heap bi !! p; q ← bn_parent nd; qn ← bi_heap bi !! q; Some (bn_hash qn) in
  let orphanParent : gset bytes := list_to_set (omap (λ kv, parentHash kv.2) (map_to_list orphans)) in
  list_to_set (snd <$> map_to_list (filter (λ kv : bytes * ptr, kv.1 ∉ orphanParent) orphans)).

(** ** The parent walk and the heap invariant *)
Fixpoint walk (h : heap) (k : nat) (p : ptr) : option ptr :=
  match k with
  | O => Some p
  | S k' => nd ← h !! p; q ← bn_parent nd; walk h k' q
  end.

(** Height counts the parents, the cumulative work is the sum of the work of
    the branch, and the skip pointer is the ancestor at the skip height. *)
Definition wfBlockNode (h : heap) (p : ptr) (nd : blockNode) : Prop :=
  0 <= bn_height nd < 2 ^ 31 ∧ inU 32 (bn_bits nd) ∧ inU 32 (bn_timestamp nd) ∧
  match bn_parent nd with
  | None => bn_height nd = 0 ∧ bn_ancestor nd = None ∧ bn_workSum nd = CalcWork (bn_bits nd)
  | Some q => ∃ qn, h !! q = Some qn ∧ bn_height nd = bn_height qn + 1
      ∧ bn_workSum nd = bn_workSum qn + CalcWork (bn_bits nd)
      ∧ ∃ a, bn_ancestor nd = Some a ∧
          walk h (Z.to_nat (bn_height nd - getAncestorHeight (bn_height nd))) p = Some a
  end.

Definition wfHeap (h : heap) : Prop := ∀ p nd, h !! p = Some nd → wfBlockNode h p nd.

Lemma land_le a b : 0 <= b → 0 <= Z.land a b <= b.
Proof.
  intros Hb. split; [apply Z.land_nonneg; by right|].
  assert (Z.ldiff b a = b - Z.land a b).
  { rewrite Z.land_comm. symmetry. rewrite Z.sub_nocarry_ldiff.
    - apply Z.bits_inj'. intros i Hi. rewrite !Z.ldiff_spec, Z.land_spec.
      by destruct (Z.testbit a i), (Z.testbit b i).
    - apply Z.bits_inj'. intros i Hi. rewrite !Z.ldiff_spec, Z.land_spec, Z.testbit_0_l.
      by destruct (Z.testbit a i), (Z.testbit b i). }
  assert (0 <= Z.ldiff b a) by (apply Z.ldiff_nonneg; by left). lia.
Qed.

Lemma invertLowestOne_lt n : 0 < n < 2 ^ 31 → 0 <= invertLowestOne n < n.
Proof.
  intros Hn. unfold invertLowestOne. rewrite wrapS_small by (unfold inS; lia).
  pose proof (land_le n (n - 1)). lia.
Qed.

Lemma invertLowestOne_0 : invertLowestOne 0 = 0.
Proof. done. Qed.

Lemma getAncestorHeight_lt n : 0 < n < 2 ^ 31 → 0 <= getAncestorHeight n < n.
Proof.
  intros Hn. unfold getAncestorHeight. pose proof (invertLowestOne_lt n Hn).
  destruct (decide (invertLowestOne n = 0)) as [->|]; [rewrite invertLowestOne_0; lia|].
  pose proof (invertLowestOne_lt (invertLowestOne n)). lia.
Qed.

Lemma walk_add h j k p a : walk h j p = Some a → walk h (j + k) p = walk h k a.
Proof.
  revert p. induction j as [|j IH]; intros p; cbn [walk Nat.add].
  - by intros [= ->].
  - destruct (h !! p) as [nd|]; [|done]. cbn. destruct (bn_parent nd) as [q|]; [|done]. cbn. apply IH.
Qed.

Lemma walk_heap h h' k p : h ⊆ h' → is_Some (walk h k p) → walk h' k p = walk h k p.
Proof.
  intros Hs. revert p. induction k as [|k IH]; intros p [a Ha]; cbn [walk] in *; [done|].
  destruct (h !! p) as [nd|] eqn:E; [|done]. cbn in Ha.
  assert (E' : h' !! p = Some nd) by (by eapply lookup_weaken).
  rewrite E'. cbn. destruct (bn_parent nd) as [q|]; [|done].
  cbn in *. apply IH. by eexists.
Qed.

Section walks.
Context (h : heap) (Hwf : wfHeap h).

Lemma wf_range p nd : h !! p = Some nd → 0 <= bn_height nd < 2 ^ 31.
Proof. intros H. apply Hwf in H. apply H. Qed.

Lemma wf_parent p nd q : h !! p = Some nd → bn_parent nd = Some q →
  ∃ qn, h !! q = Some qn ∧ bn_height nd = bn_height qn + 1
    ∧ bn_workSum nd = bn_workSum qn + CalcWork (bn_bits nd).
Proof.
  intros H Hq. apply Hwf in H as (_ & _ & _ & H). rewrite Hq in H.
  destruct H as (qn & ? & ? & ? & _). eauto.
Qed.

Lemma wf_root p nd : h !! p = Some nd → bn_parent nd = None →
  bn_height nd = 0 ∧ bn_workSum nd = CalcWork (bn_bits nd).
Proof. intros H Hq. apply Hwf in H as (_ & _ & _ & H). rewrite Hq in H. tauto. Qed.

Lemma walk_spec k p nd : h !! p = Some nd → Z.of_nat k <= bn_height nd →
  ∃ a an, walk h k p = Some a ∧ h !! a = Some an ∧ bn_height an = bn_height nd - Z.of_nat k.
Proof.
  revert p nd. induction k as [|k IH]; intros p nd H Hk.
  - exists p, nd. split; [done|]. split; [done|lia].
  - cbn [walk]. rewrite H. cbn. destruct (bn_parent nd) as [q|] eqn:Hq.
    + destruct (wf_parent _ _ _ H Hq) as (qn & Hqn & Hh & _).
      destruct (IH q qn Hqn ltac:(lia)) as (a & an & Ha & Han & Hlen).
      exists a, an. cbn. split; [done|]. split; [done|lia].
    + destruct (wf_root _ _ H Hq). lia.
Qed.

Lemma walk_height k p nd a : h !! p = Some nd → walk h k p = Some a →
  ∃ an, h !! a = Some an ∧ bn_height an = bn_height nd - Z.of_nat k.
Proof.
  revert p nd. induction k as [|k IH]; intros p nd H Ha; cbn [walk] in Ha.
  - injection Ha as ->. exists nd. split; [done|lia].
  - rewrite H in Ha. cbn in Ha. destruct (bn_parent nd) as [q|] eqn:Hq; [|done]. cbn in Ha.
    destruct (wf_parent _ _ _ H Hq) as (qn & Hqn & Hh & _).
    destruct (IH q qn Hqn Ha) as (an & Han & Hlen). exists an. split; [done|lia].
Qed.

(** The skip loop is the parent walk. *)
Lemma ancestorLoop_walk fuel p nd k :
  h !! p = Some nd → 0 <= k <= bn_height nd → bn_height nd - k < Z.of_nat fuel →
  ancestorLoop fuel h k (Some p) = walk h (Z.to_nat (bn_height nd - k)) p.
Proof.
  revert p nd. induction fuel as [|fuel IH]; intros p nd H Hk Hf; [lia|].
  cbn [ancestorLoop]. rewrite H. cbn. destruct (Z.eqb_spec (bn_height nd) k) as [E|Hne].
  { by replace (bn_height nd - k) with 0 by lia. }
  pose proof (Hwf _ _ H) as (Hr & _ & _ & Hpar).
  destruct (bn_parent nd) as [q|] eqn:Hq; [|lia].
  destruct Hpar as (qn & Hqn & Hh & _ & a & -> & Ha).
  pose proof (getAncestorHeight_lt (bn_height nd) ltac:(lia)) as Hg.
  destruct (Z.leb_spec k (getAncestorHeight (bn_height nd))).
  - destruct (walk_height _ _ _ _ H Ha) as (an & Han & Hah). rewrite Z2Nat.id in Hah by lia.
    rewrite (IH a an Han) by lia. rewrite <- (walk_add _ _ _ _ _ Ha). f_equal. lia.
  - rewrite (IH q qn Hqn) by lia.
    replace (Z.to_nat (bn_height nd - k)) with (S (Z.to_nat (bn_height qn - k))) by lia.
    cbn [walk]. rewrite H. cbn. by rewrite Hq.
Qed.

Lemma Ancestor_walk p nd k : h !! p = Some nd → 0 <= k <= bn_height nd →
  Ancestor h p k = walk h (Z.to_nat (bn_height nd - k)) p.
Proof.
  intros H Hk. unfold Ancestor. rewrite H. cbn [mbind option_bind].
  destruct (Z.ltb_spec k 0); [lia|]. destruct (Z.ltb_spec (bn_height nd) k); [lia|]. cbn [orb].
  apply ancestorLoop_walk; [done|lia|lia].
Qed.

Lemma Ancestor_none p nd k : h !! p = Some nd → k < 0 ∨ bn_height nd < k → Ancestor h p k = None.
Proof.
  intros H Hk. unfold Ancestor. rewrite H. cbn [mbind option_bind].
  destruct (Z.ltb_spec k 0), (Z.ltb_spec (bn_height nd) k); cbn; done || lia.
Qed.
End walks.

(** ** Every index the operations can build is well formed *)
Definition wfIndex (bi : blockIndex) : Prop :=
  wfHeap (bi_heap bi)
  ∧ (∀ p, is_Some (bi_heap bi !! p) → (p < bi_next bi)%nat)
  ∧ (∀ hash p, bi_index bi !! hash = Some p → ∃ nd, bi_heap bi !! p = Some nd ∧ bn_hash nd = hash)
  ∧ (∀ p, p ∈ bi_dirty bi → is_Some (bi_heap bi !! p)).

Lemma wfBlockNode_mono h h' p nd : wfHeap h → h ⊆ h' → h !! p = Some nd →
  wfBlockNode h p nd → wfBlockNode h' p nd.
Proof.
  intros Hwf Hs Hp (Hr & Hb & Ht & Hpar). split; [done|]. split; [done|]. split; [done|].
  destruct (bn_parent nd) as [q|]; [|done].
  destruct Hpar as (qn & Hqn & Hh & Hw & a & Ha & Hwalk). exists qn.
  split; [by eapply lookup_weaken|]. split; [done|]. split; [done|]. exists a. split; [done|].
  rewrite (walk_heap h h'); [done|done|]. by eexists.
Qed.

Lemma wfHeap_alloc h p nd : wfHeap h → h !! p = None → wfBlockNode (<[p := nd]> h) p nd →
  wfHeap (<[p := nd]> h).
Proof.
  intros Hwf Hp Hnd x xn Hx. destruct (decide (p = x)) as [<-|Hne].
  - rewrite lookup_insert_eq in Hx. by injection Hx as <-.
  - rewrite lookup_insert_ne in Hx by done.
    eapply wfBlockNode_mono; [exact Hwf|by apply insert_subseteq|done|by apply Hwf].
Qed.

Section index_ops.
Context (sha256 : bytes → bytes).

Lemma newBlockNode_wf h p header parent st vs :
  wfHeap h → h !! p = None → inU 32 (bh_Bits header) → inU 32 (unixOf (bh_Timestamp header)) →
  (∀ q, parent = Some q → ∃ qn, h !! q = Some qn ∧ bn_height qn < 2 ^ 31 - 1) →
  let nd := newBlockNode sha256 h header parent st vs in
  wfBlockNode (<[p := nd]> h) p nd.
Proof.
  intros Hwf Hp Hbits Htime Hpar nd. unfold newBlockNode in nd.
  destruct parent as [q|].
  - destruct (Hpar q eq_refl) as (qn & Hqn & Hlt). cbn [mbind option_bind] in nd.
    pose proof (wf_range h Hwf q qn Hqn) as Hr.
    assert (Hq : q ≠ p) by congruence.
    unfold nd. rewrite Hqn. rewrite (wrapS_small 32 (bn_height qn + 1)) by (unfold inS; lia).
    split; [cbn; lia|]. split; [done|]. split; [done|]. cbn [bn_parent]. exists qn.
    split; [by rewrite lookup_insert_ne|]. split; [done|]. split; [done|].
    pose proof (getAncestorHeight_lt (bn_height qn + 1) ltac:(lia)) as Hg.
    rewrite (Ancestor_walk h Hwf q qn) by (done || lia).
    destruct (walk_spec h Hwf (Z.to_nat (bn_height qn - getAncestorHeight (bn_height qn + 1))) q qn Hqn)
      as (a & an & Ha & _); [lia|].
    exists a. cbn [bn_height bn_ancestor]. split; [done|].
    replace (Z.to_nat (bn_height qn + 1 - getAncestorHeight (bn_height qn + 1))) with
      (S (Z.to_nat (bn_height qn - getAncestorHeight (bn_height qn + 1)))) by lia.
    cbn [walk]. rewrite lookup_insert_eq. cbn. rewrite <- Ha.
    apply walk_heap; [by apply insert_subseteq|by eexists].
  - unfold nd. cbn [mbind option_bind]. split; [cbn; lia|]. done.
Qed.

Lemma walk_status h p nd st k x : h !! p = Some nd →
  walk (<[p := setStatus nd st]> h) k x = walk h k x.
Proof.
  intros Hp. revert x. induction k as [|k IH]; intros x; [done|]. cbn [walk].
  destruct (decide (p = x)) as [<-|].
  - rewrite lookup_insert_eq, Hp. cbn. destruct (bn_parent nd); cbn; done.
  - rewrite lookup_insert_ne by done. destruct (h !! x) as [xn|]; [|done]. cbn.
    destruct (bn_parent xn); cbn; done.
Qed.

Lemma lookup_status (h : heap) p nd st x xn : h !! p = Some nd →
  h !! x = Some xn → ∃ xn', <[p := setStatus nd st]> h !! x = Some xn'
    ∧ bn_height xn' = bn_height xn ∧ bn_workSum xn' = bn_workSum xn ∧ bn_hash xn' = bn_hash xn.
Proof.
  intros Hp Hx. destruct (decide (p = x)) as [<-|].
  - rewrite lookup_insert_eq. assert (xn = nd) as -> by congruence. by eexists.
  - rewrite lookup_insert_ne by done. by exists xn.
Qed.

Lemma wfHeap_status h p nd st : wfHeap h → h !! p = Some nd → wfHeap (<[p := setStatus nd st]> h).
Proof.
  intros Hwf Hp x xn Hx.
  assert (∃ xo, h !! x = Some xo ∧ bn_height xn = bn_height xo ∧ bn_bits xn = bn_bits xo
     ∧ bn_timestamp xn = bn_timestamp xo ∧ bn_parent xn = bn_parent xo
     ∧ bn_ancestor xn = bn_ancestor xo ∧ bn_workSum xn = bn_workSum xo)
    as (xo & Hxo & E1 & E2 & E3 & E4 & E5 & E6).
  { destruct (decide (p = x)) as [<-|].
    - rewrite lookup_insert_eq in Hx. injection Hx as <-. by exists nd.
    - rewrite lookup_insert_ne in Hx by done. by exists xn. }
  pose proof (Hwf _ _ Hxo) as (Hr & Hb & Ht & Hpar).
  unfold wfBlockNode. rewrite E1, E2, E3, E4, E5, E6. split; [done|]. split; [done|].
  split; [done|]. destruct (bn_parent xo) as [q|]; [|done].
  destruct Hpar as (qn & Hqn & Hh & Hw & a & Ha & Hwalk).
  destruct (lookup_status h p nd st q qn Hp Hqn) as (qn' & Hqn' & F1 & F2 & _).
  exists qn'. rewrite F1, F2. split; [done|]. split; [done|]. split; [done|].
  exists a. split; [done|]. by rewrite walk_status.
Qed.

(** The operations that change the index. *)
Inductive indexStep : blockIndex → blockIndex → Prop :=
| step_Add bi header parent st vs :
    inU 32 (bh_Bits header) → inU 32 (unixOf (bh_Timestamp header)) →
    (∀ q, parent = Some q → ∃ qn, bi_heap bi !! q = Some qn ∧ bn_height qn < 2 ^ 31 - 1) →
    indexStep bi (Add sha256 bi header parent st vs).2
| step_SetStatusFlags bi p flags : indexStep bi (SetStatusFlags bi p flags)
| step_UnsetStatusFlags bi p flags : indexStep bi (UnsetStatusFlags bi p flags)
| step_flushToDB bi ok : indexStep bi (flushToDB ok bi).2.

Lemma updStatus_wf bi p f : wfIndex bi → wfIndex (updStatus bi p f).
Proof.
  intros (Hwf & Hnext & Hidx & Hd). unfold updStatus.
  destruct (bi_heap bi !! p) as [nd|] eqn:Hp; [|done].
  assert (Hex : ∀ x, is_Some (<[p := setStatus nd (f (bn_status nd))]> (bi_heap bi) !! x)
                     ↔ is_Some (bi_heap bi !! x)).
  { intros x. destruct (decide (p = x)) as [<-|].
    - rewrite lookup_insert_eq, Hp. split; by eexists.
    - by rewrite lookup_insert_ne. }
  split; [by apply wfHeap_status|]. split; [|split]; cbn [bi_heap bi_next bi_index bi_dirty].
  - intros x Hx. apply Hnext. by apply Hex.
  - intros hash x Hx. apply Hidx in Hx as (xn & Hx & Hh).
    destruct (lookup_status _ p nd (f (bn_status nd)) x xn Hp Hx) as (xn' & ? & _ & _ & Hhash).
    exists xn'. split; [done|congruence].
  - intros x Hx. apply Hex. apply elem_of_union in Hx as [->%elem_of_singleton|Hx]; [by eexists|auto].
Qed.

Lemma Add_wf bi header parent st vs :
  inU 32 (bh_Bits header) → inU 32 (unixOf (bh_Timestamp header)) →
  (∀ q, parent = Some q → ∃ qn, bi_heap bi !! q = Some qn ∧ bn_height qn < 2 ^ 31 - 1) →
  wfIndex bi → wfIndex (Add sha256 bi header parent st vs).2.
Proof.
  intros Hb Ht Hpar (Hwf & Hnext & Hidx & Hd).
  assert (Hfresh : bi_heap bi !! bi_next bi = None).
  { destruct (bi_heap bi !! bi_next bi) eqn:E; [|done].
    pose proof (Hnext (bi_next bi) ltac:(by eexists)). lia. }
  unfold Add, allocNode, addNode. cbn [bi_heap bi_next bi_index bi_dirty].
  rewrite lookup_insert_eq. cbn [snd].
  set (nd := newBlockNode _ _ _ _ _ _).
  assert (Hold : ∀ x xn, bi_heap bi !! x = Some xn →
                   <[bi_next bi := nd]> (bi_heap bi) !! x = Some xn).
  { intros x xn Hx. rewrite lookup_insert_ne; [done|]. congruence. }
  split; [|split; [|split]]; cbn [bi_heap bi_next bi_index bi_dirty].
  - apply wfHeap_alloc; [done|done|]. by apply newBlockNode_wf.
  - intros x [xn Hx]. destruct (decide (bi_next bi = x)); [lia|].
    rewrite lookup_insert_ne in Hx by done. assert (x < bi_next bi)%nat by (apply Hnext; eauto). lia.
  - intros hash x Hx. destruct (decide (bn_hash nd = hash)) as [<-|].
    + rewrite lookup_insert_eq in Hx. injection Hx as <-. exists nd. by rewrite lookup_insert_eq.
    + rewrite lookup_insert_ne in Hx by done. apply Hidx in Hx as (xn & Hx & Hh). eauto.
  - intros x Hx. destruct (Hd x Hx) as [xn Hxn]. eexists. by apply Hold.
Qed.

Lemma indexStep_wf bi bi' : indexStep bi bi' → wfIndex bi → wfIndex bi'.
Proof.
  intros [bi0 header parent st vs Hb Ht Hp|bi0 p flags|bi0 p flags|bi0 ok] Hwf.
  - by apply Add_wf.
  - by apply updStatus_wf.
  - by apply updStatus_wf.
  - unfold flushToDB. repeat case_match; try done. destruct Hwf as (? & ? & ? & _).
    split; [done|]. split; [done|]. split; [done|]. cbn. set_solver.
Qed.

Lemma reachable_wf bi : rtc indexStep newBlockIndex bi → wfIndex bi.
Proof.
  intros H. remember newBlockIndex as b0 eqn:E.
  assert (Hb0 : wfIndex b0).
  { subst. split; [|split; [|split]]; cbn.
    - intros p nd H'. by rewrite lookup_empty in H'.
    - intros p [? H']. by rewrite lookup_empty in H'.
    - intros ? ? H'. by rewrite lookup_empty in H'.
    - set_solver. }
  clear E. induction H; [done|]. eauto using indexStep_wf.
Qed.
End index_ops.

(** C31. Every index built by the code's operations, in any order, answers
    ancestor queries exactly: [Ancestor] with its skip pointers returns the
    block that walking the parent pointers reaches, for every height up to the
    node's own, and nil outside that range. *)
Theorem Ancestor_correct (sha256 : bytes → bytes) (bi : blockIndex) (p : ptr) (nd : blockNode) (k : Z)
  (Hreach : rtc (indexStep sha256) newBlockIndex bi) (Hp : bi_heap bi !! p = Some nd) :
  (0 <= k <= bn_height nd → ∃ a an,
     Ancestor (bi_heap bi) p k = Some a
     ∧ walk (bi_heap bi) (Z.to_nat (bn_height nd - k)) p = Some a
     ∧ bi_heap bi !! a = Some an ∧ bn_height an = k)
  ∧ (k < 0 ∨ bn_height nd < k → Ancestor (bi_heap bi) p k = None).
Proof.
  destruct (reachable_wf sha256 bi Hreach) as (Hwf & _). split; intros Hk.
  - rewrite (Ancestor_walk _ Hwf p nd) by done.
    destruct (walk_spec _ Hwf (Z.to_nat (bn_height nd - k)) p nd Hp ltac:(lia))
      as (a & an & Ha & Han & Hh).
    exists a, an. rewrite Z2Nat.id in Hh by lia. split; [done|]. split; [done|]. split; [done|lia].
  - by eapply Ancestor_none.
Qed.

(** A chain of [n] blocks on top of a genesis block, for the witnesses. *)
Definition demoHeader (i : Z) : BlockHeader :=
  mkBlockHeader 1 (replicate 32 x00) (replicate 32 x00) (timeUnix (1000 + 200 * i)) 0x1b00ffff
    (replicate 32 x00).
Definition demoSha (b : bytes) : bytes := match drop 68 b with [] => b | l => take 32 (l ++ b) end.
Fixpoint demoIndex (n : nat) : blockIndex :=
  match n with
  | O => (Add demoSha newBlockIndex (demoHeader 0) None statusValid 100).2
  | S n' => (Add demoSha (demoIndex n') (demoHeader (Z.of_nat n)) (Some n') statusValid 100).2
  end.

Lemma demoHeader_wf n : (n < 1000)%nat →
  inU 32 (bh_Bits (demoHeader (Z.of_nat n))) ∧ inU 32 (unixOf (bh_Timestamp (demoHeader (Z.of_nat n)))).
Proof.
  intros Hn. cbn [demoHeader bh_Bits bh_Timestamp]. rewrite unixOf_timeUnix. unfold inU. lia.
Qed.

Lemma demo_step n : (n < 999)%nat →
  (∃ qn, bi_heap (demoIndex n) !! n = Some qn ∧ bn_height qn < 2 ^ 31 - 1) →
  indexStep demoSha (demoIndex n) (demoIndex (S n)).
Proof.
  intros Hn Hq. destruct (demoHeader_wf (S n)) as [Hb Ht]; [lia|].
  apply (step_Add demoSha (demoIndex n) (demoHeader (Z.of_nat (S n))) (Some n)); [done|done|].
  by intros q [= <-].
Qed.

Lemma demo_reachable : rtc (indexStep demoSha) newBlockIndex (demoIndex 6).
Proof.
  apply rtc_l with (demoIndex 0).
  { destruct (demoHeader_wf 0) as [Hb Ht]; [lia|].
    apply (step_Add demoSha newBlockIndex (demoHeader 0) None); done. }
  apply rtc_l with (demoIndex 1); [|apply rtc_l with (demoIndex 2); [|apply rtc_l with (demoIndex 3);
    [|apply rtc_l with (demoIndex 4); [|apply rtc_l with (demoIndex 5);
    [|apply rtc_l with (demoIndex 6); [|apply rtc_refl]]]]]];
  (apply demo_step; [lia|eexists; split; [vm_compute; reflexivity|vm_compute; reflexivity]]).
Qed.

Lemma Ancestor_correct_witness :
  Ancestor (bi_heap (demoIndex 6)) 6%nat 1 = Some 1%nat ∧
  Ancestor (bi_heap (demoIndex 6)) 6%nat 7 = None.
Proof.
  destruct (bi_heap (demoIndex 6) !! 6%nat) as [nd|] eqn:E; [|vm_compute in E; discriminate].
  split; [vm_compute; reflexivity|].
  apply (proj2 (Ancestor_correct demoSha (demoIndex 6) 6 nd 7 demo_reachable E)).
  right. vm_compute in E. injection E as <-. vm_compute. reflexivity.
Defined.

(** ** The node implements the header interface *)
Section node_ctx.
Context (h : heap).

#[export] Instance nodeCtx : HeaderCtx ptr := {|
  Height p := default 0 (bn_height <$> h !! p);
  Bits p := default 0 (bn_bits <$> h !! p);
  Timestamp p := default 0 (bn_timestamp <$> h !! p);
  Parent p := h !! p ≫= bn_parent;
  RelativeAncestorCtx p d := RelativeAncestor h p d |}.

Lemma parents_walk n p : parents n p = walk h n p.
Proof.
  revert p. induction n as [|n IH]; intros p; [done|]. cbn.
  destruct (h !! p) as [nd|]; [|done]. cbn. destruct (bn_parent nd); cbn; [apply IH|done].
Qed.

Lemma walk_too_far k p nd : wfHeap h → h !! p = Some nd → bn_height nd < Z.of_nat k → walk h k p = None.
Proof.
  intros Hwf Hp Hk. destruct (walk h k p) as [a|] eqn:E; [|done].
  destruct (walk_height h Hwf k p nd a Hp E) as (an & Han & Hh).
  pose proof (wf_range h Hwf a an Han). lia.
Qed.

#[export] Instance nodeLaws (Hwf : wfHeap h) : HeaderCtxLaws ptr (λ p, is_Some (h !! p)).
Proof.
  split.
  - intros p [nd Hp]. cbn. rewrite Hp. by apply (wf_range h Hwf p).
  - intros p [nd Hp]. cbn. rewrite Hp. by apply Hwf in Hp as (_ & ? & _).
  - intros p [nd Hp]. cbn. rewrite Hp. by apply Hwf in Hp as (_ & _ & ? & _).
  - intros p q [nd Hp] Hq. cbn in *. rewrite Hp in *. cbn in *.
    destruct (wf_parent h Hwf p nd q Hp Hq) as (qn & Hqn & Hh & _). rewrite Hqn.
    split; [by eexists|done].
  - intros p [nd Hp] Hq. cbn in *. rewrite Hp in *. by apply (wf_root h Hwf p nd).
  - intros p d [nd Hp] Hd. cbn. rewrite parents_walk. unfold RelativeAncestor. rewrite Hp. cbn.
    pose proof (wf_range h Hwf p nd Hp). rewrite wrapS_small by (unfold inS; lia).
    destruct (decide (d <= bn_height nd)).
    + rewrite (Ancestor_walk h Hwf p nd) by (done || lia). f_equal. lia.
    + rewrite (Ancestor_none h p nd), (walk_too_far _ p nd); [done|done|done|lia|done|lia].
Qed.
End node_ctx.

(** ** The past median time never goes back *)
Definition countLt (m : Z) (l : list Z) : nat := length (filter (λ x, x < m) l).

Lemma countLt_app m a b : countLt m (a ++ b) = (countLt m a + countLt m b)%nat.
Proof. unfold countLt. by rewrite filter_app, length_app. Qed.

Lemma countLt_all m l : Forall (λ x, x < m) l → countLt m l = length l.
Proof.
  intros H. unfold countLt. induction H as [|x l Hx Hl IH]; [done|].
  rewrite filter_cons_True by done. cbn. by rewrite IH.
Qed.

Lemma countLt_none m l : Forall (λ x, m <= x) l → countLt m l = 0%nat.
Proof.
  intros H. unfold countLt. induction H as [|x l Hx Hl IH]; [done|].
  rewrite filter_cons_False by lia. done.
Qed.

(** In a sorted list the element at index [k] is at least [m] exactly when at
    most [k] elements are below [m]. *)
Lemma sorted_count l k m : StronglySorted Z.le l → (k < length l)%nat →
  m <= l !!! k ↔ (countLt m l <= k)%nat.
Proof.
  intros Hs Hk. rewrite <- (take_drop k l) at 2. rewrite countLt_app.
  destruct (lookup_lt_is_Some_2 l k Hk) as [x Hx].
  rewrite (list_lookup_total_correct _ _ _ Hx). rewrite (drop_S l x k Hx).
  assert (Hafter : Forall (λ y, x <= y) (drop (S k) l)).
  { rewrite <- (take_drop_middle l k x Hx) in Hs.
    apply StronglySorted_app in Hs as (_ & _ & Hs). by apply StronglySorted_inv in Hs as [_ Hs]. }
  assert (Hbefore : Forall (λ y, y <= x) (take k l)).
  { rewrite <- (take_drop_middle l k x Hx) in Hs.
    apply StronglySorted_app in Hs as (Hs & _ & _). apply Forall_forall. intros y Hy.
    apply (Hs y x Hy). by left. }
  split; intros H.
  - replace (countLt m (x :: drop (S k) l)) with 0%nat.
    + unfold countLt. pose proof (length_filter (λ y, y < m) (take k l)). rewrite length_take in *. lia.
    + symmetry. apply countLt_none. constructor; [done|]. eapply Forall_impl; [exact Hafter|]. cbn. lia.
  - destruct (decide (m <= x)) as [|Hlt]; [done|]. exfalso.
    rewrite (countLt_all m (take k l)) in H by (eapply Forall_impl; [exact Hbefore|]; cbn; lia).
    rewrite length_take, Nat.min_l in H by lia.
    unfold countLt in H. rewrite filter_cons_True in H by lia. cbn in H. lia.
Qed.

Lemma median_count l m : l ≠ [] → m <= median l ↔ (countLt m l <= length l / 2)%nat.
Proof.
  intros Hl. unfold median. rewrite sorted_count.
  - unfold countLt. by rewrite (merge_sort_Permutation Z.le l).
  - apply Sorted_StronglySorted; [|apply Sorted_merge_sort; intros ??; lia].
    intros ???. lia.
  - rewrite (merge_sort_Permutation Z.le l). apply Nat.div_lt; [|lia].
    destruct l; [done|cbn; lia].
Qed.

Section median_time.
Context {N : Type} `{HeaderCtx N}.

Lemma timestamps_S n nd : ∃ e, timestamps (S n) nd = timestamps n nd ++ e ∧
  (length e <= 1)%nat ∧ (e ≠ [] → length (timestamps n nd) = n).
Proof.
  revert nd. induction n as [|n IH]; intros nd.
  - destruct nd as [x|]; cbn.
    + exists [Timestamp x]. split_and!; [done|cbn; lia|done].
    + exists []. split_and!; [done|cbn; lia|done].
  - destruct nd as [x|]; [|exists []; split; [done|split; [cbn; lia|done]]].
    destruct (IH (Parent x)) as (e & He & Hlen & Hfull). exists e.
    change (timestamps (S (S n)) (Some x)) with (Timestamp x :: timestamps (S n) (Parent x)).
    rewrite He. split; [done|]. split; [done|]. intros Hne. cbn. f_equal. auto.
Qed.

(** The median-time clock of the chain never runs backwards: a block whose
    timestamp is not below its parent's past median time (the contextual header
    rule) has a past median time at least its parent's. *)
Lemma past_median_time_monotone (node parent : N)
  (Hpar : Parent node = Some parent)
  (Hts : CalcPastMedianTime parent <= Timestamp node) :
  CalcPastMedianTime parent <= CalcPastMedianTime node.
Proof.
  unfold CalcPastMedianTime in *. set (m := median _) in *.
  change (timestamps medianTimeBlocks (Some node)) with
    (Timestamp node :: timestamps 10 (Parent node)).
  rewrite Hpar. destruct (timestamps_S 10 (Some parent)) as (e & He & Hlen & Hfull).
  change 11%nat with medianTimeBlocks in He.
  assert (Hm : m <= median (timestamps medianTimeBlocks (Some parent))) by done.
  apply median_count in Hm; [|done]. rewrite He, countLt_app, length_app in Hm.
  apply median_count; [done|].
  change (Timestamp node :: timestamps 10 (Some parent)) with
    ([Timestamp node] ++ timestamps 10 (Some parent)).
  rewrite countLt_app, length_app, countLt_none by (by constructor). cbn [length].
  assert (Hdiv : ((length (timestamps 10 (Some parent)) + length e) / 2
           <= (1 + length (timestamps 10 (Some parent))) / 2)%nat) by (apply Nat.Div0.div_le_mono; lia).
  lia.
Qed.
End median_time.

Lemma past_median_time_monotone_witness :
  let h t := ListChain.Build_hdr 0 t in
  let c0 : ListChain.chain := (h 700, [h 500; h 900]) in
  let c1 : ListChain.chain := (h 720, [h 700; h 500; h 900]) in
  CalcPastMedianTime c0 = 700 ∧ CalcPastMedianTime c0 <= CalcPastMedianTime c1.
Proof.
  cbv zeta. split; [vm_compute; reflexivity|].
  apply past_median_time_monotone; [reflexivity|]. vm_compute. discriminate.
Defined.

(** ** The chain view is the branch of its tip *)

(** The abstract view: the ancestors of the tip, by height. *)
Definition viewOf (h : heap) (t : ptr) : chainView :=
  match h !! t with
  | None => []
  | Some tn => (λ i, walk h (Z.to_nat (bn_height tn) - i) t) <$> seq 0 (S (Z.to_nat (bn_height tn)))
  end.

Definition onBranch (h : heap) (t p : ptr) : Prop := ∃ k, walk h k t = Some p.

Section views.
Context (h : heap) (Hwf : wfHeap h).

Lemma length_viewOf t tn : h !! t = Some tn → length (viewOf h t) = S (Z.to_nat (bn_height tn)).
Proof. intros Ht. unfold viewOf. by rewrite Ht, length_fmap, length_seq. Qed.

Lemma lookup_viewOf t tn i : h !! t = Some tn → (i <= Z.to_nat (bn_height tn))%nat →
  viewOf h t !! i = Some (walk h (Z.to_nat (bn_height tn) - i) t).
Proof.
  intros Ht Hi. unfold viewOf. rewrite Ht, list_lookup_fmap, lookup_seq_lt by lia. done.
Qed.

(** The part of a slice up to index [i] holds whole branches. *)
Definition branchy (i : nat) (c : chainView) : Prop :=
  ∀ j y k, (j <= i)%nat → c !! j = Some (Some y) → (k <= j)%nat → c !! (j - k)%nat = Some (walk h k y).

Lemma viewOf_branchy t i : branchy i (viewOf h t).
Proof.
  intros j y k _ Hj Hk. destruct (h !! t) as [tn|] eqn:Ht.
  - assert (Hlen : (j < length (viewOf h t))%nat) by (apply lookup_lt_is_Some; by eexists).
    rewrite (length_viewOf t tn Ht) in Hlen.
    rewrite (lookup_viewOf t tn) in Hj by (done || lia). injection Hj as Hy.
    rewrite (lookup_viewOf t tn) by (done || lia). f_equal.
    rewrite <- (walk_add _ _ k _ _ Hy). f_equal. lia.
  - unfold viewOf in Hj. by rewrite Ht in Hj.
Qed.

Lemma resize_branchy n c : branchy (length c) c → (∀ j, branchy j (cv_resize n c)).
Proof.
  intros Hc j0 j y k _ Hj Hk. unfold cv_resize in *.
  destruct (decide (j < length (take n c))%nat) as [Hlt|Hge].
  - rewrite lookup_app_l in Hj by done. rewrite length_take in Hlt.
    rewrite lookup_app_l by (rewrite length_take; lia).
    rewrite lookup_take_lt in Hj by lia. rewrite lookup_take_lt by lia. apply (Hc j); [lia|done|done].
  - rewrite lookup_app_r in Hj by lia. apply lookup_replicate in Hj as [Hj _]. done.
Qed.

Lemma length_resize n c : length (cv_resize n c) = n.
Proof. unfold cv_resize. rewrite length_app, length_take, length_replicate. lia. Qed.

Lemma view_ext t tn (Ht : h !! t = Some tn) c : length c = S (Z.to_nat (bn_height tn)) →
  (∀ j, (j <= Z.to_nat (bn_height tn))%nat → c !! j = viewOf h t !! j) → c = viewOf h t.
Proof.
  intros Hlen Hc. apply list_eq. intros j.
  destruct (decide (j <= Z.to_nat (bn_height tn))%nat); [by apply Hc|].
  rewrite !lookup_ge_None_2; [done|rewrite (length_viewOf t tn Ht)|]; lia.
Qed.

Lemma setTipLoop_spec t tn i x xn c :
  h !! t = Some tn → h !! x = Some xn → bn_height xn = Z.of_nat i →
  (i <= Z.to_nat (bn_height tn))%nat → walk h (Z.to_nat (bn_height tn) - i) t = Some x →
  length c = S (Z.to_nat (bn_height tn)) → branchy i c →
  (∀ j, (i < j <= Z.to_nat (bn_height tn))%nat → c !! j = viewOf h t !! j) →
  setTipLoop (S i) h (Some x) c = viewOf h t.
Proof.
  intros Ht. pose proof (λ j, lookup_viewOf t tn j Ht) as HV.
  set (H := Z.to_nat (bn_height tn)) in *.
  revert x xn c. induction i as [|i IH]; intros x xn c Hx Hh Hi Hw Hlen Hb Hc;
    cbn [setTipLoop]; rewrite Hx, Hh, Nat2Z.id; case_bool_decide as E.
  - apply (view_ext t tn Ht c Hlen). intros j Hj.
    destruct (decide (j = 0)%nat) as [->|]; [|apply Hc; lia].
    rewrite E, HV, Hw by done. done.
  - cbn [setTipLoop]. apply (view_ext t tn Ht); [by rewrite length_insert|]. intros j Hj.
    destruct (decide (j = 0)%nat) as [->|].
    + rewrite list_lookup_insert_eq, HV, Hw by (done || lia). done.
    + rewrite list_lookup_insert_ne by done. apply Hc. lia.
  - apply (view_ext t tn Ht c Hlen). intros j HjH.
    destruct (decide (j <= S i)%nat) as [Hj|]; [|apply Hc; lia].
    replace j with (S i - (S i - j))%nat at 1 by lia.
    rewrite (Hb (S i) x (S i - j)%nat) by (done || lia).
    rewrite HV by done. f_equal. rewrite <- (walk_add _ _ _ _ _ Hw). f_equal.
    lia.
  - destruct (bn_parent xn) as [q|] eqn:Hq; [|destruct (wf_root h Hwf x xn Hx Hq); lia].
    destruct (wf_parent h Hwf x xn q Hx Hq) as (qn & Hqn & Hqh & _).
    apply (IH q qn); [done|lia|lia| | | |].
    + replace (H - i)%nat with ((H - S i) + 1)%nat by lia.
      rewrite (walk_add _ _ _ _ _ Hw). cbn. rewrite Hx. cbn. by rewrite Hq.
    + by rewrite length_insert.
    + intros j y k Hj Hy Hk. rewrite list_lookup_insert_ne in Hy by lia.
      rewrite list_lookup_insert_ne by lia. by apply (Hb j); [lia|..].
    + intros j Hj. destruct (decide (j = S i)) as [->|].
      * rewrite list_lookup_insert_eq, HV, Hw by (done || lia). done.
      * rewrite list_lookup_insert_ne by done. apply Hc. lia.
Qed.

Lemma setTip_view c t tn : branchy (length c) c → h !! t = Some tn → setTip h c (Some t) = viewOf h t.
Proof.
  intros Hc Ht. unfold setTip. cbn [mbind option_bind]. rewrite Ht.
  pose proof (wf_range h Hwf t tn Ht).
  replace (Z.to_nat (bn_height tn + 1)) with (S (Z.to_nat (bn_height tn))) by lia.
  eapply setTipLoop_spec; [done|done|lia|lia| | | |].
  - by rewrite Nat.sub_diag.
  - apply length_resize.
  - by apply resize_branchy.
  - lia.
Qed.
End views.

Section forks.
Context (h : heap) (Hwf : wfHeap h).

Lemma onBranch_height t tn p : h !! t = Some tn → onBranch h t p →
  ∃ pn, h !! p = Some pn ∧ bn_height pn <= bn_height tn
    ∧ walk h (Z.to_nat (bn_height tn - bn_height pn)) t = Some p.
Proof.
  intros Ht [k Hk]. destruct (walk_height h Hwf k t tn p Ht Hk) as (pn & Hp & Hh).
  exists pn. split; [done|]. split; [lia|]. rewrite Hh. by replace (Z.to_nat _) with k by lia.
Qed.

Lemma nodeByHeight_view t tn k : h !! t = Some tn → 0 <= k <= bn_height tn →
  nodeByHeight (viewOf h t) k = walk h (Z.to_nat (bn_height tn - k)) t.
Proof.
  intros Ht Hk. unfold nodeByHeight. rewrite (length_viewOf h t tn Ht).
  destruct (Z.ltb_spec k 0); [lia|]. destruct (Z.leb_spec (Z.of_nat (S (Z.to_nat (bn_height tn)))) k); [lia|].
  cbn [orb]. rewrite (lookup_viewOf h t tn) by (done || lia). cbn. f_equal. lia.
Qed.

Lemma contains_view t tn p : h !! t = Some tn → contains h (viewOf h t) p = true ↔ onBranch h t p.
Proof.
  intros Ht. unfold contains. split.
  - destruct (h !! p) as [pn|] eqn:Hp; [|done]. intros H%bool_decide_eq_true.
    assert (Hr : 0 <= bn_height pn <= bn_height tn).
    { pose proof (wf_range h Hwf p pn Hp). pose proof (wf_range h Hwf t tn Ht). unfold nodeByHeight in H.
      rewrite (length_viewOf h t tn Ht) in H. destruct (Z.leb_spec (Z.of_nat (S (Z.to_nat (bn_height tn)))) (bn_height pn)).
      - by rewrite orb_true_r in H.
      - lia. }
    rewrite (nodeByHeight_view t tn) in H by done. by eexists.
  - intros Hb. destruct (onBranch_height t tn p Ht Hb) as (pn & Hp & Hle & Hw).
    pose proof (wf_range h Hwf p pn Hp).
    rewrite Hp. apply bool_decide_eq_true. by rewrite (nodeByHeight_view t tn) by (done || lia).
Qed.

(** What a fork search from [x] must return. *)
Definition forkSpec (t x : ptr) (r : option ptr) : Prop :=
  match r with
  | Some f => onBranch h x f ∧ onBranch h t f
      ∧ ∀ g, onBranch h x g → onBranch h t g → onBranch h f g
  | None => ∀ g, onBranch h x g → ¬ onBranch h t g
  end.

Lemma findForkLoop_spec t tn fuel x xn : h !! t = Some tn → h !! x = Some xn →
  bn_height xn < Z.of_nat fuel → forkSpec t x (findForkLoop fuel h (viewOf h t) (Some x)).
Proof.
  intros Ht. revert x xn. induction fuel as [|fuel IH]; intros x xn Hx Hf.
  { pose proof (wf_range h Hwf x xn Hx). lia. }
  cbn [findForkLoop]. destruct (contains h (viewOf h t) x) eqn:E.
  { apply (contains_view t tn) in E; [|done]. split; [by exists 0%nat|]. split; [done|]. auto. }
  assert (Hn : ¬ onBranch h t x) by (rewrite <- (contains_view t tn) by done; by rewrite E).
  assert (Hx1 : ∀ g, onBranch h x g → onBranch h t g → ∃ q, bn_parent xn = Some q ∧ onBranch h q g).
  { intros g [k Hk] Hg. destruct k as [|k]; [by injection Hk as ->|]. cbn in Hk. rewrite Hx in Hk.
    cbn in Hk. destruct (bn_parent xn) as [q|]; [|done]. cbn in Hk. exists q. split; [done|by exists k]. }
  rewrite Hx. cbn [mbind option_bind]. destruct (bn_parent xn) as [q|] eqn:Hq.
  - destruct (wf_parent h Hwf x xn q Hx Hq) as (qn & Hqn & Hh & _).
    pose proof (IH q qn Hqn ltac:(lia)) as Hs.
    destruct (findForkLoop fuel h (viewOf h t) (Some q)) as [f|]; cbn [forkSpec] in *.
    + destruct Hs as ([k Hk] & Hf2 & Hmax). split; [|split; [done|]].
      * exists (S k). cbn. rewrite Hx. cbn. rewrite Hq. done.
      * intros g Hg Hg2. destruct (Hx1 g Hg Hg2) as (q' & [= <-] & Hqg). auto.
    + intros g Hg Hg2. destruct (Hx1 g Hg Hg2) as (q' & [= <-] & Hqg). by eapply Hs.
  - destruct fuel; cbn; intros g Hg Hg2; by destruct (Hx1 g Hg Hg2) as (q' & ? & _).
Qed.

Lemma findFork_spec t tn x xn : h !! t = Some tn → h !! x = Some xn →
  forkSpec t x (findFork h (viewOf h t) (Some x)).
Proof.
  intros Ht Hx. pose proof (wf_range h Hwf t tn Ht). pose proof (wf_range h Hwf x xn Hx).
  unfold findFork. cbn [mbind option_bind]. rewrite Hx.
  assert (Hch : cv_height (viewOf h t) = bn_height tn).
  { unfold cv_height. rewrite (length_viewOf h t tn Ht). lia. }
  rewrite Hch. cbn [mbind option_bind]. destruct (Z.ltb_spec (bn_height tn) (bn_height xn)).
  2:{ eapply findForkLoop_spec; [done|done|lia]. }
  rewrite (Ancestor_walk h Hwf x xn) by (done || lia).
  destruct (walk_spec h Hwf (Z.to_nat (bn_height xn - bn_height tn)) x xn Hx ltac:(lia))
    as (a & an & Ha & Han & Hh). rewrite Ha.
  assert (Hxa : ∀ g, onBranch h x g → onBranch h t g → onBranch h a g).
  { intros g Hg Hg2. destruct (onBranch_height t tn g Ht Hg2) as (gn & Hgn & Hle & _).
    destruct (onBranch_height x xn g Hx Hg) as (gn' & Hgn' & _ & Hw).
    assert (gn' = gn) as -> by congruence.
    exists (Z.to_nat (bn_height tn - bn_height gn)).
    rewrite <- (walk_add _ _ _ _ _ Ha). rewrite <- Hw. f_equal. lia. }
  pose proof (findForkLoop_spec t tn (S (Z.to_nat (bn_height xn))) a an Ht Han ltac:(lia)) as Hs.
  destruct (findForkLoop _ h (viewOf h t) (Some a)) as [f|]; cbn [forkSpec] in *.
  - destruct Hs as ([k Hk] & Hf2 & Hmax). split; [|split; [done|auto]].
    exists (Z.to_nat (bn_height xn - bn_height tn) + k)%nat. by rewrite (walk_add _ _ _ _ _ Ha).
  - intros g Hg Hg2. eapply Hs; eauto.
Qed.
End forks.

(** Setting the tip: from a view of any previous branch (or an empty one),
    whatever the lengths and wherever the branches fork, [setTip] leaves the
    slice that holds the ancestors of the new tip at every height and nothing
    else, although it stops at the first entry that already agrees. *)
Lemma setTip_correct (h : heap) (old : option ptr) (t : ptr)
  (Hwf : wfHeap h) (Ht : is_Some (h !! t)) :
  setTip h (match old with Some o => viewOf h o | None => [] end) (Some t) = viewOf h t
  ∧ tip (viewOf h t) = Some t
  ∧ ∀ p, contains h (viewOf h t) p = true ↔ onBranch h t p.
Proof.
  destruct Ht as [tn Ht]. split; [|split].
  - eapply setTip_view; [done| |done]. destruct old as [o|]; [apply viewOf_branchy|].
    intros j y k _ Hj. done.
  - unfold tip. rewrite last_lookup, (length_viewOf h t tn Ht). cbn [Init.Nat.pred].
    rewrite (lookup_viewOf h t tn) by (done || lia). by rewrite Nat.sub_diag.
  - intros p. by eapply contains_view.
Qed.

Lemma demo_wf : wfHeap (bi_heap (demoIndex 6)).
Proof. destruct (reachable_wf _ _ demo_reachable) as (H & _). exact H. Qed.

Lemma setTip_correct_witness :
  setTip (bi_heap (demoIndex 6)) (viewOf (bi_heap (demoIndex 6)) 6) (Some 3%nat)
  = [Some 0; Some 1; Some 2; Some 3]%nat.
Proof.
  destruct (setTip_correct (bi_heap (demoIndex 6)) (Some 6%nat) 3 demo_wf) as [H _].
  - vm_compute. eexists. reflexivity.
  - rewrite H. vm_compute. reflexivity.
Defined.

(** The fork point: [FindFork] on the view of [t] returns the last common
    ancestor of [t] and the node (every common ancestor is an ancestor of it),
    and nil exactly when there is none. *)
Lemma findFork_correct (h : heap) (t x : ptr)
  (Hwf : wfHeap h) (Ht : is_Some (h !! t)) (Hx : is_Some (h !! x)) :
  match findFork h (viewOf h t) (Some x) with
  | Some f => onBranch h x f ∧ onBranch h t f
      ∧ ∀ g, onBranch h x g → onBranch h t g → onBranch h f g
  | None => ∀ g, onBranch h x g → ¬ onBranch h t g
  end.
Proof. destruct Ht as [tn Ht], Hx as [xn Hx]. by eapply findFork_spec. Qed.

Lemma findFork_correct_witness :
  findFork (bi_heap (demoIndex 6)) (viewOf (bi_heap (demoIndex 6)) 3) (Some 5%nat) = Some 3%nat
  ∧ onBranch (bi_heap (demoIndex 6)) 5 3.
Proof.
  split; [vm_compute; reflexivity|].
  pose proof (findFork_correct (bi_heap (demoIndex 6)) 3 5 demo_wf) as H.
  replace (findFork (bi_heap (demoIndex 6)) (viewOf (bi_heap (demoIndex 6)) 3) (Some 5%nat))
    with (Some 3%nat) in H by (vm_compute; reflexivity).
  apply H; vm_compute; eexists; reflexivity.
Defined.

(** ** Block locators *)
Lemma log2Round_spec k rv n : 0 < k <= 16 → 0 <= rv → 0 < n < 2 ^ (2 * k) → rv + k < 256 →
  let '(rv', n') := log2Round (Z.shiftl (Z.ones k) k) k (rv, n) in
  rv' + Z.log2 n' = rv + Z.log2 n ∧ 0 < n' < 2 ^ k ∧ rv <= rv' <= rv + k.
Proof.
  intros Hk Hrv Hn Hlt. unfold log2Round.
  assert (Hp : 0 < 2 ^ k) by (apply Z.pow_pos_nonneg; lia).
  assert (E : Z.land n (Z.shiftl (Z.ones k) k) = Z.shiftl (Z.shiftr n k) k).
  { apply Z.bits_inj'. intros i Hi. rewrite Z.land_spec, !Z.shiftl_spec by lia.
    destruct (decide (i < k)); [by rewrite !(Z.testbit_neg_r _ (i - k)), andb_false_r by lia|].
    rewrite Z.shiftr_spec by lia. replace (i - k + k) with i by lia.
    rewrite Z.testbit_ones_nonneg by lia. destruct (Z.ltb_spec (i - k) k); [by rewrite andb_true_r|].
    rewrite andb_false_r. rewrite <- (Z.mod_small n (2 ^ (2 * k))) by lia.
    symmetry. apply Z.mod_pow2_bits_high. lia. }
  rewrite E, Z.shiftl_mul_pow2, Z.shiftr_div_pow2 by lia.
  destruct (decide (n < 2 ^ k)).
  - rewrite Z.div_small, Z.mul_0_l by lia. cbv beta iota delta [Z.eqb negb]. split; [done|lia].
  - assert (0 < n / 2 ^ k) by (apply Z.div_str_pos; lia).
    destruct (Z.eqb_spec (n / 2 ^ k * 2 ^ k) 0); [nia|]. cbn [negb].
    rewrite wrapU_small by (unfold inU; lia).
    split; [|split; [|lia]].
    + rewrite <- (Z.shiftr_div_pow2 n k), Z.log2_shiftr by lia.
      assert (k <= Z.log2 n) by (apply Z.log2_le_pow2; lia). lia.
    + split; [done|]. apply Z.div_lt_upper_bound; [done|].
      rewrite <- Z.pow_add_r by lia. replace (k + k) with (2 * k) by lia. lia.
Qed.

Lemma fastLog2Floor_spec n : 0 < n < 2 ^ 32 → fastLog2Floor n = Z.log2 n.
Proof.
  intros Hn. unfold fastLog2Floor.
  change (log2Round 0xffff0000 16) with (log2Round (Z.shiftl (Z.ones 16) 16) 16).
  change (log2Round 0xff00 8) with (log2Round (Z.shiftl (Z.ones 8) 8) 8).
  change (log2Round 0xf0 4) with (log2Round (Z.shiftl (Z.ones 4) 4) 4).
  change (log2Round 0xc 2) with (log2Round (Z.shiftl (Z.ones 2) 2) 2).
  change (log2Round 0x2 1) with (log2Round (Z.shiftl (Z.ones 1) 1) 1).
  pose proof (log2Round_spec 16 0 n ltac:(lia) ltac:(lia) Hn ltac:(lia)) as H1.
  destruct (log2Round _ 16 _) as [r1 n1]. destruct H1 as (E1 & B1 & R1).
  pose proof (log2Round_spec 8 r1 n1 ltac:(lia) ltac:(lia) B1 ltac:(lia)) as H2.
  destruct (log2Round _ 8 _) as [r2 n2]. destruct H2 as (E2 & B2 & R2).
  pose proof (log2Round_spec 4 r2 n2 ltac:(lia) ltac:(lia) B2 ltac:(lia)) as H3.
  destruct (log2Round _ 4 _) as [r3 n3]. destruct H3 as (E3 & B3 & R3).
  pose proof (log2Round_spec 2 r3 n3 ltac:(lia) ltac:(lia) B3 ltac:(lia)) as H4.
  destruct (log2Round _ 2 _) as [r4 n4]. destruct H4 as (E4 & B4 & R4).
  pose proof (log2Round_spec 1 r4 n4 ltac:(lia) ltac:(lia) B4 ltac:(lia)) as H5.
  destruct (log2Round _ 1 _) as [r5 n5]. destruct H5 as (E5 & B5 & R5).
  assert (n5 = 1) as -> by lia. cbn [fst]. change (Z.log2 1) with 0 in E5. lia.
Qed.

(** The heights a locator visits, computed on unbounded integers. *)
Fixpoint locHeights (fuel : nat) (hgt : Z) (n : nat) (step : Z) : list Z :=
  match fuel with
  | O => []
  | S fuel' => hgt :: if hgt =? 0 then []
      else locHeights fuel' (Z.max 0 (hgt - step)) (S n) (if (10 <? S n)%nat then 2 * step else step)
  end.

Section locators.
Context (h : heap) (Hwf : wfHeap h) (t : ptr) (tn : blockNode) (Ht : h !! t = Some tn).

Definition hashAt (p : ptr) (pn : blockNode) (k : Z) : option bytes :=
  a ← walk h (Z.to_nat (bn_height pn - k)) p; bn_hash <$> h !! a.

Lemma step_bound (k : nat) s : s = 2 ^ Z.of_nat k → 1 <= s → s <= 2 ^ 31 - 1 → s <= 2 ^ 30.
Proof.
  intros -> H1 H2. destruct (decide (k <= 30)%nat).
  - apply Z.pow_le_mono_r; lia.
  - pose proof (Z.pow_le_mono_r 2 31 (Z.of_nat k)). lia.
Qed.

Lemma locatorLoop_spec p pn fuel x xn n (k : nat) :
  h !! p = Some pn → h !! x = Some xn → walk h (Z.to_nat (bn_height pn - bn_height xn)) p = Some x →
  bn_height xn <= bn_height pn - (2 ^ Z.of_nat k - 1) ∨ bn_height xn = 0 →
  bn_height xn < Z.of_nat fuel →
  Some <$> locatorLoop fuel h (viewOf h t) (Some x) n (2 ^ Z.of_nat k)
  = hashAt p pn <$> locHeights fuel (bn_height xn) n (2 ^ Z.of_nat k).
Proof.
  intros Hp. pose proof (wf_range h Hwf p pn Hp) as Hpr.
  revert x xn n k. induction fuel as [|fuel IH]; intros x xn n k Hx Hw Hs Hf.
  { done. }
  pose proof (wf_range h Hwf x xn Hx) as Hxr.
  cbn [locatorLoop locHeights]. rewrite Hx. csimpl.
  assert (Hhead : hashAt p pn (bn_height xn) = Some (bn_hash xn)).
  { unfold hashAt. rewrite Hw. cbn. by rewrite Hx. }
  rewrite Hhead. f_equal. destruct (Z.eqb_spec (bn_height xn) 0); [done|].
  destruct Hs as [Hs|]; [|done].
  assert (1 <= 2 ^ Z.of_nat k) by (apply (Z.pow_le_mono_r 2 0); lia).
  assert (Hk30 : 2 ^ Z.of_nat k <= 2 ^ 30) by (apply (step_bound k); [done|done|lia]).
  rewrite (wrapS_small 32) by (unfold inS; lia).
  set (h' := if bn_height xn - 2 ^ Z.of_nat k <? 0 then 0 else bn_height xn - 2 ^ Z.of_nat k).
  assert (Eh : h' = Z.max 0 (bn_height xn - 2 ^ Z.of_nat k)).
  { unfold h'. destruct (Z.ltb_spec (bn_height xn - 2 ^ Z.of_nat k) 0); lia. }
  clearbody h'. rewrite <- Eh.
  destruct (walk_spec h Hwf (Z.to_nat (bn_height xn - h')) x xn Hx ltac:(lia))
    as (a & an & Ha & Han & Hah). rewrite Z2Nat.id in Hah by lia.
  assert (Enext : (if contains h (viewOf h t) x then mjoin (viewOf h t !! Z.to_nat h')
                   else Ancestor h x h') = Some a).
  { destruct (contains h (viewOf h t) x) eqn:Ec.
    - apply (contains_view h Hwf t tn) in Ec; [|done].
      destruct (onBranch_height h Hwf t tn x Ht Ec) as (xn' & Hx' & Hle & Hwt).
      assert (xn' = xn) as -> by congruence.
      rewrite (lookup_viewOf h t tn) by (done || lia). cbn. rewrite <- Ha.
      rewrite <- (walk_add _ _ _ _ _ Hwt). f_equal. lia.
    - by rewrite (Ancestor_walk h Hwf x xn) by (done || lia). }
  rewrite Enext. replace h' with (bn_height an) by lia.
  assert (Hwa : walk h (Z.to_nat (bn_height pn - bn_height an)) p = Some a).
  { rewrite <- Ha, <- (walk_add _ _ _ _ _ Hw). f_equal. lia. }
  destruct (decide (bn_height an = 0)) as [E0|].
  { destruct fuel as [|fuel]; [lia|]. cbn [locatorLoop locHeights]. rewrite Han, E0. csimpl.
    f_equal. unfold hashAt. rewrite E0 in Hwa. rewrite Hwa. cbn. by rewrite Han. }
  destruct (10 <? S n)%nat.
  - rewrite (wrapS_small 32) by (unfold inS; lia).
    replace (2 ^ Z.of_nat k * 2) with (2 ^ Z.of_nat (S k)) by (rewrite Nat2Z.inj_succ, Z.pow_succ_r; lia).
    replace (2 * 2 ^ Z.of_nat k) with (2 ^ Z.of_nat (S k)) by (rewrite Nat2Z.inj_succ, Z.pow_succ_r; lia).
    apply IH; [done|done| |lia]. rewrite Nat2Z.inj_succ, Z.pow_succ_r by lia. lia.
  - apply IH; [done|done| |lia]. lia.
Qed.
End locators.

Lemma locHeights_last fuel hgt n step : 0 <= hgt < Z.of_nat fuel → 1 <= step →
  last (locHeights fuel hgt n step) = Some 0.
Proof.
  revert hgt n step. induction fuel as [|fuel IH]; intros hgt n step Hh Hs; [lia|].
  cbn [locHeights]. destruct (Z.eqb_spec hgt 0) as [->|]; [done|].
  rewrite last_cons, IH; [done|lia|]. destruct (10 <? S n)%nat; lia.
Qed.

Lemma locHeights_sorted fuel hgt n step : 0 <= hgt → 1 <= step →
  StronglySorted Z.gt (locHeights fuel hgt n step)
  ∧ Forall (λ k, 0 <= k <= hgt) (locHeights fuel hgt n step).
Proof.
  revert hgt n step. induction fuel as [|fuel IH]; intros hgt n step Hh Hs; [split; constructor|].
  cbn [locHeights]. destruct (Z.eqb_spec hgt 0) as [->|].
  { split; repeat constructor; lia. }
  destruct (IH (Z.max 0 (hgt - step)) (S n) (if (10 <? S n)%nat then 2 * step else step)) as [H1 H2];
    [lia|destruct (10 <? S n)%nat; lia|].
  split; constructor; [done| |lia|]; (eapply Forall_impl; [exact H2|]; cbn; lia).
Qed.

Lemma locHeights_length fuel hgt n step (m : nat) : 0 <= hgt < step * 2 ^ Z.of_nat m → (10 <= n)%nat → 1 <= step →
  (length (locHeights fuel hgt n step) <= m + 2)%nat.
Proof.
  revert hgt n step m. induction fuel as [|fuel IH]; intros hgt n step m Hh Hn Hs; [cbn; lia|].
  cbn [locHeights length]. destruct (Z.eqb_spec hgt 0); [cbn; lia|].
  destruct (Nat.ltb_spec 10 (S n)); [|lia]. destruct m as [|m].
  - rewrite Z.pow_0_r in Hh. replace (Z.max 0 (hgt - step)) with 0 by lia.
    destruct fuel; cbn; lia.
  - rewrite Nat2Z.inj_succ, Z.pow_succ_r in Hh by lia.
    enough (length (locHeights fuel (Z.max 0 (hgt - step)) (S n) (2 * step)) <= m + 2)%nat by lia.
    apply IH; [|lia|lia]. assert (0 < 2 ^ Z.of_nat m) by (apply Z.pow_pos_nonneg; lia). nia.
Qed.

Lemma locHeights_length0 d fuel hgt n (m : nat) : (n + d = 10)%nat → 0 <= hgt < 2 ^ Z.of_nat m →
  (length (locHeights fuel hgt n 1) <= d + m + 2)%nat.
Proof.
  revert fuel hgt n. induction d as [|d IH]; intros fuel hgt n Hn Hh.
  - apply (locHeights_length fuel hgt n 1 m); lia.
  - destruct fuel as [|fuel]; [cbn; lia|]. cbn [locHeights length].
    destruct (Z.eqb_spec hgt 0); [cbn; lia|]. destruct (Nat.ltb_spec 10 (S n)); [lia|].
    pose proof (IH fuel (Z.max 0 (hgt - 1)) (S n) ltac:(lia) ltac:(lia)). lia.
Qed.

(** A block locator from any node lists blocks of the node's own branch at
    strictly falling heights, from the node itself down to its genesis block,
    in at most 43 entries whatever the chain length (the int32 step that
    doubles never overflows into a visited height). *)
Lemma blockLocator_correct (h : heap) (t p : ptr) (pn : blockNode)
  (Hwf : wfHeap h) (Ht : is_Some (h !! t)) (Hp : h !! p = Some pn) :
  ∃ hs, Some <$> blockLocator h (viewOf h t) (Some p) = hashAt h p pn <$> hs
    ∧ head hs = Some (bn_height pn) ∧ last hs = Some 0
    ∧ StronglySorted Z.gt hs ∧ Forall (λ k, 0 <= k <= bn_height pn) hs
    ∧ (length hs <= 43)%nat.
Proof.
  destruct Ht as [tn Ht]. pose proof (wf_range h Hwf p pn Hp).
  exists (locHeights (S (Z.to_nat (bn_height pn))) (bn_height pn) 0 1).
  destruct (locHeights_sorted (S (Z.to_nat (bn_height pn))) (bn_height pn) 0 1) as [H1 H2]; [lia|lia|].
  split; [|split; [done|split; [apply locHeights_last; lia|split; [done|split; [done|]]]]].
  - unfold blockLocator. rewrite Hp. change 1 with (2 ^ Z.of_nat 0).
    eapply locatorLoop_spec; [done|done|done|done| | |]; [by rewrite Z.sub_diag|lia|lia].
  - apply (locHeights_length0 10 _ _ 0 31); [done|]. change (Z.of_nat 31) with 31. lia.
Qed.

Lemma blockLocator_correct_witness :
  length (blockLocator (bi_heap (demoIndex 6)) (viewOf (bi_heap (demoIndex 6)) 6) (Some 6%nat)) = 7%nat
  ∧ ∃ hs, head hs = Some 6 ∧ last hs = Some 0 ∧ (length hs <= 43)%nat.
Proof.
  destruct (bi_heap (demoIndex 6) !! 6%nat) as [nd|] eqn:E; [|vm_compute in E; discriminate].
  destruct (blockLocator_correct (bi_heap (demoIndex 6)) 6 6 nd demo_wf) as (hs & H1 & H2 & H3 & _ & _ & H4);
    [by eexists|exact E|].
  split; [vm_compute; reflexivity|]. exists hs. split; [|by split].
  rewrite H2. vm_compute in E. injection E as <-. reflexivity.
Defined.

(** ** Cumulative work *)
Lemma CalcWork_pos bits : 0 < CompactToBig bits < 2 ^ 256 → 0 < CalcWork bits.
Proof.
  intros H. unfold CalcWork. destruct (Z.leb_spec (CompactToBig bits) 0); [lia|].
  apply Z.div_str_pos. lia.
Qed.

Lemma CalcWork_nonneg bits : 0 <= CalcWork bits.
Proof.
  unfold CalcWork. destruct (Z.leb_spec (CompactToBig bits) 0); [lia|]. apply Z.div_pos; lia.
Qed.

(** The work of the [k] blocks from [p] back. *)
Fixpoint branchWork (h : heap) (k : nat) (p : ptr) : Z :=
  match k, h !! p with
  | S k', Some nd => CalcWork (bn_bits nd) + match bn_parent nd with
                                             | Some q => branchWork h k' q
                                             | None => 0
                                             end
  | _, _ => 0
  end.

(** The cumulative work that selects the best chain is the sum of the work
    of every block of the branch, the genesis block included, so a block's
    work exceeds each proper ancestor's whenever its own bits are a valid
    target. *)
Lemma workSum_is_branch_work (sha256 : bytes → bytes) (bi : blockIndex) (p : ptr) (nd : blockNode)
  (Hreach : rtc (indexStep sha256) newBlockIndex bi) (Hp : bi_heap bi !! p = Some nd) :
  bn_workSum nd = branchWork (bi_heap bi) (S (Z.to_nat (bn_height nd))) p
  ∧ ∀ k a an, walk (bi_heap bi) (S k) p = Some a → bi_heap bi !! a = Some an →
      0 < CompactToBig (bn_bits nd) < 2 ^ 256 → bn_workSum an < bn_workSum nd.
Proof.
  destruct (reachable_wf sha256 bi Hreach) as (Hwf & _). set (h := bi_heap bi) in *. clearbody h.
  clear Hreach. assert (Hle : ∀ k x xn a an, h !! x = Some xn → walk h k x = Some a →
    h !! a = Some an → bn_workSum an <= bn_workSum xn).
  { induction k as [|k IH]; intros x xn a an Hx Hw Ha; cbn in Hw.
    - injection Hw as ->. assert (an = xn) as -> by congruence. lia.
    - rewrite Hx in Hw. cbn in Hw. destruct (bn_parent xn) as [q|] eqn:Hq; [|done]. cbn in Hw.
      destruct (wf_parent h Hwf x xn q Hx Hq) as (qn & Hqn & _ & Hwk).
      pose proof (IH q qn a an Hqn Hw Ha). pose proof (CalcWork_nonneg (bn_bits xn)). lia. }
  split.
  - remember (Z.to_nat (bn_height nd)) as k eqn:Ek. revert p nd Hp Ek.
    induction k as [|k IH]; intros p nd Hp Ek; pose proof (wf_range h Hwf p nd Hp);
      cbn [branchWork]; rewrite Hp; destruct (bn_parent nd) as [q|] eqn:Hq.
    + destruct (wf_parent h Hwf p nd q Hp Hq) as (qn & Hqn & Hh & _).
      pose proof (wf_range h Hwf q qn Hqn). lia.
    + destruct (wf_root h Hwf p nd Hp Hq) as [_ ->]. lia.
    + destruct (wf_parent h Hwf p nd q Hp Hq) as (qn & Hqn & Hh & ->).
      rewrite (IH q qn Hqn ltac:(lia)). cbn [branchWork]. lia.
    + destruct (wf_root h Hwf p nd Hp Hq). lia.
  - intros k a an Hw Ha Hb. cbn in Hw. rewrite Hp in Hw. cbn in Hw.
    destruct (bn_parent nd) as [q|] eqn:Hq; [|done]. cbn in Hw.
    destruct (wf_parent h Hwf p nd q Hp Hq) as (qn & Hqn & _ & ->).
    pose proof (Hle k q qn a an Hqn Hw Ha). pose proof (CalcWork_pos _ Hb). lia.
Qed.

Lemma workSum_is_branch_work_witness :
  ∃ nd, bi_heap (demoIndex 6) !! 6%nat = Some nd
    ∧ bn_workSum nd = branchWork (bi_heap (demoIndex 6)) 7 6.
Proof.
  destruct (bi_heap (demoIndex 6) !! 6%nat) as [nd|] eqn:E; [|vm_compute in E; discriminate].
  exists nd. split; [done|].
  rewrite (proj1 (workSum_is_branch_work demoSha (demoIndex 6) 6 nd demo_reachable E)).
  vm_compute in E. injection E as <-. reflexivity.
Defined.
