(* ===== verification/Merkle.v ===== *)
(** * Merkle trees and the witness commitment
    (src/node/blockchain/merkle.go, src/node/blockchain/rolling_merkle.go)

    The linear-array tree store, the rolling (stack based) computation of the
    root that block validation uses, and the witness commitment of the
    coinbase.  The reference is the level-by-level definition of the root. *)
From Stdlib Require Import ZArith Lia Strings.Byte.
From stdpp Require Import base list sets.
From S2P Require Import Prelude RuleErrors WireTx WireBlock.
Open Scope Z_scope.

Definition CoinbaseWitnessDataLen : nat := 32.
Definition CoinbaseWitnessPkScriptLength : nat := 38.
Definition WitnessMagicBytes : bytes := [x6a; x24; xaa; x21; xa9; xed].
Definition zeroHash : bytes := replicate 32 x00.

(** [uint(math.Log2(float64(n)))] is the exact floor for the sizes a block can
    have (the float computation is exact below 2^47). *)
Definition nextPowerOfTwo (n : Z) : Z :=
  if Z.land n (n - 1) =? 0 then n else Z.shiftl 1 (Z.log2 n + 1).

Section merkle.
Context (sha256 : bytes → bytes).

Definition HashMerkleBranches (left right : bytes) : bytes := DoubleHashH sha256 (left ++ right).

(** The leaf of transaction [i]. *)
Definition leafOf (witness : bool) (i : nat) (tx : MsgTx) : bytes :=
  if witness && (i =? 0)%nat then zeroHash
  else if witness then WitnessHash sha256 tx else TxHash sha256 tx.

(** ** The linear array *)
Definition combine (l r : option bytes) : option bytes :=
  match l, r with
  | None, _ => None
  | Some a, None => Some (HashMerkleBranches a a)
  | Some a, Some b => Some (HashMerkleBranches a b)
  end.

(** The loop over [i = 0, 2, ...] with its running [offset]. *)
Fixpoint buildLoop (fuel : nat) (i offset : nat) (merkles : list (option bytes))
  : list (option bytes) :=
  match fuel with
  | O => merkles
  | S fuel' =>
      buildLoop fuel' (i + 2) (S offset)
        (<[offset := combine (mjoin (merkles !! i)) (mjoin (merkles !! S i))]> merkles)
  end.

(** The iterations of [for i := 0; i < arraySize-1; i += 2] are
    [arraySize / 2]. *)
Definition buildStore (leaves : list bytes) : list (option bytes) :=
  let nextPoT := Z.to_nat (nextPowerOfTwo (Z.of_nat (length leaves))) in
  let arraySize := (nextPoT * 2 - 1)%nat in
  buildLoop (arraySize / 2) 0 nextPoT
    ((Some <$> leaves) ++ replicate (arraySize - length leaves) None).

Definition BuildMerkleTreeStore (transactions : list MsgTx) (witness : bool) : list (option bytes) :=
  buildStore (imap (leafOf witness) transactions).

(** ** The rolling store: [roots] is kept with the top of the stack (the last
    element of the Go slice) first. *)
Record rollingMerkleTreeStore := mkRolling { roots : list bytes; numLeaves : Z }.

Definition newRollingMerkleTreeStore : rollingMerkleTreeStore := mkRolling [] 0.

(** The loop of [add]: [None] is the run-time panic of popping an empty slice. *)
Fixpoint addLoop (fuel : nat) (n h : Z) (rs : list bytes) (newRoot : bytes) : option (list bytes) :=
  match fuel with
  | O => None
  | S fuel' =>
      if Z.land (Z.shiftr n h) 1 =? 1 then
        match rs with
        | [] => None
        | root :: rs' => addLoop fuel' n (h + 1) rs' (HashMerkleBranches root newRoot)
        end
      else Some (newRoot :: rs)
  end.

Definition add (s : rollingMerkleTreeStore) (x : bytes) : option rollingMerkleTreeStore :=
  rs ← addLoop 65 (numLeaves s) 0 (roots s) x;
  Some (mkRolling rs (u64 (numLeaves s + 1))).

Fixpoint addAll (s : rollingMerkleTreeStore) (l : list bytes) : option rollingMerkleTreeStore :=
  match l with
  | [] => Some s
  | x :: l' => s' ← add s x; addAll s' l'
  end.

(** [for h := 0; (currentLeaves>>h)&1 == 0; h++ { numLeaves >>= 1 }] *)
Fixpoint stripLoop (fuel : nat) (currentLeaves h n : Z) : Z :=
  match fuel with
  | O => n
  | S fuel' => if Z.land (Z.shiftr currentLeaves h) 1 =? 0
               then stripLoop fuel' currentLeaves (h + 1) (Z.shiftr n 1) else n
  end.

(** The loop that duplicates the last root until one is left. *)
Fixpoint rollLoop (fuel : nat) (s : rollingMerkleTreeStore) : option bytes :=
  match fuel with
  | O => None
  | S fuel' =>
      match roots s with
      | [] => None                     (* s.roots[0] panics *)
      | [r] => Some r
      | top :: _ =>
          s' ← add (mkRolling (roots s) (stripLoop 64 (numLeaves s) 0 (numLeaves s))) top;
          rollLoop fuel' s'
      end
  end.

Definition calcMerkleRoot (leaves : list bytes) (lastHash : option bytes) : option bytes :=
  s ← addAll newRollingMerkleTreeStore leaves;
  if numLeaves s =? 1 then last (roots s) else
  s ← (if (0 <? length leaves)%nat && negb (length leaves mod 2 =? 0)%nat
       then (x ← lastHash; add s x) else Some s);
  rollLoop (S (length leaves)) s.

(** The hash added when the number of transactions is odd is the last one's
    own, never the zero hash. *)
Definition CalcMerkleRoot (transactions : list MsgTx) (witness : bool) : option bytes :=
  calcMerkleRoot (imap (leafOf witness) transactions)
    ((if witness then WitnessHash sha256 else TxHash sha256) <$> last transactions).

(** ** Reference: the root, level by level *)
Fixpoint levelUp (l : list bytes) : list bytes :=
  match l with
  | a :: b :: l' => HashMerkleBranches a b :: levelUp l'
  | [a] => [HashMerkleBranches a a]
  | [] => []
  end.

Fixpoint rootF (fuel : nat) (l : list bytes) : option bytes :=
  match fuel with
  | O => None
  | S fuel' => match l with
               | [] => None
               | [a] => Some a
               | _ => rootF fuel' (levelUp l)
               end
  end.

Definition merkleRoot (l : list bytes) : option bytes := rootF (S (length l)) l.
End merkle.

(** ** Facts about levels *)
Section facts.
Context (sha256 : bytes → bytes).
Abbreviation H := (HashMerkleBranches sha256).
Abbreviation up := (levelUp sha256).

(** Induction two elements at a time. *)
Lemma pair_ind {A} (P : list A → Prop) :
  P [] → (∀ a, P [a]) → (∀ a b l, P l → P (a :: b :: l)) → ∀ l, P l.
Proof.
  intros H0 H1 H2 l. assert (P l ∧ ∀ a, P (a :: l)) as [? _]; [|done].
  induction l as [|b l [IH1 IH2]]; [auto|]. split; [done|]. intros a. by apply H2.
Qed.

Lemma length_up l : length (up l) = ((length l + 1) / 2)%nat.
Proof.
  induction l as [|a|a b l IH] using pair_ind; [done|done|]. cbn [levelUp length]. rewrite IH.
  replace (S (S (length l)) + 1)%nat with ((length l + 1) + 1 * 2)%nat by lia.
  rewrite Nat.div_add by lia. lia.
Qed.

Lemma up_app_even l l' : Nat.even (length l) = true → up (l ++ l') = up l ++ up l'.
Proof.
  induction l as [|a|a b l IH] using pair_ind; [done|done|]. cbn. intros. by rewrite IH.
Qed.

Lemma up_dup l x : Nat.even (length l) = true → up (l ++ [x]) = up (l ++ [x; x]).
Proof. intros Hl. by rewrite !up_app_even. Qed.

Inductive isRoot : list bytes → bytes → Prop :=
| root_one a : isRoot [a] a
| root_up l r : (2 <= length l)%nat → isRoot (up l) r → isRoot l r.

Lemma up_shorter l : (2 <= length l)%nat → (length (up l) < length l)%nat.
Proof. intros. rewrite length_up. apply Nat.Div0.div_lt_upper_bound. lia. Qed.

Lemma isRoot_rootF l r fuel : isRoot l r → (length l <= fuel)%nat → rootF sha256 fuel l = Some r.
Proof.
  intros Hr. revert fuel. induction Hr as [a|l r Hl Hr IH]; intros fuel Hf.
  - destruct fuel; [cbn in Hf; lia|done].
  - pose proof (up_shorter l Hl). destruct fuel as [|fuel]; [lia|].
    destruct l as [|a [|b l]]; [cbn in Hl; lia|cbn in Hl; lia|]. apply IH. lia.
Qed.

Lemma isRoot_merkleRoot l r : isRoot l r → merkleRoot sha256 l = Some r.
Proof. intros Hr. apply isRoot_rootF; [done|lia]. Qed.

Lemma isRoot_exists l : l ≠ [] → ∃ r, isRoot l r.
Proof.
  remember (length l) as n eqn:E. revert l E. induction n as [n IH] using lt_wf_ind. intros l -> Hl.
  destruct l as [|a [|b l]]; [done|eexists; constructor|].
  destruct (IH (length (up (a :: b :: l)))) with (l := up (a :: b :: l)) as [r Hr];
    [apply up_shorter; cbn; lia|done|done|]. exists r. constructor; [cbn; lia|done].
Qed.

(** ** The roots of the perfect trees over a row of nodes, last tree first *)
Inductive forest : list bytes → list bytes → Prop :=
| forest_nil : forest [] []
| forest_even l rs : l ≠ [] → Nat.even (length l) = true → forest (up l) rs → forest l rs
| forest_odd l x rs : Nat.even (length l) = true → forest l rs → forest (l ++ [x]) (x :: rs).

Lemma shiftr_bit n h : 0 <= h → (Z.land (Z.shiftr n h) 1 =? 1) = Z.testbit n h.
Proof.
  intros Hh. change 1 with (Z.ones 1) at 1. rewrite Z.land_ones by lia.
  rewrite Z.testbit_odd.
  change (2 ^ 1) with 2. rewrite Zmod_odd. by destruct (Z.odd _).
Qed.

Lemma addLoop_half fuel m (b : bool) h rs x : 0 <= h →
  addLoop sha256 fuel (2 * m + Z.b2z b) (h + 1) rs x = addLoop sha256 fuel m h rs x.
Proof.
  revert h rs x. induction fuel as [|fuel IH]; intros h rs x Hh; [done|]. cbn [addLoop].
  rewrite !shiftr_bit by lia.
  replace (Z.testbit (2 * m + Z.b2z b) (h + 1)) with (Z.testbit m h).
  2:{ rewrite Z.add_1_r. symmetry. apply Z.testbit_succ_r. lia. }
  destruct (Z.testbit m h); [|done]. destruct rs as [|r rs]; [done|]. apply IH. lia.
Qed.

Lemma even_snoc {A} (l : list A) : Nat.even (length l) = false → ∃ l' x, l = l' ++ [x] ∧ Nat.even (length l') = true.
Proof.
  destruct l as [|x l] using rev_ind; [done|]. clear IHl.
  rewrite length_app, Nat.add_1_r, Nat.even_succ. intros Hl. exists l, x. split; [done|].
  rewrite <- Nat.negb_odd, Hl. done.
Qed.

Lemma addLoop_forest fuel l rs x : forest l rs → Z.of_nat (length l) + 1 < 2 ^ Z.of_nat fuel →
  ∃ rs', addLoop sha256 fuel (Z.of_nat (length l)) 0 rs x = Some rs' ∧ forest (l ++ [x]) rs'.
Proof.
  revert l rs x. induction fuel as [|fuel IH]; intros l rs x Hf Hlen; [cbn in Hlen; lia|].
  cbn [addLoop]. rewrite shiftr_bit by lia. rewrite Z.bit0_odd.
  destruct (Nat.even (length l)) eqn:Ev.
  - assert (Z.odd (Z.of_nat (length l)) = false) as ->.
    { apply Nat.even_spec in Ev as [k ->]. rewrite Nat2Z.inj_mul, Z.odd_mul. done. }
    eexists. split; [done|]. by constructor.
  - assert (Hodd : ∃ l0 y rs0, l = l0 ++ [y] ∧ rs = y :: rs0 ∧ forest l0 rs0 ∧ Nat.even (length l0) = true).
    { destruct Hf as [|l rs Hne Hev _|l0 y rs0 Hev Hf]; [done|congruence|]. by exists l0, y, rs0. }
    destruct Hodd as (l0 & y & rs0 & -> & -> & Hf0 & Hev0).
    rewrite length_app in *. cbn [length] in *. apply Nat.even_spec in Hev0 as Hk. destruct Hk as [k Hk].
    replace (Z.of_nat (length l0 + 1)) with (2 * Z.of_nat k + Z.b2z true) by (cbn; lia).
    rewrite Z.odd_add, Z.odd_mul. cbn [Z.odd Z.b2z andb xorb].
    change (addLoop sha256 fuel (2 * Z.of_nat k + 1) (0 + 1) rs0 (H y x))
      with (addLoop sha256 fuel (2 * Z.of_nat k + Z.b2z true) (0 + 1) rs0 (H y x)).
    rewrite addLoop_half by lia.
    assert (Hup : length (up l0) = k).
    { rewrite length_up, Hk. rewrite (Nat.mul_comm 2), Nat.div_add_l by lia. cbn. lia. }
    assert (Hfu : forest (up l0) rs0).
    { destruct Hf0 as [|l rs Hne Hev Hf0|l1 z rs1 Hev1 Hf1].
      - constructor.
      - done.
      - rewrite length_app, Nat.add_1_r, Nat.even_succ, <- Nat.negb_even, Hev1 in Hev0. done. }
    rewrite Nat2Z.inj_succ, Z.pow_succ_r in Hlen by lia.
    destruct (IH (up l0) rs0 (H y x) Hfu ltac:(lia)) as (rs' & E & Hf').
    rewrite Hup in E. exists rs'. split; [exact E|].
    rewrite <- app_assoc. cbn [app]. apply forest_even.
    + by destruct l0.
    + rewrite length_app, Nat.even_add, Hev0. done.
    + by rewrite up_app_even.
Qed.

(** A store that holds the row [l]. *)
Definition holds (s : rollingMerkleTreeStore) (l : list bytes) : Prop :=
  forest l (roots s) ∧ numLeaves s = Z.of_nat (length l).

Lemma add_holds s l x : holds s l → Z.of_nat (length l) + 1 < 2 ^ 64 →
  ∃ s', add sha256 s x = Some s' ∧ holds s' (l ++ [x]).
Proof.
  intros [Hf Hn] Hlen. unfold add. rewrite Hn.
  destruct (addLoop_forest 65 l (roots s) x Hf) as (rs & -> & Hf'); [change (Z.of_nat 65) with 65; lia|].
  eexists. split; [reflexivity|]. split; [done|]. cbn [numLeaves].
  rewrite length_app, Nat2Z.inj_add. cbn. apply wrapU_small. unfold inU. lia.
Qed.

Lemma addAll_holds s l l' : holds s l → Z.of_nat (length l + length l') < 2 ^ 64 →
  ∃ s', addAll sha256 s l' = Some s' ∧ holds s' (l ++ l').
Proof.
  revert s l. induction l' as [|x l' IH]; intros s l Hs Hlen.
  - exists s. rewrite app_nil_r. done.
  - cbn [addAll length] in *. destruct (add_holds s l x Hs ltac:(lia)) as (s1 & -> & Hs1).
    cbn [mbind option_bind]. destruct (IH s1 (l ++ [x]) Hs1) as (s2 & -> & Hs2);
      [rewrite length_app; cbn; lia|]. exists s2. split; [done|]. by rewrite <- app_assoc in Hs2.
Qed.

Lemma stripLoop_holds fuel cur h l rs : 0 <= h → l ≠ [] → forest l rs →
  Z.of_nat (length l) < 2 ^ Z.of_nat fuel → Z.shiftr cur h = Z.of_nat (length l) →
  ∃ l', stripLoop fuel cur h (Z.of_nat (length l)) = Z.of_nat (length l')
    ∧ Nat.even (length l') = false ∧ forest l' rs ∧ (∀ r, isRoot l' r → isRoot l r)
    ∧ (Nat.even (length l) = true → 2 * length l' <= length l)%nat ∧ (length l' <= length l)%nat.
Proof.
  revert h l. induction fuel as [|fuel IH]; intros h l Hh Hne Hf Hlen Hcur.
  { destruct l; [done|cbn in Hlen; lia]. }
  cbn [stripLoop]. rewrite Hcur. change 1 with (Z.ones 1). rewrite Z.land_ones by lia.
  change (2 ^ 1) with 2. rewrite Zmod_odd. destruct (Nat.even (length l)) eqn:Ev.
  - apply Nat.even_spec in Ev as Hk. destruct Hk as [k Hk].
    replace (Z.odd (Z.of_nat (length l))) with false
      by (rewrite Hk, Nat2Z.inj_mul, Z.odd_mul; done).
    change (Z.ones 1) with 1. cbn [Z.eqb].
    destruct Hf as [|l rs _ _ Hf|l x rs Hev Hf]; [done| |].
    2:{ rewrite length_app, Nat.add_1_r, Nat.even_succ, <- Nat.negb_even, Hev in Ev. done. }
    assert (Hup : length (up l) = k).
    { rewrite length_up, Hk. rewrite (Nat.mul_comm 2), Nat.div_add_l by lia. cbn. lia. }
    assert (Hsh : Z.shiftr (Z.of_nat (length l)) 1 = Z.of_nat (length (up l))).
    { rewrite Z.shiftr_div_pow2 by lia. change (2 ^ 1) with 2. rewrite Hup, Hk, Nat2Z.inj_mul.
      rewrite Z.mul_comm, Z.div_mul; lia. }
    rewrite Nat2Z.inj_succ, Z.pow_succ_r in Hlen by lia.
    destruct (IH (h + 1) (up l)) as (l' & E & Hodd & Hf' & Hr & _ & Hle).
    + lia.
    + intros E. destruct l; [done|]. apply (f_equal length) in E. rewrite Hup in E. cbn in *. lia.
    + done.
    + lia.
    + rewrite <- Z.shiftr_shiftr by lia. rewrite Hcur. done.
    + exists l'. rewrite Hsh. split; [done|]. split; [done|]. split; [done|]. split; [|split; [lia|lia]].
      intros r Hr'. apply root_up; [destruct l; [done|cbn in *; lia]|auto].
  - replace (Z.odd (Z.of_nat (length l))) with true.
    2:{ rewrite <- Nat.negb_odd in Ev. apply negb_false_iff, Nat.odd_spec in Ev as [k Hk].
        rewrite Hk, Nat2Z.inj_add, Nat2Z.inj_mul, Z.odd_add, Z.odd_mul. done. }
    cbn [Z.eqb]. exists l. split; [done|]. split; [done|]. split; [done|]. split; [done|].
    split; [congruence|lia].
Qed.

Lemma forest_nil_inv l rs : forest l rs → rs = [] → l = [].
Proof.
  induction 1 as [|l rs Hne Hev Hf IH|]; [done| |done]. intros ->.
  destruct l as [|a [|b l]]; [done|done|]. by specialize (IH eq_refl).
Qed.

Lemma forest_of_nil rs : forest [] rs → rs = [].
Proof.
  intros Hf. remember [] as l eqn:E. destruct Hf as [|l rs Hne|l x rs]; [done|done|].
  by destruct l.
Qed.

Lemma forest_single l r : forest l [r] → isRoot l r.
Proof.
  intros Hf. remember [r] as rs eqn:E. induction Hf as [|l rs Hne Hev Hf IH|l x rs Hev Hf IH]; [done| |].
  - apply root_up; [|auto]. destruct l as [|? [|? ?]]; [done|done|cbn; lia].
  - injection E as -> ->. rewrite (forest_nil_inv l [] Hf eq_refl). constructor.
Qed.

Lemma rollLoop_root fuel s l : holds s l → l ≠ [] → Nat.even (length l) = true →
  (length l <= fuel)%nat → Z.of_nat (length l) < 2 ^ 63 →
  ∃ r, rollLoop sha256 fuel s = Some r ∧ isRoot l r.
Proof.
  revert s l. induction fuel as [|fuel IH]; intros s l Hs Hne Hev Hf Hb.
  { destruct l; [done|cbn in Hf; lia]. }
  pose proof Hs as [Hfor Hn]. cbn [rollLoop].
  destruct (roots s) as [|top [|r2 rs]] eqn:Er.
  - by rewrite (forest_nil_inv l [] Hfor eq_refl) in Hne.
  - exists top. split; [done|]. by apply forest_single.
  - rewrite Hn.
    destruct (stripLoop_holds 64 (Z.of_nat (length l)) 0 l (top :: r2 :: rs)) as
      (l' & -> & Hodd & Hf' & Hroot & Hhalf & _);
      [lia|done|done|change (Z.of_nat 64) with 64; lia|by rewrite Z.shiftr_0_r|].
    specialize (Hhalf Hev).
    destruct (add_holds (mkRolling (top :: r2 :: rs) (Z.of_nat (length l'))) l' top) as (s' & -> & Hs');
      [done|lia|]. cbn [mbind option_bind].
    assert (Hl' : ∃ l0, l' = l0 ++ [top] ∧ Nat.even (length l0) = true ∧ l0 ≠ []).
    { inversion Hf' as [|? ? ? Hev' ?|l0 x rs0 Hev' Hf0]; subst; [congruence|].
      exists l0. split; [done|]. split; [done|]. intros ->. by apply forest_of_nil in Hf0. }
    destruct Hl' as (l0 & -> & Hev0 & Hne0). rewrite <- app_assoc in Hs'. cbn [app] in Hs'.
    rewrite length_app in *. cbn [length] in *.
    assert (2 <= length l0)%nat by (destruct l0 as [|? [|? ?]]; [done|done|cbn; lia]).
    destruct (IH s' (l0 ++ [top; top]) Hs') as (r & E & Hr).
    + by destruct l0.
    + rewrite length_app, Nat.even_add, Hev0. done.
    + rewrite length_app. cbn. lia.
    + rewrite length_app. cbn. lia.
    + exists r. split; [done|]. apply Hroot. apply root_up; [rewrite length_app; cbn; lia|].
      rewrite up_dup by done. inversion Hr as [a Ea|? ? ? Hr']; subst; [|done].
      apply (f_equal length) in Ea. rewrite length_app in Ea. cbn in Ea. lia.
Qed.

Lemma calcMerkleRoot_root leaves : leaves ≠ [] → Z.of_nat (length leaves) < 2 ^ 62 →
  ∃ r, (∀ lh, (Nat.even (length leaves) = false → (1 < length leaves)%nat → lh = last leaves) →
          calcMerkleRoot sha256 leaves lh = Some r) ∧ isRoot leaves r.
Proof.
  intros Hne Hlen. destruct (addAll_holds newRollingMerkleTreeStore [] leaves) as (s & Es & Hs);
    [split; [constructor|done]|cbn; lia|]. cbn [app] in Hs. unfold calcMerkleRoot. rewrite Es.
  cbn [mbind option_bind]. pose proof Hs as [Hf Hn].
  destruct (Z.eqb_spec (numLeaves s) 1) as [E1|Hn1].
  { assert (length leaves = 1%nat) as Hl by lia. destruct leaves as [|a [|]]; [done| |done].
    exists a. split; [|constructor]. intros lh _. remember [a] as la eqn:Ea. remember (roots s) as rs eqn:Er.
    destruct Hf as [|l rs Hne2 He|l x rs ? Hf0]; [done|by subst|].
    destruct l as [|? [|? ?]]; [|done|done]. injection Ea as ->.
    by rewrite (forest_of_nil _ Hf0). }
  destruct (Nat.even (length leaves)) eqn:Ev.
  - assert (Hm : (length leaves mod 2 =? 0)%nat = true).
    { apply Nat.even_spec in Ev as [k ->]. rewrite Nat.mul_comm, Nat.Div0.mod_mul. done. }
    rewrite Hm, andb_false_r.
    destruct (rollLoop_root (S (length leaves)) s leaves Hs) as (r & Er & Hr); [done|done|lia|lia|].
    exists r. split; [|done]. intros lh _. done.
  - destruct (even_snoc leaves Ev) as (l0 & x & -> & Hev0).
    assert (Hm : (length (l0 ++ [x]) mod 2 =? 0)%nat = false).
    { apply Nat.even_spec in Hev0 as [k Hk]. rewrite length_app, Hk. cbn [length].
      rewrite Nat.add_comm, Nat.mul_comm, Nat.Div0.mod_add. done. }
    rewrite Hm. destruct (Nat.ltb_spec 0 (length (l0 ++ [x]))); [|rewrite length_app in *; cbn in *; lia].
    cbn [andb negb]. destruct (add_holds s _ x Hs ltac:(lia)) as (s' & Es' & Hs').
    rewrite <- app_assoc in Hs'. cbn [app] in Hs'. rewrite length_app in *. cbn [length] in *.
    destruct (rollLoop_root (S (length l0 + 1)) s' (l0 ++ [x; x]) Hs') as (r & Er & Hr).
    + by destruct l0.
    + rewrite length_app, Nat.even_add, Hev0. done.
    + rewrite length_app. cbn. lia.
    + rewrite length_app. cbn. lia.
    + exists r. split.
      * intros lh Hlh. rewrite Hlh by (done || lia). rewrite last_snoc. cbn [mbind option_bind].
        rewrite Es'. cbn [mbind option_bind]. exact Er.
      * apply root_up; [rewrite length_app; cbn; lia|]. rewrite up_dup by done.
        inversion Hr as [a Ea|? ? ? Hr']; subst; [|done].
        apply (f_equal length) in Ea. rewrite length_app in Ea. cbn in Ea. lia.
Qed.
End facts.

(** ** The linear array holds the same root *)
Lemma nextPowerOfTwo_spec n : 0 < n → ∃ k : nat, nextPowerOfTwo n = 2 ^ Z.of_nat k
  ∧ n <= 2 ^ Z.of_nat k ∧ (n = 1 ∧ k = 0%nat ∨ 2 ^ Z.of_nat k < 2 * n ∧ (0 < k)%nat).
Proof.
  intros Hn. pose proof (Z.log2_spec n Hn) as [H1 H2]. pose proof (Z.log2_nonneg n).
  unfold nextPowerOfTwo. destruct (Z.eqb_spec (Z.land n (n - 1)) 0) as [E|Hnz].
  - assert (n = 2 ^ Z.log2 n) as E2.
    { destruct (decide (n = 2 ^ Z.log2 n)) as [|Hne]; [done|]. exfalso.
      assert (Hl : Z.log2 (n - 1) = Z.log2 n) by (apply Z.log2_unique; lia).
      assert (Hb : Z.testbit (Z.land n (n - 1)) (Z.log2 n) = true).
      { rewrite Z.land_spec, Z.bit_log2 by lia. rewrite <- Hl. by rewrite Z.bit_log2 by lia. }
      by rewrite E, Z.testbit_0_l in Hb. }
    exists (Z.to_nat (Z.log2 n)). rewrite Z2Nat.id by done. split; [done|]. split; [lia|].
    destruct (decide (n = 1)) as [->|]; [left; done|]. right. split; [lia|].
    destruct (decide (Z.log2 n = 0)) as [E0|]; [rewrite E0 in E2; cbn in E2; lia|lia].
  - exists (S (Z.to_nat (Z.log2 n))). rewrite Nat2Z.inj_succ, Z2Nat.id by done.
    rewrite Z.shiftl_1_l. split; [done|]. split; [lia|]. right. rewrite Z.pow_succ_r by done.
    assert (n ≠ 2 ^ Z.log2 n); [|lia]. intros E. apply Hnz. rewrite E at 2.
    rewrite Z.sub_1_r, <- Z.ones_equiv, Z.land_ones by done. rewrite E at 1.
    apply Z.mod_same. lia.
Qed.

Section array.
Context (sha256 : bytes → bytes).

Lemma lookup_up l m :
  levelUp sha256 l !! m = combine sha256 (l !! (2 * m)%nat) (l !! (2 * m + 1)%nat).
Proof.
  revert m. induction l as [|a|a b l IH] using pair_ind; intros m.
  - by rewrite !lookup_nil.
  - destruct m as [|m]; [done|]. cbn [levelUp]. rewrite lookup_cons_ne_0 by lia.
    rewrite !lookup_ge_None_2 by (cbn; lia). done.
  - destruct m as [|m]; [done|]. cbn [levelUp]. cbn [lookup list_lookup]. rewrite IH.
    replace (2 * S m)%nat with (S (S (2 * m))) by lia. done.
Qed.

Lemma buildLoop_spec fuel i off arr :
  (off + fuel <= length arr)%nat → (fuel = 0 ∨ i + fuel < off)%nat →
  let arr' := buildLoop sha256 fuel i off arr in
  length arr' = length arr ∧ (∀ j, (j < off)%nat → arr' !! j = arr !! j)
  ∧ ∀ m, (m < fuel)%nat → arr' !! (off + m)%nat =
      Some (combine sha256 (mjoin (arr' !! (i + 2 * m)%nat)) (mjoin (arr' !! (i + 2 * m + 1)%nat))).
Proof.
  revert i off arr. induction fuel as [|fuel IH]; intros i off arr Hlen Hi; cbn [buildLoop].
  { split; [done|]. split; [done|]. lia. }
  set (v := combine sha256 _ _).
  destruct (IH (i + 2)%nat (S off) (<[off := v]> arr)) as (Hl & Hlow & Hset);
    [rewrite length_insert; lia|lia|].
  rewrite length_insert in Hl. split; [done|]. split.
  - intros j Hj. rewrite Hlow, list_lookup_insert_ne by lia. done.
  - intros [|m] Hm.
    + rewrite Nat.add_0_r, Hlow, list_lookup_insert_eq by lia. unfold v. f_equal.
      rewrite !Hlow, !list_lookup_insert_ne by lia.
      f_equal; do 2 f_equal; lia.
    + replace (off + S m)%nat with (S off + m)%nat by lia. rewrite Hset by lia.
      do 2 f_equal; do 2 f_equal; lia.
Qed.

(** An array whose tail is computed from its front. *)
Definition treeArray (P : nat) (arr : list (option bytes)) : Prop :=
  length arr = (2 * P - 1)%nat ∧
  ∀ m, (m < P - 1)%nat → mjoin (arr !! (P + m)%nat)
    = combine sha256 (mjoin (arr !! (2 * m)%nat)) (mjoin (arr !! (2 * m + 1)%nat)).

Lemma treeArray_root k P arr l : P = (2 ^ k)%nat → treeArray P arr →
  (∀ i, (i < P)%nat → mjoin (arr !! i) = l !! i) →
  (length l <= P)%nat → (length l = 1%nat ∧ k = 0%nat ∨ (P < 2 * length l)%nat ∧ (0 < k)%nat) →
  ∃ r, last arr = Some (Some r) ∧ isRoot sha256 l r.
Proof.
  revert P arr l. induction k as [|k IH]; intros P arr l -> [Hlen Hset] Hbase Hle Hsz.
  - destruct Hsz as [[Hl _]|[_ ?]]; [|lia]. destruct l as [|x [|]]; [done| |done].
    exists x. split; [|constructor]. specialize (Hbase 0%nat ltac:(cbn; lia)). cbn in Hlen, Hbase.
    destruct arr as [|[y|] [|]]; try done. cbn in *. by injection Hbase as ->.
  - destruct Hsz as [[_ ?]|[Hsz _]]; [done|].
    assert (Hp : (2 ^ S k = 2 * 2 ^ k)%nat) by done. set (Q := (2 ^ k)%nat) in *.
    assert (1 <= Q)%nat by (unfold Q; pose proof (Nat.pow_nonzero 2 k); lia).
    rewrite Hp in *. assert (2 <= length l)%nat by lia.
    destruct (IH Q (drop (2 * Q) arr) (levelUp sha256 l)) as (r & Er & Hr).
    + done.
    + split; [rewrite length_drop; lia|]. intros m Hm. rewrite !lookup_drop.
      replace (2 * Q + (Q + m))%nat with (2 * Q + (Q + m))%nat by done.
      rewrite Hset by lia. f_equal; do 2 f_equal; lia.
    + intros i Hi. rewrite lookup_drop, Hset, !Hbase, lookup_up by lia. done.
    + rewrite length_up. pose proof (Nat.div_mod_eq (length l + 1) 2).
      pose proof (Nat.mod_upper_bound (length l + 1) 2). lia.
    + rewrite length_up. destruct (decide (k = 0)%nat) as [->|].
      * left. split; [|done]. assert (length l = 2)%nat as -> by (unfold Q in *; cbn in *; lia). done.
      * right. split; [|lia].
        pose proof (Nat.div_mod_eq (length l + 1) 2). pose proof (Nat.mod_upper_bound (length l + 1) 2). lia.
    + exists r. split; [|by constructor].
      rewrite last_lookup, lookup_drop, length_drop in Er. rewrite last_lookup, <- Er. f_equal. lia.
Qed.

Lemma buildStore_root leaves : leaves ≠ [] →
  ∃ r, last (buildStore sha256 leaves) = Some (Some r) ∧ isRoot sha256 leaves r.
Proof.
  intros Hne. assert (Hn : 0 < Z.of_nat (length leaves)) by (destruct leaves; [done|cbn; lia]).
  destruct (nextPowerOfTwo_spec _ Hn) as (k & Hk & Hle & Hsz). unfold buildStore. rewrite Hk.
  replace (Z.to_nat (2 ^ Z.of_nat k)) with (2 ^ k)%nat
    by (rewrite <- (Nat2Z.id (2 ^ k)), Nat2Z.inj_pow; done).
  assert (Hz : 2 ^ Z.of_nat k = Z.of_nat (2 ^ k)) by (rewrite Nat2Z.inj_pow; done).
  rewrite Hz in *. set (P := (2 ^ k)%nat) in *.
  assert (1 <= P)%nat by (unfold P; pose proof (Nat.pow_nonzero 2 k); lia).
  assert (Hhalf : ((P * 2 - 1) / 2 = P - 1)%nat).
  { symmetry. apply Nat.div_unique with 1%nat; lia. }
  rewrite Hhalf.
  set (arr := (Some <$> leaves) ++ replicate (P * 2 - 1 - length leaves) None).
  assert (Harr : length arr = (P * 2 - 1)%nat)
    by (unfold arr; rewrite length_app, length_fmap, length_replicate; lia).
  destruct (buildLoop_spec (P - 1) 0 P arr) as (Hl & Hlow & Hset); [lia|lia|].
  apply (treeArray_root k P); [done| | |lia|].
  - split; [lia|]. intros m Hm. rewrite Hset by lia. cbn [mjoin option_join]. done.
  - intros i Hi. rewrite Hlow by done. unfold arr. destruct (decide (i < length leaves)%nat) as [Hlt|Hge].
    + rewrite lookup_app_l by (by rewrite length_fmap). rewrite list_lookup_fmap.
      by destruct (leaves !! i).
    + rewrite lookup_app_r by (rewrite length_fmap; lia). rewrite length_fmap.
      rewrite lookup_replicate_2 by lia. rewrite lookup_ge_None_2 by lia. done.
  - destruct Hsz as [[? ->]|[? ?]]; [left|right]; lia.
Qed.
End array.

(** ** Coinbase transactions and the witness commitment *)
Definition IsCoinBaseTx (msgTx : MsgTx) : bool :=
  match tx_TxIn msgTx with
  | [ti] => (op_Index (ti_PreviousOutPoint ti) =? 4294967295)
            && bool_decide (op_Hash (ti_PreviousOutPoint ti) = zeroHash)
  | _ => false
  end.

(** The last output that carries a commitment wins: the loop runs backwards. *)
Fixpoint findCommitment (outs : list TxOut) : option bytes :=
  match outs with
  | [] => None
  | o :: outs' =>
      if (CoinbaseWitnessPkScriptLength <=? length (to_PkScript o))%nat
         && bool_decide (take 6 (to_PkScript o) = WitnessMagicBytes)
      then Some (slice 6 CoinbaseWitnessPkScriptLength (to_PkScript o))
      else findCommitment outs'
  end.

Definition ExtractWitnessCommitment (tx : MsgTx) : option bytes :=
  if negb (IsCoinBaseTx tx) then None else findCommitment (reverse (tx_TxOut tx)).

Section commitment.
Context (sha256 : bytes → bytes).

(** [blk] is the list of the block's transactions; [None] of [CalcMerkleRoot]
    (the panic on an empty block) cannot arise after the first check. *)
Definition ValidateWitnessCommitment (blk : list MsgTx) : res verr unit :=
  match blk with
  | [] => Err (ruleError ErrNoTransactions)
  | coinbaseTx :: _ =>
      match tx_TxIn coinbaseTx with
      | [] => Err (ruleError ErrNoTxInputs)
      | cbIn :: _ =>
          match ExtractWitnessCommitment coinbaseTx with
          | None => if existsb HasWitness blk then Err (ruleError ErrUnexpectedWitness) else Ok tt
          | Some witnessCommitment =>
              match ti_Witness cbIn with
              | [witnessNonce] =>
                  if negb (length witnessNonce =? CoinbaseWitnessDataLen)%nat
                  then Err (ruleError ErrInvalidWitnessCommitment) else
                  match CalcMerkleRoot sha256 blk true with
                  | None => Err RuntimePanic
                  | Some witnessMerkleRoot =>
                      if bool_decide (DoubleHashH sha256 (witnessMerkleRoot ++ witnessNonce)
                                      = witnessCommitment)
                      then Ok tt else Err (ruleError ErrWitnessCommitmentMismatch)
                  end
              | _ => Err (ruleError ErrInvalidWitnessCommitment)
              end
          end
      end
  end.

Lemma CalcMerkleRoot_isRoot txs witness : txs ≠ [] → Z.of_nat (length txs) < 2 ^ 62 →
  ∃ r, CalcMerkleRoot sha256 txs witness = Some r
    ∧ isRoot sha256 (imap (leafOf sha256 witness) txs) r.
Proof.
  intros Hne Hlen.
  destruct (calcMerkleRoot_root sha256 (imap (leafOf sha256 witness) txs)) as (r & Hc & Hr).
  { intros E. apply (f_equal length) in E. rewrite length_imap in E. by destruct txs. }
  { by rewrite length_imap. }
  exists r. split; [|done]. apply Hc. rewrite length_imap. intros Hodd Hgt.
  rewrite !last_lookup, length_imap, list_lookup_imap.
  destruct (txs !! pred (length txs)) as [tx|] eqn:E; [|done]. cbn. f_equal. unfold leafOf.
  destruct (Nat.eqb_spec (pred (length txs)) 0); [lia|]. rewrite andb_false_r. by destruct witness.
Qed.

(** C27. The optimised root is the tree's root: for every block of at least one
    transaction, with or without witness leaves, the rolling computation used
    by validation never panics, terminates within the bound of its loops, and
    returns the root that the level-by-level definition gives and that
    [BuildMerkleTreeStore] leaves in the last slot of its array. *)
Theorem merkle_root_equivalence (txs : list MsgTx) (witness : bool)
  (Hne : txs ≠ []) (Hlen : Z.of_nat (length txs) < 2 ^ 62) :
  ∃ r, CalcMerkleRoot sha256 txs witness = Some r
    ∧ last (BuildMerkleTreeStore sha256 txs witness) = Some (Some r)
    ∧ merkleRoot sha256 (imap (leafOf sha256 witness) txs) = Some r.
Proof.
  destruct (CalcMerkleRoot_isRoot txs witness Hne Hlen) as (r & Hc & Hr). exists r.
  apply isRoot_merkleRoot in Hr. split; [done|]. split; [|done].
  destruct (buildStore_root sha256 (imap (leafOf sha256 witness) txs)) as (r' & Hb & Hr').
  { intros E. apply (f_equal length) in E. rewrite length_imap in E. by destruct txs. }
  apply isRoot_merkleRoot in Hr'. assert (r' = r) as -> by congruence. exact Hb.
Qed.
End commitment.

Definition demoTx (i : Z) : MsgTx :=
  mkMsgTx 1 [mkTxIn (mkOutPoint (replicate 32 (z2b i)) i) [] [] 0] [mkTxOut i [x6a]] 0.

Lemma merkle_root_equivalence_witness :
  let sha (b : bytes) := take 32 (reverse b ++ replicate 32 x01) in
  CalcMerkleRoot sha [demoTx 1; demoTx 2; demoTx 3] false
  = mjoin (last (BuildMerkleTreeStore sha [demoTx 1; demoTx 2; demoTx 3] false)).
Proof.
  cbv zeta. destruct (merkle_root_equivalence
    (λ b, take 32 (reverse b ++ replicate 32 x01)) [demoTx 1; demoTx 2; demoTx 3] false)
    as (r & -> & -> & _); [done|cbn; lia|reflexivity].
Defined.

(** ** What the root commits to *)
Section binding.
Context (sha256 : bytes → bytes) (Hsha : ∀ b, length (sha256 b) = 32%nat).

(** The strings hashed for one level of the tree, and for all of it. *)
Fixpoint levelStrings (l : list bytes) : list bytes :=
  match l with
  | a :: b :: l' => (a ++ b) :: levelStrings l'
  | [a] => [a ++ a]
  | [] => []
  end.
Fixpoint treeStrings (fuel : nat) (l : list bytes) : list bytes :=
  match fuel, l with
  | S fuel', _ :: _ :: _ => levelStrings l ++ treeStrings fuel' (levelUp sha256 l)
  | _, _ => []
  end.

(** The strings hashed twice for the witness commitment of a block: the nodes of
    the tree, and its root with the nonce. *)
Definition commitmentStrings (blk : list MsgTx) : list bytes :=
  let leaves := imap (leafOf sha256 true) blk in
  let nonce := match blk with cb :: _ => default [] (head (tx_TxIn cb) ≫= λ ti, head (ti_Witness ti)) | [] => [] end in
  (default [] (CalcMerkleRoot sha256 blk true) ++ nonce) :: treeStrings (length leaves) leaves.

(** A collision of the double hash between strings of two lists. *)
Definition collisionIn (S S' : list bytes) : Prop :=
  ∃ x y, x ∈ S ∧ y ∈ S' ∧ x ≠ y ∧ DoubleHashH sha256 x = DoubleHashH sha256 y.

Lemma collisionIn_mono S S' T T' : S ⊆ T → S' ⊆ T' → collisionIn S S' → collisionIn T T'.
Proof. intros H H' (x & y & Hx & Hy & E). exists x, y. split; [by apply H|]. split; [by apply H'|done]. Qed.

Definition hashes (l : list bytes) : Prop := Forall (λ h, length h = 32%nat) l.

Lemma branches_binding a b c d : length a = length c →
  HashMerkleBranches sha256 a b = HashMerkleBranches sha256 c d → (a = c ∧ b = d) ∨ collisionIn [a ++ b] [c ++ d].
Proof.
  intros Hl E. unfold HashMerkleBranches in E.
  destruct (decide (a ++ b = c ++ d)) as [Heq|Hne].
  - left. by apply app_inj_1 in Heq.
  - right. exists (a ++ b), (c ++ d). split; [by left|]. by split; [left|].
Qed.

Lemma up_hashes l : hashes (levelUp sha256 l).
Proof.
  induction l as [|a|a b l IH] using pair_ind; cbn [levelUp]; repeat constructor; try done;
    unfold HashMerkleBranches, DoubleHashH; apply Hsha.
Qed.

Lemma up_binding l l' : hashes l → hashes l' → length l = length l' →
  levelUp sha256 l = levelUp sha256 l' → l = l' ∨ collisionIn (levelStrings l) (levelStrings l').
Proof.
  revert l'. induction l as [|a|a b l IH] using pair_ind; intros l' Hl Hl' Hlen E.
  - destruct l'; [by left|done].
  - destruct l' as [|a' [|]]; [done| |done]. cbn [levelUp] in E. injection E as E.
    apply Forall_cons in Hl as [Ha _]. apply Forall_cons in Hl' as [Ha' _].
    destruct (branches_binding a a a' a') as [[-> _]|]; [congruence|done|by left|by right].
  - destruct l' as [|a' [|b' l']]; [done|done|]. cbn [levelUp] in E. injection E as E1 E2.
    apply Forall_cons in Hl as [Ha [_ Hl]%Forall_cons]. apply Forall_cons in Hl' as [Ha' [_ Hl']%Forall_cons].
    cbn [levelStrings].
    destruct (branches_binding a b a' b') as [[-> ->]|Hc]; [congruence|done| |right; revert Hc; apply collisionIn_mono; set_solver].
    destruct (IH l' Hl Hl' ltac:(cbn in Hlen; lia) E2) as [->|Hc]; [by left|right; revert Hc; apply collisionIn_mono; set_solver].
Qed.

Lemma isRoot_binding fuel l l' r : (length l <= fuel)%nat → hashes l → hashes l' → length l = length l' →
  isRoot sha256 l r → isRoot sha256 l' r → l = l' ∨ collisionIn (treeStrings fuel l) (treeStrings fuel l').
Proof.
  intros Hf Hl Hl' Hlen Hr. revert fuel Hf l' Hl' Hlen. induction Hr as [a|l r H2 Hr IH]; intros fuel Hf l' Hl' Hlen Hr'.
  - inversion Hr' as [|? ? H2]; subst; [by left|]. rewrite <- Hlen in H2. cbn in H2. lia.
  - inversion Hr' as [a Ea|? ? H2' Hr2]; subst; [cbn in Hlen; lia|].
    pose proof (up_shorter sha256 l H2). destruct fuel as [|fuel]; [lia|].
    destruct (IH (up_hashes l) fuel ltac:(lia) (levelUp sha256 l')) as [E|Hc]; [apply up_hashes| |done| |].
    { by rewrite !length_up, Hlen. }
    + destruct (up_binding l l' Hl Hl' Hlen E) as [->|Hc]; [by left|right; revert Hc; apply collisionIn_mono];
        destruct l as [|? [|? ?]], l' as [|? [|? ?]]; cbn in H2, H2'; try lia; set_solver.
    + right. revert Hc. apply collisionIn_mono; destruct l as [|? [|? ?]], l' as [|? [|? ?]]; cbn in H2, H2'; try lia; set_solver.
Qed.

Lemma leaves_hashes w txs : hashes (imap (leafOf sha256 w) txs).
Proof.
  apply Forall_lookup. intros i x Hx. rewrite list_lookup_imap in Hx.
  destruct (txs !! i) as [tx|]; [|done]. injection Hx as <-. unfold leafOf.
  destruct (w && (i =? 0)%nat); [done|]. unfold WitnessHash, TxHash, DoubleHashH.
  destruct w; [|apply Hsha]. destruct (HasWitness tx); apply Hsha.
Qed.

(** What a block that passes the check has hashed. *)
Lemma commitment_checked cb ts wc : ExtractWitnessCommitment cb = Some wc → Z.of_nat (length ts) < 2 ^ 61 →
  ValidateWitnessCommitment sha256 (cb :: ts) = Ok tt →
  ∃ ti w r, head (tx_TxIn cb) = Some ti ∧ ti_Witness ti = [w] ∧ CalcMerkleRoot sha256 (cb :: ts) true = Some r
    ∧ isRoot sha256 (imap (leafOf sha256 true) (cb :: ts)) r ∧ length r = 32%nat
    ∧ DoubleHashH sha256 (r ++ w) = wc.
Proof.
  intros Hwc Hts H. unfold ValidateWitnessCommitment in H.
  destruct (tx_TxIn cb) as [|ti tis]; [done|]. rewrite Hwc in H.
  destruct (ti_Witness ti) as [|w [|]] eqn:Ew; [done| |done].
  destruct (_ =? _)%nat; [|done]. cbn [negb] in H.
  destruct (CalcMerkleRoot_isRoot sha256 (cb :: ts) true) as (r & Hc & Hr); [done|cbn [length]; lia|].
  rewrite Hc in H. destruct (bool_decide _) eqn:E; [|done]. apply bool_decide_eq_true in E.
  exists ti, w, r. do 4 (split; [done|]). split; [|done].
  clear -Hr Hsha. pose proof (leaves_hashes true (cb :: ts)) as Hh.
  induction Hr as [a|l r H2 Hr IH]; [by apply Forall_cons in Hh as [? _]|]. apply IH, up_hashes.
Qed.

(** C36. The witness commitment is binding: if two blocks of the same size with
    the same coinbase, which carries a commitment, both pass the check, then all
    their transactions have the same witness hashes, unless two of the strings
    that are hashed for the two commitments collide under double SHA-256. *)
Theorem witness_commitment_binding (cb : MsgTx) (txs txs' : list MsgTx) (wc : bytes)
  (Hwc : ExtractWitnessCommitment cb = Some wc)
  (Hlen : length txs = length txs') (Hmax : Z.of_nat (length txs) < 2 ^ 61)
  (Hv : ValidateWitnessCommitment sha256 (cb :: txs) = Ok tt)
  (Hv' : ValidateWitnessCommitment sha256 (cb :: txs') = Ok tt) :
  WitnessHash sha256 <$> txs = WitnessHash sha256 <$> txs'
  ∨ collisionIn (commitmentStrings (cb :: txs)) (commitmentStrings (cb :: txs')).
Proof.
  destruct (commitment_checked cb txs wc Hwc Hmax Hv) as (ti & w & r & Ht & Hw & Hc & Hr & Hrl & Hd).
  destruct (commitment_checked cb txs' wc Hwc ltac:(lia) Hv') as (ti' & w' & r' & Ht' & Hw' & Hc' & Hr' & Hrl' & Hd').
  assert (ti' = ti) as -> by congruence. assert (w' = w) as -> by congruence.
  unfold commitmentStrings. rewrite Hc, Hc', Ht. cbn [mbind option_bind default]. rewrite Hw. cbn [head default from_option id].
  destruct (decide (r = r')) as [<-|Hne].
  - destruct (isRoot_binding _ _ _ r (Nat.le_refl _) (leaves_hashes true (cb :: txs)) (leaves_hashes true (cb :: txs')))
      as [E|Hcol]; [rewrite !length_imap; cbn; lia|done|done| |].
    + left. cbn in E. injection E as E. revert E. clear. revert txs'.
      induction txs as [|t txs IH]; intros [|t' txs'] E; try done.
      apply list_eq. intros i. apply (f_equal (lookup i)) in E.
      rewrite !list_lookup_imap in E. rewrite !list_lookup_fmap.
      destruct ((t :: txs) !! i), ((t' :: txs') !! i); done.
    + right. replace (length (imap _ (cb :: txs'))) with (length (imap (leafOf sha256 true) (cb :: txs)))
        by (rewrite !length_imap; cbn; lia).
      revert Hcol. apply collisionIn_mono; intros z Hz; by right.
  - right. exists (r ++ w), (r' ++ w). split; [by left|]. split; [by left|]. split; [|congruence]. intros E. apply Hne.
    by apply app_inj_1 in E; [destruct E|congruence].
Qed.
End binding.

(** The Merkle tree does not bind the number of transactions: an odd row and
    the same row with its last entry repeated have the same root. *)
Lemma merkle_duplicate_ambiguity sha256 l x r : Nat.even (length l) = true → l ≠ [] →
  isRoot sha256 (l ++ [x]) r ↔ isRoot sha256 (l ++ [x; x]) r.
Proof.
  intros Hev Hne. assert (1 <= length l)%nat by (destruct l; [done|cbn; lia]).
  split; intros Hr; inversion Hr as [a Ea|? ? H2 Hr2]; subst.
  1, 3: apply (f_equal length) in Ea; rewrite length_app in Ea; cbn in Ea; lia.
  all: apply root_up; [rewrite length_app; cbn; lia|].
  - by rewrite <- up_dup.
  - by rewrite up_dup.
Qed.

Definition toySha (b : bytes) : bytes := take 32 (b ++ replicate 32 x00).
Lemma toySha_length b : length (toySha b) = 32%nat.
Proof. unfold toySha. rewrite length_take, length_app, length_replicate. lia. Qed.

Definition demoCoinbase : MsgTx :=
  mkMsgTx 1 [mkTxIn (mkOutPoint zeroHash 4294967295) [x01; x01] [replicate 32 x07] 0]
    [mkTxOut 0 (WitnessMagicBytes ++ zeroHash)] 0.

Lemma witness_commitment_binding_witness :
  WitnessHash toySha <$> [demoTx 1] = WitnessHash toySha <$> [demoTx 1]
  ∨ collisionIn toySha (commitmentStrings toySha [demoCoinbase; demoTx 1]) (commitmentStrings toySha [demoCoinbase; demoTx 1]).
Proof.
  apply (witness_commitment_binding toySha toySha_length demoCoinbase [demoTx 1] [demoTx 1] zeroHash);
    vm_compute; reflexivity.
Defined.
