(* ===== verification/Script.v ===== *)
(** * Scripts: the tokenizer, script classes and script numbers
    (src/node/txscript/tokenizer.go, script.go, standard.go, scriptnum.go)

    [Next] steps a tokenizer over a raw script; everything that inspects
    scripts without executing them is a loop over it. *)
From Stdlib Require Import ZArith Lia Strings.Byte.
From stdpp Require Import base list sets gmap.
From S2P Require Import Prelude WireTx.
Open Scope Z_scope.

(** ** Opcodes *)
Definition OP_0 : Z := 0.
Definition OP_DATA_20 : Z := 0x14.
Definition OP_DATA_32 : Z := 0x20.
Definition OP_PUSHDATA1 : Z := 0x4c.
Definition OP_PUSHDATA2 : Z := 0x4d.
Definition OP_PUSHDATA4 : Z := 0x4e.
Definition OP_1 : Z := 0x51.
Definition OP_2 : Z := 0x52.
Definition OP_16 : Z := 0x60.
Definition OP_RETURN : Z := 0x6a.
Definition OP_EQUAL : Z := 0x87.
Definition OP_HASH160 : Z := 0xa9.

(** The [length] column of [opcodeArray]: the total length of a fixed-size
    opcode, or minus the number of length bytes of an OP_PUSHDATA. *)
Definition opcodeLength (op : Z) : Z :=
  if (1 <=? op) && (op <=? 75) then op + 1
  else if op =? OP_PUSHDATA1 then -1
  else if op =? OP_PUSHDATA2 then -2
  else if op =? OP_PUSHDATA4 then -4
  else 1.

Definition MaxScriptSize : Z := 10000.

(** ** Error codes (error.go) *)
Inductive scriptErr :=
| ErrInternal
| ErrInvalidFlags
| ErrInvalidIndex
| ErrUnsupportedAddress
| ErrTooMuchNullData
| ErrUnsupportedScriptVersion
| ErrEarlyReturn
| ErrEmptyStack
| ErrEvalFalse
| ErrScriptUnfinished
| ErrInvalidProgramCounter
| ErrScriptTooBig
| ErrElementTooBig
| ErrTooManyOperations
| ErrStackOverflow
| ErrNumberTooBig
| ErrVerify
| ErrEqualVerify
| ErrNumEqualVerify
| ErrCheckSigVerify
| ErrCheckMultiSigVerify
| ErrDisabledOpcode
| ErrReservedOpcode
| ErrMalformedPush
| ErrInvalidStackOperation
| ErrUnbalancedConditional
| ErrMinimalData
| ErrInvalidSigHashType
| ErrSigTooShort
| ErrSigTooLong
| ErrSigInvalidSeqID
| ErrSigInvalidDataLen
| ErrSigMissingSTypeID
| ErrSigMissingSLen
| ErrSigInvalidSLen
| ErrSigInvalidRIntID
| ErrSigZeroRLen
| ErrSigNegativeR
| ErrSigTooMuchRPadding
| ErrSigInvalidSIntID
| ErrSigZeroSLen
| ErrSigNegativeS
| ErrSigTooMuchSPadding
| ErrSigHighS
| ErrNotPushOnly
| ErrSigNullDummy
| ErrPubKeyType
| ErrCleanStack
| ErrNullFail
| ErrWitnessMalleated
| ErrWitnessMalleatedP2SH
| ErrDiscourageUpgradableNOPs
| ErrNegativeLockTime
| ErrUnsatisfiedLockTime
| ErrMinimalIf
| ErrDiscourageUpgradableWitnessProgram
| ErrWitnessProgramEmpty
| ErrWitnessProgramMismatch
| ErrWitnessProgramWrongLength
| ErrWitnessUnexpected
| ErrWitnessPubKeyType
| ErrDiscourageOpSuccess
| ErrDiscourageUpgradeableTaprootVersion
| ErrTapscriptCheckMultisig
| ErrDiscourageUpgradeablePubKeyType
| ErrTaprootSigInvalid
| ErrTaprootMerkleProofInvalid
| ErrTaprootOutputKeyParityMismatch
| ErrControlBlockTooSmall
| ErrControlBlockTooLarge
| ErrControlBlockInvalidLength
| ErrWitnessHasNoAnnex
| ErrInvalidTaprootSigLen
| ErrTaprootPubkeyIsEmpty
| ErrTaprootMaxSigOps
| ErrNonConstScriptCode
| ErrCodeSeparator
| ErrMerkleRootNoKeyPathSpend
| ErrMerkleRootMerkleProofInvalid
| ErrMerkleRootControlBlockInvalidParity.
#[export] Instance scriptErr_eq_dec : EqDecision scriptErr.
Proof. solve_decision. Defined.

(** ** The tokenizer *)
Record ScriptTokenizer := mkTok {
  t_script : bytes;
  t_offset : Z;                        (* int32 *)
  t_opcodePos : Z;
  t_op : Z;
  t_data : bytes;
  t_err : option scriptErr }.

Definition MakeScriptTokenizer (version : Z) (script : bytes) : ScriptTokenizer :=
  mkTok script 0 (-1) 0 [] (if version =? 0 then None else Some ErrUnsupportedScriptVersion).

Definition Done (t : ScriptTokenizer) : bool :=
  match t_err t with
  | Some _ => true
  | None => i32 (zlen (t_script t)) <=? t_offset t
  end.

(** One call of [Next]: whether a token was read, and the new state.  The
    slices [t.script[a:]] are [drop]s; [int32] conversions are written out. *)
Definition Next (t : ScriptTokenizer) : bool * ScriptTokenizer :=
  if Done t then (false, t) else
  let pos := t_opcodePos t + 1 in
  match t_script t !! Z.to_nat (t_offset t) with
  | None => (false, t)                 (* index out of range: excluded by Done *)
  | Some b =>
      let op := b2z b in
      let len := opcodeLength op in
      let fail := (false, mkTok (t_script t) (t_offset t) pos (t_op t) (t_data t) (Some ErrMalformedPush)) in
      if len =? 1 then
        (true, mkTok (t_script t) (t_offset t + 1) pos op [] None)
      else if 1 <? len then
        let script := drop (Z.to_nat (t_offset t)) (t_script t) in
        if zlen script <? len then fail
        else (true, mkTok (t_script t) (i32 (t_offset t + len)) pos op (slice 1 (Z.to_nat len) script) None)
      else
        let script := drop (Z.to_nat (t_offset t + 1)) (t_script t) in
        if zlen script <? - len then fail else
        let dataLen := i32 (le_decode (take (Z.to_nat (- len)) script)) in
        let script := drop (Z.to_nat (- len)) script in
        if (i32 (zlen script) <? dataLen) || (dataLen <? 0) then fail
        else (true, mkTok (t_script t) (i32 (t_offset t + (1 + - len + dataLen))) pos op
                      (take (Z.to_nat dataLen) script) None)
  end.

(** [for tokenizer.Next() { ... }] collects the tokens; the fuel is the length
    of the script, since every token has at least one byte. *)
Fixpoint tokensLoop (fuel : nat) (t : ScriptTokenizer) : list (Z * bytes) * ScriptTokenizer :=
  match fuel with
  | O => ([], t)
  | S fuel' =>
      match Next t with
      | (true, t') => let '(l, t'') := tokensLoop fuel' t' in ((t_op t', t_data t') :: l, t'')
      | (false, t') => ([], t')
      end
  end.

Definition tokens (script : bytes) : list (Z * bytes) * ScriptTokenizer :=
  tokensLoop (S (length script)) (MakeScriptTokenizer 0 script).

Definition checkScriptParses (script : bytes) : option scriptErr := t_err (tokens script).2.

Definition firstByteIs (op : Z) (script : bytes) : bool :=
  match script with b :: _ => b2z b =? op | [] => false end.

Definition IsUnspendable (pkScript : bytes) : bool :=
  if firstByteIs OP_RETURN pkScript then true
  else if MaxScriptSize <? zlen pkScript then true
  else bool_decide (is_Some (checkScriptParses pkScript)).

Definition IsPushOnlyScript (script : bytes) : bool :=
  let '(l, t) := tokens script in
  forallb (λ tok, tok.1 <=? OP_16) l && bool_decide (t_err t = None).

(** ** Script classes *)
Definition IsSmallInt (op : Z) : bool := (op =? OP_0) || ((OP_1 <=? op) && (op <=? OP_16)).
Definition AsSmallInt (op : Z) : Z := if op =? OP_0 then 0 else op - (OP_1 - 1).

Definition isCanonicalPush (opcode : Z) (data : bytes) : bool :=
  let dataLen := zlen data in
  if OP_16 <? opcode then true
  else if (opcode <? OP_PUSHDATA1) && (OP_0 <? opcode)
          && ((dataLen =? 1) && match data with b :: _ => b2z b <=? 16 | [] => false end) then false
  else if (opcode =? OP_PUSHDATA1) && (dataLen <? OP_PUSHDATA1) then false
  else if (opcode =? OP_PUSHDATA2) && (dataLen <=? 0xff) then false
  else if (opcode =? OP_PUSHDATA4) && (dataLen <=? 0xffff) then false
  else true.

Inductive ScriptClass := NonStandardTy | NullDataTy | WitnessV1TaprootTy | WitnessV2MerkleRootTy.
#[export] Instance ScriptClass_eq_dec : EqDecision ScriptClass.
Proof. solve_decision. Defined.

Definition isNullDataScript (script : bytes) : bool := firstByteIs OP_RETURN script.

(** OP_1 or OP_2 followed by a 32-byte push. *)
Definition witness32 (version : Z) (script : bytes) : option bytes :=
  match script with
  | a :: b :: prog => if (length script =? 34)%nat && (b2z a =? version) && (b2z b =? OP_DATA_32)
                      then Some prog else None
  | _ => None
  end.
Definition extractWitnessV1KeyBytes (script : bytes) : option bytes := witness32 OP_1 script.
Definition extractWitnessV2MerkleRootBytes (script : bytes) : option bytes := witness32 OP_2 script.
Definition isWitnessTaprootScript (script : bytes) : bool :=
  bool_decide (is_Some (extractWitnessV1KeyBytes script)).
Definition isWitnessMerkleRootScript (script : bytes) : bool :=
  bool_decide (is_Some (extractWitnessV2MerkleRootBytes script)).

Definition GetScriptClass (script : bytes) : ScriptClass :=
  if isNullDataScript script then NullDataTy
  else if isWitnessTaprootScript script then WitnessV1TaprootTy
  else if isWitnessMerkleRootScript script then WitnessV2MerkleRootTy
  else NonStandardTy.

(** Version and program of a witness program script. *)
Definition extractWitnessProgramInfo (script : bytes) : option (Z * bytes) :=
  if (zlen script <? 4) || (42 <? zlen script) then None else
  let '(ok, t1) := Next (MakeScriptTokenizer 0 script) in
  if negb ok || negb (IsSmallInt (t_op t1)) then None else
  let '(ok, t2) := Next t1 in
  if negb ok || negb (isCanonicalPush (t_op t2) (t_data t2)) then None else
  if Done t2 && bool_decide (t_err t2 = None) then Some (AsSmallInt (t_op t1), t_data t2) else None.

(** ** What the tokenizer accepts *)

(** The bytes of one instruction. *)
Definition pushLenBytes (op : Z) : nat :=
  if op =? OP_PUSHDATA1 then 1%nat else if op =? OP_PUSHDATA2 then 2%nat
  else if op =? OP_PUSHDATA4 then 4%nat else 0%nat.
Definition encTok (tok : Z * bytes) : bytes :=
  z2b tok.1 :: le_encode (pushLenBytes tok.1) (zlen tok.2) ++ tok.2.
Definition wfTok (tok : Z * bytes) : Prop :=
  inU 8 tok.1 ∧
  (if (1 <=? tok.1) && (tok.1 <=? 75) then zlen tok.2 = tok.1
   else if (0 <? pushLenBytes tok.1)%nat then zlen tok.2 < 2 ^ (8 * Z.of_nat (pushLenBytes tok.1))
   else tok.2 = []).

Definition okTok (t : ScriptTokenizer) : Prop :=
  t_err t = None ∧ zlen (t_script t) < 2 ^ 31 ∧ 0 <= t_offset t <= zlen (t_script t).
Definition restOf (t : ScriptTokenizer) : bytes := drop (Z.to_nat (t_offset t)) (t_script t).

Lemma length_restOf t : okTok t → zlen (restOf t) = zlen (t_script t) - t_offset t.
Proof. intros (_ & _ & H). unfold restOf, zlen in *. rewrite length_drop. lia. Qed.

Lemma i32_nonneg z : 0 <= z < 2 ^ 32 → 0 <= i32 z → i32 z = z.
Proof.
  intros Hz Hi. destruct (decide (z < 2 ^ 31)).
  - apply wrapS_small; [lia|unfold inS; lia].
  - exfalso. unfold wrapS in Hi. change (32 - 1) with 31 in Hi.
    replace (z + 2 ^ 31) with (z - 2 ^ 31 + 1 * 2 ^ 32) in Hi by lia.
    rewrite Z.mod_add, Z.mod_small in Hi by lia. lia.
Qed.

Lemma i32_len (l : bytes) : zlen l < 2 ^ 31 → i32 (zlen l) = zlen l.
Proof. intros H. apply wrapS_small; [lia|]. unfold inS, zlen in *. lia. Qed.

Lemma Done_ok t : okTok t → Done t = bool_decide (restOf t = []).
Proof.
  intros Ht. pose proof (length_restOf t Ht) as Hl. destruct Ht as (He & Hs & Ho).
  unfold Done. rewrite He, i32_len by done. case_bool_decide as E.
  - rewrite E in Hl. apply Z.leb_le. unfold zlen in *. cbn in Hl. lia.
  - apply Z.leb_gt. assert (0 < zlen (restOf t)); [|lia]. unfold zlen. destruct (restOf t); [done|cbn; lia].
Qed.

(** The cases of [opcodeLength]. *)
Lemma opcodeLength_cases op : inU 8 op →
  (1 <= op <= 75 ∧ opcodeLength op = op + 1 ∧ pushLenBytes op = 0%nat)
  ∨ (∃ n : nat, n ∈ [1; 2; 4]%nat ∧ pushLenBytes op = n ∧ opcodeLength op = - Z.of_nat n ∧ 75 < op)
  ∨ ((op < 1 ∨ 75 < op) ∧ opcodeLength op = 1 ∧ pushLenBytes op = 0%nat).
Proof.
  intros Hop. unfold opcodeLength, pushLenBytes, OP_PUSHDATA1, OP_PUSHDATA2, OP_PUSHDATA4.
  destruct (Z.leb_spec 1 op), (Z.leb_spec op 75); cbn [andb].
  - left. split; [lia|]. split; [done|].
    destruct (Z.eqb_spec op 0x4c), (Z.eqb_spec op 0x4d), (Z.eqb_spec op 0x4e); lia.
  - right. destruct (Z.eqb_spec op 0x4c); [left; exists 1%nat; split; [set_solver|lia]|].
    destruct (Z.eqb_spec op 0x4d); [left; exists 2%nat; split; [set_solver|lia]|].
    destruct (Z.eqb_spec op 0x4e); [left; exists 4%nat; split; [set_solver|lia]|].
    right. split; [lia|done].
  - right. right. destruct (Z.eqb_spec op 0x4c), (Z.eqb_spec op 0x4d), (Z.eqb_spec op 0x4e); lia.
  - lia.
Qed.

(** One token: [Next] succeeds exactly on an instruction. *)
Lemma Next_token t tok r : okTok t → wfTok tok → restOf t = encTok tok ++ r →
  ∃ t', Next t = (true, t') ∧ okTok t' ∧ restOf t' = r ∧ (t_op t', t_data t') = tok
    ∧ t_script t' = t_script t.
Proof.
  intros Ht [Hop Hw] Hrest. pose proof (length_restOf t Ht) as Hlen.
  pose proof Ht as (He & Hs & Ho). destruct tok as [op data]. cbn [fst snd] in *.
  unfold Next. rewrite Done_ok by done. rewrite bool_decide_eq_false_2 by (by rewrite Hrest).
  assert (Hhd : t_script t !! Z.to_nat (t_offset t) = Some (z2b op)).
  { assert (E : restOf t !! 0%nat = Some (z2b op)) by (by rewrite Hrest).
    unfold restOf in E. by rewrite lookup_drop, Nat.add_0_r in E. }
  rewrite Hhd, b2z_z2b. rewrite Z.mod_small by exact Hop.
  assert (Hr : ∀ k, (0 <= k)%nat → drop (Z.to_nat (t_offset t + Z.of_nat k)) (t_script t)
                = drop k (encTok (op, data) ++ r)).
  { intros k _. rewrite <- Hrest. unfold restOf. rewrite drop_drop. f_equal. lia. }
  rewrite Hrest in Hlen. unfold encTok in *. cbn [fst snd] in *.
  destruct (opcodeLength_cases op Hop) as [(Hr1 & HL & HP)|[(n & Hn & HP & HL & Hgt)|(Hr1 & HL & HP)]];
    rewrite HL, HP in *.
  - destruct (Z.leb_spec 1 op), (Z.leb_spec op 75); try lia. cbn [andb] in Hw.
    rewrite app_nil_l in *. replace (op + 1 =? 1) with false by (symmetry; apply Z.eqb_neq; lia).
    replace (1 <? op + 1) with true by (symmetry; apply Z.ltb_lt; lia). fold (restOf t). rewrite Hrest.
    unfold zlen in *. rewrite length_app in *. cbn [length app] in *.
    destruct (Z.ltb_spec (Z.of_nat (S (length data) + length r)) (op + 1)) as [Hbad|_]; [lia|].
    rewrite wrapS_small by (unfold inS; lia).
    eexists. split; [reflexivity|]. unfold okTok, restOf, zlen. cbn [t_err t_script t_offset t_op t_data].
    split; [split; [done|lia]|]. split; [|split; [|done]].
    + replace (op + 1) with (Z.of_nat (S (length data))) by lia. rewrite Hr by lia. cbn.
      by rewrite drop_app_length.
    + f_equal. replace (Z.to_nat (op + 1)) with (S (length data)) by lia.
      unfold slice. replace (S (length data) - 1)%nat with (length data) by lia.
      cbn [drop]. by rewrite drop_0, take_app_length.
  - assert (Hn0 : (0 < n)%nat) by (rewrite !elem_of_cons in Hn; destruct Hn as [->|[->|[->|Hn]]]; [lia..|by apply elem_of_nil in Hn]).
    replace ((1 <=? op) && (op <=? 75)) with false in Hw
      by (symmetry; apply andb_false_iff; right; apply Z.leb_gt; lia).
    destruct (Nat.ltb_spec 0 n); [|lia].
    replace (- Z.of_nat n =? 1) with false by (symmetry; apply Z.eqb_neq; lia).
    replace (1 <? - Z.of_nat n) with false by (symmetry; apply Z.ltb_ge; lia).
    rewrite Z.opp_involutive, Nat2Z.id. change (t_offset t + 1) with (t_offset t + Z.of_nat 1).
    rewrite Hr by lia. cbn [drop app]. rewrite ?drop_0.
    rewrite <- !app_assoc in *. unfold zlen in *. rewrite !length_app in *. cbn [length] in *.
    rewrite !length_app, length_le_encode in *.
    destruct (Z.ltb_spec (Z.of_nat (n + (length data + length r))) (Z.of_nat n)); [lia|].
    rewrite take_app_length' by (by rewrite length_le_encode).
    rewrite drop_app_length' by (by rewrite length_le_encode). rewrite length_app.
    rewrite (le_roundtrip n (8 * Z.of_nat n)) by (done || (unfold inU; lia)).
    rewrite !(wrapS_small 32) by (unfold inS; lia).
    destruct (Z.ltb_spec (Z.of_nat (length data + length r)) (Z.of_nat (length data))); [lia|].
    destruct (Z.ltb_spec (Z.of_nat (length data)) 0); [lia|]. cbn [orb].
    eexists. split; [reflexivity|]. unfold okTok, restOf, zlen. cbn [t_err t_script t_offset t_op t_data].
    split; [split; [done|lia]|]. split; [|split; [|done]].
    + replace (1 + Z.of_nat n + Z.of_nat (length data)) with (Z.of_nat (S (n + length data))) by lia.
      rewrite Hr by lia. cbn [drop app]. rewrite ?app_assoc, drop_app_length'; [done|].
      rewrite length_app, length_le_encode. lia.
    + f_equal. rewrite Nat2Z.id. by rewrite take_app_length.
  - replace ((1 <=? op) && (op <=? 75)) with false in Hw
      by (symmetry; apply andb_false_iff; rewrite !Z.leb_gt; lia).
    cbn [Nat.ltb Nat.leb] in Hw. subst data. cbn [Z.eqb Pos.eqb]. eexists. split; [reflexivity|].
    unfold zlen in *. cbn [app length] in *. unfold okTok, restOf, zlen. cbn [t_err t_script t_offset t_op t_data].
    split; [split; [done|lia]|]. split; [|done].
    change (t_offset t + 1) with (t_offset t + Z.of_nat 1). by rewrite Hr by lia.
Qed.

Lemma Next_parsed t t' : okTok t → Next t = (true, t') →
  okTok t' ∧ wfTok (t_op t', t_data t') ∧ restOf t = encTok (t_op t', t_data t') ++ restOf t'
  ∧ t_script t' = t_script t.
Proof.
  intros Ht Hn. pose proof (length_restOf t Ht) as Hlen. pose proof Ht as (He & Hs & Ho).
  unfold Next in Hn. rewrite Done_ok in Hn by done. case_bool_decide as Hne; [done|].
  destruct (t_script t !! Z.to_nat (t_offset t)) as [b|] eqn:Hb; [|done].
  assert (Hdrop : restOf t = b :: drop (Z.to_nat (t_offset t + 1)) (t_script t)).
  { unfold restOf. rewrite (drop_S _ _ _ Hb). f_equal. f_equal. lia. }
  set (r1 := drop (Z.to_nat (t_offset t + 1)) (t_script t)) in *.
  assert (Hr1 : zlen r1 = zlen (t_script t) - t_offset t - 1).
  { rewrite Hdrop in Hlen. unfold zlen in *. cbn [length] in Hlen. lia. }
  assert (Hskip : ∀ k, drop k r1 = drop (Z.to_nat (t_offset t + 1 + Z.of_nat k)) (t_script t)).
  { intros k. unfold r1. rewrite drop_drop. f_equal. lia. }
  pose proof (b2z_range b) as Hbr.
  destruct (opcodeLength_cases (b2z b)) as [(Hop & HL & HP)|[(n & Hnn & HP & HL & Hgt)|(Hop & HL & HP)]];
    [unfold inU; lia| | |]; rewrite HL in Hn.
  - replace (b2z b + 1 =? 1) with false in Hn by (symmetry; apply Z.eqb_neq; lia).
    replace (1 <? b2z b + 1) with true in Hn by (symmetry; apply Z.ltb_lt; lia).
    fold (restOf t) in Hn. rewrite Hdrop in Hn.
    destruct (Z.ltb_spec (zlen (b :: r1)) (b2z b + 1)) as [|Hge]; [done|].
    unfold zlen in *. cbn [length] in Hge. injection Hn as <-.
    rewrite wrapS_small by (unfold inS; lia).
    unfold okTok, wfTok, encTok, restOf, zlen. cbn [t_err t_script t_offset t_op t_data fst snd].
    fold (restOf t). rewrite Hdrop, HP. unfold slice. cbn [drop]. rewrite drop_0.
    replace (Z.to_nat (b2z b + 1) - 1)%nat with (Z.to_nat (b2z b)) by lia.
    rewrite length_take. split; [split; [done|lia]|]. split; [split; [unfold inU; lia|]|split; [|done]].
    + replace ((1 <=? b2z b) && (b2z b <=? 75)) with true by (symmetry; apply andb_true_iff; rewrite !Z.leb_le; lia).
      lia.
    + rewrite z2b_b2z. cbn [le_encode app]. f_equal.
      replace (t_offset t + (b2z b + 1)) with (t_offset t + 1 + Z.of_nat (Z.to_nat (b2z b))) by lia.
      rewrite <- Hskip. by rewrite take_drop.
  - assert (Hn0 : (0 < n <= 4)%nat) by (rewrite !elem_of_cons in Hnn; destruct Hnn as [->|[->|[->|Hnn]]]; [lia..|by apply elem_of_nil in Hnn]).
    replace (- Z.of_nat n =? 1) with false in Hn by (symmetry; apply Z.eqb_neq; lia).
    replace (1 <? - Z.of_nat n) with false in Hn by (symmetry; apply Z.ltb_ge; lia).
    rewrite Z.opp_involutive, Nat2Z.id in Hn.
    destruct (Z.ltb_spec (zlen r1) (Z.of_nat n)) as [|Hge]; [done|].
    set (L := le_decode (take n r1)) in *.
    assert (HlenT : length (take n r1) = n) by (rewrite length_take; unfold zlen in *; lia).
    assert (HL32 : 0 <= L < 2 ^ (8 * Z.of_nat n)) by (apply (le_decode_inU n); done).
    assert (Hpow : 2 ^ (8 * Z.of_nat n) <= 2 ^ 32) by (apply Z.pow_le_mono_r; lia).
    destruct (Z.ltb_spec (i32 L) 0) as [|Hpos]; [by rewrite orb_true_r in Hn|].
    rewrite (i32_nonneg L) in Hn by lia. rewrite orb_false_r in Hn.
    rewrite i32_len in Hn by (unfold zlen in *; rewrite length_drop; lia).
    destruct (Z.ltb_spec (zlen (drop n r1)) L) as [|Hle]; [done|].
    unfold zlen in *. rewrite length_drop in Hle. injection Hn as <-.
    rewrite wrapS_small by (unfold inS; lia).
    unfold okTok, wfTok, encTok, restOf, zlen. cbn [t_err t_script t_offset t_op t_data fst snd].
    fold (restOf t). rewrite Hdrop, HP. rewrite length_take, length_drop.
    split; [split; [done|lia]|]. split; [split; [unfold inU; lia|]|split; [|done]].
    + replace ((1 <=? b2z b) && (b2z b <=? 75)) with false
        by (symmetry; apply andb_false_iff; rewrite !Z.leb_gt; lia).
      destruct (Nat.ltb_spec 0 n); [lia|lia].
    + rewrite z2b_b2z. cbn [app]. f_equal.
      replace (Z.of_nat (Z.to_nat L `min` (length r1 - n))) with L by lia.
      unfold L at 1. rewrite le_encode_decode' by done.
      replace (t_offset t + (1 + Z.of_nat n + L)) with (t_offset t + 1 + Z.of_nat (n + Z.to_nat L)) by lia.
      rewrite <- Hskip, <- drop_drop, <- app_assoc, take_drop. by rewrite take_drop.
  - rewrite Z.eqb_refl in Hn. injection Hn as <-. unfold zlen in *.
    unfold okTok, wfTok, encTok, restOf, zlen. cbn [t_err t_script t_offset t_op t_data fst snd].
    fold (restOf t). rewrite Hdrop, HP, z2b_b2z. split; [split; [done|lia]|].
    split; [split; [unfold inU; lia|]|done].
    replace ((1 <=? b2z b) && (b2z b <=? 75)) with false
      by (symmetry; apply andb_false_iff; rewrite !Z.leb_gt; lia). done.
Qed.

Lemma Next_stopped t t' : okTok t → Next t = (false, t') →
  (restOf t = [] ∧ t' = t) ∨ t_err t' = Some ErrMalformedPush.
Proof.
  intros Ht Hn. unfold Next in Hn. rewrite Done_ok in Hn by done.
  case_bool_decide as E; [injection Hn as <-; by left|].
  destruct (t_script t !! _) as [b|] eqn:Hb.
  - right. repeat case_match; simplify_eq; done.
  - exfalso. apply E. unfold restOf. apply lookup_ge_None in Hb. by apply drop_ge.
Qed.

Lemma encTok_nonempty tok : (0 < length (encTok tok))%nat.
Proof. unfold encTok. cbn. lia. Qed.

Lemma tokensLoop_exact fuel t l : okTok t → (length (restOf t) < fuel)%nat →
  ((tokensLoop fuel t).1 = l ∧ t_err (tokensLoop fuel t).2 = None)
  ↔ (Forall wfTok l ∧ concat (encTok <$> l) = restOf t).
Proof.
  revert t l. induction fuel as [|fuel IH]; intros t l Ht Hf; [lia|]. cbn [tokensLoop].
  destruct (Next t) as [ok t'] eqn:En. destruct ok.
  - destruct (Next_parsed t t' Ht En) as (Ht' & Hw & Hrest & _).
    assert (Hf' : (length (restOf t') < fuel)%nat).
    { pose proof (encTok_nonempty (t_op t', t_data t')). rewrite Hrest, length_app in Hf. lia. }
    destruct (tokensLoop fuel t') as [l' t''] eqn:El. cbn [fst snd].
    pose proof (IH t' l' Ht' Hf') as IH1. rewrite El in IH1. cbn [fst snd] in IH1. split.
    + intros [<- Herr]. destruct (proj1 IH1 (conj eq_refl Herr)) as [Hl Hc].
      split; [by constructor|]. csimpl. by rewrite Hc.
    + intros [Hl Hc]. destruct l as [|tok l0].
      { exfalso. cbn in Hc. pose proof (encTok_nonempty (t_op t', t_data t')).
        rewrite <- Hc in Hrest. apply (f_equal length) in Hrest. rewrite length_app in Hrest. cbn in Hrest. lia. }
      apply Forall_cons in Hl as [Htok Hl0]. change (concat (encTok <$> tok :: l0)) with (encTok tok ++ concat (encTok <$> l0)) in Hc.
      destruct (Next_token t tok (concat (encTok <$> l0)) Ht Htok (eq_sym Hc)) as (t2 & E2 & Ht2 & Hr2 & Htk & _).
      rewrite En in E2. injection E2 as <-.
      pose proof (IH t' l0 Ht' Hf') as IH2. rewrite El in IH2. cbn [fst snd] in IH2.
      destruct (proj2 IH2) as [-> Herr]; [split; [done|by symmetry]|]. split; [congruence|done].
  - destruct (Next_stopped t t' Ht En) as [[Hr ->]|Herr]; cbn [fst snd].
    + rewrite Hr. split; [intros [<- _]; split; [constructor|done]|]. intros [Hl Hc]. split.
      * destruct l as [|tok l0]; [done|]. exfalso. change (concat (encTok <$> tok :: l0)) with (encTok tok ++ concat (encTok <$> l0)) in Hc. apply (f_equal length) in Hc.
        rewrite length_app in Hc. pose proof (encTok_nonempty tok). cbn [length] in Hc. lia.
      * apply Ht.
    + split; [intros [_ H]; congruence|]. intros [Hl Hc]. exfalso. destruct l as [|tok l0].
      * cbn in Hc. unfold Next in En. rewrite Done_ok, <- Hc in En by done. cbn in En.
        injection En as <-. destruct Ht as [Ht _]. congruence.
      * apply Forall_cons in Hl as [Htok Hl0]. change (concat (encTok <$> tok :: l0)) with (encTok tok ++ concat (encTok <$> l0)) in Hc.
        destruct (Next_token t tok (concat (encTok <$> l0)) Ht Htok (eq_sym Hc)) as (t2 & E2 & _).
        congruence.
Qed.

Lemma tokens_exact script l : zlen script < 2 ^ 31 →
  ((tokens script).1 = l ∧ checkScriptParses script = None)
  ↔ (Forall wfTok l ∧ concat (encTok <$> l) = script).
Proof.
  intros Hlen. unfold checkScriptParses, tokens.
  rewrite (tokensLoop_exact (S (length script)) (MakeScriptTokenizer 0 script) l).
  - unfold restOf, MakeScriptTokenizer. cbn [t_offset t_script]. done.
  - unfold okTok, MakeScriptTokenizer, zlen in *. cbn [t_err t_script t_offset]. split; [done|lia].
  - unfold restOf, MakeScriptTokenizer. cbn [t_offset t_script]. rewrite drop_0. lia.
Qed.

(** The tokenizer accepts exactly the well-formed scripts: for every script
    below 2^31 bytes the loop over [Next] ends within one step per byte, and it
    ends without error having read the tokens [l] if and only if the script is
    the concatenation of the encodings of the instructions [l] (no byte is
    skipped, no push reaches past the end). *)
Lemma tokenizer_exact (script : bytes) (l : list (Z * bytes)) (Hlen : zlen script < 2 ^ 31) :
  ((tokens script).1 = l ∧ checkScriptParses script = None)
  ↔ (Forall wfTok l ∧ concat (encTok <$> l) = script).
Proof. by apply tokens_exact. Qed.

Lemma tokenizer_exact_witness :
  (tokens [x51; x4c; x02; xaa; xbb; x02; x01; x01]).1 = [(0x51, []); (0x4c, [xaa; xbb]); (2, [x01; x01])]
  ∧ concat (encTok <$> [(0x51, []); (0x4c, [xaa; xbb]); (2, [x01; x01])])
    = [x51; x4c; x02; xaa; xbb; x02; x01; x01].
Proof.
  split; [vm_compute; reflexivity|].
  apply (proj1 (tokenizer_exact [x51; x4c; x02; xaa; xbb; x02; x01; x01]
    [(0x51, []); (0x4c, [xaa; xbb]); (2, [x01; x01])] ltac:(vm_compute; reflexivity))).
  split; vm_compute; reflexivity.
Defined.

(** ** Script numbers (sign and magnitude, little endian) *)
Definition maxScriptNumLen : Z := 4.
Definition cltvMaxScriptNumLen : Z := 5.

Definition checkMinimalDataEncoding (v : bytes) : bool :=
  match reverse v with
  | [] => true
  | b :: rest =>
      if Z.land (b2z b) 0x7f =? 0 then
        match rest with
        | [] => false
        | c :: _ => negb (Z.land (b2z c) 0x80 =? 0)
        end
      else true
  end.

(** [for n > 0 { append(byte(n & 0xff)); n >>= 8 }]: at most eight rounds. *)
Fixpoint magBytes (fuel : nat) (n : Z) : bytes :=
  match fuel with
  | O => []
  | S fuel' => if 0 <? n then z2b (Z.land n 0xff) :: magBytes fuel' (Z.shiftr n 8) else []
  end.

(** [None] is the index panic on the one number whose negation is itself. *)
Definition scriptNumBytes (n : Z) : option bytes :=
  if n =? 0 then Some [] else
  let isNegative := n <? 0 in
  let result := magBytes 8 (if isNegative then i64 (- n) else n) in
  match reverse result with
  | [] => None
  | b :: rest =>
      if negb (Z.land (b2z b) 0x80 =? 0)
      then Some (result ++ [if isNegative then x80 else x00])
      else if isNegative then Some (reverse (z2b (Z.lor (b2z b) 0x80) :: rest))
      else Some result
  end.

(** [result |= int64(val) << uint8(8*i)] *)
Fixpoint orBytes (i : Z) (v : bytes) : Z :=
  match v with
  | [] => 0
  | b :: v' => Z.lor (i64 (Z.shiftl (b2z b) (8 * i))) (orBytes (i + 1) v')
  end.

Definition MakeScriptNum (v : bytes) (requireMinimal : bool) (scriptNumLen : Z) : res scriptErr Z :=
  if scriptNumLen <? zlen v then Err ErrNumberTooBig else
  if requireMinimal && negb (checkMinimalDataEncoding v) then Err ErrMinimalData else
  match reverse v with
  | [] => Ok 0
  | b :: _ =>
      let result := orBytes 0 v in
      if negb (Z.land (b2z b) 0x80 =? 0)
      then Ok (- Z.ldiff result (Z.shiftl 0x80 (8 * (zlen v - 1))))
      else Ok result
  end.

Definition scriptNumInt32 (n : Z) : Z :=
  if 2147483647 <? n then 2147483647 else if n <? -2147483648 then -2147483648 else n.

(** ** Facts about script numbers *)
Lemma bit7 (b : byte) : negb (Z.land (b2z b) 0x80 =? 0) = (128 <=? b2z b).
Proof. by destruct b. Qed.
Lemma low7 (b : byte) : Z.land (b2z b) 0x7f = if 128 <=? b2z b then b2z b - 128 else b2z b.
Proof. by destruct b. Qed.
Lemma or7 (b : byte) : b2z b < 128 → z2b (Z.lor (b2z b) 0x80) = z2b (b2z b + 128).
Proof. by destruct b. Qed.

Lemma lor_add a k c : 0 <= k → 0 <= a < 2 ^ k → 0 <= c → Z.lor a (c * 2 ^ k) = a + c * 2 ^ k.
Proof.
  intros Hk Ha Hc. assert (Hl : Z.land a (c * 2 ^ k) = 0).
  { apply Z.bits_inj'. intros i Hi. rewrite Z.land_spec, Z.testbit_0_l.
    destruct (decide (i < k)).
    - by rewrite Z.mul_pow2_bits_low, andb_false_r.
    - rewrite <- (Z.mod_small a (2 ^ k)), Z.mod_pow2_bits_high by lia. done. }
  rewrite Z.add_nocarry_lxor, Z.lxor_lor by done. done.
Qed.

Lemma le_decode_app u w : le_decode (u ++ w) = le_decode u + 2 ^ (8 * zlen u) * le_decode w.
Proof.
  unfold zlen. induction u as [|b u IH]; [cbn [app length le_decode]; change (Z.of_nat 0) with 0; rewrite Z.mul_0_r, Z.pow_0_r; lia|].
  cbn [app]. change (le_decode (b :: u ++ w)) with (b2z b + 256 * le_decode (u ++ w)).
  change (le_decode (b :: u)) with (b2z b + 256 * le_decode u). rewrite IH. cbn [length].
  replace (8 * Z.of_nat (S (length u))) with (8 + 8 * Z.of_nat (length u)) by lia.
  rewrite Z.pow_add_r by lia. change (2 ^ 8) with 256. ring.
Qed.

Lemma le_decode_bound u : 0 <= le_decode u < 2 ^ (8 * zlen u).
Proof. pose proof (le_decode_range u). by rewrite pow256 in H. Qed.

Lemma orBytes_decode i v : 0 <= i → 8 * (i + zlen v) < 64 →
  orBytes i v = le_decode v * 2 ^ (8 * i).
Proof.
  unfold zlen. revert i. induction v as [|b v IH]; intros i Hi Hlen; [done|].
  cbn [orBytes length] in *. pose proof (b2z_range b).
  assert (Hp : 0 < 2 ^ (8 * i)) by (apply Z.pow_pos_nonneg; lia).
  assert (Hb : 2 ^ (8 * i + 8) <= 2 ^ 63) by (apply Z.pow_le_mono_r; lia).
  rewrite Z.pow_add_r in Hb by lia.
  rewrite Z.shiftl_mul_pow2 by lia. rewrite wrapS_small by (unfold inS; nia).
  rewrite IH by lia. change (le_decode (b :: v)) with (b2z b + 256 * le_decode v).
  replace (le_decode v * 2 ^ (8 * (i + 1))) with (le_decode v * 2 ^ (8 * i + 8))
    by (f_equal; f_equal; lia).
  rewrite lor_add; [|lia| |apply le_decode_range].
  - rewrite Z.pow_add_r by lia. change (2 ^ 8) with 256. ring.
  - rewrite Z.pow_add_r by lia. nia.
Qed.

(** [magBytes] inverts [le_decode] on buffers whose last byte is not zero. *)
Lemma magBytes_decode fuel w c : (length w < fuel)%nat → b2z c ≠ 0 →
  magBytes fuel (le_decode (w ++ [c])) = w ++ [c].
Proof.
  revert fuel. induction w as [|b w IH]; intros fuel Hf Hc.
  - destruct fuel as [|fuel]; [cbn in Hf; lia|]. cbn [app magBytes]. rewrite le_decode_1.
    pose proof (b2z_range c). destruct (Z.ltb_spec 0 (b2z c)); [|lia].
    change 0xff with (Z.ones 8). rewrite Z.land_ones, Z.mod_small, z2b_b2z by lia. f_equal.
    rewrite Z.shiftr_div_pow2, Z.div_small by lia. by destruct fuel.
  - destruct fuel as [|fuel]; [lia|]. cbn [app magBytes length] in *.
    change (le_decode (b :: w ++ [c])) with (b2z b + 256 * le_decode (w ++ [c])).
    pose proof (b2z_range b). pose proof (b2z_range c). pose proof (le_decode_bound w).
    assert (0 < le_decode (w ++ [c])).
    { rewrite le_decode_app, le_decode_1. assert (0 < 2 ^ (8 * zlen w)) by (apply Z.pow_pos_nonneg; unfold zlen; lia). nia. }
    destruct (Z.ltb_spec 0 (b2z b + 256 * le_decode (w ++ [c]))); [|lia].
    change 0xff with (Z.ones 8). rewrite Z.land_ones by lia. change (2 ^ 8) with 256.
    rewrite (Z.mul_comm 256), Z.mod_add, Z.mod_small, z2b_b2z by lia. f_equal.
    rewrite Z.shiftr_div_pow2 by lia. change (2 ^ 8) with 256.
    rewrite Z.div_add, Z.div_small, Z.add_0_l by lia. apply IH; [lia|done].
Qed.

Lemma magBytes_spec fuel n : 0 < n < 2 ^ (8 * Z.of_nat fuel) →
  ∃ w c, magBytes fuel n = w ++ [c] ∧ b2z c ≠ 0 ∧ le_decode (w ++ [c]) = n ∧ (length w < fuel)%nat.
Proof.
  revert n. induction fuel as [|fuel IH]; intros n Hn; [cbn in Hn; lia|]. cbn [magBytes].
  destruct (Z.ltb_spec 0 n); [|lia]. change 0xff with (Z.ones 8).
  rewrite Z.land_ones, Z.shiftr_div_pow2 by lia. change (2 ^ 8) with 256.
  pose proof (Z.div_mod n 256 ltac:(lia)). pose proof (Z.mod_pos_bound n 256 ltac:(lia)).
  destruct (decide (n < 256)).
  - rewrite Z.div_small, Z.mod_small by lia. exists [], (z2b n). split; [by destruct fuel|].
    cbn [app]. rewrite le_decode_1, b2z_z2b, Z.mod_small by lia. cbn [length]. lia.
  - destruct (IH (n / 256)) as (w & c & -> & Hc & Hd & Hw).
    { split; [apply Z.div_str_pos; lia|]. apply Z.div_lt_upper_bound; [lia|].
      replace (8 * Z.of_nat (S fuel)) with (8 + 8 * Z.of_nat fuel) in Hn by lia.
      rewrite Z.pow_add_r in Hn by lia. change (2 ^ 8) with 256 in Hn. lia. }
    exists (z2b (n mod 256) :: w), c. split; [done|]. split; [done|]. split; [|cbn; lia].
    cbn [app]. change (le_decode (z2b (n mod 256) :: w ++ [c])) with
      (b2z (z2b (n mod 256)) + 256 * le_decode (w ++ [c])).
    rewrite Hd, b2z_z2b, Z.mod_mod by lia. lia.
Qed.

Lemma reverse_snoc {A} (w : list A) c : reverse (w ++ [c]) = c :: reverse w.
Proof. by rewrite reverse_app. Qed.

(** Decoding a buffer [w ++ [c]] of at most seven bytes. *)
Lemma MakeScriptNum_snoc w c minimal len : zlen w + 1 <= len → len <= 7 →
  MakeScriptNum (w ++ [c]) minimal len
  = if minimal && negb (checkMinimalDataEncoding (w ++ [c])) then Err ErrMinimalData
    else Ok (if 128 <=? b2z c
             then - (le_decode w + 2 ^ (8 * zlen w) * (b2z c - 128))
             else le_decode w + 2 ^ (8 * zlen w) * b2z c).
Proof.
  intros Hl Hlen. unfold MakeScriptNum.
  assert (Hz : zlen (w ++ [c]) = zlen w + 1) by (unfold zlen; rewrite length_app; cbn; lia).
  assert (Hw : 0 <= zlen w) by (unfold zlen; lia).
  rewrite Hz. destruct (Z.ltb_spec len (zlen w + 1)); [lia|].
  destruct (minimal && _); [done|]. rewrite reverse_snoc, bit7.
  rewrite orBytes_decode by lia. rewrite Z.mul_1_r, le_decode_app, le_decode_1.
  pose proof (le_decode_bound w). pose proof (b2z_range c). destruct (Z.leb_spec 128 (b2z c)); [|done].
  do 2 f_equal. replace (zlen w + 1 - 1) with (zlen w) by lia.
  assert (Hp : 0 < 2 ^ (8 * zlen w)) by (apply Z.pow_pos_nonneg; lia).
  replace (le_decode w + 2 ^ (8 * zlen w) * b2z c) with
    ((le_decode w + (b2z c - 128) * 2 ^ (8 * zlen w)) + 1 * 2 ^ (8 * zlen w + 7))
    by (rewrite Z.pow_add_r by lia; change (2 ^ 7) with 128; ring).
  rewrite <- (lor_add _ (8 * zlen w + 7)) by
    (try lia; rewrite Z.pow_add_r by lia; change (2 ^ 7) with 128; nia).
  replace (Z.shiftl 0x80 (8 * zlen w)) with (1 * 2 ^ (8 * zlen w + 7))
    by (rewrite Z.shiftl_mul_pow2, Z.pow_add_r by lia; change (2 ^ 7) with 128; ring).
  set (x := le_decode w + (b2z c - 128) * 2 ^ (8 * zlen w)).
  assert (Hx : 0 <= x < 2 ^ (8 * zlen w + 7)).
  { unfold x. rewrite Z.pow_add_r by lia. change (2 ^ 7) with 128. nia. }
  transitivity x; [|unfold x; ring].
  apply Z.bits_inj'. intros i Hi. rewrite Z.mul_1_l, Z.ldiff_spec, Z.lor_spec.
  rewrite Z.pow2_bits_eqb by lia. destruct (Z.eqb_spec (8 * zlen w + 7) i) as [<-|].
  - rewrite andb_false_r. rewrite <- (Z.mod_small x (2 ^ (8 * zlen w + 7))) by done.
    by rewrite Z.mod_pow2_bits_high by lia.
  - by rewrite orb_false_r, andb_true_r.
Qed.

Lemma minimal_snoc w c : checkMinimalDataEncoding (w ++ [c]) = true ↔
  (b2z c ≠ 0 ∧ b2z c ≠ 128) ∨ ∃ u d, w = u ++ [d] ∧ 128 <= b2z d.
Proof.
  unfold checkMinimalDataEncoding. rewrite reverse_snoc, low7.
  assert (Hlow : ((if 128 <=? b2z c then b2z c - 128 else b2z c) =? 0)
                 = bool_decide (b2z c = 0 ∨ b2z c = 128)).
  { pose proof (b2z_range c). destruct (Z.leb_spec 128 (b2z c)); case_bool_decide;
      [apply Z.eqb_eq|apply Z.eqb_neq|apply Z.eqb_eq|apply Z.eqb_neq]; lia. }
  rewrite Hlow. case_bool_decide as E.
  - destruct w as [|d u] using rev_ind.
    + cbn. split; [done|]. intros [?|(u & d & Hu & _)]; [lia|]. by destruct u.
    + clear IHu. rewrite reverse_snoc, bit7, Z.leb_le. split.
      * intros Hd. right. by exists u, d.
      * intros [?|(u' & d' & Hu & Hd)]; [lia|]. apply app_inj_2 in Hu as [_ [= ->]]; done.
  - split; [|done]. intros _. left. lia.
Qed.

Lemma byte_eqb_z (b : byte) z : b2z b = z → b = z2b z.
Proof. intros <-. by rewrite z2b_b2z. Qed.

Lemma scriptNumBytes_pos w c n : b2z c ≠ 0 → (length w < 8)%nat →
  le_decode (w ++ [c]) = Z.abs n → - 2 ^ 63 < n < 2 ^ 63 →
  scriptNumBytes n = Some (if 128 <=? b2z c
    then w ++ [c; if n <? 0 then x80 else x00]
    else if n <? 0 then w ++ [z2b (b2z c + 128)] else w ++ [c]).
Proof.
  intros Hc Hw Hd Hn. unfold scriptNumBytes.
  assert (0 < le_decode (w ++ [c])).
  { rewrite le_decode_app, le_decode_1. pose proof (le_decode_bound w). pose proof (b2z_range c).
    assert (0 < 2 ^ (8 * zlen w)) by (apply Z.pow_pos_nonneg; unfold zlen; lia). nia. }
  destruct (Z.eqb_spec n 0); [lia|].
  assert (E : (if n <? 0 then i64 (- n) else n) = le_decode (w ++ [c])).
  { destruct (Z.ltb_spec n 0); [|lia]. rewrite wrapS_small by (unfold inS; lia). lia. }
  rewrite E, magBytes_decode by done. rewrite reverse_snoc, bit7. destruct (Z.leb_spec 128 (b2z c)).
  - by rewrite <- app_assoc.
  - destruct (n <? 0); [|done]. f_equal. rewrite or7 by done.
    by rewrite reverse_cons, reverse_involutive.
Qed.

Lemma scriptnum_encode_decode len n : 1 <= len <= 7 → - 2 ^ (8 * len - 1) < n < 2 ^ (8 * len - 1) →
  ∃ v, scriptNumBytes n = Some v ∧ MakeScriptNum v true len = Ok n.
Proof.
  intros Hlen Hn. destruct (decide (n = 0)) as [->|Hn0]; [exists []; split; [done|]|].
  { unfold MakeScriptNum. destruct (Z.ltb_spec len (zlen (@nil byte))); [unfold zlen in *; cbn in *; lia|done]. }
  assert (Hp63 : 2 ^ (8 * len - 1) <= 2 ^ 55) by (apply Z.pow_le_mono_r; lia).
  destruct (magBytes_spec (Z.to_nat len) (Z.abs n)) as (w & c & _ & Hc & Hd & Hw).
  { split; [lia|]. rewrite Z2Nat.id by lia.
    assert (2 ^ (8 * len) = 2 * 2 ^ (8 * len - 1)) by (rewrite <- Z.pow_succ_r by lia; f_equal; lia). lia. }
  rewrite (scriptNumBytes_pos w c n) by (done || lia). eexists. split; [reflexivity|].
  assert (Hzw : 0 <= zlen w < len) by (unfold zlen; lia).
  rewrite le_decode_app, le_decode_1 in Hd. pose proof (b2z_range c) as Hcr.
  assert (Hp : 0 < 2 ^ (8 * zlen w)) by (apply Z.pow_pos_nonneg; lia).
  destruct (Z.leb_spec 128 (b2z c)) as [H128|H128].
  + assert (Hz : zlen (w ++ [c]) = zlen w + 1) by (unfold zlen; rewrite length_app; cbn; lia).
    assert (Hlt : zlen w + 1 < len).
    { destruct (decide (zlen w + 1 = len)) as [E|]; [|lia]. exfalso.
      replace (8 * len - 1) with (8 * zlen w + 7) in Hn by lia.
      rewrite Z.pow_add_r in Hn by lia. change (2 ^ 7) with 128 in Hn.
      pose proof (le_decode_bound w). nia. }
    change [c; if n <? 0 then x80 else x00] with ([c] ++ [if n <? 0 then x80 else x00]).
    rewrite app_assoc, MakeScriptNum_snoc by lia.
    rewrite (proj2 (minimal_snoc _ _)) by (right; by exists w, c). cbn [andb negb].
    rewrite le_decode_app, le_decode_1. destruct (Z.ltb_spec n 0).
    * change (128 <=? b2z x80) with true. cbv iota. f_equal. change (b2z x80) with 128. lia.
    * change (128 <=? b2z x00) with false. cbv iota. f_equal. change (b2z x00) with 0. lia.
  + destruct (Z.ltb_spec n 0).
    * rewrite MakeScriptNum_snoc by lia.
      rewrite (proj2 (minimal_snoc _ _)) by (left; rewrite b2z_z2b, Z.mod_small; lia).
      cbn [andb negb]. rewrite b2z_z2b, Z.mod_small by lia.
      destruct (Z.leb_spec 128 (b2z c + 128)); [|lia]. f_equal. lia.
    * rewrite MakeScriptNum_snoc by lia.
      rewrite (proj2 (minimal_snoc _ _)) by (left; lia). cbn [andb negb].
      destruct (Z.leb_spec 128 (b2z c)); [lia|]. f_equal. lia.
Qed.

Lemma scriptnum_decode_encode len v n : 1 <= len <= 7 → MakeScriptNum v true len = Ok n →
  scriptNumBytes n = Some v.
Proof.
  intros Hlen Hv. destruct v as [|c w] using rev_ind.
  { unfold MakeScriptNum in Hv. repeat case_match; simplify_eq; done. }
  clear IHw.
  assert (Hzl : zlen w + 1 <= len).
  { unfold MakeScriptNum in Hv. destruct (Z.ltb_spec len (zlen (w ++ [c]))) as [|Hz]; [done|].
    unfold zlen in *. rewrite length_app in Hz. cbn in Hz. lia. }
  rewrite MakeScriptNum_snoc in Hv by lia.
  destruct (checkMinimalDataEncoding (w ++ [c])) eqn:Hmin; [|done]. cbn [andb negb] in Hv.
  apply minimal_snoc in Hmin. pose proof (b2z_range c) as Hcr. pose proof (le_decode_bound w) as Hwb.
  assert (0 <= zlen w) by (unfold zlen; lia).
  assert (Hp : 0 < 2 ^ (8 * zlen w)) by (apply Z.pow_pos_nonneg; lia).
  assert (Hp48 : 2 ^ (8 * zlen w) <= 2 ^ 48) by (apply Z.pow_le_mono_r; lia).
  assert (Hw8 : (length w < 8)%nat) by (unfold zlen in *; lia).
  injection Hv as Hv.
  set (c0 := if 128 <=? b2z c then b2z c - 128 else b2z c).
  assert (Hc0 : 0 <= c0 < 128) by (unfold c0; destruct (Z.leb_spec 128 (b2z c)); lia).
  assert (Habs : Z.abs n = le_decode w + 2 ^ (8 * zlen w) * c0).
  { rewrite <- Hv. unfold c0. destruct (Z.leb_spec 128 (b2z c)); nia. }
  destruct (decide (c0 = 0)) as [E0|Hc00].
  + destruct Hmin as [Hbad|(u & d & -> & Hd)].
    { exfalso. unfold c0 in E0. destruct (Z.leb_spec 128 (b2z c)); lia. }
    assert (Hpos : 0 < le_decode (u ++ [d])).
    { rewrite le_decode_app, le_decode_1. pose proof (le_decode_bound u).
      assert (0 < 2 ^ (8 * zlen u)) by (apply Z.pow_pos_nonneg; unfold zlen; lia). nia. }
    rewrite (scriptNumBytes_pos u d n); [|lia|rewrite length_app in Hw8; cbn in Hw8; lia|lia|lia].
    destruct (Z.leb_spec 128 (b2z d)); [|lia]. f_equal. rewrite <- app_assoc. cbn [app].
    do 3 f_equal. unfold c0 in E0. destruct (Z.leb_spec 128 (b2z c)).
    * destruct (Z.ltb_spec n 0); [|nia]. symmetry. apply (byte_eqb_z c 128). lia.
    * destruct (Z.ltb_spec n 0); [nia|]. symmetry. apply (byte_eqb_z c 0). lia.
  + assert (Hd : le_decode (w ++ [z2b c0]) = Z.abs n).
    { rewrite le_decode_app, le_decode_1, b2z_z2b, Z.mod_small by lia. lia. }
    assert (Hb0 : b2z (z2b c0) = c0) by (rewrite b2z_z2b, Z.mod_small; lia).
    rewrite (scriptNumBytes_pos w (z2b c0) n); [|lia|done|done|nia]. rewrite Hb0.
    destruct (Z.leb_spec 128 c0); [lia|]. f_equal. unfold c0 in *.
    destruct (Z.leb_spec 128 (b2z c)).
    * destruct (Z.ltb_spec n 0); [|nia]. do 2 f_equal. symmetry. apply byte_eqb_z. lia.
    * destruct (Z.ltb_spec n 0); [nia|]. by rewrite z2b_b2z.
Qed.

(** Script numbers: a number within [len] bytes of sign and magnitude (as
    the opcodes allow, at most seven) is read back from its encoding under the
    minimal-encoding rule, and every minimal encoding is the encoding of the
    number it denotes, so encoding and decoding are inverse bijections. *)
Lemma scriptnum_roundtrip (len : Z) (Hlen : 1 <= len <= 7) :
  (∀ n, - 2 ^ (8 * len - 1) < n < 2 ^ (8 * len - 1) →
     ∃ v, scriptNumBytes n = Some v ∧ MakeScriptNum v true len = Ok n)
  ∧ (∀ v n, MakeScriptNum v true len = Ok n → scriptNumBytes n = Some v).
Proof.
  split; intros.
  - by apply scriptnum_encode_decode.
  - by apply (scriptnum_decode_encode len).
Qed.

Lemma scriptnum_roundtrip_witness :
  ∃ v, scriptNumBytes (-255) = Some v ∧ MakeScriptNum v true 4 = Ok (-255).
Proof. apply (proj1 (scriptnum_roundtrip 4 ltac:(lia))). lia. Defined.
