(* ===== verification/ScriptBuilder.v ===== *)
(** * The script builder (src/node/txscript/scriptbuilder.go)

    Builds canonical scripts; [sb_err] is the sticky error of the builder.  The
    allocation options only set a capacity. *)
From Stdlib Require Import ZArith Lia Strings.Byte.
From stdpp Require Import base list.
From S2P Require Import Prelude WireTx Script.
Open Scope Z_scope.

Definition MaxScriptElementSize : Z := 520.
Definition OP_1NEGATE : Z := 0x4f.
Definition OP_DATA_1 : Z := 1.

Record ScriptBuilder := mkSB { sb_script : bytes; sb_err : bool }.

Definition NewScriptBuilder : ScriptBuilder := mkSB [] false.

Definition append (b : ScriptBuilder) (s : bytes) : ScriptBuilder := mkSB (sb_script b ++ s) (sb_err b).
Definition fail (b : ScriptBuilder) : ScriptBuilder := mkSB (sb_script b) true.

Definition AddOp (b : ScriptBuilder) (opcode : byte) : ScriptBuilder :=
  if sb_err b then b else
  if MaxScriptSize <? zlen (sb_script b) + 1 then fail b else append b [opcode].

Definition AddOps (b : ScriptBuilder) (opcodes : bytes) : ScriptBuilder :=
  if sb_err b then b else
  if MaxScriptSize <? zlen (sb_script b) + zlen opcodes then fail b else append b opcodes.

Definition canonicalDataSize (data : bytes) : Z :=
  let dataLen := zlen data in
  if dataLen =? 0 then 1
  else if (dataLen =? 1) && match data with d :: _ => b2z d <=? 16 | [] => false end then 1
  else if (dataLen =? 1) && match data with d :: _ => b2z d =? 0x81 | [] => false end then 1
  else if dataLen <? OP_PUSHDATA1 then 1 + dataLen
  else if dataLen <=? 0xff then 2 + dataLen
  else if dataLen <=? 0xffff then 3 + dataLen
  else 5 + dataLen.

Definition addData (b : ScriptBuilder) (data : bytes) : ScriptBuilder :=
  let dataLen := zlen data in
  match data with
  | [] => append b [z2b OP_0]
  | [d] =>
      if b2z d =? 0 then append b [z2b OP_0]
      else if b2z d <=? 16 then append b [z2b (OP_1 - 1 + b2z d)]
      else if b2z d =? 0x81 then append b [z2b OP_1NEGATE]
      else append b (z2b (OP_DATA_1 - 1 + dataLen) :: data)
  | _ =>
      if dataLen <? OP_PUSHDATA1 then append b (z2b (OP_DATA_1 - 1 + dataLen) :: data)
      else if dataLen <=? 0xff then append b (z2b OP_PUSHDATA1 :: z2b dataLen :: data)
      else if dataLen <=? 0xffff then append b (z2b OP_PUSHDATA2 :: le_encode 2 (u16 dataLen) ++ data)
      else append b (z2b OP_PUSHDATA4 :: le_encode 4 (u32 dataLen) ++ data)
  end.

Definition AddFullData (b : ScriptBuilder) (data : bytes) : ScriptBuilder :=
  if sb_err b then b else addData b data.

Definition AddData (b : ScriptBuilder) (data : bytes) : ScriptBuilder :=
  if sb_err b then b else
  if MaxScriptSize <? zlen (sb_script b) + canonicalDataSize data then fail b else
  if MaxScriptElementSize <? zlen data then fail b else addData b data.

(** [None] is the panic of [scriptNum.Bytes] on the least int64. *)
Definition AddInt64 (b : ScriptBuilder) (val : Z) : option ScriptBuilder :=
  if sb_err b then Some b else
  if MaxScriptSize <? zlen (sb_script b) + 1 then Some (fail b) else
  if val =? 0 then Some (append b [z2b OP_0]) else
  if (val =? -1) || ((1 <=? val) && (val <=? 16)) then Some (append b [z2b (OP_1 - 1 + val)]) else
  AddData b <$> scriptNumBytes val.

Definition Reset (b : ScriptBuilder) : ScriptBuilder := mkSB [] false.

(** The script and the error. *)
Definition Build (b : ScriptBuilder) : option bytes := if sb_err b then None else Some (sb_script b).

(** ** What a push leaves on the stack *)
Definition pushedValue (tok : Z * bytes) : bytes :=
  if (OP_1 <=? tok.1) && (tok.1 <=? OP_16) then [z2b (tok.1 - (OP_1 - 1))]
  else if tok.1 =? OP_1NEGATE then [x81] else tok.2.

(** The instruction that [addData] emits. *)
Definition pushTok (data : bytes) : Z * bytes :=
  match data with
  | [] => (OP_0, [])
  | [d] => if b2z d =? 0 then (OP_0, []) else if b2z d <=? 16 then (OP_1 - 1 + b2z d, [])
           else if b2z d =? 0x81 then (OP_1NEGATE, []) else (1, data)
  | _ => if zlen data <? OP_PUSHDATA1 then (zlen data, data)
         else if zlen data <=? 0xff then (OP_PUSHDATA1, data)
         else if zlen data <=? 0xffff then (OP_PUSHDATA2, data) else (OP_PUSHDATA4, data)
  end.

(** The one value the builder does not push as given: a single zero byte
    becomes the empty string. *)
Definition normalPush (data : bytes) : bytes := if bool_decide (data = [x00]) then [] else data.

Lemma b2z_0 d : b2z d = 0 → d = x00.
Proof. intros H. by apply (b2z_inj d x00). Qed.

Lemma zlen_ge2 (a b : byte) l : 2 <= zlen (a :: b :: l).
Proof. unfold zlen. cbn. lia. Qed.

Lemma addData_tok b data : zlen data < 2 ^ 16 → addData b data = append b (encTok (pushTok data)).
Proof.
  intros Hl. unfold addData, pushTok, encTok. destruct data as [|d [|e l]]; [done| |].
  - destruct (b2z d =? 0); [done|]. pose proof (b2z_range d).
    destruct (Z.leb_spec (b2z d) 16).
    { unfold pushLenBytes. cbn [fst snd].
      destruct (Z.eqb_spec (OP_1 - 1 + b2z d) OP_PUSHDATA1); [unfold OP_1, OP_PUSHDATA1 in *; lia|].
      destruct (Z.eqb_spec (OP_1 - 1 + b2z d) OP_PUSHDATA2); [unfold OP_1, OP_PUSHDATA2 in *; lia|].
      destruct (Z.eqb_spec (OP_1 - 1 + b2z d) OP_PUSHDATA4); [unfold OP_1, OP_PUSHDATA4 in *; lia|]. done. }
    destruct (b2z d =? 129); done.
  - pose proof (zlen_ge2 d e l). set (data := d :: e :: l) in *.
    destruct (Z.ltb_spec (zlen data) OP_PUSHDATA1) as [H1|H1].
    { unfold pushLenBytes, OP_PUSHDATA1, OP_PUSHDATA2, OP_PUSHDATA4 in *. cbn [fst snd].
      destruct (Z.eqb_spec (zlen data) 0x4c), (Z.eqb_spec (zlen data) 0x4d), (Z.eqb_spec (zlen data) 0x4e); try lia.
      done. }
    destruct (Z.leb_spec (zlen data) 0xff); [done|].
    destruct (Z.leb_spec (zlen data) 0xffff); [|lia].
    cbn [fst snd]. by rewrite (wrapU_small 16) by (unfold inU; lia).
Qed.

Lemma pushTok_spec data : zlen data < 2 ^ 16 →
  wfTok (pushTok data) ∧ isCanonicalPush (pushTok data).1 (pushTok data).2 = true
  ∧ (pushTok data).1 <= OP_16 ∧ pushedValue (pushTok data) = normalPush data
  ∧ zlen (encTok (pushTok data)) = canonicalDataSize data.
Proof.
  intros Hl. destruct data as [|d [|e l]].
  - repeat split; vm_compute; congruence.
  - destruct d; repeat split; vm_compute; congruence.
  - pose proof (zlen_ge2 d e l) as H2. assert (Hn : normalPush (d :: e :: l) = d :: e :: l)
      by (unfold normalPush; by rewrite bool_decide_eq_false_2).
    rewrite Hn. unfold pushTok, canonicalDataSize. set (data := d :: e :: l) in *. clearbody data. clear Hn.
    unfold OP_PUSHDATA1. destruct (Z.eqb_spec (zlen data) 0) as [?|_]; [lia|].
    destruct (Z.eqb_spec (zlen data) 1) as [?|_]; [lia|]. cbn [andb].
    destruct (Z.ltb_spec (zlen data) 0x4c).
    + set (n := zlen data) in *. assert (En : zlen data = n) by done. clearbody n.
      unfold wfTok, isCanonicalPush, pushedValue, encTok, pushLenBytes, inU, OP_PUSHDATA1, OP_PUSHDATA2,
        OP_PUSHDATA4, OP_1, OP_16, OP_1NEGATE, OP_0 in *. cbn [fst snd].
      rewrite En.
      destruct (Z.leb_spec 1 n), (Z.leb_spec n 75); try lia. cbn [andb].
      destruct (Z.ltb_spec 0x60 n); [lia|]. destruct (Z.eqb_spec n 1); [lia|]. rewrite !andb_false_r.
      destruct (Z.eqb_spec n 0x4c), (Z.eqb_spec n 0x4d), (Z.eqb_spec n 0x4e), (Z.eqb_spec n 0x4f); try lia.
      destruct (Z.leb_spec 0x51 n); [lia|]. cbn [andb].
      repeat split; try lia. unfold zlen in *. rewrite length_cons, length_app, length_le_encode. lia.
    + assert (Hz : ∀ k, zlen (k :: data) = 1 + zlen data) by (intros; unfold zlen; cbn; lia).
      destruct (Z.leb_spec (zlen data) 0xff); [|destruct (Z.leb_spec (zlen data) 0xffff); [|lia]].
      * unfold wfTok, isCanonicalPush, pushedValue, encTok. cbn [fst snd].
        change (OP_16 <? 76) with false. change ((76 <? OP_PUSHDATA1) && (OP_0 <? 76)) with false.
        cbn [andb]. change (76 =? OP_PUSHDATA1) with true. change (76 =? OP_PUSHDATA2) with false.
        change (76 =? OP_PUSHDATA4) with false. cbn [andb].
        destruct (Z.ltb_spec (zlen data) OP_PUSHDATA1) as [Hx|_]; [unfold OP_PUSHDATA1 in Hx; lia|].
        change ((1 <=? 76) && (76 <=? 75)) with false. change (pushLenBytes 76) with 1%nat.
        change ((OP_1 <=? 76) && (76 <=? OP_16)) with false. change (76 =? OP_1NEGATE) with false.
        repeat split; try (vm_compute; congruence); [cbn; lia|].
        unfold zlen in *. rewrite length_cons, length_app, length_le_encode. lia.
      * unfold wfTok, isCanonicalPush, pushedValue, encTok. cbn [fst snd]. unfold OP_PUSHDATA2.
        change (OP_16 <? 77) with false. change ((77 <? OP_PUSHDATA1) && (OP_0 <? 77)) with false.
        cbn [andb]. change (77 =? OP_PUSHDATA1) with false. change (77 =? 77) with true.
        change (77 =? OP_PUSHDATA4) with false. cbn [andb].
        destruct (Z.leb_spec (zlen data) 255) as [Hx|_]; [lia|].
        change ((1 <=? 77) && (77 <=? 75)) with false. change (pushLenBytes 77) with 2%nat.
        change ((OP_1 <=? 77) && (77 <=? OP_16)) with false. change (77 =? OP_1NEGATE) with false.
        repeat split; try (vm_compute; congruence); [cbn; lia|].
        unfold zlen in *. rewrite length_cons, length_app, length_le_encode. lia.
Qed.

(** ** Facts about the builder *)


(** What [AddData] accepts after the script [s]. *)
Definition fits (s : bytes) (items : list bytes) : Prop :=
  Forall (λ d, zlen d <= MaxScriptElementSize) items
  ∧ zlen s + sumZ canonicalDataSize items <= MaxScriptSize.

Lemma canonicalDataSize_pos d : 0 < canonicalDataSize d.
Proof.
  unfold canonicalDataSize. assert (0 <= zlen d) by (unfold zlen; lia).
  repeat case_match; lia.
Qed.

Lemma AddData_failed b items : sb_err b = true → foldl AddData b items = b.
Proof.
  intros Hb. induction items as [|d items IH]; [done|]. cbn [foldl]. unfold AddData at 2. by rewrite Hb.
Qed.

Lemma sumZ_size_nonneg items : 0 <= sumZ canonicalDataSize items.
Proof. apply sumZ_nonneg. intros d. pose proof (canonicalDataSize_pos d). lia. Qed.

Lemma AddData_spec b items : sb_err b = false → zlen (sb_script b) <= MaxScriptSize →
  (sb_err (foldl AddData b items) = false ↔ fits (sb_script b) items)
  ∧ (fits (sb_script b) items →
     sb_script (foldl AddData b items) = sb_script b ++ concat (encTok ∘ pushTok <$> items)).
Proof.
  unfold fits. revert b. induction items as [|d items IH]; intros b Hb Hl.
  { cbn. rewrite app_nil_r, Z.add_0_r. split; [|done]. split; [by intros; split; [constructor|]|done]. }
  cbn [foldl]. rewrite Forall_cons. pose proof (sumZ_size_nonneg items) as Hnn.
  change (sumZ canonicalDataSize (d :: items)) with (canonicalDataSize d + sumZ canonicalDataSize items).
  assert (Hbad : ¬ (zlen d <= MaxScriptElementSize
                    ∧ zlen (sb_script b) + canonicalDataSize d <= MaxScriptSize) →
    sb_err (foldl AddData (AddData b d) items) = true).
  { intros Hn. unfold AddData at 2. rewrite Hb.
    destruct (Z.ltb_spec MaxScriptSize (zlen (sb_script b) + canonicalDataSize d)); [by rewrite AddData_failed|].
    destruct (Z.ltb_spec MaxScriptElementSize (zlen d)); [by rewrite AddData_failed|]. lia. }
  destruct (decide (zlen d <= MaxScriptElementSize ∧ zlen (sb_script b) + canonicalDataSize d <= MaxScriptSize))
    as [[H1 H2]|Hn].
  2:{ rewrite Hbad by done. split; [split; [done|]|]; intros ((? & _) & ?); destruct Hn; split; lia. }
  assert (Hd : zlen d < 2 ^ 16) by (unfold MaxScriptElementSize in H1; lia).
  assert (E : AddData b d = append b (encTok (pushTok d))).
  { unfold AddData. rewrite Hb.
    destruct (Z.ltb_spec MaxScriptSize (zlen (sb_script b) + canonicalDataSize d)); [lia|].
    destruct (Z.ltb_spec MaxScriptElementSize (zlen d)); [lia|]. by apply addData_tok. }
  destruct (pushTok_spec d Hd) as (_ & _ & _ & _ & Hsz). rewrite E.
  destruct (IH (append b (encTok (pushTok d)))) as [IH1 IH2]; [done|cbn; rewrite zlen_app; lia|].
  cbn [sb_script append] in IH1, IH2. rewrite zlen_app, Hsz in IH1, IH2. split.
  - rewrite IH1. split; intros [HA HB]; (split; [|lia]); naive_solver.
  - intros [[_ HA] HB]. rewrite IH2 by (split; [done|lia]). csimpl. by rewrite <- app_assoc.
Qed.

(** Pushed data comes back: adding a list of data items to an empty builder
    succeeds exactly if every item has at most 520 bytes and the canonical
    encodings fit into 10,000 bytes, and the script then parses, consists of
    canonical pushes only, and its instructions push exactly the items in order
    (a single zero byte is pushed as the empty string). *)
Lemma builder_pushes (items : list bytes) :
  let b := foldl AddData NewScriptBuilder items in
  (sb_err b = false ↔ Forall (λ d, zlen d <= MaxScriptElementSize) items
                      ∧ sumZ canonicalDataSize items <= MaxScriptSize)
  ∧ (sb_err b = false →
     checkScriptParses (sb_script b) = None ∧ zlen (sb_script b) <= MaxScriptSize
     ∧ Forall (λ t, isCanonicalPush t.1 t.2 = true ∧ t.1 <= OP_16) (tokens (sb_script b)).1
     ∧ pushedValue <$> (tokens (sb_script b)).1 = normalPush <$> items).
Proof.
  cbv zeta. destruct (AddData_spec NewScriptBuilder items eq_refl ltac:(done)) as [Hiff Hs].
  split; [exact Hiff|]. intros Herr. apply Hiff in Herr as Hfit. rewrite (Hs Hfit). cbn [sb_script NewScriptBuilder app].
  destruct Hfit as [H520 Hsum].
  change (zlen (sb_script NewScriptBuilder)) with 0 in Hsum. rewrite Z.add_0_l in Hsum.
  assert (Hall : Forall (λ d, zlen d < 2 ^ 16) items).
  { eapply Forall_impl; [exact H520|]. unfold MaxScriptElementSize. cbn. lia. }
  assert (Hlen : zlen (concat (encTok ∘ pushTok <$> items)) = sumZ canonicalDataSize items).
  { rewrite zlen_concat. apply sumZ_ext. intros d Hd. rewrite Forall_forall in Hall.
    by destruct (pushTok_spec d (Hall d Hd)) as (_ & _ & _ & _ & ?). }
  rewrite list_fmap_compose in *.
  destruct (proj2 (tokens_exact (concat (encTok <$> (pushTok <$> items))) (pushTok <$> items)
    ltac:(unfold MaxScriptSize in Hsum; rewrite Hlen; lia))) as [Ht Hp].
  { split; [|done]. apply Forall_fmap. eapply Forall_impl; [exact Hall|]. intros d Hd. by apply pushTok_spec. }
  rewrite Ht, Hlen. split; [done|]. split; [done|]. split.
  - apply Forall_fmap. eapply Forall_impl; [exact Hall|]. intros d Hd.
    destruct (pushTok_spec d Hd) as (_ & ? & ? & _). done.
  - rewrite <- list_fmap_compose. apply list_fmap_ext. intros i d Hd. apply list_elem_of_lookup_2 in Hd.
    rewrite Forall_forall in Hall. by destruct (pushTok_spec d (Hall d Hd)) as (_ & _ & _ & ? & _).
Qed.
