(* ===== verification/Utxo.v ===== *)
(** * The UTXO viewpoint (src/node/blockchain/utxoviewpoint.go)

    A view is a map from outpoints to entries that may be nil (an outpoint that
    was looked up and not found).  Connecting a block spends its inputs, adds
    its outputs and records what was spent; disconnecting undoes it from that
    record.  [utxoSet] is the set of unspent outputs a view stands for. *)
From Stdlib Require Import ZArith Lia Strings.Byte.
From stdpp Require Import base list gmap.
From S2P Require Import Prelude RuleErrors WireTx WireBlock Script Merkle.
Open Scope Z_scope.

#[export] Instance OutPoint_eq_dec : EqDecision OutPoint.
Proof. solve_decision. Defined.
#[export] Program Instance OutPoint_countable : Countable OutPoint :=
  inj_countable' (λ o, (op_Hash o, op_Index o)) (λ p, mkOutPoint p.1 p.2) _.
Next Obligation. by intros []. Qed.

(** ** Entries *)
Definition tfCoinBase : Z := 1.
Definition tfSpent : Z := 2.
Definition tfModified : Z := 4.
Definition tfFresh : Z := 8.

Record UtxoEntry := mkUtxoEntry {
  ue_amount : Z;
  ue_pkScript : bytes;
  ue_blockHeight : Z;
  ue_packedFlags : Z }.

(** The spent-output record of the spend journal (chainio.go). *)
Record SpentTxOut := mkSpentTxOut {
  stxo_Amount : Z;
  stxo_PkScript : bytes;
  stxo_Height : Z;
  stxo_IsCoinBase : bool }.

Definition hasFlag (e : UtxoEntry) (f : Z) : bool := Z.land (ue_packedFlags e) f =? f.
Definition isModified (e : UtxoEntry) : bool := hasFlag e tfModified.
Definition isFresh (e : UtxoEntry) : bool := hasFlag e tfFresh.
Definition IsCoinBase (e : UtxoEntry) : bool := hasFlag e tfCoinBase.
Definition IsSpent (e : UtxoEntry) : bool := hasFlag e tfSpent.

Definition setFlags (e : UtxoEntry) (f : Z) : UtxoEntry :=
  mkUtxoEntry (ue_amount e) (ue_pkScript e) (ue_blockHeight e) f.
Definition Spend (e : UtxoEntry) : UtxoEntry :=
  if IsSpent e then e
  else setFlags e (Z.lor (ue_packedFlags e) (Z.lor tfSpent tfModified)).

Definition NewUtxoEntry (txOut : TxOut) (blockHeight : Z) (isCoinbase : bool) : UtxoEntry :=
  mkUtxoEntry (to_Value txOut) (to_PkScript txOut) blockHeight (if isCoinbase then tfCoinBase else 0).

Definition stxoOf (e : UtxoEntry) : SpentTxOut :=
  mkSpentTxOut (ue_amount e) (ue_pkScript e) (ue_blockHeight e) (IsCoinBase e).

(** ** Views *)
Record UtxoViewpoint := mkView {
  entries : gmap OutPoint (option UtxoEntry);
  bestHash : bytes }.

Definition setEntry (v : UtxoViewpoint) (op : OutPoint) (e : UtxoEntry) : UtxoViewpoint :=
  mkView (<[op := Some e]> (entries v)) (bestHash v).
Definition LookupEntry (v : UtxoViewpoint) (op : OutPoint) : option UtxoEntry :=
  mjoin (entries v !! op).
Definition SetBestHash (v : UtxoViewpoint) (h : bytes) : UtxoViewpoint := mkView (entries v) h.
Definition FetchPrevOutput (v : UtxoViewpoint) (op : OutPoint) : option TxOut :=
  (λ e, mkTxOut (ue_amount e) (ue_pkScript e)) <$> LookupEntry v op.
Definition RemoveEntry (v : UtxoViewpoint) (op : OutPoint) : UtxoViewpoint :=
  mkView (delete op (entries v)) (bestHash v).

Definition addTxOut (v : UtxoViewpoint) (op : OutPoint) (txOut : TxOut) (isCoinBase : bool)
    (blockHeight : Z) : UtxoViewpoint :=
  if IsUnspendable (to_PkScript txOut) then v
  else setEntry v op (mkUtxoEntry (to_Value txOut) (to_PkScript txOut) blockHeight
         (Z.lor (Z.lor tfFresh tfModified) (if isCoinBase then tfCoinBase else 0))).

(** The loop over the outputs of a transaction, from index [i]. *)
Fixpoint addTxOutsFrom (hash : bytes) (isCoinBase : bool) (h i : Z) (outs : list TxOut)
    (v : UtxoViewpoint) : UtxoViewpoint :=
  match outs with
  | [] => v
  | o :: outs' =>
      addTxOutsFrom hash isCoinBase h (i + 1) outs'
        (addTxOut v (mkOutPoint hash (u32 i)) o isCoinBase h)
  end.

Section view.
Context (sha256 : bytes → bytes).

Definition AddTxOuts (v : UtxoViewpoint) (tx : MsgTx) (blockHeight : Z) : UtxoViewpoint :=
  addTxOutsFrom (TxHash sha256 tx) (IsCoinBaseTx tx) blockHeight 0 (tx_TxOut tx) v.

Definition AddTxOut (v : UtxoViewpoint) (tx : MsgTx) (txOutIdx blockHeight : Z) : UtxoViewpoint :=
  match tx_TxOut tx !! Z.to_nat txOutIdx with
  | None => v
  | Some o => addTxOut v (mkOutPoint (TxHash sha256 tx) txOutIdx) o (IsCoinBaseTx tx) blockHeight
  end.

(** The loop that spends the inputs; on a missing input the code stops with an
    assertion error. *)
Fixpoint spendInputs (ins : list TxIn) (v : UtxoViewpoint) (stxos : list SpentTxOut)
  : res verr (UtxoViewpoint * list SpentTxOut) :=
  match ins with
  | [] => Ok (v, stxos)
  | ti :: ins' =>
      let op := ti_PreviousOutPoint ti in
      match LookupEntry v op with
      | None => Err AssertError
      | Some e => spendInputs ins' (setEntry v op (Spend e)) (stxos ++ [stxoOf e])
      end
  end.

Definition connectTransaction (v : UtxoViewpoint) (tx : MsgTx) (blockHeight : Z)
    (stxos : list SpentTxOut) : res verr (UtxoViewpoint * list SpentTxOut) :=
  if IsCoinBaseTx tx then Ok (AddTxOuts v tx blockHeight, stxos)
  else let? (v, stxos) := spendInputs (tx_TxIn tx) v stxos in
       Ok (AddTxOuts v tx blockHeight, stxos).

Fixpoint connectLoop (h : Z) (txs : list MsgTx) (v : UtxoViewpoint) (stxos : list SpentTxOut)
  : res verr (UtxoViewpoint * list SpentTxOut) :=
  match txs with
  | [] => Ok (v, stxos)
  | tx :: txs' =>
      let? (v, stxos) := connectTransaction v tx h stxos in connectLoop h txs' v stxos
  end.

(** A block: its transactions, its height, its hash and its parent's hash. *)
Record Block := mkBlock {
  blk_Transactions : list MsgTx;
  blk_Height : Z;
  blk_Hash : bytes;
  blk_PrevBlock : bytes }.

Definition connectTransactions (v : UtxoViewpoint) (block : Block) (stxos : list SpentTxOut)
  : res verr (UtxoViewpoint * list SpentTxOut) :=
  let? (v, stxos) := connectLoop (blk_Height block) (blk_Transactions block) v stxos in
  Ok (SetBestHash v (blk_Hash block), stxos).

(** ** Disconnecting *)
Definition countSpentOutputs (block : Block) : nat :=
  foldr (λ tx n, (length (tx_TxIn tx) + n)%nat) 0%nat (drop 1 (blk_Transactions block)).

(** Every spendable output of the transaction is marked spent. *)
Fixpoint undoOutputs (hash : bytes) (flags h i : Z) (outs : list TxOut) (v : UtxoViewpoint)
  : UtxoViewpoint :=
  match outs with
  | [] => v
  | o :: outs' =>
      undoOutputs hash flags h (i + 1) outs'
        (if IsUnspendable (to_PkScript o) then v else
         let op := mkOutPoint hash (u32 i) in
         setEntry v op (Spend (default (mkUtxoEntry (to_Value o) (to_PkScript o) h flags)
                                 (LookupEntry v op))))
  end.

(** Inputs are restored from the last to the first; [stack] is what is left of
    the spend journal, its last record first ([stxoIdx] counts down). *)
Fixpoint undoInputs (ins : list TxIn) (v : UtxoViewpoint) (stack : list SpentTxOut)
  : res verr (UtxoViewpoint * list SpentTxOut) :=
  match ins with
  | [] => Ok (v, stack)
  | ti :: ins' =>
      match stack with
      | [] => Err RuntimePanic           (* index out of range: a run-time panic *)
      | stxo :: stack' =>
          undoInputs ins'
            (setEntry v (ti_PreviousOutPoint ti)
               (mkUtxoEntry (stxo_Amount stxo) (stxo_PkScript stxo) (stxo_Height stxo)
                  (Z.lor tfModified (if stxo_IsCoinBase stxo then tfCoinBase else 0)))) stack'
      end
  end.

Definition disconnectTransaction (h : Z) (isCoinBase : bool) (tx : MsgTx) (v : UtxoViewpoint)
    (stack : list SpentTxOut) : res verr (UtxoViewpoint * list SpentTxOut) :=
  let v := undoOutputs (TxHash sha256 tx) (if isCoinBase then tfCoinBase else 0) h 0 (tx_TxOut tx) v in
  if isCoinBase then Ok (v, stack) else undoInputs (reverse (tx_TxIn tx)) v stack.

(** The transactions from the last to the first; [isCoinBase] is [txIdx == 0]. *)
Fixpoint disconnectLoop (h : Z) (txs : list (bool * MsgTx)) (v : UtxoViewpoint)
    (stack : list SpentTxOut) : res verr (UtxoViewpoint * list SpentTxOut) :=
  match txs with
  | [] => Ok (v, stack)
  | (cb, tx) :: txs' =>
      let? (v, stack) := disconnectTransaction h cb tx v stack in disconnectLoop h txs' v stack
  end.

Definition indexed (txs : list MsgTx) : list (bool * MsgTx) := imap (λ i tx, ((i =? 0)%nat, tx)) txs.

Definition disconnectTransactions (v : UtxoViewpoint) (block : Block) (stxos : list SpentTxOut)
  : res verr UtxoViewpoint :=
  if negb (length stxos =? countSpentOutputs block)%nat then Err AssertError else
  let? (v, _) := disconnectLoop (blk_Height block) (reverse (indexed (blk_Transactions block))) v
                    (reverse stxos) in
  Ok (SetBestHash v (blk_PrevBlock block)).

(** ** Pruning and fetching *)
Definition commit (v : UtxoViewpoint) : UtxoViewpoint :=
  mkView (omap (λ oe : option UtxoEntry,
                  match oe with
                  | None => None
                  | Some e => if isModified e && IsSpent e then None
                              else Some (Some (setFlags e (Z.lxor (ue_packedFlags e) tfModified)))
                  end) (entries v)) (bestHash v).

(** [fetch] is [cache.fetchEntries] for one outpoint. *)
Definition fetchUtxosFromCache (fetch : OutPoint → option UtxoEntry) (v : UtxoViewpoint)
    (ops : list OutPoint) : UtxoViewpoint :=
  foldl (λ v op, mkView (<[op := fetch op]> (entries v)) (bestHash v)) v ops.

Definition fetchUtxos (fetch : OutPoint → option UtxoEntry) (v : UtxoViewpoint)
    (ops : list OutPoint) : UtxoViewpoint :=
  fetchUtxosFromCache fetch v (filter (λ op, entries v !! op = None) ops).

(** The index of the last transaction of the block with a given hash. *)
Definition txInFlight (txs : list MsgTx) : gmap bytes nat :=
  foldl (λ m p, <[TxHash sha256 p.2 := p.1]> m) ∅ (imap pair txs).

(** One input of transaction [i + 1] of the block. *)
Definition findInput (block : Block) (i : nat) (acc : UtxoViewpoint * list OutPoint) (ti : TxIn)
  : UtxoViewpoint * list OutPoint :=
  let '(v, needed) := acc in
  let op := ti_PreviousOutPoint ti in
  let txs := blk_Transactions block in
  match txInFlight txs !! op_Hash op with
  | Some idx =>
      if (idx <=? i)%nat then
        (match txs !! idx with Some origin => AddTxOuts v origin (blk_Height block) | None => v end, needed)
      else if bool_decide (is_Some (entries v !! op)) then (v, needed) else (v, needed ++ [op])
  | None => if bool_decide (is_Some (entries v !! op)) then (v, needed) else (v, needed ++ [op])
  end.

Definition findInputsToFetch (v : UtxoViewpoint) (block : Block) : UtxoViewpoint * list OutPoint :=
  foldl (λ acc p, foldl (findInput block p.1) acc (tx_TxIn p.2)) (v, [])
    (imap pair (drop 1 (blk_Transactions block))).

Definition fetchInputUtxos (fetch : OutPoint → option UtxoEntry) (v : UtxoViewpoint) (block : Block)
  : UtxoViewpoint :=
  let '(v, needed) := findInputsToFetch v block in fetchUtxosFromCache fetch v needed.
End view.

(** ** The set of unspent outputs *)
Definition coinOf (oe : option UtxoEntry) : option SpentTxOut :=
  e ← oe; if IsSpent e then None else Some (stxoOf e).
Definition utxoSet (v : UtxoViewpoint) : gmap OutPoint SpentTxOut := omap coinOf (entries v).

(** The outputs of a transaction that enter the set, with their outpoints. *)
Fixpoint spendableFrom (hash : bytes) (cb : bool) (h i : Z) (outs : list TxOut)
  : list (OutPoint * SpentTxOut) :=
  match outs with
  | [] => []
  | o :: outs' =>
      (if IsUnspendable (to_PkScript o) then []
       else [(mkOutPoint hash (u32 i), mkSpentTxOut (to_Value o) (to_PkScript o) h cb)])
      ++ spendableFrom hash cb h (i + 1) outs'
  end.

Definition insertAll (l : list (OutPoint * SpentTxOut)) (m : gmap OutPoint SpentTxOut)
  : gmap OutPoint SpentTxOut := foldl (λ m p, <[p.1 := p.2]> m) m l.
Definition deleteAll (l : list OutPoint) (m : gmap OutPoint SpentTxOut)
  : gmap OutPoint SpentTxOut := foldl (λ m op, delete op m) m l.

Lemma lookup_utxoSet v op : utxoSet v !! op = coinOf (LookupEntry v op).
Proof. unfold utxoSet, LookupEntry. rewrite lookup_omap. by destruct (entries v !! op) as [[e|]|]. Qed.

Lemma utxoSet_setEntry v op e :
  utxoSet (setEntry v op e) = match coinOf (Some e) with
                              | Some c => <[op := c]> (utxoSet v)
                              | None => delete op (utxoSet v)
                              end.
Proof.
  apply map_eq. intros k. unfold utxoSet, setEntry. cbn [entries]. rewrite lookup_omap.
  destruct (coinOf (Some e)) as [c|] eqn:E; destruct (decide (op = k)) as [<-|Hne].
  - rewrite !lookup_insert_eq. done.
  - rewrite !lookup_insert_ne, lookup_omap by done. done.
  - rewrite lookup_insert_eq, lookup_delete_eq. done.
  - rewrite lookup_insert_ne, lookup_delete_ne, lookup_omap by done. done.
Qed.

Lemma IsSpent_Spend e : IsSpent (Spend e) = true.
Proof.
  unfold Spend. destruct (IsSpent e) eqn:E; [done|]. unfold IsSpent, hasFlag, setFlags, tfSpent, tfModified.
  cbn [ue_packedFlags]. apply Z.eqb_eq. apply Z.bits_inj'. intros i Hi.
  rewrite Z.land_spec, !Z.lor_spec. change 2 with (2 ^ 1). rewrite Z.pow2_bits_eqb by lia.
  destruct (Z.eqb_spec 1 i) as [<-|]; [|by rewrite andb_false_r].
  change (Z.testbit (2 ^ 1) 1) with true. by rewrite orb_true_r.
Qed.

Lemma utxoSet_spend v op e : utxoSet (setEntry v op (Spend e)) = delete op (utxoSet v).
Proof. rewrite utxoSet_setEntry. cbn. by rewrite IsSpent_Spend. Qed.

Lemma utxoSet_bestHash v h : utxoSet (SetBestHash v h) = utxoSet v.
Proof. done. Qed.

Lemma addTxOutsFrom_set hash cb h i outs v :
  utxoSet (addTxOutsFrom hash cb h i outs v) = insertAll (spendableFrom hash cb h i outs) (utxoSet v).
Proof.
  revert i v. induction outs as [|o outs IH]; intros i v; [done|].
  cbn [addTxOutsFrom spendableFrom]. rewrite IH. unfold addTxOut.
  destruct (IsUnspendable (to_PkScript o)); [done|]. cbn [app]. unfold insertAll at 2. cbn [foldl fst snd].
  fold (insertAll (spendableFrom hash cb h (i + 1) outs)). f_equal. rewrite utxoSet_setEntry. by destruct cb.
Qed.

Lemma undoOutputs_set hash cb fl h i outs v :
  utxoSet (undoOutputs hash fl h i outs v) = deleteAll (fst <$> spendableFrom hash cb h i outs) (utxoSet v).
Proof.
  revert i v. induction outs as [|o outs IH]; intros i v; [done|].
  cbn [undoOutputs spendableFrom]. rewrite IH. destruct (IsUnspendable (to_PkScript o)); [done|].
  cbn [app]. rewrite utxoSet_spend. done.
Qed.

Lemma spendInputs_set ins v stxos coins :
  NoDup (ti_PreviousOutPoint <$> ins) →
  Forall2 (λ ti c, utxoSet v !! ti_PreviousOutPoint ti = Some c) ins coins →
  ∃ v', spendInputs ins v stxos = Ok (v', stxos ++ coins)
    ∧ utxoSet v' = deleteAll (ti_PreviousOutPoint <$> ins) (utxoSet v).
Proof.
  revert v stxos coins. induction ins as [|ti ins IH]; intros v stxos coins Hnd Hf.
  - apply Forall2_nil_inv_l in Hf as ->. exists v. rewrite app_nil_r. done.
  - apply Forall2_cons_inv_l in Hf as (c & coins' & Hc & Hf & ->). csimpl in Hnd.
    apply NoDup_cons in Hnd as [Hni Hnd]. cbn [spendInputs].
    rewrite lookup_utxoSet in Hc. destruct (LookupEntry v (ti_PreviousOutPoint ti)) as [e|] eqn:He; [|done].
    cbn in Hc. destruct (IsSpent e); [done|]. injection Hc as <-.
    destruct (IH (setEntry v (ti_PreviousOutPoint ti) (Spend e)) (stxos ++ [stxoOf e]) coins' Hnd)
      as (v' & Ev & Hv').
    { eapply Forall2_impl; [apply Forall2_same_length_lookup_2|]. 
      - by apply Forall2_length in Hf.
      - intros i a b Ha Hb. exact (conj (list_elem_of_lookup_2 _ _ _ Ha) (Forall2_lookup_lr _ _ _ _ _ _ Hf Ha Hb)).
      - intros a b [Hin Hab]. rewrite utxoSet_spend, lookup_delete_ne; [done|]. intros E. apply Hni.
        rewrite E. by apply list_elem_of_fmap_2. }
    exists v'. rewrite Ev, <- app_assoc. split; [done|]. rewrite Hv', utxoSet_spend. done.
Qed.

Lemma undoInputs_set pairs v stack :
  ∃ v', undoInputs (fst <$> pairs) v ((snd <$> pairs) ++ stack) = Ok (v', stack)
    ∧ utxoSet v' = insertAll ((λ p : TxIn * SpentTxOut, (ti_PreviousOutPoint p.1, p.2)) <$> pairs) (utxoSet v).
Proof.
  revert v. induction pairs as [|[ti c] pairs IH]; intros v; [by exists v|].
  csimpl. cbn [undoInputs]. destruct (IH (setEntry v (ti_PreviousOutPoint ti)
    (mkUtxoEntry (stxo_Amount c) (stxo_PkScript c) (stxo_Height c)
       (Z.lor tfModified (if stxo_IsCoinBase c then tfCoinBase else 0))))) as (v' & -> & Hv').
  exists v'. split; [done|]. rewrite Hv'. unfold insertAll at 2. cbn [foldl fst snd].
  unfold insertAll. f_equal. rewrite utxoSet_setEntry. by destruct c as [? ? ? []].
Qed.

Lemma lookup_deleteAll l m k : deleteAll l m !! k = if decide (k ∈ l) then None else m !! k.
Proof.
  revert m. induction l as [|op l IH]; intros m; [done|]. unfold deleteAll in *. cbn [foldl].
  rewrite IH. destruct (decide (k ∈ l)) as [Hin|Hni].
  - rewrite decide_True by (by right). done.
  - destruct (decide (k = op)) as [->|Hne].
    + rewrite lookup_delete_eq, decide_True by (by left). done.
    + rewrite lookup_delete_ne by done. rewrite decide_False; [done|]. by apply not_elem_of_cons.
Qed.

(** Inserting entries that agree with a map [M]. *)
Lemma lookup_insertAll l m (M : gmap OutPoint SpentTxOut) k : Forall (λ p : OutPoint * SpentTxOut, M !! p.1 = Some p.2) l →
  insertAll l m !! k = if decide (k ∈ fst <$> l) then M !! k else m !! k.
Proof.
  intros Hl. revert m. induction Hl as [|[op c] l Hp Hl IH]; intros m; [done|].
  unfold insertAll in *. cbn [foldl fst snd] in *. rewrite IH. csimpl.
  destruct (decide (k ∈ fst <$> l)) as [Hin|Hni].
  - rewrite decide_True by (by right). done.
  - destruct (decide (k = op)) as [->|Hne].
    + rewrite lookup_insert_eq, decide_True by (by left). done.
    + rewrite lookup_insert_ne by done. rewrite decide_False; [done|]. by apply not_elem_of_cons.
Qed.

Lemma lookup_insertAll_ne l m k : k ∉ fst <$> l → insertAll l m !! k = m !! k.
Proof.
  revert m. induction l as [|[op c] l IH]; intros m Hk; [done|]. csimpl in Hk.
  apply not_elem_of_cons in Hk as [Hne Hk]. unfold insertAll in *. cbn [foldl fst snd].
  rewrite IH, lookup_insert_ne by done. done.
Qed.

Section roundtrip.
Context (sha256 : bytes → bytes).

Definition outsOf (h : Z) (tx : MsgTx) : list (OutPoint * SpentTxOut) :=
  spendableFrom (TxHash sha256 tx) (IsCoinBaseTx tx) h 0 (tx_TxOut tx).
Definition insOf (tx : MsgTx) : list OutPoint := ti_PreviousOutPoint <$> tx_TxIn tx.

(** What block validation has established of a transaction against the set
    [m] before it is connected: its inputs are distinct and unspent, and it
    creates no output that is still unspent. *)
Definition txOk (h : Z) (m : gmap OutPoint SpentTxOut) (tx : MsgTx) (coins : list SpentTxOut) : Prop :=
  Forall (λ p, m !! p.1 = None) (outsOf h tx) ∧
  if IsCoinBaseTx tx then coins = []
  else NoDup (insOf tx) ∧ Forall2 (λ ti c, m !! ti_PreviousOutPoint ti = Some c) (tx_TxIn tx) coins.

(** The transition of the unspent set. *)
Definition txSet (h : Z) (m : gmap OutPoint SpentTxOut) (tx : MsgTx) : gmap OutPoint SpentTxOut :=
  insertAll (outsOf h tx) (if IsCoinBaseTx tx then m else deleteAll (insOf tx) m).

Inductive blockOk (h : Z) : gmap OutPoint SpentTxOut → list MsgTx → list SpentTxOut →
    gmap OutPoint SpentTxOut → Prop :=
| blockOk_nil m : blockOk h m [] [] m
| blockOk_cons m tx txs coins rest m' :
    txOk h m tx coins → blockOk h (txSet h m tx) txs rest m' →
    blockOk h m (tx :: txs) (coins ++ rest) m'.

Lemma connectTransaction_set h v tx stxos coins : txOk h (utxoSet v) tx coins →
  ∃ v', connectTransaction sha256 v tx h stxos = Ok (v', stxos ++ coins)
    ∧ utxoSet v' = txSet h (utxoSet v) tx.
Proof.
  intros [Houts Hin]. unfold connectTransaction, txSet, outsOf, AddTxOuts.
  destruct (IsCoinBaseTx tx) eqn:E.
  - subst coins. eexists. rewrite app_nil_r. split; [reflexivity|]. by rewrite addTxOutsFrom_set.
  - destruct Hin as [Hnd Hf]. destruct (spendInputs_set _ v stxos coins Hnd Hf) as (v1 & -> & Hv1).
    eexists. split; [reflexivity|]. by rewrite addTxOutsFrom_set, Hv1.
Qed.

Lemma connectLoop_set h v txs stxos coins m' : blockOk h (utxoSet v) txs coins m' →
  ∃ v', connectLoop sha256 h txs v stxos = Ok (v', stxos ++ coins) ∧ utxoSet v' = m'.
Proof.
  intros Hb. remember (utxoSet v) as m eqn:Em. revert v stxos Em.
  induction Hb as [m|m tx txs coins rest m' Htx Hb IH]; intros v stxos ->.
  - exists v. rewrite app_nil_r. done.
  - cbn [connectLoop]. destruct (connectTransaction_set h v tx stxos coins Htx) as (v1 & -> & Hv1).
    cbn [res_bind]. destruct (IH v1 (stxos ++ coins) (eq_sym Hv1)) as (v2 & -> & Hv2).
    exists v2. by rewrite <- app_assoc.
Qed.

(** Undoing one transaction restores the set. *)
Lemma disconnectTransaction_set h v tx m coins stack : txOk h m tx coins → utxoSet v = txSet h m tx →
  ∃ v', disconnectTransaction sha256 h (IsCoinBaseTx tx) tx v (reverse coins ++ stack) = Ok (v', stack)
    ∧ utxoSet v' = m.
Proof.
  intros [Houts Hin] Hv. unfold disconnectTransaction.
  set (v1 := undoOutputs _ _ _ _ _ v).
  assert (Hv1 : utxoSet v1 = if IsCoinBaseTx tx then m else deleteAll (insOf tx) m).
  { unfold v1. rewrite (undoOutputs_set _ (IsCoinBaseTx tx)), Hv. fold (outsOf h tx). unfold txSet.
    apply map_eq. intros k. rewrite lookup_deleteAll. destruct (decide (k ∈ fst <$> outsOf h tx)) as [Hk|Hk].
    - apply list_elem_of_fmap in Hk as (p & -> & Hp). rewrite Forall_forall in Houts.
      specialize (Houts p Hp). destruct (IsCoinBaseTx tx); [done|].
      rewrite lookup_deleteAll. by destruct (decide _).
    - by rewrite lookup_insertAll_ne. }
  destruct (IsCoinBaseTx tx) eqn:E.
  - subst coins. exists v1. done.
  - destruct Hin as [Hnd Hf]. pose proof (Forall2_length _ _ _ Hf) as Hlen.
    destruct (undoInputs_set (reverse (zip (tx_TxIn tx) coins)) v1 stack) as (v2 & E2 & Hv2).
    rewrite !fmap_reverse, fst_zip, snd_zip in E2 by lia. exists v2. split; [done|].
    rewrite Hv2, Hv1. apply map_eq. intros k.
    rewrite (lookup_insertAll _ _ m).
    + rewrite lookup_deleteAll.
      replace (fst <$> ((λ p : TxIn * SpentTxOut, (ti_PreviousOutPoint p.1, p.2)) <$> reverse (zip (tx_TxIn tx) coins)))
        with (reverse (insOf tx)).
      2:{ rewrite !fmap_reverse, <- list_fmap_compose. f_equal. unfold insOf.
          transitivity (ti_PreviousOutPoint <$> (fst <$> zip (tx_TxIn tx) coins));
            [by rewrite fst_zip by lia|by rewrite <- list_fmap_compose]. }
      destruct (decide (k ∈ reverse (insOf tx))) as [Hk|Hk]; [done|].
      rewrite decide_False; [done|]. by rewrite elem_of_reverse in Hk.
    + apply Forall_fmap, Forall_reverse, Forall_forall. intros [ti c] Hp. cbn.
      apply list_elem_of_lookup in Hp as [i Hi]. rewrite lookup_zip_Some in Hi. destruct Hi as [H1 H2].
      exact (Forall2_lookup_lr _ _ _ _ _ _ Hf H1 H2).
Qed.

Lemma disconnectLoop_app h l1 l2 v stack v1 stack1 :
  disconnectLoop sha256 h l1 v stack = Ok (v1, stack1) →
  disconnectLoop sha256 h (l1 ++ l2) v stack = disconnectLoop sha256 h l2 v1 stack1.
Proof.
  revert v stack. induction l1 as [|[cb tx] l1 IH]; intros v stack H; [by injection H as -> ->|].
  cbn [disconnectLoop app] in *. destruct (disconnectTransaction sha256 h cb tx v stack) as [[v' st']|]; [|done].
  cbn [res_bind] in *. by apply IH.
Qed.

Lemma disconnectLoop_set h m txs coins m' v stack : blockOk h m txs coins m' → utxoSet v = m' →
  ∃ v', disconnectLoop sha256 h (reverse ((λ tx, (IsCoinBaseTx tx, tx)) <$> txs)) v (reverse coins ++ stack)
        = Ok (v', stack) ∧ utxoSet v' = m.
Proof.
  intros Hb. revert v stack. induction Hb as [m|m tx txs coins rest m' Htx Hb IH]; intros v stack Hv.
  - exists v. done.
  - rewrite reverse_app, <- app_assoc. csimpl. rewrite reverse_cons.
    destruct (IH v (reverse coins ++ stack) Hv) as (v1 & E1 & Hv1).
    rewrite (disconnectLoop_app _ _ _ _ _ _ _ E1). cbn [disconnectLoop].
    destruct (disconnectTransaction_set h v1 tx m coins stack Htx Hv1) as (v2 & -> & Hv2).
    exists v2. done.
Qed.

Lemma blockOk_count h m txs coins m' : Forall (λ tx, IsCoinBaseTx tx = false) txs →
  blockOk h m txs coins m' → length coins = foldr (λ tx n, (length (tx_TxIn tx) + n)%nat) 0%nat txs.
Proof.
  intros Hcb Hb. induction Hb as [m|m tx txs coins rest m' [_ Htx] Hb IH]; [done|].
  apply Forall_cons in Hcb as [H1 H2]. rewrite H1 in Htx. destruct Htx as [_ Hf].
  cbn [foldr]. rewrite length_app, IH by done. by rewrite (Forall2_length _ _ _ Hf).
Qed.

Lemma indexed_flags cb txs : IsCoinBaseTx cb = true → Forall (λ tx, IsCoinBaseTx tx = false) txs →
  indexed (cb :: txs) = (λ tx, (IsCoinBaseTx tx, tx)) <$> cb :: txs.
Proof.
  intros Hcb Htxs. unfold indexed. cbn [imap]. csimpl. rewrite Hcb. f_equal.
  apply list_eq. intros i. rewrite list_lookup_imap, list_lookup_fmap.
  destruct (txs !! i) as [tx|] eqn:E; [|done]. cbn. by rewrite (Forall_lookup_1 _ _ _ _ Htxs E).
Qed.

(** C3. Disconnecting undoes connecting: from any view against which a block is
    valid (first transaction a coinbase and only that one, inputs unspent, no
    unspent output overwritten), connecting it never fails and moves the unspent
    set by the block's inputs and spendable outputs, and disconnecting it with
    the spend journal just recorded never fails and gives back exactly the
    unspent set and the best hash from before: the state a reorganisation
    resumes from. *)
Theorem connect_disconnect_roundtrip (v : UtxoViewpoint) (h : Z) (hash prev : bytes)
  (cb : MsgTx) (txs : list MsgTx) (coins : list SpentTxOut) (m' : gmap OutPoint SpentTxOut)
  (Hprev : bestHash v = prev)
  (Hcb : IsCoinBaseTx cb = true) (Htxs : Forall (λ tx, IsCoinBaseTx tx = false) txs)
  (Hok : blockOk h (utxoSet v) (cb :: txs) coins m') :
  let block := mkBlock (cb :: txs) h hash prev in
  ∃ v1 v2, connectTransactions sha256 v block [] = Ok (v1, coins)
    ∧ utxoSet v1 = m' ∧ bestHash v1 = hash
    ∧ disconnectTransactions sha256 v1 block coins = Ok v2
    ∧ utxoSet v2 = utxoSet v ∧ bestHash v2 = bestHash v.
Proof.
  cbv zeta. unfold connectTransactions, disconnectTransactions. cbn [blk_Height blk_Transactions blk_Hash blk_PrevBlock].
  destruct (connectLoop_set h v (cb :: txs) [] coins m' Hok) as (v1 & -> & Hv1). cbn [app res_bind].
  exists (SetBestHash v1 hash).
  assert (Hcount : (length coins =? countSpentOutputs (mkBlock (cb :: txs) h hash prev))%nat = true).
  { apply Nat.eqb_eq. unfold countSpentOutputs. cbn [blk_Transactions drop].
    inversion Hok as [|? ? ? cs rest ? [_ Hcoins] Hb]; subst. rewrite Hcb in Hcoins. subst cs. cbn [app].
    rewrite drop_0. by apply (blockOk_count _ _ _ _ _ Htxs Hb). }
  rewrite Hcount. cbn [negb]. rewrite indexed_flags by done.
  destruct (disconnectLoop_set h (utxoSet v) (cb :: txs) coins m' (SetBestHash v1 hash) [] Hok)
    as (v2 & E2 & Hv2); [done|]. rewrite app_nil_r in E2. rewrite E2. cbn [res_bind].
  exists (SetBestHash v2 prev). rewrite Hprev. done.
Qed.
End roundtrip.

Definition demoView : UtxoViewpoint :=
  mkView {[ mkOutPoint (replicate 32 x05) 0 := Some (mkUtxoEntry 50 [x51] 7 tfCoinBase) ]} zeroHash.
Definition demoSpend : MsgTx :=
  mkMsgTx 1 [mkTxIn (mkOutPoint (replicate 32 x05) 0) [] [] 0] [mkTxOut 20 [x51]; mkTxOut 30 [x6a]] 0.

Lemma connect_disconnect_roundtrip_witness :
  let coins := [mkSpentTxOut 50 [x51] 7 true] in
  ∃ m' v1 v2,
    connectTransactions toySha demoView (mkBlock [demoCoinbase; demoSpend] 200 zeroHash zeroHash) []
      = Ok (v1, coins)
    ∧ utxoSet v1 = m'
    ∧ disconnectTransactions toySha v1 (mkBlock [demoCoinbase; demoSpend] 200 zeroHash zeroHash) coins = Ok v2
    ∧ utxoSet v2 = utxoSet demoView.
Proof.
  cbv zeta.
  set (m1 := txSet toySha 200 (utxoSet demoView) demoCoinbase).
  set (m2 := txSet toySha 200 m1 demoSpend).
  exists m2. destruct (connect_disconnect_roundtrip toySha demoView 200 zeroHash zeroHash demoCoinbase
    [demoSpend] [mkSpentTxOut 50 [x51] 7 true] m2) as (v1 & v2 & H1 & H2 & _ & H3 & H4 & _).
  - reflexivity.
  - reflexivity.
  - by repeat constructor.
  - apply (blockOk_cons toySha 200 _ demoCoinbase [demoSpend] [] [mkSpentTxOut 50 [x51] 7 true]).
    + split; [|reflexivity]. vm_compute. constructor.
    + apply (blockOk_cons toySha 200 _ demoSpend [] [mkSpentTxOut 50 [x51] 7 true] []); [|constructor].
      split; [apply Forall_cons; split; [vm_compute; reflexivity|constructor]|].
      change (IsCoinBaseTx demoSpend) with false. cbv iota.
      split; [apply NoDup_singleton|]. constructor; [vm_compute; reflexivity|constructor].
  - exists v1, v2. done.
Defined.

(** [commit] keeps the unspent set, drops what is nil or spent, clears the
    modified flag of every surviving modified entry, and also sets that flag on
    every entry that was not modified: the flag is toggled where the comment
    promises that all entries are marked unmodified. *)
Lemma commit_toggles_modified (v : UtxoViewpoint) :
  utxoSet (commit v) = utxoSet v
  ∧ ∀ op e, LookupEntry v op = Some e →
      match LookupEntry (commit v) op with
      | Some e' => isModified e' = negb (isModified e) ∧ stxoOf e' = stxoOf e
      | None => isModified e = true ∧ IsSpent e = true
      end.
Proof.
  assert (Hbit : ∀ f k, 0 <= k → k ≠ 2 → Z.testbit (Z.lxor f tfModified) k = Z.testbit f k).
  { intros f k Hk Hne. rewrite Z.lxor_spec. unfold tfModified. change 4 with (2 ^ 2).
    rewrite Z.pow2_bits_eqb by lia. destruct (Z.eqb_spec 2 k); [done|]. by rewrite xorb_false_r. }
  assert (Hflag : ∀ e k, 0 <= k → hasFlag e (2 ^ k) = Z.testbit (ue_packedFlags e) k).
  { intros e k Hk. unfold hasFlag. destruct (Z.testbit (ue_packedFlags e) k) eqn:E.
    - apply Z.eqb_eq. apply Z.bits_inj'. intros i Hi. rewrite Z.land_spec, Z.pow2_bits_eqb by lia.
      destruct (Z.eqb_spec k i) as [<-|]; [by rewrite E|by rewrite andb_false_r].
    - apply Z.eqb_neq. intros H. apply (f_equal (λ z, Z.testbit z k)) in H.
      rewrite Z.land_spec, E, Z.pow2_bits_eqb, Z.eqb_refl in H by lia. done. }
  assert (Hkeep : ∀ e, IsSpent (setFlags e (Z.lxor (ue_packedFlags e) tfModified)) = IsSpent e
    ∧ stxoOf (setFlags e (Z.lxor (ue_packedFlags e) tfModified)) = stxoOf e
    ∧ isModified (setFlags e (Z.lxor (ue_packedFlags e) tfModified)) = negb (isModified e)).
  { intros e. unfold IsSpent, stxoOf, IsCoinBase, isModified, tfSpent, tfCoinBase.
    rewrite !(Hflag _ 1), !(Hflag _ 0) by lia. change tfModified with (2 ^ 2) at 2 4.
    rewrite !(Hflag _ 2) by lia. unfold setFlags. cbn [ue_packedFlags ue_amount ue_pkScript ue_blockHeight].
    rewrite !Hbit by lia. split; [done|]. split; [done|].
    rewrite Z.lxor_spec. change (Z.testbit tfModified 2) with true. by rewrite xorb_true_r. }
  split.
  - apply map_eq. intros k. rewrite !lookup_utxoSet. unfold LookupEntry, commit. cbn [entries].
    rewrite lookup_omap. destruct (entries v !! k) as [[e|]|]; [|done|done]. cbn.
    destruct (Hkeep e) as (H1 & H2 & _).
    destruct (isModified e && IsSpent e) eqn:E; cbn; [bsplit; match goal with H : IsSpent e = true |- _ => by rewrite H end|].
    by rewrite H1, H2.
  - intros op e He. unfold LookupEntry, commit in *. cbn [entries]. rewrite lookup_omap.
    destruct (entries v !! op) as [[e'|]|]; [|done|done]. cbn in *. injection He as ->.
    destruct (Hkeep e) as (_ & H2 & H3). destruct (isModified e && IsSpent e) eqn:E; cbn; [by apply andb_true_iff|].
    done.
Qed.
