(* ===== verification/Covenant.v ===== *)
(** * Inference bounties and issuance
    (src/node/blockchain/inference_covenant.go, src/node/blockchain/inferencego.go)

    The covenant script that locks an inference fee, the claim and refund rules
    applied when it is spent, and the rules of version-5 issuance transactions.
    BIP-340 signatures are reached through the interface [Schnorr]; SHA3-256 is
    a parameter. *)
From Stdlib Require Import ZArith Lia Strings.Byte Strings.String.
From stdpp Require Import base list gmap.
From S2P Require Import Prelude RuleErrors WireTx WireBlock WireInference Chaincfg BlockIndex Merkle Utxo.
Open Scope Z_scope.

(** What the validation code uses of package schnorr (and of the taproot tweak
    of package txscript). *)
Class Schnorr := {
  PubKey : Type;
  Sig : Type;
  ParsePubKey : bytes → option PubKey;
  ParseSignature : bytes → option Sig;
  Verify : Sig → bytes → PubKey → bool;
  ComputeTaprootKeyNoScript : PubKey → PubKey;
  SerializePubKey : PubKey → bytes }.

(** ** The covenant script *)
Module Bounty.

Definition inferenceBountyMagic : bytes := [x6d; x64; x6c; x62].
Definition inferenceBountyVersion : byte := x01.
Definition inferenceBountyDataSize : nat := (4 + 1 + 32 + 32 + 32 + 8 + 2)%nat.
Definition inferenceBountyScriptSize : nat := (2 + inferenceBountyDataSize)%nat.
Definition refundSigHashTag : bytes :=
  [x4d; x44; x4c; x2d; x49; x4e; x46; x45; x52; x45; x4e; x43; x45; x2d; x52; x45; x46; x55; x4e; x44].

Record InferenceBountyParams := mk {
  RequesterPubKey : bytes;
  CoordinatorPubKey : bytes;
  PromptHash : bytes;
  Nonce : Z;
  ModelVersion : Z }.

Definition wf (p : InferenceBountyParams) : Prop :=
  length (RequesterPubKey p) = 32%nat ∧ length (CoordinatorPubKey p) = 32%nat
  ∧ length (PromptHash p) = 32%nat ∧ inU 64 (Nonce p) ∧ inU 16 (ModelVersion p).

Definition BuildInferenceBountyScript (p : InferenceBountyParams) : bytes :=
  [x4c; z2b (Z.of_nat inferenceBountyDataSize)] ++ inferenceBountyMagic ++ [inferenceBountyVersion]
  ++ RequesterPubKey p ++ CoordinatorPubKey p ++ PromptHash p
  ++ le_encode 8 (Nonce p) ++ le_encode 2 (ModelVersion p).

Definition ParseInferenceBountyScript (pkScript : bytes) : option InferenceBountyParams :=
  if negb (length pkScript =? inferenceBountyScriptSize)%nat then None else
  if negb (bool_decide (pkScript !! 0%nat = Some x4c))
     || negb (bool_decide (pkScript !! 1%nat = Some (z2b (Z.of_nat inferenceBountyDataSize)))) then None else
  let d := drop 2 pkScript in
  if negb (bool_decide (slice 0 4 d = inferenceBountyMagic)) then None else
  if negb (bool_decide (d !! 4%nat = Some inferenceBountyVersion)) then None else
  Some (mk (slice 5 37 d) (slice 37 69 d) (slice 69 101 d)
          (le_decode (slice 101 109 d)) (le_decode (slice 109 111 d))).

Definition IsInferenceBountyScript (pkScript : bytes) : bool :=
  match ParseInferenceBountyScript pkScript with Some _ => true | None => false end.

(** The 106 bytes after the magic and the version. *)
Definition body (p : InferenceBountyParams) : bytes :=
  RequesterPubKey p ++ CoordinatorPubKey p ++ PromptHash p
  ++ le_encode 8 (Nonce p) ++ le_encode 2 (ModelVersion p).
Definition bodyFields (b : bytes) : InferenceBountyParams :=
  mk (slice 0 32 b) (slice 32 64 b) (slice 64 96 b) (le_decode (slice 96 104 b)) (le_decode (slice 104 106 b)).

Lemma bodyFields_body p : wf p → bodyFields (body p) = p.
Proof.
  destruct p as [rk ck ph no mv]. intros (H1 & H2 & H3 & H4 & H5). cbn in H1, H2, H3, H4, H5.
  unfold bodyFields, body. cbn [RequesterPubKey CoordinatorPubKey PromptHash Nonce ModelVersion].
  assert (L8 : length (le_encode 8 no) = 8%nat) by apply length_le_encode.
  assert (L2 : length (le_encode 2 mv) = 2%nat) by apply length_le_encode.
  f_equal; try (by slices).
  - transitivity (le_decode (le_encode 8 no)); [f_equal; by slices|by eapply le_roundtrip].
  - transitivity (le_decode (le_encode 2 mv)); [f_equal; by slices|by eapply le_roundtrip].
Qed.

Lemma body_bodyFields b : length b = 106%nat → body (bodyFields b) = b ∧ wf (bodyFields b).
Proof.
  intros Hl. unfold body, wf, bodyFields.
  cbn [RequesterPubKey CoordinatorPubKey PromptHash Nonce ModelVersion].
  rewrite !le_encode_decode' by (rewrite length_slice; lia). split.
  - rewrite !slice_join by lia. by apply slice_all.
  - rewrite !length_slice by lia. split; [done|]. split; [done|]. split; [done|].
    split; [apply (le_decode_inU 8)|apply (le_decode_inU 2)]; try done; rewrite length_slice; lia.
Qed.

(** The parser accepts exactly what the builder writes. *)
Lemma bounty_script_iff s p :
  ParseInferenceBountyScript s = Some p ↔ s = BuildInferenceBountyScript p ∧ wf p.
Proof.
  unfold ParseInferenceBountyScript. split.
  - intros H. destruct (length s =? inferenceBountyScriptSize)%nat eqn:Hl; [|done].
    apply Nat.eqb_eq in Hl. cbn [negb] in H.
    destruct s as [|b0 [|b1 [|m0 [|m1 [|m2 [|m3 [|v b]]]]]]]; try done.
    cbn [lookup list_lookup drop] in H. rewrite ?drop_0 in H.
    repeat (case_bool_decide; try done). cbn [negb orb] in H. injection H as <-.
    change (slice 0 4 (m0 :: m1 :: m2 :: m3 :: v :: b)) with [m0; m1; m2; m3] in *.
    unfold inferenceBountyMagic in *. simplify_eq.
    assert (Hb : length b = 106%nat) by (cbn in Hl; lia).
    destruct (body_bodyFields b Hb) as [Eb Hw].
    change (mk _ _ _ _ _) with (bodyFields b). split; [|done].
    unfold BuildInferenceBountyScript. fold (body (bodyFields b)). by rewrite Eb.
  - intros [-> Hw]. unfold BuildInferenceBountyScript. fold (body p).
    assert (Hb : length (body p) = 106%nat).
    { destruct Hw as (H1 & H2 & H3 & _). unfold body. rewrite !length_app, !length_le_encode. lia. }
    replace (Some p) with (Some (bodyFields (body p))) by (by rewrite bodyFields_body).
    revert Hb. generalize (body p) as b. intros b Hb.
    rewrite !length_app, Hb. cbn [length inferenceBountyMagic app Nat.add inferenceBountyScriptSize
      inferenceBountyDataSize Nat.eqb negb lookup list_lookup drop]. rewrite ?drop_0.
    rewrite !bool_decide_eq_true_2 by done. cbn [negb orb].
    done.
Qed.

(** ** Claims and refunds *)
Section spends.
Context `{Schnorr} (sha3 : bytes → bytes).

Definition recomputeInferenceCommitment (promptHash resultHash workerAddress blockHash : bytes)
    (nonce modelVersion : Z) : bytes :=
  sha3 (promptHash ++ resultHash ++ workerAddress ++ blockHash
        ++ le_encode 8 nonce ++ le_encode 2 modelVersion).

(** Every failure of the covenant is the rule error [ErrBadTxOutValue]. *)
Definition bad {A} : res verr A := Err (ruleError ErrBadTxOutValue).

Definition ValidateInferenceBountyClaim (proof : Proof.InferenceResultProof)
    (params : InferenceBountyParams) (confirmBlockHash : bytes) : res verr unit :=
  if negb (bool_decide (Proof.BlockHash proof = confirmBlockHash)) then bad else
  let want := recomputeInferenceCommitment (PromptHash params) (Proof.ResultHash proof)
                (Proof.WorkerAddress proof) (Proof.BlockHash proof) (Nonce params) (ModelVersion params) in
  if negb (bool_decide (want = Proof.CommitmentHash proof)) then bad else
  if negb (bool_decide (Proof.WorkerAddress proof !! 0%nat = Some x51))
     || negb (bool_decide (Proof.WorkerAddress proof !! 1%nat = Some x20)) then bad else
  match ParsePubKey (slice 2 34 (Proof.WorkerAddress proof)) with
  | None => bad
  | Some workerKey =>
      match ParseSignature (Proof.Signature proof) with
      | None => bad
      | Some workerSig =>
          if negb (Verify workerSig (Proof.CommitmentHash proof) workerKey) then bad else
          match ParsePubKey (CoordinatorPubKey params) with
          | None => bad
          | Some coordKey =>
              match ParseSignature (Proof.CoordinatorSignature proof) with
              | None => bad
              | Some coordSig =>
                  if negb (Verify coordSig (Proof.CommitmentHash proof) coordKey) then bad else Ok tt
              end
          end
      end
  end.

Definition InferenceRefundSigHash (bounty : OutPoint) : bytes :=
  sha3 (refundSigHashTag ++ op_Hash bounty ++ le_encode 4 (op_Index bounty)).

Definition ValidateInferenceBountyRefund (refundSig : bytes) (params : InferenceBountyParams)
    (bounty : OutPoint) : res verr unit :=
  match ParsePubKey (RequesterPubKey params) with
  | None => bad
  | Some reqKey =>
      match ParseSignature refundSig with
      | None => bad
      | Some sig => if negb (Verify sig (InferenceRefundSigHash bounty) reqKey) then bad else Ok tt
      end
  end.

(** int32 arithmetic. *)
Definition inferenceBountyWithinWindow (confirmHeight spendHeight : Z) : bool :=
  i32 (spendHeight - confirmHeight) <=? Payload.InferenceProofWindowBlocks.

Definition CheckInferenceBountySpend (spendingTx : MsgTx) (params : InferenceBountyParams)
    (bountyOutPoint : OutPoint) (confirmHeight spendHeight : Z) (confirmBlockHash refundSig : bytes)
  : res verr unit :=
  if inferenceBountyWithinWindow confirmHeight spendHeight then
    match Proof.ExtractInferenceResultProof spendingTx with
    | Err _ => bad
    | Ok proof => ValidateInferenceBountyClaim proof params confirmBlockHash
    end
  else ValidateInferenceBountyRefund refundSig params bountyOutPoint.

(** The 64-byte refund signature is the first witness item of the input; when
    it is absent the array stays zero. *)
Definition refundSigOf (txIn : TxIn) : bytes :=
  match ti_Witness txIn with
  | w :: _ => if (length w =? 64)%nat then w else replicate 64 x00
  | [] => replicate 64 x00
  end.

(** One input of the spending transaction, connected at [spendHeight] on top of
    [node] (or of the tip). *)
Definition checkSpendInput (tx : MsgTx) (hp : heap) (node : ptr) (spendHeight : Z)
    (view : UtxoViewpoint) (txIn : TxIn) : res verr unit :=
  match LookupEntry view (ti_PreviousOutPoint txIn) with
  | None => Ok tt
  | Some entry =>
      match ParseInferenceBountyScript (ue_pkScript entry) with
      | None => Ok tt
      | Some params =>
          match Ancestor hp node (ue_blockHeight entry) ≫= (hp !!.) with
          | None => bad
          | Some anc =>
              CheckInferenceBountySpend tx params (ti_PreviousOutPoint txIn)
                (ue_blockHeight entry) spendHeight (bn_hash anc) (refundSigOf txIn)
          end
      end
  end.

Fixpoint checkSpendInputs (f : TxIn → res verr unit) (ins : list TxIn) : res verr unit :=
  match ins with
  | [] => Ok tt
  | ti :: ins' => let? _ := f ti in checkSpendInputs f ins'
  end.

Definition checkInferenceBountySpends (tx : MsgTx) (hp : heap) (node : ptr) (view : UtxoViewpoint)
  : res verr unit :=
  match hp !! node with
  | None => Err RuntimePanic
  | Some nd => checkSpendInputs (checkSpendInput tx hp node (bn_height nd) view) (tx_TxIn tx)
  end.

Definition CheckInferenceBountySpendsAgainstTip (tx : MsgTx) (hp : heap) (tipNode : option ptr)
    (view : UtxoViewpoint) : res verr unit :=
  match tipNode ≫= (λ p, (λ nd, (p, nd)) <$> hp !! p) with
  | None => Ok tt
  | Some (p, nd) => checkSpendInputs (checkSpendInput tx hp p (i32 (bn_height nd + 1)) view) (tx_TxIn tx)
  end.
End spends.
End Bounty.

(** ** Issuance (version-5 transactions) *)
Module InferenceGo.
Import GoPayload.

Definition inferenceGoSigHashTag : bytes :=
  [x4d; x44; x4c; x2d; x49; x4e; x46; x45; x52; x45; x4e; x43; x45; x47; x4f; x2d; x49; x53; x53; x55; x45].
Definition inferenceGoForkHeight : Z := 36438.
Definition inferenceGoForkActive (height : Z) : bool :=
  negb (inferenceGoForkHeight =? 0) && (inferenceGoForkHeight <=? height).

Definition inferenceGoMainnetAuthority : bytes := hexBytes
  "8567c2f652b4e2a4b3cdfff6c4de5b8448cb0ab267c69497807734409065fbd7"%string.
Definition inferenceGoTestnetAuthority : bytes := hexBytes
  "6335cf719087682b0d3281416441335c18123807a6166f5da074888e59104665"%string.
Definition inferenceGoRegtestAuthority : bytes := hexBytes
  "8e9a4e18f923f4c4ec41b546f46f605b765df36afa8600793ca8bfbe7d5a0e4b"%string.

Definition inferenceGoAuthority (params : Params) : bytes :=
  if Net params =? MainNet then inferenceGoMainnetAuthority
  else if (Net params =? TestNet) || (Net params =? TestNet2) then inferenceGoTestnetAuthority
  else inferenceGoRegtestAuthority.

Definition GrainPerMDL : Z := 10 ^ 8.
Definition MaxGrain : Z := 21 * 10 ^ 7 * GrainPerMDL.

Section issuance.
Context `{Schnorr} (sha3 : bytes → bytes).

(** The index is written byte by byte. *)
Definition InferenceGoSigHash (p : InferenceGoPayload) (firstInput : OutPoint) : bytes :=
  let i := op_Index firstInput in
  sha3 (inferenceGoSigHashTag ++ SignedBytes p ++ op_Hash firstInput
        ++ [z2b i; z2b (Z.shiftr i 8); z2b (Z.shiftr i 16); z2b (Z.shiftr i 24)]).

Definition taprootOutputKey (internal : bytes) : option bytes :=
  pub ← ParsePubKey internal; Some (SerializePubKey (ComputeTaprootKeyNoScript pub)).

(** [paid += txOut.Value] over the outputs to [want], in int64. *)
Definition paidTo (want : bytes) (outs : list TxOut) : Z :=
  foldl (λ paid o, if bool_decide (to_PkScript o = want) then i64 (paid + to_Value o) else paid) 0 outs.

Definition bad {A} : res verr A := Err (ruleError ErrBadTxOutValue).

Definition ValidateInferenceGoTx (msgTx : MsgTx) (authority : bytes) : res verr Z :=
  if negb (CountInferenceGoPayloadOutputs msgTx =? 1)%nat then bad else
  match ExtractInferenceGoPayload msgTx with
  | Err _ => bad
  | Ok payload =>
      match tx_TxIn msgTx with
      | [] => bad
      | firstIn :: _ =>
          if u64 MaxGrain <? Amount payload then bad else
          let amount := i64 (Amount payload) in
          if amount <=? 0 then bad else
          match ParsePubKey authority with
          | None => bad
          | Some authKey =>
              match ParseSignature (Signature payload) with
              | None => bad
              | Some sig =>
                  if negb (Verify sig (InferenceGoSigHash payload (ti_PreviousOutPoint firstIn)) authKey)
                  then bad else
                  match (if HasDestination payload then Some (Destination payload)
                         else taprootOutputKey authority) with
                  | None => bad
                  | Some dest =>
                      if paidTo (InferenceGoP2TRScript dest) (tx_TxOut msgTx) <? amount
                      then bad else Ok amount
                  end
              end
          end
      end
  end.

Definition CheckInferenceGoIssuance (msgTx : MsgTx) (height : Z) (params : Params) : res verr Z :=
  if negb (tx_Version msgTx =? TxVersionInferenceGo) then Ok 0 else
  if negb (inferenceGoForkActive height) then bad else
  if IsCoinBaseTx msgTx then bad else
  ValidateInferenceGoTx msgTx (inferenceGoAuthority params).
End issuance.
End InferenceGo.

(** ** What a spend of a bounty proves *)
Open Scope list_scope.
Section bounty_facts.
Import Bounty.
Context `{Schnorr} (sha3 : bytes → bytes).

(** A key in x-only form, a signature and a message that verify. *)
Definition signedBy (key sig msg : bytes) : Prop :=
  ∃ k s, ParsePubKey key = Some k ∧ ParseSignature sig = Some s ∧ Verify s msg k = true.

Definition claimValid (tx : MsgTx) (p : InferenceBountyParams) (block : bytes) : Prop :=
  ∃ pr, Proof.ExtractInferenceResultProof tx = Ok pr
    ∧ Proof.BlockHash pr = block
    ∧ Proof.CommitmentHash pr = recomputeInferenceCommitment sha3 (PromptHash p) (Proof.ResultHash pr)
        (Proof.WorkerAddress pr) block (Nonce p) (ModelVersion p)
    ∧ (∃ xonly, Proof.WorkerAddress pr = [x51; x20] ++ xonly
        ∧ signedBy (take 32 xonly) (Proof.Signature pr) (Proof.CommitmentHash pr))
    ∧ signedBy (CoordinatorPubKey p) (Proof.CoordinatorSignature pr) (Proof.CommitmentHash pr).

Lemma ValidateInferenceBountyClaim_iff pr p block :
  ValidateInferenceBountyClaim sha3 pr p block = Ok tt
  ↔ Proof.BlockHash pr = block
    ∧ Proof.CommitmentHash pr = recomputeInferenceCommitment sha3 (PromptHash p) (Proof.ResultHash pr)
        (Proof.WorkerAddress pr) block (Nonce p) (ModelVersion p)
    ∧ (∃ xonly, Proof.WorkerAddress pr = [x51; x20] ++ xonly
        ∧ signedBy (take 32 xonly) (Proof.Signature pr) (Proof.CommitmentHash pr))
    ∧ signedBy (CoordinatorPubKey p) (Proof.CoordinatorSignature pr) (Proof.CommitmentHash pr).
Proof.
  unfold ValidateInferenceBountyClaim, bad. split.
  - intros Hc. case_bool_decide as H1; [|done]. cbn [negb] in Hc.
    case_bool_decide as H2; [|done]. cbn [negb] in Hc.
    case_bool_decide as H3; [|done]. case_bool_decide as H4; [|done]. cbn [negb orb] in Hc.
    destruct (Proof.WorkerAddress pr) as [|w0 [|w1 xonly]] eqn:Ew; try done. cbn in H3, H4. simplify_eq.
    change (slice 2 34 (x51 :: x20 :: xonly)) with (take 32 (drop 0 xonly)) in Hc. rewrite drop_0 in Hc.
    destruct (ParsePubKey (take 32 xonly)) as [wk|] eqn:E1; [|done].
    destruct (ParseSignature (Proof.Signature pr)) as [ws|] eqn:E2; [|done].
    destruct (Verify ws _ wk) eqn:E3; [|done]. cbn [negb] in Hc.
    destruct (ParsePubKey (CoordinatorPubKey p)) as [ck|] eqn:E4; [|done].
    destruct (ParseSignature (Proof.CoordinatorSignature pr)) as [cs|] eqn:E5; [|done].
    destruct (Verify cs _ ck) eqn:E6; [|done].
    split; [done|]. split; [done|]. split; [|by exists ck, cs].
    exists xonly. split; [done|]. by exists wk, ws.
  - intros (H1 & H2 & (xonly & Hw & wk & ws & E1 & E2 & E3) & (ck & cs & E4 & E5 & E6)).
    rewrite bool_decide_eq_true_2 by done. cbn [negb]. rewrite H1.
    rewrite bool_decide_eq_true_2 by done. cbn [negb]. rewrite Hw. cbn [app lookup list_lookup].
    rewrite !bool_decide_eq_true_2 by done. cbn [negb orb].
    change (slice 2 34 (x51 :: x20 :: xonly)) with (take 32 (drop 0 xonly)). rewrite drop_0.
    by rewrite E1, E2, E3, E4, E5, E6.
Qed.

(** C33. The bounty covenant: with the heights of a connected block, a bounty is
    spent within five blocks of its confirmation exactly by a claim whose
    commitment binds the request to the confirming block and is signed by both
    the worker and the coordinator the requester named, and after that exactly
    by the requester's signature over the bounty's outpoint; neither path works
    in the other period. *)
Theorem bounty_spend_sound (tx : MsgTx) (p : InferenceBountyParams) (op : OutPoint) (c s : Z)
  (block sig : bytes) (Hc : 0 <= c <= s) (Hs : s < 2 ^ 31) :
  CheckInferenceBountySpend sha3 tx p op c s block sig = Ok tt
  ↔ (s <= c + 5 ∧ claimValid tx p block)
    ∨ (c + 5 < s ∧ signedBy (RequesterPubKey p) sig (InferenceRefundSigHash sha3 op)).
Proof.
  unfold CheckInferenceBountySpend, inferenceBountyWithinWindow, Payload.InferenceProofWindowBlocks.
  rewrite wrapS_small by (unfold inS; lia). destruct (Z.leb_spec (s - c) 5) as [Hle|Hgt].
  - unfold claimValid. destruct (Proof.ExtractInferenceResultProof tx) as [pr|e].
    + rewrite ValidateInferenceBountyClaim_iff. split.
      * intros Hv. left. split; [lia|]. by exists pr.
      * intros [[_ (pr' & [= <-] & Hv)]|[? _]]; [done|lia].
    + unfold bad. split; [done|]. intros [[_ (pr' & ? & _)]|[? _]]; [done|lia].
  - unfold ValidateInferenceBountyRefund, bad, signedBy. split.
    + destruct (ParsePubKey (RequesterPubKey p)) as [k|]; [|done].
      destruct (ParseSignature sig) as [sg|]; [|done].
      destruct (Verify sg _ k) eqn:E; [|done]. intros _. right. split; [lia|]. by exists k, sg.
    + intros [[? _]|[_ (k & sg & -> & -> & ->)]]; [lia|done].
Qed.

(** A proof is bound to its request: a proof accepted for two bounties
    confirmed by the same block answers the same prompt, nonce and model,
    unless the two strings hashed for its commitment are a SHA3-256 collision. *)
Lemma claim_request_binding (pr : Proof.InferenceResultProof) (p p' : InferenceBountyParams) (block : bytes)
  (Hp : wf p) (Hp' : wf p') (Hpr : Proof.wf pr)
  (Hc : ValidateInferenceBountyClaim sha3 pr p block = Ok tt)
  (Hc' : ValidateInferenceBountyClaim sha3 pr p' block = Ok tt) :
  let string p := recomputeInferenceCommitment (λ b, b) (PromptHash p) (Proof.ResultHash pr) (Proof.WorkerAddress pr) block
                    (Nonce p) (ModelVersion p) in
  (PromptHash p = PromptHash p' ∧ Nonce p = Nonce p' ∧ ModelVersion p = ModelVersion p')
  ∨ string p ≠ string p' ∧ sha3 (string p) = sha3 (string p').
Proof.
  apply ValidateInferenceBountyClaim_iff in Hc as (_ & H1 & _).
  apply ValidateInferenceBountyClaim_iff in Hc' as (_ & H2 & _). rewrite H1 in H2.
  unfold recomputeInferenceCommitment in H2.
  destruct Hp as (_ & _ & Hl & Hn & Hm). destruct Hp' as (_ & _ & Hl' & Hn' & Hm').
  match type of H2 with sha3 ?a = sha3 ?b => destruct (decide (a = b)) as [E|Hne]; [left|right; done] end.
  apply app_inj_1 in E as [E1 E]; [|congruence]. do 3 (apply app_inj_1 in E as [_ E]; [|done]).
  apply app_inj_1 in E as [E2 E3]; [|by rewrite !length_le_encode].
  split; [done|]. split.
  - by apply (le_encode_inj 8 64) in E2.
  - by apply (le_encode_inj 2 16) in E3.
Qed.

Definition isProofOut (o : TxOut) : Prop := is_Some (Proof.parseInferenceProofOpReturn (to_PkScript o)).
#[local] Instance isProofOut_dec o : Decision (isProofOut o).
Proof. unfold isProofOut. apply _. Defined.

Lemma firstProof_filter outs : Proof.firstProof (filter isProofOut outs) = Proof.firstProof outs.
Proof.
  induction outs as [|o outs IH]; [done|]. rewrite filter_cons. unfold isProofOut at 1.
  destruct (decide _) as [[pr Hpr]|Hn]; cbn.
  - by rewrite Hpr.
  - destruct (Proof.parseInferenceProofOpReturn (to_PkScript o)); [|done]. destruct Hn. by eexists.
Qed.

(** The redirected transaction: the one bounty input, the attacker's output, and
    the proof outputs of the observed transaction. *)
Definition redirect (tx : MsgTx) (txIn : TxIn) (o : TxOut) : MsgTx :=
  mkMsgTx (tx_Version tx) [txIn] (o :: filter isProofOut (tx_TxOut tx)) 0.

(** C38. No signature covers where a bounty goes.  If a transaction that spends a
    bounty passes the covenant check (claim or refund), then the transaction
    that keeps only that input and the proof output and pays everything to an
    output of anybody's choice passes it too: the signatures commit to the
    request and to the outpoint, never to the outputs, so the payment split is
    not enforced and a broadcast claim or refund can be redirected. *)
Theorem bounty_redirect (tx : MsgTx) (hp : heap) (node : ptr) (view : UtxoViewpoint) (txIn : TxIn) (o : TxOut)
  (Hok : checkInferenceBountySpends sha3 tx hp node view = Ok tt)
  (Hin : txIn ∈ tx_TxIn tx)
  (Ho : Proof.parseInferenceProofOpReturn (to_PkScript o) = None) :
  checkInferenceBountySpends sha3 (redirect tx txIn o) hp node view = Ok tt.
Proof.
  unfold checkInferenceBountySpends in *. destruct (hp !! node) as [nd|]; [|done].
  assert (Hx : ∀ ti, checkSpendInput sha3 (redirect tx txIn o) hp node (bn_height nd) view ti
                     = checkSpendInput sha3 tx hp node (bn_height nd) view ti).
  { intros ti. unfold checkSpendInput, CheckInferenceBountySpend.
    assert (E : Proof.ExtractInferenceResultProof (redirect tx txIn o) = Proof.ExtractInferenceResultProof tx).
    { unfold Proof.ExtractInferenceResultProof, redirect. cbn [tx_Version tx_TxOut Proof.firstProof].
      by rewrite Ho, firstProof_filter. }
    by rewrite E. }
  cbn [redirect tx_TxIn checkSpendInputs]. rewrite Hx.
  revert Hok Hin. generalize (tx_TxIn tx). clear Hx. intros ins.
  induction ins as [|ti ins IH]; intros Hok Hin; [by apply elem_of_nil in Hin|].
  cbn [checkSpendInputs] in Hok. destruct (checkSpendInput _ _ _ _ _ _ ti) as [[]|] eqn:E; [|done].
  cbn [res_bind] in Hok. apply elem_of_cons in Hin as [->|Hin]; [by rewrite E|auto].
Qed.
End bounty_facts.

(** ** What an issuance proves *)
Section issuance_facts.
Import GoPayload InferenceGo.
Context `{Schnorr} (sha3 : bytes → bytes).

Definition sumTo (want : bytes) (outs : list TxOut) : Z :=
  foldr (λ o n, (if bool_decide (to_PkScript o = want) then to_Value o else 0) + n) 0 outs.
Definition saneOuts (outs : list TxOut) : Prop :=
  Forall (λ o, 0 <= to_Value o) outs ∧ foldr (λ o n, to_Value o + n) 0 outs <= MaxGrain.

Lemma paidTo_acc want outs acc : Forall (λ o, 0 <= to_Value o) outs →
  0 <= acc → acc + foldr (λ o n, to_Value o + n) 0 outs <= MaxGrain →
  foldl (λ paid o, if bool_decide (to_PkScript o = want) then i64 (paid + to_Value o) else paid) acc outs
  = acc + sumTo want outs.
Proof.
  intros Hpos. revert acc. induction Hpos as [|o outs Ho Hpos IH]; intros acc Ha Hs.
  - cbn. lia.
  - cbn [foldl sumTo foldr] in *. fold (sumTo want outs).
    assert (0 <= foldr (λ o n, to_Value o + n) 0 outs).
    { clear -Hpos. induction Hpos; cbn [foldr]; lia. }
    destruct (bool_decide (to_PkScript o = want)).
    + rewrite wrapS_small by (unfold inS; unfold MaxGrain, GrainPerMDL in *; lia). rewrite IH by lia. lia.
    + rewrite IH by lia. lia.
Qed.

Lemma paidTo_sum want outs : saneOuts outs → paidTo want outs = sumTo want outs.
Proof. intros [Hpos Hsum]. unfold paidTo. by rewrite paidTo_acc by (done || lia). Qed.

(** C34. Value is created from nothing only by an authorised issuance: any other
    version is permitted 0, and a version-5 transaction that passes is at or
    after the fork height, is not the coinbase, carries a payload for exactly
    the permitted amount (positive and within the money range) that the
    network's authority signed for this transaction's first input, and pays at
    least that amount to the signed destination (or to the authority's own
    taproot key when none is named). *)
Theorem issuance_sound (tx : MsgTx) (height amt : Z) (params : Params)
  (Hsane : saneOuts (tx_TxOut tx))
  (Hok : CheckInferenceGoIssuance sha3 tx height params = Ok amt) :
  if tx_Version tx =? TxVersionInferenceGo then
    inferenceGoForkHeight <= height ∧ IsCoinBaseTx tx = false ∧ 0 < amt <= MaxGrain
    ∧ ∃ payload ti ins dest,
        ExtractInferenceGoPayload tx = Ok payload ∧ tx_TxIn tx = ti :: ins
        ∧ Amount payload = amt
        ∧ signedBy (inferenceGoAuthority params) (Signature payload)
            (InferenceGoSigHash sha3 payload (ti_PreviousOutPoint ti))
        ∧ (if HasDestination payload then dest = Destination payload
           else taprootOutputKey (inferenceGoAuthority params) = Some dest)
        ∧ amt <= sumTo (InferenceGoP2TRScript dest) (tx_TxOut tx)
  else amt = 0.
Proof.
  unfold CheckInferenceGoIssuance, bad in Hok. destruct (tx_Version tx =? TxVersionInferenceGo); cbn [negb] in Hok.
  2:{ by injection Hok. }
  destruct (inferenceGoForkActive height) eqn:Ef; [|done]. cbn [negb] in Hok.
  unfold inferenceGoForkActive in Ef. bsplit. destruct (IsCoinBaseTx tx); [done|].
  unfold ValidateInferenceGoTx, bad in Hok. destruct (_ =? 1)%nat; [|done]. cbn [negb] in Hok.
  destruct (ExtractInferenceGoPayload tx) as [payload|] eqn:Ep; [|done].
  destruct (tx_TxIn tx) as [|ti ins]; [done|].
  destruct (Z.ltb_spec (u64 MaxGrain) (Amount payload)) as [|Hmax]; [done|].
  destruct (Z.leb_spec (i64 (Amount payload)) 0) as [|Hpos]; [done|].
  destruct (ParsePubKey _) as [k|] eqn:Ek; [|done]. destruct (ParseSignature _) as [sg|] eqn:Es; [|done].
  destruct (Verify sg _ k) eqn:Ev; [|done]. cbn [negb] in Hok.
  destruct (if HasDestination payload then _ else _) as [dest|] eqn:Ed; [|done].
  rewrite paidTo_sum in Hok by done.
  destruct (Z.ltb_spec (sumTo (InferenceGoP2TRScript dest) (tx_TxOut tx)) (i64 (Amount payload))) as [|Hpaid]; [done|].
  injection Hok as <-. change (u64 MaxGrain) with MaxGrain in Hmax.
  assert (Hin : inU 64 (Amount payload)).
  { clear -Ep. unfold ExtractInferenceGoPayload in Ep. destruct (negb _); [done|].
    destruct (firstGoPayload (tx_TxOut tx)) as [q|] eqn:E; [|done]. injection Ep as ->.
    induction (tx_TxOut tx) as [|o outs IH]; [done|]. cbn in E.
    destruct (parseInferenceGoOpReturn (to_PkScript o)) as [q|] eqn:Eq; [|auto].
    injection E as ->. apply parse_go_iff in Eq as [(? & _ & _) _]. done. }
  assert (Ha : i64 (Amount payload) = Amount payload).
  { apply wrapS_small; [lia|]. unfold inU, inS, MaxGrain, GrainPerMDL in *. lia. }
  rewrite Ha in *. split; [done|]. split; [done|]. split; [lia|].
  exists payload, ti, ins, dest. split; [done|]. split; [done|]. split; [done|].
  split; [by exists k, sg|]. split; [|done]. destruct (HasDestination payload); [congruence|done].
Qed.

Lemma index_bytes i : inU 32 i →
  [z2b i; z2b (Z.shiftr i 8); z2b (Z.shiftr i 16); z2b (Z.shiftr i 24)] = le_encode 4 i.
Proof.
  intros _. rewrite !Z.shiftr_div_pow2 by lia.
  change (le_encode 4 i) with [z2b i; z2b (i / 256); z2b (i / 256 / 256); z2b (i / 256 / 256 / 256)].
  rewrite !Z.div_div by lia. done.
Qed.

(** An authorisation is for one amount, one destination and one outpoint:
    two issuances with the same signed message agree on all three, unless the
    two strings hashed for it are a SHA3-256 collision; since the outpoint is spent by the issuance,
    the authority's signature cannot be used twice. *)
Lemma issuance_authorisation_binding (p p' : InferenceGoPayload) (op op' : OutPoint)
  (Hp : wf p) (Hp' : wf p')
  (Hop : wfOutPoint op) (Hop' : wfOutPoint op')
  (Hsig : InferenceGoSigHash sha3 p op = InferenceGoSigHash sha3 p' op') :
  (Amount p = Amount p' ∧ Destination p = Destination p' ∧ op = op')
  ∨ InferenceGoSigHash (λ b, b) p op ≠ InferenceGoSigHash (λ b, b) p' op'.
Proof.
  unfold InferenceGoSigHash in *. destruct Hop as [Hh Hi], Hop' as [Hh' Hi'].
  destruct Hp as (Ha & Hd & _), Hp' as (Ha' & Hd' & _).
  rewrite !index_bytes in * by done.
  match type of Hsig with sha3 ?a = sha3 ?b => destruct (decide (a = b)) as [E|Hne]; [left|by right] end.
  apply app_inj_1 in E as [_ E]; [|done]. unfold SignedBytes in E. rewrite <- !app_assoc in E.
  apply app_inj_1 in E as [_ E]; [|done].
  apply app_inj_1 in E as [E1 E]; [|by rewrite !length_le_encode].
  apply app_inj_1 in E as [E2 E]; [|congruence]. apply app_inj_1 in E as [E3 E4]; [|congruence].
  apply (le_encode_inj 8 64) in E1; [|done..]. apply (le_encode_inj 4 32) in E4; [|done..].
  split; [done|]. split; [done|]. destruct op, op'. cbn in *. by subst.
Qed.
End issuance_facts.

(** ** Witnesses: a toy signature scheme in which the signature of [m] under
    [k] is [k ++ m] *)
Module Toy.
#[export] Instance toySchnorr : Schnorr := {|
  PubKey := bytes; Sig := bytes;
  ParsePubKey b := if (length b =? 32)%nat then Some b else None;
  ParseSignature b := if (length b =? 64)%nat then Some b else None;
  Verify s m k := bool_decide (s = k ++ m);
  ComputeTaprootKeyNoScript k := k;
  SerializePubKey k := k |}.

Definition key (b : byte) : bytes := replicate 32 b.
Definition params : Bounty.InferenceBountyParams := Bounty.mk (key x11) (key x22) (key x33) 7 1.
Definition bounty : OutPoint := mkOutPoint (key x44) 1.
Definition refund : bytes := key x11 ++ Bounty.InferenceRefundSigHash toySha bounty.

(** The toy hash is the first 32 bytes, so the commitment is the prompt hash. *)
Definition proof : Proof.InferenceResultProof :=
  Proof.mk (key x33) (key x55) ([x51; x20] ++ key x66) (key x77) (key x66 ++ key x33) (key x22 ++ key x33).
Definition claimTx : MsgTx :=
  mkMsgTx TxVersionInferenceProof [mkTxIn bounty [] [] 0]
    [mkTxOut 90 [x51]; mkTxOut 0 (Proof.inferenceProofOpReturnPrefix ++ Proof.Serialise proof)] 0.
Definition refundTx : MsgTx := mkMsgTx 1 [mkTxIn bounty [] [refund] 0] [mkTxOut 90 [x51]] 0.
Definition view : UtxoViewpoint :=
  mkView {[ bounty := Some (mkUtxoEntry 100 (Bounty.BuildInferenceBountyScript params) 0 0) ]} zeroHash.
End Toy.
Import (hints) Toy.

Lemma bounty_spend_sound_witness :
  claimValid toySha Toy.claimTx Toy.params (Toy.key x77)
  ∧ Bounty.CheckInferenceBountySpend toySha Toy.claimTx Toy.params Toy.bounty 10 15 (Toy.key x77) [] = Ok tt
  ∧ Bounty.CheckInferenceBountySpend toySha Toy.refundTx Toy.params Toy.bounty 10 15 (Toy.key x77) Toy.refund ≠ Ok tt.
Proof.
  assert (H : Bounty.CheckInferenceBountySpend toySha Toy.claimTx Toy.params Toy.bounty 10 15 (Toy.key x77) []
              = Ok tt) by (vm_compute; reflexivity).
  split; [|split; [exact H|vm_compute; discriminate]].
  apply (bounty_spend_sound toySha Toy.claimTx Toy.params Toy.bounty 10 15 (Toy.key x77) []) in H; [|lia|lia].
  destruct H as [[_ H]|[H _]]; [exact H|lia].
Defined.

(** The thief's output is [mkTxOut 100 [x52]]. *)
Lemma bounty_redirect_witness :
  Bounty.checkInferenceBountySpends toySha
    (redirect Toy.refundTx (mkTxIn Toy.bounty [] [Toy.refund] 0) (mkTxOut 100 [x52]))
    (bi_heap (demoIndex 6)) 6 Toy.view = Ok tt.
Proof.
  apply (bounty_redirect toySha Toy.refundTx (bi_heap (demoIndex 6)) 6 Toy.view).
  - vm_compute. reflexivity.
  - left.
  - reflexivity.
Defined.

Definition goPayload (amt : Z) (dest : bytes) (op : OutPoint) : GoPayload.InferenceGoPayload :=
  GoPayload.mk amt dest (InferenceGo.inferenceGoRegtestAuthority
    ++ InferenceGo.InferenceGoSigHash toySha (GoPayload.mk amt dest []) op).
Definition goTx : MsgTx :=
  mkMsgTx TxVersionInferenceGo [mkTxIn Toy.bounty [] [] 0]
    [mkTxOut 1000 (GoPayload.InferenceGoP2TRScript (Toy.key x22));
     mkTxOut 0 (GoPayload.BuildInferenceGoOpReturn (goPayload 1000 (Toy.key x22) Toy.bounty))] 0.

Lemma issuance_sound_witness :
  InferenceGo.CheckInferenceGoIssuance toySha goTx 40000 RegressionNetParams = Ok 1000
  ∧ 0 < 1000 <= InferenceGo.MaxGrain.
Proof.
  assert (Hok : InferenceGo.CheckInferenceGoIssuance toySha goTx 40000 RegressionNetParams = Ok 1000)
    by (vm_compute; reflexivity).
  split; [exact Hok|].
  apply (issuance_sound toySha goTx 40000 1000 RegressionNetParams); [|exact Hok].
  split; [repeat constructor; cbn; lia|vm_compute; discriminate].
Defined.

