(* ===== verification/TxRules.v ===== *)
(** * Transaction rules
    (src/node/blockchain/validate.go, src/node/blockchain/vsize.go,
    [calcSequenceLock] and [LockTimeToSequence] of src/node/blockchain/chain.go)

    The context-free checks of a transaction, the accounting of its inputs
    against a view of the unspent outputs, its absolute and relative lock
    times, and the block subsidy.  Amounts are int64 grains, heights int32. *)
From Stdlib Require Import ZArith Lia Strings.Byte Strings.String.
From stdpp Require Import base list gmap sorting.
From S2P Require Import Prelude RuleErrors WireTx WireBlock WireInference Chaincfg.
From S2P Require Import Difficulty BlockIndex Merkle Script Utxo Covenant.
Import InferenceGo.
Open Scope Z_scope.
Open Scope list_scope.

(** ** Constants *)
Definition MinCoinbaseScriptLen : Z := 2.
Definition MaxCoinbaseScriptLen : Z := 100.
Definition totalSupply : Z := 21000000 * GrainPerMDL.
Definition defaultEmissionConstant : Z := 650226.
Definition inferenceBlocks : Z := 240.
Definition inferenceRewardGrains : Z := 2500 * GrainPerMDL.
Definition inferencePhase2Offset : Z := 18884.
Definition MinInferenceFeeGrains : Z := 1000000.
Definition MaxBlockVsize : Z := 1000000.
Definition WitnessScaleFactor : Z := 4.
Definition LockTimeThreshold : Z := 500000000.
Definition SequenceLockTimeDisabled : Z := Z.shiftl 1 31.
Definition SequenceLockTimeIsSeconds : Z := Z.shiftl 1 22.
Definition SequenceLockTimeMask : Z := 0xffff.
Definition SequenceLockTimeGranularity : Z := 9.

(** ** Virtual sizes *)
Definition CalcVsize (baseSize witnessSize : Z) : Z :=
  baseSize + Z.quot (witnessSize + WitnessScaleFactor - 1) WitnessScaleFactor.

Definition GetTransactionVsize (tx : MsgTx) : Z :=
  let baseSize := SerializeSizeStripped tx in
  CalcVsize baseSize (SerializeSize tx - baseSize).

Definition GetBlockVsize (blk : MsgBlock) : Z :=
  CalcVsize (MsgBlock_SerializeSizeStripped blk) (MsgBlock_SerializeWitnessSize blk).

(** ** The subsidy *)
(** [None] is the division by zero of a positive block time below a second;
    [chainParams] may be nil. *)
Definition CalcBlockSubsidy (height : Z) (chainParams : option Params) : option Z :=
  if height =? 0 then Some 0 else
  if height <=? inferenceBlocks then Some inferenceRewardGrains else
  let emissionConstant :=
    match chainParams with
    | Some p =>
        if 0 <? TargetTimePerBlock p then
          let s := Z.quot (TargetTimePerBlock p) Second in
          if s =? 0 then None else Some (Z.quot (4 * 365 * 24 * 60 * 60) s)
        else Some defaultEmissionConstant
    | None => Some defaultEmissionConstant
    end in
  c ← emissionConstant;
  let h := i64 (height + inferencePhase2Offset) in
  let numerator := totalSupply * c in
  let denominator := i64 (h + c) * i64 (h - 1 + c) in
  if denominator =? 0 then None else Some (i64 (numerator / denominator)).

(** ** Lock times *)
Definition isNullOutpoint (o : OutPoint) : bool :=
  (op_Index o =? 4294967295) && bool_decide (op_Hash o = zeroHash).

Record SequenceLock := mkSequenceLock { sl_Seconds : Z; sl_BlockHeight : Z }.

(** [medianTimePast] is the time in seconds. *)
Definition SequenceLockActive (l : SequenceLock) (blockHeight medianTimePast : Z) : bool :=
  negb ((medianTimePast <=? sl_Seconds l) || (blockHeight <=? sl_BlockHeight l)).

Definition IsFinalizedTransaction (msgTx : MsgTx) (blockHeight blockTime : Z) : bool :=
  let lockTime := tx_LockTime msgTx in
  if lockTime =? 0 then true else
  let blockTimeOrHeight := if lockTime <? LockTimeThreshold then blockHeight else blockTime in
  if lockTime <? blockTimeOrHeight then true else
  forallb (λ ti, ti_Sequence ti =? 4294967295) (tx_TxIn msgTx).

Definition LockTimeToSequence (isSeconds : bool) (locktime : Z) : Z :=
  if negb isSeconds then locktime
  else Z.lor SequenceLockTimeIsSeconds (Z.shiftr locktime SequenceLockTimeGranularity).

(** One input of [calcSequenceLock] at [node], whose height is [height]. *)
Definition inputLock (hp : heap) (node : ptr) (height : Z) (utxoView : UtxoViewpoint)
    (l : SequenceLock) (txIn : TxIn) : res verr SequenceLock :=
  match LookupEntry utxoView (ti_PreviousOutPoint txIn) with
  | None => Err (ruleError ErrMissingTxOut)
  | Some utxo =>
      let inputHeight := if ue_blockHeight utxo =? 0x7fffffff then i32 (height + 1)
                         else ue_blockHeight utxo in
      let sequenceNum := ti_Sequence txIn in
      let relativeLock := Z.land sequenceNum SequenceLockTimeMask in
      if Z.land sequenceNum SequenceLockTimeDisabled =? SequenceLockTimeDisabled then Ok l else
      if Z.land sequenceNum SequenceLockTimeIsSeconds =? SequenceLockTimeIsSeconds then
        let prevInputHeight := i32 (inputHeight - 1) in
        let prevInputHeight := if prevInputHeight <? 0 then 0 else prevInputHeight in
        match Ancestor hp node prevInputHeight with
        | None => Err RuntimePanic
        | Some p =>
            let medianTime := CalcPastMedianTime (H := nodeCtx hp) p in
            let timeLockSeconds := i64 (Z.shiftl relativeLock SequenceLockTimeGranularity - 1) in
            let timeLock := i64 (medianTime + timeLockSeconds) in
            Ok (if sl_Seconds l <? timeLock then mkSequenceLock timeLock (sl_BlockHeight l) else l)
        end
      else
        let blockHeight := i32 (inputHeight + i32 (relativeLock - 1)) in
        Ok (if sl_BlockHeight l <? blockHeight then mkSequenceLock (sl_Seconds l) blockHeight else l)
  end.

Definition calcSequenceLock (hp : heap) (node : ptr) (mTx : MsgTx) (utxoView : UtxoViewpoint)
  : res verr SequenceLock :=
  let sequenceLock := mkSequenceLock (-1) (-1) in
  if (u32 (tx_Version mTx) <? 2) || IsCoinBaseTx mTx then Ok sequenceLock else
  match hp !! node with
  | None => Err RuntimePanic
  | Some nd => res_foldl (inputLock hp node (bn_height nd) utxoView) sequenceLock (tx_TxIn mTx)
  end.

(** ** Context-free checks *)
Section sanity.
Context `{Schnorr}.

Definition bad : res verr unit := Err (ruleError ErrBadTxOutValue).

(** The script forms an output may have. *)
Definition allowedScript (allowInferenceTx : bool) (pkScript : bytes) : bool :=
  match GetScriptClass pkScript with
  | NonStandardTy => allowInferenceTx && Bounty.IsInferenceBountyScript pkScript
  | _ => true
  end.

(** One round of the loop over the outputs; [totalGrain] is the running total. *)
Definition checkOutput (allowInferenceTx : bool) (totalGrain : Z) (txOut : TxOut) : res verr Z :=
  if negb (allowedScript allowInferenceTx (to_PkScript txOut))
  then Err (ruleError ErrScriptMalformed) else
  let grain := to_Value txOut in
  if grain <? 0 then Err (ruleError ErrBadTxOutValue) else
  if MaxGrain <? grain then Err (ruleError ErrBadTxOutValue) else
  let totalGrain := i64 (totalGrain + grain) in
  if totalGrain <? 0 then Err (ruleError ErrBadTxOutValue) else
  if MaxGrain <? totalGrain then Err (ruleError ErrBadTxOutValue) else Ok totalGrain.

(** The checks of a version-4 transaction. *)
Definition checkProofTx (msgTx : MsgTx) : res verr unit :=
  if negb (Proof.IsInferenceProofTx msgTx) then bad else
  match Proof.ExtractInferenceResultProof msgTx with
  | Err _ => bad
  | Ok proof =>
      let addr := Proof.WorkerAddress proof in
      if negb ((length addr =? 34)%nat && bool_decide (addr !! 0%nat = Some x51)
               && bool_decide (addr !! 1%nat = Some x20)) then bad else
      match ParsePubKey (slice 2 34 addr) with
      | None => bad
      | Some pubKey =>
          match ParseSignature (Proof.Signature proof) with
          | None => bad
          | Some sig =>
              if negb (Verify sig (Proof.CommitmentHash proof) pubKey) then bad else
              match ParseSignature (Proof.CoordinatorSignature proof) with
              | None => bad
              | Some _ => Ok tt
              end
          end
      end
  end.

(** The checks of a version-3 transaction. *)
Definition checkInferenceTx (msgTx : MsgTx) : res verr unit :=
  match tx_TxOut msgTx with
  | [] => Err (ruleError ErrNoTxOutputs)
  | out0 :: _ =>
      if to_Value out0 <? MinInferenceFeeGrains then bad else
      match Payload.ExtractInferencePayload msgTx with
      | Ok payload => if Payload.MaxInferenceTokens <? Payload.MaxTokens payload then bad else Ok tt
      | Err _ => Ok tt
      end
  end.

(** The checks of a version-5 transaction. *)
Definition checkGoTx (msgTx : MsgTx) : res verr unit :=
  if negb (GoPayload.CountInferenceGoPayloadOutputs msgTx =? 1)%nat then bad else
  match tx_TxIn msgTx with
  | [] => Err (ruleError ErrNoTxInputs)
  | _ => Ok tt
  end.

Definition checkVersion (msgTx : MsgTx) (allowInferenceTx : bool) : res verr unit :=
  let v := tx_Version msgTx in
  if ((v =? TxVersionInference) || (v =? TxVersionInferenceProof) || (v =? TxVersionInferenceGo))
     && negb allowInferenceTx then bad else
  if negb allowInferenceTx then Ok tt else
  let? _ := (if v =? TxVersionInferenceGo then checkGoTx msgTx else Ok tt) in
  let? _ := (if v =? TxVersionInference then checkInferenceTx msgTx else Ok tt) in
  if v =? TxVersionInferenceProof then checkProofTx msgTx else Ok tt.

(** One round of the duplicate check. *)
Definition noteInput (existingTxOut : gset OutPoint) (txIn : TxIn) : res verr (gset OutPoint) :=
  if bool_decide (ti_PreviousOutPoint txIn ∈ existingTxOut)
  then Err (ruleError ErrDuplicateTxInputs)
  else Ok ({[ti_PreviousOutPoint txIn]} ∪ existingTxOut).

Definition checkCoinbaseScript (msgTx : MsgTx) : res verr unit :=
  match tx_TxIn msgTx with
  | [] => Err RuntimePanic
  | ti :: _ =>
      let slen := zlen (ti_SignatureScript ti) in
      if (slen <? MinCoinbaseScriptLen) || (MaxCoinbaseScriptLen <? slen)
      then Err (ruleError ErrBadCoinbaseScriptLen) else Ok tt
  end.

Definition CheckTransactionSanity (msgTx : MsgTx) (allowInferenceTx : bool) : res verr unit :=
  if (length (tx_TxIn msgTx) =? 0)%nat then Err (ruleError ErrNoTxInputs) else
  if (length (tx_TxOut msgTx) =? 0)%nat then Err (ruleError ErrNoTxOutputs) else
  if MaxBlockVsize <? GetTransactionVsize msgTx then Err (ruleError ErrTxTooBig) else
  let? _ := res_foldl (checkOutput allowInferenceTx) 0 (tx_TxOut msgTx) in
  let? _ := checkVersion msgTx allowInferenceTx in
  let? _ := res_foldl noteInput ∅ (tx_TxIn msgTx) in
  if IsCoinBaseTx msgTx then checkCoinbaseScript msgTx
  else res_forall (λ ti, if isNullOutpoint (ti_PreviousOutPoint ti)
                         then Err (ruleError ErrBadTxInput) else Ok tt) (tx_TxIn msgTx).
End sanity.

(** ** Input accounting *)
(** One input; [totalGrainIn] is the running total. *)
Definition checkInput (txHeight : Z) (utxoView : UtxoViewpoint) (chainParams : Params)
    (totalGrainIn : Z) (txIn : TxIn) : res verr Z :=
  match LookupEntry utxoView (ti_PreviousOutPoint txIn) with
  | None => Err (ruleError ErrMissingTxOut)
  | Some utxo =>
      if IsSpent utxo then Err (ruleError ErrMissingTxOut) else
      if Utxo.IsCoinBase utxo
         && (i32 (txHeight - ue_blockHeight utxo) <? i32 (CoinbaseMaturity chainParams))
      then Err (ruleError ErrImmatureSpend) else
      let originTxGrain := ue_amount utxo in
      if originTxGrain <? 0 then Err (ruleError ErrBadTxOutValue) else
      if MaxGrain <? originTxGrain then Err (ruleError ErrBadTxOutValue) else
      let lastGrainIn := totalGrainIn in
      let totalGrainIn := i64 (totalGrainIn + originTxGrain) in
      if (totalGrainIn <? lastGrainIn) || (MaxGrain <? totalGrainIn)
      then Err (ruleError ErrBadTxOutValue) else Ok totalGrainIn
  end.

(** [for _, txOut := range outs { total += txOut.Value }] in int64. *)
Definition totalOut (outs : list TxOut) : Z := foldl (λ t o, i64 (t + to_Value o)) 0 outs.

Definition addIssuance (totalGrainIn issued : Z) : res verr Z :=
  if issued <? 0 then Err (ruleError ErrBadTxOutValue) else
  if 0 <? issued then
    let lastIn := totalGrainIn in
    let totalGrainIn := i64 (totalGrainIn + issued) in
    if (totalGrainIn <? lastIn) || (MaxGrain <? totalGrainIn)
    then Err (ruleError ErrBadTxOutValue) else Ok totalGrainIn
  else Ok totalGrainIn.

Definition CheckTransactionInputsWithIssuance (tx : MsgTx) (txHeight : Z) (utxoView : UtxoViewpoint)
    (chainParams : Params) (issued : Z) : res verr Z :=
  if IsCoinBaseTx tx then Ok 0 else
  let? totalGrainIn := res_foldl (checkInput txHeight utxoView chainParams) 0 (tx_TxIn tx) in
  let totalGrainOut := totalOut (tx_TxOut tx) in
  let? totalGrainIn := addIssuance totalGrainIn issued in
  if totalGrainIn <? totalGrainOut then Err (ruleError ErrSpendTooHigh)
  else Ok (i64 (totalGrainIn - totalGrainOut)).

Definition CheckTransactionInputs (tx : MsgTx) (txHeight : Z) (utxoView : UtxoViewpoint)
    (chainParams : Params) : res verr Z :=
  CheckTransactionInputsWithIssuance tx txHeight utxoView chainParams 0.

(** ** The emission schedule *)
(** The subsidy after the first phase, for the networks' block time. *)
Definition emissionDenominator (h : Z) : Z :=
  (h + inferencePhase2Offset + defaultEmissionConstant)
  * (h + inferencePhase2Offset + defaultEmissionConstant - 1).
Definition emissionAt (h : Z) : Z := totalSupply * defaultEmissionConstant / emissionDenominator h.

Lemma networks_block_time sha256 challenge : Forall (λ p, TargetTimePerBlock p = 194 * Second) (networks sha256 challenge).
Proof. by repeat constructor. Qed.

Lemma emissionDenominator_mono h h' : 0 < h <= h' →
  0 < emissionDenominator h <= emissionDenominator h'.
Proof. unfold emissionDenominator, inferencePhase2Offset, defaultEmissionConstant. nia. Qed.

Lemma emissionAt_bounds h : inferenceBlocks < h < 2 ^ 31 → 0 < emissionAt h < inferenceRewardGrains.
Proof.
  intros Hh. unfold emissionAt. pose proof (emissionDenominator_mono h (2 ^ 31)).
  pose proof (emissionDenominator_mono inferenceBlocks h).
  unfold inferenceBlocks in *. split.
  - apply Z.lt_le_trans with (totalSupply * defaultEmissionConstant / emissionDenominator (2 ^ 31));
      [done|]. apply Z.div_le_compat_l; [done|lia].
  - apply Z.le_lt_trans with (totalSupply * defaultEmissionConstant / emissionDenominator 240);
      [|done]. apply Z.div_le_compat_l; [done|lia].
Qed.

Lemma CalcBlockSubsidy_phase2 p h : TargetTimePerBlock p = 194 * Second →
  inferenceBlocks < h < 2 ^ 31 → CalcBlockSubsidy h (Some p) = Some (emissionAt h).
Proof.
  intros Hp Hh. pose proof (emissionAt_bounds h Hh) as Hb. unfold inferenceBlocks in Hh.
  unfold CalcBlockSubsidy. rewrite Hp.
  destruct (Z.eqb_spec h 0) as [|_]; [lia|].
  destruct (Z.leb_spec h inferenceBlocks) as [Hle|_]; [unfold inferenceBlocks in Hle; lia|].
  change (0 <? 194 * Second) with true. change (194 * Second ÷ Second) with 194.
  change (4 * 365 * 24 * 60 * 60 ÷ 194) with defaultEmissionConstant. cbn beta iota zeta.
  cbn [Z.eqb mbind option_bind].
  assert (Hw : ∀ z, 0 <= z < 2 ^ 32 → i64 z = z).
  { intros z Hz. apply wrapS_small; [lia|]. unfold inS. lia. }
  unfold inferencePhase2Offset, defaultEmissionConstant in *. rewrite (Hw (h + 18884)) by lia.
  rewrite !Hw by lia. destruct (Z.eqb_spec ((h + 18884 + 650226) * (h + 18884 - 1 + 650226)) 0) as [?|_]; [nia|].
  replace ((h + 18884 + 650226) * (h + 18884 - 1 + 650226)) with (emissionDenominator h)
    by (unfold emissionDenominator, inferencePhase2Offset, defaultEmissionConstant; lia).
  fold (emissionAt h). f_equal. apply wrapS_small; [lia|].
  unfold inS, inferenceRewardGrains, GrainPerMDL in *. lia.
Qed.

Lemma CalcBlockSubsidy_phase1 p h : 0 < h <= inferenceBlocks →
  CalcBlockSubsidy h p = Some inferenceRewardGrains.
Proof.
  intros Hh. unfold CalcBlockSubsidy. destruct (Z.eqb_spec h 0) as [|_]; [lia|].
  destruct (Z.leb_spec h inferenceBlocks); [done|lia].
Qed.

(** The schedule in closed form. *)
Definition subsidyAt (h : Z) : Z :=
  if h =? 0 then 0 else if h <=? inferenceBlocks then inferenceRewardGrains else emissionAt h.

Lemma CalcBlockSubsidy_at p h : TargetTimePerBlock p = 194 * Second → 0 <= h < 2 ^ 31 →
  CalcBlockSubsidy h (Some p) = Some (subsidyAt h).
Proof.
  intros Hp Hh. unfold subsidyAt. destruct (Z.eqb_spec h 0) as [->|]; [done|].
  destruct (Z.leb_spec h inferenceBlocks).
  - apply CalcBlockSubsidy_phase1. lia.
  - apply CalcBlockSubsidy_phase2; [done|lia].
Qed.

(** What the first [n] heights emit. *)
Fixpoint emitted (n : nat) : Z :=
  match n with
  | O => 0
  | S n' => emitted n' + subsidyAt (Z.of_nat n')
  end.

Lemma emitted_phase1 n : (n <= 240)%nat → emitted (S n) = Z.of_nat n * inferenceRewardGrains.
Proof.
  induction n as [|n IH]; intros Hn; [done|].
  change (emitted (S (S n))) with (emitted (S n) + subsidyAt (Z.of_nat (S n))).
  rewrite IH by lia. unfold subsidyAt, inferenceBlocks. destruct (Z.eqb_spec (Z.of_nat (S n)) 0); [lia|].
  destruct (Z.leb_spec (Z.of_nat (S n)) 240); lia.
Qed.

(** The telescoping bound on the second phase, [K] the two constants' sum. *)
Definition K : Z := inferencePhase2Offset + defaultEmissionConstant.

Lemma emitted_phase2 n : 0 <= emitted (S (n + 240)) - 240 * inferenceRewardGrains ∧
  (emitted (S (n + 240)) - 240 * inferenceRewardGrains) * (240 + K) * (Z.of_nat n + 240 + K)
  <= totalSupply * defaultEmissionConstant * Z.of_nat n.
Proof.
  induction n as [|n [IH0 IH]].
  - change (0 + 240)%nat with 240%nat. rewrite emitted_phase1 by lia. lia.
  - change (emitted (S (S n + 240))) with (emitted (S (n + 240)) + subsidyAt (Z.of_nat (S n + 240))).
    set (h := Z.of_nat (S n + 240)). assert (Hh : h = Z.of_nat n + 241) by lia.
    unfold subsidyAt. destruct (Z.eqb_spec h 0); [lia|].
    destruct (Z.leb_spec h inferenceBlocks) as [Hc|_]; [unfold inferenceBlocks in Hc; lia|].
    set (A := emitted (S (n + 240)) - 240 * inferenceRewardGrains) in *.
    replace (_ + emissionAt h - _) with (A + emissionAt h) by (unfold A; lia).
    pose proof (emissionDenominator_mono h h ltac:(lia)) as [Hd _].
    assert (Hf : 0 <= emissionAt h) by (apply Z.div_pos; [done|lia]).
    pose proof (Z.mul_div_le (totalSupply * defaultEmissionConstant) (emissionDenominator h) Hd) as Hle.
    fold (emissionAt h) in Hle. split; [lia|].
    assert (HD : emissionDenominator h = (Z.of_nat n + 241 + K) * (Z.of_nat n + 240 + K))
      by (unfold emissionDenominator, K; lia).
    rewrite HD in Hle. set (C := totalSupply * defaultEmissionConstant) in *.
    assert (HK : 0 < K) by done. set (k := K) in *. clearbody A C k. clear HD Hd Hh.
    set (f := emissionAt h) in *. clearbody f h. clear n0.
    set (m := Z.of_nat n) in *. assert (0 <= m) by lia.
    replace (Z.of_nat (S n)) with (m + 1) by lia. clearbody m.
    apply (Z.mul_le_mono_pos_r _ _ (m + 240 + k)); [lia|]. nia.
Qed.

Lemma emitted_cap n : Z.of_nat n <= 2 ^ 31 → emitted n <= totalSupply.
Proof.
  intros Hn. destruct (decide (n <= 241)%nat).
  - destruct n as [|n]; [done|]. rewrite emitted_phase1 by lia.
    unfold totalSupply, inferenceRewardGrains, GrainPerMDL. lia.
  - pose proof (emitted_phase2 (n - 241)) as [H0 H]. replace (S (n - 241 + 240)) with n in * by lia.
    replace (Z.of_nat (n - 241)) with (Z.of_nat n - 241) in H by lia.
    unfold K, totalSupply, inferenceRewardGrains, GrainPerMDL, inferencePhase2Offset, defaultEmissionConstant in *.
    change (10 ^ 8) with 100000000 in *. nia.
Qed.

(** C2. The supply cap: on every network the node can run (main, test, regression and
    simulation networks and a signet with any challenge), the subsidies of all
    blocks up to any height an int32 can hold are defined, each is the value of the
    schedule [subsidyAt] computed with unbounded integers, so that no wrap-around
    of an int64 changes it, and they add up to at most the 21 million MDL of
    [totalSupply], the 240 blocks of 2,500 MDL included. *)
Theorem supply_cap (sha256 : bytes → bytes) (challenge : bytes) (p : Params) (n : nat) (Hp : p ∈ networks sha256 challenge) (Hn : Z.of_nat n <= 2 ^ 31) :
  ∃ l, mapM (λ h, CalcBlockSubsidy h (Some p)) (seqZ 0 (Z.of_nat n)) = Some l
       ∧ l = subsidyAt <$> seqZ 0 (Z.of_nat n) ∧ sumZ id l <= totalSupply.
Proof.
  pose proof (proj1 (Forall_forall _ _) (networks_block_time sha256 challenge) p Hp) as Ht. cbn beta in Ht.
  exists (subsidyAt <$> seqZ 0 (Z.of_nat n)). split; [|split; [done|]].
  - apply mapM_Some_2, Forall2_fmap_r, Forall_Forall2_diag, Forall_forall. intros h Hh.
    apply elem_of_seqZ in Hh. apply CalcBlockSubsidy_at; [done|lia].
  - etrans; [|apply (emitted_cap n Hn)]. apply Z.eq_le_incl. clear Hn.
    induction n as [|n IH]; [done|].
    rewrite Nat2Z.inj_succ, <- Z.add_1_r, seqZ_app, fmap_app by lia. cbn [emitted]. rewrite <- IH.
    rewrite sumZ_app, Z.add_0_l, (seqZ_cons _ 1), (seqZ_nil _ (Z.pred 1)) by done.
    unfold sumZ at 2, id. csimpl. lia.
Qed.

Lemma supply_cap_witness :
  ∃ l, mapM (λ h, CalcBlockSubsidy h (Some (SigNetParams id))) (seqZ 0 (Z.of_nat 250)) = Some l
       ∧ l = subsidyAt <$> seqZ 0 (Z.of_nat 250) ∧ sumZ id l <= totalSupply.
Proof. apply (supply_cap id []); [apply list_elem_of_In; cbn; tauto|done]. Defined.

(** ** Facts about the context-free checks *)
Lemma MaxGrain_small : MaxGrain < 2 ^ 60.
Proof. done. Qed.

Lemma i64_money a b : 0 <= a <= MaxGrain → 0 <= b <= MaxGrain → i64 (a + b) = a + b.
Proof. intros Ha Hb. pose proof MaxGrain_small. apply wrapS_small; [lia|]. unfold inS. lia. Qed.

(** Values an output list may carry. *)
Definition moneyOuts (outs : list TxOut) : Prop :=
  Forall (λ o, 0 <= to_Value o) outs ∧ sumZ to_Value outs <= MaxGrain.

Lemma moneyOuts_total outs acc : 0 <= acc → Forall (λ o, 0 <= to_Value o) outs →
  acc + sumZ to_Value outs <= MaxGrain →
  foldl (λ t o, i64 (t + to_Value o)) acc outs = acc + sumZ to_Value outs.
Proof.
  intros Ha Hp. revert acc Ha. induction Hp as [|o outs Ho Hp IH]; intros acc Ha Hs; [cbn; lia|].
  pose proof (sumZ_Forall_nonneg _ _ Hp). cbn [foldl sumZ foldr] in *. fold (sumZ to_Value outs) in *.
  rewrite i64_money, IH by lia. lia.
Qed.

Lemma totalOut_money outs : moneyOuts outs → totalOut outs = sumZ to_Value outs.
Proof. intros [Hp Hs]. unfold totalOut. rewrite moneyOuts_total by (done || lia). lia. Qed.

(** The loop over the outputs accepts exactly the lists of allowed scripts with
    values in the money range. *)
Lemma checkOutputs_Ok allow acc outs : 0 <= acc <= MaxGrain →
  is_Ok (res_foldl (checkOutput allow) acc outs) = true ↔
  Forall (λ o, allowedScript allow (to_PkScript o) = true) outs
  ∧ Forall (λ o, 0 <= to_Value o) outs ∧ acc + sumZ to_Value outs <= MaxGrain.
Proof.
  revert acc. induction outs as [|o outs IH]; intros acc Ha.
  - cbn. split; [intros _|done]. repeat split; [constructor|constructor|lia].
  - cbn [res_foldl sumZ foldr]. fold (sumZ to_Value outs). rewrite !Forall_cons. unfold checkOutput at 1.
    destruct (allowedScript allow (to_PkScript o)); cbn [negb res_bind is_Ok]; [|naive_solver].
    destruct (Z.ltb_spec (to_Value o) 0) as [Hlt|Hge]; cbn [res_bind is_Ok]; [naive_solver lia|].
    assert (Hnn : Forall (λ o, 0 <= to_Value o) outs → 0 <= sumZ to_Value outs) by apply sumZ_Forall_nonneg.
    destruct (Z.ltb_spec MaxGrain (to_Value o)) as [Hlt|Hle]; cbn [res_bind is_Ok].
    { split; [done|]. intros ((_ & _) & (_ & Hp) & Hs). specialize (Hnn Hp). lia. }
    rewrite i64_money by lia. destruct (Z.ltb_spec (acc + to_Value o) 0); [lia|].
    destruct (Z.ltb_spec MaxGrain (acc + to_Value o)); cbn [res_bind is_Ok].
    { split; [done|]. intros ((_ & _) & (_ & Hp) & Hs). specialize (Hnn Hp). lia. }
    rewrite IH by lia. rewrite Z.add_assoc. naive_solver.
Qed.

(** The loop over the inputs accepts exactly the lists without duplicates. *)
Lemma noteInputs_Ok seen ins :
  is_Ok (res_foldl noteInput seen ins) = true ↔
  NoDup (ti_PreviousOutPoint <$> ins) ∧ Forall (λ ti, ti_PreviousOutPoint ti ∉ seen) ins.
Proof.
  revert seen. induction ins as [|ti ins IH]; intros seen.
  - cbn. split; [intros _; split; constructor|done].
  - csimpl. rewrite NoDup_cons, Forall_cons. unfold noteInput at 1.
    case_bool_decide as Hin; cbn [res_bind is_Ok]; [naive_solver|]. rewrite IH, list_elem_of_fmap.
    setoid_rewrite not_elem_of_union. setoid_rewrite not_elem_of_singleton.
    rewrite !Forall_forall. naive_solver.
Qed.

Section sanity_facts.
Context `{Schnorr}.

Definition workerKey (addr : bytes) (key : bytes) : Prop :=
  addr = [x51; x20] ++ key ∧ length key = 32%nat.

(** What the versions 3, 4 and 5 add. *)
Definition inferenceRules (tx : MsgTx) : Prop :=
  (tx_Version tx = TxVersionInference →
     (∀ o, tx_TxOut tx !! 0%nat = Some o → MinInferenceFeeGrains <= to_Value o)
     ∧ ∀ p, Payload.ExtractInferencePayload tx = Ok p → Payload.MaxTokens p <= Payload.MaxInferenceTokens)
  ∧ (tx_Version tx = TxVersionInferenceProof →
     ∃ pr key, Proof.ExtractInferenceResultProof tx = Ok pr ∧ workerKey (Proof.WorkerAddress pr) key
       ∧ signedBy key (Proof.Signature pr) (Proof.CommitmentHash pr)
       ∧ is_Some (ParseSignature (Proof.CoordinatorSignature pr)))
  ∧ (tx_Version tx = TxVersionInferenceGo → GoPayload.CountInferenceGoPayloadOutputs tx = 1%nat).

Definition inferenceVersion (tx : MsgTx) : Prop :=
  tx_Version tx = TxVersionInference ∨ tx_Version tx = TxVersionInferenceProof
  ∨ tx_Version tx = TxVersionInferenceGo.

(** A transaction that is sane on its own. *)
Record saneTx (tx : MsgTx) (allow : bool) : Prop := {
  sane_ins : tx_TxIn tx ≠ [];
  sane_outs : tx_TxOut tx ≠ [];
  sane_vsize : GetTransactionVsize tx <= MaxBlockVsize;
  sane_scripts : Forall (λ o, allowedScript allow (to_PkScript o) = true) (tx_TxOut tx);
  sane_money : moneyOuts (tx_TxOut tx);
  sane_version : inferenceVersion tx → allow = true;
  sane_inference : allow = true → inferenceRules tx;
  sane_nodup : NoDup (ti_PreviousOutPoint <$> tx_TxIn tx);
  sane_coinbase : IsCoinBaseTx tx = true → ∀ ti, tx_TxIn tx !! 0%nat = Some ti →
    MinCoinbaseScriptLen <= zlen (ti_SignatureScript ti) <= MaxCoinbaseScriptLen;
  sane_notnull : IsCoinBaseTx tx = false →
    Forall (λ ti, isNullOutpoint (ti_PreviousOutPoint ti) = false) (tx_TxIn tx) }.

Lemma firstProof_Some outs : is_Some (Proof.firstProof outs) ↔
  existsb (λ out, match Proof.parseInferenceProofOpReturn (to_PkScript out) with
                  | Some _ => true | None => false end) outs = true.
Proof.
  induction outs as [|o outs IH]; cbn; [split; [by intros []|done]|].
  destruct (Proof.parseInferenceProofOpReturn (to_PkScript o)); cbn; [|done]. split; [done|]. by eexists.
Qed.

Lemma IsInferenceProofTx_iff tx : tx_Version tx = TxVersionInferenceProof →
  Proof.IsInferenceProofTx tx = true ↔ ∃ pr, Proof.ExtractInferenceResultProof tx = Ok pr.
Proof.
  intros Hv. unfold Proof.IsInferenceProofTx, Proof.ExtractInferenceResultProof, Proof.hasInferenceProofOutput.
  rewrite Hv, Z.eqb_refl. cbn [negb andb]. rewrite andb_true_iff, <- firstProof_Some. split.
  - intros [_ [pr ->]]. by exists pr.
  - intros [pr Hpr]. destruct (Proof.firstProof (tx_TxOut tx)) eqn:E; [|done]. split; [|by eexists].
    by destruct (tx_TxOut tx).
Qed.

Lemma workerKey_iff addr : (length addr =? 34)%nat && bool_decide (addr !! 0%nat = Some x51)
  && bool_decide (addr !! 1%nat = Some x20) = true ↔ workerKey addr (slice 2 34 addr).
Proof.
  unfold workerKey. rewrite !andb_true_iff, !bool_decide_eq_true, Nat.eqb_eq. split.
  - intros [[Hl H0] H1]. destruct addr as [|a [|b addr]]; try done. cbn in H0, H1. simplify_eq.
    cbn in Hl. unfold slice. cbn [drop app Nat.sub]. rewrite drop_0, take_ge by lia. split; [done|lia].
  - intros [Ha Hl]. assert (H34 : length addr = 34%nat) by (rewrite Ha; cbn [app length]; by rewrite Hl).
    split; [split; [done|]|]; by rewrite Ha.
Qed.

Lemma workerKey_slice addr key : workerKey addr key → slice 2 34 addr = key.
Proof. intros [-> Hl]. unfold slice. cbn [drop app Nat.sub]. rewrite drop_0, take_ge by lia. done. Qed.

Lemma checkProofTx_iff tx : tx_Version tx = TxVersionInferenceProof →
  checkProofTx tx = Ok tt ↔
  ∃ pr key, Proof.ExtractInferenceResultProof tx = Ok pr ∧ workerKey (Proof.WorkerAddress pr) key
    ∧ signedBy key (Proof.Signature pr) (Proof.CommitmentHash pr)
    ∧ is_Some (ParseSignature (Proof.CoordinatorSignature pr)).
Proof.
  intros Hv. unfold checkProofTx, bad. split.
  - destruct (Proof.IsInferenceProofTx tx); [|done]. cbn [negb].
    destruct (Proof.ExtractInferenceResultProof tx) as [pr|]; [|done].
    destruct (_ && _) eqn:Ek; [|done]. apply workerKey_iff in Ek. cbn [negb].
    destruct (ParsePubKey _) as [k|] eqn:E1; [|done]. destruct (ParseSignature _) as [s|] eqn:E2; [|done].
    destruct (Verify _ _ _) eqn:E3; [|done]. cbn [negb]. destruct (ParseSignature (Proof.CoordinatorSignature pr)) eqn:E4; [|done].
    intros _. exists pr, (slice 2 34 (Proof.WorkerAddress pr)).
    split; [done|]. split; [done|]. split; [by exists k, s|by eexists].
  - intros (pr & key & He & Hk & (k & s & E1 & E2 & E3) & [cs E4]).
    rewrite (proj2 (IsInferenceProofTx_iff tx Hv)) by eauto. cbn [negb]. rewrite He.
    pose proof (workerKey_slice _ _ Hk) as Hs. rewrite <- Hs in Hk. apply workerKey_iff in Hk. rewrite Hk.
    cbn [negb]. by rewrite Hs, E1, E2, E3, E4.
Qed.

Lemma checkInferenceTx_iff tx : tx_TxOut tx ≠ [] →
  checkInferenceTx tx = Ok tt ↔
  (∀ o, tx_TxOut tx !! 0%nat = Some o → MinInferenceFeeGrains <= to_Value o)
  ∧ ∀ p, Payload.ExtractInferencePayload tx = Ok p → Payload.MaxTokens p <= Payload.MaxInferenceTokens.
Proof.
  unfold checkInferenceTx, bad. destruct (tx_TxOut tx) as [|o outs]; [done|]. intros _. cbn [lookup list_lookup].
  destruct (Z.ltb_spec (to_Value o) MinInferenceFeeGrains).
  - split; [done|]. intros [Hf _]. specialize (Hf o eq_refl). lia.
  - destruct (Payload.ExtractInferencePayload tx) as [p|].
    + destruct (Z.ltb_spec Payload.MaxInferenceTokens (Payload.MaxTokens p)); [|naive_solver].
      split; [done|]. intros [_ Hp]. specialize (Hp p eq_refl). lia.
    + naive_solver.
Qed.

Lemma checkVersion_iff tx allow : tx_TxIn tx ≠ [] → tx_TxOut tx ≠ [] →
  checkVersion tx allow = Ok tt ↔
  (inferenceVersion tx → allow = true) ∧ (allow = true → inferenceRules tx).
Proof.
  intros Hi Ho. unfold checkVersion, bad, inferenceVersion, inferenceRules.
  destruct allow; cbn [negb].
  - rewrite andb_false_r.
    destruct (Z.eqb_spec (tx_Version tx) TxVersionInferenceGo) as [->|N5];
      [|destruct (Z.eqb_spec (tx_Version tx) TxVersionInference) as [->|N3];
        [|destruct (Z.eqb_spec (tx_Version tx) TxVersionInferenceProof) as [Hv|N4]]].
    + unfold checkGoTx, bad. destruct (tx_TxIn tx); [done|].
      destruct (Nat.eqb_spec (GoPayload.CountInferenceGoPayloadOutputs tx) 1); cbn; naive_solver.
    + cbn. destruct (checkInferenceTx tx) as [[]|] eqn:E; cbn.
      * apply checkInferenceTx_iff in E; [|done]. naive_solver.
      * split; [done|]. intros [_ Hr]. destruct (Hr eq_refl) as [Hc _].
        specialize (Hc eq_refl). apply checkInferenceTx_iff in Hc; [|done]. congruence.
    + cbn. rewrite checkProofTx_iff by done. naive_solver.
    + naive_solver.
  - rewrite andb_true_r, <- !orb_assoc.
    destruct (_ || _) eqn:E.
    + split; [done|]. intros [Hf _]. rewrite !orb_true_iff, !Z.eqb_eq in E. by specialize (Hf E).
    + split; [|done]. intros _. split; [|done]. rewrite !orb_false_iff, !Z.eqb_neq in E. naive_solver.
Qed.

Lemma sane_iff (tx : MsgTx) (allow : bool) : CheckTransactionSanity tx allow = Ok tt ↔ saneTx tx allow.
Proof.
  unfold CheckTransactionSanity.
  destruct (Nat.eqb_spec (length (tx_TxIn tx)) 0) as [Hi|Hi].
  { apply nil_length_inv in Hi. split; [done|]. intros Hs. by destruct (sane_ins _ _ Hs). }
  destruct (Nat.eqb_spec (length (tx_TxOut tx)) 0) as [Ho|Ho].
  { apply nil_length_inv in Ho. split; [done|]. intros Hs. by destruct (sane_outs _ _ Hs). }
  assert (Hi' : tx_TxIn tx ≠ []) by (intros E; by rewrite E in Hi).
  assert (Ho' : tx_TxOut tx ≠ []) by (intros E; by rewrite E in Ho).
  destruct (Z.ltb_spec MaxBlockVsize (GetTransactionVsize tx)) as [Hv|Hv].
  { split; [done|]. intros Hs. pose proof (sane_vsize _ _ Hs). lia. }
  pose proof (checkOutputs_Ok allow 0 (tx_TxOut tx) ltac:(done)) as HO. rewrite Z.add_0_l in HO.
  pose proof (noteInputs_Ok ∅ (tx_TxIn tx)) as HN.
  pose proof (checkVersion_iff tx allow Hi' Ho') as HV.
  assert (HE : Forall (λ ti, ti_PreviousOutPoint ti ∉ (∅ : gset OutPoint)) (tx_TxIn tx))
    by (apply Forall_forall; intros; apply not_elem_of_empty).
  destruct (res_foldl (checkOutput allow) 0 (tx_TxOut tx)) as [t|]; cbn [is_Ok res_bind] in *.
  2:{ split; [done|]. intros Hs. by pose proof (proj2 HO (conj (sane_scripts _ _ Hs) (sane_money _ _ Hs))). }
  destruct (checkVersion tx allow) as [[]|]; cbn [is_Ok res_bind] in *.
  2:{ split; [done|]. intros Hs. by pose proof (proj2 HV (conj (sane_version _ _ Hs) (sane_inference _ _ Hs))). }
  destruct (res_foldl noteInput ∅ (tx_TxIn tx)); cbn [is_Ok res_bind] in *.
  2:{ split; [done|]. intros Hs. by pose proof (proj2 HN (conj (sane_nodup _ _ Hs) HE)). }
  destruct (proj1 HO eq_refl) as (H1 & H2 & H3). destruct (proj1 HN eq_refl) as [H4 _].
  destruct (proj1 HV eq_refl) as [H5 H6].
  destruct (IsCoinBaseTx tx) eqn:Ec.
  - unfold checkCoinbaseScript. destruct (tx_TxIn tx) as [|ti ins] eqn:Ei; [done|].
    destruct (_ || _) eqn:El.
    + split; [done|]. intros Hs. pose proof (sane_coinbase _ _ Hs Ec ti) as Hc. rewrite Ei in Hc.
      specialize (Hc eq_refl). rewrite orb_true_iff, !Z.ltb_lt in El. lia.
    + split; [|done]. intros _. rewrite orb_false_iff, !Z.ltb_ge in El.
      constructor; rewrite ?Ei; try done; try congruence. intros _ ti' [= <-]. lia.
  - rewrite res_forall_Ok. split.
    + intros Hn. constructor; try done; try congruence. intros _. eapply Forall_impl; [exact Hn|].
      intros ti. cbn. by destruct (isNullOutpoint _).
    + intros Hs. eapply Forall_impl; [exact (sane_notnull _ _ Hs Ec)|]. by intros ti ->.
Qed.

(** C25. The context-free check is exact: it accepts a transaction if and only
    if it has inputs and outputs, fits the size limit, every output has an
    allowed script and a non-negative value, the values add up to at most the
    money range (no int64 overflow hides a larger sum), the inference versions
    are enabled and obey their rules (for a proof: the worker's signature on
    the commitment verifies), no outpoint is spent twice, and it is a coinbase
    with a script of 2 to 100 bytes or spends no null outpoint. *)
Theorem CheckTransactionSanity_iff (tx : MsgTx) (allow : bool) :
  CheckTransactionSanity tx allow = Ok tt ↔ saneTx tx allow.
Proof. apply sane_iff. Qed.
End sanity_facts.

(** ** Facts about the accounting of inputs *)
Lemma addIssuance_iff t issued r : 0 <= t <= MaxGrain → inS 64 issued →
  addIssuance t issued = Ok r ↔ 0 <= issued ∧ r = t + issued ∧ r <= MaxGrain.
Proof.
  intros Ht Hi. unfold addIssuance. destruct (Z.ltb_spec issued 0); [naive_solver lia|].
  destruct (Z.ltb_spec 0 issued) as [Hp|Hp].
  - destruct (decide (issued <= MaxGrain)).
    + rewrite i64_money by lia. destruct (Z.ltb_spec (t + issued) t); [lia|]. cbn [orb].
      destruct (Z.ltb_spec MaxGrain (t + issued)); naive_solver lia.
    + assert (Hw : i64 (t + issued) = t + issued ∨ i64 (t + issued) = t + issued - 2 ^ 64).
      { unfold inS in Hi. pose proof MaxGrain_small. unfold wrapS.
        destruct (decide (t + issued < 2 ^ 63)); [left; rewrite Z.mod_small; lia|right].
        rewrite <- (Z_mod_plus_full _ (-1)), Z.mod_small; lia. }
      pose proof MaxGrain_small. unfold inS in Hi.
      destruct (_ || _) eqn:E; [naive_solver lia|]. rewrite orb_false_iff, !Z.ltb_ge in E. lia.
  - assert (issued = 0) as -> by lia. split; [intros [= <-]; lia|intros (_ & -> & _); f_equal; lia].
Qed.

(** What a successful check says, whatever the heights in the view. *)
Lemma checkInput_sound chainParams hgt w acc ti t : 0 <= acc <= MaxGrain →
  checkInput hgt w chainParams acc ti = Ok t →
  ∃ c, utxoSet w !! ti_PreviousOutPoint ti = Some c ∧ 0 <= stxo_Amount c
    ∧ t = acc + stxo_Amount c ∧ t <= MaxGrain.
Proof.
  intros Ha. unfold checkInput. rewrite lookup_utxoSet.
  destruct (LookupEntry w (ti_PreviousOutPoint ti)) as [e|]; [|done]. cbn [coinOf mbind option_bind].
  destruct (IsSpent e); [done|]. destruct (_ && _); [done|].
  destruct (Z.ltb_spec (ue_amount e) 0); [done|]. destruct (Z.ltb_spec MaxGrain (ue_amount e)); [done|].
  rewrite i64_money by lia. destruct (_ || _) eqn:E; [done|]. intros [= <-].
  rewrite orb_false_iff, !Z.ltb_ge in E. exists (stxoOf e). split; [done|]. cbn. lia.
Qed.

Section inputs.
Context (chainParams : Params) (txHeight : Z) (v : UtxoViewpoint).
Context (Hheight : 0 <= txHeight < 2 ^ 31) (Hmat : 0 <= CoinbaseMaturity chainParams < 2 ^ 16).
Context (Hview : map_Forall (λ _ c, 0 <= stxo_Height c < 2 ^ 31) (utxoSet v)).

(** A coinbase output may be spent once it is buried deep enough. *)
Definition matured (c : SpentTxOut) : Prop :=
  stxo_IsCoinBase c = true → CoinbaseMaturity chainParams <= txHeight - stxo_Height c.

(** [c] is the unspent, mature coin that input [ti] spends. *)
Definition spends (ti : TxIn) (c : SpentTxOut) : Prop :=
  utxoSet v !! ti_PreviousOutPoint ti = Some c ∧ matured c ∧ 0 <= stxo_Amount c.

Lemma spends_nonneg ins coins : Forall2 spends ins coins → 0 <= sumZ stxo_Amount coins.
Proof.
  intros Hf. apply sumZ_Forall_nonneg. induction Hf as [|? ? ? ? (_ & _ & ?)]; by constructor.
Qed.

Lemma checkInput_iff acc ti t : 0 <= acc <= MaxGrain →
  checkInput txHeight v chainParams acc ti = Ok t ↔
  ∃ c, spends ti c ∧ t = acc + stxo_Amount c ∧ t <= MaxGrain.
Proof.
  intros Ha. unfold checkInput, spends, matured. rewrite lookup_utxoSet.
  assert (Hh : ∀ c, coinOf (LookupEntry v (ti_PreviousOutPoint ti)) = Some c → 0 <= stxo_Height c < 2 ^ 31).
  { intros c Hc. rewrite <- lookup_utxoSet in Hc. exact (Hview _ _ Hc). }
  destruct (LookupEntry v (ti_PreviousOutPoint ti)) as [e|]; cbn in *; [|naive_solver].
  destruct (IsSpent e); [naive_solver|]. specialize (Hh _ eq_refl). cbn in Hh.
  rewrite !wrapS_small by (try unfold inS; lia).
  destruct (Utxo.IsCoinBase e) eqn:Ec; cbn [andb].
  1: destruct (Z.ltb_spec (txHeight - ue_blockHeight e) (CoinbaseMaturity chainParams)).
  1: { split; [done|]. intros (c & ([= <-] & Hm & _) & _). cbn in Hm. specialize (Hm Ec). lia. }
  all: destruct (Z.ltb_spec (ue_amount e) 0);
    [split; [done|]; intros (c & ([= <-] & _ & Hp) & _); cbn in Hp; lia|].
  all: destruct (Z.ltb_spec MaxGrain (ue_amount e));
    [split; [done|]; intros (c & ([= <-] & _ & Hp) & -> & Hp'); cbn in *; lia|].
  all: rewrite i64_money by lia; destruct (Z.ltb_spec (acc + ue_amount e) acc); [lia|]; cbn [orb].
  all: destruct (Z.ltb_spec MaxGrain (acc + ue_amount e));
    [split; [done|]; intros (c & ([= <-] & _ & Hp) & -> & Hp'); cbn in *; lia|].
  all: split;
    [intros [= <-]; exists (stxoOf e); cbn; repeat split; try lia; congruence
    |intros (c & ([= <-] & _) & -> & _); done].
Qed.

Lemma checkInputs_iff ins acc t : 0 <= acc <= MaxGrain →
  res_foldl (checkInput txHeight v chainParams) acc ins = Ok t ↔
  ∃ coins, Forall2 spends ins coins ∧ t = acc + sumZ stxo_Amount coins ∧ t <= MaxGrain.
Proof.
  revert acc. induction ins as [|ti ins IH]; intros acc Ha; cbn [res_foldl].
  - split.
    + intros [= <-]. exists []. split; [constructor|]. cbn. lia.
    + intros (coins & Hc & -> & _). apply Forall2_nil_inv_l in Hc as ->. cbn. by rewrite Z.add_0_r.
  - rewrite res_bind_Ok. setoid_rewrite checkInput_iff; [|done]. split.
    + intros (a & (c & Hc & -> & Hle) & Hr). destruct Hc as (Hc1 & Hc2 & Hc3).
      apply IH in Hr as (coins & Hf & -> & Ht); [|lia]. exists (c :: coins). split; [by constructor|].
      cbn [sumZ foldr]. fold (sumZ stxo_Amount coins) in *. lia.
    + intros (coins & Hf & -> & Ht). inversion Hf as [|? c ? coins' Hc Hf']; subst.
      pose proof (spends_nonneg _ _ Hf').
      cbn [sumZ foldr] in *. fold (sumZ stxo_Amount coins') in *.
      exists (acc + stxo_Amount c). split; [exists c; split; [done|lia]|].
      destruct Hc as (_ & _ & Hc). apply IH; [lia|]. exists coins'. split; [done|lia].
Qed.

(** C24. The accounting of a transaction is exact and value is conserved: for a
    transaction with outputs in the money range, the check returns [fee] if
    and only if the transaction is a coinbase (fee 0) or every input spends an
    existing, unspent coin with a non-negative amount, mature if it is a
    coinbase output, and inputs plus issuance are within the money range and
    equal outputs plus the non-negative [fee]; no int64 or int32 wrap-around
    is involved. *)
Theorem CheckTransactionInputs_iff (tx : MsgTx) (issued fee : Z)
  (Hout : moneyOuts (tx_TxOut tx)) (Hi : inS 64 issued) :
  CheckTransactionInputsWithIssuance tx txHeight v chainParams issued = Ok fee ↔
  if IsCoinBaseTx tx then fee = 0 else
  ∃ coins, Forall2 spends (tx_TxIn tx) coins ∧ 0 <= issued ∧ 0 <= fee
    ∧ sumZ stxo_Amount coins + issued = sumZ to_Value (tx_TxOut tx) + fee
    ∧ sumZ stxo_Amount coins + issued <= MaxGrain.
Proof.
  unfold CheckTransactionInputsWithIssuance. destruct (IsCoinBaseTx tx); [naive_solver|].
  rewrite totalOut_money by done. destruct Hout as [Hp Hm].
  pose proof (sumZ_Forall_nonneg _ _ Hp) as Hnn. pose proof MaxGrain_small.
  assert (HI := λ t, checkInputs_iff (tx_TxIn tx) 0 t ltac:(done)). rewrite res_bind_Ok.
  pose proof (spends_nonneg (tx_TxIn tx)) as Hc.
  split.
  - intros (t & Ht & Hr). apply HI in Ht as (coins & Hf & -> & Hle). rewrite Z.add_0_l in *.
    specialize (Hc _ Hf). apply res_bind_Ok in Hr as (r & Hadd & Hr). apply addIssuance_iff in Hadd as (Hi0 & -> & Hr'); [|done|done].
    destruct (Z.ltb_spec (sumZ stxo_Amount coins + issued) (sumZ to_Value (tx_TxOut tx))); [done|].
    injection Hr as <-. exists coins. rewrite wrapS_small by (try unfold inS; lia).
    split; [done|]. lia.
  - intros (coins & Hf & Hi0 & Hfee & He & Hle). specialize (Hc _ Hf).
    exists (sumZ stxo_Amount coins). split; [apply HI; exists coins; split; [done|lia]|].
    apply res_bind_Ok. exists (sumZ stxo_Amount coins + issued). split; [apply addIssuance_iff; [lia|done|lia]|].
    destruct (Z.ltb_spec (sumZ stxo_Amount coins + issued) (sumZ to_Value (tx_TxOut tx))); [lia|].
    f_equal. rewrite wrapS_small by (try unfold inS; lia). lia.
Qed.
End inputs.

Lemma CheckTransactionInputs_iff_witness :
  CheckTransactionInputsWithIssuance demoSpend 200 demoView MainNetParams 0 = Ok 0.
Proof.
  apply (CheckTransactionInputs_iff MainNetParams 200 demoView).
  - done.
  - done.
  - unfold map_Forall. intros op c Hc. rewrite lookup_utxoSet in Hc. unfold LookupEntry, demoView in Hc.
    cbn [entries] in Hc. apply bind_Some in Hc as (e & He & Hc).
    destruct (decide (op = mkOutPoint (replicate 32 x05) 0)) as [->|Hne].
    + rewrite lookup_singleton_eq in He. injection He as <-. injection Hc as <-. done.
    + by rewrite lookup_singleton_ne in He.
  - split; [repeat constructor; done|done].
  - done.
  - change (IsCoinBaseTx demoSpend) with false. cbv iota.
    exists [mkSpentTxOut 50 [x51] 7 true]. split; [|done].
    constructor; [|constructor]. split; [vm_compute; reflexivity|]. split; [by intros _|done].
Defined.

(** ** Relative lock times *)
Lemma median_elem l : l ≠ [] → median l ∈ l.
Proof.
  intros Hl. unfold median. rewrite <- (merge_sort_Permutation Z.le l) at 3.
  apply list_elem_of_lookup_total_2. rewrite (merge_sort_Permutation Z.le l).
  apply Nat.div_lt; [|lia]. destruct l; [done|cbn; lia].
Qed.

Lemma CalcPastMedianTime_range hp p pn : wfHeap hp → hp !! p = Some pn →
  inU 32 (CalcPastMedianTime (H := nodeCtx hp) p).
Proof.
  intros Hwf Hp. unfold CalcPastMedianTime.
  assert (Hall : ∀ n q, (∀ x, q = Some x → is_Some (hp !! x)) →
    Forall (inU 32) (timestamps (H := nodeCtx hp) n q)).
  { intros n. induction n as [|n IH]; intros q Hq; [constructor|].
    destruct q as [x|]; [|constructor]. destruct (Hq x eq_refl) as [xn Hx]. cbn. rewrite Hx. cbn.
    destruct (Hwf x xn Hx) as (_ & _ & Ht & Hpar). constructor; [done|]. apply IH.
    intros y Hy. rewrite Hy in Hpar. destruct Hpar as (qn & Hqn & _). by eexists. }
  apply (proj1 (Forall_forall _ _) (Hall 11%nat (Some p) ltac:(intros x [= <-]; by eexists))).
  by apply median_elem.
Qed.

Section bip68.
Context (hp : heap) (Hwf : wfHeap hp) (node : ptr) (nd : blockNode) (Hnode : hp !! node = Some nd).
Context (Hnd : bn_height nd < 2 ^ 31 - 2 ^ 16) (v : UtxoViewpoint).

(** The height an input counts from: an output that is still in the mempool
    counts as part of the next block. *)
Definition originHeight (e : UtxoEntry) : Z :=
  if ue_blockHeight e =? 0x7fffffff then bn_height nd + 1 else ue_blockHeight e.

(** BIP 68: the input does not use relative locks, or it waits for a number of
    512-second units after the median time of the block before the one that
    holds the output, or for a number of blocks after that block. *)
Definition lockMet (H T : Z) (ti : TxIn) (e : UtxoEntry) : Prop :=
  let seq := ti_Sequence ti in
  let n := seq mod 2 ^ 16 in
  Z.testbit seq 31 = true
  ∨ (Z.testbit seq 31 = false ∧ Z.testbit seq 22 = true ∧
     ∃ p, Ancestor hp node (Z.max 0 (originHeight e - 1)) = Some p
          ∧ CalcPastMedianTime (H := nodeCtx hp) p + n * 512 <= T)
  ∨ (Z.testbit seq 31 = false ∧ Z.testbit seq 22 = false ∧ originHeight e + n <= H).

(** The output an input refers to is known and lies on this branch. *)
Definition known (ti : TxIn) (e : UtxoEntry) : Prop :=
  LookupEntry v (ti_PreviousOutPoint ti) = Some e
  ∧ (0 <= ue_blockHeight e <= bn_height nd ∨ ue_blockHeight e = 0x7fffffff).

Lemma land_flag x k : 0 <= k → (Z.land x (Z.shiftl 1 k) =? Z.shiftl 1 k) = Z.testbit x k.
Proof.
  intros Hk. rewrite Z.shiftl_1_l. destruct (Z.testbit x k) eqn:E.
  - apply Z.eqb_eq. apply Z.bits_inj'. intros i Hi. rewrite Z.land_spec, Z.pow2_bits_eqb by done.
    destruct (Z.eqb_spec k i) as [->|]; [by rewrite E|by rewrite andb_false_r].
  - apply Z.eqb_neq. intros Heq. apply (f_equal (λ z, Z.testbit z k)) in Heq.
    rewrite Z.land_spec, E, Z.pow2_bits_eqb, Z.eqb_refl in Heq by done. done.
Qed.

Lemma Active_max l s h H T :
  SequenceLockActive (mkSequenceLock (Z.max (sl_Seconds l) s) (Z.max (sl_BlockHeight l) h)) H T = true
  ↔ SequenceLockActive l H T = true ∧ s < T ∧ h < H.
Proof.
  unfold SequenceLockActive. cbn. rewrite !negb_true_iff, !orb_false_iff, !Z.leb_gt. lia.
Qed.

Lemma originHeight_range ti e : known ti e → 0 <= originHeight e <= bn_height nd + 1.
Proof.
  intros [_ He]. pose proof (wf_range hp Hwf node nd Hnode). unfold originHeight.
  destruct (Z.eqb_spec (ue_blockHeight e) 0x7fffffff); lia.
Qed.

Lemma inputLock_met l ti e H T : known ti e → -1 < T → -1 < H →
  ∃ l', inputLock hp node (bn_height nd) v l ti = Ok l'
    ∧ (SequenceLockActive l' H T = true ↔ SequenceLockActive l H T = true ∧ lockMet H T ti e).
Proof.
  intros Hk HT HH. pose proof (originHeight_range ti e Hk) as Ho. destruct Hk as [Hk _].
  pose proof (wf_range hp Hwf node nd Hnode). unfold inputLock, lockMet. rewrite Hk.
  rewrite (wrapS_small 32 (bn_height nd + 1)) by (try unfold inS; lia). fold (originHeight e).
  set (o := originHeight e) in *. set (seq := ti_Sequence ti).
  assert (Hrel : Z.land seq SequenceLockTimeMask = seq mod 2 ^ 16) by apply (Z.land_ones seq 16 ltac:(lia)).
  rewrite Hrel. pose proof (Z.mod_pos_bound seq (2 ^ 16) ltac:(lia)) as Hn. set (n := seq mod 2 ^ 16) in *.
  unfold SequenceLockTimeDisabled, SequenceLockTimeIsSeconds. rewrite !land_flag by lia.
  destruct (Z.testbit seq 31) eqn:E31.
  { exists l. split; [done|]. split; [by auto|by intros [? _]]. }
  destruct (Z.testbit seq 22) eqn:E22.
  - rewrite (wrapS_small 32 (o - 1)) by (try unfold inS; lia).
    replace (if o - 1 <? 0 then 0 else o - 1) with (Z.max 0 (o - 1)) by (destruct (Z.ltb_spec (o - 1) 0); lia).
    rewrite (Ancestor_walk hp Hwf node nd) by (done || lia).
    destruct (walk_spec hp Hwf (Z.to_nat (bn_height nd - Z.max 0 (o - 1))) node nd Hnode ltac:(lia))
      as (a & an & Ha & Han & _). rewrite Ha.
    pose proof (CalcPastMedianTime_range hp a an Hwf Han) as Hm. unfold inU in Hm.
    rewrite Z.shiftl_mul_pow2 by (unfold SequenceLockTimeGranularity; lia).
    change (2 ^ SequenceLockTimeGranularity) with 512.
    set (m := CalcPastMedianTime a) in *.
    rewrite (wrapS_small 64 (n * 512 - 1)), (wrapS_small 64 (m + (n * 512 - 1))) by (try unfold inS; lia).
    eexists. split; [done|].
    replace (if _ <? _ then _ else _) with
      (mkSequenceLock (Z.max (sl_Seconds l) (m + (n * 512 - 1))) (Z.max (sl_BlockHeight l) (sl_BlockHeight l)))
      by (rewrite Z.max_id; destruct l as [ls lh]; cbn; destruct (Z.ltb_spec ls (m + (n * 512 - 1))); f_equal; lia).
    rewrite Active_max. split.
    + intros (Hl & Hs & _). split; [done|]. right; left. split; [done|]. split; [done|].
      exists a. split; [done|]. lia.
    + intros (Hl & [?|[(_ & _ & p & [= <-] & Hp)|(_ & ? & _)]]); [done| |done]. split; [done|].
      unfold SequenceLockActive in Hl. apply negb_true_iff, orb_false_iff in Hl. rewrite !Z.leb_gt in Hl. lia.
  - rewrite (wrapS_small 32 (n - 1)), (wrapS_small 32 (o + (n - 1))) by (try unfold inS; lia).
    eexists. split; [done|].
    replace (if _ <? _ then _ else _) with
      (mkSequenceLock (Z.max (sl_Seconds l) (sl_Seconds l)) (Z.max (sl_BlockHeight l) (o + (n - 1))))
      by (rewrite Z.max_id; destruct l as [ls lh]; cbn; destruct (Z.ltb_spec lh (o + (n - 1))); f_equal; lia).
    rewrite Active_max. split.
    + intros (Hl & _ & Hh). split; [done|]. right; right. split; [done|]. split; [done|]. lia.
    + intros (Hl & [?|[(_ & ? & _)|(_ & _ & Hh)]]); [done|done|]. split; [done|].
      unfold SequenceLockActive in Hl. apply negb_true_iff, orb_false_iff in Hl. rewrite !Z.leb_gt in Hl. lia.
Qed.

Lemma inputLocks_met ins es l H T : Forall2 known ins es → -1 < T → -1 < H →
  ∃ l', res_foldl (inputLock hp node (bn_height nd) v) l ins = Ok l'
    ∧ (SequenceLockActive l' H T = true ↔ SequenceLockActive l H T = true ∧ Forall2 (lockMet H T) ins es).
Proof.
  intros Hk HT HH. revert l. induction Hk as [|ti e ins es Hk Hks IH]; intros l.
  - exists l. split; [done|]. split; [by intros; split; [|constructor]|by intros [? _]].
  - destruct (inputLock_met l ti e H T Hk HT HH) as (l1 & H1 & E1).
    destruct (IH l1) as (l2 & H2 & E2). exists l2. cbn [res_foldl]. rewrite H1. cbn [res_bind].
    split; [done|]. rewrite E2, E1, Forall2_cons. naive_solver.
Qed.

(** Relative lock times follow BIP 68: for a transaction whose inputs are
    known on the branch of [node], the lock is computed without failing, and
    it is met at a height and a median time exactly if the transaction is below
    version 2, or a coinbase, or every input on its own is final, old enough in
    blocks, or old enough in 512-second units since the median time before its
    output's block. *)
Lemma sequence_lock_bip68 (tx : MsgTx) (es : list UtxoEntry) (H T : Z)
  (Hk : Forall2 known (tx_TxIn tx) es) (HT : 0 <= T) (HH : 0 <= H) :
  ∃ l, calcSequenceLock hp node tx v = Ok l
    ∧ (SequenceLockActive l H T = true ↔
       u32 (tx_Version tx) < 2 ∨ IsCoinBaseTx tx = true ∨ Forall2 (lockMet H T) (tx_TxIn tx) es).
Proof.
  unfold calcSequenceLock. rewrite Hnode.
  assert (Hinit : SequenceLockActive (mkSequenceLock (-1) (-1)) H T = true).
  { unfold SequenceLockActive. cbn. rewrite negb_true_iff, orb_false_iff, !Z.leb_gt. lia. }
  destruct (Z.ltb_spec (u32 (tx_Version tx)) 2); [eexists; split; [done|]; naive_solver|].
  destruct (IsCoinBaseTx tx); cbn [orb]; [eexists; split; [done|]; naive_solver|].
  destruct (inputLocks_met _ _ (mkSequenceLock (-1) (-1)) H T Hk ltac:(lia) ltac:(lia)) as (l & Hl & E).
  exists l. split; [done|]. rewrite E. naive_solver lia.
Qed.
End bip68.

Definition lockedSpend : MsgTx :=
  mkMsgTx 2 [mkTxIn (mkOutPoint (replicate 32 x05) 0) [] [] 4] [mkTxOut 20 [x51]] 0.
Definition lockedEntry : UtxoEntry := mkUtxoEntry 50 [x51] 3 0.
Definition lockedView : UtxoViewpoint :=
  mkView {[ mkOutPoint (replicate 32 x05) 0 := Some lockedEntry ]} zeroHash.

Lemma sequence_lock_bip68_witness :
  ∃ l, calcSequenceLock (bi_heap (demoIndex 6)) 6%nat lockedSpend lockedView = Ok l
    ∧ SequenceLockActive l 7 0 = true.
Proof.
  destruct (bi_heap (demoIndex 6) !! 6%nat) as [nd|] eqn:E; [|vm_compute in E; discriminate].
  assert (Hh : bn_height nd = 6) by (vm_compute in E; injection E as <-; reflexivity).
  destruct (sequence_lock_bip68 (bi_heap (demoIndex 6)) demo_wf 6 nd E ltac:(lia) lockedView
    lockedSpend [lockedEntry] 7 0) as (l & Hl & Ha); [|lia|lia|].
  - constructor; [|constructor]. split; [vm_compute; reflexivity|]. left. cbn. lia.
  - exists l. split; [done|]. apply Ha. right; right. constructor; [|constructor].
    right; right. split; [reflexivity|]. split; [reflexivity|]. vm_compute. discriminate.
Defined.
