(* ===== verification/ScriptVal.v ===== *)
(** * Concurrent script validation (src/node/blockchain/scriptval.go)

    [Validate] hands the inputs of a block to a pool of goroutines over
    unbuffered channels and returns the first error that comes back.  The pool
    is a transition system: a step is a rendezvous on [validateChan] or
    [resultChan], a handler finishing its computation, or a handler leaving
    because [quitChan] is closed; the scheduler picks any step that is enabled.
    The script engine is the parameter [engine]. *)
From Stdlib Require Import ZArith Lia Strings.Byte.
From stdpp Require Import base list gmap relations.
From S2P Require Import Prelude RuleErrors WireTx Merkle Utxo Covenant.
Open Scope Z_scope.

(** One input to validate: the transaction and the index of the input. *)
Record txValidateItem := mkItem { vi_tx : MsgTx; vi_txInIndex : nat; vi_txIn : TxIn }.

(** What [NewEngine] followed by [Execute] reports. *)
Inductive engineResult := EngineParseError | EngineExecError | EngineOk.

Section scripts.
Context (engine : bytes → MsgTx → nat → Z → UtxoViewpoint → engineResult).

(** The body of the handler for one item: the error it sends, [None] for nil. *)
Definition validateItem (utxoView : UtxoViewpoint) (txVI : txValidateItem) : option verr :=
  match LookupEntry utxoView (ti_PreviousOutPoint (vi_txIn txVI)) with
  | None => Some (ruleError ErrMissingTxOut)
  | Some utxo =>
      match engine (ue_pkScript utxo) (vi_tx txVI) (vi_txInIndex txVI) (ue_amount utxo) utxoView with
      | EngineParseError => Some (ruleError ErrScriptMalformed)
      | EngineExecError => Some (ruleError ErrScriptValidation)
      | EngineOk => None
      end
  end.

(** The inputs a block's transaction contributes: coinbase inputs and spends of
    bounty scripts are skipped. *)
Definition txItems (utxoView : UtxoViewpoint) (tx : MsgTx) : list txValidateItem :=
  omap (λ '(i, txIn),
          if op_Index (ti_PreviousOutPoint txIn) =? 4294967295 then None else
          match LookupEntry utxoView (ti_PreviousOutPoint txIn) with
          | Some entry => if Bounty.IsInferenceBountyScript (ue_pkScript entry) then None
                          else Some (mkItem tx i txIn)
          | None => Some (mkItem tx i txIn)
          end)
       (imap pair (tx_TxIn tx)).

Definition blockItems (utxoView : UtxoViewpoint) (txs : list MsgTx) : list txValidateItem :=
  concat (txItems utxoView <$> txs).

(** The outcome of the validation under the schedule that handles the items in
    order; [Validate_correct] says what the other schedules can return. *)
Definition firstError (utxoView : UtxoViewpoint) (items : list txValidateItem) : res verr unit :=
  res_forall (λ it, match validateItem utxoView it with Some e => Err e | None => Ok tt end) items.

Definition checkBlockScripts (utxoView : UtxoViewpoint) (txs : list MsgTx) : res verr unit :=
  firstError utxoView (blockItems utxoView txs).

Definition ValidateTransactionScripts (utxoView : UtxoViewpoint) (tx : MsgTx) : res verr unit :=
  firstError utxoView (txItems utxoView tx).
End scripts.

(** ** The pool of validators *)
Module Pool.
Section pool.
Context {Item : Type} (check : Item → option verr) (items : list Item).

(** A handler waits for an item, works on one, waits to send a result, or has
    returned. *)
Inductive worker := Idle | Busy (it : Item) | Sending (r : option verr) | Exited.

Record state := mkState {
  currentItem : nat;
  processedItems : nat;
  workers : list worker;
  returned : option (option verr) }.      (* [quitChan] is closed once this is set *)

(** [maxGoRoutines] of [Validate]. *)
Definition maxGoRoutines (numCPU : Z) : nat :=
  let m := numCPU * 3 in
  let m := if m <=? 0 then 1 else m in
  Z.to_nat (if Z.of_nat (length items) <? m then Z.of_nat (length items) else m).

Definition init (n : nat) : state :=
  mkState 0 0 (replicate n Idle) (if (length items =? 0)%nat then Some None else None).

(** The coordinator takes a nil result: the loop ends with the last one. *)
Definition onNil (s : state) (i : nat) : state :=
  let p := S (processedItems s) in
  mkState (currentItem s) p (<[i := Idle]> (workers s))
    (if (p =? length items)%nat then Some None else None).

Definition set (s : state) (i : nat) (w : worker) : state :=
  mkState (currentItem s) (processedItems s) (<[i := w]> (workers s)) (returned s).

Inductive step : state → state → Prop :=
| step_dispatch s i it :                   (* validateChan <- item *)
    returned s = None → workers s !! i = Some Idle → items !! currentItem s = Some it →
    step s (mkState (S (currentItem s)) (processedItems s) (<[i := Busy it]> (workers s)) None)
| step_compute s i it :                    (* the handler checks the item *)
    workers s !! i = Some (Busy it) → step s (set s i (Sending (check it)))
| step_nil s i :                           (* resultChan <- nil *)
    returned s = None → workers s !! i = Some (Sending None) → step s (onNil s i)
| step_error s i e :                       (* resultChan <- err; close(quitChan) *)
    returned s = None → workers s !! i = Some (Sending (Some e)) →
    step s (mkState (currentItem s) (S (processedItems s)) (<[i := Exited]> (workers s)) (Some (Some e)))
| step_quit_idle s i :                     (* <-quitChan in the handler *)
    returned s ≠ None → workers s !! i = Some Idle → step s (set s i Exited)
| step_quit_send s i r :                   (* <-quitChan in sendResult *)
    returned s ≠ None → workers s !! i = Some (Sending r) →
    step s (set s i (match r with None => Idle | Some _ => Exited end)).

(** ** Facts about the pool *)
(** The items a handler answers for. *)
Inductive holds : worker → list Item → Prop :=
| holds_idle : holds Idle []
| holds_busy it : holds (Busy it) [it]
| holds_sending it : holds (Sending (check it)) [it]
| holds_exited : holds Exited [].

(** While the coordinator runs, every item handed out was found valid or is in
    the hands of one handler. *)
Definition running (s : state) : Prop :=
  (processedItems s < length items)%nat ∧ Exited ∉ workers s ∧
  ∃ ok gs, Forall2 holds (workers s) gs ∧ take (currentItem s) items ≡ₚ ok ++ concat gs
    ∧ Forall (λ it, check it = None) ok ∧ length ok = processedItems s
    ∧ (currentItem s <= length items)%nat.

Definition outcome (r : option verr) : Prop :=
  match r with
  | None => Forall (λ it, check it = None) items
  | Some e => ∃ it, it ∈ items ∧ check it = Some e
  end.

Definition inv (n : nat) (s : state) : Prop :=
  length (workers s) = n ∧
  match returned s with None => running s | Some r => outcome r end.

Lemma concat_insert (gs : list (list Item)) i g g' : gs !! i = Some g →
  concat (<[i := g']> gs) ++ g ≡ₚ concat gs ++ g'.
Proof.
  intros Hi. pose proof (lookup_lt_Some _ _ _ Hi). rewrite <- (take_drop_middle gs i g Hi).
  assert (Hl : length (take i gs) = i) by (rewrite length_take; lia).
  rewrite insert_app_r_alt, Hl, Nat.sub_diag by lia. cbn [list_insert insert]. rewrite !concat_app. cbn [concat]. solve_Permutation.
Qed.

(** Replacing the state of one handler changes the items in hand accordingly. *)
Lemma holds_update ws gs i w w' g' : Forall2 holds ws gs → ws !! i = Some w → holds w' g' →
  ∃ g, holds w g ∧ Forall2 holds (<[i := w']> ws) (<[i := g']> gs)
    ∧ concat (<[i := g']> gs) ++ g ≡ₚ concat gs ++ g'.
Proof.
  intros Hf Hw Hh. destruct (Forall2_lookup_l _ _ _ _ _ Hf Hw) as (g & Hg & Hwg).
  exists g. split; [done|]. split; [by apply Forall2_insert|by apply concat_insert].
Qed.

Lemma not_exited_insert (ws : list worker) i w : Exited ∉ ws → w ≠ Exited → Exited ∉ <[i := w]> ws.
Proof.
  intros Hn Hw Hin. apply list_elem_of_lookup in Hin as [j Hj].
  destruct (decide (i = j)) as [->|Hij].
  - apply list_lookup_insert_Some in Hj as [(_ & ? & _)|(? & _)]; [congruence|done].
  - rewrite list_lookup_insert_ne in Hj by done. apply Hn. by apply list_elem_of_lookup_2 in Hj.
Qed.

Lemma dispatch_inv n s i it : inv n s → returned s = None → workers s !! i = Some Idle →
  items !! currentItem s = Some it →
  inv n (mkState (S (currentItem s)) (processedItems s) (<[i := Busy it]> (workers s)) None).
Proof.
  intros [Hn Hr] Hret Hw Hit. rewrite Hret in Hr. destruct Hr as (Hp & Hx & ok & gs & Hf & Hperm & Hok & Hlen & Hc).
  split; [cbn; by rewrite length_insert|]. split; [done|]. split; [by apply not_exited_insert|].
  destruct (holds_update _ _ _ _ _ _ Hf Hw (holds_busy it)) as (g & Hg & Hf' & Hc').
  inversion Hg; subst. rewrite app_nil_r in Hc'. exists ok, (<[i := [it]]> gs). cbn.
  split; [done|]. split; [|split; [done|split; [done|]]].
  - rewrite (take_S_r _ _ _ Hit), Hperm, Hc'. by rewrite app_assoc.
  - by apply lookup_lt_Some in Hit.
Qed.

Lemma compute_inv n s i it : inv n s → workers s !! i = Some (Busy it) →
  inv n (set s i (Sending (check it))).
Proof.
  intros [Hn Hr] Hw. split; [cbn; by rewrite length_insert|]. cbn.
  destruct (returned s) as [r|]; [done|]. destruct Hr as (Hp & Hx & ok & gs & Hf & Hperm & Hrest).
  split; [done|]. split; [by apply not_exited_insert|].
  destruct (holds_update _ _ _ _ _ _ Hf Hw (holds_sending it)) as (g & Hg & Hf' & Hc').
  inversion Hg; subst. apply Permutation_app_inv_r in Hc'.
  exists ok, (<[i := [it]]> gs). cbn. split; [done|]. split; [by rewrite Hc'|done].
Qed.

Lemma nil_inv n s i : inv n s → returned s = None → workers s !! i = Some (Sending None) →
  inv n (onNil s i).
Proof.
  intros [Hn Hr] Hret Hw. rewrite Hret in Hr. destruct Hr as (Hp & Hx & ok & gs & Hf & Hperm & Hok & Hlen & Hc).
  split; [cbn; by rewrite length_insert|].
  destruct (holds_update _ _ _ _ _ _ Hf Hw holds_idle) as (g & Hg & Hf' & Hc').
  inversion Hg as [| |it Hit|]; subst. rewrite app_nil_r in Hc'.
  assert (Hperm' : take (currentItem s) items ≡ₚ (it :: ok) ++ concat (<[i := []]> gs)).
  { rewrite Hperm, <- Hc'. solve_Permutation. }
  assert (Hok' : Forall (λ it, check it = None) (it :: ok)) by by constructor.
  unfold onNil. cbn [returned]. destruct (Nat.eqb_spec (S (processedItems s)) (length items)) as [Heq|Hne].
  - cbn. assert (Hl := Permutation_length Hperm'). rewrite length_app, length_take in Hl. cbn in Hl.
    assert (Hlc : length (concat (<[i := []]> gs)) = 0%nat) by lia.
    apply nil_length_inv in Hlc. rewrite Hlc, app_nil_r, take_ge in Hperm' by lia.
    apply Forall_forall. intros x Hx'. rewrite Hperm' in Hx'. by apply (proj1 (Forall_forall _ _) Hok').
  - split; [cbn; lia|]. split; [by apply not_exited_insert|].
    exists (it :: ok), (<[i := []]> gs). cbn. rewrite Hlen. done.
Qed.

Lemma error_inv n s i e : inv n s → returned s = None → workers s !! i = Some (Sending (Some e)) →
  inv n (mkState (currentItem s) (S (processedItems s)) (<[i := Exited]> (workers s)) (Some (Some e))).
Proof.
  intros [Hn Hr] Hret Hw. rewrite Hret in Hr. destruct Hr as (_ & _ & ok & gs & Hf & Hperm & _).
  split; [cbn; by rewrite length_insert|]. cbn.
  destruct (Forall2_lookup_l _ _ _ _ _ Hf Hw) as (g & Hg & Hwg). inversion Hwg as [| |it Hit|]; subst.
  exists it. split; [|done]. assert (it ∈ take (currentItem s) items) as Hin.
  { rewrite Hperm. apply elem_of_app. right. apply list_elem_of_In, in_concat. exists [it].
    split; [|by left]. apply list_elem_of_In. by apply list_elem_of_lookup_2 in Hg. }
  rewrite <- (take_drop (currentItem s) items). apply elem_of_app. by left.
Qed.

Lemma step_inv n s s' : step s s' → inv n s → inv n s'.
Proof.
  intros Hs Hi. destruct Hs.
  - by apply dispatch_inv.
  - by apply compute_inv.
  - by apply nil_inv.
  - by apply error_inv.
  - destruct Hi as [Hn Hr]. split; [cbn; by rewrite length_insert|]. cbn. by destruct (returned s).
  - destruct Hi as [Hn Hr]. split; [cbn; by rewrite length_insert|]. cbn. by destruct (returned s).
Qed.

Lemma init_inv n : inv n (init n).
Proof.
  split; [apply length_replicate|]. cbn. destruct (Nat.eqb_spec (length items) 0) as [H0|H0].
  - cbn. apply nil_length_inv in H0. rewrite H0. constructor.
  - split; [cbn; lia|]. split; [by intros [? _]%elem_of_replicate|].
    exists [], (replicate n []). cbn. split; [|split; [|split; [constructor|split; [done|lia]]]].
    + apply Forall2_replicate, holds_idle.
    + by induction n.
Qed.

(** Every step lowers this measure, so no schedule runs forever. *)
Definition weight (w : worker) : nat :=
  match w with Idle => 1 | Busy _ => 4 | Sending _ => 3 | Exited => 0 end.
Definition measure (s : state) : nat :=
  (4 * (length items - currentItem s) + foldr (λ w n, weight w + n) 0 (workers s))%nat.

Lemma weight_insert (ws : list worker) i w w' : ws !! i = Some w →
  (foldr (λ w n, weight w + n) 0 (<[i := w']> ws) + weight w
   = foldr (λ w n, weight w + n) 0 ws + weight w')%nat.
Proof.
  revert i. induction ws as [|x ws IH]; intros [|i] Hi; try done.
  - injection Hi as ->. cbn. lia.
  - change (<[S i := w']> (x :: ws)) with (x :: <[i := w']> ws). cbn [foldr].
    specialize (IH i Hi). lia.
Qed.

Lemma step_measure s s' : step s s' → (measure s' < measure s)%nat.
Proof.
  intros Hs. unfold measure. destruct Hs as [s i it _ Hw Hit|s i it Hw|s i _ Hw|s i e _ Hw|s i _ Hw|s i r _ Hw];
    cbn [currentItem workers set onNil].
  - pose proof (weight_insert _ _ _ (Busy it) Hw). apply lookup_lt_Some in Hit. cbn in *. lia.
  - pose proof (weight_insert _ _ _ (Sending (check it)) Hw). cbn in *. lia.
  - pose proof (weight_insert _ _ _ Idle Hw). cbn in *. lia.
  - pose proof (weight_insert _ _ _ Exited Hw). cbn in *. lia.
  - pose proof (weight_insert _ _ _ Exited Hw). cbn in *. lia.
  - destruct r as [e|].
    + pose proof (weight_insert _ _ _ Exited Hw). cbn in *. lia.
    + pose proof (weight_insert _ _ _ Idle Hw). cbn in *. lia.
Qed.

Lemma sn_pool s : sn step s.
Proof.
  enough (H : ∀ m s, (measure s < m)%nat → sn step s) by (apply (H (S (measure s))); lia).
  intros m. induction m as [|m IH]; intros s' Hm; [lia|].
  constructor. intros s'' Hs. apply IH. pose proof (step_measure _ _ Hs). lia.
Qed.

Lemma reachable_inv n s : rtc step (init n) s → inv n s.
Proof.
  intros Hr. remember (init n) as s0 eqn:E. assert (Hi : inv n s0) by (subst; apply init_inv). clear E.
  induction Hr as [|x y z Hxy Hyz IH]; [done|]. apply IH. by apply (step_inv n x).
Qed.

(** A handler that is neither waiting nor gone can always move. *)
Lemma busy_moves s i it : workers s !! i = Some (Busy it) → red step s.
Proof. intros Hw. eexists. by apply step_compute with (it := it). Qed.

Lemma sending_moves s i r : workers s !! i = Some (Sending r) → red step s.
Proof.
  intros Hw. destruct (returned s) eqn:E.
  - eexists. apply step_quit_send with (r := r); [by rewrite E|done].
  - destruct r as [e|]; eexists; [by apply step_error with (e := e)|by apply step_nil].
Qed.

(** A state without a step has delivered its result and every handler has
    returned: no deadlock, no goroutine left behind. *)
Lemma stuck_done n s : inv n s → (0 < n)%nat ∨ items = [] → nf step s →
  returned s ≠ None ∧ Forall (λ w, w = Exited) (workers s).
Proof.
  intros [Hlen Hr] Hn Hnf. destruct (returned s) as [r|] eqn:E.
  - split; [done|]. apply Forall_lookup. intros i w Hw. destruct w as [|it|r'|].
    + exfalso. apply Hnf. eexists. apply step_quit_idle; [by rewrite E|done].
    + exfalso. apply Hnf. exact (busy_moves _ _ _ Hw).
    + exfalso. apply Hnf. exact (sending_moves _ _ _ Hw).
    + done.
  - exfalso. destruct Hr as (Hp & Hx & ok & gs & Hf & Hperm & _ & Hok & Hc).
    assert (Hidle : Forall (λ w, w = Idle) (workers s)).
    { apply Forall_lookup. intros i w Hw. destruct w as [|it|r'|].
      - done.
      - exfalso. apply Hnf. exact (busy_moves _ _ _ Hw).
      - exfalso. apply Hnf. exact (sending_moves _ _ _ Hw).
      - exfalso. apply Hx. by apply list_elem_of_lookup_2 in Hw. }
    assert (Hgs : concat gs = []).
    { clear -Hf Hidle. induction Hf as [|w g ws gs Hw Hf IH]; [done|].
      apply Forall_cons in Hidle as [-> Hidle]. inversion Hw; subst. cbn. auto. }
    destruct Hn as [Hn| ->]; [|cbn in Hp; lia].
    destruct (workers s) as [|w ws] eqn:Ew; [cbn in Hlen; lia|]. apply Forall_cons in Hidle as [-> _].
    apply Permutation_length in Hperm. rewrite Hgs, app_nil_r, length_take in Hperm.
    destruct (lookup_lt_is_Some_2 items (currentItem s)) as [it Hit]; [lia|].
    apply Hnf. eexists. apply (step_dispatch s 0%nat it); [done|by rewrite Ew|done].
Qed.

Lemma maxGoRoutines_pos numCPU : (0 < maxGoRoutines numCPU)%nat ∨ items = [].
Proof.
  unfold maxGoRoutines. destruct items as [|it l]; [by right|left]. cbn [length].
  destruct (Z.leb_spec (numCPU * 3) 0);
    match goal with |- context [?a <? ?b] => destruct (Z.ltb_spec a b) end; lia.
Qed.
End pool.
End Pool.

Lemma firstError_Ok engine v items :
  firstError engine v items = Ok tt ↔ Forall (λ it, validateItem engine v it = None) items.
Proof.
  unfold firstError. rewrite res_forall_Ok, !Forall_forall.
  split; intros H it Hit; specialize (H it Hit); cbn in *; by destruct (validateItem engine v it).
Qed.

(** C23. Concurrent script validation is correct under every schedule: however
    the handlers and the coordinator interleave, the run ends; when nothing can
    move any more, [Validate] has returned and every goroutine it started has
    returned too; it returned nil exactly if each input's script check
    succeeds, and an error it returns is the error of some input. *)
Theorem Validate_correct (engine : bytes → MsgTx → nat → Z → UtxoViewpoint → engineResult)
  (utxoView : UtxoViewpoint) (items : list txValidateItem) (numCPU : Z) :
  let check := validateItem engine utxoView in
  let start := Pool.init items (Pool.maxGoRoutines items numCPU) in
  sn (Pool.step check items) start
  ∧ ∀ s, rtc (Pool.step check items) start s → nf (Pool.step check items) s →
    Forall (λ w, w = Pool.Exited) (Pool.workers s)
    ∧ ∃ r, Pool.returned s = Some r
        ∧ (r = None ↔ firstError engine utxoView items = Ok tt)
        ∧ ∀ e, r = Some e → ∃ it, it ∈ items ∧ validateItem engine utxoView it = Some e.
Proof.
  cbv zeta. split; [apply Pool.sn_pool|]. intros s Hs Hnf.
  pose proof (Pool.reachable_inv _ _ _ _ Hs) as Hinv.
  destruct (Pool.stuck_done _ _ _ _ Hinv (Pool.maxGoRoutines_pos items numCPU) Hnf) as [Hret Hex].
  split; [done|]. destruct Hinv as [_ Hinv]. destruct (Pool.returned s) as [r|]; [|done].
  exists r. split; [done|]. rewrite firstError_Ok. destruct r as [e|]; cbn in Hinv.
  - split; [|by intros e' [= <-]]. split; [done|]. intros Hall. destruct Hinv as (it & Hit & He).
    rewrite Forall_forall in Hall. rewrite (Hall it Hit) in He. done.
  - split; [done|]. by intros e.
Qed.
