(* ===== verification/BlockRules.v ===== *)
(** * Block rules
    (src/node/blockchain/validate.go, auxpow.go, checkpoints.go,
    src/node/zkpow/verify.go)

    The checks of a block: proof of work and merged mining, its header on its
    own and in its chain, its transactions on their own and against the set of
    unspent outputs.  The zero-knowledge verifier is reached through its foreign
    interface and is the class [ZkVerifier]; the script engine is a parameter. *)
From Stdlib Require Import ZArith Lia Strings.Byte Strings.String.
From stdpp Require Import base list gmap.
From S2P Require Import Prelude RuleErrors WireTx WireBlock WireInference Chaincfg Difficulty.
From S2P Require Import BlockIndex Merkle Script ScriptBuilder Utxo Covenant TxRules ScriptVal.
Import InferenceGo.
Open Scope Z_scope.
Open Scope list_scope.

(** ** Behaviour flags (process.go) *)
Definition BFNone : Z := 0.
Definition BFFastAdd : Z := 1.
Definition BFNoPoWCheck : Z := 2.
Definition flagSet (flags f : Z) : bool := Z.land flags f =? f.

(** ** Certificates (zkpow/verify.go) *)
(** [C.IncompleteBlockHeader]. *)
Record IncompleteBlockHeader := mkIncomplete {
  c_version : Z;
  c_prev_block : bytes;
  c_merkle_root : bytes;
  c_timestamp : Z;
  c_nbits : Z }.

(** The foreign verifier returns 0 for an accepted proof, 1 for a rejected one
    and 2 for a system error. *)
Class ZkVerifier := {
  verify_zk_proof_v2 : IncompleteBlockHeader → bytes → bytes → Z;
  verify_zk_proof_auxpow_with_nbits : IncompleteBlockHeader → bytes → bytes → Z → Z }.

Definition blockHeaderToC (header : BlockHeader) : IncompleteBlockHeader :=
  mkIncomplete (u32 (bh_Version header)) (reverse (bh_PrevBlock header)) (reverse (bh_MerkleRoot header))
    (u32 (unixOf (bh_Timestamp header))) (bh_Bits header).

Inductive zkErr := HashMismatch | CommitmentMismatch | EmptyProof | ProofRejected | SystemError | UnknownResult.

Section pow.
Context `{ZkVerifier} (sha256 blake3 : bytes → bytes).

Definition verifyZKCertificateInner (header : BlockHeader) (c : ZKCertificate) (nbitsOverride : option Z)
  : res zkErr unit :=
  if negb (bool_decide (zk_Hash c = BlockHash sha256 header)) then Err HashMismatch else
  if negb (bool_decide (bh_ProofCommitment header = ZK_ProofCommitment sha256 c)) then Err CommitmentMismatch else
  if (length (zk_ProofData c) =? 0)%nat then Err EmptyProof else
  let cHeader := blockHeaderToC header in
  let result :=
    match nbitsOverride with
    | Some nbits => verify_zk_proof_auxpow_with_nbits cHeader (zk_PublicData c) (zk_ProofData c) nbits
    | None => verify_zk_proof_v2 cHeader (zk_PublicData c) (zk_ProofData c)
    end in
  if result =? 0 then Ok tt else if result =? 1 then Err ProofRejected
  else if result =? 2 then Err SystemError else Err UnknownResult.

Definition VerifyCertificate (header : BlockHeader) (cert : ZKCertificate) : res zkErr unit :=
  verifyZKCertificateInner header cert None.

Definition VerifyZKCertificateWithNbits (header : BlockHeader) (c : ZKCertificate) (nbits : Z) : res zkErr unit :=
  verifyZKCertificateInner header c (Some nbits).

(** ** Merged mining (auxpow.go) *)
Definition auxPowActivationHeight : Z := 0.

Inductive auxErr :=
| BelowActivation | AuxNil | HeaderParse | HeaderNonCanonical | ProofInvalid (e : zkErr)
| StateHashMismatch | HeightNotPositive | CoinbaseMissing | CommitmentMissing | BranchMismatch.

Definition VerifyAuxPow (auxPow : option AuxPowData) (modelOSBlockHeight : Z) (modelOSStateHash : bytes)
    (modelOSTarget : Z) : res auxErr unit :=
  if modelOSBlockHeight <? auxPowActivationHeight then Err BelowActivation else
  match auxPow with
  | None => Err AuxNil
  | Some a =>
      match readBlockHeaderBuf (ap_PearlHeader a) with
      | Err _ => Err HeaderParse
      | Ok (pearlHeader, _) =>
          if negb (bool_decide (writeBlockHeaderBuf pearlHeader = ap_PearlHeader a))
          then Err HeaderNonCanonical else
          let pearlCert := mkZKCertificate (BlockHash sha256 pearlHeader) (ap_PearlPublicData a)
                             (ap_PearlProofData a) in
          let mdlBits := BigToCompact modelOSTarget in
          match VerifyZKCertificateWithNbits pearlHeader pearlCert mdlBits with
          | Err e => Err (ProofInvalid e)
          | Ok _ =>
              if negb (bool_decide (ap_ModelOSStateHash a = modelOSStateHash)) then Err StateHashMismatch else
              if ap_PearlHeight a <=? 0 then Err HeightNotPositive else
              if (length (ap_PearlCoinbaseTx a) =? 0)%nat then Err CoinbaseMissing else
              if ContainsModelosCommitment (ap_PearlCoinbaseTx a) (ap_ModelOSStateHash a) <? 0
              then Err CommitmentMissing else
              let coinbaseTxid := DoubleHashH sha256 (ap_PearlCoinbaseTx a) in
              if negb (bool_decide (VerifyCoinbaseMerkleRoot sha256 a coinbaseTxid = PearlMerkleRoot a))
              then Err BranchMismatch else Ok tt
          end
      end
  end.

(** ** Header checks *)
Definition checkProofOfWork (header : BlockHeader) (cert : BlockCertificate) (powLimit flags : Z)
  : res verr unit :=
  let target := CompactToBig (bh_Bits header) in
  if target <=? 0 then Err (ruleError ErrUnexpectedDifficulty) else
  if powLimit <? target then Err (ruleError ErrUnexpectedDifficulty) else
  if IsAuxPowBlock header then Ok tt else
  match cert with
  | None => Err (ruleError ErrCertificateMissing)
  | Some c =>
      if negb (flagSet flags BFNoPoWCheck) then
        match VerifyCertificate header c with
        | Ok _ => Ok tt
        | Err _ => Err (ruleError ErrHighHash)
        end
      else Ok tt
  end.

Definition CheckProofOfWork (msgBlock : MsgBlock) (powLimit : Z) : res verr unit :=
  checkProofOfWork (mb_BlockHeader msgBlock) (mb_BlockCertificate msgBlock) powLimit BFNone.

(** The certificate checks; a certificate is always version 1 here. *)
Definition checkCertificate (header : BlockHeader) (cert : BlockCertificate) : res verr unit :=
  let isAuxPow := IsAuxPowBlock header in
  match cert with
  | None => if negb isAuxPow then Err (ruleError ErrCertificateMissing) else Ok tt
  | Some c =>
      if CertificateMaxSize <? 4 + ZK_SerializedSize c then Err (ruleError ErrCertificateTooLarge) else
      if negb isAuxPow && negb (IsCertVersionAllowed CertificateVersionZK)
      then Err (ruleError ErrDisallowedCertVersion) else Ok tt
  end.

(** [now] is [timeSource.AdjustedTime()] in nanoseconds. *)
Definition CheckBlockHeaderSanity (header : BlockHeader) (cert : BlockCertificate) (powLimit now
    maxTimeOffsetMinutes flags : Z) : res verr unit :=
  let? _ := checkCertificate header cert in
  if negb (bh_Timestamp header =? timeUnix (unixOf (bh_Timestamp header)))
  then Err (ruleError ErrInvalidTime) else
  let maxTimestamp := now + i64 (Minute * maxTimeOffsetMinutes) in
  if maxTimestamp <? bh_Timestamp header then Err (ruleError ErrTimeTooNew) else
  checkProofOfWork header cert powLimit flags.

(** ** Block sanity *)
(** The AuxPoW data of a block: present exactly on AuxPoW blocks, and committed
    to by the header. *)
Definition checkAuxPowData (chainParams : Params) (msgBlock : MsgBlock) : res verr unit :=
  let header := mb_BlockHeader msgBlock in
  if IsAuxPowBlock header then
    match mb_AuxPow msgBlock with
    | None => Err (ruleError ErrBadAuxPoW)
    | Some a =>
        if bool_decide (bh_ProofCommitment header = AuxPowProofCommitment blake3 a (Net chainParams))
        then Ok tt else Err (ruleError ErrBadAuxPoW)
    end
  else match mb_AuxPow msgBlock with
       | Some _ => Err (ruleError ErrBadAuxPoW)
       | None => Ok tt
       end.

(** One round of the duplicate check. *)
Definition noteTx (existingTxHashes : gset bytes) (tx : MsgTx) : res verr (gset bytes) :=
  let hash := TxHash sha256 tx in
  if bool_decide (hash ∈ existingTxHashes) then Err (ruleError ErrDuplicateTx)
  else Ok ({[hash]} ∪ existingTxHashes).

Context `{Schnorr}.

Definition checkBlockSanity (msgBlock : MsgBlock) (chainParams : Params) (now flags : Z) : res verr unit :=
  let header := mb_BlockHeader msgBlock in
  let cert := mb_BlockCertificate msgBlock in
  let flags := if Net chainParams =? SimNet then Z.lor flags BFNoPoWCheck else flags in
  let? _ := CheckBlockHeaderSanity header cert (PowLimit chainParams) now
              (MaxTimeOffsetMinutes chainParams) flags in
  let? _ := checkAuxPowData chainParams msgBlock in
  let transactions := mb_Transactions msgBlock in
  let numTx := zlen transactions in
  if numTx =? 0 then Err (ruleError ErrNoTransactions) else
  if MaxBlockVsize <? numTx then Err (ruleError ErrBlockTooBig) else
  if MaxBlockVsize <? GetBlockVsize msgBlock then Err (ruleError ErrBlockTooBig) else
  match transactions with
  | [] => Err RuntimePanic
  | tx0 :: rest =>
      if negb (IsCoinBaseTx tx0) then Err (ruleError ErrFirstTxNotCoinbase) else
      if existsb IsCoinBaseTx rest then Err (ruleError ErrMultipleCoinbases) else
      let allowInferenceTx := TxVersionInference <=? MaxSupportedTxVersion chainParams in
      let? _ := res_forall (λ tx, CheckTransactionSanity tx allowInferenceTx) transactions in
      match CalcMerkleRoot sha256 transactions false with
      | None => Err RuntimePanic
      | Some calcMerkleRoot =>
          if negb (bool_decide (bh_MerkleRoot header = calcMerkleRoot))
          then Err (ruleError ErrBadMerkleRoot) else
          let? _ := res_foldl noteTx ∅ transactions in Ok tt
      end
  end.

Definition CheckBlockSanity (msgBlock : MsgBlock) (chainParams : Params) (now : Z) : res verr unit :=
  checkBlockSanity msgBlock chainParams now BFNone.
End pow.

(** ** The height in the coinbase *)
(** [None] of [AddInt64] (a panic) does not occur for an int32. *)
Definition compareScript (height : Z) (script : bytes) : res verr unit :=
  match AddInt64 NewScriptBuilder height with
  | None => Err RuntimePanic
  | Some b =>
      match Build b with
      | None => Err OtherError
      | Some scriptHeight =>
          if bool_decide (take (length scriptHeight) script = scriptHeight) then Ok tt
          else Err (ruleError ErrBadCoinbaseHeight)
      end
  end.

(** [copy(serializedHeightBytes[:], ...)]: at most four bytes, the rest zero. *)
Definition heightBytes (s : bytes) : bytes := take 4 (s ++ replicate 4 x00).

Definition ExtractCoinbaseHeight (coinbaseTx : MsgTx) : res verr Z :=
  match tx_TxIn coinbaseTx with
  | [] => Err RuntimePanic
  | ti :: _ =>
      match ti_SignatureScript ti with
      | [] => Err (ruleError ErrMissingCoinbaseHeight)
      | b :: rest =>
          let opcode := b2z b in
          if opcode =? OP_0 then Ok 0 else
          if (OP_1 <=? opcode) && (opcode <=? OP_16) then Ok (i32 (opcode - (OP_1 - 1))) else
          let serializedLen := opcode in
          if zlen rest <? serializedLen then Err (ruleError ErrMissingCoinbaseHeight) else
          let serializedHeight := i32 (le_decode (heightBytes (take (Z.to_nat serializedLen) rest))) in
          let? _ := compareScript serializedHeight (b :: rest) in
          Ok serializedHeight
      end
  end.

Definition CheckSerializedHeight (coinbaseTx : MsgTx) (wantHeight : Z) : res verr unit :=
  let? serializedHeight := ExtractCoinbaseHeight coinbaseTx in
  if negb (serializedHeight =? wantHeight) then Err (ruleError ErrBadCoinbaseHeight) else Ok tt.

(** ** The chain interface of the header checks *)
(** [ChainCtx]: [FindPreviousCheckpoint] updates the state it caches. *)
Class ChainCtx (C N : Type) := {
  cc_ChainParams : C → Params;
  cc_VerifyCheckpoint : C → Z → bytes → bool;
  cc_FindPreviousCheckpoint : C → res verr (option N) * C }.

Section header_context.
Context (sha256 : bytes → bytes) {C N : Type} `{ChainCtx C N}.
Context `{HeaderCtx N}.

Definition MinTimestampDeltaSeconds : Z := 1.

(** The checks a block skips when it is added fast. *)
(** The difficulty calculation returns no error; it panics on a mainnet with
    [ReduceMinDifficulty]. *)
Definition checkHeaderDifficulty (header : BlockHeader) (prevNode : N) (c : C) : res verr unit :=
  match calcNextRequiredDifficulty (cc_ChainParams c) (Some prevNode) (unixOf (bh_Timestamp header)) with
  | Err _ => Err RuntimePanic
  | Ok expectedDifficulty =>
      if negb (bh_Bits header =? expectedDifficulty) then Err (ruleError ErrUnexpectedDifficulty) else
      let minTimestamp := timeUnix (Timestamp prevNode) + i64 (MinTimestampDeltaSeconds * Second) in
      if bh_Timestamp header <? minTimestamp then Err (ruleError ErrTimeTooOld) else Ok tt
  end.

Definition CheckBlockHeaderContext (header : BlockHeader) (prevNode : N) (flags : Z) (c : C)
    (skipCheckpoint : bool) : res verr unit * C :=
  let blockHeight := i32 (Height prevNode + 1) in
  match (if flagSet flags BFFastAdd then Ok tt else checkHeaderDifficulty header prevNode c) with
  | Err e => (Err e, c)
  | Ok _ =>
      if skipCheckpoint then (Ok tt, c) else
      if negb (cc_VerifyCheckpoint c blockHeight (BlockHash sha256 header))
      then (Err (ruleError ErrBadCheckpoint), c) else
      match cc_FindPreviousCheckpoint c with
      | (Err e, c') => (Err e, c')
      | (Ok None, c') => (Ok tt, c')
      | (Ok (Some checkpointNode), c') =>
          if blockHeight <? Height checkpointNode then (Err (ruleError ErrForkTooOld), c') else (Ok tt, c')
      end
  end.
End header_context.

(** ** Checkpoints (checkpoints.go) *)
(** The part of [BlockChain] the rules use. *)
Record BlockChain := mkChain {
  bc_params : Params;
  bc_checkpoints : list Checkpoint;
  bc_checkpointsByHeight : gmap Z Checkpoint;
  bc_index : blockIndex;
  bc_bestChain : chainView;
  bc_checkpointNode : option ptr;
  bc_nextCheckpoint : option Checkpoint }.

Definition setCheckpoints (b : BlockChain) (node : option ptr) (nxt : option Checkpoint) : BlockChain :=
  mkChain (bc_params b) (bc_checkpoints b) (bc_checkpointsByHeight b) (bc_index b) (bc_bestChain b) node nxt.

Definition HasCheckpoints (b : BlockChain) : bool := (0 <? length (bc_checkpoints b))%nat.
Definition LatestCheckpoint (b : BlockChain) : option Checkpoint := last (bc_checkpoints b).

Definition verifyCheckpoint (b : BlockChain) (height : Z) (hash : bytes) : bool :=
  if negb (HasCheckpoints b) then true else
  match bc_checkpointsByHeight b !! height with
  | None => true
  | Some cp => bool_decide (cp_Hash cp = hash)
  end.

(** The latest checkpoint below index [i] that is on the best chain. *)
Fixpoint latestKnown (b : BlockChain) (i : nat) : option (nat * ptr) :=
  match i with
  | O => None
  | S i' =>
      match bc_checkpoints b !! i' with
      | None => None
      | Some cp =>
          match LookupNode (bc_index b) (cp_Hash cp) with
          | Some node => if contains (bi_heap (bc_index b)) (bc_bestChain b) node then Some (i', node)
                         else latestKnown b i'
          | None => latestKnown b i'
          end
      end
  end.

(** The greatest index below [i] of a checkpoint with this hash. *)
Fixpoint checkpointIndex (cps : list Checkpoint) (hash : bytes) (i : nat) : option nat :=
  match i with
  | O => None
  | S i' =>
      match cps !! i' with
      | None => None
      | Some cp => if bool_decide (cp_Hash cp = hash) then Some i' else checkpointIndex cps hash i'
      end
  end.

Definition findPreviousCheckpoint (b : BlockChain) : res verr (option ptr) * BlockChain :=
  if negb (HasCheckpoints b) then (Ok None, b) else
  let checkpoints := bc_checkpoints b in
  let n := length checkpoints in
  match bc_checkpointNode b, bc_nextCheckpoint b with
  | None, None =>
      match latestKnown b n with
      | Some (i, node) =>
          let nxt := if (i <? n - 1)%nat then checkpoints !! (i + 1)%nat else bc_nextCheckpoint b in
          (Ok (Some node), setCheckpoints b (Some node) nxt)
      | None => (Ok None, setCheckpoints b None (checkpoints !! 0%nat))
      end
  | cpNode, None => (Ok cpNode, b)
  | cpNode, Some nxt =>
      match tip (bc_bestChain b) ≫= (bi_heap (bc_index b) !!.) with
      | None => (Err RuntimePanic, b)
      | Some tipNode =>
          if bn_height tipNode <? cp_Height nxt then (Ok cpNode, b) else
          match LookupNode (bc_index b) (cp_Hash nxt) with
          | None => (Err AssertError, b)
          | Some node =>
              let nxt' := match checkpointIndex checkpoints (cp_Hash nxt) n with
                          | Some i => if (i <? n - 1)%nat then checkpoints !! (i + 1)%nat else None
                          | None => None
                          end in
              (Ok (Some node), setCheckpoints b (Some node) nxt')
          end
      end
  end.

#[export] Instance BlockChain_ctx : ChainCtx BlockChain ptr := {|
  cc_ChainParams := bc_params;
  cc_VerifyCheckpoint := verifyCheckpoint;
  cc_FindPreviousCheckpoint := findPreviousCheckpoint |}.

(** ** Blocks in context *)
Section context.
Context `{ZkVerifier} `{Schnorr} (sha256 blake3 sha3 : bytes → bytes).
Context (engine : bytes → MsgTx → nat → Z → UtxoViewpoint → engineResult).

(** The checks [checkBlockContext] makes unless the block is added fast. *)
Definition checkBlockBody (msgBlock : MsgBlock) (hp : heap) (prevNode : ptr) (nd : blockNode) : res verr unit :=
  let header := mb_BlockHeader msgBlock in
  let blockTime := CalcPastMedianTime (H := nodeCtx hp) prevNode in
  let blockHeight := i32 (bn_height nd + 1) in
  let? _ :=
    (if IsAuxPowBlock header then
       match VerifyAuxPow sha256 (mb_AuxPow msgBlock) blockHeight (bh_PrevBlock header)
               (CompactToBig (bh_Bits header)) with
       | Ok _ => Ok tt
       | Err _ => Err (ruleError ErrBadAuxPoW)
       end
     else Ok tt) in
  let? _ := res_forall (λ tx, if IsFinalizedTransaction tx blockHeight blockTime then Ok tt
                              else Err (ruleError ErrUnfinalizedTx)) (mb_Transactions msgBlock) in
  match mb_Transactions msgBlock with
  | [] => Err RuntimePanic
  | coinbaseTx :: _ =>
      let? _ := CheckSerializedHeight coinbaseTx blockHeight in
      let? _ := ValidateWitnessCommitment sha256 (mb_Transactions msgBlock) in
      if MaxBlockVsize <? GetBlockVsize msgBlock then Err (ruleError ErrBlockTooBig) else Ok tt
  end.

Definition checkBlockContext (b : BlockChain) (msgBlock : MsgBlock) (prevNode : ptr) (flags : Z)
  : res verr unit * BlockChain :=
  let hp := bi_heap (bc_index b) in
  match hp !! prevNode with
  | None => (Err RuntimePanic, b)
  | Some nd =>
      match CheckBlockHeaderContext (H0 := nodeCtx hp) sha256 (mb_BlockHeader msgBlock) prevNode flags b false with
      | (Err e, b') => (Err e, b')
      | (Ok _, b') =>
          if flagSet flags BFFastAdd then (Ok tt, b') else (checkBlockBody msgBlock hp prevNode nd, b')
      end
  end.

(** The outpoints a block creates. *)
Definition createdOutpoints (txs : list MsgTx) : list OutPoint :=
  concat ((λ tx, imap (λ i _, mkOutPoint (TxHash sha256 tx) (u32 (Z.of_nat i))) (tx_TxOut tx)) <$> txs).

(** [fetch] is the entry the UTXO cache returns for an outpoint. *)
Definition checkBIP0030 (fetch : OutPoint → option UtxoEntry) (txs : list MsgTx) (view : UtxoViewpoint)
  : res verr UtxoViewpoint :=
  let ops := createdOutpoints txs in
  let view := fetchUtxos fetch view ops in
  let? _ := res_forall (λ op, match LookupEntry view op with
                              | Some utxo => if IsSpent utxo then Ok tt else Err (ruleError ErrOverwriteTx)
                              | None => Ok tt
                              end) ops in
  Ok view.

(** The state of the loop over the transactions: the view, the spent outputs
    and the fees. *)
Definition connectTx (b : BlockChain) (node : ptr) (nd : blockNode)
    (st : UtxoViewpoint * list SpentTxOut * Z) (tx : MsgTx) : res verr (UtxoViewpoint * list SpentTxOut * Z) :=
  let '(view, stxos, totalFees) := st in
  let? issued := CheckInferenceGoIssuance sha3 tx (bn_height nd) (bc_params b) in
  let? txFee := CheckTransactionInputsWithIssuance tx (bn_height nd) view (bc_params b) issued in
  let? _ := Bounty.checkInferenceBountySpends sha3 tx (bi_heap (bc_index b)) node view in
  let lastTotalFees := totalFees in
  let totalFees := i64 (totalFees + txFee) in
  if totalFees <? lastTotalFees then Err (ruleError ErrBadFees) else
  let? (view, stxos) := connectTransaction sha256 view tx (bn_height nd) stxos in
  Ok (view, stxos, totalFees).

(** The coinbase pays at most the subsidy and the fees. *)
Definition checkCoinbaseValue (params : Params) (height totalFees : Z) (coinbase : MsgTx) : res verr unit :=
  match CalcBlockSubsidy height (Some params) with
  | None => Err RuntimePanic
  | Some subsidy =>
      if i64 (subsidy + totalFees) <? totalOut (tx_TxOut coinbase)
      then Err (ruleError ErrBadCoinbaseValue) else Ok tt
  end.

Definition checkSequenceLocks (hp : heap) (node : ptr) (height medianTime : Z) (view : UtxoViewpoint)
    (txs : list MsgTx) : res verr unit :=
  res_forall (λ tx,
    let? sequenceLock := calcSequenceLock hp node tx view in
    if SequenceLockActive sequenceLock height medianTime then Ok tt
    else Err (ruleError ErrUnfinalizedTx)) txs.

(** [genesisHash] is [chainParams.GenesisHash], [blockHeight] is
    [block.Height()].  The result is the view and the spent outputs after the
    block. *)
Definition checkConnectBlock (genesisHash : bytes) (fetch : OutPoint → option UtxoEntry) (b : BlockChain)
    (node : ptr) (msgBlock : MsgBlock) (blockHeight : Z) (view : UtxoViewpoint) (stxos : list SpentTxOut)
  : res verr (UtxoViewpoint * list SpentTxOut) :=
  let hp := bi_heap (bc_index b) in
  let header := mb_BlockHeader msgBlock in
  let transactions := mb_Transactions msgBlock in
  match hp !! node with
  | None => Err RuntimePanic
  | Some nd =>
      if bool_decide (bn_hash nd = genesisHash) then Err (ruleError ErrMissingTxOut) else
      if negb (bool_decide (bestHash view = bh_PrevBlock header)) then Err AssertError else
      let? view := checkBIP0030 fetch transactions view in
      let view := fetchInputUtxos sha256 fetch view
                    (mkBlock transactions blockHeight (BlockHash sha256 header) (bh_PrevBlock header)) in
      let? (view, stxos, totalFees) := res_foldl (connectTx b node nd) (view, stxos, 0) transactions in
      match transactions with
      | [] => Err RuntimePanic
      | coinbase :: _ =>
          let? _ := checkCoinbaseValue (bc_params b) (bn_height nd) totalFees coinbase in
          let runScripts := match LatestCheckpoint b with
                            | Some checkpoint => negb (bn_height nd <=? cp_Height checkpoint)
                            | None => true
                            end in
          match bn_parent nd with
          | None => Err RuntimePanic
          | Some parent =>
              let medianTime := CalcPastMedianTime (H := nodeCtx hp) parent in
              let? _ := checkSequenceLocks hp node (bn_height nd) medianTime view transactions in
              let? _ := (if runScripts then checkBlockScripts engine view transactions else Ok tt) in
              Ok (SetBestHash view (bn_hash nd), stxos)
          end
      end
  end.

(** The template is checked on a node of its own, on top of the tip, that does
    not enter the index. *)
Definition CheckConnectBlockTemplate (genesisHash : bytes) (fetch : OutPoint → option UtxoEntry)
    (b : BlockChain) (msgBlock : MsgBlock) (blockHeight now : Z) : res verr unit * BlockChain :=
  let flags := BFNoPoWCheck in
  let header := mb_BlockHeader msgBlock in
  match tip (bc_bestChain b) ≫= (λ p, (λ nd, (p, nd)) <$> bi_heap (bc_index b) !! p) with
  | None => (Err RuntimePanic, b)
  | Some (tipPtr, tipNode) =>
      if negb (bool_decide (bn_hash tipNode = bh_PrevBlock header))
      then (Err (ruleError ErrPrevBlockNotBest), b) else
      match checkBlockSanity sha256 blake3 msgBlock (bc_params b) now flags with
      | Err e => (Err e, b)
      | Ok _ =>
          match checkBlockContext b msgBlock tipPtr flags with
          | (Err e, b') => (Err e, b')
          | (Ok _, b') =>
              let view := mkView ∅ (bn_hash tipNode) in
              let nd := newBlockNode sha256 (bi_heap (bc_index b')) header (Some tipPtr) statusDataStored
                          (GetBlockVsize msgBlock) in
              let '(newNode, scratch) := allocNode (bc_index b') nd in
              let bs := mkChain (bc_params b') (bc_checkpoints b') (bc_checkpointsByHeight b') scratch
                          (bc_bestChain b') (bc_checkpointNode b') (bc_nextCheckpoint b') in
              match checkConnectBlock genesisHash fetch bs newNode msgBlock blockHeight view [] with
              | Ok _ => (Ok tt, b')
              | Err e => (Err e, b')
              end
          end
      end
  end.
End context.

(** ** Facts about the proof of work *)
Section pow_facts.
Context `{ZkVerifier} (sha256 : bytes → bytes).

(** The certificate is for this header, commits to its public data through the
    header, and the verifier accepts its proof. *)
Definition certified (verify : IncompleteBlockHeader → bytes → bytes → Z) (header : BlockHeader)
    (c : ZKCertificate) : Prop :=
  zk_Hash c = BlockHash sha256 header ∧ bh_ProofCommitment header = ZK_ProofCommitment sha256 c
  ∧ zk_ProofData c ≠ [] ∧ verify (blockHeaderToC header) (zk_PublicData c) (zk_ProofData c) = 0.

Lemma verifyZK_iff header c o : verifyZKCertificateInner sha256 header c o = Ok tt ↔
  certified (λ h p d, match o with Some n => verify_zk_proof_auxpow_with_nbits h p d n
                              | None => verify_zk_proof_v2 h p d end) header c.
Proof.
  unfold verifyZKCertificateInner, certified. case_bool_decide as H1; cbn [negb]; [|naive_solver].
  case_bool_decide as H2; cbn [negb]; [|naive_solver].
  destruct (zk_ProofData c) as [|x l]; cbn [length Nat.eqb]; [naive_solver|].
  set (r := match o with Some n => _ | None => _ end). destruct (Z.eqb_spec r 0) as [E|E].
  - split; [done|done].
  - split; [|naive_solver]. intros Hr. exfalso. destruct (r =? 1), (r =? 2); done.
Qed.

(** The merge-mining proof [a] is valid for the block on top of [state] at
    target [target]. *)
Definition auxValid (a : AuxPowData) (state : bytes) (target : Z) : Prop :=
  ∃ pearl, wfHeader pearl ∧ ap_PearlHeader a = writeBlockHeaderBuf pearl
    ∧ certified (λ h p d, verify_zk_proof_auxpow_with_nbits h p d (BigToCompact target)) pearl
        (mkZKCertificate (BlockHash sha256 pearl) (ap_PearlPublicData a) (ap_PearlProofData a))
    ∧ ap_ModelOSStateHash a = state ∧ 0 < ap_PearlHeight a
    ∧ ap_PearlCoinbaseTx a ≠ []
    ∧ 0 <= ContainsModelosCommitment (ap_PearlCoinbaseTx a) state
    ∧ VerifyCoinbaseMerkleRoot sha256 a (DoubleHashH sha256 (ap_PearlCoinbaseTx a)) = bh_MerkleRoot pearl.

Lemma PearlMerkleRoot_header a h : wfHeader h → ap_PearlHeader a = writeBlockHeaderBuf h →
  PearlMerkleRoot a = bh_MerkleRoot h.
Proof.
  intros (_ & H1 & H2 & _) E. unfold PearlMerkleRoot. rewrite E. unfold writeBlockHeaderBuf, HashSize in *.
  pose proof (length_le_encode 4 (u32 (bh_Version h))). slices. done.
Qed.

Lemma VerifyAuxPow_valid a height state target :
  VerifyAuxPow sha256 (Some a) height state target = Ok tt ↔ 0 <= height ∧ auxValid a state target.
Proof.
  unfold VerifyAuxPow, auxPowActivationHeight, auxValid. destruct (Z.ltb_spec height 0); [naive_solver lia|].
  split.
  - destruct (readBlockHeaderBuf (ap_PearlHeader a)) as [[ph r]|] eqn:E; [|done].
    apply codec_canonical in E as [Eh Hwf]. case_bool_decide as Hc; cbn [negb]; [|done].
    destruct (VerifyZKCertificateWithNbits _ _ _ _) as [[]|] eqn:Ez; [|done]. apply verifyZK_iff in Ez.
    case_bool_decide as Hs; cbn [negb]; [|done]. destruct (Z.leb_spec (ap_PearlHeight a) 0); [done|].
    destruct (Nat.eqb_spec (length (ap_PearlCoinbaseTx a)) 0) as [|Hcb]; [done|].
    destruct (Z.ltb_spec (ContainsModelosCommitment (ap_PearlCoinbaseTx a) (ap_ModelOSStateHash a)) 0); [done|].
    case_bool_decide as Hr; cbn [negb]; [|done]. intros _. split; [done|]. exists ph.
    rewrite (PearlMerkleRoot_header a ph) in Hr by done. subst state.
    split_and!; try done. intros Hn. by rewrite Hn in Hcb.
  - intros (_ & ph & Hwf & Eh & Hz & Hs & Hh & Hcb & Hc & Hr).
    assert (Er : readBlockHeaderBuf (ap_PearlHeader a) = Ok (ph, [])).
    { rewrite Eh, <- (app_nil_r (writeBlockHeaderBuf ph)). by apply codec_roundtrip. }
    rewrite Er, bool_decide_eq_true_2 by done. cbn [negb].
    unfold VerifyZKCertificateWithNbits. rewrite (proj2 (verifyZK_iff _ _ (Some (BigToCompact target))) Hz).
    rewrite Hs, bool_decide_eq_true_2 by done. cbn [negb]. destruct (Z.leb_spec (ap_PearlHeight a) 0); [lia|].
    destruct (ap_PearlCoinbaseTx a) as [|x l] eqn:Ecb; [done|]. cbn [length Nat.eqb].
    destruct (Z.ltb_spec (ContainsModelosCommitment (x :: l) state) 0); [lia|].
    rewrite (PearlMerkleRoot_header a ph) by done. by rewrite bool_decide_eq_true_2.
Qed.

(** C35. The merged-mining check is exact: it accepts a proof for the block on top
    of [state] if and only if the block's height is not negative (merged mining is
    active from height 0), the Pearl header is canonical, its zero-knowledge proof
    verifies at the compact form of modelOS's own target, the state hash is the
    parent's hash, the Pearl height is positive, the coinbase bytes hold the magic
    and this state hash at one place and the magic nowhere else, and the Merkle
    branch leads from the double hash of those bytes to the root in that same
    header.  Neither Pearl's own target nor the position of the leaf is checked. *)
Theorem VerifyAuxPow_iff (a : AuxPowData) (height : Z) (state : bytes) (target : Z)
  (Hstate : length state = 32%nat) :
  VerifyAuxPow sha256 (Some a) height state target = Ok tt ↔
  0 <= height ∧ ∃ pearl i, wfHeader pearl ∧ ap_PearlHeader a = writeBlockHeaderBuf pearl
    ∧ certified (λ h p d, verify_zk_proof_auxpow_with_nbits h p d (BigToCompact target)) pearl
        (mkZKCertificate (BlockHash sha256 pearl) (ap_PearlPublicData a) (ap_PearlProofData a))
    ∧ ap_ModelOSStateHash a = state ∧ 0 < ap_PearlHeight a
    ∧ slice i (i + 4) (ap_PearlCoinbaseTx a) = AuxPowMagic
    ∧ slice (i + 4) (i + 36) (ap_PearlCoinbaseTx a) = state
    ∧ (∀ j, slice j (j + 4) (ap_PearlCoinbaseTx a) = AuxPowMagic → j = i)
    ∧ VerifyCoinbaseMerkleRoot sha256 a (DoubleHashH sha256 (ap_PearlCoinbaseTx a)) = bh_MerkleRoot pearl.
Proof.
  rewrite VerifyAuxPow_valid. unfold auxValid. apply and_iff_compat_l.
  assert (HM : ∀ j, magicAt (ap_PearlCoinbaseTx a) j = true ↔ slice j (j + 4) (ap_PearlCoinbaseTx a) = AuxPowMagic)
    by (intros; apply bool_decide_eq_true).
  split.
  - intros (ph & Hwf & Eh & Hz & Hs & Hh & Hcb & Hc & Hr).
    destruct (commitment_unique (ap_PearlCoinbaseTx a) state 0 Hstate) as [_ [Hneg|[i Hi]]]; [lia|].
    apply (commitment_unique _ _ i Hstate) in Hi as (Hm & Hsl & Hu). exists ph, i.
    split_and!; try done; [by apply HM|]. intros j Hj. by apply Hu, HM.
  - intros (ph & i & Hwf & Eh & Hz & Hs & Hh & Hm & Hsl & Hu & Hr). exists ph.
    assert (Hi : ContainsModelosCommitment (ap_PearlCoinbaseTx a) state = Z.of_nat i).
    { apply commitment_unique; [done|]. split; [by apply HM|]. split; [done|]. intros j Hj. by apply Hu, HM. }
    split_and!; try done; [|lia]. intros E. rewrite E in Hm. unfold slice in Hm. by rewrite drop_nil, take_nil in Hm.
Qed.

(** The merge-mined work is not tied to the Pearl coinbase: from an accepted
    proof whose Merkle branch has one sibling on the right, the transaction at
    that sibling position is accepted as the coinbase of the same Pearl work for
    another state, if it carries a commitment to it (the branch's direction
    flags are free, no position is checked). *)
Lemma auxpow_any_transaction (a : AuxPowData) (other state state' : bytes) (height target : Z)
  (Hok : VerifyAuxPow sha256 (Some a) height state target = Ok tt)
  (Hbranch : ap_CoinbaseBranch a = [mkAuxPowMerkleNode (DoubleHashH sha256 other) false])
  (Hne : other ≠ []) (Hother : 0 <= ContainsModelosCommitment other state') :
  VerifyAuxPow sha256
    (Some (mkAuxPowData (ap_PearlHeader a) state' (ap_PearlHeight a) (ap_PearlPublicData a) (ap_PearlProofData a)
             other [mkAuxPowMerkleNode (DoubleHashH sha256 (ap_PearlCoinbaseTx a)) true]))
    height state' target = Ok tt.
Proof.
  rewrite VerifyAuxPow_valid in Hok |- *. destruct Hok as (Hh & ph & Hwf & Eh & Hz & Hs & Hp & _ & _ & Hr).
  split; [done|]. exists ph. cbn. split_and!; try done.
  rewrite <- Hr. unfold VerifyCoinbaseMerkleRoot. rewrite Hbranch. done.
Qed.

(** The proof-of-work checks of a block, in the order they are made. *)
Definition powChecks (blake3 : bytes → bytes) (params : Params) (height flags : Z) (blk : MsgBlock) : res verr unit :=
  let header := mb_BlockHeader blk in
  let? _ := checkProofOfWork sha256 header (mb_BlockCertificate blk) (PowLimit params) flags in
  let? _ := checkAuxPowData blake3 params blk in
  match VerifyAuxPow sha256 (mb_AuxPow blk) height (bh_PrevBlock header) (CompactToBig (bh_Bits header)) with
  | Ok _ => Ok tt
  | Err _ => Err (ruleError ErrBadAuxPoW)
  end.

(** C40. Merge-mined work does not commit to the block it is used for: if an
    AuxPoW block passes the proof-of-work checks, so does every block with the
    same version, parent, bits, commitment and AuxPoW data, whatever its Merkle
    root, timestamp, certificate and transactions are. *)
Theorem auxpow_not_bound_to_block (blake3 : bytes → bytes) (params : Params) (height flags : Z) (blk : MsgBlock) (root : bytes) (time : Z)
  (cert : BlockCertificate) (txs : list MsgTx)
  (Haux : IsAuxPowBlock (mb_BlockHeader blk) = true) (Hok : powChecks blake3 params height flags blk = Ok tt) :
  let h := mb_BlockHeader blk in
  powChecks blake3 params height flags
    (mkMsgBlock (mkMsgHeader cert (mkBlockHeader (bh_Version h) (bh_PrevBlock h) root time (bh_Bits h)
                                     (bh_ProofCommitment h)))
       (mb_AuxPow blk) txs) = Ok tt.
Proof.
  destruct blk as [[c h] a l]. unfold powChecks, checkProofOfWork, checkAuxPowData, IsAuxPowBlock in *.
  cbn in *. by rewrite Haux in *.
Qed.
End pow_facts.

(** ** Facts about the height in the coinbase *)
Lemma scriptNum_height h : 0 < h < 2 ^ 31 →
  ∃ v, scriptNumBytes h = Some v ∧ le_decode v = h ∧ (1 <= length v <= 4)%nat.
Proof.
  intros Hh. destruct (magBytes_spec 4 h) as (w & c & _ & Hc & Hd & Hw); [cbn; lia|].
  pose proof (b2z_range c) as Hcr. rewrite (scriptNumBytes_pos w c h) by (done || lia).
  destruct (Z.ltb_spec h 0); [lia|]. pose proof Hd as Hd'. rewrite le_decode_app, le_decode_1 in Hd'.
  pose proof (le_decode_bound w). destruct (Z.leb_spec 128 (b2z c)).
  - eexists. split; [done|]. change [c; x00] with ([c] ++ [x00]). rewrite app_assoc. split.
    + rewrite le_decode_app, le_decode_1, Hd. change (b2z x00) with 0. lia.
    + rewrite !length_app. cbn. assert (length w ≠ 3%nat); [|lia]. intros E. unfold zlen in Hd'. rewrite E in Hd'.
      cbn in Hd'. lia.
  - eexists. split; [done|]. split; [done|]. rewrite length_app. cbn. lia.
Qed.

(** The bytes that encode a height at the start of the coinbase script. *)
Definition heightScript (h : Z) : bytes :=
  if h =? 0 then [z2b OP_0] else if h <=? 16 then [z2b (OP_1 - 1 + h)] else
  match scriptNumBytes h with Some v => z2b (zlen v) :: v | None => [] end.

Lemma AddInt64_height h : 0 <= h < 2 ^ 31 →
  AddInt64 NewScriptBuilder h = Some (mkSB (heightScript h) false).
Proof.
  intros Hh. unfold AddInt64, heightScript. cbn [sb_err NewScriptBuilder].
  change (MaxScriptSize <? zlen (sb_script (mkSB [] false)) + 1) with false. cbv iota.
  destruct (Z.eqb_spec h 0); [done|]. destruct (Z.eqb_spec h (-1)); [lia|]. cbn [orb].
  destruct (Z.leb_spec 1 h); [|lia]. destruct (Z.leb_spec h 16); [done|]. cbn [andb].
  destruct (scriptNum_height h) as (v & Hv & Hd & Hl); [lia|]. rewrite Hv. cbn [fmap option_fmap option_map]. f_equal.
  assert (Hz : 1 <= zlen v <= 4) by (unfold zlen; lia).
  unfold AddData. change (sb_err NewScriptBuilder) with false. cbv iota.
  change (zlen (sb_script NewScriptBuilder)) with 0.
  assert (Hs : canonicalDataSize v <= 5).
  { unfold canonicalDataSize. destruct (Z.ltb_spec (zlen v) OP_PUSHDATA1); [|unfold OP_PUSHDATA1 in *; lia].
    repeat case_match; lia. }
  destruct (Z.ltb_spec MaxScriptSize (0 + canonicalDataSize v)); [unfold MaxScriptSize in *; lia|].
  destruct (Z.ltb_spec MaxScriptElementSize (zlen v)); [unfold MaxScriptElementSize in *; lia|].
  unfold addData. destruct v as [|d [|e l]]; [cbn in Hl; lia| |].
  - rewrite le_decode_1 in Hd. destruct (Z.eqb_spec (b2z d) 0); [lia|]. destruct (Z.leb_spec (b2z d) 16); [lia|].
    destruct (Z.eqb_spec (b2z d) 129) as [E|_]; [|reflexivity]. exfalso.
    assert (h = 129) as -> by lia. vm_compute in Hv. done.
  - destruct (Z.ltb_spec (zlen (d :: e :: l)) OP_PUSHDATA1); [reflexivity|unfold OP_PUSHDATA1 in *; lia].
Qed.

Lemma compareScript_iff h s : 0 <= h < 2 ^ 31 → compareScript h s = Ok tt ↔ heightScript h `prefix_of` s.
Proof.
  intros Hh. unfold compareScript. rewrite AddInt64_height by done. cbn.
  case_bool_decide as E.
  - split; [|done]. intros _. rewrite <- E. apply prefix_take.
  - split; [done|]. intros [k ->]. by rewrite take_app_length in E.
Qed.

Lemma height_bytes_decode v k : (length v <= 4)%nat → le_decode (heightBytes (take (length v) (v ++ k))) = le_decode v.
Proof.
  intros Hv. rewrite take_app_length. unfold heightBytes. rewrite take_app_ge by done.
  rewrite le_decode_app. replace (take (4 - length v) (replicate 4 x00)) with (replicate (4 - length v) x00)
    by (symmetry; rewrite take_replicate; f_equal; lia).
  assert (Hz : ∀ n, le_decode (replicate n x00) = 0).
  { intros n. induction n as [|n IH]; [done|]. change (replicate (S n) x00) with ([x00] ++ replicate n x00).
    rewrite le_decode_app, IH, le_decode_1. change (b2z x00) with 0. lia. }
  rewrite Hz. lia.
Qed.

(** The height in the coinbase is the block's: for a block height in the
    int32 range, the check passes exactly if the coinbase script starts with
    the script builder's minimal push of that height; so no coinbase passes at
    two heights. *)
Lemma coinbase_height_iff (tx : MsgTx) (ti : TxIn) (h : Z)
  (Hin : tx_TxIn tx !! 0%nat = Some ti) (Hh : 0 <= h < 2 ^ 31) :
  ∃ enc, (AddInt64 NewScriptBuilder h ≫= Build) = Some enc
    ∧ (CheckSerializedHeight tx h = Ok tt ↔ enc `prefix_of` ti_SignatureScript ti).
Proof.
  exists (heightScript h). split; [by rewrite AddInt64_height|].
  unfold CheckSerializedHeight, ExtractCoinbaseHeight. destruct (tx_TxIn tx) as [|ti' ins]; [done|].
  injection Hin as ->. split.
  - intros Hc. apply res_bind_Ok in Hc as (sh & Hx & Hc). destruct (Z.eqb_spec sh h) as [->|]; [|done].
    destruct (ti_SignatureScript ti) as [|b rest]; [done|]. pose proof (b2z_range b).
    destruct (Z.eqb_spec (b2z b) OP_0) as [E|_].
    { injection Hx as <-. exists rest. cbn. f_equal. by apply b2z_inj. }
    destruct (Z.leb_spec OP_1 (b2z b)); cbn [andb] in Hx;
      [destruct (Z.leb_spec (b2z b) OP_16)|].
    1: { injection Hx as Hx. unfold OP_1, OP_16 in *. rewrite wrapS_small in Hx by (try unfold inS; lia).
         exists rest. unfold heightScript. destruct (Z.eqb_spec h 0); [lia|]. destruct (Z.leb_spec h 16); [|lia].
         cbn [app]. f_equal. unfold OP_1. rewrite <- Hx. replace (81 - 1 + _) with (b2z b) by lia.
         by rewrite z2b_b2z. }
    all: destruct (Z.ltb_spec (zlen rest) (b2z b)); [done|];
      apply res_bind_Ok in Hx as ([] & Hcmp & Hx); injection Hx as Hx; rewrite Hx in Hcmp;
      by apply compareScript_iff.
  - intros Hp. pose proof Hp as [k Hk]. rewrite Hk. unfold heightScript.
    destruct (Z.eqb_spec h 0) as [->|]; [done|]. destruct (Z.leb_spec h 16).
    { cbn [app]. unfold OP_1, OP_16, OP_0. rewrite b2z_z2b, Z.mod_small by lia.
      destruct (Z.eqb_spec (81 - 1 + h) 0); [lia|].
      destruct (Z.leb_spec 81 (81 - 1 + h)), (Z.leb_spec (81 - 1 + h) 96); try lia. cbn [andb res_bind].
      rewrite wrapS_small by (try unfold inS; lia). replace (81 - 1 + h - (81 - 1)) with h by lia.
      by rewrite Z.eqb_refl. }
    destruct (scriptNum_height h) as (v & Hv & Hd & Hl); [lia|]. rewrite Hv. cbn [app].
    assert (Hz : 1 <= zlen v <= 4) by (unfold zlen; lia). rewrite b2z_z2b, Z.mod_small by lia.
    unfold OP_0, OP_1, OP_16. destruct (Z.eqb_spec (zlen v) 0); [lia|].
    destruct (Z.leb_spec 81 (zlen v)); [lia|]. cbn [andb].
    destruct (Z.ltb_spec (zlen (v ++ k)) (zlen v)); [unfold zlen in *; rewrite length_app in *; lia|].
    replace (Z.to_nat (zlen v)) with (length v) by (unfold zlen; lia).
    rewrite height_bytes_decode, Hd, wrapS_small by (try unfold inS; lia).
    rewrite (proj2 (compareScript_iff h (z2b (zlen v) :: v ++ k) Hh)).
    + cbn. by rewrite Z.eqb_refl.
    + exists k. unfold heightScript. destruct (Z.eqb_spec h 0); [lia|]. destruct (Z.leb_spec h 16); [lia|]. by rewrite Hv.
Qed.

Lemma coinbase_height_iff_witness :
  ∃ enc, (AddInt64 NewScriptBuilder 36438 ≫= Build) = Some enc
    ∧ (CheckSerializedHeight (mkMsgTx 1 [mkTxIn (mkOutPoint zeroHash 4294967295) [x03; x56; x8e; x00; xff] [] 0] [] 0)
         36438 = Ok tt ↔ enc `prefix_of` [x03; x56; x8e; x00; xff]).
Proof.
  apply (coinbase_height_iff _ (mkTxIn (mkOutPoint zeroHash 4294967295) [x03; x56; x8e; x00; xff] [] 0)); [done|lia].
Defined.

(** ** Facts about block sanity *)
Section sanity_facts.
Context `{ZkVerifier} `{Schnorr} (sha256 blake3 : bytes → bytes).

Lemma noteTxs_Ok seen txs :
  is_Ok (res_foldl (noteTx sha256) seen txs) = true ↔
  NoDup (TxHash sha256 <$> txs) ∧ Forall (λ tx, TxHash sha256 tx ∉ seen) txs.
Proof.
  revert seen. induction txs as [|tx txs IH]; intros seen.
  - cbn. split; [intros _; split; constructor|done].
  - csimpl. rewrite NoDup_cons, Forall_cons. unfold noteTx at 1.
    case_bool_decide as Hin; cbn [res_bind is_Ok]; [naive_solver|]. rewrite IH, list_elem_of_fmap.
    setoid_rewrite not_elem_of_union. setoid_rewrite not_elem_of_singleton.
    rewrite !Forall_forall. naive_solver.
Qed.

(** A header with a difficulty in range and, unless it is merge mined, a
    certificate (verified, unless the check is switched off). *)
Definition provenHeader (powLimit flags : Z) (header : BlockHeader) (cert : BlockCertificate) : Prop :=
  0 < CompactToBig (bh_Bits header) <= powLimit
  ∧ (IsAuxPowBlock header = false → ∃ c, cert = Some c
     ∧ (flagSet flags BFNoPoWCheck = false → certified sha256 verify_zk_proof_v2 header c)).

Lemma checkProofOfWork_iff header cert powLimit flags :
  checkProofOfWork sha256 header cert powLimit flags = Ok tt ↔ provenHeader powLimit flags header cert.
Proof.
  unfold checkProofOfWork, provenHeader.
  destruct (Z.leb_spec (CompactToBig (bh_Bits header)) 0); [naive_solver lia|].
  destruct (Z.ltb_spec powLimit (CompactToBig (bh_Bits header))); [naive_solver lia|].
  destruct (IsAuxPowBlock header); [naive_solver lia|].
  destruct cert as [c|]; [|naive_solver lia].
  pose proof (verifyZK_iff sha256 header c None) as HV. unfold VerifyCertificate.
  destruct (flagSet flags BFNoPoWCheck); cbn [negb].
  - split; [|done]. intros _. split; [lia|]. intros _. by exists c.
  - destruct (verifyZKCertificateInner sha256 header c None) as [[]|].
    + split; [|done]. intros _. split; [lia|]. intros _. exists c. split; [done|]. intros _. by apply HV.
    + split; [done|]. intros (_ & Hc). destruct (Hc eq_refl) as (c' & [= <-] & Hc').
      specialize (Hc' eq_refl). apply HV in Hc'. done.
Qed.

(** A block that is sane on its own. *)
Record saneBlock (params : Params) (now flags : Z) (blk : MsgBlock) : Prop := {
  sb_proven : provenHeader (PowLimit params) flags (mb_BlockHeader blk) (mb_BlockCertificate blk);
  sb_cert : ∀ c, mb_BlockCertificate blk = Some c → 4 + ZK_SerializedSize c <= CertificateMaxSize;
  sb_seconds : bh_Timestamp (mb_BlockHeader blk) = timeUnix (unixOf (bh_Timestamp (mb_BlockHeader blk)));
  sb_notFuture : bh_Timestamp (mb_BlockHeader blk) <= now + i64 (Minute * MaxTimeOffsetMinutes params);
  sb_aux : if IsAuxPowBlock (mb_BlockHeader blk)
           then ∃ a, mb_AuxPow blk = Some a
                ∧ bh_ProofCommitment (mb_BlockHeader blk) = AuxPowProofCommitment blake3 a (Net params)
           else mb_AuxPow blk = None;
  sb_count : zlen (mb_Transactions blk) <= MaxBlockVsize;
  sb_vsize : GetBlockVsize blk <= MaxBlockVsize;
  sb_coinbase : ∃ cb rest, mb_Transactions blk = cb :: rest ∧ IsCoinBaseTx cb = true
                ∧ Forall (λ tx, IsCoinBaseTx tx = false) rest;
  sb_txs : Forall (λ tx, saneTx tx (TxVersionInference <=? MaxSupportedTxVersion params)) (mb_Transactions blk);
  sb_root : CalcMerkleRoot sha256 (mb_Transactions blk) false = Some (bh_MerkleRoot (mb_BlockHeader blk));
  sb_distinct : NoDup (TxHash sha256 <$> mb_Transactions blk) }.

(** [flags] as [checkBlockSanity] sees them. *)
Definition effectiveFlags (params : Params) (flags : Z) : Z :=
  if Net params =? SimNet then Z.lor flags BFNoPoWCheck else flags.

Lemma headerSanity_iff header cert limit now off flags :
  CheckBlockHeaderSanity sha256 header cert limit now off flags = Ok tt ↔
  provenHeader limit flags header cert
  ∧ (∀ c, cert = Some c → 4 + ZK_SerializedSize c <= CertificateMaxSize)
  ∧ bh_Timestamp header = timeUnix (unixOf (bh_Timestamp header))
  ∧ bh_Timestamp header <= now + i64 (Minute * off).
Proof.
  unfold CheckBlockHeaderSanity. rewrite <- checkProofOfWork_iff.
  assert (HC : checkCertificate header cert = Ok tt ↔
    (IsAuxPowBlock header = false → cert ≠ None)
    ∧ ∀ c, cert = Some c → 4 + ZK_SerializedSize c <= CertificateMaxSize).
  { unfold checkCertificate. destruct cert as [c|]; [|destruct (IsAuxPowBlock header); naive_solver].
    destruct (Z.ltb_spec CertificateMaxSize (4 + ZK_SerializedSize c)) as [Hlt|Hle].
    - split; [done|]. intros [_ Hs]. specialize (Hs c eq_refl). lia.
    - change (IsCertVersionAllowed CertificateVersionZK) with true. cbn [negb]. rewrite andb_false_r. naive_solver. }
  assert (HP : checkProofOfWork sha256 header cert limit flags = Ok tt → IsAuxPowBlock header = false → cert ≠ None).
  { rewrite checkProofOfWork_iff. intros [_ Hp] Ha. destruct (Hp Ha) as (c & -> & _). done. }
  destruct (checkCertificate header cert) as [[]|]; cbn [res_bind].
  - destruct (proj1 HC eq_refl) as [_ Hs].
    destruct (Z.eqb_spec (bh_Timestamp header) (timeUnix (unixOf (bh_Timestamp header)))) as [Ht|Ht]; cbn [negb];
      [|naive_solver].
    destruct (Z.ltb_spec (now + i64 (Minute * off)) (bh_Timestamp header)); [naive_solver lia|]. naive_solver.
  - split; [done|]. intros (Hp & Hs & _). by specialize (proj2 HC (conj (HP Hp) Hs)).
Qed.

Lemma auxData_iff params blk : checkAuxPowData blake3 params blk = Ok tt ↔
  if IsAuxPowBlock (mb_BlockHeader blk)
  then ∃ a, mb_AuxPow blk = Some a
       ∧ bh_ProofCommitment (mb_BlockHeader blk) = AuxPowProofCommitment blake3 a (Net params)
  else mb_AuxPow blk = None.
Proof.
  unfold checkAuxPowData. destruct (IsAuxPowBlock _), (mb_AuxPow blk) as [a|]; try naive_solver.
  case_bool_decide; naive_solver.
Qed.

Lemma existsb_coinbase txs : existsb IsCoinBaseTx txs = false ↔ Forall (λ tx, IsCoinBaseTx tx = false) txs.
Proof.
  induction txs as [|tx txs IH]; cbn; [by split; [constructor|]|]. rewrite orb_false_iff, Forall_cons. by rewrite IH.
Qed.

Lemma blockSanity_iff params now flags blk :
  checkBlockSanity sha256 blake3 blk params now flags = Ok tt
  ↔ saneBlock params now (effectiveFlags params flags) blk.
Proof.
  unfold checkBlockSanity. fold (effectiveFlags params flags). set (fl := effectiveFlags params flags).
  pose proof (headerSanity_iff (mb_BlockHeader blk) (mb_BlockCertificate blk) (PowLimit params) now
    (MaxTimeOffsetMinutes params) fl) as HH.
  destruct (CheckBlockHeaderSanity _ _ _ _ _ _ _) as [[]|]; cbn [res_bind].
  2:{ split; [done|]. intros [? ? ? ?]. naive_solver. }
  pose proof (auxData_iff params blk) as HA. destruct (checkAuxPowData blake3 params blk) as [[]|]; cbn [res_bind].
  2:{ split; [done|]. intros Hs. by pose proof (proj2 HA (sb_aux _ _ _ _ Hs)). }
  destruct (proj1 HH eq_refl) as (H1 & H2 & H3 & H4). pose proof (proj1 HA eq_refl) as H5. clear HH HA.
  destruct (mb_Transactions blk) as [|tx0 rest] eqn:El.
  { split; [done|]. intros Hs. destruct (sb_coinbase _ _ _ _ Hs) as (? & ? & E & _). congruence. }
  destruct (Z.eqb_spec (zlen (tx0 :: rest)) 0) as [E0|_]; [done|].
  destruct (Z.ltb_spec MaxBlockVsize (zlen (tx0 :: rest))) as [Hn|Hn].
  { split; [done|]. intros Hs. pose proof (sb_count _ _ _ _ Hs) as Hc. rewrite El in Hc. lia. }
  destruct (Z.ltb_spec MaxBlockVsize (GetBlockVsize blk)) as [Hv|Hv].
  { split; [done|]. intros Hs. pose proof (sb_vsize _ _ _ _ Hs). lia. }
  destruct (IsCoinBaseTx tx0) eqn:Ec; cbn [negb].
  2:{ split; [done|]. intros Hs. destruct (sb_coinbase _ _ _ _ Hs) as (? & ? & E & ? & _). congruence. }
  destruct (existsb IsCoinBaseTx rest) eqn:Ee.
  { split; [done|]. intros Hs. destruct (sb_coinbase _ _ _ _ Hs) as (? & ? & E & _ & Hr). rewrite El in E.
    injection E as <- <-. apply existsb_coinbase in Hr. congruence. }
  pose proof (res_forall_Ok (λ tx, CheckTransactionSanity tx (TxVersionInference <=? MaxSupportedTxVersion params))
    (tx0 :: rest)) as HF.
  assert (HS : Forall (λ tx, CheckTransactionSanity tx (TxVersionInference <=? MaxSupportedTxVersion params) = Ok tt)
      (tx0 :: rest) ↔ Forall (λ tx, saneTx tx (TxVersionInference <=? MaxSupportedTxVersion params)) (tx0 :: rest)).
  { rewrite !Forall_forall. split; intros Hx tx Htx; apply sane_iff, Hx, Htx. }
  rewrite HS in HF. destruct (res_forall _ (tx0 :: rest)) as [[]|]; cbn [res_bind].
  2:{ split; [done|]. intros Hs. pose proof (sb_txs _ _ _ _ Hs) as Ht. rewrite El in Ht. by pose proof (proj2 HF Ht). }
  destruct (CalcMerkleRoot sha256 (tx0 :: rest) false) as [r|] eqn:Er.
  2:{ split; [done|]. intros Hs. pose proof (sb_root _ _ _ _ Hs) as Ht. rewrite El in Ht. congruence. }
  case_bool_decide as Hb; cbn [negb].
  2:{ split; [done|]. intros Hs. pose proof (sb_root _ _ _ _ Hs) as Ht. rewrite El in Ht. congruence. }
  pose proof (noteTxs_Ok ∅ (tx0 :: rest)) as HN.
  assert (HE : Forall (λ tx, TxHash sha256 tx ∉ (∅ : gset bytes)) (tx0 :: rest))
    by (apply Forall_forall; intros; apply not_elem_of_empty).
  destruct (res_foldl (noteTx sha256) ∅ (tx0 :: rest)); cbn [res_bind is_Ok] in *.
  2:{ split; [done|]. intros Hs. pose proof (sb_distinct _ _ _ _ Hs) as Ht. rewrite El in Ht.
      by pose proof (proj2 HN (conj Ht HE)). }
  split; [intros _|done]. constructor; rewrite ?El; try done.
  - exists tx0, rest. split; [done|]. split; [done|]. by apply existsb_coinbase.
  - by apply HF.
  - congruence.
  - by apply HN.
Qed.

End sanity_facts.

(** ** Witnesses of merged mining: a verifier that accepts every proof, and two
    transactions with a commitment each under one Pearl header *)
Module ToyAux.
#[export] Instance toyZk : ZkVerifier := {|
  verify_zk_proof_v2 _ _ _ := 0; verify_zk_proof_auxpow_with_nbits _ _ _ _ := 0 |}.

Definition sigma (b : byte) : bytes := replicate 32 b.
Definition commitTx (b : byte) : bytes := [b] ++ AuxPowMagic ++ sigma b.
Definition pearl : BlockHeader :=
  mkBlockHeader 1 zeroHash
    (DoubleHashH toySha (DoubleHashH toySha (commitTx x11) ++ DoubleHashH toySha (commitTx x12)))
    (timeUnix 1000) 0x1b00ffff
    (ZK_ProofCommitment toySha (mkZKCertificate zeroHash (replicate 164 x00) [x01])).
Definition aux : AuxPowData :=
  mkAuxPowData (writeBlockHeaderBuf pearl) (sigma x11) 5 (replicate 164 x00) [x01] (commitTx x11)
    [mkAuxPowMerkleNode (DoubleHashH toySha (commitTx x12)) false].
Definition auxBlock : MsgBlock :=
  mkMsgBlock (mkMsgHeader None (mkBlockHeader auxPowMask (sigma x11) zeroHash (timeUnix 1000) 0x1b00ffff
    (AuxPowProofCommitment toySha aux (Net MainNetParams)))) (Some aux) [].
End ToyAux.

Lemma toy_aux_ok : VerifyAuxPow (H := ToyAux.toyZk) toySha (Some ToyAux.aux) 7 (ToyAux.sigma x11) (2 ^ 200) = Ok tt.
Proof. vm_compute. reflexivity. Qed.

Lemma VerifyAuxPow_iff_witness :
  ∃ i, slice i (i + 4) (ap_PearlCoinbaseTx ToyAux.aux) = AuxPowMagic
    ∧ slice (i + 4) (i + 36) (ap_PearlCoinbaseTx ToyAux.aux) = ToyAux.sigma x11.
Proof.
  destruct (proj1 (VerifyAuxPow_iff (H := ToyAux.toyZk) toySha ToyAux.aux 7 (ToyAux.sigma x11) (2 ^ 200) eq_refl)
    toy_aux_ok) as (_ & pearl & i & _ & _ & _ & _ & _ & H1 & H2 & _).
  by exists i.
Defined.

Lemma auxpow_any_transaction_witness :
  VerifyAuxPow (H := ToyAux.toyZk) toySha
    (Some (mkAuxPowData (ap_PearlHeader ToyAux.aux) (ToyAux.sigma x12) 5 (ap_PearlPublicData ToyAux.aux)
             (ap_PearlProofData ToyAux.aux) (ToyAux.commitTx x12)
             [mkAuxPowMerkleNode (DoubleHashH toySha (ap_PearlCoinbaseTx ToyAux.aux)) true]))
    7 (ToyAux.sigma x12) (2 ^ 200) = Ok tt.
Proof.
  apply (auxpow_any_transaction (H := ToyAux.toyZk) toySha ToyAux.aux (ToyAux.commitTx x12) (ToyAux.sigma x11)).
  - exact toy_aux_ok.
  - reflexivity.
  - discriminate.
  - apply Z.leb_le. vm_compute. reflexivity.
Defined.

Lemma toy_block_ok : powChecks (H := ToyAux.toyZk) toySha toySha MainNetParams 7 BFNone ToyAux.auxBlock = Ok tt.
Proof. vm_compute. reflexivity. Qed.

Lemma auxpow_not_bound_to_block_witness :
  powChecks (H := ToyAux.toyZk) toySha toySha MainNetParams 7 BFNone
    (mkMsgBlock (mkMsgHeader None (mkBlockHeader auxPowMask (ToyAux.sigma x11) (ToyAux.sigma x77) (timeUnix 2000)
       0x1b00ffff (bh_ProofCommitment (mb_BlockHeader ToyAux.auxBlock)))) (Some ToyAux.aux) [demoCoinbase]) = Ok tt.
Proof.
  apply (auxpow_not_bound_to_block (H := ToyAux.toyZk) toySha toySha MainNetParams 7 BFNone ToyAux.auxBlock
    (ToyAux.sigma x77) (timeUnix 2000) None [demoCoinbase]).
  - reflexivity.
  - exact toy_block_ok.
Defined.
