(* ===== verification/Connect.v ===== *)
(** * What connecting a block does to the set of unspent outputs

    Facts about [checkConnectBlock] (src/node/blockchain/validate.go) and the
    view it works on: the view starts empty, is filled from the cache and with
    outputs of the block itself, and is updated transaction by transaction.
    Laid over the set [U] the cache holds, the final view is the set after the
    block. *)
From Stdlib Require Import ZArith Lia Strings.Byte.
From stdpp Require Import base list gmap.
From S2P Require Import Prelude RuleErrors WireTx WireBlock Chaincfg BlockIndex.
From S2P Require Import Merkle Script Utxo Covenant TxRules ScriptVal BlockRules.
Import InferenceGo.
Open Scope Z_scope.
Open Scope list_scope.

(** ** The value of a set *)
Definition value (m : gmap OutPoint SpentTxOut) : Z := map_fold (λ _ c acc, stxo_Amount c + acc) 0 m.

Definition nonneg (m : gmap OutPoint SpentTxOut) : Prop := map_Forall (λ _ c, 0 <= stxo_Amount c) m.

Lemma value_insert_new m k c : m !! k = None → value (<[k := c]> m) = stxo_Amount c + value m.
Proof. intros Hk. unfold value. rewrite map_fold_insert_L; [done| |done]. intros. lia. Qed.

Lemma value_delete m k c : m !! k = Some c → value m = stxo_Amount c + value (delete k m).
Proof.
  intros Hk. rewrite <- (insert_delete_id m k c Hk) at 1.
  rewrite value_insert_new; [done|apply lookup_delete_eq].
Qed.

Lemma value_insert_le m k c : nonneg m → value (<[k := c]> m) <= stxo_Amount c + value m.
Proof.
  intros Hn. destruct (m !! k) as [c'|] eqn:E; [|rewrite value_insert_new by done; lia].
  rewrite <- insert_delete_eq, value_insert_new by apply lookup_delete_eq.
  rewrite (value_delete m k c' E). pose proof (Hn k c' E) as H. cbn in H. lia.
Qed.

Lemma nonneg_insert m k c : nonneg m → 0 <= stxo_Amount c → nonneg (<[k := c]> m).
Proof. intros Hn Hc. by apply map_Forall_insert_2. Qed.

Lemma insertAll_value l m : nonneg m → Forall (λ p : OutPoint * SpentTxOut, 0 <= stxo_Amount p.2) l →
  nonneg (insertAll l m) ∧ value (insertAll l m) <= sumZ (λ p, stxo_Amount p.2) l + value m.
Proof.
  intros Hn Hl. revert m Hn. induction Hl as [|[k c] l Hc Hl IH]; intros m Hn; [by cbn|].
  destruct (IH (<[k := c]> m)) as [H1 H2]; [by apply nonneg_insert|].
  change (insertAll ((k, c) :: l) m) with (insertAll l (<[k := c]> m)).
  change (sumZ (λ p, stxo_Amount p.2) ((k, c) :: l)) with (stxo_Amount c + sumZ (λ p, stxo_Amount p.2) l).
  split; [done|]. pose proof (value_insert_le m k c Hn). lia.
Qed.

Lemma deleteAll_value l m coins : NoDup l → Forall2 (λ k c, m !! k = Some c) l coins →
  value (deleteAll l m) = value m - sumZ stxo_Amount coins.
Proof.
  revert m coins. induction l as [|k l IH]; intros m coins Hnd Hf.
  - apply Forall2_nil_inv_l in Hf as ->. cbn. lia.
  - apply Forall2_cons_inv_l in Hf as (c & coins' & Hc & Hf & ->). apply NoDup_cons in Hnd as [Hni Hnd].
    change (deleteAll (k :: l) m) with (deleteAll l (delete k m)).
    change (sumZ stxo_Amount (c :: coins')) with (stxo_Amount c + sumZ stxo_Amount coins').
    rewrite (IH (delete k m) coins' Hnd), (value_delete m k c Hc); [lia|].
    apply Forall2_same_length_lookup. split; [by apply Forall2_length in Hf|].
    intros i x y Hx Hy. rewrite lookup_delete_ne; [exact (Forall2_lookup_lr _ _ _ _ _ _ Hf Hx Hy)|].
    intros ->. apply Hni. by apply list_elem_of_lookup_2 in Hx.
Qed.

Lemma nonneg_deleteAll l m : nonneg m → nonneg (deleteAll l m).
Proof.
  intros Hn k c Hk. rewrite lookup_deleteAll in Hk. case_decide; [done|]. exact (Hn k c Hk).
Qed.

Lemma lookup_insertAll_in l m m' k : k ∈ fst <$> l → insertAll l m !! k = insertAll l m' !! k.
Proof.
  revert m m'. induction l as [|[k' c] l IH]; intros m m' Hin; [by apply elem_of_nil in Hin|].
  change (insertAll ((k', c) :: l) m) with (insertAll l (<[k' := c]> m)).
  change (insertAll ((k', c) :: l) m') with (insertAll l (<[k' := c]> m')).
  destruct (decide (k ∈ fst <$> l)); [by apply IH|]. rewrite !lookup_insertAll_ne by done.
  csimpl in Hin. apply elem_of_cons in Hin as [->|]; [by rewrite !lookup_insert_eq|done].
Qed.

(** ** The outputs of a transaction *)
Section outputs.
Context (sha256 : bytes → bytes).

(** The outpoints a transaction makes spendable; they do not depend on the
    height. *)
Definition keys (tx : MsgTx) : list OutPoint := fst <$> outsOf sha256 0 tx.

Lemma spendableFrom_keys hash cb h h' i outs :
  fst <$> spendableFrom hash cb h i outs = fst <$> spendableFrom hash cb h' i outs.
Proof.
  revert i. induction outs as [|o outs IH]; intros i; [done|]. cbn [spendableFrom].
  rewrite !fmap_app, (IH (i + 1)). by destruct (IsUnspendable (to_PkScript o)).
Qed.

Lemma keys_height h tx : fst <$> outsOf sha256 h tx = keys tx.
Proof. apply spendableFrom_keys. Qed.

Lemma spendableFrom_hash hash cb h i outs op : op ∈ fst <$> spendableFrom hash cb h i outs → op_Hash op = hash.
Proof.
  revert i. induction outs as [|o outs IH]; intros i Hin; [by apply elem_of_nil in Hin|].
  cbn [spendableFrom] in Hin. rewrite fmap_app in Hin. apply elem_of_app in Hin as [Hin|Hin]; [|by eapply IH].
  destruct (IsUnspendable (to_PkScript o)); [by apply elem_of_nil in Hin|].
  csimpl in Hin. by apply list_elem_of_singleton in Hin as ->.
Qed.

Lemma keys_hash tx op : op ∈ keys tx → op_Hash op = TxHash sha256 tx.
Proof. apply spendableFrom_hash. Qed.

Lemma spendableFrom_value hash cb h i outs : Forall (λ o, 0 <= to_Value o) outs →
  Forall (λ p : OutPoint * SpentTxOut, 0 <= stxo_Amount p.2) (spendableFrom hash cb h i outs)
  ∧ sumZ (λ p, stxo_Amount p.2) (spendableFrom hash cb h i outs) <= sumZ to_Value outs.
Proof.
  intros Hp. revert i. induction Hp as [|o outs Ho Hp IH]; intros i; [done|]. cbn [spendableFrom].
  destruct (IH (i + 1)) as [H1 H2]. rewrite sumZ_app.
  change (sumZ to_Value (o :: outs)) with (to_Value o + sumZ to_Value outs).
  destruct (IsUnspendable (to_PkScript o)); cbn; [split; [done|lia]|]. split; [by constructor|lia].
Qed.

(** ** Loaded entries *)
Definition loaded (v : UtxoViewpoint) (op : OutPoint) : Prop := is_Some (entries v !! op).

Lemma unloaded_set v op : ¬ loaded v op → utxoSet v !! op = None.
Proof.
  intros Hn. rewrite lookup_utxoSet. unfold LookupEntry.
  destruct (entries v !! op) as [oe|] eqn:E; [|done]. exfalso. apply Hn. unfold loaded. rewrite E. by eexists.
Qed.

Lemma set_loaded v op c : utxoSet v !! op = Some c → loaded v op.
Proof.
  rewrite lookup_utxoSet. unfold LookupEntry, loaded. destruct (entries v !! op); [by eexists|done].
Qed.

Lemma setEntry_loaded v op e op' : loaded (setEntry v op e) op' ↔ op' = op ∨ loaded v op'.
Proof.
  unfold loaded, setEntry. cbn. destruct (decide (op = op')) as [->|Hne].
  - rewrite lookup_insert_eq. naive_solver.
  - rewrite lookup_insert_ne by done. naive_solver.
Qed.

Lemma addTxOutsFrom_loaded hash cb h i outs v op :
  loaded (addTxOutsFrom hash cb h i outs v) op ↔ op ∈ fst <$> spendableFrom hash cb h i outs ∨ loaded v op.
Proof.
  revert i v. induction outs as [|o outs IH]; intros i v; cbn [addTxOutsFrom spendableFrom].
  - cbn. rewrite elem_of_nil. naive_solver.
  - rewrite IH, fmap_app, elem_of_app. unfold addTxOut. destruct (IsUnspendable (to_PkScript o)).
    + csimpl. rewrite elem_of_nil. naive_solver.
    + rewrite setEntry_loaded. csimpl. rewrite list_elem_of_singleton. naive_solver.
Qed.

Lemma AddTxOuts_spec v tx h :
  utxoSet (AddTxOuts sha256 v tx h) = insertAll (outsOf sha256 h tx) (utxoSet v)
  ∧ ∀ op, loaded (AddTxOuts sha256 v tx h) op ↔ op ∈ keys tx ∨ loaded v op.
Proof.
  split; [apply addTxOutsFrom_set|]. intros op. unfold AddTxOuts. rewrite addTxOutsFrom_loaded.
  by rewrite <- (keys_height h tx).
Qed.

Lemma spendInputs_loaded ins v stxos v' stxos' op : spendInputs ins v stxos = Ok (v', stxos') →
  loaded v' op ↔ loaded v op.
Proof.
  revert v stxos. induction ins as [|ti ins IH]; intros v stxos Hs; cbn [spendInputs] in Hs.
  - by injection Hs as -> _.
  - destruct (LookupEntry v (ti_PreviousOutPoint ti)) as [e|] eqn:E; [|done].
    apply IH in Hs. rewrite Hs, setEntry_loaded. split; [|by right]. intros [->|]; [|done].
    unfold LookupEntry in E. unfold loaded. destruct (entries v !! ti_PreviousOutPoint ti); [by eexists|done].
Qed.
End outputs.

(** ** Filling the view *)
Section filling.
Context (sha256 : bytes → bytes) (U : gmap OutPoint SpentTxOut) (fetch : OutPoint → option UtxoEntry).
Context (Hfetch : ∀ op, coinOf (fetch op) = U !! op).
Context (txs : list MsgTx) (Hnd : NoDup (TxHash sha256 <$> txs)).

(** Apart from the outputs of the block, what is loaded is what the cache has. *)
Definition fromCache (v : UtxoViewpoint) : Prop :=
  ∀ op, loaded v op → (∀ tx, tx ∈ txs → op ∉ keys sha256 tx) → utxoSet v !! op = U !! op.

Lemma fromCache_fetch v op : fromCache v → fromCache (mkView (<[op := fetch op]> (entries v)) (bestHash v)).
Proof.
  intros Hv op' Hl Hk. rewrite lookup_utxoSet. unfold LookupEntry. cbn.
  destruct (decide (op = op')) as [->|Hne].
  - rewrite lookup_insert_eq. cbn. apply Hfetch.
  - rewrite lookup_insert_ne by done. unfold loaded in Hl. cbn in Hl. rewrite lookup_insert_ne in Hl by done.
    specialize (Hv op' Hl Hk). by rewrite lookup_utxoSet in Hv.
Qed.

Lemma fromCache_fetchUtxosFromCache v ops : fromCache v → fromCache (fetchUtxosFromCache fetch v ops).
Proof.
  revert v. induction ops as [|op ops IH]; intros v Hv; [done|]. cbn. by apply IH, fromCache_fetch.
Qed.

Lemma fromCache_AddTxOuts v tx h : fromCache v → tx ∈ txs → fromCache (AddTxOuts sha256 v tx h).
Proof.
  intros Hv Htx op Hl Hk. destruct (AddTxOuts_spec sha256 v tx h) as [Hs Hld].
  specialize (Hk tx Htx) as Hk'. rewrite Hs, lookup_insertAll_ne by (by rewrite keys_height).
  apply Hv; [|done]. apply Hld in Hl as [|]; done.
Qed.

Lemma fromCache_findInput h hash prev i acc ti : fromCache acc.1 →
  fromCache (findInput sha256 (mkBlock txs h hash prev) i acc ti).1.
Proof.
  intros Hv. unfold findInput. destruct acc as [v needed]. cbn [fst blk_Transactions blk_Height] in *.
  destruct (txInFlight sha256 txs !! op_Hash (ti_PreviousOutPoint ti)) as [idx|].
  - destruct (idx <=? i)%nat; [|by case_bool_decide]. cbn [fst].
    destruct (txs !! idx) as [origin|] eqn:E; [|done]. apply fromCache_AddTxOuts; [done|].
    by apply list_elem_of_lookup_2 in E.
  - by case_bool_decide.
Qed.

Lemma fromCache_fetchInputUtxos v h hash prev : fromCache v →
  fromCache (fetchInputUtxos sha256 fetch v (mkBlock txs h hash prev)).
Proof.
  intros Hv. unfold fetchInputUtxos. destruct (findInputsToFetch _ _ _) as [v' needed] eqn:E.
  apply fromCache_fetchUtxosFromCache. unfold findInputsToFetch in E.
  assert (G : fromCache (v', needed).1); [|done]. rewrite <- E. clear E v' needed.
  set (l := imap pair _). assert (G : ∀ acc : UtxoViewpoint * list OutPoint, fromCache acc.1 →
    fromCache (foldl (λ acc p, foldl (findInput sha256 (mkBlock txs h hash prev) p.1) acc (tx_TxIn p.2)) acc l).1);
    [|by apply G]. clearbody l. induction l as [|[i tx] l IH]; intros acc Ha; [done|]. cbn [foldl fst snd].
  apply IH. revert acc Ha. induction (tx_TxIn tx) as [|ti ins IHi]; intros acc Ha; [done|]. cbn [foldl].
  by apply IHi, fromCache_findInput.
Qed.

(** ** The view against the set it stands for *)
(** [M] is the set after the transactions before [pending]. *)
Record tracks (pending : list MsgTx) (v : UtxoViewpoint) (M : gmap OutPoint SpentTxOut) : Prop := {
  tr_known op : loaded v op → op_Hash op ∉ TxHash sha256 <$> pending → utxoSet v !! op = M !! op;
  tr_unloaded op : ¬ loaded v op → M !! op = U !! op;
  tr_future op : op_Hash op ∈ TxHash sha256 <$> pending → M !! op = U !! op;
  tr_spare op tx : tx ∈ pending → op_Hash op = TxHash sha256 tx → op ∉ keys sha256 tx →
    loaded v op → utxoSet v !! op = U !! op }.

Lemma same_hash tx tx' : tx ∈ txs → tx' ∈ txs → TxHash sha256 tx = TxHash sha256 tx' → tx = tx'.
Proof.
  intros Hi Hj E. apply list_elem_of_lookup in Hi as [i Hi]. apply list_elem_of_lookup in Hj as [j Hj].
  assert (i = j) as ->; [|congruence].
  eapply (NoDup_lookup _ i j (TxHash sha256 tx) Hnd); rewrite list_lookup_fmap, ?Hi, ?Hj; cbn; congruence.
Qed.

Lemma tracks_init v : fromCache v → tracks txs v U.
Proof.
  intros Hv. split; try done.
  - intros op Hl Hh. apply Hv; [done|]. intros tx Htx Hk. apply Hh. rewrite (keys_hash sha256 tx op Hk).
    by apply list_elem_of_fmap_2.
  - intros op tx Htx Hh Hk Hl. apply Hv; [done|]. intros tx' Htx' Hk'. apply Hk.
    rewrite (same_hash tx tx' Htx Htx'); [done|]. apply keys_hash in Hk'. congruence.
Qed.

(** Spending the inputs of a transaction whose outputs come later in [M]. *)
Lemma tracks_step h tx rest v M v' stxos stxos' coins :
  tracks (tx :: rest) v M → NoDup (TxHash sha256 <$> tx :: rest) →
  (IsCoinBaseTx tx = false → NoDup (insOf tx) ∧
     Forall2 (λ ti c, utxoSet v !! ti_PreviousOutPoint ti = Some c) (tx_TxIn tx) coins ∧
     Forall (λ ti, op_Hash (ti_PreviousOutPoint ti) ∉ TxHash sha256 <$> tx :: rest) (tx_TxIn tx)) →
  connectTransaction sha256 v tx h stxos = Ok (v', stxos') →
  tracks rest v' (txSet sha256 h M tx)
  ∧ (IsCoinBaseTx tx = false → Forall2 (λ ti c, M !! ti_PreviousOutPoint ti = Some c) (tx_TxIn tx) coins).
Proof.
  intros HT Hnodup Hin Hc. csimpl in Hnodup. apply NoDup_cons in Hnodup as [Hni _].
  set (D := if IsCoinBaseTx tx then [] else insOf tx).
  assert (HM : ∀ op, txSet sha256 h M tx !! op = insertAll (outsOf sha256 h tx) (deleteAll D M) !! op).
  { intros op. unfold txSet, D. by destruct (IsCoinBaseTx tx). }
  assert (Hv : (∀ op, loaded v' op ↔ op ∈ keys sha256 tx ∨ loaded v op)
    ∧ utxoSet v' = insertAll (outsOf sha256 h tx) (deleteAll D (utxoSet v))
    ∧ Forall (λ op, loaded v op ∧ op_Hash op ∉ TxHash sha256 <$> tx :: rest) D).
  { unfold connectTransaction, D in *. destruct (IsCoinBaseTx tx).
    - injection Hc as <- <-. destruct (AddTxOuts_spec sha256 v tx h) as [Hs Hl]. split_and!; [done|done|constructor].
    - destruct (Hin eq_refl) as (Hnd' & Hf & Hord).
      destruct (spendInputs_set _ _ stxos _ Hnd' Hf) as (w & Hw & Hws). rewrite Hw in Hc. cbn in Hc.
      injection Hc as <- <-. destruct (AddTxOuts_spec sha256 w tx h) as [Hs Hl].
      split_and!; [|by rewrite Hs, Hws|].
      + intros op. rewrite Hl. by rewrite (spendInputs_loaded _ _ _ _ _ op Hw).
      + apply Forall_fmap, Forall_forall. intros ti Hti. rewrite Forall_forall in Hord. split; [|by apply Hord].
        apply list_elem_of_lookup in Hti as [i Hi]. destruct (Forall2_lookup_l _ _ _ _ _ Hf Hi) as (c & _ & Hcc).
        by eapply set_loaded. }
  destruct Hv as (Hld & Hset & HD). rewrite Forall_forall in HD.
  assert (Hother : ∀ op, op ∉ keys sha256 tx →
    utxoSet v' !! op = (if decide (op ∈ D) then None else utxoSet v !! op)
    ∧ txSet sha256 h M tx !! op = (if decide (op ∈ D) then None else M !! op)).
  { intros op Hk. rewrite HM, Hset, !lookup_insertAll_ne, !lookup_deleteAll by (by rewrite keys_height). done. }
  split; [split|].
  - intros op Hl Hh. destruct (decide (op ∈ keys sha256 tx)) as [Hk|Hk].
    { rewrite HM, Hset. apply lookup_insertAll_in. by rewrite keys_height. }
    destruct (Hother op Hk) as [-> ->]. case_decide; [done|].
    apply Hld in Hl as [|Hl]; [done|]. destruct (decide (op_Hash op = TxHash sha256 tx)) as [E|E].
    + rewrite (tr_spare _ _ _ HT op tx) by (done || by left). symmetry. apply (tr_future _ _ _ HT).
      rewrite E. csimpl. by left.
    + apply (tr_known _ _ _ HT); [done|]. csimpl. intros [|]%elem_of_cons; done.
  - intros op Hl. assert (Hk : op ∉ keys sha256 tx) by (intros ?; apply Hl, Hld; by left).
    assert (Hl' : ¬ loaded v op) by (intros ?; apply Hl, Hld; by right).
    destruct (Hother op Hk) as [_ ->]. case_decide as Hd; [by destruct (HD op Hd)|].
    by apply (tr_unloaded _ _ _ HT).
  - intros op Hh. assert (Hk : op ∉ keys sha256 tx).
    { intros Hk. apply keys_hash in Hk. apply Hni. by rewrite <- Hk. }
    destruct (Hother op Hk) as [_ ->]. case_decide as Hd.
    { destruct (HD op Hd) as [_ Hn]. exfalso. apply Hn. csimpl. by right. }
    apply (tr_future _ _ _ HT). csimpl. by right.
  - intros op tx' Htx' Hh Hk' Hl. assert (Hk : op ∉ keys sha256 tx).
    { intros Hk. apply keys_hash in Hk. apply Hni. rewrite <- Hk, Hh. by apply list_elem_of_fmap_2. }
    destruct (Hother op Hk) as [-> _]. case_decide as Hd.
    { destruct (HD op Hd) as [_ Hn]. exfalso. apply Hn. csimpl. right. rewrite Hh. by apply list_elem_of_fmap_2. }
    apply (tr_spare _ _ _ HT op tx'); [by right|done|done|]. by apply Hld in Hl as [|].
  - intros Hcb. destruct (Hin Hcb) as (_ & Hf & Hord). eapply Forall2_impl; [|intros ti c Hc'; exact Hc'].
    apply Forall2_same_length_lookup. split; [by apply Forall2_length in Hf|]. intros i ti c Hti Hci.
    pose proof (Forall2_lookup_lr _ _ _ _ _ _ Hf Hti Hci) as Hcc. cbn in Hcc. rewrite <- Hcc. symmetry.
    rewrite Forall_forall in Hord. apply (tr_known _ _ _ HT).
    + by eapply set_loaded.
    + apply Hord. by apply list_elem_of_lookup_2 in Hti.
Qed.
End filling.

(** ** The accounting of a block *)
Section accounting.
Context `{Schnorr} (sha256 sha3 : bytes → bytes).

Lemma checkInputs_sound params hgt w ins acc t : 0 <= acc <= MaxGrain →
  res_foldl (checkInput hgt w params) acc ins = Ok t →
  ∃ coins, Forall2 (λ ti c, utxoSet w !! ti_PreviousOutPoint ti = Some c) ins coins
    ∧ t = acc + sumZ stxo_Amount coins ∧ acc <= t <= MaxGrain.
Proof.
  revert acc. induction ins as [|ti ins IH]; intros acc Ha Hr; cbn [res_foldl] in Hr.
  - injection Hr as <-. exists []. split; [constructor|]. cbn. lia.
  - apply res_bind_Ok in Hr as (a & H1 & Hr). apply checkInput_sound in H1 as (c & Hc & Hp & -> & Hm); [|done].
    apply IH in Hr as (coins & Hf & -> & Hm'); [|lia]. exists (c :: coins). split; [by constructor|].
    change (sumZ stxo_Amount (c :: coins)) with (stxo_Amount c + sumZ stxo_Amount coins). lia.
Qed.

Lemma inputs_sound tx hgt w params issued fee : moneyOuts (tx_TxOut tx) → inS 64 issued →
  CheckTransactionInputsWithIssuance tx hgt w params issued = Ok fee →
  if IsCoinBaseTx tx then fee = 0 else
  0 <= issued ∧ 0 <= fee <= MaxGrain ∧
  ∃ coins, Forall2 (λ ti c, utxoSet w !! ti_PreviousOutPoint ti = Some c) (tx_TxIn tx) coins
    ∧ sumZ stxo_Amount coins + issued = sumZ to_Value (tx_TxOut tx) + fee.
Proof.
  intros Hout Hi. unfold CheckTransactionInputsWithIssuance. destruct (IsCoinBaseTx tx); [by intros [= <-]|].
  rewrite totalOut_money by done. destruct Hout as [Hp Hm]. pose proof (sumZ_Forall_nonneg _ _ Hp).
  pose proof MaxGrain_small. intros Hr. apply res_bind_Ok in Hr as (t & Ht & Hr).
  apply checkInputs_sound in Ht as (coins & Hf & -> & Hc); [|done].
  apply res_bind_Ok in Hr as (r & Hadd & Hr).
  apply addIssuance_iff in Hadd as (Hi0 & -> & Hr'); [|lia|done].
  destruct (Z.ltb_spec (0 + sumZ stxo_Amount coins + issued) (sumZ to_Value (tx_TxOut tx))); [done|].
  injection Hr as <-. rewrite wrapS_small by (try unfold inS; lia).
  split; [done|]. split; [lia|]. exists coins. split; [done|lia].
Qed.

(** What a transaction is allowed to create. *)
Definition issuedBy (params : Params) (height : Z) (tx : MsgTx) : Z :=
  match CheckInferenceGoIssuance sha3 tx height params with Ok a => a | Err _ => 0 end.

Lemma issuance_range params height tx a : CheckInferenceGoIssuance sha3 tx height params = Ok a →
  inS 64 a ∧ (IsCoinBaseTx tx = true → a = 0).
Proof.
  unfold CheckInferenceGoIssuance. destruct (negb _); [by intros [= <-]|]. destruct (negb _); [done|].
  destruct (IsCoinBaseTx tx); [done|]. intros Hv. split; [|done]. unfold ValidateInferenceGoTx, bad in Hv.
  repeat (case_match; try done); injection Hv as <-; by apply wrapS_in.
Qed.

Definition coinbaseOut (tx : MsgTx) : Z := if IsCoinBaseTx tx then sumZ to_Value (tx_TxOut tx) else 0.

(** Every transaction spends only outputs of earlier transactions. *)
Fixpoint ordered (txs : list MsgTx) : Prop :=
  match txs with
  | [] => True
  | tx :: rest =>
      (IsCoinBaseTx tx = false →
       Forall (λ ti, op_Hash (ti_PreviousOutPoint ti) ∉ TxHash sha256 <$> tx :: rest) (tx_TxIn tx))
      ∧ ordered rest
  end.

Lemma fee_sum fees fee : 0 <= fees < 2 ^ 63 → 0 <= fee <= MaxGrain →
  (i64 (fees + fee) <? fees) = false → i64 (fees + fee) = fees + fee ∧ fees + fee < 2 ^ 63.
Proof.
  intros Hf Hp Hlt. pose proof MaxGrain_small. apply Z.ltb_ge in Hlt. destruct (decide (fees + fee < 2 ^ 63)).
  - rewrite wrapS_small by (try unfold inS; lia). lia.
  - exfalso. unfold wrapS in Hlt. replace (64 - 1) with 63 in Hlt by lia.
    rewrite <- (Z_mod_plus_full _ (-1)), Z.mod_small in Hlt; lia.
Qed.

Lemma txSet_value h M tx coins : nonneg M → moneyOuts (tx_TxOut tx) →
  (IsCoinBaseTx tx = false → NoDup (insOf tx) ∧
     Forall2 (λ ti c, M !! ti_PreviousOutPoint ti = Some c) (tx_TxIn tx) coins) →
  nonneg (txSet sha256 h M tx)
  ∧ value (txSet sha256 h M tx) <= value M + sumZ to_Value (tx_TxOut tx)
      - (if IsCoinBaseTx tx then 0 else sumZ stxo_Amount coins).
Proof.
  intros HM [Hp _] Hin. unfold txSet.
  destruct (spendableFrom_value (TxHash sha256 tx) (IsCoinBaseTx tx) h 0 (tx_TxOut tx) Hp) as [Hs1 Hs2].
  destruct (IsCoinBaseTx tx) eqn:Ec.
  - destruct (insertAll_value (outsOf sha256 h tx) M HM) as [H1 H2]; [unfold outsOf; by rewrite Ec|].
    split; [done|]. unfold outsOf in *. rewrite Ec in *. lia.
  - destruct (Hin eq_refl) as [Hnd Hf].
    destruct (insertAll_value (outsOf sha256 h tx) (deleteAll (insOf tx) M)) as [H1 H2].
    + by apply nonneg_deleteAll.
    + unfold outsOf. by rewrite Ec.
    + split; [done|]. rewrite (deleteAll_value (insOf tx) M coins Hnd) in H2.
      * unfold outsOf in *. rewrite Ec in *. lia.
      * unfold insOf. by rewrite Forall2_fmap_l.
Qed.

Context (U : gmap OutPoint SpentTxOut) (b : BlockChain) (node : ptr) (nd : blockNode) (allow : bool).

Lemma connectTx_value tx rest v M stxos fees v' stxos' fees' :
  tracks sha256 U (tx :: rest) v M → nonneg M → NoDup (TxHash sha256 <$> tx :: rest) → ordered (tx :: rest) →
  saneTx tx allow → 0 <= fees < 2 ^ 63 →
  connectTx sha256 sha3 b node nd (v, stxos, fees) tx = Ok (v', stxos', fees') →
  ∃ M', tracks sha256 U rest v' M' ∧ nonneg M' ∧ 0 <= fees' < 2 ^ 63
    ∧ value M' + fees' <= value M + fees + issuedBy (bc_params b) (bn_height nd) tx + coinbaseOut tx.
Proof.
  intros HT HM Hnd [Hord _] Hsane Hfees Hc. unfold connectTx in Hc.
  apply res_bind_Ok in Hc as (issued & Hi & Hc). apply res_bind_Ok in Hc as (fee & Hfee & Hc).
  apply res_bind_Ok in Hc as (u & _ & Hc).
  destruct (i64 (fees + fee) <? fees) eqn:Hlt; [done|].
  apply res_bind_Ok in Hc as ([w stx] & Hconn & Hc). injection Hc as <- <- <-.
  destruct (issuance_range _ _ _ _ Hi) as [Hi64 Hicb]. unfold issuedBy, coinbaseOut. rewrite Hi.
  pose proof (sane_money _ _ Hsane) as Hmon. pose proof (sane_nodup _ _ Hsane) as Hndin.
  apply inputs_sound in Hfee; [|done|done]. exists (txSet sha256 (bn_height nd) M tx).
  destruct (IsCoinBaseTx tx) eqn:Ec.
  - subst fee. destruct (fee_sum fees 0 Hfees ltac:(done) Hlt) as [-> ?].
    destruct (tracks_step sha256 U (bn_height nd) tx rest v M w stxos stx [] HT Hnd
      ltac:(by rewrite Ec) Hconn) as [HT' _].
    destruct (txSet_value (bn_height nd) M tx [] HM Hmon ltac:(by rewrite Ec)) as [HM' Hval].
    rewrite Ec in Hval. split; [done|]. split; [done|]. split; [lia|]. rewrite (Hicb eq_refl). lia.
  - destruct Hfee as (Hi0 & Hf0 & coins & Hf & Hsum). destruct (fee_sum fees fee Hfees Hf0 Hlt) as [-> ?].
    destruct (tracks_step sha256 U (bn_height nd) tx rest v M w stxos stx coins HT Hnd
      ltac:(intros _; split; [done|]; split; [done|]; by apply Hord) Hconn) as [HT' Hcoins].
    destruct (txSet_value (bn_height nd) M tx coins HM Hmon
      ltac:(intros _; split; [done|by apply Hcoins])) as [HM' Hval].
    rewrite Ec in Hval. split; [done|]. split; [done|]. split; [lia|]. lia.
Qed.

Lemma connectTxs_value txs v M stxos fees v' stxos' fees' :
  tracks sha256 U txs v M → nonneg M → NoDup (TxHash sha256 <$> txs) → ordered txs →
  Forall (λ tx, saneTx tx allow) txs → 0 <= fees < 2 ^ 63 →
  res_foldl (connectTx sha256 sha3 b node nd) (v, stxos, fees) txs = Ok (v', stxos', fees') →
  ∃ M', tracks sha256 U [] v' M' ∧ nonneg M' ∧ 0 <= fees' < 2 ^ 63
    ∧ value M' + fees' <= value M + fees + sumZ (issuedBy (bc_params b) (bn_height nd)) txs + sumZ coinbaseOut txs.
Proof.
  revert v M stxos fees. induction txs as [|tx txs IH]; intros v M stxos fees HT HM Hnd Hord Hsane Hfees Hr.
  - injection Hr as <- <- <-. exists M. cbn. split; [done|]. split; [done|]. lia.
  - cbn [res_foldl] in Hr. apply res_bind_Ok in Hr as ([[w stx] fe] & H1 & Hr). apply Forall_cons in Hsane as [Hs Hsane].
    destruct (connectTx_value _ _ _ _ _ _ _ _ _ HT HM Hnd Hord Hs Hfees H1) as (M1 & HT1 & HM1 & Hf1 & Hv1).
    apply NoDup_cons in Hnd as [_ Hnd]. destruct Hord as [_ Hord].
    destruct (IH _ _ _ _ HT1 HM1 Hnd Hord Hsane Hf1 Hr) as (M2 & HT2 & HM2 & Hf2 & Hv2).
    exists M2. split; [done|]. split; [done|]. split; [done|].
    change (sumZ ?f (tx :: txs)) with (f tx + sumZ f txs). unfold sumZ in *. cbn [foldr]. lia.
Qed.
End accounting.

(** ** No inflation *)
Section no_inflation.
Context `{ZkVerifier} `{Schnorr} (sha256 blake3 sha3 : bytes → bytes).
Context (engine : bytes → MsgTx → nat → Z → UtxoViewpoint → engineResult).

Lemma checkBIP0030_view fetch txs view v : checkBIP0030 sha256 fetch txs view = Ok v →
  v = fetchUtxos fetch view (createdOutpoints sha256 txs).
Proof. unfold checkBIP0030. intros Hr. apply res_bind_Ok in Hr as (? & _ & Hr). by injection Hr as <-. Qed.

Lemma coinbaseOut_only cb rest : IsCoinBaseTx cb = true → Forall (λ tx, IsCoinBaseTx tx = false) rest →
  sumZ coinbaseOut (cb :: rest) = sumZ to_Value (tx_TxOut cb).
Proof.
  intros Hcb Hr. change (sumZ coinbaseOut (cb :: rest)) with (coinbaseOut cb + sumZ coinbaseOut rest).
  unfold coinbaseOut at 1. rewrite Hcb.
  assert (sumZ coinbaseOut rest = 0) as ->; [|lia]. induction Hr as [|tx rest Ht Hr IH]; [done|].
  change (sumZ coinbaseOut (tx :: rest)) with (coinbaseOut tx + sumZ coinbaseOut rest).
  rewrite IH. unfold coinbaseOut. rewrite Ht. lia.
Qed.

Lemma coinbase_bound params height fees cb subsidy : 0 <= fees < 2 ^ 63 → 0 <= subsidy <= MaxGrain →
  CalcBlockSubsidy height (Some params) = Some subsidy → moneyOuts (tx_TxOut cb) →
  checkCoinbaseValue params height fees cb = Ok tt → sumZ to_Value (tx_TxOut cb) <= subsidy + fees.
Proof.
  intros Hf Hs Hsub Hm. unfold checkCoinbaseValue. rewrite Hsub, totalOut_money by done.
  destruct Hm as [Hp Hmx]. pose proof (sumZ_Forall_nonneg _ _ Hp). pose proof MaxGrain_small.
  destruct (Z.ltb_spec (i64 (subsidy + fees)) (sumZ to_Value (tx_TxOut cb))) as [|Hle]; [done|]. intros _.
  destruct (decide (subsidy + fees < 2 ^ 63)).
  - rewrite wrapS_small in Hle by (try unfold inS; lia). lia.
  - lia.
Qed.

(** C1. No inflation: take a block that passes the sanity check and whose
    transactions spend only outputs of earlier transactions, and check it
    against an empty view over the cache's set [U].  If the block is accepted,
    the set after it (the final view laid over [U]) is worth at most what [U]
    is worth plus the subsidy of its height plus the authorised issuances of
    its transactions; fees are only moved. *)
Theorem no_inflation (U : gmap OutPoint SpentTxOut) (fetch : OutPoint → option UtxoEntry) (b : BlockChain)
  (node : ptr) (nd : blockNode) (blk : MsgBlock) (blockHeight now flags subsidy : Z) (genesisHash : bytes)
  (view v' : UtxoViewpoint) (stxos stxos' : list SpentTxOut)
  (Hfetch : ∀ op, coinOf (fetch op) = U !! op) (HU : nonneg U) (Hview : entries view = ∅)
  (Hnode : bi_heap (bc_index b) !! node = Some nd)
  (Hsane : checkBlockSanity sha256 blake3 blk (bc_params b) now flags = Ok tt)
  (Hord : ordered sha256 (mb_Transactions blk))
  (Hsub : CalcBlockSubsidy (bn_height nd) (Some (bc_params b)) = Some subsidy) (Hs : 0 <= subsidy <= MaxGrain)
  (Hok : checkConnectBlock sha256 sha3 engine genesisHash fetch b node blk blockHeight view stxos = Ok (v', stxos')) :
  ∃ U', (∀ op, U' !! op = match entries v' !! op with Some oe => coinOf oe | None => U !! op end)
    ∧ value U' <= value U + subsidy + sumZ (issuedBy sha3 (bc_params b) (bn_height nd)) (mb_Transactions blk).
Proof.
  apply blockSanity_iff in Hsane. destruct (sb_coinbase _ _ _ _ _ _ Hsane) as (cb & rest & El & Hcb & Hrest).
  pose proof (sb_txs _ _ _ _ _ _ Hsane) as Htxs. pose proof (sb_distinct _ _ _ _ _ _ Hsane) as Hnd.
  unfold checkConnectBlock in Hok. rewrite Hnode in Hok. case_bool_decide; [done|].
  destruct (negb _); [done|]. apply res_bind_Ok in Hok as (v0 & Hv0 & Hok). apply checkBIP0030_view in Hv0.
  apply res_bind_Ok in Hok as ([[v1 st1] fees] & Hloop & Hok).
  set (txs := mb_Transactions blk) in *.
  assert (Hfc : fromCache sha256 U txs view).
  { intros op [oe Hoe] _. by rewrite Hview, lookup_empty in Hoe. }
  assert (Hfc0 : fromCache sha256 U txs v0).
  { rewrite Hv0. unfold fetchUtxos. by apply fromCache_fetchUtxosFromCache. }
  assert (Hfc1 := fromCache_fetchInputUtxos sha256 U fetch Hfetch txs v0 blockHeight
    (BlockHash sha256 (mb_BlockHeader blk)) (bh_PrevBlock (mb_BlockHeader blk)) Hfc0).
  apply (tracks_init sha256 U txs Hnd) in Hfc1.
  destruct (connectTxs_value sha256 sha3 U b node nd _ txs _ U stxos 0 _ _ _ Hfc1 HU Hnd Hord Htxs
    ltac:(lia) Hloop) as (M & HT & _ & Hfees & Hval).
  rewrite El in Hok. apply res_bind_Ok in Hok as ([] & Hcbv & Hok).
  destruct (bn_parent nd); [|done]. apply res_bind_Ok in Hok as (? & _ & Hok).
  apply res_bind_Ok in Hok as (? & _ & Hok). injection Hok as <- _.
  assert (Hmcb : moneyOuts (tx_TxOut cb)).
  { rewrite El in Htxs. apply Forall_inv in Htxs. apply (sane_money _ _ Htxs). }
  pose proof (coinbase_bound _ _ _ _ _ Hfees Hs Hsub Hmcb Hcbv).
  exists M. split.
  - intros op. cbn. destruct (entries v1 !! op) as [oe|] eqn:E.
    + rewrite <- (tr_known _ _ _ _ _ HT op).
      * rewrite lookup_utxoSet. unfold LookupEntry. by rewrite E.
      * unfold loaded. rewrite E. by eexists.
      * csimpl. apply not_elem_of_nil.
    + apply (tr_unloaded _ _ _ _ _ HT). unfold loaded. rewrite E. by intros [? ?].
  - rewrite El in Hval. rewrite (coinbaseOut_only cb rest Hcb Hrest) in Hval. rewrite <- El in Hval. lia.
Qed.
End no_inflation.

(** ** Concrete blocks *)
Module Demo.
Import Toy ToyAux.
Definition toyEngine (_ : bytes) (_ : MsgTx) (_ : nat) (_ : Z) (_ : UtxoViewpoint) : engineResult := EngineOk.

Definition p2tr (b : byte) : bytes := [x51; x20] ++ replicate 32 b.
(** The only unspent output: 100 grains. *)
Definition X : OutPoint := mkOutPoint (replicate 32 x05) 0.
Definition entryX : UtxoEntry := mkUtxoEntry 100 (p2tr x01) 2 0.
Definition U : gmap OutPoint SpentTxOut := {[ X := stxoOf entryX ]}.
Definition fetch (op : OutPoint) : option UtxoEntry := if bool_decide (op = X) then Some entryX else None.

Definition spend (version : Z) (op : OutPoint) (to : byte) : MsgTx :=
  mkMsgTx version [mkTxIn op [] [] 4294967295] [mkTxOut 100 (p2tr to)] 0.
Definition coinbase : MsgTx :=
  mkMsgTx 1 [mkTxIn (mkOutPoint zeroHash 4294967295) [x56; x00] [] 4294967295]
    [mkTxOut inferenceRewardGrains (p2tr x02)] 0.
(** [txB] spends the output; [txA] and [txC] both spend the output of [txB]. *)
Definition txB : MsgTx := spend 1 X x03.
Definition outB : OutPoint := mkOutPoint (TxHash toySha txB) 0.
Definition txA : MsgTx := spend 6 outB x04.
Definition txC : MsgTx := spend 7 outB x06.

Definition block (txs : list MsgTx) : MsgBlock :=
  mkMsgBlock (mkMsgHeader (Some (mkZKCertificate zeroHash (replicate 164 x00) [x01]))
    (mkBlockHeader 1 (replicate 32 x09) (default [] (CalcMerkleRoot toySha txs false)) (timeUnix 2000)
       0x1e010000 zeroHash)) None txs.
Definition chain : BlockChain :=
  mkChain RegressionNetParams [] ∅ (demoIndex 6) [] None None.
Abbreviation connect txs := (checkConnectBlock (H0 := toySchnorr) toySha toySha toyEngine zeroHash fetch chain
  6%nat (block txs) 6 (mkView ∅ (replicate 32 x09)) []).
Abbreviation sane txs := (checkBlockSanity (H := toyZk) (H0 := toySchnorr) toySha toySha (block txs)
  (bc_params chain) (timeUnix 3000) BFNoPoWCheck).
End Demo.

Lemma demo_fetch op : coinOf (Demo.fetch op) = Demo.U !! op.
Proof.
  unfold Demo.fetch, Demo.U. case_bool_decide as E.
  - subst op. by rewrite lookup_singleton_eq.
  - by rewrite lookup_singleton_ne.
Qed.

Lemma demo_nonneg : nonneg Demo.U.
Proof. apply map_Forall_singleton. done. Qed.

Lemma demo_connects : is_Ok (Demo.connect [Demo.coinbase; Demo.txB; Demo.txC]) = true.
Proof. vm_compute. reflexivity. Qed.
Lemma demo_sane : Demo.sane [Demo.coinbase; Demo.txB; Demo.txC] = Ok tt.
Proof. vm_compute. reflexivity. Qed.
Lemma demo_node : bn_height <$> bi_heap (bc_index Demo.chain) !! 6%nat = Some 6.
Proof. vm_compute. reflexivity. Qed.
Lemma demo_ordered : ordered toySha (mb_Transactions (Demo.block [Demo.coinbase; Demo.txB; Demo.txC])).
Proof.
  split; [vm_compute; discriminate|]. split; [|split; [|exact I]]; intros _;
    apply (bool_decide_unpack _); vm_compute; exact I.
Qed.
Lemma demo_subsidy : CalcBlockSubsidy 6 (Some (bc_params Demo.chain)) = Some inferenceRewardGrains.
Proof. vm_compute. reflexivity. Qed.
Lemma demo_bound : value Demo.U + inferenceRewardGrains
  + sumZ (issuedBy (H := Toy.toySchnorr) toySha (bc_params Demo.chain) 6)
      (mb_Transactions (Demo.block [Demo.coinbase; Demo.txB; Demo.txC]))
  = 100 + inferenceRewardGrains.
Proof. vm_compute. reflexivity. Qed.

Lemma no_inflation_witness :
  ∃ v' stxos' U', Demo.connect [Demo.coinbase; Demo.txB; Demo.txC] = Ok (v', stxos')
    ∧ (∀ op, U' !! op = match entries v' !! op with Some oe => coinOf oe | None => Demo.U !! op end)
    ∧ value U' <= 100 + inferenceRewardGrains.
Proof.
  pose proof demo_connects as Hc.
  destruct (Demo.connect [Demo.coinbase; Demo.txB; Demo.txC]) as [[v' stxos']|] eqn:E; [|discriminate Hc].
  pose proof demo_node as Hn. destruct (bi_heap (bc_index Demo.chain) !! 6%nat) as [nd|] eqn:En; [|discriminate Hn].
  injection Hn as Hh. pose proof demo_bound as Hb.
  destruct (no_inflation (H := ToyAux.toyZk) (H0 := Toy.toySchnorr) toySha toySha toySha Demo.toyEngine
    Demo.U Demo.fetch Demo.chain 6 nd (Demo.block [Demo.coinbase; Demo.txB; Demo.txC]) 6
    (timeUnix 3000) BFNoPoWCheck inferenceRewardGrains zeroHash (mkView ∅ (replicate 32 x09)) v' [] stxos'
    demo_fetch demo_nonneg eq_refl En demo_sane demo_ordered) as (U' & HU & Hv).
  - rewrite Hh. exact demo_subsidy.
  - split; [apply Z.leb_le; reflexivity|apply Z.leb_le; reflexivity].
  - exact E.
  - exists v', stxos', U'. split; [reflexivity|]. split; [exact HU|]. rewrite Hh in Hv.
    rewrite <- Hb. exact Hv.
Defined.

Lemma demo_double :
  match Demo.connect [Demo.coinbase; Demo.txA; Demo.txB; Demo.txC] with
  | Ok (v', _) => Some (value (utxoSet v'))
  | Err _ => None
  end = Some (value Demo.U + inferenceRewardGrains + 100).
Proof. vm_compute. reflexivity. Qed.

(** C37. Order is not enforced, and a double spend is accepted: in the block
    [coinbase; A; B; C], where [A] and [C] both spend the output of [B], the
    sanity check and the connection check pass.  [A] is checked before [B]
    exists; the look-ahead for [C] has already put the outputs of [B] into the
    view, and connecting [B] marks the output [A] spent as unspent again.  The
    set grows by 100 grains more than the subsidy. *)
Theorem double_spend_accepted :
  Demo.sane [Demo.coinbase; Demo.txA; Demo.txB; Demo.txC] = Ok tt
  ∧ tx_TxIn Demo.txA = tx_TxIn Demo.txC
  ∧ (∃ v' stxos', Demo.connect [Demo.coinbase; Demo.txA; Demo.txB; Demo.txC] = Ok (v', stxos')
      ∧ value (utxoSet v') = value Demo.U + inferenceRewardGrains + 100)
  ∧ Demo.connect [Demo.coinbase; Demo.txA; Demo.txB] = Err (ruleError ErrMissingTxOut).
Proof.
  split; [vm_compute; reflexivity|]. split; [reflexivity|]. split; [|vm_compute; reflexivity].
  pose proof demo_double as Hd.
  destruct (Demo.connect [Demo.coinbase; Demo.txA; Demo.txB; Demo.txC]) as [[v' stxos']|]; [|discriminate Hd].
  exists v', stxos'. split; [reflexivity|]. exact (Some_inj _ _ Hd).
Qed.
