(* ===== verification/Compress.v ===== *)
(** * Compressed transaction outputs (src/node/blockchain/compress.go)

    The variable-length quantities, amounts and scripts in the format of the
    UTXO database and of the spend journal.  The code writes into a slice whose
    size was computed beforehand; here a writer returns the bytes it writes, and
    the size functions are proved to be their lengths, so that the slice is
    filled exactly. *)
From Stdlib Require Import ZArith Lia Strings.Byte.
From stdpp Require Import base list.
From S2P Require Import Prelude WireTx Script.
Open Scope Z_scope.

(** ** Variable-length quantities *)

(** Ten seven-bit groups hold every uint64. *)
Definition vlqFuel : nat := 10.

Fixpoint sizeVLQLoop (fuel : nat) (size n : Z) : Z :=
  match fuel with
  | O => size
  | S fuel' => if 0x7f <? n then sizeVLQLoop fuel' (size + 1) (u64 (Z.shiftr n 7 - 1)) else size
  end.

Definition serializeSizeVLQ (n : Z) : Z := sizeVLQLoop vlqFuel 1 n.

(** The groups in the order they are produced, least significant first; only
    the first has a clear high bit. *)
Fixpoint putVLQLoop (fuel : nat) (highBitMask n : Z) : bytes :=
  match fuel with
  | O => []
  | S fuel' =>
      z2b (Z.lor (Z.land n 0x7f) highBitMask) ::
      (if n <=? 0x7f then [] else putVLQLoop fuel' 0x80 (u64 (Z.shiftr n 7 - 1)))
  end.

(** The groups are reversed in place. *)
Definition putVLQ (n : Z) : bytes := reverse (putVLQLoop vlqFuel 0x00 n).

Fixpoint deserializeVLQLoop (n size : Z) (serialized : bytes) : Z * Z :=
  match serialized with
  | [] => (n, size)
  | val :: s' =>
      let n := Z.lor (u64 (Z.shiftl n 7)) (Z.land (b2z val) 0x7f) in
      if negb (Z.land (b2z val) 0x80 =? 0x80) then (n, size + 1)
      else deserializeVLQLoop (u64 (n + 1)) (size + 1) s'
  end.

Definition deserializeVLQ (serialized : bytes) : Z * Z := deserializeVLQLoop 0 0 serialized.

(** ** Amounts *)
Fixpoint tenLoop (fuel : nat) (amount exponent : Z) : Z * Z :=
  match fuel with
  | O => (amount, exponent)
  | S fuel' => if (amount mod 10 =? 0) && (exponent <? 9) then tenLoop fuel' (amount / 10) (exponent + 1)
               else (amount, exponent)
  end.

Definition compressTxOutAmount (amount : Z) : Z :=
  if amount =? 0 then 0 else
  let '(amount, exponent) := tenLoop 9 amount 0 in
  if exponent <? 9 then
    let lastDigit := amount mod 10 in
    let amount := amount / 10 in
    u64 (1 + 10 * (9 * amount + lastDigit - 1) + exponent)
  else u64 (10 + 10 * (amount - 1)).

Fixpoint timesTen (exponent : nat) (n : Z) : Z :=
  match exponent with O => n | S e => timesTen e (u64 (n * 10)) end.

Definition decompressTxOutAmount (amount : Z) : Z :=
  if amount =? 0 then 0 else
  let amount := amount - 1 in
  let exponent := amount mod 10 in
  let amount := amount / 10 in
  let n := if exponent <? 9 then u64 (amount / 9 * 10 + (amount mod 9 + 1)) else u64 (amount + 1) in
  timesTen (Z.to_nat exponent) n.

(** ** Scripts *)

(** The secp256k1 library: parsing a serialised public key and writing its
    uncompressed form. *)
Class Secp := {
  PublicKey : Type;
  secp_ParsePubKey : bytes → option PublicKey;
  SerializeUncompressed : PublicKey → bytes }.

(** What the compression relies on (SEC 1): an uncompressed key that parses is
    written back as it was read, and is the point its compressed form denotes. *)
Class SecpLaws `{Secp} := {
  uncompressed_same : ∀ x y k, length x = 32%nat → length y = 32%nat →
    secp_ParsePubKey (x04 :: x ++ y) = Some k → SerializeUncompressed k = x04 :: x ++ y;
  compressed_same : ∀ x y b k, length x = 32%nat → length (y ++ [b]) = 32%nat →
    secp_ParsePubKey (x04 :: x ++ y ++ [b]) = Some k →
    secp_ParsePubKey (z2b (2 + b2z b mod 2) :: x) = Some k }.

Definition cstPayToPubKeyHash : Z := 0.
Definition cstPayToScriptHash : Z := 1.
Definition cstPayToPubKeyComp2 : Z := 2.
Definition cstPayToPubKeyComp3 : Z := 3.
Definition cstPayToPubKeyUncomp4 : Z := 4.
Definition cstPayToPubKeyUncomp5 : Z := 5.
Definition numSpecialScripts : Z := 6.

Definition OP_DUP : byte := x76.
Definition OP_EQUALVERIFY : byte := x88.
Definition OP_CHECKSIG : byte := xac.

Definition isPubKeyHash (script : bytes) : option bytes :=
  if (length script =? 25)%nat && bool_decide (slice 0 3 script = [OP_DUP; xa9; x14])
     && bool_decide (slice 23 25 script = [OP_EQUALVERIFY; OP_CHECKSIG])
  then Some (slice 3 23 script) else None.

Definition isScriptHash (script : bytes) : option bytes :=
  if (length script =? 23)%nat && bool_decide (slice 0 2 script = [xa9; x14])
     && bool_decide (slice 22 23 script = [x87])
  then Some (slice 2 22 script) else None.

Inductive codecErr := errDeserialize | codecPanic.

Section scripts.
Context `{Secp}.

Definition parses (key : bytes) : bool := bool_decide (is_Some (secp_ParsePubKey key)).

Definition isPubKey (script : bytes) : option bytes :=
  if (length script =? 35)%nat && bool_decide (slice 0 1 script = [x21])
     && bool_decide (slice 34 35 script = [OP_CHECKSIG])
     && (bool_decide (slice 1 2 script = [x02]) || bool_decide (slice 1 2 script = [x03]))
     && parses (slice 1 34 script)
  then Some (slice 1 34 script)
  else if (length script =? 67)%nat && bool_decide (slice 0 1 script = [x41])
     && bool_decide (slice 66 67 script = [OP_CHECKSIG]) && bool_decide (slice 1 2 script = [x04])
     && parses (slice 1 66 script)
  then Some (slice 1 66 script)
  else None.

Definition compressedScriptSize (pkScript : bytes) : Z :=
  match isPubKeyHash pkScript, isScriptHash pkScript, isPubKey pkScript with
  | Some _, _, _ => 21
  | None, Some _, _ => 21
  | None, None, Some _ => 33
  | None, None, None => serializeSizeVLQ (zlen pkScript + numSpecialScripts) + zlen pkScript
  end.

(** uint64 arithmetic, converted to an int at the end. *)
Definition decodeCompressedScriptSize (serialized : bytes) : Z :=
  let '(scriptSize, bytesRead) := deserializeVLQ serialized in
  if bytesRead =? 0 then 0
  else if (scriptSize =? cstPayToPubKeyHash) || (scriptSize =? cstPayToScriptHash) then 21
  else if scriptSize <=? cstPayToPubKeyUncomp5 then 33
  else i64 (u64 (scriptSize - numSpecialScripts + bytesRead)).

Definition putCompressedScript (pkScript : bytes) : bytes :=
  match isPubKeyHash pkScript with
  | Some hash => z2b cstPayToPubKeyHash :: hash
  | None =>
  match isScriptHash pkScript with
  | Some hash => z2b cstPayToScriptHash :: hash
  | None =>
  match isPubKey pkScript with
  | Some (fmt :: key) =>
      if bool_decide (fmt = x02) || bool_decide (fmt = x03) then fmt :: slice 0 32 key
      else z2b (Z.lor (b2z fmt) (Z.land (b2z (default x00 (key !! 63%nat))) 0x01)) :: slice 0 32 key
  | _ => putVLQ (zlen pkScript + numSpecialScripts) ++ pkScript
  end end end.

(** A slice that is too short for its own prefix is a run-time panic. *)
Definition decompressScript (compressedPkScript : bytes) : res codecErr bytes :=
  if (length compressedPkScript =? 0)%nat then Ok [] else
  let '(encodedScriptSize, bytesRead) := deserializeVLQ compressedPkScript in
  let rest := drop (Z.to_nat bytesRead) compressedPkScript in
  let upTo (n : nat) := if (length rest <? n)%nat then Err codecPanic else Ok (take n rest) in
  if encodedScriptSize =? cstPayToPubKeyHash then
    let? h := upTo 20%nat in Ok ([OP_DUP; xa9; x14] ++ h ++ [OP_EQUALVERIFY; OP_CHECKSIG])
  else if encodedScriptSize =? cstPayToScriptHash then
    let? h := upTo 20%nat in Ok ([xa9; x14] ++ h ++ [x87])
  else if encodedScriptSize <=? cstPayToPubKeyComp3 then
    let? k := upTo 32%nat in Ok ([x21; z2b encodedScriptSize] ++ k ++ [OP_CHECKSIG])
  else if encodedScriptSize <=? cstPayToPubKeyUncomp5 then
    let key := z2b (encodedScriptSize - 2) ::
               take 32 (drop 1 compressedPkScript ++ replicate 32 x00) in
    match secp_ParsePubKey key with
    | None => Ok []
    | Some k => Ok ([x41] ++ take 65 (SerializeUncompressed k ++ replicate 65 x00) ++ [OP_CHECKSIG])
    end
  else
    let scriptSize := i64 (u64 (encodedScriptSize - numSpecialScripts)) in
    if scriptSize <? 0 then Err codecPanic else upTo (Z.to_nat scriptSize).

(** ** Outputs *)
Definition compressedTxOutSize (amount : Z) (pkScript : bytes) : Z :=
  serializeSizeVLQ (compressTxOutAmount amount) + compressedScriptSize pkScript.

Definition putCompressedTxOut (amount : Z) (pkScript : bytes) : bytes :=
  putVLQ (compressTxOutAmount amount) ++ putCompressedScript pkScript.

(** The amount, the script and the number of bytes read. *)
Definition decodeCompressedTxOut (serialized : bytes) : res codecErr (Z * bytes * Z) :=
  let '(compressedAmount, bytesRead) := deserializeVLQ serialized in
  if zlen serialized <=? bytesRead then Err errDeserialize else
  let rest := drop (Z.to_nat bytesRead) serialized in
  let scriptSize := decodeCompressedScriptSize rest in
  if zlen rest <? scriptSize then Err errDeserialize else
  if scriptSize <? 0 then Err codecPanic else
  let amount := decompressTxOutAmount compressedAmount in
  let? script := decompressScript (take (Z.to_nat scriptSize) rest) in
  Ok (amount, script, bytesRead + scriptSize).
End scripts.

(** ** Facts about variable-length quantities *)
Lemma land_127 n : Z.land n 0x7f = n mod 128.
Proof. change 0x7f with (Z.ones 7). rewrite Z.land_ones by lia. done. Qed.

Lemma shiftr_7 n : Z.shiftr n 7 = n / 128.
Proof. rewrite Z.shiftr_div_pow2 by lia. done. Qed.

(** A group with the continuation bit, and the last group. *)
Lemma cont_byte d : 0 <= d < 128 → b2z (z2b (Z.lor d 0x80)) = d + 128.
Proof.
  intros. change 0x80 with (1 * 2 ^ 7). rewrite lor_add by lia. rewrite b2z_z2b. apply Z.mod_small. lia.
Qed.

Lemma last_byte d : 0 <= d < 128 → b2z (z2b (Z.lor d 0x00)) = d.
Proof. intros. rewrite Z.lor_0_r, b2z_z2b. apply Z.mod_small. lia. Qed.

Lemma cont_bit (b : byte) : (Z.land (b2z b) 0x80 =? 0x80) = (128 <=? b2z b).
Proof. by destruct b. Qed.

Lemma vlq_step n b : 0 <= n < 2 ^ 57 →
  Z.lor (u64 (Z.shiftl n 7)) (Z.land (b2z b) 0x7f) = n * 128 + b2z b mod 128.
Proof.
  intros Hn. rewrite Z.shiftl_mul_pow2, land_127, wrapU_small by (unfold inU; lia).
  rewrite Z.lor_comm, lor_add by (pose proof (Z.mod_pos_bound (b2z b) 128); lia). lia.
Qed.

Lemma div128_57 m : m < 2 ^ 64 → m / 128 < 2 ^ 57.
Proof. intros. apply Z.div_lt_upper_bound; [lia|]. change (128 * 2 ^ 57) with (2 ^ 64). lia. Qed.

Lemma vlq_rest m f : 127 < m < 2 ^ (7 * Z.of_nat (S f)) → m < 2 ^ 64 →
  u64 (Z.shiftr m 7 - 1) = m / 128 - 1 ∧ 0 <= m / 128 - 1 < 2 ^ (7 * Z.of_nat f) ∧ (0 < f)%nat.
Proof.
  intros Hm H64. rewrite shiftr_7. replace (7 * Z.of_nat (S f)) with (7 + 7 * Z.of_nat f) in Hm by lia.
  rewrite Z.pow_add_r in Hm by lia. change (2 ^ 7) with 128 in Hm.
  assert (1 <= m / 128) by (apply Z.div_le_lower_bound; lia).
  assert (m / 128 < 2 ^ (7 * Z.of_nat f)) by (apply Z.div_lt_upper_bound; lia).
  pose proof (div128_57 m).
  split; [apply wrapU_small; unfold inU; lia|]. split; [lia|]. destruct f; [cbn in *; lia|lia].
Qed.

(** Reading the groups of [m] that carry the continuation bit. *)
Lemma decode_cont f m size s : (0 < f)%nat → 0 <= m < 2 ^ (7 * Z.of_nat f) → m < 2 ^ 64 - 1 →
  deserializeVLQLoop 0 size (reverse (putVLQLoop f 0x80 m) ++ s)
  = deserializeVLQLoop (m + 1) (size + zlen (putVLQLoop f 0x80 m)) s.
Proof.
  revert m size s. induction f as [|f IH]; intros m size s Hf Hm H64; [lia|].
  cbn [putVLQLoop]. set (b := z2b (Z.lor (Z.land m 0x7f) 0x80)).
  assert (Hb : b2z b = m mod 128 + 128).
  { unfold b. rewrite land_127. apply cont_byte. apply Z.mod_pos_bound. lia. }
  assert (Hstep : ∀ n size, n = m / 128 →
    deserializeVLQLoop n size (b :: s) = deserializeVLQLoop (m + 1) (size + 1) s).
  { intros n sz ->. cbn [deserializeVLQLoop].
    rewrite vlq_step by (split; [apply Z.div_pos; lia|apply div128_57; lia]). rewrite cont_bit, Hb.
    pose proof (Z.mod_pos_bound m 128). destruct (Z.leb_spec 128 (m mod 128 + 128)); [|lia]. cbn [negb].
    replace ((m mod 128 + 128) mod 128) with (m mod 128)
      by (rewrite Zplus_mod, Z_mod_same_full, Z.add_0_r, !Z.mod_mod by lia; done).
    replace (m / 128 * 128 + m mod 128) with m by (pose proof (Z.div_mod m 128); lia).
    by rewrite wrapU_small by (unfold inU; lia). }
  rewrite reverse_cons, <- app_assoc. cbn [app]. rewrite zlen_cons. destruct (Z.leb_spec m 0x7f).
  - cbn [reverse rev_append app]. rewrite Hstep by (by rewrite Z.div_small by lia). by rewrite zlen_nil, Z.add_0_r.
  - destruct (vlq_rest m f) as (-> & Hr & Hf'); [lia|lia|].
    rewrite IH by (pose proof (div128_57 m); lia).
    rewrite Hstep by lia. f_equal. lia.
Qed.

Lemma putVLQLoop_size f mask n size : (0 < f)%nat → 0 <= n < 2 ^ (7 * Z.of_nat f) → n < 2 ^ 64 →
  sizeVLQLoop f size n + 1 = size + zlen (putVLQLoop f mask n).
Proof.
  revert mask n size. induction f as [|f IH]; intros mask n size Hf Hn H64; [lia|].
  cbn [sizeVLQLoop putVLQLoop]. rewrite zlen_cons.
  destruct (Z.ltb_spec 0x7f n); destruct (Z.leb_spec n 0x7f); try lia.
  - destruct (vlq_rest n f) as (-> & Hr & Hf'); [lia|lia|]. rewrite (IH 0x80); [lia|lia|lia|].
    pose proof (div128_57 n). lia.
  - rewrite zlen_nil. lia.
Qed.

Lemma putVLQ_size n : inU 64 n → zlen (putVLQ n) = serializeSizeVLQ n.
Proof.
  intros Hn. unfold inU in Hn. unfold putVLQ, serializeSizeVLQ, zlen. rewrite length_reverse.
  pose proof (putVLQLoop_size vlqFuel 0x00 n 1 ltac:(unfold vlqFuel; lia)) as H. unfold zlen in H.
  change (7 * Z.of_nat vlqFuel) with 70 in H. lia.
Qed.

Lemma putVLQ_length n : 1 <= zlen (putVLQ n) <= 10.
Proof.
  assert (G : ∀ f mask n, (length (putVLQLoop f mask n) <= f)%nat).
  { induction f as [|f IH]; intros mask m; cbn; [lia|]. destruct (_ <=? _); cbn; [lia|].
    specialize (IH 0x80 (u64 (Z.shiftr m 7 - 1))). lia. }
  pose proof (G vlqFuel 0x00 n). unfold zlen, putVLQ. rewrite length_reverse. split; [|unfold vlqFuel in *; lia].
  cbn [vlqFuel putVLQLoop length]. lia.
Qed.

Lemma deserializeVLQ_put n s : inU 64 n → deserializeVLQ (putVLQ n ++ s) = (n, zlen (putVLQ n)).
Proof.
  intros Hn. unfold inU in Hn. unfold deserializeVLQ, putVLQ.
  change (putVLQLoop vlqFuel 0x00 n) with
    (z2b (Z.lor (Z.land n 0x7f) 0x00) ::
     (if n <=? 0x7f then [] else putVLQLoop 9 0x80 (u64 (Z.shiftr n 7 - 1)))). set (b := z2b (Z.lor (Z.land n 0x7f) 0x00)).
  assert (Hb : b2z b = n mod 128).
  { unfold b. rewrite land_127. apply last_byte. apply Z.mod_pos_bound. lia. }
  assert (Hstep : ∀ m size, m = n / 128 → deserializeVLQLoop m size (b :: s) = (n, size + 1)).
  { intros m sz ->. cbn [deserializeVLQLoop].
    rewrite vlq_step by (split; [apply Z.div_pos; lia|apply div128_57; lia]). rewrite cont_bit, Hb.
    pose proof (Z.mod_pos_bound n 128). destruct (Z.leb_spec 128 (n mod 128)); [lia|]. cbn [negb].
    rewrite Z.mod_mod by lia. f_equal. pose proof (Z.div_mod n 128). lia. }
  rewrite reverse_cons, <- app_assoc. cbn [app]. rewrite zlen_app. change (zlen [b]) with 1.
  destruct (Z.leb_spec n 0x7f).
  - cbn [reverse rev_append app]. rewrite Hstep by (by rewrite Z.div_small by lia). done.
  - destruct (vlq_rest n 9) as (Hu & Hr & _); [cbn; lia|lia|].
    rewrite Hu. rewrite decode_cont by (pose proof (div128_57 n); lia).
    rewrite Hstep by lia. f_equal. unfold zlen. rewrite length_reverse. lia.
Qed.

(** The value of a run of groups with the continuation bit, plus one. *)
Definition contVal (p : bytes) : Z := foldl (λ n b, n * 128 + b2z b mod 128 + 1) 0 p.

Lemma contVal_snoc p b : contVal (p ++ [b]) = contVal p * 128 + b2z b mod 128 + 1.
Proof. unfold contVal. by rewrite foldl_app. Qed.

Lemma contVal_bound p : 0 <= contVal p <= 2 * 128 ^ zlen p - 2.
Proof.
  induction p as [|b p IH] using rev_ind; [split; vm_compute; congruence|].
  rewrite contVal_snoc, zlen_app. change (zlen [b]) with 1. rewrite Z.pow_add_r, Z.pow_1_r by (unfold zlen; lia).
  pose proof (Z.mod_pos_bound (b2z b) 128). lia.
Qed.

Lemma contVal_small p : (length p <= 8)%nat → 0 <= contVal p < 2 ^ 57.
Proof.
  intros Hl. pose proof (contVal_bound p) as Hb.
  assert (128 ^ zlen p <= 128 ^ 8) by (apply Z.pow_le_mono_r; unfold zlen; lia).
  change (128 ^ 8) with (2 ^ 56) in *. lia.
Qed.

Lemma contVal_pos p : p ≠ [] → 1 <= contVal p.
Proof.
  destruct p as [|b p _] using rev_ind; [done|]. intros _. rewrite contVal_snoc.
  pose proof (contVal_bound p). pose proof (Z.mod_pos_bound (b2z b) 128). lia.
Qed.

Lemma deserializeVLQ_cont p size s : Forall (λ b, 128 <= b2z b) p → (length p <= 8)%nat →
  deserializeVLQLoop 0 size (p ++ s) = deserializeVLQLoop (contVal p) (size + zlen p) s.
Proof.
  revert s. induction p as [|b p IH] using rev_ind; intros s Hp Hl; [by rewrite Z.add_0_r|].
  rewrite Forall_app, Forall_singleton in Hp. destruct Hp as [Hp Hb].
  rewrite length_app in Hl. cbn in Hl. rewrite <- app_assoc, IH by (done || lia). cbn [app deserializeVLQLoop].
  pose proof (contVal_small p ltac:(lia)). rewrite vlq_step by lia. rewrite cont_bit.
  destruct (Z.leb_spec 128 (b2z b)); [|lia]. cbn [negb].
  pose proof (contVal_small (p ++ [b])) as Hs. rewrite length_app in Hs. cbn [length] in Hs.
  rewrite contVal_snoc in *. rewrite wrapU_small by (unfold inU; lia). f_equal. rewrite zlen_app. change (zlen [b]) with 1. lia.
Qed.

(** A group is determined by its value. *)
Lemma group_byte v d (b : byte) : 128 <= b2z b → b2z (z2b v) = d + 128 → d = b2z b mod 128 → z2b v = b.
Proof.
  intros Hb Hv Hd. apply b2z_inj. rewrite Hv, Hd. pose proof (b2z_range b).
  pose proof (Z.div_mod (b2z b) 128). assert (b2z b / 128 = 1) by (symmetry; apply Z.div_unique with (b2z b - 128); lia).
  lia.
Qed.

Lemma put_cont p f : p ≠ [] → Forall (λ b, 128 <= b2z b) p → (length p <= f)%nat → (length p <= 8)%nat →
  reverse (putVLQLoop f 0x80 (contVal p - 1)) = p.
Proof.
  revert f. induction p as [|b p IH] using rev_ind; intros f Hn Hp Hf Hl; [done|].
  rewrite Forall_app, Forall_singleton in Hp. destruct Hp as [Hp Hb].
  rewrite length_app in *. cbn in *. destruct f as [|f]; [lia|]. rewrite contVal_snoc, Z.add_simpl_r.
  set (d := b2z b mod 128). pose proof (Z.mod_pos_bound (b2z b) 128 ltac:(lia)).
  cbn [putVLQLoop]. rewrite reverse_cons.
  assert (Hbyte : z2b (Z.lor (Z.land (contVal p * 128 + d) 0x7f) 0x80) = b).
  { apply (group_byte _ d); [done| |done]. rewrite land_127, Z.add_comm, Z_mod_plus_full, Z.mod_small by lia.
    apply cont_byte. lia. }
  rewrite Hbyte. f_equal. pose proof (contVal_small p ltac:(lia)). destruct (decide (p = [])) as [->|Hne].
  - change (contVal [] * 128 + d) with d. destruct (Z.leb_spec d 0x7f); [done|lia].
  - pose proof (contVal_pos p Hne). destruct (Z.leb_spec (contVal p * 128 + d) 0x7f); [lia|].
    rewrite shiftr_7, Z.div_add_l, Z.div_small, Z.add_0_r by lia. rewrite wrapU_small by (unfold inU; lia).
    apply IH; (done || lia).
Qed.

(** A terminated quantity of at most nine groups is the encoding of its value. *)
Lemma put_deserializeVLQ p b r : Forall (λ b, 128 <= b2z b) p → b2z b < 128 → (length p <= 8)%nat →
  ∃ n, inU 64 n ∧ deserializeVLQ (p ++ b :: r) = (n, zlen p + 1) ∧ putVLQ n = p ++ [b].
Proof.
  intros Hp Hb Hl. exists (contVal p * 128 + b2z b). pose proof (contVal_small p Hl). pose proof (b2z_range b).
  split; [unfold inU; lia|]. split.
  - unfold deserializeVLQ. rewrite deserializeVLQ_cont by done. cbn [deserializeVLQLoop].
    rewrite vlq_step, cont_bit by lia. destruct (Z.leb_spec 128 (b2z b)); [lia|]. cbn [negb].
    by rewrite Z.mod_small by lia.
  - unfold putVLQ. set (n := contVal p * 128 + b2z b).
    change (putVLQLoop vlqFuel 0x00 n) with
      (z2b (Z.lor (Z.land n 0x7f) 0x00) ::
       (if n <=? 0x7f then [] else putVLQLoop 9 0x80 (u64 (Z.shiftr n 7 - 1)))).
    rewrite reverse_cons. f_equal.
    + destruct (decide (p = [])) as [->|Hne].
      * destruct (Z.leb_spec n 0x7f); [done|]. unfold n in *. change (contVal []) with 0 in *. lia.
      * pose proof (contVal_pos p Hne). unfold n. destruct (Z.leb_spec (contVal p * 128 + b2z b) 0x7f); [lia|].
        rewrite shiftr_7, Z.div_add_l, Z.div_small, Z.add_0_r by lia. rewrite wrapU_small by (unfold inU; lia).
        apply put_cont; (done || lia).
    + f_equal. apply b2z_inj. unfold n. rewrite land_127, Z.add_comm, Z_mod_plus_full, Z.mod_small by lia.
      apply last_byte. lia.
Qed.

(** ** Facts about amounts *)
Lemma tenLoop_spec f a e a' e' : 0 < a → 0 <= e <= 9 → (9 - Z.to_nat e <= f)%nat → tenLoop f a e = (a', e') →
  0 < a' ∧ e <= e' <= 9 ∧ a = a' * 10 ^ (e' - e) ∧ (e' < 9 → a' mod 10 ≠ 0).
Proof.
  revert a e. induction f as [|f IH]; intros a e Ha He Hf H; cbn in H.
  - simplify_eq. rewrite Z.sub_diag. split_and!; lia.
  - destruct (Z.eqb_spec (a mod 10) 0) as [Hm|Hm]; cbn [andb] in H.
    + destruct (Z.ltb_spec e 9); cbn [andb] in H.
      * pose proof (Z.div_mod a 10). apply IH in H as (Hpos & Hrange & Heq & Hlast); [|lia|lia|lia].
        split_and!; [lia|lia|lia| |done]. replace (e' - e) with (Z.succ (e' - (e + 1))) by lia.
        rewrite Z.pow_succ_r by lia. lia.
      * simplify_eq. rewrite Z.sub_diag. split_and!; lia.
    + simplify_eq. rewrite Z.sub_diag. split_and!; lia.
Qed.

Lemma timesTen_spec e n : 0 <= n → n * 10 ^ Z.of_nat e < 2 ^ 64 → timesTen e n = n * 10 ^ Z.of_nat e.
Proof.
  revert n. induction e as [|e IH]; intros n Hn Hb; [cbn; lia|].
  cbn [timesTen]. rewrite Nat2Z.inj_succ, Z.pow_succ_r in * by lia.
  assert (0 < 10 ^ Z.of_nat e) by (apply Z.pow_pos_nonneg; lia).
  rewrite wrapU_small by (unfold inU; nia). rewrite IH; lia.
Qed.

Lemma amount_range a : 0 <= a < 2 ^ 60 → inU 64 (compressTxOutAmount a).
Proof.
  intros _. unfold compressTxOutAmount. destruct (a =? 0); [unfold inU; lia|].
  destruct (tenLoop 9 a 0) as [a' e]. destruct (e <? 9); by apply wrapU_in.
Qed.

Lemma amount_roundtrip a : 0 <= a < 2 ^ 60 → decompressTxOutAmount (compressTxOutAmount a) = a.
Proof.
  intros Ha. unfold compressTxOutAmount. destruct (Z.eqb_spec a 0) as [->|Hz]; [done|].
  destruct (tenLoop 9 a 0) as [a' e] eqn:E. apply tenLoop_spec in E as (Ha' & He & Hae & Hm); [|lia|lia|lia].
  rewrite Z.sub_0_r in Hae. assert (1 <= 10 ^ e) by (pose proof (Z.pow_pos_nonneg 10 e); lia).
  assert (a' <= a) by nia. destruct (Z.ltb_spec e 9).
  - specialize (Hm ltac:(lia)). pose proof (Z.mod_pos_bound a' 10 ltac:(lia)). pose proof (Z.div_mod a' 10 ltac:(lia)).
    assert (0 <= a' / 10) by (apply Z.div_pos; lia).
    set (q := a' / 10) in *. set (d := a' mod 10) in *.
    rewrite wrapU_small by (unfold inU; lia). unfold decompressTxOutAmount.
    destruct (Z.eqb_spec (1 + 10 * (9 * q + d - 1) + e) 0); [lia|].
    replace (1 + 10 * (9 * q + d - 1) + e - 1) with (e + (9 * q + d - 1) * 10) by lia.
    rewrite Z_mod_plus_full, (Z.mod_small e 10), Z.div_add, (Z.div_small e 10), Z.add_0_l by lia.
    destruct (Z.ltb_spec e 9); [|lia].
    replace (9 * q + d - 1) with ((d - 1) + q * 9) by lia.
    rewrite Z_mod_plus_full, (Z.mod_small (d - 1) 9), Z.div_add, (Z.div_small (d - 1) 9), Z.add_0_l by lia.
    rewrite wrapU_small by (unfold inU; lia). replace (q * 10 + (d - 1 + 1)) with a' by lia.
    rewrite timesTen_spec; rewrite ?Z2Nat.id by lia; lia.
  - assert (e = 9) as -> by lia. rewrite wrapU_small by (unfold inU; lia). unfold decompressTxOutAmount.
    destruct (Z.eqb_spec (10 + 10 * (a' - 1)) 0); [lia|].
    replace (10 + 10 * (a' - 1) - 1) with (9 + (a' - 1) * 10) by lia.
    rewrite Z_mod_plus_full, Z.div_add by lia. change (9 mod 10) with 9. change (9 / 10) with 0.
    change (9 <? 9) with false. cbv iota. rewrite Z.add_0_l, wrapU_small by (unfold inU; lia).
    rewrite timesTen_spec; change (Z.of_nat (Z.to_nat 9)) with 9; lia.
Qed.

(** ** Facts about scripts *)
Section script_facts.
Context `{SecpLaws}.

Lemma isPubKeyHash_Some s h : isPubKeyHash s = Some h →
  s = [OP_DUP; xa9; x14] ++ h ++ [OP_EQUALVERIFY; OP_CHECKSIG] ∧ length h = 20%nat.
Proof.
  unfold isPubKeyHash. destruct (Nat.eqb_spec (length s) 25) as [Hl|]; [|done]. cbn [andb].
  case_bool_decide as H1; [|done]. case_bool_decide as H2; [|done]. intros [= <-]. cbn [andb].
  rewrite <- H1, <- H2, !slice_join, length_slice by lia. split; [|done]. symmetry. by apply slice_all.
Qed.

Lemma isScriptHash_Some s h : isScriptHash s = Some h → s = [xa9; x14] ++ h ++ [x87] ∧ length h = 20%nat.
Proof.
  unfold isScriptHash. destruct (Nat.eqb_spec (length s) 23) as [Hl|]; [|done]. cbn [andb].
  case_bool_decide as H1; [|done]. case_bool_decide as H2; [|done]. intros [= <-]. cbn [andb].
  rewrite <- H1, <- H2, !slice_join, length_slice by lia. split; [|done]. symmetry. by apply slice_all.
Qed.

(** A recognised key: compressed, or uncompressed with its coordinates. *)
Lemma isPubKey_Some s k : isPubKey s = Some k →
  (∃ fmt x, (fmt = x02 ∨ fmt = x03) ∧ k = fmt :: x ∧ length x = 32%nat ∧ s = [x21] ++ k ++ [OP_CHECKSIG])
  ∨ (∃ x y b key, k = x04 :: x ++ y ++ [b] ∧ length x = 32%nat ∧ length (y ++ [b]) = 32%nat
      ∧ secp_ParsePubKey k = Some key ∧ s = [x41] ++ k ++ [OP_CHECKSIG]).
Proof.
  unfold isPubKey, parses. intros Hk.
  destruct (_ && _) eqn:E1 in Hk; [left|destruct (_ && _) eqn:E2 in Hk; [right|done]]; injection Hk as <-.
  - apply andb_prop in E1 as [E1 _]. apply andb_prop in E1 as [E1 Ef]. apply andb_prop in E1 as [E1 Ee].
    apply andb_prop in E1 as [El Es]. apply Nat.eqb_eq in El. apply bool_decide_eq_true in Es, Ee.
    apply orb_prop in Ef. rewrite !bool_decide_eq_true in Ef.
    assert (Ek : slice 1 34 s = slice 1 2 s ++ slice 2 34 s) by (by rewrite slice_join by lia).
    assert (Esp : s = [x21] ++ slice 1 34 s ++ [OP_CHECKSIG]).
    { rewrite <- Es, <- Ee, !slice_join by lia. symmetry. by apply slice_all. }
    exists (if bool_decide (slice 1 2 s = [x02]) then x02 else x03), (slice 2 34 s).
    split; [case_bool_decide; [by left|by right]|]. split.
    { rewrite Ek. case_bool_decide as Hd; [by rewrite Hd|]. destruct Ef as [Ef|Ef]; [done|by rewrite Ef]. }
    split; [rewrite length_slice by lia; done|done].
  - apply andb_prop in E2 as [E2 Ep]. apply andb_prop in E2 as [E2 Ef]. apply andb_prop in E2 as [E2 Ee].
    apply andb_prop in E2 as [El Es]. apply Nat.eqb_eq in El. apply bool_decide_eq_true in Es, Ee, Ef, Ep.
    assert (Ek : slice 1 66 s = slice 1 2 s ++ slice 2 34 s ++ slice 34 66 s) by (by rewrite !slice_join by lia).
    destruct (exists_last (l := slice 34 66 s)) as (y & b & Ey).
    { intros Hn. pose proof (length_slice 34 66 s) as Hy. rewrite Hn in Hy. cbn in Hy. lia. }
    destruct Ep as [key Hkey]. exists (slice 2 34 s), y, b, key.
    split; [by rewrite Ek, Ef, Ey|]. split; [rewrite length_slice by lia; done|].
    split; [rewrite <- Ey, length_slice by lia; done|]. split; [done|].
    rewrite <- Es, <- Ee, !slice_join by lia. symmetry. by apply slice_all.
Qed.

(** What every writer of a script guarantees to the reader. *)
Definition scriptOk (pk : bytes) : Prop :=
  zlen (putCompressedScript pk) = compressedScriptSize pk
  ∧ (∀ s, decodeCompressedScriptSize (putCompressedScript pk ++ s) = zlen (putCompressedScript pk))
  ∧ decompressScript (putCompressedScript pk) = Ok pk.

(** The general form. *)
Lemma general_ok pk : zlen pk < 2 ^ 32 →
  let enc := putVLQ (zlen pk + numSpecialScripts) ++ pk in
  zlen enc = serializeSizeVLQ (zlen pk + numSpecialScripts) + zlen pk
  ∧ (∀ s, decodeCompressedScriptSize (enc ++ s) = zlen enc) ∧ decompressScript enc = Ok pk.
Proof.
  intros Hl enc. unfold enc. pose proof (zlen_nonneg pk) as Hn. unfold numSpecialScripts.
  assert (Hu : inU 64 (zlen pk + 6)) by (unfold inU; lia).
  pose proof (putVLQ_size _ Hu) as Hsz. set (v := putVLQ (zlen pk + 6)) in *.
  assert (Hv : 0 < zlen v < 2 ^ 32).
  { pose proof (putVLQ_length (zlen pk + 6)). unfold v. lia. }
  split; [|split].
  - by rewrite zlen_app, Hsz.
  - intros s. unfold decodeCompressedScriptSize. rewrite <- app_assoc. unfold v.
    rewrite deserializeVLQ_put by done. fold v.
    destruct (Z.eqb_spec (zlen v) 0); [lia|]. unfold cstPayToPubKeyHash, cstPayToScriptHash, cstPayToPubKeyUncomp5.
    destruct (Z.eqb_spec (zlen pk + 6) 0); [lia|]. destruct (Z.eqb_spec (zlen pk + 6) 1); [lia|]. cbn [orb].
    destruct (Z.leb_spec (zlen pk + 6) 5); [lia|]. unfold numSpecialScripts.
    rewrite wrapU_small by (unfold inU; lia). rewrite wrapS_small by (unfold inS; lia). rewrite zlen_app. lia.
  - unfold decompressScript. destruct (Nat.eqb_spec (length (v ++ pk)) 0) as [E|_].
    { rewrite length_app in E. unfold zlen in Hv. lia. }
    unfold v. rewrite deserializeVLQ_put by done. fold v.
    assert (Hd : drop (Z.to_nat (zlen v)) (v ++ pk) = pk).
    { unfold zlen. rewrite Nat2Z.id. apply drop_app_length. }
    rewrite Hd. unfold cstPayToPubKeyHash, cstPayToScriptHash, cstPayToPubKeyComp3, cstPayToPubKeyUncomp5.
    destruct (Z.eqb_spec (zlen pk + 6) 0); [lia|]. destruct (Z.eqb_spec (zlen pk + 6) 1); [lia|].
    destruct (Z.leb_spec (zlen pk + 6) 3); [lia|]. destruct (Z.leb_spec (zlen pk + 6) 5); [lia|].
    unfold numSpecialScripts. replace (zlen pk + 6 - 6) with (zlen pk) by lia.
    rewrite wrapU_small by (unfold inU; lia). rewrite wrapS_small by (unfold inS; lia).
    destruct (Z.ltb_spec (zlen pk) 0); [lia|].
    unfold zlen. rewrite Nat2Z.id. rewrite Nat.ltb_irrefl. by rewrite firstn_all.
Qed.

(** A one-byte tag followed by the data of a special script. *)
Lemma tag_read t d s : 0 <= t < 6 →
  deserializeVLQ (z2b t :: d ++ s) = (t, 1).
Proof.
  intros Ht. unfold deserializeVLQ. cbn [deserializeVLQLoop].
  assert (Hb : b2z (z2b t) = t) by (rewrite b2z_z2b; apply Z.mod_small; lia).
  rewrite vlq_step, cont_bit, Hb by lia. destruct (Z.leb_spec 128 t); [lia|]. cbn [negb].
  by rewrite Z.mod_small by lia.
Qed.

Lemma special_size t d s : 0 <= t < 6 →
  decodeCompressedScriptSize ((z2b t :: d) ++ s) = if t <=? 1 then 21 else 33.
Proof.
  intros Ht. unfold decodeCompressedScriptSize. rewrite <- app_comm_cons, tag_read by done.
  change (1 =? 0) with false. cbv iota. unfold cstPayToPubKeyHash, cstPayToScriptHash, cstPayToPubKeyUncomp5.
  destruct (Z.leb_spec t 1), (Z.eqb_spec t 0), (Z.eqb_spec t 1); try lia; cbn [orb]; try done.
  destruct (Z.leb_spec t 5); [done|lia].
Qed.

Lemma take_exact {A} n (x r : list A) : length x = n → take n (x ++ r) = x.
Proof. intros <-. apply take_app_length. Qed.

Lemma decompress_pkh h : length h = 20%nat →
  decompressScript (z2b 0 :: h) = Ok ([OP_DUP; xa9; x14] ++ h ++ [OP_EQUALVERIFY; OP_CHECKSIG]).
Proof.
  intros Hh. unfold decompressScript. rewrite <- (app_nil_r h), tag_read, app_nil_r by lia.
  change (drop (Z.to_nat 1) (z2b 0 :: h)) with h. cbn [length Nat.eqb Z.eqb cstPayToPubKeyHash].
  rewrite Hh, (firstn_all2 h) by lia. done.
Qed.

Lemma decompress_sh h : length h = 20%nat → decompressScript (z2b 1 :: h) = Ok ([xa9; x14] ++ h ++ [x87]).
Proof.
  intros Hh. unfold decompressScript. rewrite <- (app_nil_r h), tag_read, app_nil_r by lia.
  change (drop (Z.to_nat 1) (z2b 1 :: h)) with h.
  cbn [length Nat.eqb Z.eqb cstPayToPubKeyHash cstPayToScriptHash Pos.eqb].
  rewrite Hh, (firstn_all2 h) by lia. done.
Qed.

Lemma decompress_comp fmt x : fmt = x02 ∨ fmt = x03 → length x = 32%nat →
  decompressScript (fmt :: x) = Ok ([x21] ++ (fmt :: x) ++ [OP_CHECKSIG]).
Proof.
  intros Hf Hx. assert (Ht : ∃ t, fmt = z2b t ∧ 2 <= t <= 3) by (destruct Hf as [->| ->]; [by exists 2|by exists 3]).
  destruct Ht as (t & -> & Ht). unfold decompressScript. rewrite <- (app_nil_r x), tag_read, app_nil_r by lia.
  change (drop (Z.to_nat 1) (z2b t :: x)) with x. cbn [length Nat.eqb].
  unfold cstPayToPubKeyHash, cstPayToScriptHash, cstPayToPubKeyComp3.
  destruct (Z.eqb_spec t 0); [lia|]. destruct (Z.eqb_spec t 1); [lia|]. destruct (Z.leb_spec t 3); [|lia].
  rewrite Hx, (firstn_all2 x) by lia. done.
Qed.

Lemma parity_tag (b : byte) : Z.lor (b2z x04) (Z.land (b2z b) 0x01) = 4 + b2z b mod 2.
Proof. by destruct b. Qed.

Lemma decompress_uncomp x y b key : length x = 32%nat → length (y ++ [b]) = 32%nat →
  secp_ParsePubKey (x04 :: x ++ y ++ [b]) = Some key →
  decompressScript (z2b (4 + b2z b mod 2) :: x) = Ok ([x41] ++ (x04 :: x ++ y ++ [b]) ++ [OP_CHECKSIG]).
Proof.
  intros Hx Hy Hk. pose proof (Z.mod_pos_bound (b2z b) 2 ltac:(lia)). set (p := b2z b mod 2) in *.
  unfold decompressScript. rewrite <- (app_nil_r x) at 2. rewrite tag_read by lia.
  cbn [length Nat.eqb]. unfold cstPayToPubKeyHash, cstPayToScriptHash, cstPayToPubKeyComp3, cstPayToPubKeyUncomp5.
  destruct (Z.eqb_spec (4 + p) 0); [lia|]. destruct (Z.eqb_spec (4 + p) 1); [lia|].
  destruct (Z.leb_spec (4 + p) 3); [lia|]. destruct (Z.leb_spec (4 + p) 5); [|lia].
  replace (4 + p - 2) with (2 + p) by lia. cbn [drop]. rewrite drop_0, take_exact by done. unfold p.
  rewrite (compressed_same x y b key) by done.
  rewrite (uncompressed_same x (y ++ [b]) key) by done.
  rewrite take_exact by (rewrite length_cons, length_app, Hx, Hy; done). done.
Qed.

Lemma script_ok pk : zlen pk < 2 ^ 32 → scriptOk pk.
Proof.
  intros Hl. unfold scriptOk, compressedScriptSize, putCompressedScript.
  destruct (isPubKeyHash pk) as [h|] eqn:E1.
  { apply isPubKeyHash_Some in E1 as [-> Hh]. split; [unfold zlen; rewrite length_cons, Hh; done|]. split.
    - intros s. unfold cstPayToPubKeyHash. rewrite special_size by lia. unfold zlen. by rewrite length_cons, Hh.
    - by apply decompress_pkh. }
  destruct (isScriptHash pk) as [h|] eqn:E2.
  { apply isScriptHash_Some in E2 as [-> Hh]. split; [unfold zlen; rewrite length_cons, Hh; done|]. split.
    - intros s. unfold cstPayToScriptHash. rewrite special_size by lia. unfold zlen. by rewrite length_cons, Hh.
    - by apply decompress_sh. }
  destruct (isPubKey pk) as [k|] eqn:E3; [|by apply general_ok].
  apply isPubKey_Some in E3 as [(fmt & x & Hf & -> & Hx & ->)|(x & y & b & key & -> & Hx & Hy & Hk & ->)].
  - assert (Hs : slice 0 32 x = x) by (by apply slice_all). rewrite Hs.
    replace (bool_decide (fmt = x02) || bool_decide (fmt = x03)) with true
      by (destruct Hf as [-> | ->]; done).
    assert (Hz : zlen (fmt :: x) = 33) by (unfold zlen; rewrite length_cons, Hx; done). rewrite Hz.
    split; [done|]. split; [|by apply decompress_comp].
    intros s. destruct Hf as [-> | ->]; [change x02 with (z2b 2)|change x03 with (z2b 3)];
      by rewrite special_size by lia.
  - rewrite !bool_decide_eq_false_2 by done. cbn [orb].
    assert (Hs : slice 0 32 (x ++ y ++ [b]) = x) by (unfold slice; rewrite drop_0; by apply take_exact).
    assert (Hb : (x ++ y ++ [b]) !! 63%nat = Some b).
    { rewrite length_app in Hy. cbn in Hy. replace 63%nat with (length x + (length y + 0))%nat by lia.
      rewrite lookup_app_r, Nat.add_comm, Nat.add_sub, lookup_app_r, Nat.add_comm, Nat.add_sub by lia. done. }
    rewrite Hs, Hb. cbn [default from_option id]. rewrite parity_tag.
    pose proof (Z.mod_pos_bound (b2z b) 2 ltac:(lia)). split; [unfold zlen; rewrite length_cons, Hx; done|]. split.
    + intros s. rewrite special_size by lia. destruct (Z.leb_spec (4 + b2z b mod 2) 1); [lia|].
      unfold zlen. by rewrite length_cons, Hx.
    + by apply (decompress_uncomp x y b key).
Qed.

Lemma txout_roundtrip amount pk rest : 0 <= amount < 2 ^ 60 → zlen pk < 2 ^ 32 →
  let enc := putCompressedTxOut amount pk in
  zlen enc = compressedTxOutSize amount pk
  ∧ decodeCompressedTxOut (enc ++ rest) = Ok (amount, pk, zlen enc).
Proof.
  intros Ha Hl enc. destruct (script_ok pk Hl) as (S1 & S2 & S3). pose proof (amount_range amount Ha) as Hr.
  unfold enc, putCompressedTxOut, compressedTxOutSize. set (v := putVLQ _). set (sc := putCompressedScript pk) in *.
  assert (Hv : zlen v = serializeSizeVLQ (compressTxOutAmount amount)) by (by apply putVLQ_size).
  assert (Hsc : 0 < zlen sc).
  { rewrite S1. unfold compressedScriptSize.
    pose proof (zlen_nonneg pk). destruct (isPubKeyHash pk), (isScriptHash pk), (isPubKey pk); try lia.
    rewrite <- putVLQ_size by (unfold inU, numSpecialScripts; lia).
    pose proof (putVLQ_length (zlen pk + numSpecialScripts)). lia. }
  split; [by rewrite zlen_app, Hv, S1|]. unfold decodeCompressedTxOut. rewrite <- app_assoc. unfold v.
  rewrite deserializeVLQ_put by done. fold v. pose proof (zlen_nonneg rest).
  rewrite !zlen_app. destruct (Z.leb_spec (zlen v + (zlen sc + zlen rest)) (zlen v)); [lia|].
  assert (Hd : drop (Z.to_nat (zlen v)) (v ++ sc ++ rest) = sc ++ rest)
    by (unfold zlen; rewrite Nat2Z.id; apply drop_app_length).
  rewrite Hd, S2, zlen_app. destruct (Z.ltb_spec (zlen sc + zlen rest) (zlen sc)); [lia|].
  destruct (Z.ltb_spec (zlen sc) 0); [lia|].
  replace (take (Z.to_nat (zlen sc)) (sc ++ rest)) with sc
    by (unfold zlen; rewrite Nat2Z.id; symmetry; apply take_app_length).
  rewrite S3. cbn [res_bind]. by rewrite amount_roundtrip.
Qed.
End script_facts.

(** ** Properties *)

(** Variable-length quantities are one to one: every uint64 is read back
    from its encoding, whatever follows it, with the size announced before, and
    every terminated quantity of at most nine bytes is the encoding of the value
    read from it, so that no value has two encodings. *)
Lemma vlq_one_to_one :
  (∀ n s, inU 64 n → deserializeVLQ (putVLQ n ++ s) = (n, serializeSizeVLQ n)
                     ∧ zlen (putVLQ n) = serializeSizeVLQ n)
  ∧ (∀ p b r, Forall (λ c, 128 <= b2z c) p → b2z b < 128 → (length p <= 8)%nat →
       ∃ n, inU 64 n ∧ deserializeVLQ (p ++ b :: r) = (n, zlen p + 1) ∧ putVLQ n = p ++ [b]).
Proof.
  split; [|exact put_deserializeVLQ]. intros n s Hn. pose proof (putVLQ_size n Hn) as Hs.
  by rewrite deserializeVLQ_put, Hs.
Qed.
