(* ===== verification/ChainIO.v ===== *)
(** * Serialised chain state (src/node/blockchain/chainio.go)

    The rows of the metadata buckets: unspent outputs, the spend journal, the
    main-chain index and the best state.  A bucket is a map from byte strings to
    byte strings, as the database documents it; a failing database is not
    modelled, a corrupt row is. *)
From Stdlib Require Import ZArith Lia Strings.Byte.
From stdpp Require Import base list gmap.
From S2P Require Import Prelude RuleErrors WireTx WireBlock Script Utxo Compress.
Open Scope Z_scope.

Abbreviation bucket := (gmap bytes bytes).

Section codecs.
Context `{Secp}.

(** ** The spend journal *)

(** The height is an int32 that is widened to a uint64. *)
Definition headerCode (height : Z) (isCoinBase : bool) : Z :=
  Z.lor (u64 (Z.shiftl (u64 height) 1)) (if isCoinBase then 0x01 else 0).

Definition spentTxOutHeaderCode (stxo : SpentTxOut) : Z := headerCode (stxo_Height stxo) (stxo_IsCoinBase stxo).

Definition spentTxOutSerializeSize (stxo : SpentTxOut) : Z :=
  serializeSizeVLQ (spentTxOutHeaderCode stxo)
  + compressedTxOutSize (u64 (stxo_Amount stxo)) (stxo_PkScript stxo).

Definition putSpentTxOut (stxo : SpentTxOut) : bytes :=
  putVLQ (spentTxOutHeaderCode stxo) ++ putCompressedTxOut (u64 (stxo_Amount stxo)) (stxo_PkScript stxo).

(** The record and the number of bytes read. *)
Definition decodeSpentTxOut (serialized : bytes) : res codecErr (SpentTxOut * Z) :=
  if (length serialized =? 0)%nat then Err errDeserialize else
  let '(code, offset) := deserializeVLQ serialized in
  if zlen serialized <=? offset then Err errDeserialize else
  let? (amount, pkScript, bytesRead) := decodeCompressedTxOut (drop (Z.to_nat offset) serialized) in
  Ok (mkSpentTxOut (i64 amount) pkScript (i32 (Z.shiftr code 1)) (negb (Z.land code 0x01 =? 0)),
      offset + bytesRead).

(** [numStxos] records are read; they come in reverse order and fill the result
    from its end. *)
Fixpoint journalLoop (numStxos : nat) (serialized : bytes) (stxos : list SpentTxOut)
  : res codecErr (list SpentTxOut) :=
  match numStxos with
  | O => Ok stxos
  | S k =>
      let? (stxo, n) := decodeSpentTxOut serialized in
      journalLoop k (drop (Z.to_nat n) serialized) (stxo :: stxos)
  end.

Definition numInputs (txns : list MsgTx) : nat := foldr (λ tx n, (length (tx_TxIn tx) + n)%nat) 0%nat txns.

(** A deserialisation error becomes a corruption error of the database, which is
    not a rule violation. *)
Definition dbErr (e : codecErr) : verr :=
  match e with errDeserialize => OtherError | codecPanic => RuntimePanic end.
Definition liftDb {A} (r : res codecErr A) : res verr A :=
  match r with Ok a => Ok a | Err e => Err (dbErr e) end.

Definition deserializeSpendJournalEntry (serialized : bytes) (txns : list MsgTx) : res verr (list SpentTxOut) :=
  let numStxos := numInputs txns in
  if (length serialized =? 0)%nat then
    if negb (numStxos =? 0)%nat then Err AssertError else Ok []
  else liftDb (journalLoop numStxos serialized []).

(** The slice of the summed sizes is filled from the last record to the first. *)
Definition serializeSpendJournalEntry (stxos : list SpentTxOut) : bytes :=
  concat (putSpentTxOut <$> reverse stxos).

(** A missing row reads as nil. *)
Definition dbFetchSpendJournalEntry (spendBucket : bucket) (block : Block) : res verr (list SpentTxOut) :=
  deserializeSpendJournalEntry (default [] (spendBucket !! blk_Hash block)) (drop 1 (blk_Transactions block)).

Definition dbPutSpendJournalEntry (spendBucket : bucket) (blockHash : bytes) (stxos : list SpentTxOut) : bucket :=
  <[blockHash := serializeSpendJournalEntry stxos]> spendBucket.

Definition dbRemoveSpendJournalEntry (spendBucket : bucket) (blockHash : bytes) : bucket :=
  delete blockHash spendBucket.

(** ** Unspent outputs *)
Definition outpointKey (outpoint : OutPoint) : bytes := op_Hash outpoint ++ putVLQ (op_Index outpoint).

Definition utxoEntryHeaderCode (entry : UtxoEntry) : res verr Z :=
  if IsSpent entry then Err AssertError else Ok (headerCode (ue_blockHeight entry) (IsCoinBase entry)).

Definition serializeUtxoEntry (entry : UtxoEntry) : res verr bytes :=
  if IsSpent entry then Ok [] else
  let? code := utxoEntryHeaderCode entry in
  Ok (putVLQ code ++ putCompressedTxOut (u64 (ue_amount entry)) (ue_pkScript entry)).

Definition deserializeUtxoEntry (serialized : bytes) : res codecErr UtxoEntry :=
  let '(code, offset) := deserializeVLQ serialized in
  if zlen serialized <=? offset then Err errDeserialize else
  let? (amount, pkScript, _) := decodeCompressedTxOut (drop (Z.to_nat offset) serialized) in
  Ok (mkUtxoEntry (i64 amount) pkScript (i32 (Z.shiftr code 1))
        (if negb (Z.land code 0x01 =? 0) then tfCoinBase else 0)).

Definition dbFetchUtxoEntry (utxoBucket : bucket) (outpoint : OutPoint) : res verr (option UtxoEntry) :=
  match utxoBucket !! outpointKey outpoint with
  | None => Ok None
  | Some [] => Err AssertError
  | Some serialized => let? e := liftDb (deserializeUtxoEntry serialized) in Ok (Some e)
  end.

Definition dbDeleteUtxoEntry (utxoBucket : bucket) (outpoint : OutPoint) : bucket :=
  delete (outpointKey outpoint) utxoBucket.

Definition dbPutUtxoEntry (utxoBucket : bucket) (outpoint : OutPoint) (entry : UtxoEntry) : res verr bucket :=
  if IsSpent entry then Err AssertError else
  let? serialized := serializeUtxoEntry entry in
  Ok (<[outpointKey outpoint := serialized]> utxoBucket).

(** The entries of a view, in any order [order] in which the map is visited. *)
Definition dbPutUtxoView (utxoBucket : bucket) (order : list (OutPoint * option UtxoEntry)) : res verr bucket :=
  res_foldl (λ b p,
    match p.2 with
    | None => Ok b
    | Some entry =>
        if negb (isModified entry) then Ok b
        else if IsSpent entry then Ok (dbDeleteUtxoEntry b p.1)
        else dbPutUtxoEntry b p.1 entry
    end) utxoBucket order.
End codecs.

(** ** The main-chain index and the best state *)
Definition dbPutBlockIndex (hashIndex heightIndex : bucket) (hash : bytes) (height : Z) : bucket * bucket :=
  let serializedHeight := le_encode 4 (u32 height) in
  (<[hash := serializedHeight]> hashIndex, <[serializedHeight := hash]> heightIndex).

Definition dbRemoveBlockIndex (hashIndex heightIndex : bucket) (hash : bytes) (height : Z) : bucket * bucket :=
  (delete hash hashIndex, delete (le_encode 4 (u32 height)) heightIndex).

(** [None] is [errNotInMainChain]. *)
Definition dbFetchHeightByHash (hashIndex : bucket) (hash : bytes) : option Z :=
  (λ s, i32 (le_decode (take 4 s))) <$> hashIndex !! hash.

Definition dbFetchHashByHeight (heightIndex : bucket) (height : Z) : option bytes :=
  (λ s, take 32 (s ++ replicate 32 x00)) <$> heightIndex !! le_encode 4 (u32 height).

Record bestChainState := mkBest {
  bs_hash : bytes;
  bs_height : Z;                       (* uint32 *)
  bs_totalTxns : Z;                    (* uint64 *)
  bs_workSum : Z }.

(** [big.Int.Bytes]: big endian, without leading zeros. *)
Fixpoint bigBytesLE (fuel : nat) (n : Z) : bytes :=
  match fuel with
  | O => []
  | S fuel' => if n =? 0 then [] else z2b n :: bigBytesLE fuel' (n / 256)
  end.
Definition bigBytes (n : Z) : bytes := reverse (bigBytesLE (Z.to_nat (Z.log2 n / 8 + 1)) n).

Definition serializeBestChainState (state : bestChainState) : bytes :=
  let workSumBytes := bigBytes (bs_workSum state) in
  bs_hash state ++ le_encode 4 (bs_height state) ++ le_encode 8 (bs_totalTxns state)
  ++ le_encode 4 (u32 (zlen workSumBytes)) ++ workSumBytes.

(** [None] is the corruption error. *)
Definition deserializeBestChainState (serializedData : bytes) : option bestChainState :=
  if (length serializedData <? HashSize + 16)%nat then None else
  let workSumBytesLen := le_decode (slice 44 48 serializedData) in
  let rest := drop 48 serializedData in
  if u32 (zlen rest) <? workSumBytesLen then None else
  Some (mkBest (slice 0 32 serializedData) (le_decode (slice 32 36 serializedData))
          (le_decode (slice 36 44 serializedData)) (be_decode (take (Z.to_nat workSumBytesLen) rest))).

(** The key of a header row: big-endian height, so that rows come by height. *)
Definition blockIndexKey (blockHash : bytes) (blockHeight : Z) : bytes :=
  be_encode 4 blockHeight ++ blockHash.

(** ** The store of coins *)

(** What the UTXO cache uses of the database: rows by outpoint. *)
Class CoinStore (D : Type) := {
  cs_fetch : D → OutPoint → res verr (option UtxoEntry);
  cs_put : D → OutPoint → UtxoEntry → res verr D;
  cs_delete : D → OutPoint → D }.

(** Outpoints and coins as the chain has them: 32-byte hashes, uint32 indexes,
    amounts below 2^60 (the money range is), heights in the int32 range. *)
Definition wfOp (op : OutPoint) : Prop := length (op_Hash op) = 32%nat ∧ inU 32 (op_Index op).
Definition wfCoin (c : SpentTxOut) : Prop :=
  0 <= stxo_Amount c < 2 ^ 60 ∧ zlen (stxo_PkScript c) < 2 ^ 32 ∧ 0 <= stxo_Height c < 2 ^ 31.

#[export] Instance wfOp_dec op : Decision (wfOp op).
Proof. unfold wfOp. apply _. Defined.

(** An entry as it comes from the store: no flag but the coinbase flag. *)
Definition clean (e : UtxoEntry) : Prop := ue_packedFlags e = 0 ∨ ue_packedFlags e = tfCoinBase.

(** What the store promises: it is a finite map from outpoints to coins. *)
Class CoinStoreLaws (D : Type) `{CoinStore D} := {
  cs_coin : D → OutPoint → option SpentTxOut;
  cs_wf : D → Prop;
  cs_fetch_spec d op : cs_wf d → wfOp op →
    ∃ oe, cs_fetch d op = Ok oe ∧ coinOf oe = cs_coin d op
      ∧ ∀ e, oe = Some e → clean e ∧ wfCoin (stxoOf e);
  cs_put_spec d op e : cs_wf d → wfOp op → wfCoin (stxoOf e) → IsSpent e = false →
    ∃ d', cs_put d op e = Ok d' ∧ cs_wf d'
      ∧ ∀ op', wfOp op' → cs_coin d' op' = if decide (op' = op) then Some (stxoOf e) else cs_coin d op';
  cs_delete_spec d op : cs_wf d → wfOp op →
    cs_wf (cs_delete d op)
    ∧ ∀ op', wfOp op' → cs_coin (cs_delete d op) op' = if decide (op' = op) then None else cs_coin d op' }.

(** ** Facts about the codecs *)
Section codec_facts.
Context `{SecpLaws}.

Lemma headerCode_val h cb : 0 <= h < 2 ^ 31 → headerCode h cb = 2 * h + (if cb then 1 else 0).
Proof.
  intros Hh. unfold headerCode. rewrite (wrapU_small 64 h) by (unfold inU; lia).
  rewrite Z.shiftl_mul_pow2, wrapU_small by (unfold inU; lia).
  destruct cb; [|rewrite Z.lor_0_r; lia]. rewrite Z.lor_comm, lor_add by lia. lia.
Qed.

Lemma headerCode_decode h cb : 0 <= h < 2 ^ 31 →
  inU 64 (headerCode h cb) ∧ i32 (Z.shiftr (headerCode h cb) 1) = h
  ∧ negb (Z.land (headerCode h cb) 0x01 =? 0) = cb.
Proof.
  intros Hh. rewrite headerCode_val by done. set (d := if cb then 1 else 0).
  assert (Hd : 0 <= d < 2) by (by destruct cb). split; [unfold inU; lia|]. split.
  - rewrite Z.shiftr_div_pow2 by lia. change (2 ^ 1) with 2.
    rewrite Z.mul_comm, Z.div_add_l, Z.div_small, Z.add_0_r by lia. apply wrapS_small; unfold inS; lia.
  - change 0x01 with (Z.ones 1). rewrite Z.land_ones by lia. change (2 ^ 1) with 2.
    rewrite Z.add_comm, Z.mul_comm, Z_mod_plus_full, Z.mod_small by lia. by destruct cb.
Qed.

Lemma amount_i64 a : 0 <= a < 2 ^ 60 → u64 a = a ∧ i64 a = a.
Proof. intros. split; [apply wrapU_small; unfold inU; lia|apply wrapS_small; unfold inS; lia]. Qed.

(** A header code followed by a compressed output, the form of both rows. *)
Lemma row_decode code amount pk rest : inU 64 code → 0 <= amount < 2 ^ 60 → zlen pk < 2 ^ 32 →
  let enc := putVLQ code ++ putCompressedTxOut amount pk in
  deserializeVLQ (enc ++ rest) = (code, zlen (putVLQ code))
  ∧ zlen (putVLQ code) < zlen (enc ++ rest)
  ∧ decodeCompressedTxOut (drop (Z.to_nat (zlen (putVLQ code))) (enc ++ rest))
    = Ok (amount, pk, zlen (putCompressedTxOut amount pk)).
Proof.
  intros Hc Ha Hp enc. unfold enc. rewrite <- app_assoc. split; [by apply deserializeVLQ_put|].
  destruct (txout_roundtrip amount pk rest Ha Hp) as [Hs Hd]. split.
  - rewrite !zlen_app. unfold putCompressedTxOut. rewrite zlen_app.
    pose proof (putVLQ_length (compressTxOutAmount amount)). pose proof (zlen_nonneg (putCompressedScript pk)).
    pose proof (zlen_nonneg rest). lia.
  - unfold zlen at 1. rewrite Nat2Z.id, drop_app_length. done.
Qed.

Lemma decodeSpentTxOut_put c rest : wfCoin c →
  decodeSpentTxOut (putSpentTxOut c ++ rest) = Ok (c, zlen (putSpentTxOut c)).
Proof.
  destruct c as [a pk h cb]. intros (Ha & Hp & Hh). cbn in Ha, Hp, Hh.
  unfold putSpentTxOut, spentTxOutHeaderCode. cbn [stxo_Amount stxo_PkScript stxo_Height stxo_IsCoinBase].
  destruct (headerCode_decode h cb Hh) as (Hc & Hch & Hcb). destruct (amount_i64 a Ha) as [-> Hi].
  destruct (row_decode (headerCode h cb) a pk rest Hc Ha Hp) as (Hv & Hl & Hd). unfold decodeSpentTxOut.
  set (enc := putVLQ _ ++ putCompressedTxOut a pk) in *. destruct (Nat.eqb_spec (length (enc ++ rest)) 0) as [E|_].
  { pose proof (putVLQ_length (headerCode h cb)). unfold zlen in *. lia. }
  rewrite Hv. destruct (Z.leb_spec (zlen (enc ++ rest)) (zlen (putVLQ (headerCode h cb)))); [lia|].
  rewrite Hd. cbn [res_bind]. rewrite Hi, Hch, Hcb. unfold enc. by rewrite zlen_app.
Qed.

Lemma journalLoop_put l acc rest : Forall wfCoin l →
  journalLoop (length l) (concat (putSpentTxOut <$> l) ++ rest) acc = Ok (reverse l ++ acc).
Proof.
  intros Hl. revert acc. induction Hl as [|c l Hc Hl IH]; intros acc; [done|].
  csimpl. rewrite <- app_assoc. cbn [journalLoop]. rewrite decodeSpentTxOut_put by done. cbn [res_bind].
  unfold zlen. rewrite Nat2Z.id, drop_app_length, IH, reverse_cons, <- app_assoc. done.
Qed.

Lemma putSpentTxOut_nonempty c : (0 < length (putSpentTxOut c))%nat.
Proof.
  unfold putSpentTxOut. rewrite length_app. pose proof (putVLQ_length (spentTxOutHeaderCode c)). unfold zlen in *. lia.
Qed.

(** ** Facts about the rows of unspent outputs *)
Lemma outpointKey_inj op op' : wfOp op → wfOp op' → outpointKey op = outpointKey op' → op = op'.
Proof.
  destruct op as [h i], op' as [h' i']. intros [Hl Hi] [Hl' Hi'] E. unfold outpointKey in E.
  cbn [op_Hash op_Index] in *.
  apply app_inj_1 in E as [-> E]; [|congruence]. f_equal.
  assert (Hu : inU 64 i) by (unfold inU in *; lia). assert (Hu' : inU 64 i') by (unfold inU in *; lia).
  pose proof (deserializeVLQ_put i [] Hu) as H1. rewrite E, deserializeVLQ_put in H1 by done. congruence.
Qed.

Lemma deserializeUtxoEntry_clean s e : deserializeUtxoEntry s = Ok e → clean e.
Proof.
  unfold deserializeUtxoEntry. destruct (deserializeVLQ s) as [code off]. destruct (_ <=? _); [done|]. intros Hd.
  apply res_bind_Ok in Hd as ([[a pk] n] & _ & Hd). injection Hd as <-. unfold clean. cbn. destruct (negb _); auto.
Qed.

Lemma clean_flags e : clean e →
  IsSpent e = false ∧ isModified e = false ∧ isFresh e = false.
Proof. unfold clean, IsSpent, isModified, isFresh, hasFlag. by intros [-> | ->]. Qed.

Lemma serialize_deserialize e : wfCoin (stxoOf e) → IsSpent e = false →
  ∃ s e', serializeUtxoEntry e = Ok s ∧ s ≠ [] ∧ deserializeUtxoEntry s = Ok e' ∧ clean e' ∧ stxoOf e' = stxoOf e.
Proof.
  intros (Ha & Hp & Hh) Hs. cbn in Ha, Hp, Hh. unfold serializeUtxoEntry, utxoEntryHeaderCode. rewrite Hs. cbn [res_bind].
  destruct (headerCode_decode (ue_blockHeight e) (IsCoinBase e) Hh) as (Hc & Hch & Hcb).
  destruct (amount_i64 (ue_amount e) Ha) as [-> Hi].
  destruct (row_decode (headerCode (ue_blockHeight e) (IsCoinBase e)) (ue_amount e) (ue_pkScript e) [] Hc Ha Hp)
    as (Hv & Hl & Hd). rewrite app_nil_r in *.
  set (enc := putVLQ _ ++ putCompressedTxOut (ue_amount e) (ue_pkScript e)) in *.
  eexists enc, _. split; [done|]. split.
  { intros E. rewrite E in Hl. pose proof (putVLQ_length (headerCode (ue_blockHeight e) (IsCoinBase e))).
    change (zlen (@nil byte)) with 0 in Hl. lia. }
  unfold deserializeUtxoEntry. rewrite Hv.
  destruct (Z.leb_spec (zlen enc) (zlen (putVLQ (headerCode (ue_blockHeight e) (IsCoinBase e))))); [lia|].
  rewrite Hd. cbn [res_bind]. rewrite Hi, Hch, Hcb. split; [done|]. unfold clean, stxoOf. cbn.
  split; [destruct (IsCoinBase e); auto|]. f_equal. unfold IsCoinBase at 1, hasFlag. cbn. by destruct (IsCoinBase e).
Qed.
End codec_facts.

(** ** The bucket as a store of coins *)
Section store.
Context `{SecpLaws}.

#[export] Instance bucket_store : CoinStore bucket := {
  cs_fetch := dbFetchUtxoEntry;
  cs_put := dbPutUtxoEntry;
  cs_delete := dbDeleteUtxoEntry }.

(** The coin a row stands for. *)
Definition rowCoin (b : bucket) (op : OutPoint) : option SpentTxOut :=
  s ← b !! outpointKey op;
  match deserializeUtxoEntry s with Ok e => Some (stxoOf e) | Err _ => None end.

Definition rowOk (s : bytes) : Prop := s ≠ [] ∧ ∃ e, deserializeUtxoEntry s = Ok e ∧ wfCoin (stxoOf e).
Definition bucketOk (b : bucket) : Prop := map_Forall (λ _ s, rowOk s) b.

#[export] Program Instance bucket_laws : CoinStoreLaws bucket := {
  cs_coin := rowCoin;
  cs_wf := bucketOk }.
Next Obligation.
  intros b op Hb _. unfold cs_fetch. cbn. unfold dbFetchUtxoEntry, rowCoin.
  destruct (b !! outpointKey op) as [s|] eqn:E; [|by eexists]. destruct (Hb _ _ E) as (Hn & e & He & Hw).
  destruct s as [|c s]; [done|]. rewrite He. cbn [liftDb res_bind]. eexists. split; [done|].
  apply deserializeUtxoEntry_clean in He as Hc. destruct (clean_flags e Hc) as (Hs & _ & _).
  cbn. rewrite He, Hs. split; [done|]. by intros e' [= <-].
Qed.
Next Obligation.
  intros b op e Hb Ho Hw Hs. unfold cs_put. cbn. unfold dbPutUtxoEntry. rewrite Hs.
  destruct (serialize_deserialize e Hw Hs) as (s & e' & -> & Hn & Hd & Hc & He). cbn [res_bind].
  eexists. split; [done|]. split.
  - apply map_Forall_insert_2; [|done]. split; [done|]. exists e'. by rewrite He.
  - intros op' Ho'. unfold rowCoin. destruct (decide (op' = op)) as [->|Hne].
    + rewrite lookup_insert_eq. cbn. by rewrite Hd, He.
    + rewrite lookup_insert_ne; [done|]. intros E. apply Hne. symmetry. by apply outpointKey_inj.
Qed.
Next Obligation.
  intros b op Hb Ho. split; [by apply map_Forall_delete|]. intros op' Ho'. unfold rowCoin, cs_delete. cbn.
  unfold dbDeleteUtxoEntry. destruct (decide (op' = op)) as [->|Hne].
  - by rewrite lookup_delete_eq.
  - rewrite lookup_delete_ne; [done|]. intros E. apply Hne. symmetry. by apply outpointKey_inj.
Qed.
End store.

(** ** Facts about the best state *)
Lemma bigBytesLE_spec f n : 0 <= n < 256 ^ Z.of_nat f →
  le_decode (bigBytesLE f n) = n ∧ (length (bigBytesLE f n) <= f)%nat.
Proof.
  revert n. induction f as [|f IH]; intros n Hn; [change (256 ^ Z.of_nat 0) with 1 in Hn; split; [change (le_decode (bigBytesLE 0 n)) with 0; lia|cbn; lia]|].
  rewrite Nat2Z.inj_succ, Z.pow_succ_r in Hn by lia. cbn [bigBytesLE]. destruct (Z.eqb_spec n 0) as [->|Hz]; [split; [done|cbn; lia]|].
  destruct (IH (n / 256)) as [IH1 IH2].
  { split; [apply Z.div_pos; lia|apply Z.div_lt_upper_bound; lia]. }
  cbn [le_decode length]. rewrite IH1, b2z_z2b. split; [|lia]. pose proof (Z.div_mod n 256). lia.
Qed.

Lemma bigBytes_spec n : 0 <= n < 2 ^ 512 → be_decode (bigBytes n) = n ∧ zlen (bigBytes n) <= 64.
Proof.
  intros Hn. unfold be_decode, bigBytes, zlen. rewrite reverse_involutive, length_reverse.
  set (f := Z.to_nat (Z.log2 n / 8 + 1)).
  assert (Hl : 0 <= Z.log2 n < 512).
  { split; [apply Z.log2_nonneg|]. destruct (decide (n = 0)) as [->|]; [cbn; lia|]. apply Z.log2_lt_pow2; lia. }
  assert (Hd : 0 <= Z.log2 n / 8 < 64) by (split; [apply Z.div_pos|apply Z.div_lt_upper_bound]; lia).
  assert (Hf : Z.of_nat f = Z.log2 n / 8 + 1) by (unfold f; lia).
  destruct (bigBytesLE_spec f n) as [-> H2]; [|lia]. split; [lia|]. destruct (decide (n = 0)) as [->|].
  { apply Z.pow_pos_nonneg; lia. }
  rewrite pow256, Hf. destruct (Z.log2_spec n) as [_ Hu]; [lia|]. eapply Z.lt_le_trans; [exact Hu|].
  apply Z.pow_le_mono_r; [lia|]. pose proof (Z.div_mod (Z.log2 n) 8). pose proof (Z.mod_pos_bound (Z.log2 n) 8). lia.
Qed.

(** ** Properties *)
Section properties.
Context `{SecpLaws}.

(** The spend journal: the records written for a block, one per input of
    its transactions other than the coinbase, are read back exactly and in
    order, so that a block can be disconnected from the database alone. *)
Lemma spend_journal_roundtrip (spendBucket : bucket) (block : Block) (stxos : list SpentTxOut)
  (Hw : Forall wfCoin stxos) (Hn : length stxos = countSpentOutputs block) :
  dbFetchSpendJournalEntry (dbPutSpendJournalEntry spendBucket (blk_Hash block) stxos) block = Ok stxos.
Proof.
  unfold dbFetchSpendJournalEntry, dbPutSpendJournalEntry. rewrite lookup_insert_eq. cbn [default from_option id].
  unfold deserializeSpendJournalEntry, serializeSpendJournalEntry. fold (numInputs (drop 1 (blk_Transactions block))) in Hn.
  unfold countSpentOutputs in Hn. fold (numInputs (drop 1 (blk_Transactions block))) in Hn. rewrite <- Hn.
  destruct stxos as [|c stxos]; [done|]. rewrite reverse_cons, fmap_app, concat_app, length_app. csimpl.
  rewrite app_nil_r. pose proof (putSpentTxOut_nonempty c).
  destruct (Nat.eqb_spec (length (concat (putSpentTxOut <$> reverse stxos)) + length (putSpentTxOut c)) 0); [lia|].
  pose proof (journalLoop_put (reverse (c :: stxos)) [] [] ltac:(by apply Forall_reverse)) as Hj.
  rewrite length_reverse, app_nil_r, reverse_involutive, reverse_cons, fmap_app, concat_app in Hj. csimpl in Hj.
  rewrite !app_nil_r in Hj. by rewrite Hj.
Qed.

(** What a view changes: its modified entries. *)
Definition overlay (v : UtxoViewpoint) (f : OutPoint → option SpentTxOut) (op : OutPoint) : option SpentTxOut :=
  match LookupEntry v op with
  | Some e => if isModified e then coinOf (Some e) else f op
  | None => f op
  end.

Lemma putView_spec order b : bucketOk b → NoDup order.*1 →
  Forall (λ p : OutPoint * option UtxoEntry, wfOp p.1 ∧ ∀ e, p.2 = Some e → wfCoin (stxoOf e)) order →
  ∃ b', dbPutUtxoView b order = Ok b' ∧ bucketOk b'
    ∧ ∀ op, wfOp op → rowCoin b' op = overlay (mkView (list_to_map order) []) (rowCoin b) op.
Proof.
  intros Hb Hnd Hw. revert b Hb Hnd. induction Hw as [|[op oe] order [Ho He] Hw IH]; intros b Hb Hnd.
  { exists b. split; [done|]. split; [done|]. intros op _. unfold overlay, LookupEntry. cbn. by rewrite lookup_empty. }
  csimpl in Hnd. apply NoDup_cons in Hnd as [Hni Hnd]. cbn in He, Ho.
  assert (Hstep : ∃ b1, (match oe with
      | None => Ok b
      | Some e => if negb (isModified e) then Ok b else if IsSpent e then Ok (dbDeleteUtxoEntry b op)
                  else dbPutUtxoEntry b op e end) = Ok b1 ∧ bucketOk b1
      ∧ ∀ op', wfOp op' → rowCoin b1 op' =
          if decide (op' = op) then match oe with
            | Some e => if isModified e then coinOf (Some e) else rowCoin b op | None => rowCoin b op end
          else rowCoin b op').
  { destruct oe as [e|]; [|exists b; split; [done|]; split; [done|]; intros op' _; by case_decide; subst].
    destruct (isModified e); cbn [negb];
      [|exists b; split; [done|]; split; [done|]; intros op' _; by case_decide; subst].
    cbn [coinOf mbind option_bind]. destruct (IsSpent e) eqn:Es.
    - destruct (cs_delete_spec (CoinStoreLaws := bucket_laws) b op Hb Ho) as [Hb1 Hc]. eexists. split; [done|]. split; [done|]. exact Hc.
    - destruct (cs_put_spec (CoinStoreLaws := bucket_laws) b op e Hb Ho (He e eq_refl) Es) as (b1 & E & Hb1 & Hc). exists b1. done. }
  destruct Hstep as (b1 & E1 & Hb1 & Hc1). destruct (IH b1 Hb1 Hnd) as (b2 & E2 & Hb2 & Hc2).
  exists b2. split; [|split; [done|]].
  { unfold dbPutUtxoView in *. cbn [res_foldl snd fst]. rewrite E1. exact E2. }
  intros op' Ho'. rewrite Hc2 by done. unfold overlay, LookupEntry. cbn [entries list_to_map foldr fst snd].
  destruct (decide (op' = op)) as [->|Hne].
  - rewrite lookup_insert_eq, (not_elem_of_list_to_map_1 order op Hni). cbn [mjoin option_join]. rewrite Hc1 by done.
    rewrite decide_True by done. by destruct oe.
  - rewrite lookup_insert_ne by done. rewrite Hc1, decide_False by done. done.
Qed.

(** Writing a view to the database: whatever order the map is visited in,
    the write succeeds, every row still decodes, and the rows then hold exactly
    the old coins overlaid with the modified entries of the view (spent ones
    removed). *)
Lemma view_written (b : bucket) (v : UtxoViewpoint) (order : list (OutPoint * option UtxoEntry))
  (Hb : bucketOk b) (Hord : order ≡ₚ map_to_list (entries v))
  (Hw : map_Forall (λ op oe, wfOp op ∧ ∀ e, oe = Some e → wfCoin (stxoOf e)) (entries v)) :
  ∃ b', dbPutUtxoView b order = Ok b' ∧ bucketOk b'
    ∧ ∀ op, wfOp op → rowCoin b' op = overlay v (rowCoin b) op.
Proof.
  assert (Hnd : NoDup order.*1).
  { eapply (NoDup_Permutation_proper _ _ (fmap_Permutation fst _ _ Hord)), NoDup_fst_map_to_list. }
  assert (El : list_to_map order = entries v).
  { rewrite (list_to_map_proper _ _ Hnd Hord). apply list_to_map_to_list. }
  destruct (putView_spec order b Hb Hnd) as (b' & E & Hb' & Hc).
  - apply map_Forall_to_list in Hw. rewrite Hord. eapply Forall_impl; [exact Hw|by intros [op oe]].
  - exists b'. split; [done|]. split; [done|]. intros op Ho. rewrite Hc, El by done. done.
Qed.
End properties.

(** The best state is read back as it was written. *)
Lemma best_state_roundtrip (st : bestChainState)
  (Hh : length (bs_hash st) = 32%nat) (Hht : inU 32 (bs_height st)) (Ht : inU 64 (bs_totalTxns st))
  (Hw : 0 <= bs_workSum st < 2 ^ 512) :
  deserializeBestChainState (serializeBestChainState st) = Some st.
Proof.
  destruct st as [hash height txns work]. cbn [bs_hash bs_height bs_totalTxns bs_workSum] in *.
  destruct (bigBytes_spec work Hw) as [Hb Hl]. pose proof (zlen_nonneg (bigBytes work)).
  unfold deserializeBestChainState, serializeBestChainState. cbn [bs_hash bs_height bs_totalTxns bs_workSum].
  set (wb := bigBytes work) in *. rewrite (wrapU_small 32 (zlen wb)) by (unfold inU; lia).
  pose proof (length_le_encode 4 height). pose proof (length_le_encode 8 txns). pose proof (length_le_encode 4 (zlen wb)).
  set (s := hash ++ _). assert (Hs : length s = (48 + length wb)%nat).
  { unfold s. rewrite !length_app. lia. }
  destruct (Nat.ltb_spec (length s) (HashSize + 16)); [unfold HashSize in *; lia|].
  assert (S1 : slice 0 32 s = hash) by (unfold s; by slices).
  assert (S2 : slice 32 36 s = le_encode 4 height) by (unfold s; by slices).
  assert (S3 : slice 36 44 s = le_encode 8 txns) by (unfold s; by slices).
  assert (S4 : slice 44 48 s = le_encode 4 (zlen wb)) by (unfold s; by slices).
  assert (S5 : drop 48 s = wb).
  { unfold s. rewrite !app_assoc. apply drop_app_length'. rewrite !length_app. lia. }
  rewrite S1, S2, S3, S4, S5. rewrite !(le_roundtrip 4 32) by (done || unfold inU; lia).
  rewrite (le_roundtrip 8 64) by done. rewrite wrapU_small by (unfold inU; lia).
  destruct (Z.ltb_spec (zlen wb) (zlen wb)); [lia|]. unfold zlen at 1. rewrite Nat2Z.id, firstn_all. by rewrite Hb.
Qed.

(** ** A toy curve: the points (x, 0) and (x, 1) *)
Module ToySecp.
Definition zeros : bytes := replicate 31 x00.

#[export] Instance toySecp : Secp := {
  PublicKey := bytes;
  secp_ParsePubKey k :=
    match k with
    | x04 :: p => if (length p =? 64)%nat && bool_decide (slice 32 63 p = zeros)
                     && (bool_decide (slice 63 64 p = [x00]) || bool_decide (slice 63 64 p = [x01]))
                  then Some k else None
    | x02 :: x => if (length x =? 32)%nat then Some (x04 :: x ++ zeros ++ [x00]) else None
    | x03 :: x => if (length x =? 32)%nat then Some (x04 :: x ++ zeros ++ [x01]) else None
    | _ => None
    end;
  SerializeUncompressed k := k }.

#[export] Instance toySecpLaws : SecpLaws.
Proof.
  split.
  - intros x y k Hx Hy. cbn. destruct (_ && _); [|done]. by intros [= <-].
  - intros x y b k Hx Hy. cbn [secp_ParsePubKey toySecp]. destruct (_ && _) eqn:E; [|done]. intros [= <-].
    apply andb_prop in E as [E Eb]. apply andb_prop in E as [_ Ez]. apply bool_decide_eq_true in Ez.
    rewrite length_app in Hy. cbn in Hy. assert (Hl : length y = 31%nat) by lia.
    assert (S1 : slice 32 63 (x ++ y ++ [b]) = y) by (by slices).
    assert (S2 : slice 63 64 (x ++ y ++ [b]) = [b]) by (by slices).
    rewrite S1 in Ez. rewrite S2 in Eb. subst y. apply orb_prop in Eb as [Eb|Eb]; apply bool_decide_eq_true in Eb;
      injection Eb as ->; cbn; by rewrite Hx.
Qed.

Definition coin : SpentTxOut := mkSpentTxOut 5000 ([x51; x20] ++ replicate 32 x07) 9 true.
Definition block : Block :=
  mkBlock [mkMsgTx 1 [] [] 0; mkMsgTx 1 [mkTxIn (mkOutPoint (replicate 32 x05) 1) [] [] 0] [] 0] 10 [x01] [x02].
Definition entry : UtxoEntry := mkUtxoEntry 5000 ([x51; x20] ++ replicate 32 x07) 9 5.
Definition op : OutPoint := mkOutPoint (replicate 32 x05) 1.
End ToySecp.
#[local] Existing Instances ToySecp.toySecp ToySecp.toySecpLaws.

Lemma spend_journal_roundtrip_witness :
  dbFetchSpendJournalEntry (dbPutSpendJournalEntry ∅ [x01] [ToySecp.coin]) ToySecp.block = Ok [ToySecp.coin].
Proof.
  apply (spend_journal_roundtrip ∅ ToySecp.block [ToySecp.coin]); [|reflexivity].
  apply Forall_singleton. repeat split; vm_compute; congruence.
Defined.

Lemma view_written_witness :
  ∃ b', dbPutUtxoView ∅ [(ToySecp.op, Some ToySecp.entry)] = Ok b' ∧ bucketOk b'
    ∧ ∀ op, wfOp op → rowCoin b' op = overlay (mkView {[ToySecp.op := Some ToySecp.entry]} []) (rowCoin ∅) op.
Proof.
  apply (view_written ∅ (mkView {[ToySecp.op := Some ToySecp.entry]} []) [(ToySecp.op, Some ToySecp.entry)]).
  - apply map_Forall_empty.
  - cbn [entries]. by rewrite map_to_list_singleton.
  - apply map_Forall_singleton. split; [by apply (bool_decide_unpack _); vm_compute|].
    intros e [= <-]. repeat split; vm_compute; congruence.
Defined.

Lemma best_state_roundtrip_witness :
  let st := mkBest (replicate 32 x09) 16 120 65537 in
  deserializeBestChainState (serializeBestChainState st) = Some st.
Proof. apply best_state_roundtrip; repeat split; vm_compute; congruence. Defined.
