(* ===== verification/SizeHelper.v ===== *)
(** * The size of a Go map (src/node/blockchain/sizehelper.go)

    The estimate of what a map allocates, by which the UTXO cache sizes its
    maps and decides when to flush.  [uintptr] and [int] have 64 bits. *)
From Stdlib Require Import ZArith Lia.
From stdpp Require Import base list.
From S2P Require Import Prelude.
Open Scope Z_scope.

Definition outpointSize : Z := 36.
Definition uint64Size : Z := 8.
Definition bucketSize : Z := 16 + uint64Size * outpointSize + uint64Size * uint64Size.
Definition baseEntrySize : Z := 40.
Definition pubKeyHashLen : Z := 25.
Definition avgEntrySize : Z := baseEntrySize + (pubKeyHashLen + 7).

Definition MaxSmallSize : Z := 32768.
Definition smallSizeDiv : Z := 8.
Definition smallSizeMax : Z := 1024.
Definition largeSizeDiv : Z := 128.
Definition PageSize : Z := 2 ^ 13.
Definition MaxUintptr : Z := 2 ^ 64 - 1.
Definition bucketCnt : Z := 2 ^ 3.
Definition loadFactorNum : Z := 13.
Definition loadFactorDen : Z := 2.
Definition PtrSize : Z := 8.
Definition heapAddrBits : Z := 40.
Definition maxAlloc : Z := 2 ^ heapAddrBits.

Definition class_to_size : list Z :=
  [0; 8; 16; 24; 32; 48; 64; 80; 96; 112; 128; 144; 160; 176; 192; 208; 224; 240; 256; 288; 320;
   352; 384; 416; 448; 480; 512; 576; 640; 704; 768; 896; 1024; 1152; 1280; 1408; 1536; 1792; 2048;
   2304; 2688; 3072; 3200; 3456; 4096; 4864; 5376; 6144; 6528; 6784; 6912; 8192; 9472; 9728; 10240;
   10880; 12288; 13568; 14336; 16384; 18432; 19072; 20480; 21760; 24576; 27264; 28672; 32768].
Definition size_to_class8 : list Z :=
  [0; 1; 2; 3; 4; 5; 5; 6; 6; 7; 7; 8; 8; 9; 9; 10; 10; 11; 11; 12; 12; 13; 13; 14; 14; 15; 15; 16;
   16; 17; 17; 18; 18; 19; 19; 19; 19; 20; 20; 20; 20; 21; 21; 21; 21; 22; 22; 22; 22; 23; 23; 23;
   23; 24; 24; 24; 24; 25; 25; 25; 25; 26; 26; 26; 26; 27; 27; 27; 27; 27; 27; 27; 27; 28; 28; 28;
   28; 28; 28; 28; 28; 29; 29; 29; 29; 29; 29; 29; 29; 30; 30; 30; 30; 30; 30; 30; 30; 31; 31; 31;
   31; 31; 31; 31; 31; 31; 31; 31; 31; 31; 31; 31; 31; 32; 32; 32; 32; 32; 32; 32; 32; 32; 32; 32;
   32; 32; 32; 32; 32].
Definition size_to_class128 : list Z :=
  [32; 33; 34; 35; 36; 37; 37; 38; 38; 39; 39; 40; 40; 40; 41; 41; 41; 42; 43; 43; 44; 44; 44; 44;
   44; 45; 45; 45; 45; 45; 45; 46; 46; 46; 46; 47; 47; 47; 47; 47; 47; 48; 48; 48; 49; 49; 50; 51;
   51; 51; 51; 51; 51; 51; 51; 51; 51; 52; 52; 52; 52; 52; 52; 52; 52; 52; 52; 53; 53; 54; 54; 54;
   54; 55; 55; 55; 55; 55; 56; 56; 56; 56; 56; 56; 56; 56; 56; 56; 56; 57; 57; 57; 57; 57; 57; 57;
   57; 57; 57; 58; 58; 58; 58; 58; 58; 59; 59; 59; 59; 59; 59; 59; 59; 59; 59; 59; 59; 59; 59; 59;
   59; 60; 60; 60; 60; 60; 60; 60; 60; 60; 60; 60; 60; 60; 60; 60; 60; 61; 61; 61; 61; 61; 62; 62;
   62; 62; 62; 62; 62; 62; 62; 62; 62; 63; 63; 63; 63; 63; 63; 63; 63; 63; 63; 64; 64; 64; 64; 64;
   64; 64; 64; 64; 64; 64; 64; 64; 64; 64; 64; 64; 64; 64; 64; 64; 64; 65; 65; 65; 65; 65; 65; 65;
   65; 65; 65; 65; 65; 65; 65; 65; 65; 65; 65; 65; 65; 65; 66; 66; 66; 66; 66; 66; 66; 66; 66; 66;
   66; 67; 67; 67; 67; 67; 67; 67; 67; 67; 67; 67; 67; 67; 67; 67; 67; 67; 67; 67; 67; 67; 67; 67;
   67; 67; 67; 67; 67; 67; 67; 67; 67].

(** A table read; every index the code computes is in range. *)
Definition at_ (l : list Z) (i : Z) : Z := default 0 (l !! Z.to_nat i).

Definition mulUintptr (a b : Z) : Z * bool :=
  if (Z.lor a b <? 2 ^ (4 * PtrSize)) || (a =? 0) then (u64 (a * b), false)
  else (u64 (a * b), MaxUintptr / a <? b).

Definition divRoundUp (n a : Z) : Z := u64 (n + a - 1) / a.
Definition alignUp (n a : Z) : Z := Z.ldiff (u64 (n + a - 1)) (a - 1).

Definition roundupsize (size : Z) : Z :=
  if size <? MaxSmallSize then
    if size <=? smallSizeMax - 8
    then at_ class_to_size (at_ size_to_class8 (divRoundUp size smallSizeDiv))
    else at_ class_to_size (at_ size_to_class128 (divRoundUp (size - smallSizeMax) largeSizeDiv))
  else if u64 (size + PageSize) <? size then size
  else alignUp size PageSize.

(** [uintptr(1) << (b & 63)] *)
Definition bucketShift (b : Z) : Z := u64 (Z.shiftl 1 (Z.land b 63)).

Definition overLoadFactor (count B : Z) : bool :=
  (bucketCnt <? count) && (u64 (loadFactorNum * (bucketShift B / loadFactorDen)) <? u64 count).

(** [for overLoadFactor(hint, B) { B++ }]; the counter is a uint8. *)
Fixpoint loadLoop (fuel : nat) (hint B : Z) : Z :=
  match fuel with
  | S fuel' => if overLoadFactor hint B then loadLoop fuel' hint (u8 (B + 1)) else B
  | O => B
  end.
Definition loadFuel : nat := 64.

Definition calculateRoughMapSize (hint bucketSize : Z) : Z :=
  let '(mem, overflow) := mulUintptr (u64 hint) bucketSize in
  let hint := if overflow || (maxAlloc <? mem) then 0 else hint in
  let B := loadLoop loadFuel hint 0 in
  let base := bucketShift B in
  let numBuckets :=
    if 4 <=? B then
      let numBuckets := u64 (base + bucketShift (B - 4)) in
      let sz := u64 (bucketSize * numBuckets) in
      let up := roundupsize sz in
      if negb (up =? sz) then up / bucketSize else numBuckets
    else base in
  let total := fst (mulUintptr bucketSize numBuckets) in
  let total := if negb (base =? numBuckets) then u64 (total + 24) else total in
  i64 (u64 (total + 48)).

(** [log2u8 n] is [uint8(math.Log2(float64(n)))]: the conversion of a NaN or of
    an infinity (for [n <= 0]) is left to the implementation by the language,
    and the rounding of the logarithm matters from 2^48 on. *)
Definition calculateMinEntries (log2u8 : Z → Z) (totalBytes bucketSize : Z) : Z :=
  let totalBytes := i64 (totalBytes - 48) in
  let numBuckets := Z.quot totalBytes bucketSize in
  let B := log2u8 numBuckets in
  if B <? 4 then
    if B =? 0 then 0 else if B =? 1 then 9 else if B =? 2 then 14 else 27
  else
    let B := B - 1 in
    i64 (i64 (u64 (loadFactorNum * (bucketShift B / loadFactorDen))) + 1).

(** ** Facts *)
(** The least size class that holds [size]. *)
Definition leastClass (size : Z) : Z := default 0 (head (filter (λ c, size <= c) class_to_size)).

(** A check of [n] consecutive integers from [z] on. *)
Fixpoint checkFrom (p : Z → bool) (n : nat) (z : Z) : bool :=
  match n with
  | O => true
  | S n' => if p z then checkFrom p n' (z + 1) else false
  end.

Lemma checkFrom_spec p n z : checkFrom p n z = true → ∀ x, z <= x < z + Z.of_nat n → p x = true.
Proof.
  revert z. induction n as [|n IH]; intros z; cbn [checkFrom]; [lia|].
  destruct (p z) eqn:E; [|done]. intros H x Hx. destruct (decide (x = z)) as [->|]; [done|].
  apply (IH (z + 1) H). lia.
Qed.

Lemma small_sizes : checkFrom (λ z, roundupsize z =? leastClass z) (Z.to_nat MaxSmallSize) 0 = true.
Proof. vm_compute. reflexivity. Qed.

Lemma alignUp_page n : 0 <= n → n + PageSize < 2 ^ 64 →
  n <= alignUp n PageSize < n + PageSize ∧ alignUp n PageSize mod PageSize = 0.
Proof.
  intros Hn Hb. unfold alignUp, PageSize in *. rewrite wrapU_small by (unfold inU; lia).
  change (2 ^ 13 - 1) with (Z.ones 13). rewrite Z.ldiff_ones_r, Z.shiftr_div_pow2, Z.shiftl_mul_pow2 by lia.
  set (m := n + 2 ^ 13 - 1). pose proof (Z.div_mod m (2 ^ 13)). pose proof (Z.mod_pos_bound m (2 ^ 13)).
  split; [unfold m in *; lia|]. apply Z.mod_mul. lia.
Qed.

(** [roundupsize] is the allocator's rounding: below 32 KiB the least size
    class that holds the request, above it the next multiple of a page. *)
Lemma roundupsize_correct (size : Z) (H : 0 <= size < 2 ^ 63) :
  (size < MaxSmallSize → roundupsize size = leastClass size)
  ∧ (MaxSmallSize <= size → size <= roundupsize size < size + PageSize ∧ roundupsize size mod PageSize = 0).
Proof.
  split; intros Hs.
  - apply Z.eqb_eq, (checkFrom_spec _ _ _ small_sizes size). rewrite Z2Nat.id by (unfold MaxSmallSize; lia). lia.
  - unfold roundupsize. destruct (Z.ltb_spec size MaxSmallSize); [lia|].
    rewrite wrapU_small by (unfold inU, PageSize; lia).
    destruct (Z.ltb_spec (size + PageSize) size); [unfold PageSize in *; lia|].
    apply alignUp_page; unfold PageSize; lia.
Qed.

Lemma bucketShift_small B : 0 <= B < 64 → bucketShift B = 2 ^ B.
Proof.
  intros HB. unfold bucketShift. change 63 with (Z.ones 6). rewrite Z.land_ones, Z.mod_small, Z.shiftl_1_l by lia.
  apply wrapU_small. split; [lia|]. apply Z.pow_lt_mono_r; lia.
Qed.

Lemma overLoadFactor_end hint : hint < 2 ^ 44 → overLoadFactor hint 42 = false.
Proof.
  intros Hh. unfold overLoadFactor. rewrite bucketShift_small by lia. unfold bucketCnt, loadFactorNum, loadFactorDen.
  destruct (Z.ltb_spec (2 ^ 3) hint); [|done]. cbn [andb]. apply Z.ltb_ge.
  change (13 * (2 ^ 42 / 2)) with (13 * 2 ^ 41). rewrite (wrapU_small 64 hint) by (unfold inU; lia).
  rewrite wrapU_small by (unfold inU; lia). lia.
Qed.

(** The fuel of the loop is enough for every hint that passes the allocation
    check. *)
Lemma loadLoop_done fuel hint B : hint < 2 ^ 44 → 0 <= B <= 42 → 42 - B < Z.of_nat fuel →
  overLoadFactor hint (loadLoop fuel hint B) = false ∧ B <= loadLoop fuel hint B <= 42.
Proof.
  intros Hh. revert B. induction fuel as [|fuel IH]; intros B HB Hf; [lia|]. cbn [loadLoop].
  destruct (overLoadFactor hint B) eqn:E; [|split; [done|lia]].
  assert (B ≠ 42) by (intros ->; by rewrite overLoadFactor_end in E).
  rewrite wrapU_small by (unfold inU; lia). destruct (IH (B + 1)); [lia..|]. split; [done|lia].
Qed.
