(* ===== verification/UtxoCache.v ===== *)
(** * The UTXO cache (src/node/blockchain/utxocache.go)

    A write-back cache of coins in front of the database.  Its entries are kept
    in several maps ([mapSlice]); an entry is nil when the database is known to
    have no such coin, fresh when the database has none yet, modified when it
    differs from the database.  The database is any [CoinStore]; the time and
    the order in which Go visits a map are arguments.  An operation of the cache
    returns its result together with the cache it leaves behind, also when it
    fails: nothing is rolled back. *)
From Stdlib Require Import ZArith Lia Strings.Byte.
From stdpp Require Import base list gmap.
From S2P Require Import Prelude RuleErrors WireTx WireBlock BlockIndex.
From S2P Require Import Merkle Script Utxo Compress ChainIO SizeHelper.
Open Scope Z_scope.
Open Scope list_scope.

Abbreviation entryMap := (gmap OutPoint (option UtxoEntry)).

(** ** Several maps as one *)
Record mapSlice := mkMapSlice {
  ms_maps : list entryMap;
  ms_maxEntries : list Z;
  ms_maxTotalMemoryUsage : Z }.

Definition ms_length (ms : mapSlice) : Z := foldl (λ l m, l + Z.of_nat (size m)) 0 (ms_maps ms).

Definition ms_size (ms : mapSlice) : Z :=
  foldl (λ sz num, i64 (sz + calculateRoughMapSize num bucketSize)) 0 (ms_maxEntries ms).

Fixpoint getLoop (maps : list entryMap) (op : OutPoint) : option (option UtxoEntry) :=
  match maps with
  | [] => None
  | m :: maps' => match m !! op with Some entry => Some entry | None => getLoop maps' op end
  end.
(** [None]: not found. *)
Definition get (ms : mapSlice) (op : OutPoint) : option (option UtxoEntry) := getLoop (ms_maps ms) op.

(** The first loop of [put] replaces an entry, the second looks for room; both
    read [ms.maps[i]] for every index of [ms.maxEntries].  [Ok None]: the loop
    ended without storing the entry. *)
Fixpoint putFound (op : OutPoint) (entry : option UtxoEntry) (maxEntries : list Z) (maps : list entryMap)
  : res verr (option (list entryMap)) :=
  match maxEntries, maps with
  | [], _ => Ok None
  | _ :: _, [] => Err RuntimePanic
  | _ :: mx, m :: ms =>
      if bool_decide (is_Some (m !! op)) then Ok (Some (<[op := entry]> m :: ms))
      else let? r := putFound op entry mx ms in Ok ((cons m) <$> r)
  end.
Fixpoint putRoom (op : OutPoint) (entry : option UtxoEntry) (maxEntries : list Z) (maps : list entryMap)
  : res verr (option (list entryMap)) :=
  match maxEntries, maps with
  | [], _ => Ok None
  | _ :: _, [] => Err RuntimePanic
  | maxNum :: mx, m :: ms =>
      if maxNum <=? Z.of_nat (size m)
      then let? r := putRoom op entry mx ms in Ok ((cons m) <$> r)
      else Ok (Some (<[op := entry]> m :: ms))
  end.

Section slices.
Context (log2u8 : Z → Z).

(** The capacity of the map [makeNewMap] appends; [make]'s hint is not
    observable. *)
Definition newMapEntries (ms : mapSlice) (totalEntryMemory : Z) : Z :=
  let memSize := foldl (λ sz maxNum, u64 (sz - u64 (calculateRoughMapSize maxNum bucketSize)))
                   (u64 (ms_maxTotalMemoryUsage ms - totalEntryMemory)) (ms_maxEntries ms) in
  i64 (calculateMinEntries log2u8 (i64 memSize) (bucketSize + avgEntrySize) - 1).
Definition makeNewMap (ms : mapSlice) (totalEntryMemory : Z) : mapSlice :=
  mkMapSlice (ms_maps ms ++ [∅]) (ms_maxEntries ms ++ [newMapEntries ms totalEntryMemory])
    (ms_maxTotalMemoryUsage ms).

Definition put (ms : mapSlice) (op : OutPoint) (entry : option UtxoEntry) (totalEntryMemory : Z)
  : res verr mapSlice :=
  let? found := putFound op entry (ms_maxEntries ms) (ms_maps ms) in
  match found with
  | Some maps => Ok (mkMapSlice maps (ms_maxEntries ms) (ms_maxTotalMemoryUsage ms))
  | None =>
      let? room := putRoom op entry (ms_maxEntries ms) (ms_maps ms) in
      match room with
      | Some maps => Ok (mkMapSlice maps (ms_maxEntries ms) (ms_maxTotalMemoryUsage ms))
      | None =>
          let ms := makeNewMap ms totalEntryMemory in
          Ok (mkMapSlice (alter (λ m, <[op := entry]> m) (length (ms_maps ms) - 1)%nat (ms_maps ms))
                (ms_maxEntries ms) (ms_maxTotalMemoryUsage ms))
      end
  end.

Definition ms_delete (ms : mapSlice) (op : OutPoint) : mapSlice :=
  mkMapSlice (delete op <$> ms_maps ms) (ms_maxEntries ms) (ms_maxTotalMemoryUsage ms).

Definition deleteMaps (ms : mapSlice) : res verr mapSlice :=
  match ms_maxEntries ms, ms_maps ms with
  | sz :: _, m :: _ => Ok (mkMapSlice [m] [sz] (ms_maxTotalMemoryUsage ms))
  | _, _ => Err RuntimePanic
  end.

(** A change, through its pointer, of the entry that [get] finds. *)
Fixpoint mutateLoop (f : UtxoEntry → UtxoEntry) (maps : list entryMap) (op : OutPoint) : list entryMap :=
  match maps with
  | [] => []
  | m :: maps' =>
      match m !! op with
      | Some oe => <[op := f <$> oe]> m :: maps'
      | None => m :: mutateLoop f maps' op
      end
  end.
Definition mutate (f : UtxoEntry → UtxoEntry) (ms : mapSlice) (op : OutPoint) : mapSlice :=
  mkMapSlice (mutateLoop f (ms_maps ms) op) (ms_maxEntries ms) (ms_maxTotalMemoryUsage ms).

(** ** The cache *)
Inductive FlushMode := FlushRequired | FlushPeriodic | FlushIfNeeded.

#[export] Instance FlushMode_eq_dec : EqDecision FlushMode.
Proof. solve_decision. Defined.

(** Five minutes, in nanoseconds. *)
Definition utxoFlushPeriodicInterval : Z := 5 * 60 * 10 ^ 9.

Record utxoCache := mkCache {
  uc_maxTotalMemoryUsage : Z;
  uc_cachedEntries : mapSlice;
  uc_totalEntryMemory : Z;             (* uint64 *)
  uc_lastFlushHash : bytes;
  uc_lastFlushTime : Z }.

Definition newUtxoCache (maxTotalMemoryUsage : Z) : utxoCache :=
  let numMaxElements := i64 (calculateMinEntries log2u8 (i64 maxTotalMemoryUsage) (bucketSize + avgEntrySize) - 1) in
  mkCache maxTotalMemoryUsage (mkMapSlice [∅] [numMaxElements] maxTotalMemoryUsage) 0 zeroHash 0.

Definition totalMemoryUsage (s : utxoCache) : Z :=
  u64 (u64 (ms_size (uc_cachedEntries s)) + uc_totalEntryMemory s).

(** [cap(entry.pkScript)] is its length: every script of the cache was made
    with its own length. *)
Definition memoryUsage (entry : option UtxoEntry) : Z :=
  match entry with None => 0 | Some e => u64 (baseEntrySize + zlen (ue_pkScript e)) end.

Definition setEntries (s : utxoCache) (ms : mapSlice) (mem : Z) : utxoCache :=
  mkCache (uc_maxTotalMemoryUsage s) ms mem (uc_lastFlushHash s) (uc_lastFlushTime s).
Definition setFlushed (s : utxoCache) (hash : bytes) (now : Z) : utxoCache :=
  mkCache (uc_maxTotalMemoryUsage s) (uc_cachedEntries s) (uc_totalEntryMemory s) hash now.

(** Computations that return an error or a value, and always a cache. *)
Definition cacheM (A : Type) : Type := utxoCache → res verr A * utxoCache.
Definition cret {A} (r : res verr A) : cacheM A := λ s, (r, s).
Definition cbind {A B} (c : cacheM A) (k : A → cacheM B) : cacheM B := λ s,
  match c s with (Ok a, s') => k a s' | (Err e, s') => (Err e, s') end.
Definition cgets {A} (f : utxoCache → res verr A) : cacheM A := λ s, (f s, s).
(** A change of the cache; a panic leaves it as it is. *)
Definition cupd (f : utxoCache → res verr utxoCache) : cacheM unit := λ s,
  match f s with Ok s' => (Ok tt, s') | Err e => (Err e, s) end.
Fixpoint citer {A} (f : A → cacheM unit) (l : list A) : cacheM unit :=
  match l with
  | [] => cret (Ok tt)
  | x :: l' => cbind (f x) (λ _, citer f l')
  end.

Fixpoint res_mapM {E A B} (f : A → res E B) (l : list A) : res E (list B) :=
  match l with
  | [] => Ok []
  | x :: l' => let? y := f x in let? ys := res_mapM f l' in Ok (y :: ys)
  end.

(** [s.cachedEntries.put(op, entry, s.totalEntryMemory)] and the accounting
    that follows it. *)
Definition putEntry (op : OutPoint) (entry : option UtxoEntry) : cacheM unit := cupd (λ s,
  let? ms := put (uc_cachedEntries s) op entry (uc_totalEntryMemory s) in
  Ok (setEntries s ms (u64 (uc_totalEntryMemory s + memoryUsage entry)))).

Definition subMemory (n : Z) : cacheM unit := cupd (λ s,
  Ok (setEntries s (uc_cachedEntries s) (u64 (uc_totalEntryMemory s - n)))).

(** The entries in the order asked for: those found, and for the others the
    rows of the database in order. *)
Fixpoint fillEntries (found : list (option (option UtxoEntry))) (dbEntries : list (option UtxoEntry))
  : list (option UtxoEntry) :=
  match found with
  | [] => []
  | Some entry :: found' => entry :: fillEntries found' dbEntries
  | None :: found' =>
      match dbEntries with
      | e :: dbEntries' => e :: fillEntries found' dbEntries'
      | [] => None :: fillEntries found' []
      end
  end.

Section cache.
Context {D : Type} `{CoinStore D} (sha256 : bytes → bytes).

Definition fetchEntries (d : D) (outpoints : list OutPoint) : cacheM (list (option UtxoEntry)) := λ s,
  let found := get (uc_cachedEntries s) <$> outpoints in
  let missingOps := filter (λ op, get (uc_cachedEntries s) op = None) outpoints in
  if bool_decide (missingOps = []) then (Ok (fillEntries found []), s)
  else cbind (cret (res_mapM (cs_fetch d) missingOps))
         (λ dbEntries, cbind (citer (λ p, putEntry p.1 p.2) (zip missingOps dbEntries))
         (λ _, cret (Ok (fillEntries found dbEntries)))) s.

Definition addTxOut (outpoint : OutPoint) (txOut : TxOut) (isCoinBase : bool) (blockHeight : Z) : cacheM unit :=
  if IsUnspendable (to_PkScript txOut) then cret (Ok tt)
  else putEntry outpoint (Some (mkUtxoEntry (to_Value txOut) (to_PkScript txOut) blockHeight
         (Z.lor (Z.lor tfFresh tfModified) (if isCoinBase then tfCoinBase else 0)))).

Definition addTxOuts (tx : MsgTx) (blockHeight : Z) : cacheM unit :=
  let isCoinBase := IsCoinBaseTx tx in
  citer (λ p, addTxOut (mkOutPoint (TxHash sha256 tx) (u32 (Z.of_nat p.1))) p.2 isCoinBase blockHeight)
    (imap pair (tx_TxOut tx)).

(** [stxos] is nil or points to the records so far; the result is the records
    after. *)
Definition addTxIn (d : D) (txIn : TxIn) (stxos : option (list SpentTxOut)) : cacheM (option (list SpentTxOut)) :=
  let op := ti_PreviousOutPoint txIn in
  cbind (fetchEntries d [op]) (λ entries,
    match entries with
    | [Some entry] =>
        let stxos := (λ l, l ++ [stxoOf entry]) <$> stxos in
        cbind (cupd (λ s, Ok (setEntries s (mutate Spend (uc_cachedEntries s) op) (uc_totalEntryMemory s)))) (λ _,
        cbind (if isFresh (Spend entry)
               then cbind (cupd (λ s, Ok (setEntries s (ms_delete (uc_cachedEntries s) op) (uc_totalEntryMemory s))))
                      (λ _, subMemory (memoryUsage (Some (Spend entry))))
               else subMemory (memoryUsage None)) (λ _,
        cret (Ok stxos)))
    | _ => cret (Err AssertError)
    end).

Fixpoint addTxInsLoop (d : D) (ins : list TxIn) (stxos : option (list SpentTxOut))
  : cacheM (option (list SpentTxOut)) :=
  match ins with
  | [] => cret (Ok stxos)
  | txIn :: ins' => cbind (addTxIn d txIn stxos) (λ stxos, addTxInsLoop d ins' stxos)
  end.
Definition addTxIns (d : D) (tx : MsgTx) (stxos : option (list SpentTxOut)) : cacheM (option (list SpentTxOut)) :=
  if IsCoinBaseTx tx then cret (Ok stxos) else addTxInsLoop d (tx_TxIn tx) stxos.

Definition connectTransaction (d : D) (tx : MsgTx) (blockHeight : Z) (stxos : option (list SpentTxOut))
  : cacheM (option (list SpentTxOut)) :=
  cbind (addTxIns d tx stxos) (λ stxos, cbind (addTxOuts tx blockHeight) (λ _, cret (Ok stxos))).

Fixpoint connectLoop (d : D) (h : Z) (txs : list MsgTx) (stxos : option (list SpentTxOut))
  : cacheM (option (list SpentTxOut)) :=
  match txs with
  | [] => cret (Ok stxos)
  | tx :: txs' => cbind (connectTransaction d tx h stxos) (λ stxos, connectLoop d h txs' stxos)
  end.
Definition connectTransactions (d : D) (block : Block) (stxos : option (list SpentTxOut))
  : cacheM (option (list SpentTxOut)) := connectLoop d (blk_Height block) (blk_Transactions block) stxos.

(** ** Writing back *)

(** The database as a flush sees it: the coins and the hash of the block they
    are consistent with. *)
Record utxoDb := mkUtxoDb {
  ud_coins : D;
  ud_consistency : option bytes }.

(** The flags after a write: [entry.packedFlags &^= tfModified | tfFresh]. *)
Definition unflag (entry : UtxoEntry) : UtxoEntry :=
  setFlags entry (Z.ldiff (ue_packedFlags entry) (Z.lor tfModified tfFresh)).

(** One entry of one map: the database, the map and the memory freed so far;
    when the write fails, the error and what was done before it. *)
Definition writeEntry (eraseCache : bool) (d : D) (outpoint : OutPoint) (entry : option UtxoEntry)
    (m : entryMap) (deletedMem : Z) : res verr (D * entryMap * Z) :=
  let? d :=
    match entry with
    | None => Ok (cs_delete d outpoint)
    | Some e => if IsSpent e then Ok (cs_delete d outpoint)
                else if negb (isModified e) then Ok d
                else cs_put d outpoint e
    end in
  Ok (d, if eraseCache then delete outpoint m
         else match entry with
              | None => delete outpoint m
              | Some e => if IsSpent e then delete outpoint m
                          else if isModified e then <[outpoint := Some (unflag e)]> m else m
              end,
      if eraseCache then deletedMem
      else match entry with
           | Some e => if IsSpent e then u64 (deletedMem + memoryUsage entry) else deletedMem
           | None => deletedMem
           end).

(** One map, visited in the order [order]. *)
Fixpoint writeMap (eraseCache : bool) (d : D) (order : list (OutPoint * option UtxoEntry))
    (m : entryMap) (deletedMem : Z) : res verr unit * (D * entryMap * Z) :=
  match order with
  | [] => (Ok tt, (d, m, deletedMem))
  | (op, entry) :: order' =>
      match writeEntry eraseCache d op entry m deletedMem with
      | Err e => (Err e, (d, m, deletedMem))
      | Ok (d, m, deletedMem) => writeMap eraseCache d order' m deletedMem
      end
  end.

Context (range : entryMap → list (OutPoint * option UtxoEntry)).

Fixpoint writeMaps (eraseCache : bool) (d : D) (maps : list entryMap) (deletedMem : Z)
  : res verr unit * (D * list entryMap * Z) :=
  match maps with
  | [] => (Ok tt, (d, [], deletedMem))
  | m :: maps' =>
      match writeMap eraseCache d (range m) m deletedMem with
      | (Err e, (d, m, deletedMem)) => (Err e, (d, m :: maps', deletedMem))
      | (Ok _, (d, m, deletedMem)) =>
          let '(r, (d, ms, deletedMem)) := writeMaps eraseCache d maps' deletedMem in
          (r, (d, m :: ms, deletedMem))
      end
  end.

(** [writeCache]: the result, the database and the cache.  An error leaves the
    maps as far as they were written. *)
Definition writeCache (db : utxoDb) (s : utxoCache) (bestHash : bytes) (now : Z) (eraseCache : bool)
  : res verr unit * utxoDb * utxoCache :=
  let ms := uc_cachedEntries s in
  let '(r, (d, maps, deletedMem)) := writeMaps eraseCache (ud_coins db) (ms_maps ms) 0 in
  let ms := mkMapSlice maps (ms_maxEntries ms) (ms_maxTotalMemoryUsage ms) in
  match r with
  | Err e => (Err e, mkUtxoDb d (ud_consistency db), setEntries s ms (uc_totalEntryMemory s))
  | Ok _ =>
      match (if eraseCache then let? ms := deleteMaps ms in Ok (ms, 0)
             else Ok (ms, if deletedMem <=? uc_totalEntryMemory s
                          then uc_totalEntryMemory s - deletedMem else 0)) with
      | Err e => (Err e, mkUtxoDb d (ud_consistency db), setEntries s ms (uc_totalEntryMemory s))
      | Ok (ms, mem) =>
          (Ok tt, mkUtxoDb d (Some bestHash), setFlushed (setEntries s ms mem) bestHash now)
      end
  end.

Definition shouldFlush (s : utxoCache) (mode : FlushMode) (bestHash : bytes) (now : Z) : bool :=
  match mode with
  | FlushRequired => 0 <=? totalMemoryUsage s
  | FlushIfNeeded =>
      if bool_decide (bestHash = uc_lastFlushHash s) then false
      else uc_maxTotalMemoryUsage s <=? totalMemoryUsage s
  | FlushPeriodic =>
      (if utxoFlushPeriodicInterval <? now - uc_lastFlushTime s then 0 else uc_maxTotalMemoryUsage s)
      <=? totalMemoryUsage s
  end.

Definition flush (db : utxoDb) (s : utxoCache) (mode : FlushMode) (bestHash : bytes) (now : Z)
  : res verr unit * utxoDb * utxoCache :=
  if negb (shouldFlush s mode bestHash now) then (Ok tt, db, s) else
  let eraseCache := bool_decide (mode = FlushRequired) || (uc_maxTotalMemoryUsage s <=? totalMemoryUsage s) in
  writeCache db s bestHash now eraseCache.

(** [b.db.Update(flush)]: the database transaction is rolled back when [flush]
    returns an error; the cache is not. *)
Definition updateFlush (db : utxoDb) (s : utxoCache) (mode : FlushMode) (bestHash : bytes) (now : Z)
  : res verr unit * utxoDb * utxoCache :=
  match flush db s mode bestHash now with
  | (Err e, _, s') => (Err e, db, s')
  | r => r
  end.

Definition FlushUtxoCache (db : utxoDb) (s : utxoCache) (mode : FlushMode) (bestHash : bytes) (now : Z)
  : res verr unit * utxoDb * utxoCache :=
  if negb (shouldFlush s mode bestHash now) then (Ok tt, db, s) else updateFlush db s mode bestHash now.

(** ** Recovery *)
Context (fetchBlock : bytes → res verr (list MsgTx)).

(** [dbFetchBlockByNode]: the block of the node as the store returns it, with
    the height of the node. *)
Definition dbFetchBlockByNode (h : heap) (p : ptr) : res verr Block :=
  match h !! p with
  | None => Err RuntimePanic
  | Some nd =>
      let? txs := fetchBlock (bn_hash nd) in
      Ok (mkBlock txs (bn_height nd) (bn_hash nd)
            (default zeroHash (q ← bn_parent nd; qn ← h !! q; Some (bn_hash qn))))
  end.

(** The nodes from the tip down to [fork] (excluded), in the order they are
    attached.  The loop ends when the height is negative or the fork is met; a
    nil parent before that is a nil dereference. *)
Fixpoint attachLoop (fuel : nat) (h : heap) (n : option ptr) (fork : ptr) (acc : list ptr)
  : res verr (list ptr) :=
  match fuel, n ≫= (λ p, (p,.) <$> h !! p) with
  | S fuel', Some (p, nd) =>
      if bn_height nd <? 0 then Ok acc
      else if bool_decide (p = fork) then Ok acc
      else attachLoop fuel' h (bn_parent nd) fork (p :: acc)
  | _, _ => Err RuntimePanic
  end.

(** The replay of the blocks; [interrupt] says whether an interrupt was
    requested after each. *)
Fixpoint replay (h : heap) (nodes : list ptr) (interrupt : ptr → bool) (now : Z) (db : utxoDb) (s : utxoCache)
  : res verr unit * utxoDb * utxoCache :=
  match nodes with
  | [] => (Ok tt, db, s)
  | p :: nodes' =>
      match dbFetchBlockByNode h p with
      | Err e => (Err e, db, s)
      | Ok block =>
          match connectTransactions (ud_coins db) block None s with
          | (Err e, s) => (Err e, db, s)
          | (Ok _, s) =>
              let '(r, db, s) :=
                if shouldFlush s FlushIfNeeded (blk_Hash block) now
                then updateFlush db s FlushIfNeeded (blk_Hash block) now else (Ok tt, db, s) in
              match r with
              | Err e => (Err e, db, s)
              | Ok _ => if interrupt p then (Err OtherError, db, s)
                        else replay h nodes' interrupt now db s
              end
          end
      end
  end.

Definition InitConsistentState (bi : blockIndex) (bestChain : chainView) (tip : ptr) (interrupt : ptr → bool)
    (now : Z) (db : utxoDb) (s : utxoCache) : res verr unit * utxoDb * utxoCache :=
  let h := bi_heap bi in
  match h !! tip with
  | None => (Err RuntimePanic, db, s)
  | Some tipNode =>
      match ud_consistency db with
      | None => (Ok tt, mkUtxoDb (ud_coins db) (Some (bn_hash tipNode)), setFlushed s (bn_hash tipNode) now)
      | Some statusHash =>
          if negb (length statusHash =? 32)%nat then (Err OtherError, db, s)
          else if bool_decide (statusHash = bn_hash tipNode) then (Ok tt, db, setFlushed s (bn_hash tipNode) now)
          else
            match LookupNode bi statusHash with
            | None => (Err RuntimePanic, db, s)      (* lastFlushNode.height in the log call *)
            | Some lastFlushNode =>
                match findFork h bestChain (Some lastFlushNode) with
                | None => (Err AssertError, db, s)
                | Some fork =>
                    match attachLoop (S (Z.to_nat (bn_height tipNode))) h (Some tip) fork [] with
                    | Err e => (Err e, db, s)
                    | Ok nodes =>
                        match replay h nodes interrupt now db s with
                        | (Ok _, db, s) => (Ok tt, db, setFlushed s (bn_hash tipNode) now)
                        | r => r
                        end
                    end
                end
            end
      end
  end.

(** The comparison is between heights; blocks the index does not know are
    skipped. *)
Definition flushNeededAfterPrune (bi : blockIndex) (s : utxoCache) (deletedBlockHashes : list bytes) : bool :=
  match LookupNode bi (uc_lastFlushHash s) ≫= (bi_heap bi !!.) with
  | None => true
  | Some node =>
      let highestDeletedHeight :=
        foldl (λ hi hash, match LookupNode bi hash ≫= (bi_heap bi !!.) with
                          | None => hi
                          | Some nd => if hi <? bn_height nd then bn_height nd else hi
                          end) (-1) deletedBlockHashes in
      bn_height node <=? highestDeletedHeight
  end.
End cache.
End slices.

(** ** Facts about the flags *)
Lemma hasFlag_bit e k : 0 <= k → hasFlag e (2 ^ k) = Z.testbit (ue_packedFlags e) k.
Proof.
  intros Hk. unfold hasFlag. destruct (Z.testbit (ue_packedFlags e) k) eqn:E.
  - apply Z.eqb_eq, Z.bits_inj'. intros i Hi. rewrite Z.land_spec, Z.pow2_bits_eqb by done.
    destruct (Z.eqb_spec k i) as [<-|]; [by rewrite E|by rewrite andb_false_r].
  - apply Z.eqb_neq. intros Hl. apply (f_equal (λ z, Z.testbit z k)) in Hl.
    rewrite Z.land_spec, E, Z.pow2_bits_true in Hl by done. done.
Qed.

Lemma flag_bits e : IsCoinBase e = Z.testbit (ue_packedFlags e) 0 ∧ IsSpent e = Z.testbit (ue_packedFlags e) 1
  ∧ isModified e = Z.testbit (ue_packedFlags e) 2 ∧ isFresh e = Z.testbit (ue_packedFlags e) 3.
Proof. split; [by apply (hasFlag_bit e 0)|split; [by apply (hasFlag_bit e 1)|split; [by apply (hasFlag_bit e 2)|by apply (hasFlag_bit e 3)]]]. Qed.

Lemma Spend_flags e : IsSpent (Spend e) = true ∧ isFresh (Spend e) = isFresh e
  ∧ (IsSpent e = false → isModified (Spend e) = true) ∧ stxoOf (Spend e) = stxoOf e.
Proof.
  split; [apply IsSpent_Spend|]. unfold Spend. destruct (IsSpent e) eqn:E; [done|]. cbn [Z.lor tfSpent tfModified].
  set (e' := setFlags e _). destruct (flag_bits e') as (H0 & H1 & H2 & H3). destruct (flag_bits e) as (G0 & G1 & G2 & G3).
  unfold stxoOf. rewrite H0, H2, H3, G0, G3. cbn [e' setFlags ue_packedFlags ue_amount ue_pkScript ue_blockHeight].
  rewrite !Z.lor_spec. cbn [Z.testbit Pos.testbit]. by rewrite !orb_false_r, orb_true_r.
Qed.

Lemma unflag_flags e : IsSpent (unflag e) = IsSpent e ∧ isFresh (unflag e) = false
  ∧ isModified (unflag e) = false ∧ stxoOf (unflag e) = stxoOf e.
Proof.
  destruct (flag_bits (unflag e)) as (H0 & H1 & H2 & H3). destruct (flag_bits e) as (G0 & G1 & G2 & G3).
  unfold stxoOf. rewrite H0, H1, H2, H3, G0, G1. unfold unflag. cbn [setFlags ue_packedFlags ue_amount ue_pkScript ue_blockHeight].
  rewrite !Z.ldiff_spec. change (Z.lor tfModified tfFresh) with 12. cbn [Z.testbit Pos.testbit negb].
  by rewrite !andb_true_r, !andb_false_r.
Qed.

(** ** Facts about the maps *)
Fixpoint disjointMaps (maps : list entryMap) : Prop :=
  match maps with
  | [] => True
  | m :: maps' => (∀ op, is_Some (m !! op) → getLoop maps' op = None) ∧ disjointMaps maps'
  end.

Record sliceOk (ms : mapSlice) : Prop := {
  slice_length : length (ms_maxEntries ms) = length (ms_maps ms);
  slice_nonempty : ms_maps ms ≠ [];
  slice_disjoint : disjointMaps (ms_maps ms) }.

(** [maps'] is [maps] with the entry [oe] (or nothing) at [op]. *)
Definition updated (op : OutPoint) (oe : option (option UtxoEntry)) (maps maps' : list entryMap) : Prop :=
  length maps' = length maps ∧ disjointMaps maps'
  ∧ ∀ op', getLoop maps' op' = if decide (op' = op) then oe else getLoop maps op'.

Lemma getLoop_cons m maps op : getLoop (m :: maps) op = match m !! op with Some e => Some e | None => getLoop maps op end.
Proof. done. Qed.

Lemma updated_head op entry m maps : disjointMaps (m :: maps) → getLoop maps op = None →
  updated op (Some entry) (m :: maps) (<[op := entry]> m :: maps).
Proof.
  intros [Hm Hd] Hn. split; [done|]. split; [split; [|done]|].
  - intros op' Hs. destruct (decide (op' = op)) as [->|Hne]; [done|]. rewrite lookup_insert_ne in Hs by done. by apply Hm.
  - intros op'. rewrite !getLoop_cons. case_decide as E; [subst; by rewrite lookup_insert_eq|].
    by rewrite lookup_insert_ne.
Qed.

Lemma updated_tail op entry m maps maps' : disjointMaps (m :: maps) → m !! op = None →
  updated op entry maps maps' → updated op entry (m :: maps) (m :: maps').
Proof.
  intros [Hm Hd] Hn (Hl & Hd' & Hg). split; [cbn; lia|]. split; [split; [|done]|].
  - intros op' Hs. rewrite Hg. case_decide as E; [subst; rewrite Hn in Hs; by destruct Hs|by apply Hm].
  - intros op'. rewrite !getLoop_cons, Hg. case_decide as E; [subst; by rewrite Hn|done].
Qed.

Lemma putFound_spec op entry mx maps : length mx = length maps → disjointMaps maps →
  ∃ r, putFound op entry mx maps = Ok r ∧
    match r with
    | Some maps' => updated op (Some entry) maps maps'
    | None => getLoop maps op = None
    end.
Proof.
  revert mx. induction maps as [|m maps IH]; intros [|n mx] Hl Hd; try done; [by eexists|].
  cbn [putFound]. case_bool_decide as E.
  - eexists. split; [done|]. destruct Hd as [Hm Hd]. apply updated_head; [done|by apply Hm].
  - apply eq_None_not_Some in E. injection Hl as Hl. destruct (IH mx Hl (proj2 Hd)) as (r & -> & Hr).
    cbn [res_bind]. eexists. split; [done|]. destruct r as [maps'|]; cbn.
    + by apply updated_tail.
    + by rewrite E.
Qed.

Lemma putRoom_spec op entry mx maps : length mx = length maps → disjointMaps maps → getLoop maps op = None →
  ∃ r, putRoom op entry mx maps = Ok r ∧
    match r with Some maps' => updated op (Some entry) maps maps' | None => True end.
Proof.
  revert mx. induction maps as [|m maps IH]; intros [|n mx] Hl Hd Hn; try done; [by eexists|].
  cbn [putRoom]. rewrite getLoop_cons in Hn. destruct (m !! op) eqn:E; [done|].
  destruct (n <=? Z.of_nat (size m)).
  - injection Hl as Hl. destruct (IH mx Hl (proj2 Hd) Hn) as (r & -> & Hr). cbn [res_bind]. eexists. split; [done|].
    destruct r; [by apply updated_tail|done].
  - eexists. split; [done|]. by apply updated_head.
Qed.

Lemma getLoop_app maps maps' op : getLoop (maps ++ maps') op = match getLoop maps op with Some e => Some e | None => getLoop maps' op end.
Proof. induction maps as [|m maps IH]; [done|]. cbn [app]. rewrite !getLoop_cons, IH. by destruct (m !! op). Qed.

Lemma disjoint_snoc maps op entry : disjointMaps maps → getLoop maps op = None → disjointMaps (maps ++ [{[op := entry]}]).
Proof.
  induction maps as [|m maps IH]; intros Hd Hn; [split; [by intros|done]|]. destruct Hd as [Hm Hd].
  rewrite getLoop_cons in Hn. destruct (m !! op) eqn:E; [done|]. split; [|by apply IH].
  intros op' Hs. fold (app maps). rewrite getLoop_app, (Hm op' Hs), getLoop_cons, lookup_singleton_ne; [done|].
  intros <-. rewrite E in Hs. by destruct Hs.
Qed.

Lemma put_spec log2u8 ms op entry mem : sliceOk ms → ∃ ms', put log2u8 ms op entry mem = Ok ms' ∧ sliceOk ms'
  ∧ ∀ op', get ms' op' = if decide (op' = op) then Some entry else get ms op'.
Proof.
  intros [Hl Hne Hd]. unfold put.
  assert (Hres : ∀ maps', updated op (Some entry) (ms_maps ms) maps' → let ms' := mkMapSlice maps' (ms_maxEntries ms) (ms_maxTotalMemoryUsage ms) in
    sliceOk ms' ∧ ∀ op', get ms' op' = if decide (op' = op) then Some entry else get ms op').
  { intros maps' (Hl' & Hd' & Hg). split; [|exact Hg]. split; cbn; [lia| |done]. intros ->.
    by destruct (ms_maps ms). }
  destruct (putFound_spec op entry _ _ Hl Hd) as ([maps'|] & -> & Hr); cbn [res_bind].
  { eexists. split; [done|]. by apply Hres. }
  destruct (putRoom_spec op entry _ _ Hl Hd Hr) as ([maps'|] & -> & Hr'); cbn [res_bind].
  { eexists. split; [done|]. by apply Hres. }
  eexists. split; [done|]. unfold makeNewMap. cbn [ms_maps ms_maxEntries ms_maxTotalMemoryUsage].
  rewrite length_app. cbn [length]. rewrite Nat.add_sub, alter_app_r_alt, Nat.sub_diag by lia. cbn [alter list_alter].
  split.
  - split; cbn [ms_maps ms_maxEntries].
    + rewrite !length_app, Hl. done.
    + by destruct (ms_maps ms).
    + rewrite insert_empty. by apply disjoint_snoc.
  - intros op'. unfold get. cbn [ms_maps]. rewrite getLoop_app, getLoop_cons, insert_empty. cbn [getLoop].
    case_decide as E; [subst; by rewrite Hr, lookup_singleton_eq|]. rewrite lookup_singleton_ne by done.
    by destruct (getLoop _ op').
Qed.

Lemma delete_spec ms op : sliceOk ms → sliceOk (ms_delete ms op)
  ∧ ∀ op', get (ms_delete ms op) op' = if decide (op' = op) then None else get ms op'.
Proof.
  intros [Hl Hne Hd].
  assert (Hg : ∀ maps op', getLoop (delete op <$> maps) op' = if decide (op' = op) then None else getLoop maps op').
  { induction maps as [|m maps IH]; intros op'; [by case_decide|]. rewrite fmap_cons, !getLoop_cons, IH.
    case_decide as E; [subst; by rewrite lookup_delete_eq|by rewrite lookup_delete_ne]. }
  split; [|intros op'; apply Hg]. split; cbn; [by rewrite length_fmap|by destruct (ms_maps ms)|].
  clear -Hd Hg. induction (ms_maps ms) as [|m maps IH]; [done|]. destruct Hd as [Hm Hd]. split; [|by apply IH].
  intros op' Hs. fold (fmap (M := list) (delete (M := entryMap) op)). rewrite Hg. case_decide as E; [done|].
  rewrite lookup_delete_ne in Hs by done. by apply Hm.
Qed.

Lemma mutate_spec f ms op e : sliceOk ms → get ms op = Some (Some e) → sliceOk (mutate f ms op)
  ∧ ∀ op', get (mutate f ms op) op' = if decide (op' = op) then Some (Some (f e)) else get ms op'.
Proof.
  intros [Hl Hne Hd]. unfold get, mutate. cbn [ms_maps]. intros Hg.
  assert (Hu : updated op (Some (Some (f e))) (ms_maps ms) (mutateLoop f (ms_maps ms) op)).
  { clear Hl Hne. induction (ms_maps ms) as [|m maps IH]; [done|]. rewrite getLoop_cons in Hg. cbn [mutateLoop].
    destruct (m !! op) as [oe|] eqn:E.
    - injection Hg as ->. apply updated_head; [done|]. apply Hd. by eexists.
    - apply updated_tail; [done..|]. apply IH; [apply Hd|done]. }
  destruct Hu as (Hl' & Hd' & Hg'). split; [|exact Hg']. split; cbn; [lia| |done]. intros E. rewrite E in Hl'.
  by destruct (ms_maps ms).
Qed.

(** ** The invariant and what the cache stands for *)
Section spec.
Context {D : Type} `{CoinStoreLaws D} (log2u8 : Z → Z) (sha256 : bytes → bytes).

(** A nil or a fresh entry is of a coin the database does not have; an entry
    that is not modified is the coin of the database. *)
Definition entryOk (d : D) (op : OutPoint) (oe : option UtxoEntry) : Prop :=
  wfOp op ∧
  match oe with
  | None => cs_coin d op = None
  | Some e => wfCoin (stxoOf e)
      ∧ (isFresh e = true → cs_coin d op = None ∧ isModified e = true)
      ∧ (isModified e = false → IsSpent e = false ∧ cs_coin d op = Some (stxoOf e))
  end.

Record cacheOk (d : D) (s : utxoCache) : Prop := {
  cache_db : cs_wf d;
  cache_slice : sliceOk (uc_cachedEntries s);
  cache_entries : ∀ op oe, get (uc_cachedEntries s) op = Some oe → entryOk d op oe }.

(** The coins: those of the cache laid over those of the database. *)
Definition coins (d : D) (s : utxoCache) (op : OutPoint) : option SpentTxOut :=
  match get (uc_cachedEntries s) op with Some oe => coinOf oe | None => cs_coin d op end.

Definition represents (d : D) (s : utxoCache) (M : gmap OutPoint SpentTxOut) : Prop :=
  ∀ op, wfOp op → coins d s op = M !! op.

(** One entry of the cache changes. *)
Lemma cacheOk_update d s s' op roe : cacheOk d s → sliceOk (uc_cachedEntries s') →
  (∀ op', get (uc_cachedEntries s') op' = if decide (op' = op) then roe else get (uc_cachedEntries s) op') →
  (∀ oe, roe = Some oe → entryOk d op oe) →
  cacheOk d s' ∧ ∀ op', op' ≠ op → coins d s' op' = coins d s op'.
Proof.
  intros [Hdb Hs He] Hs' Hg Hoe. split.
  - split; [done..|]. intros op' oe. rewrite Hg. case_decide as E; [subst; apply Hoe|apply He].
  - intros op' Hne. unfold coins. by rewrite Hg, decide_False.
Qed.

Lemma putEntry_spec d s op oe : cacheOk d s → entryOk d op oe → ∃ s', putEntry log2u8 op oe s = (Ok tt, s')
  ∧ cacheOk d s' ∧ (∀ op', op' ≠ op → coins d s' op' = coins d s op') ∧ coins d s' op = coinOf oe
  ∧ ∀ op', get (uc_cachedEntries s') op' = if decide (op' = op) then Some oe else get (uc_cachedEntries s) op'.
Proof.
  intros Hok Hoe. unfold putEntry, cupd.
  destruct (put_spec log2u8 (uc_cachedEntries s) op oe (uc_totalEntryMemory s) (cache_slice _ _ Hok)) as (ms & -> & Hms & Hg).
  cbn [res_bind]. eexists. split; [done|]. set (s' := setEntries _ _ _).
  destruct (cacheOk_update d s s' op (Some oe) Hok Hms Hg) as [H1 H2]; [by intros ? [= <-]|].
  split; [done|]. split; [done|]. split; [|exact Hg]. unfold coins. change (uc_cachedEntries s') with ms.
  by rewrite Hg, decide_True.
Qed.

Lemma fetched_ok d op oe : cs_wf d → wfOp op → cs_fetch d op = Ok oe → coinOf oe = cs_coin d op ∧ entryOk d op oe.
Proof.
  intros Hd Ho E. destruct (cs_fetch_spec d op Hd Ho) as (oe' & E' & Hc & He). rewrite E in E'. injection E' as <-.
  split; [done|]. split; [done|]. destruct oe as [e|]; [|by rewrite <- Hc].
  destruct (He e eq_refl) as [Hcl Hw]. destruct (clean_flags e Hcl) as (H1 & H2 & H3).
  split; [done|]. split; [by rewrite H3|]. intros _. split; [done|]. rewrite <- Hc. cbn. by rewrite H1.
Qed.

(** Entries read from the database enter the cache. *)
Lemma loadAll_spec d ops es s : cacheOk d s → Forall wfOp ops → Forall2 (λ op oe, cs_fetch d op = Ok oe) ops es →
  (∀ op, op ∈ ops → coins d s op = cs_coin d op) →
  ∃ s', citer (λ p, putEntry log2u8 p.1 p.2) (zip ops es) s = (Ok tt, s') ∧ cacheOk d s'
    ∧ (∀ op, wfOp op → coins d s' op = coins d s op)
    ∧ (∀ op, op ∉ ops → get (uc_cachedEntries s') op = get (uc_cachedEntries s) op)
    ∧ (∀ op oe, op ∈ ops → cs_fetch d op = Ok oe → get (uc_cachedEntries s') op = Some oe).
Proof.
  intros Hok Hw Hf. revert s Hok. induction Hf as [|op oe ops es E Hf IH]; intros s Hok Hc.
  - exists s. do 4 (split; [done|]). intros op oe Hin. by apply elem_of_nil in Hin.
  - apply Forall_cons in Hw as [Ho Hw]. destruct (fetched_ok d op oe (cache_db _ _ Hok) Ho E) as [Hco Hoe].
    destruct (putEntry_spec d s op oe Hok Hoe) as (s1 & E1 & Hok1 & Hne & Heq & Hg). cbn [zip zip_with citer fst snd].
    assert (Hsame : ∀ op', wfOp op' → coins d s1 op' = coins d s op').
    { intros op' _. destruct (decide (op' = op)) as [->|]; [|by apply Hne].
      rewrite Heq, Hco. symmetry. apply Hc. by left. }
    destruct (IH Hw s1 Hok1) as (s2 & E2 & Hok2 & Hs2 & Hout & Hin).
    { intros op' Hin. rewrite Hsame; [apply Hc; by right|]. rewrite Forall_forall in Hw. by apply Hw. }
    exists s2. unfold cbind. rewrite E1. split; [done|]. split; [done|]. split; [|split].
    + intros op' Ho'. by rewrite Hs2, Hsame.
    + intros op' Hni. apply not_elem_of_cons in Hni as [Hn1 Hn2]. rewrite Hout, Hg, decide_False by done. done.
    + intros op' oe' Hm Ef. destruct (decide (op' ∈ ops)) as [Hi|Hi]; [by apply Hin|].
      apply elem_of_cons in Hm as [->|]; [|done]. rewrite Hout, Hg, decide_True by done. congruence.
Qed.

Lemma res_mapM_fetch d ops : cs_wf d → Forall wfOp ops →
  ∃ es, res_mapM (cs_fetch d) ops = Ok es ∧ Forall2 (λ op oe, cs_fetch d op = Ok oe) ops es.
Proof.
  intros Hd Hw. induction Hw as [|op ops Ho Hw (es & E & Hf)]; [by exists []|].
  destruct (cs_fetch_spec d op Hd Ho) as (oe & Eo & _). cbn [res_mapM]. rewrite Eo, E. cbn [res_bind].
  eexists. split; [done|]. by constructor.
Qed.

Lemma fillEntries_spec d (g g' : OutPoint → option (option UtxoEntry)) ops es :
  Forall2 (λ op oe, cs_fetch d op = Ok oe) (filter (λ op, g op = None) ops) es →
  (∀ op oe, g op = Some oe → g' op = Some oe) →
  (∀ op oe, op ∈ ops → g op = None → cs_fetch d op = Ok oe → g' op = Some oe) →
  Forall2 (λ op oe, g' op = Some oe) ops (fillEntries (g <$> ops) es).
Proof.
  intros Hf Hg Hn. revert es Hf Hn. induction ops as [|op ops IH]; intros es Hf Hn; [by apply Forall2_nil_2|].
  rewrite fmap_cons. rewrite filter_cons in Hf. cbn [fillEntries]. case_decide as E.
  - rewrite E. apply Forall2_cons_inv_l in Hf as (oe & es' & Eo & Hf & ->). constructor.
    + apply (Hn op); [by left|done..].
    + apply IH; [done|]. intros op' oe' Hin. apply Hn. by right.
  - destruct (g op) as [oe|] eqn:Eg; [|done]. constructor; [by apply Hg|]. apply IH; [done|].
    intros op' oe' Hin. apply Hn. by right.
Qed.

Lemma fetchEntries_spec d s ops : cacheOk d s → Forall wfOp ops →
  ∃ es s', fetchEntries log2u8 d ops s = (Ok es, s') ∧ cacheOk d s'
    ∧ (∀ op, wfOp op → coins d s' op = coins d s op)
    ∧ Forall2 (λ op oe, get (uc_cachedEntries s') op = Some oe) ops es.
Proof.
  intros Hok Hw. unfold fetchEntries. set (missing := filter _ ops).
  assert (Hm : ∀ op, op ∈ missing ↔ get (uc_cachedEntries s) op = None ∧ op ∈ ops) by (intros op; unfold missing; by rewrite list_elem_of_filter).
  assert (Hwm : Forall wfOp missing).
  { apply Forall_forall. intros op Hin. rewrite Forall_forall in Hw. by apply Hw, Hm. }
  case_bool_decide as Em.
  - eexists _, s. split; [done|]. split; [done|]. split; [done|]. 
    eapply (fillEntries_spec d (get (uc_cachedEntries s))); [fold missing; rewrite Em; by constructor|done|].
    intros op oe Hin Hg. assert (Hi : op ∈ missing) by by apply Hm. rewrite Em in Hi. by apply elem_of_nil in Hi.
  - destruct (res_mapM_fetch d missing (cache_db _ _ Hok) Hwm) as (es & E & Hf). unfold cbind, cret. rewrite E.
    destruct (loadAll_spec d missing es s Hok Hwm Hf) as (s' & -> & Hok' & Hc & Hout & Hin).
    { intros op Hi. apply Hm in Hi as [Hi _]. unfold coins. by rewrite Hi. }
    eexists _, s'. split; [done|]. split; [done|]. split; [done|].
    eapply (fillEntries_spec d (get (uc_cachedEntries s))); [done| |].
    + intros op oe Hg. rewrite Hout; [done|]. intros Hi. apply Hm in Hi as [Hi _]. congruence.
    + intros op oe Hi Hg. apply Hin. by apply Hm.
Qed.

Lemma fetchEntries_one d s op : cacheOk d s → wfOp op →
  ∃ oe s', fetchEntries log2u8 d [op] s = (Ok [oe], s') ∧ cacheOk d s' ∧ coinOf oe = coins d s op
    ∧ (∀ op', wfOp op' → coins d s' op' = coins d s op') ∧ get (uc_cachedEntries s') op = Some oe.
Proof.
  intros Hok Ho. destruct (fetchEntries_spec d s [op] Hok) as (es & s' & E & Hok' & Hc & Hf); [by constructor|].
  apply Forall2_cons_inv_l in Hf as (oe & es' & Hg & Hf & ->). apply Forall2_nil_inv_l in Hf as ->.
  exists oe, s'. split; [done|]. split; [done|]. split; [|done]. rewrite <- Hc by done. unfold coins. by rewrite Hg.
Qed.

(** The records appended through a pointer that may be nil. *)
Lemma stxos_nil (stxos : option (list SpentTxOut)) : (λ l, l ++ []) <$> stxos = stxos.
Proof. destruct stxos; [|done]. cbn. by rewrite app_nil_r. Qed.
Lemma stxos_app (stxos : option (list SpentTxOut)) cs cs' :
  (λ l, l ++ cs') <$> ((λ l, l ++ cs) <$> stxos) = (λ l, l ++ cs ++ cs') <$> stxos.
Proof. destruct stxos; [|done]. cbn. by rewrite app_assoc. Qed.

(** Spending one coin. *)
Lemma addTxIn_spec d s ti stxos c : cacheOk d s → wfOp (ti_PreviousOutPoint ti) →
  coins d s (ti_PreviousOutPoint ti) = Some c →
  ∃ s', addTxIn log2u8 d ti stxos s = (Ok ((λ l, l ++ [c]) <$> stxos), s') ∧ cacheOk d s'
    ∧ ∀ op', wfOp op' → coins d s' op' = if decide (op' = ti_PreviousOutPoint ti) then None else coins d s op'.
Proof.
  intros Hok Ho Hc. set (op := ti_PreviousOutPoint ti) in *.
  destruct (fetchEntries_one d s op Hok Ho) as (oe & s1 & E & Hok1 & Hco & Hsame & Hg). rewrite Hc in Hco.
  destruct oe as [e|]; [|done]. cbn in Hco. destruct (IsSpent e) eqn:Es; [done|]. injection Hco as <-.
  destruct (Spend_flags e) as (S1 & S2 & S3 & S4).
  destruct (mutate_spec Spend (uc_cachedEntries s1) op e (cache_slice _ _ Hok1) Hg) as [Hs2 Hg2].
  destruct (cache_entries _ _ Hok1 op _ Hg) as (_ & Hw & Hfresh & _).
  unfold addTxIn. fold op. unfold cbind at 1. rewrite E. unfold cbind, cupd, subMemory. cbn [fst snd].
  rewrite S2. destruct (isFresh e) eqn:Ef; cbn.
  - destruct (delete_spec (mutate Spend (uc_cachedEntries s1) op) op Hs2) as [Hs3 Hg3].
    eexists. split; [reflexivity|].
    set (s' := setEntries _ _ _). destruct (cacheOk_update d s1 s' op None Hok1 Hs3) as [H1 H2]; [|done|].
    { intros op'. unfold s'. cbn [uc_cachedEntries setEntries]. rewrite Hg3, Hg2. by case_decide. }
    split; [done|]. intros op' Ho'. case_decide as Eop; [|by rewrite H2, Hsame].
    subst op'. unfold coins, s'. cbn [uc_cachedEntries setEntries]. rewrite Hg3, decide_True by done. by apply Hfresh.
  - eexists. split; [reflexivity|].
    set (s' := setEntries _ _ _). destruct (cacheOk_update d s1 s' op (Some (Some (Spend e))) Hok1 Hs2) as [H1 H2]; [exact Hg2| |].
    { intros oe [= <-]. split; [done|]. rewrite S4, S2, S3 by done. done. }
    split; [done|]. intros op' Ho'. case_decide as Eop; [|by rewrite H2, Hsame].
    subst op'. unfold coins, s'. cbn [uc_cachedEntries setEntries]. rewrite Hg2, decide_True by done. cbn. by rewrite S1.
Qed.

Lemma addTxInsLoop_spec d ins s M stxos cs : cacheOk d s → represents d s M →
  Forall (λ ti, wfOp (ti_PreviousOutPoint ti)) ins → NoDup (ti_PreviousOutPoint <$> ins) →
  Forall2 (λ ti c, M !! ti_PreviousOutPoint ti = Some c) ins cs →
  ∃ s', addTxInsLoop log2u8 d ins stxos s = (Ok ((λ l, l ++ cs) <$> stxos), s') ∧ cacheOk d s'
    ∧ represents d s' (deleteAll (ti_PreviousOutPoint <$> ins) M).
Proof.
  intros Hok HM Hw Hnd Hf. revert s M stxos Hok HM Hf Hnd. revert cs.
  induction Hw as [|ti ins Ho Hw IH]; intros cs s M stxos Hok HM Hf Hnd.
  - apply Forall2_nil_inv_l in Hf as ->. exists s. split; [|done]. by rewrite stxos_nil.
  - apply Forall2_cons_inv_l in Hf as (c & cs' & Hc & Hf & ->). csimpl in Hnd. apply NoDup_cons in Hnd as [Hni Hnd].
    destruct (addTxIn_spec d s ti stxos c Hok Ho) as (s1 & E1 & Hok1 & Hs1); [by rewrite HM|].
    destruct (IH cs' s1 (delete (ti_PreviousOutPoint ti) M) ((λ l, l ++ [c]) <$> stxos) Hok1) as (s2 & E2 & Hok2 & HM2).
    + intros op Hop. rewrite Hs1 by done. case_decide as E; [subst; by rewrite lookup_delete_eq|].
      rewrite lookup_delete_ne by done. by apply HM.
    + eapply Forall2_impl; [apply Forall2_same_length_lookup_2; [by apply Forall2_length in Hf|]|].
      * intros i a b Ha Hb. exact (conj (list_elem_of_lookup_2 _ _ _ Ha) (Forall2_lookup_lr _ _ _ _ _ _ Hf Ha Hb)).
      * intros a b [Hin Hab]. rewrite lookup_delete_ne; [done|]. intros E. apply Hni. rewrite E. by apply list_elem_of_fmap_2.
    + done.
    + exists s2. cbn [addTxInsLoop]. unfold cbind. rewrite E1, E2. split; [|done]. by rewrite stxos_app.
Qed.

(** A well-formed transaction: what decoding and the sanity checks give. *)
Definition wfTxIns (tx : MsgTx) : Prop := Forall (λ ti, wfOp (ti_PreviousOutPoint ti)) (tx_TxIn tx).
Definition wfTxOuts (tx : MsgTx) : Prop :=
  Forall (λ o, 0 <= to_Value o < 2 ^ 60 ∧ zlen (to_PkScript o) < 2 ^ 32) (tx_TxOut tx).

Lemma newEntry_flags a pk h (cb : bool) :
  let e := mkUtxoEntry a pk h (Z.lor (Z.lor tfFresh tfModified) (if cb then tfCoinBase else 0)) in
  isFresh e = true ∧ isModified e = true ∧ IsSpent e = false ∧ stxoOf e = mkSpentTxOut a pk h cb.
Proof. by destruct cb. Qed.

Lemma addTxOuts_loop d hash cb h (i : nat) outs s M : length hash = 32%nat → 0 <= h < 2 ^ 31 →
  Forall (λ o, 0 <= to_Value o < 2 ^ 60 ∧ zlen (to_PkScript o) < 2 ^ 32) outs →
  Forall (λ p : OutPoint * SpentTxOut, cs_coin d p.1 = None) (spendableFrom hash cb h (Z.of_nat i) outs) →
  cacheOk d s → represents d s M →
  ∃ s', citer (λ p, addTxOut log2u8 (mkOutPoint hash (u32 (Z.of_nat p.1))) p.2 cb h)
          (imap (λ j o, ((i + j)%nat, o)) outs) s = (Ok tt, s')
    ∧ cacheOk d s' ∧ represents d s' (insertAll (spendableFrom hash cb h (Z.of_nat i) outs) M).
Proof.
  intros Hh Hht Hw. revert i s M. induction Hw as [|o outs [Hv Hl] Hw IH]; intros i s M Hn Hok HM.
  { exists s. done. }
  cbn [imap spendableFrom citer fst snd] in *. rewrite Nat.add_0_r. rewrite Forall_app in Hn. destruct Hn as [Hn1 Hn2].
  assert (Hi : Z.of_nat i + 1 = Z.of_nat (S i)) by lia. rewrite Hi in *.
  assert (Hstep : ∃ s1, addTxOut log2u8 (mkOutPoint hash (u32 (Z.of_nat i))) o cb h s = (Ok tt, s1) ∧ cacheOk d s1
    ∧ represents d s1 (insertAll (if IsUnspendable (to_PkScript o) then [] else
         [(mkOutPoint hash (u32 (Z.of_nat i)), mkSpentTxOut (to_Value o) (to_PkScript o) h cb)]) M)).
  { unfold addTxOut. destruct (IsUnspendable (to_PkScript o)); [by exists s|].
    set (e := mkUtxoEntry _ _ _ _). set (op := mkOutPoint _ _) in *.
    destruct (newEntry_flags (to_Value o) (to_PkScript o) h cb) as (F1 & F2 & F3 & F4). fold e in F1, F2, F3, F4.
    apply Forall_cons in Hn1 as [Hn1 _]. cbn in Hn1.
    destruct (putEntry_spec d s op (Some e) Hok) as (s1 & E1 & Hok1 & Hne & Heq & _).
    { split; [split; [done|by apply (wrapU_in 32)]|]. rewrite F1, F2, F4. split; [unfold wfCoin; cbn; lia|]. done. }
    exists s1. split; [done|]. split; [done|]. intros op' Ho'. unfold insertAll. cbn [foldl fst snd].
    destruct (decide (op' = op)) as [->|Hd].
    - rewrite lookup_insert_eq, Heq. cbn. by rewrite F3, F4.
    - rewrite lookup_insert_ne by done. rewrite Hne by done. by apply HM. }
  destruct Hstep as (s1 & E1 & Hok1 & HM1).
  destruct (IH (S i) s1 _ Hn2 Hok1 HM1) as (s2 & E2 & Hok2 & HM2). exists s2. unfold cbind. rewrite E1.
  split; [|split; [done|]].
  - rewrite <- E2. f_equal. apply imap_ext. intros j o' _. cbn. f_equal. lia.
  - unfold insertAll in *. by rewrite foldl_app.
Qed.

Hypothesis Hsha : ∀ b, length (sha256 b) = 32%nat.

Lemma TxHash_length tx : length (TxHash sha256 tx) = 32%nat.
Proof. apply Hsha. Qed.

Lemma connectTransaction_refines d s M tx h stxos cs : cacheOk d s → represents d s M → 0 <= h < 2 ^ 31 →
  wfTxIns tx → wfTxOuts tx → Forall (λ p : OutPoint * SpentTxOut, cs_coin d p.1 = None) (outsOf sha256 h tx) →
  txOk sha256 h M tx cs →
  ∃ s', connectTransaction log2u8 sha256 d tx h stxos s = (Ok ((λ l, l ++ cs) <$> stxos), s') ∧ cacheOk d s'
    ∧ represents d s' (txSet sha256 h M tx).
Proof.
  intros Hok HM Hh Hwi Hwo Hnew [_ Hin]. unfold connectTransaction, addTxIns, txSet.
  assert (H1 : ∃ s1, (if IsCoinBaseTx tx then cret (Ok stxos) else addTxInsLoop log2u8 d (tx_TxIn tx) stxos) s
      = (Ok ((λ l, l ++ cs) <$> stxos), s1) ∧ cacheOk d s1
      ∧ represents d s1 (if IsCoinBaseTx tx then M else deleteAll (insOf tx) M)).
  { destruct (IsCoinBaseTx tx).
    - subst cs. exists s. split; [|done]. by rewrite stxos_nil.
    - destruct Hin as [Hnd Hf]. by apply addTxInsLoop_spec. }
  destruct H1 as (s1 & E1 & Hok1 & HM1). unfold cbind at 1. rewrite E1. unfold addTxOuts.
  destruct (addTxOuts_loop d (TxHash sha256 tx) (IsCoinBaseTx tx) h 0 (tx_TxOut tx) s1 _ (TxHash_length tx) Hh Hwo Hnew Hok1 HM1)
    as (s2 & E2 & Hok2 & HM2).
  exists s2. unfold cbind. change (imap (λ j o, ((0 + j)%nat, o)) (tx_TxOut tx)) with (imap pair (tx_TxOut tx)) in E2.
  rewrite E2. done.
Qed.

Lemma connectLoop_refines d h txs s M stxos cs M' : cacheOk d s → represents d s M → 0 <= h < 2 ^ 31 →
  Forall wfTxIns txs → Forall wfTxOuts txs →
  Forall (λ tx, Forall (λ p : OutPoint * SpentTxOut, cs_coin d p.1 = None) (outsOf sha256 h tx)) txs →
  blockOk sha256 h M txs cs M' →
  ∃ s', connectLoop log2u8 sha256 d h txs stxos s = (Ok ((λ l, l ++ cs) <$> stxos), s') ∧ cacheOk d s'
    ∧ represents d s' M'.
Proof.
  intros Hok HM Hh Hwi Hwo Hnew Hb. revert s stxos Hok HM Hwi Hwo Hnew.
  induction Hb as [m|m tx txs cs rest m' Htx Hb IH]; intros s stxos Hok HM Hwi Hwo Hnew.
  - exists s. split; [|done]. by rewrite stxos_nil.
  - apply Forall_cons in Hwi as [Hi1 Hi2]. apply Forall_cons in Hwo as [Ho1 Ho2]. apply Forall_cons in Hnew as [Hn1 Hn2].
    destruct (connectTransaction_refines d s m tx h stxos cs Hok HM Hh Hi1 Ho1 Hn1 Htx) as (s1 & E1 & Hok1 & HM1).
    destruct (IH s1 ((λ l, l ++ cs) <$> stxos) Hok1 HM1 Hi2 Ho2 Hn2) as (s2 & E2 & Hok2 & HM2).
    exists s2. cbn [connectLoop]. unfold cbind. rewrite E1, E2. split; [|done]. by rewrite stxos_app.
Qed.

(** ** Flushing *)
Context (range : entryMap → list (OutPoint * option UtxoEntry)).
Hypothesis Hrange : ∀ m, range m ≡ₚ map_to_list m.

(** What stays of an entry in the cache after it is written. *)
Definition kept (eraseCache : bool) (oe : option UtxoEntry) : option (option UtxoEntry) :=
  if eraseCache then None
  else e ← oe; if IsSpent e then None else Some (Some (if isModified e then unflag e else e)).

Definition keptMap (eraseCache : bool) (m : entryMap) : entryMap := omap (kept eraseCache) m.

Lemma lookup_keptMap er m op : keptMap er m !! op = m !! op ≫= kept er.
Proof. apply lookup_omap. Qed.

Lemma writeEntry_spec er (d : D) op oe m mem : cs_wf d → entryOk d op oe → m !! op = Some oe →
  ∃ d' m' mem', writeEntry er d op oe m mem = Ok (d', m', mem') ∧ cs_wf d'
    ∧ (∀ op', wfOp op' → cs_coin d' op' = if decide (op' = op) then coinOf oe else cs_coin d op')
    ∧ (∀ op', m' !! op' = if decide (op' = op) then kept er oe else m !! op').
Proof.
  intros Hd [Ho Hoe] Hm. unfold writeEntry.
  assert (Hdel : ∀ op', delete op m !! op' = if decide (op' = op) then None else m !! op').
  { intros op'. case_decide as E; [subst; apply lookup_delete_eq|by rewrite lookup_delete_ne]. }
  assert (Hid : ∀ op', m !! op' = if decide (op' = op) then Some oe else m !! op').
  { intros op'. case_decide as E; [by subst|done]. }
  destruct oe as [e|]; [|destruct (cs_delete_spec d op Hd Ho) as [Hd' Hc]; eexists _, _, _;
    split; [done|]; split; [done|]; split; [done|]; destruct er; apply Hdel].
  unfold coinOf, kept. cbn [mbind option_bind]. destruct (IsSpent e) eqn:Es.
  { destruct (cs_delete_spec d op Hd Ho) as [Hd' Hc]. eexists _, _, _. split; [done|]. split; [done|]. split; [done|].
    destruct er; apply Hdel. }
  destruct Hoe as (Hw & _ & Hclean). destruct (isModified e) eqn:Em; cbn [negb].
  - destruct (cs_put_spec d op e Hd Ho Hw Es) as (d' & -> & Hd' & Hc). cbn [res_bind]. eexists _, _, _.
    split; [done|]. split; [done|]. split; [done|]. destruct er; [apply Hdel|]. intros op'.
    case_decide as E; [subst; by rewrite lookup_insert_eq|by rewrite lookup_insert_ne].
  - destruct (Hclean eq_refl) as [_ Hc]. eexists _, _, _. split; [done|]. split; [done|]. split.
    + intros op' _. case_decide as E; [by subst|done].
    + destruct er; [apply Hdel|apply Hid].
Qed.

Lemma entryOk_db d d' op oe : cs_coin d' op = cs_coin d op → entryOk d op oe → entryOk d' op oe.
Proof. intros E. unfold entryOk. by rewrite E. Qed.

Lemma writeMap_spec er order (d : D) m mem : cs_wf d → NoDup order.*1 →
  Forall (λ p, entryOk d p.1 p.2 ∧ m !! p.1 = Some p.2) order →
  ∃ d' m' mem', writeMap er d order m mem = (Ok tt, (d', m', mem')) ∧ cs_wf d'
    ∧ (∀ op, wfOp op → cs_coin d' op = match (list_to_map order : entryMap) !! op with
                                        | Some oe => coinOf oe | None => cs_coin d op end)
    ∧ (∀ op, m' !! op = match (list_to_map order : entryMap) !! op with
                        | Some oe => kept er oe | None => m !! op end).
Proof.
  revert d m mem. induction order as [|[op oe] order IH]; intros d m mem Hd Hnd Hw.
  { eexists _, _, _. split; [done|]. split; [done|]. split; intros op; cbn; by rewrite lookup_empty. }
  csimpl in Hnd. apply NoDup_cons in Hnd as [Hni Hnd]. apply Forall_cons in Hw as [[Hoe Hm] Hw]. cbn [fst snd] in Hoe, Hm.
  destruct (writeEntry_spec er d op oe m mem Hd Hoe Hm) as (d1 & m1 & mem1 & E1 & Hd1 & Hc1 & Hm1).
  assert (Hin : ∀ op' oe', (op', oe') ∈ order → op' ≠ op).
  { intros op' oe' Hin ->. apply Hni. by apply (list_elem_of_fmap_2 fst) in Hin. }
  destruct (IH d1 m1 mem1 Hd1 Hnd) as (d2 & m2 & mem2 & E2 & Hd2 & Hc2 & Hm2).
  { eapply Forall_impl; [|intros p Hp; exact Hp]. rewrite Forall_forall in Hw |- *. intros [op' oe'] Hp.
    destruct (Hw _ Hp) as [H1 H2]. cbn [fst snd] in *. specialize (Hin _ _ Hp). split.
    - eapply entryOk_db; [|exact H1]. rewrite Hc1, decide_False by (done || apply H1). done.
    - by rewrite Hm1, decide_False. }
  exists d2, m2, mem2. cbn [writeMap]. rewrite E1. split; [done|]. split; [done|]. cbn [list_to_map foldr fst snd].
  assert (Hno : (list_to_map order : entryMap) !! op = None) by (by apply not_elem_of_list_to_map_1).
  split.
  - intros op' Ho'. rewrite Hc2 by done. destruct (decide (op' = op)) as [->|Hne].
    + rewrite Hno, lookup_insert_eq, Hc1, decide_True by done. done.
    + rewrite lookup_insert_ne, Hc1, decide_False by done. done.
  - intros op'. rewrite Hm2. destruct (decide (op' = op)) as [->|Hne].
    + rewrite Hno, lookup_insert_eq, Hm1, decide_True by done. done.
    + rewrite lookup_insert_ne, Hm1, decide_False by done. done.
Qed.

(** A whole map. *)
Lemma writeMap_all er (d : D) (m : entryMap) mem : cs_wf d → map_Forall (entryOk d) m →
  ∃ d' mem', writeMap er d (range m) m mem = (Ok tt, (d', keptMap er m, mem')) ∧ cs_wf d'
    ∧ (∀ op, wfOp op → cs_coin d' op = match m !! op with Some oe => coinOf oe | None => cs_coin d op end).
Proof.
  intros Hd Hm. assert (Hnd : NoDup (range m).*1).
  { eapply (NoDup_Permutation_proper _ _ (fmap_Permutation fst _ _ (Hrange m))), NoDup_fst_map_to_list. }
  assert (El : list_to_map (range m) = m).
  { rewrite (list_to_map_proper _ _ Hnd (Hrange m)). apply list_to_map_to_list. }
  destruct (writeMap_spec er (range m) d m mem Hd Hnd) as (d' & m' & mem' & E & Hd' & Hc & Hm').
  { rewrite Hrange. apply Forall_forall. intros [op oe] Hp. apply elem_of_map_to_list in Hp. split; [by apply Hm|done]. }
  rewrite El in Hc, Hm'. exists d', mem'. split; [|done]. rewrite E. repeat f_equal. apply map_eq. intros op.
  rewrite Hm', lookup_keptMap. by destruct (m !! op).
Qed.

Lemma writeMaps_spec er maps (d : D) mem : cs_wf d → disjointMaps maps →
  (∀ op oe, getLoop maps op = Some oe → entryOk d op oe) →
  ∃ d' mem', writeMaps range er d maps mem = (Ok tt, (d', keptMap er <$> maps, mem')) ∧ cs_wf d'
    ∧ (∀ op, wfOp op → cs_coin d' op = match getLoop maps op with Some oe => coinOf oe | None => cs_coin d op end).
Proof.
  revert d mem. induction maps as [|m maps IH]; intros d mem Hd Hdis He.
  { eexists _, _. done. }
  destruct Hdis as [Hm Hdis]. destruct (writeMap_all er d m mem Hd) as (d1 & mem1 & E1 & Hd1 & Hc1).
  { intros op oe E. apply He. by rewrite getLoop_cons, E. }
  destruct (IH d1 mem1 Hd1 Hdis) as (d2 & mem2 & E2 & Hd2 & Hc2).
  { intros op oe Hg. assert (Hmn : m !! op = None).
    { destruct (m !! op) eqn:E; [|done]. rewrite (Hm op) in Hg; [done|by eexists]. }
    assert (Hoe : entryOk d op oe) by (apply He; by rewrite getLoop_cons, Hmn).
    eapply entryOk_db; [|exact Hoe]. rewrite Hc1 by apply Hoe. by rewrite Hmn. }
  exists d2, mem2. cbn [writeMaps]. rewrite E1, E2. split; [done|]. split; [done|]. intros op Ho.
  rewrite Hc2, getLoop_cons, Hc1 by done. destruct (m !! op) eqn:E; [|done]. rewrite (Hm op); [done|by eexists].
Qed.

Lemma getLoop_kept er maps op : disjointMaps maps → getLoop (keptMap er <$> maps) op = getLoop maps op ≫= kept er.
Proof.
  induction maps as [|m maps IH]; intros Hd; [done|]. destruct Hd as [Hm Hd].
  rewrite fmap_cons, !getLoop_cons, lookup_keptMap, (IH Hd). destruct (m !! op) as [oe|] eqn:E; [|done].
  cbn [mbind option_bind]. destruct (kept er oe) eqn:Ek; [done|]. rewrite (Hm op); [done|by eexists].
Qed.

Lemma disjoint_kept er maps : disjointMaps maps → disjointMaps (keptMap er <$> maps).
Proof.
  induction maps as [|m maps IH]; intros Hd; [done|]. destruct Hd as [Hm Hd]. rewrite fmap_cons. split; [|by apply IH].
  intros op [oe Hs]. rewrite getLoop_kept by done. rewrite lookup_keptMap in Hs.
  destruct (m !! op) as [oe'|] eqn:E; [|done]. rewrite (Hm op); [done|by eexists].
Qed.

(** What is kept is what the database now has. *)
Lemma kept_ok (d d' : D) er op oe oe' : entryOk d op oe → cs_coin d' op = coinOf oe → kept er oe = Some oe' →
  entryOk d' op oe' ∧ coinOf oe' = coinOf oe.
Proof.
  intros [Ho Hoe] Hc. unfold kept. destruct er; [done|]. destruct oe as [e|]; [|done]. cbn in Hc |- *.
  destruct (IsSpent e) eqn:Es; [done|]. intros [= <-]. destruct Hoe as (Hw & Hf & Hcl).
  destruct (unflag_flags e) as (U1 & U2 & U3 & U4). destruct (isModified e) eqn:Em; cbn.
  - rewrite U1, Es, U4. split; [|done]. split; [done|]. rewrite U2, U4. split; [done|]. split; [done|]. intros _. by rewrite U1.
  - rewrite Es. split; [|done]. split; [done|]. split; [done|]. split; [|done]. intros E. destruct (Hf E). congruence.
Qed.

Lemma coinOf_notkept (d : D) op oe : entryOk d op oe → kept false oe = None → coinOf oe = None.
Proof. intros _. destruct oe as [e|]; [|done]. cbn. by destruct (IsSpent e). Qed.

Lemma writeCache_refines er db s M best now : cacheOk (ud_coins db) s → represents (ud_coins db) s M →
  ∃ d' s', writeCache range db s best now er = (Ok tt, mkUtxoDb d' (Some best), s')
    ∧ cacheOk d' s' ∧ represents d' s' M ∧ (∀ op, wfOp op → cs_coin d' op = M !! op)
    ∧ (er = true → ∀ op, get (uc_cachedEntries s') op = None).
Proof.
  intros [Hd [Hl Hne Hdis] He] HM. destruct db as [d con]. cbn [ud_coins] in *. unfold writeCache. cbn [ud_coins ud_consistency].
  destruct (writeMaps_spec er (ms_maps (uc_cachedEntries s)) d 0 Hd Hdis He) as (d' & mem' & E & Hd' & Hc). rewrite E.
  assert (HcM : ∀ op, wfOp op → cs_coin d' op = M !! op).
  { intros op Ho. rewrite Hc, <- HM by done. done. }
  assert (Hfin : ∀ ms, sliceOk ms → (∀ op, get ms op = get (uc_cachedEntries s) op ≫= kept er) →
    (∀ op oe, get ms op = Some oe → entryOk d' op oe) ∧
    ∀ op, wfOp op → match get ms op with Some oe => coinOf oe | None => cs_coin d' op end = M !! op).
  { intros ms Hms Hg. split; intros op; rewrite Hg.
    - intros oe Hk. destruct (get (uc_cachedEntries s) op) as [oe0|] eqn:Eg; [|done]. cbn in Hk.
      pose proof (He op oe0 Eg) as Hoe0. eapply (kept_ok d d'); [done| |done]. rewrite Hc by apply Hoe0.
      unfold get in Eg. by rewrite Eg.
    - intros Ho. rewrite HcM by done. destruct (get (uc_cachedEntries s) op) as [oe0|] eqn:Eg; [|done]. cbn.
      destruct (kept er oe0) as [oe'|] eqn:Ek; [|done]. pose proof (He op oe0 Eg) as Hoe0.
      destruct (kept_ok d d' er op oe0 oe' Hoe0) as [_ ->]; [|done|].
      + rewrite Hc by done. unfold get in Eg. by rewrite Eg.
      + rewrite <- HM by done. unfold coins. by rewrite Eg. }
  assert (Hms : ∀ ms mem, sliceOk ms → (∀ op, get ms op = get (uc_cachedEntries s) op ≫= kept er) →
    let s' := setFlushed (setEntries s ms mem) best now in
    cacheOk d' s' ∧ represents d' s' M ∧ (∀ op, wfOp op → cs_coin d' op = M !! op)
    ∧ (er = true → ∀ op, get (uc_cachedEntries s') op = None)).
  { intros ms mem Hs Hg. destruct (Hfin ms Hs Hg) as [F1 F2]. split; [by split|]. split; [exact F2|]. split; [done|].
    intros -> op. cbn [uc_cachedEntries setFlushed setEntries]. rewrite Hg. by destruct (get _ op). }
  set (ms1 := mkMapSlice _ _ _). assert (Hs1 : sliceOk ms1).
  { split; cbn; [by rewrite length_fmap|by destruct (ms_maps _)|by apply disjoint_kept]. }
  assert (Hg1 : ∀ op, get ms1 op = get (uc_cachedEntries s) op ≫= kept er) by (intros op; by apply getLoop_kept).
  destruct er; [|eexists d', _; split; [done|]; by apply Hms].
  unfold deleteMaps. cbn [ms1 ms_maps ms_maxEntries ms_maxTotalMemoryUsage].
  destruct (ms_maps (uc_cachedEntries s)) as [|m0 maps] eqn:Em; [done|].
  destruct (ms_maxEntries (uc_cachedEntries s)) as [|n0 mx]; [done|]. rewrite fmap_cons. cbn [res_bind].
  assert (Hempty : keptMap true m0 = ∅).
  { apply map_eq. intros op. rewrite lookup_keptMap, lookup_empty. by destruct (m0 !! op). }
  rewrite Hempty. eexists d', _. split; [done|]. apply Hms.
  - by split.
  - intros op. unfold get at 1. cbn. rewrite lookup_empty. by destruct (get _ op).
Qed.

Lemma totalMemoryUsage_nonneg s : 0 <= totalMemoryUsage s.
Proof. unfold totalMemoryUsage. pose proof (wrapU_in 64 (u64 (ms_size (uc_cachedEntries s)) + uc_totalEntryMemory s)). unfold inU in *. lia. Qed.

Lemma flush_refines db s M mode best now : cacheOk (ud_coins db) s → represents (ud_coins db) s M →
  ∃ db' s', flush range db s mode best now = (Ok tt, db', s')
    ∧ cacheOk (ud_coins db') s' ∧ represents (ud_coins db') s' M
    ∧ (if shouldFlush s mode best now
       then ud_consistency db' = Some best ∧ ∀ op, wfOp op → cs_coin (ud_coins db') op = M !! op
       else db' = db ∧ s' = s)
    ∧ (mode = FlushRequired → (∀ op, wfOp op → cs_coin (ud_coins db') op = M !! op)
         ∧ ∀ op, get (uc_cachedEntries s') op = None).
Proof.
  intros Hok HM. unfold flush. destruct (shouldFlush s mode best now) eqn:Esf; cbn [negb].
  - destruct (writeCache_refines (bool_decide (mode = FlushRequired) || (uc_maxTotalMemoryUsage s <=? totalMemoryUsage s))
      db s M best now Hok HM) as (d' & s' & E & Hok' & HM' & Hc & Her).
    exists (mkUtxoDb d' (Some best)), s'. do 4 (split; [done|]). intros ->. split; [done|]. by apply Her.
  - exists db, s. do 4 (split; [done|]). intros ->. cbn [shouldFlush] in Esf. pose proof (totalMemoryUsage_nonneg s). lia.
Qed.

Lemma updateFlush_refines db s M mode best now : cacheOk (ud_coins db) s → represents (ud_coins db) s M →
  ∃ db' s', updateFlush range db s mode best now = (Ok tt, db', s')
    ∧ cacheOk (ud_coins db') s' ∧ represents (ud_coins db') s' M
    ∧ if shouldFlush s mode best now
      then ud_consistency db' = Some best ∧ ∀ op, wfOp op → cs_coin (ud_coins db') op = M !! op
      else db' = db ∧ s' = s.
Proof.
  intros Hok HM. destruct (flush_refines db s M mode best now Hok HM) as (db' & s' & E & H1 & H2 & H3 & _).
  unfold updateFlush. rewrite E. by exists db', s'.
Qed.

(** ** Recovery *)

(** The outpoints a block makes spendable. *)
Definition blockKeys (b : Block) : list OutPoint :=
  mjoin ((λ tx, fst <$> outsOf sha256 (blk_Height b) tx) <$> blk_Transactions b).

(** A run of blocks that validation accepts from the set [M] on. *)
Inductive chainOk : gmap OutPoint SpentTxOut → list Block → gmap OutPoint SpentTxOut → Prop :=
| chainOk_nil M : chainOk M [] M
| chainOk_cons M b bs cs M1 M2 :
    0 <= blk_Height b < 2 ^ 31 → Forall wfTxIns (blk_Transactions b) → Forall wfTxOuts (blk_Transactions b) →
    blockOk sha256 (blk_Height b) M (blk_Transactions b) cs M1 → chainOk M1 bs M2 →
    chainOk M (b :: bs) M2.

Lemma spendableFrom_wf hash cb h i outs k : length hash = 32%nat → k ∈ fst <$> spendableFrom hash cb h i outs → wfOp k.
Proof.
  intros Hh. revert i. induction outs as [|o outs IH]; intros i Hin; [by apply elem_of_nil in Hin|].
  cbn [spendableFrom] in Hin. rewrite fmap_app in Hin. apply elem_of_app in Hin as [Hin|Hin]; [|by eapply IH].
  destruct (IsUnspendable (to_PkScript o)); [by apply elem_of_nil in Hin|].
  csimpl in Hin. apply list_elem_of_singleton in Hin as ->. split; [done|by apply (wrapU_in 32)].
Qed.

Lemma elem_of_blockKeys b k : k ∈ blockKeys b ↔ ∃ tx, tx ∈ blk_Transactions b ∧ k ∈ fst <$> outsOf sha256 (blk_Height b) tx.
Proof.
  unfold blockKeys. rewrite list_elem_of_join. split.
  - intros (l & Hl & Hk). apply list_elem_of_fmap in Hk as (tx & -> & Hin). eauto.
  - intros (tx & Hin & Hk). eexists. split; [exact Hk|]. by apply (list_elem_of_fmap_2 (λ tx, fst <$> outsOf sha256 _ tx)).
Qed.

Lemma blockKeys_wf b k : k ∈ blockKeys b → wfOp k.
Proof.
  intros (tx & _ & Hk)%elem_of_blockKeys. eapply spendableFrom_wf; [apply TxHash_length|exact Hk].
Qed.

Lemma txSet_None h M tx k : M !! k = None → k ∉ fst <$> outsOf sha256 h tx → txSet sha256 h M tx !! k = None.
Proof.
  intros HM Hk. unfold txSet. rewrite lookup_insertAll_ne by done. destruct (IsCoinBaseTx tx); [done|].
  rewrite lookup_deleteAll. by case_decide.
Qed.

Lemma blockOk_None h M txs cs M' k : blockOk sha256 h M txs cs M' → M !! k = None →
  (∀ tx, tx ∈ txs → k ∉ fst <$> outsOf sha256 h tx) → M' !! k = None.
Proof.
  intros Hb. induction Hb as [m|m tx txs cs rest m' Htx Hb IH]; intros HM Hk; [done|].
  apply IH; [apply txSet_None; [done|apply Hk; by left]|]. intros tx' Hin. apply Hk. by right.
Qed.

Context (fetchBlock : bytes → res verr (list MsgTx)).

(** The outputs still to be created are in no set and not on disk. *)
Definition unseen (d : D) (M : gmap OutPoint SpentTxOut) (bs : list Block) : Prop :=
  NoDup (mjoin (blockKeys <$> bs)) ∧ ∀ k, k ∈ mjoin (blockKeys <$> bs) → cs_coin d k = None ∧ M !! k = None.

Lemma unseen_cons d M b bs : unseen d M (b :: bs) →
  (∀ tx, tx ∈ blk_Transactions b → Forall (λ p : OutPoint * SpentTxOut, cs_coin d p.1 = None) (outsOf sha256 (blk_Height b) tx))
  ∧ ∀ M1 cs, blockOk sha256 (blk_Height b) M (blk_Transactions b) cs M1 →
      unseen d M1 bs ∧ ∀ d', (∀ op, wfOp op → cs_coin d' op = M1 !! op) → unseen d' M1 bs.
Proof.
  intros [Hnd Hk]. rewrite fmap_cons in Hnd, Hk. cbn [mjoin list_join] in Hnd, Hk. apply NoDup_app in Hnd as (Hnd1 & Hdis & Hnd2).
  split.
  - intros tx Hin. apply Forall_forall. intros p Hp. apply Hk. apply elem_of_app. left. apply elem_of_blockKeys.
    exists tx. split; [done|]. by apply list_elem_of_fmap_2.
  - intros M1 cs Hb. assert (HM1 : ∀ k, k ∈ mjoin (blockKeys <$> bs) → M1 !! k = None).
    { intros k Hin. eapply blockOk_None; [exact Hb|apply Hk, elem_of_app; by right|].
      intros tx Htx Hkt. apply (Hdis k); [|done]. apply elem_of_blockKeys. by exists tx. }
    split; [|intros d' Hd']; (split; [done|]); intros k Hin; (split; [|by apply HM1]).
    + apply Hk, elem_of_app. by right.
    + rewrite Hd'; [by apply HM1|]. apply list_elem_of_join in Hin as (l & Hl & Hkl).
      apply list_elem_of_fmap in Hkl as (b' & -> & _). by eapply blockKeys_wf.
Qed.

Lemma replay_refines h nodes bs now interrupt db s M M' :
  Forall2 (λ p b, dbFetchBlockByNode fetchBlock h p = Ok b) nodes bs → (∀ p, interrupt p = false) →
  chainOk M bs M' → unseen (ud_coins db) M bs → cacheOk (ud_coins db) s → represents (ud_coins db) s M →
  ∃ db' s', replay log2u8 sha256 range fetchBlock h nodes interrupt now db s = (Ok tt, db', s')
    ∧ cacheOk (ud_coins db') s' ∧ represents (ud_coins db') s' M'.
Proof.
  intros Hf Hint Hch. revert nodes Hf db s.
  induction Hch as [M|M b bs cs M1 M2 Hh Hwi Hwo Hb Hch IH]; intros nodes Hf db s Hun Hok HM.
  { apply Forall2_nil_inv_r in Hf as ->. exists db, s. done. }
  apply Forall2_cons_inv_r in Hf as (p & nodes' & Hp & Hf & ->). cbn [replay]. rewrite Hp.
  destruct (unseen_cons _ _ _ _ Hun) as [Hnew Hrest]. destruct (Hrest M1 cs Hb) as [Hun1 Hun2].
  destruct (connectLoop_refines (ud_coins db) (blk_Height b) (blk_Transactions b) s M None cs M1 Hok HM Hh Hwi Hwo)
    as (s1 & E1 & Hok1 & HM1); [by apply Forall_forall|done|].
  unfold connectTransactions. rewrite E1.
  destruct (shouldFlush s1 FlushIfNeeded (blk_Hash b) now) eqn:Esf.
  - destruct (updateFlush_refines db s1 M1 FlushIfNeeded (blk_Hash b) now Hok1 HM1) as (db2 & s2 & E2 & Hok2 & HM2 & Hfl).
    rewrite E2. rewrite Esf in Hfl. rewrite Hint. apply IH; [done| |done..]. apply Hun2. apply Hfl.
  - rewrite Hint. by apply IH.
Qed.

(** The nodes above the ancestor [k] generations up, lowest first. *)
Fixpoint pathTo (h : heap) (k : nat) (p : ptr) : list ptr :=
  match k with
  | O => []
  | S k' => match h !! p ≫= bn_parent with Some q => pathTo h k' q ++ [p] | None => [p] end
  end.

Lemma attachLoop_path h (Hwf : wfHeap h) k fuel p pn fork acc : h !! p = Some pn → walk h k p = Some fork →
  (k < fuel)%nat → attachLoop fuel h (Some p) fork acc = Ok (pathTo h k p ++ acc).
Proof.
  revert fuel p pn acc. induction k as [|k IH]; intros fuel p pn acc Hp Hw Hf.
  - injection Hw as ->. destruct fuel as [|fuel]; [lia|]. cbn [attachLoop mbind option_bind]. rewrite Hp. cbn.
    pose proof (wf_range h Hwf fork pn Hp). destruct (Z.ltb_spec (bn_height pn) 0); [lia|]. by rewrite bool_decide_true.
  - destruct (walk_height h Hwf (S k) p pn fork Hp Hw) as (fn & Hfk & Hh).
    destruct fuel as [|fuel]; [lia|]. cbn [attachLoop mbind option_bind]. rewrite Hp. cbn.
    pose proof (wf_range h Hwf p pn Hp). destruct (Z.ltb_spec (bn_height pn) 0); [lia|].
    rewrite bool_decide_false; [|intros ->; rewrite Hp in Hfk; injection Hfk as <-; lia].
    cbn in Hw. rewrite Hp in Hw. cbn in Hw. destruct (bn_parent pn) as [q|] eqn:Hq; [|done]. cbn in Hw.
    destruct (wf_parent h Hwf p pn q Hp Hq) as (qn & Hqn & _). rewrite (IH fuel q qn (p :: acc) Hqn Hw) by lia.
    cbn [pathTo]. rewrite Hp. cbn [mbind option_bind]. rewrite Hq, <- app_assoc. done.
Qed.

Lemma findFork_on h (Hwf : wfHeap h) t tn p : h !! t = Some tn → onBranch h t p → findFork h (viewOf h t) (Some p) = Some p.
Proof.
  intros Ht Hb. destruct (onBranch_height h Hwf t tn p Ht Hb) as (pn & Hp & Hle & _).
  unfold findFork. cbn [mbind option_bind]. rewrite Hp. cbn [mbind option_bind]. unfold cv_height.
  rewrite (length_viewOf h t tn Ht). pose proof (wf_range h Hwf t tn Ht).
  destruct (Z.ltb_spec (Z.of_nat (S (Z.to_nat (bn_height tn))) - 1) (bn_height pn)); [lia|]. cbn [findForkLoop].
  by rewrite (proj2 (contains_view h Hwf t tn p Ht) Hb).
Qed.

Lemma newCache_ok d mx M : cs_wf d → (∀ op, wfOp op → cs_coin d op = M !! op) →
  cacheOk d (newUtxoCache log2u8 mx) ∧ represents d (newUtxoCache log2u8 mx) M.
Proof.
  intros Hd Hc. split.
  - split; [done|by split|]. intros op oe. unfold get. cbn. by rewrite lookup_empty.
  - intros op Ho. unfold coins, get. cbn. rewrite lookup_empty. by apply Hc.
Qed.

(** ** Properties *)

(** Connecting a block in the cache refines the transition of the unspent
    set: from a cache that, laid over the database, stands for the set [M], a
    block that is valid against [M] and creates no output that is still on disk
    connects without an error, records exactly the coins it spends in order,
    keeps the invariant of the cache and leaves it standing for the set after
    the block, while the database is not touched. *)
Lemma cache_connect_refines (d : D) (s : utxoCache) (M M' : gmap OutPoint SpentTxOut) (block : Block)
  (stxos : option (list SpentTxOut)) (cs : list SpentTxOut)
  (Hok : cacheOk d s) (HM : represents d s M) (Hh : 0 <= blk_Height block < 2 ^ 31)
  (Hwi : Forall wfTxIns (blk_Transactions block)) (Hwo : Forall wfTxOuts (blk_Transactions block))
  (Hnew : ∀ k, k ∈ blockKeys block → cs_coin d k = None)
  (Hb : blockOk sha256 (blk_Height block) M (blk_Transactions block) cs M') :
  ∃ s', connectTransactions log2u8 sha256 d block stxos s = (Ok ((λ l, l ++ cs) <$> stxos), s')
    ∧ cacheOk d s' ∧ represents d s' M'.
Proof.
  apply (connectLoop_refines d (blk_Height block) (blk_Transactions block) s M stxos cs M'); try done.
  apply Forall_forall. intros tx Htx. apply Forall_forall. intros p Hp. apply Hnew, elem_of_blockKeys.
  exists tx. split; [done|]. by apply list_elem_of_fmap_2.
Qed.

(** C8. Flushing is durable and invisible: whatever order the maps are visited
    in, a flush succeeds and the cache laid over the new database stands for the
    same set; when it writes (always in the required mode), the database alone
    then holds exactly that set, marked with the best block's hash, and
    otherwise nothing changes. *)
Theorem cache_flush_refines (db : utxoDb) (s : utxoCache) (M : gmap OutPoint SpentTxOut) (mode : FlushMode)
  (best : bytes) (now : Z) (Hok : cacheOk (ud_coins db) s) (HM : represents (ud_coins db) s M) :
  ∃ db' s', FlushUtxoCache range db s mode best now = (Ok tt, db', s')
    ∧ cacheOk (ud_coins db') s' ∧ represents (ud_coins db') s' M
    ∧ (if shouldFlush s mode best now
       then ud_consistency db' = Some best ∧ ∀ op, wfOp op → cs_coin (ud_coins db') op = M !! op
       else db' = db ∧ s' = s)
    ∧ (mode = FlushRequired → shouldFlush s mode best now = true).
Proof.
  assert (Hreq : mode = FlushRequired → shouldFlush s mode best now = true).
  { intros ->. apply Z.leb_le, totalMemoryUsage_nonneg. }
  unfold FlushUtxoCache. destruct (updateFlush_refines db s M mode best now Hok HM) as (db' & s' & E & H1 & H2 & H3).
  destruct (shouldFlush s mode best now) eqn:Esf; cbn [negb].
  - exists db', s'. done.
  - exists db, s. done.
Qed.

(** C7. Recovery after a crash: when the database holds the set [M] of the block
    its marker names, that block is on the branch of the tip and not the tip itself,
    no interrupt is requested, and the blocks above it are valid one after the other and create only new outputs, starting
    from an empty cache [InitConsistentState] returns without an error and the
    cache stands for the set at the tip, whatever flushes happen on the way. *)
Theorem recovery_reaches_tip (bi : blockIndex) (tip fork : ptr) (tn fn : blockNode) (k : nat) (mx now : Z)
  (d : D) (M M' : gmap OutPoint SpentTxOut) (bs : list Block) (interrupt : ptr → bool)
  (Hwf : wfHeap (bi_heap bi)) (Ht : bi_heap bi !! tip = Some tn) (Hfk : bi_heap bi !! fork = Some fn)
  (Hidx : LookupNode bi (bn_hash fn) = Some fork) (Hlen : length (bn_hash fn) = 32%nat)
  (Hwalk : walk (bi_heap bi) k tip = Some fork) (Hne : bn_hash fn ≠ bn_hash tn)
  (Hd : cs_wf d) (HM : ∀ op, wfOp op → cs_coin d op = M !! op)
  (Hblocks : Forall2 (λ p b, dbFetchBlockByNode fetchBlock (bi_heap bi) p = Ok b) (pathTo (bi_heap bi) k tip) bs)
  (Hch : chainOk M bs M') (Hun : unseen d M bs) (Hint : ∀ p, interrupt p = false) :
  ∃ db' s', InitConsistentState log2u8 sha256 range fetchBlock bi (viewOf (bi_heap bi) tip) tip interrupt now
              (mkUtxoDb d (Some (bn_hash fn))) (newUtxoCache log2u8 mx) = (Ok tt, db', s')
    ∧ cacheOk (ud_coins db') s' ∧ represents (ud_coins db') s' M' ∧ uc_lastFlushHash s' = bn_hash tn.
Proof.
  unfold InitConsistentState. rewrite Ht. cbn [ud_consistency]. rewrite Hlen. cbn [Nat.eqb negb].
  rewrite bool_decide_false by done. rewrite Hidx.
  rewrite (findFork_on _ Hwf tip tn fork Ht) by (by exists k).
  destruct (walk_height _ Hwf k tip tn fork Ht Hwalk) as (fn' & Hfn' & Hhk). rewrite Hfk in Hfn'. injection Hfn' as <-.
  pose proof (wf_range _ Hwf fork fn Hfk).
  rewrite (attachLoop_path _ Hwf k _ tip tn fork [] Ht Hwalk) by lia. rewrite app_nil_r.
  destruct (newCache_ok d mx M Hd HM) as [Hok Hrep].
  destruct (replay_refines (bi_heap bi) _ bs now interrupt (mkUtxoDb d (Some (bn_hash fn))) (newUtxoCache log2u8 mx) M M'
    Hblocks Hint Hch Hun Hok Hrep) as (db' & s' & -> & Hok' & Hrep').
  exists db', (setFlushed s' (bn_hash tn) now). split; [done|]. split; [|done]. destruct Hok'. by split.
Qed.
End spec.

(** A deleted block at or above the last flushed height is what forces a
    flush. *)
Lemma flushNeededAfterPrune_spec bi s hashes node : LookupNode bi (uc_lastFlushHash s) ≫= (bi_heap bi !!.) = Some node →
  0 <= bn_height node →
  flushNeededAfterPrune bi s hashes = true ↔
  ∃ hash nd, hash ∈ hashes ∧ LookupNode bi hash ≫= (bi_heap bi !!.) = Some nd ∧ bn_height node <= bn_height nd.
Proof.
  intros Hn Hpos. unfold flushNeededAfterPrune. rewrite Hn. rewrite Z.leb_le.
  set (f := λ (hi : Z) (hash : bytes), _).
  enough (Hg : ∀ hi, bn_height node <= foldl f hi hashes ↔ bn_height node <= hi ∨
    ∃ hash nd, hash ∈ hashes ∧ LookupNode bi hash ≫= (bi_heap bi !!.) = Some nd ∧ bn_height node <= bn_height nd).
  { rewrite Hg. split; [intros [|]; [lia|done]|by right]. }
  induction hashes as [|hash hashes IH]; intros hi; cbn [foldl].
  - split; [by left|]. intros [|(x & nd & Hx & _)]; [done|by apply elem_of_nil in Hx].
  - rewrite IH. unfold f at 1. clear IH. split.
    + intros [Hle|(x & nd & Hx & Hl & Hh)]; [|right; exists x, nd; split; [by right|done]].
      destruct (LookupNode bi hash ≫= (bi_heap bi !!.)) as [nd|] eqn:E; [|by left].
      destruct (Z.ltb_spec hi (bn_height nd)); [|by left]. right. exists hash, nd. split; [by left|done].
    + intros [Hle|(x & nd & Hx & Hl & Hh)].
      * left. destruct (LookupNode bi hash ≫= (bi_heap bi !!.)) as [nd|]; [|done]. destruct (Z.ltb_spec hi (bn_height nd)); lia.
      * apply elem_of_cons in Hx as [->|Hx]; [|right; by exists x, nd]. left. rewrite Hl.
        destruct (Z.ltb_spec hi (bn_height nd)); lia.
Qed.

(** ** A small run on the bucket of the database *)
#[local] Existing Instances ToySecp.toySecp ToySecp.toySecpLaws.

Module CacheDemo.
Definition cb : MsgTx :=
  mkMsgTx 1 [mkTxIn (mkOutPoint zeroHash (2 ^ 32 - 1)) [x01; x02] [] 0] [mkTxOut 50 [x51]] 0.
Definition sp : MsgTx :=
  mkMsgTx 1 [mkTxIn (mkOutPoint (TxHash toySha cb) 0) [] [] 0] [mkTxOut 20 [x51]; mkTxOut 30 [x6a]] 0.
Definition block : Block := mkBlock [cb; sp] 5 [x01] [x02].
Definition coin : SpentTxOut := mkSpentTxOut 50 [x51] 5 true.
Definition M1 : gmap OutPoint SpentTxOut := txSet toySha 5 ∅ cb.
Definition M2 : gmap OutPoint SpentTxOut := txSet toySha 5 M1 sp.
Definition db : bucket := ∅.
Definition log2 (n : Z) : Z := Z.log2 n.
Definition cache : utxoCache := newUtxoCache log2 (100 * 2 ^ 20).
Definition index : blockIndex := demoIndex 6.
Definition fetchBlock (_ : bytes) : res verr (list MsgTx) := Ok [cb; sp].
End CacheDemo.

Lemma demo_block_ok : blockOk toySha 5 ∅ [CacheDemo.cb; CacheDemo.sp] [CacheDemo.coin] CacheDemo.M2.
Proof.
  apply (blockOk_cons toySha 5 _ CacheDemo.cb [CacheDemo.sp] [] [CacheDemo.coin]).
  - split; [|reflexivity]. apply Forall_cons. split; [vm_compute; reflexivity|constructor].
  - apply (blockOk_cons toySha 5 _ CacheDemo.sp [] [CacheDemo.coin] []); [|constructor].
    split; [apply Forall_cons; split; [vm_compute; reflexivity|constructor]|].
    change (IsCoinBaseTx CacheDemo.sp) with false. cbv iota.
    split; [apply NoDup_singleton|]. constructor; [vm_compute; reflexivity|constructor].
Qed.

Lemma demo_ins : Forall wfTxIns [CacheDemo.cb; CacheDemo.sp].
Proof. repeat constructor; vm_compute; congruence. Qed.
Lemma demo_outs : Forall wfTxOuts [CacheDemo.cb; CacheDemo.sp].
Proof. repeat constructor; vm_compute; congruence. Qed.
Lemma demo_db_coin op : rowCoin CacheDemo.db op = (∅ : gmap OutPoint SpentTxOut) !! op.
Proof. unfold rowCoin, CacheDemo.db. by rewrite !lookup_empty. Qed.
Lemma demo_db_ok : bucketOk CacheDemo.db.
Proof. apply map_Forall_empty. Qed.
Lemma demo_cache : cacheOk (H0 := bucket_laws) CacheDemo.db CacheDemo.cache ∧ represents (H0 := bucket_laws) CacheDemo.db CacheDemo.cache ∅.
Proof. apply newCache_ok; [apply demo_db_ok|]. intros op _. apply demo_db_coin. Qed.

Lemma cache_connect_refines_witness :
  ∃ s', connectTransactions CacheDemo.log2 toySha CacheDemo.db CacheDemo.block (Some []) CacheDemo.cache
          = (Ok (Some [CacheDemo.coin]), s')
    ∧ represents (H0 := bucket_laws) CacheDemo.db s' CacheDemo.M2.
Proof.
  destruct (cache_connect_refines (H0 := bucket_laws) CacheDemo.log2 toySha toySha_length CacheDemo.db CacheDemo.cache ∅ CacheDemo.M2
    CacheDemo.block (Some []) [CacheDemo.coin]) as (s' & E & _ & HM).
  - apply demo_cache.
  - apply demo_cache.
  - vm_compute. split; congruence.
  - apply demo_ins.
  - apply demo_outs.
  - intros k _. apply demo_db_coin.
  - apply demo_block_ok.
  - exists s'. done.
Defined.

Lemma cache_flush_refines_witness :
  ∃ db' s', FlushUtxoCache map_to_list (mkUtxoDb CacheDemo.db None) CacheDemo.cache FlushRequired [x01] 7 = (Ok tt, db', s')
    ∧ ud_consistency db' = Some [x01].
Proof.
  destruct (cache_flush_refines (H0 := bucket_laws) map_to_list (λ m, reflexivity _) (mkUtxoDb CacheDemo.db None)
    CacheDemo.cache ∅ FlushRequired [x01] 7) as (db' & s' & E & _ & _ & Hw & Hreq).
  - apply demo_cache.
  - apply demo_cache.
  - rewrite (Hreq eq_refl) in Hw. exists db', s'. split; [exact E|apply Hw].
Defined.

Lemma recovery_reaches_tip_witness :
  ∃ db' s', InitConsistentState CacheDemo.log2 toySha map_to_list CacheDemo.fetchBlock CacheDemo.index
      (viewOf (bi_heap CacheDemo.index) 5) 5 (λ _, false) 7
      (mkUtxoDb CacheDemo.db (bn_hash <$> bi_heap CacheDemo.index !! 4%nat)) (newUtxoCache CacheDemo.log2 (100 * 2 ^ 20))
    = (Ok tt, db', s') ∧ represents (H0 := bucket_laws) (ud_coins db') s' CacheDemo.M2.
Proof.
  destruct (bi_heap CacheDemo.index !! 4%nat) as [fn|] eqn:Hf; [|vm_compute in Hf; discriminate].
  destruct (bi_heap CacheDemo.index !! 5%nat) as [tn|] eqn:Ht; [|vm_compute in Ht; discriminate].
  assert (Htn : dbFetchBlockByNode CacheDemo.fetchBlock (bi_heap CacheDemo.index) 5
    = Ok (mkBlock [CacheDemo.cb; CacheDemo.sp] 5 (bn_hash tn) (bn_hash fn))).
  { vm_compute in Hf, Ht. injection Hf as <-. injection Ht as <-. vm_compute. reflexivity. }
  destruct (recovery_reaches_tip (H0 := bucket_laws) CacheDemo.log2 toySha toySha_length map_to_list (λ m, reflexivity _)
    CacheDemo.fetchBlock CacheDemo.index 5 4 tn fn 1 (100 * 2 ^ 20) 7 CacheDemo.db ∅ CacheDemo.M2
    [mkBlock [CacheDemo.cb; CacheDemo.sp] 5 (bn_hash tn) (bn_hash fn)] (λ _, false))
    as (db' & s' & E & _ & HM & _).
  - apply demo_wf.
  - exact Ht.
  - exact Hf.
  - vm_compute in Hf. injection Hf as <-. vm_compute. reflexivity.
  - vm_compute in Hf. injection Hf as <-. vm_compute. reflexivity.
  - vm_compute. reflexivity.
  - vm_compute in Hf, Ht. injection Hf as <-. injection Ht as <-. vm_compute. discriminate.
  - apply demo_db_ok.
  - intros op _. apply demo_db_coin.
  - change (pathTo (bi_heap CacheDemo.index) 1 5) with [5%nat]. constructor; [exact Htn|constructor].
  - apply (chainOk_cons toySha ∅ _ [] [CacheDemo.coin] CacheDemo.M2); [vm_compute; split; congruence|apply demo_ins|apply demo_outs|apply demo_block_ok|constructor].
  - split; [|intros k _; split; [apply demo_db_coin|done]].
    apply (bool_decide_unpack _). vm_compute. exact I.
  - done.
  - exists db', s'. done.
Defined.
