(* ===== verification/ThresholdState.v ===== *)
(** * Version bits
    (src/node/blockchain/thresholdstate.go, src/node/blockchain/versionbits.go)

    The state of a deployment is computed per confirmation window, backwards
    from a block to the last window whose state is cached and forwards again.
    The caches are shared: checking an unknown bit asks for the expected
    version of a block, which itself computes and caches deployment states. *)
From Stdlib Require Import ZArith Lia Strings.Byte.
From stdpp Require Import base list gmap.
From S2P Require Import Prelude RuleErrors WireTx WireBlock Chaincfg BlockIndex.
Open Scope Z_scope.
Open Scope list_scope.

Inductive ThresholdState := ThresholdDefined | ThresholdStarted | ThresholdLockedIn | ThresholdActive | ThresholdFailed.

#[export] Instance ThresholdState_eq_dec : EqDecision ThresholdState.
Proof. solve_decision. Defined.

Definition vbTopBits : Z := 0x20000000.
Definition vbTopMask : Z := 0xe0000000.
Definition vbNumBits : nat := 29.

(** ** The caches *)
Abbreviation thresholdStateCache := (gmap bytes ThresholdState).

Record caches := mkCaches {
  warningCaches : list thresholdStateCache;
  deploymentCaches : list thresholdStateCache;
  unknownRulesWarned : bool }.

Definition newThresholdCaches (numCaches : nat) : list thresholdStateCache := replicate numCaches ∅.

(** A pointer to one of the caches. *)
Inductive cacheRef := WarningCache (bit : nat) | DeploymentCache (id : nat).

#[export] Instance cacheRef_eq_dec : EqDecision cacheRef.
Proof. solve_decision. Defined.

Definition cacheOf (c : caches) (r : cacheRef) : option thresholdStateCache :=
  match r with WarningCache i => warningCaches c !! i | DeploymentCache i => deploymentCaches c !! i end.

Definition Lookup (c : caches) (r : cacheRef) (hash : bytes) : option ThresholdState := cacheOf c r ≫= (.!! hash).
Definition Update (c : caches) (r : cacheRef) (hash : bytes) (state : ThresholdState) : caches :=
  match r with
  | WarningCache i => mkCaches (alter <[hash := state]> i (warningCaches c)) (deploymentCaches c) (unknownRulesWarned c)
  | DeploymentCache i => mkCaches (warningCaches c) (alter <[hash := state]> i (deploymentCaches c)) (unknownRulesWarned c)
  end.

(** Computations that read and write the caches. *)
Definition tsM (A : Type) : Type := caches → res verr A * caches.
Definition tret {A} (a : A) : tsM A := λ c, (Ok a, c).
Definition terr {A} (e : verr) : tsM A := λ c, (Err e, c).
Definition tbind {A B} (m : tsM A) (k : A → tsM B) : tsM B := λ c,
  match m c with (Ok a, c) => k a c | (Err e, c) => (Err e, c) end.

(** [thresholdConditionChecker] *)
Record thresholdConditionChecker := mkChecker {
  ck_HasStarted : ptr → bool;
  ck_HasEnded : ptr → bool;
  ck_RuleChangeActivationThreshold : Z;          (* uint32 *)
  ck_MinerConfirmationWindow : Z;                (* uint32 *)
  ck_EligibleToActivate : ptr → bool;
  ck_IsSpeedy : bool;
  ck_Condition : ptr → tsM bool;
  ck_ForceActive : option ptr → bool }.

Section versionbits.
Context (bi : blockIndex).
Let h : heap := bi_heap bi.

(** The block clock of the chain: the median over the header itself and its
    ancestors; a header without a parent, or whose parent is not indexed, has
    none. *)
Definition PastMedianTime (p : ptr) : res deploymentErr Z :=
  match h !! p with
  | None => Err ErrPastMedianTime
  | Some nd =>
      match (q ← bn_parent nd; qn ← h !! q; LookupNode bi (bn_hash qn)) with
      | None => Err ErrPastMedianTime
      | Some prevNode => Ok (median (bn_timestamp nd :: timestamps (H := nodeCtx h) (medianTimeBlocks - 1) (Some prevNode)))
      end
  end.

(** The blocks of the window, from [countNode] back, that fulfil the
    condition. *)
Fixpoint countLoop (checker : thresholdConditionChecker) (n : nat) (countNode : option ptr) (count : Z) : tsM Z :=
  match n with
  | O => tret count
  | S n' =>
      match countNode ≫= (λ p, (p,.) <$> h !! p) with
      | None => terr RuntimePanic
      | Some (p, nd) =>
          tbind (ck_Condition checker p) (λ condition,
          countLoop checker n' (bn_parent nd) (if condition then u32 (count + 1) else count))
      end
  end.

Definition thresholdStateTransition (state : ThresholdState) (prevNode : ptr) (checker : thresholdConditionChecker)
    (confirmationWindow : Z) : tsM ThresholdState :=
  match state with
  | ThresholdDefined =>
      if negb (ck_IsSpeedy checker) && ck_HasEnded checker prevNode then tret ThresholdFailed
      else if ck_HasStarted checker prevNode then tret ThresholdStarted else tret ThresholdDefined
  | ThresholdStarted =>
      if negb (ck_IsSpeedy checker) && ck_HasEnded checker prevNode then tret ThresholdFailed
      else tbind (countLoop checker (Z.to_nat confirmationWindow) (Some prevNode) 0) (λ count,
        if ck_RuleChangeActivationThreshold checker <=? count then tret ThresholdLockedIn
        else if ck_IsSpeedy checker && ck_HasEnded checker prevNode then tret ThresholdFailed
        else tret ThresholdStarted)
  | ThresholdLockedIn =>
      if negb (ck_EligibleToActivate checker prevNode) then tret ThresholdLockedIn else tret ThresholdActive
  | ThresholdActive => tret ThresholdActive
  | ThresholdFailed => tret ThresholdFailed
  end.

(** The walk back over the windows: where it stopped, and the nodes whose state
    is needed, the earliest first. *)
Fixpoint neededLoop (fuel : nat) (checker : thresholdConditionChecker) (cache : cacheRef) (confirmationWindow : Z)
    (prevNode : option ptr) (neededStates : list ptr) : tsM (option ptr * list ptr) :=
  match fuel, prevNode ≫= (λ p, (p,.) <$> h !! p) with
  | S fuel', Some (p, nd) => λ c,
      match Lookup c cache (bn_hash nd) with
      | Some _ => (Ok (Some p, neededStates), c)
      | None =>
          if negb (ck_HasStarted checker p)
          then (Ok (Some p, neededStates), Update c cache (bn_hash nd) ThresholdDefined)
          else neededLoop fuel' checker cache confirmationWindow (RelativeAncestor h p confirmationWindow) (p :: neededStates) c
      end
  | _, _ => tret (None, neededStates)
  end.

Fixpoint applyLoop (checker : thresholdConditionChecker) (cache : cacheRef) (confirmationWindow : Z)
    (state : ThresholdState) (neededStates : list ptr) : tsM ThresholdState :=
  match neededStates with
  | [] => tret state
  | p :: needed' =>
      tbind (thresholdStateTransition state p checker confirmationWindow) (λ state c,
        match h !! p with
        | None => (Err RuntimePanic, c)
        | Some nd => applyLoop checker cache confirmationWindow state needed' (Update c cache (bn_hash nd) state)
        end)
  end.

(** [prevNode] is the block before the one the state is for.  A window of zero
    blocks is a division by zero. *)
Definition thresholdState (prevNode : option ptr) (checker : thresholdConditionChecker) (cache : cacheRef)
  : tsM ThresholdState :=
  if ck_ForceActive checker prevNode then tret ThresholdActive else
  let confirmationWindow := i32 (ck_MinerConfirmationWindow checker) in
  match prevNode ≫= (λ p, (p,.) <$> h !! p) with
  | None => tret ThresholdDefined
  | Some (p, nd) =>
      if i32 (bn_height nd + 1) <? confirmationWindow then tret ThresholdDefined
      else if confirmationWindow =? 0 then terr RuntimePanic
      else
        let prevNode := Ancestor h p (i32 (bn_height nd - Z.rem (i32 (bn_height nd + 1)) confirmationWindow)) in
        tbind (neededLoop (S (Z.to_nat (bn_height nd))) checker cache confirmationWindow prevNode []) (λ r c,
          let '(prevNode, neededStates) := r in
          match prevNode ≫= (h !!.) with
          | None => applyLoop checker cache confirmationWindow ThresholdDefined neededStates c
          | Some nd =>
              match Lookup c cache (bn_hash nd) with
              | None => (Err AssertError, c)
              | Some state => applyLoop checker cache confirmationWindow state neededStates c
              end
          end)
  end.

(** ** The two checkers *)
Context (params : Params).

Definition okTrue {E} (r : res E bool) : bool := match r with Ok b => b | Err _ => false end.

Definition deploymentChecker (deployment : ConsensusDeployment) : thresholdConditionChecker :=
  let heightOf (p : ptr) : Z := u32 (u32 (default 0 (bn_height <$> h !! p)) + 1) in
  let threshold := CustomActivationThreshold deployment in
  {| ck_HasStarted p := okTrue (HasStarted (DeploymentStarter deployment) (PastMedianTime p));
     ck_HasEnded p := okTrue (HasEnded (DeploymentEnder deployment) (PastMedianTime p));
     ck_RuleChangeActivationThreshold :=
       if negb (threshold =? 0) then threshold else RuleChangeActivationThreshold params;
     ck_MinerConfirmationWindow := MinerConfirmationWindow params;
     ck_EligibleToActivate p :=
       if MinActivationHeight deployment =? 0 then true else MinActivationHeight deployment <=? heightOf p;
     ck_IsSpeedy := negb (MinActivationHeight deployment =? 0) || negb (threshold =? 0);
     ck_Condition p :=
       let conditionMask := u32 (Z.shiftl 1 (BitNumber deployment)) in
       let version := u32 (default 0 (bn_version <$> h !! p)) in
       tret ((Z.land version vbTopMask =? vbTopBits) && negb (Z.land version conditionMask =? 0));
     ck_ForceActive node :=
       match node with
       | None => false
       | Some p => EffectiveAlwaysActiveHeight deployment <=? heightOf p
       end |}.

Definition deploymentState (prevNode : option ptr) (deploymentID : nat) : tsM ThresholdState :=
  if (length (Deployments params) <? deploymentID)%nat then terr OtherError
  else match Deployments params !! deploymentID with
       | None => terr RuntimePanic                (* index out of range *)
       | Some deployment => thresholdState prevNode (deploymentChecker deployment) (DeploymentCache deploymentID)
       end.

Fixpoint versionLoop (prevNode : option ptr) (id : nat) (deployments : list ConsensusDeployment) (expectedVersion : Z)
  : tsM Z :=
  match deployments with
  | [] => tret (i32 expectedVersion)
  | deployment :: ds =>
      tbind (thresholdState prevNode (deploymentChecker deployment) (DeploymentCache id)) (λ state,
        versionLoop prevNode (S id) ds
          (if bool_decide (state = ThresholdStarted ∨ state = ThresholdLockedIn)
           then Z.lor expectedVersion (u32 (Z.shiftl 1 (BitNumber deployment))) else expectedVersion))
  end.
Definition calcNextBlockVersion (prevNode : option ptr) : tsM Z := versionLoop prevNode 0 (Deployments params) vbTopBits.

Definition bitConditionChecker (bit : nat) : thresholdConditionChecker :=
  {| ck_HasStarted _ := true;
     ck_HasEnded _ := false;
     ck_RuleChangeActivationThreshold := RuleChangeActivationThreshold params;
     ck_MinerConfirmationWindow := MinerConfirmationWindow params;
     ck_EligibleToActivate _ := true;
     ck_IsSpeedy := false;
     ck_Condition p :=
       let conditionMask := u32 (Z.shiftl 1 (Z.of_nat bit)) in
       match h !! p with
       | None => terr RuntimePanic
       | Some nd =>
           let version := u32 (bn_version nd) in
           if negb (Z.land version vbTopMask =? vbTopBits) then tret false
           else if Z.land version conditionMask =? 0 then tret false
           else tbind (calcNextBlockVersion (bn_parent nd)) (λ expectedVersion,
                  tret (Z.land (u32 expectedVersion) conditionMask =? 0))
       end;
     ck_ForceActive _ := false |}.

(** The bits are visited in order; only the first activation is reported. *)
Fixpoint warnLoop (node : blockNode) (bits : list nat) : tsM unit :=
  match bits with
  | [] => tret tt
  | bit :: bits' =>
      tbind (thresholdState (bn_parent node) (bitConditionChecker bit) (WarningCache bit)) (λ state c,
        warnLoop node bits'
          (if bool_decide (state = ThresholdActive)
           then mkCaches (warningCaches c) (deploymentCaches c) true else c))
  end.
Definition warnUnknownRuleActivations (node : blockNode) : tsM unit := warnLoop node (seq 0 vbNumBits).

Fixpoint initWarnings (prevNode : option ptr) (bits : list nat) : tsM unit :=
  match bits with
  | [] => tret tt
  | bit :: bits' =>
      tbind (thresholdState prevNode (bitConditionChecker bit) (WarningCache bit)) (λ _, initWarnings prevNode bits')
  end.
Fixpoint initDeployments (prevNode : option ptr) (id : nat) (ds : list ConsensusDeployment) : tsM unit :=
  match ds with
  | [] => tret tt
  | d :: ds' =>
      tbind (thresholdState prevNode (deploymentChecker d) (DeploymentCache id)) (λ _, initDeployments prevNode (S id) ds')
  end.
(** [current] is [b.isCurrent()]. *)
Definition initThresholdCaches (tipNode : blockNode) (current : bool) : tsM unit :=
  tbind (initWarnings (bn_parent tipNode) (seq 0 vbNumBits)) (λ _,
  tbind (initDeployments (bn_parent tipNode) 0 (Deployments params)) (λ _,
  if current then warnUnknownRuleActivations tipNode else tret tt)).

Definition IsDeploymentActive (tip : option ptr) (deploymentID : nat) : tsM bool :=
  tbind (deploymentState tip deploymentID) (λ state, tret (bool_decide (state = ThresholdActive))).
End versionbits.

(** ** The specification: the state of a window from the window before it *)
Section spec.
Context (h : heap) (checker : thresholdConditionChecker) (cond : ptr → bool) (w : Z).

(** The blocks among the last [n] from [p] on that fulfil the condition. *)
Fixpoint countWindow (n : nat) (p : option ptr) : Z :=
  match n, p ≫= (λ p, (p,.) <$> h !! p) with
  | S n', Some (p, nd) => (if cond p then 1 else 0) + countWindow n' (bn_parent nd)
  | _, _ => 0
  end.

Definition nextState (st : ThresholdState) (p : ptr) : ThresholdState :=
  match st with
  | ThresholdDefined =>
      if negb (ck_IsSpeedy checker) && ck_HasEnded checker p then ThresholdFailed
      else if ck_HasStarted checker p then ThresholdStarted else ThresholdDefined
  | ThresholdStarted =>
      if negb (ck_IsSpeedy checker) && ck_HasEnded checker p then ThresholdFailed
      else if ck_RuleChangeActivationThreshold checker <=? countWindow (Z.to_nat w) (Some p) then ThresholdLockedIn
      else if ck_IsSpeedy checker && ck_HasEnded checker p then ThresholdFailed
      else ThresholdStarted
  | ThresholdLockedIn => if ck_EligibleToActivate checker p then ThresholdActive else ThresholdLockedIn
  | st => st
  end.

Fixpoint stateF (fuel : nat) (p : ptr) : ThresholdState :=
  match fuel with
  | O => ThresholdDefined
  | S fuel' =>
      if ck_HasStarted checker p
      then nextState (match RelativeAncestor h p w with Some q => stateF fuel' q | None => ThresholdDefined end) p
      else ThresholdDefined
  end.

(** The state after the window that ends with [p]. *)
Definition stateAt (p : ptr) : ThresholdState := stateF (S (Z.to_nat (default 0 (bn_height <$> h !! p)))) p.

Context (Hwf : wfHeap h) (Hw : 0 < w < 2 ^ 31).

(** The window before: [w] blocks down, if there are as many. *)
Lemma relative_spec p nd q : h !! p = Some nd → RelativeAncestor h p w = Some q →
  ∃ qn, h !! q = Some qn ∧ bn_height qn = bn_height nd - w.
Proof.
  intros Hp. unfold RelativeAncestor. rewrite Hp. cbn. pose proof (wf_range h Hwf p nd Hp).
  rewrite wrapS_small by (unfold inS; lia). intros Ha.
  destruct (decide (w <= bn_height nd)).
  - rewrite (Ancestor_walk h Hwf p nd) in Ha by (done || lia).
    destruct (walk_height h Hwf _ p nd q Hp Ha) as (qn & Hq & Hh). exists qn. split; [done|lia].
  - rewrite (Ancestor_none h p nd) in Ha; [done|done|lia].
Qed.

Lemma stateF_enough f f' p nd : h !! p = Some nd → bn_height nd < Z.of_nat f → bn_height nd < Z.of_nat f' →
  stateF f p = stateF f' p.
Proof.
  revert f' p nd. induction f as [|f IH]; intros f' p nd Hp Hf Hf'; [pose proof (wf_range h Hwf p nd Hp); lia|].
  destruct f' as [|f']; [pose proof (wf_range h Hwf p nd Hp); lia|]. cbn [stateF].
  destruct (RelativeAncestor h p w) as [q|] eqn:Hr; [|done].
  destruct (relative_spec p nd q Hp Hr) as (qn & Hq & Hh). by rewrite (IH f' q qn Hq) by lia.
Qed.

Lemma stateAt_unfold p nd : h !! p = Some nd →
  stateAt p = if ck_HasStarted checker p
              then nextState (match RelativeAncestor h p w with Some q => stateAt q | None => ThresholdDefined end) p
              else ThresholdDefined.
Proof.
  intros Hp. unfold stateAt at 1. cbn [stateF]. destruct (RelativeAncestor h p w) as [q|] eqn:Hr; [|done].
  destruct (relative_spec p nd q Hp Hr) as (qn & Hq & Hh). unfold stateAt. rewrite Hp, Hq. cbn [fmap option_fmap option_map default from_option id].
  pose proof (wf_range h Hwf q qn Hq). pose proof (wf_range h Hwf p nd Hp).
  by rewrite (stateF_enough (Z.to_nat (bn_height nd)) (S (Z.to_nat (bn_height qn))) q qn Hq) by lia.
Qed.

Lemma countWindow_le n p : 0 <= countWindow n p <= Z.of_nat n.
Proof.
  revert p. induction n as [|n IH]; intros p; cbn [countWindow]; [lia|].
  destruct (p ≫= _) as [[q nd]|]; [|lia]. specialize (IH (bn_parent nd)). destruct (cond q); lia.
Qed.
End spec.

(** ** The caches compute the specification *)
Section refine.
Context (bi : blockIndex) (Hwf : wfHeap (bi_heap bi)).
Context (checker : thresholdConditionChecker) (cache : cacheRef) (cond : ptr → bool) (Inv : caches → Prop).
Let h := bi_heap bi.
Let w := i32 (ck_MinerConfirmationWindow checker).
Context (Hw : 0 < w).

(** What the condition and the cache promise under the invariant of the
    caches. *)
Context (Hcond : ∀ p c, is_Some (h !! p) → Inv c → ∃ c', ck_Condition checker p c = (Ok (cond p), c') ∧ Inv c').
Context (Hlook : ∀ p nd c st, h !! p = Some nd → Inv c → Lookup c cache (bn_hash nd) = Some st →
  st = stateAt h checker cond w p).
Context (Hupd : ∀ p nd c, h !! p = Some nd → Inv c →
  Inv (Update c cache (bn_hash nd) (stateAt h checker cond w p))
  ∧ Lookup (Update c cache (bn_hash nd) (stateAt h checker cond w p)) cache (bn_hash nd) = Some (stateAt h checker cond w p)).

Lemma w_range : 0 < w < 2 ^ 31.
Proof. split; [done|]. unfold w. pose proof (wrapS_in 32 (ck_MinerConfirmationWindow checker)). unfold inS in *. lia. Qed.

Lemma countLoop_spec n p nd count c : h !! p = Some nd → Z.of_nat n <= bn_height nd + 1 → Inv c →
  0 <= count → count + Z.of_nat n < 2 ^ 32 →
  ∃ c', countLoop bi checker n (Some p) count c = (Ok (count + countWindow h cond n (Some p)), c') ∧ Inv c'.
Proof.
  revert p nd count c. induction n as [|n IH]; intros p nd count c Hp Hn Hc H0 Hlt.
  { exists c. split; [|done]. cbn. unfold tret. by rewrite Z.add_0_r. }
  cbn [countLoop countWindow mbind option_bind]. fold h. rewrite Hp. cbn [fmap option_fmap option_map].
  destruct (Hcond p c) as (c1 & E1 & Hc1); [by eexists|done|]. unfold tbind. rewrite E1.
  set (count' := if cond p then u32 (count + 1) else count).
  assert (Hcnt : count' = count + (if cond p then 1 else 0)).
  { unfold count'. destruct (cond p); [|lia]. apply wrapU_small. unfold inU. lia. }
  assert (0 <= (if cond p then 1 else 0) <= 1) by (destruct (cond p); lia).
  clearbody count'. destruct (bn_parent nd) as [q|] eqn:Hq.
  - destruct (wf_parent h Hwf p nd q Hp Hq) as (qn & Hqn & Hh & _).
    destruct (IH q qn count' c1 Hqn) as (c2 & E2 & Hc2); [lia|done|lia..|].
    exists c2. rewrite E2. split; [|done]. do 2 f_equal. lia.
  - destruct (wf_root h Hwf p nd Hp Hq) as [Hz _]. assert (n = 0)%nat as -> by lia.
    exists c1. split; [|done]. cbn. unfold tret. do 2 f_equal. lia.
Qed.

Lemma transition_spec st p nd c : h !! p = Some nd → w <= bn_height nd + 1 → Inv c →
  ∃ c', thresholdStateTransition bi st p checker w c = (Ok (nextState h checker cond w st p), c') ∧ Inv c'.
Proof.
  intros Hp Hh Hc. pose proof w_range. pose proof (wf_range h Hwf p nd Hp).
  unfold thresholdStateTransition, nextState. destruct st.
  - exists c. destruct (_ && _); [done|]. by destruct (ck_HasStarted checker p).
  - destruct (negb _ && _); [by exists c|].
    destruct (countLoop_spec (Z.to_nat w) p nd 0 c Hp) as (c' & E & Hc'); [lia|done|lia..|].
    exists c'. unfold tbind. rewrite E, Z.add_0_l. destruct (_ <=? _); [done|]. by destruct (_ && _).
  - exists c. by destruct (ck_EligibleToActivate checker p).
  - by exists c.
  - by exists c.
Qed.

(** The last block of a window. *)
Definition windowEnd (nd : blockNode) : Prop := (bn_height nd + 1) mod w = 0.

Lemma windowEnd_le nd : windowEnd nd → 0 <= bn_height nd → w <= bn_height nd + 1.
Proof.
  intros He Hh. unfold windowEnd in He. pose proof w_range. pose proof (Z.div_mod (bn_height nd + 1) w).
  assert (0 < (bn_height nd + 1) / w) by nia. nia.
Qed.

(** The nodes still to be computed, the earliest first: each is started and one
    window above the one before; the first is above [start]. *)
Fixpoint chained (start : option ptr) (needed : list ptr) : Prop :=
  match needed with
  | [] => True
  | p :: needed' => (∃ nd, h !! p = Some nd ∧ windowEnd nd) ∧ ck_HasStarted checker p = true
      ∧ RelativeAncestor h p w = start ∧ chained (Some p) needed'
  end.

Definition stateOf (start : option ptr) : ThresholdState :=
  match start with Some q => stateAt h checker cond w q | None => ThresholdDefined end.

Lemma applyLoop_spec needed start c : chained start needed → Inv c →
  ∃ c', applyLoop bi checker cache w (stateOf start) needed c
          = (Ok (stateOf (match last needed with Some p => Some p | None => start end)), c') ∧ Inv c'.
Proof.
  revert start c. induction needed as [|p needed IH]; intros start c Hch Hc; [by exists c|].
  destruct Hch as ((nd & Hp & Hh) & Hs & Hr & Hch). cbn [applyLoop].
  destruct (transition_spec (stateOf start) p nd c Hp) as (c1 & E1 & Hc1);
    [apply windowEnd_le; [done|by apply (wf_range h Hwf p)]|done|]. unfold tbind. rewrite E1.
  assert (Est : nextState h checker cond w (stateOf start) p = stateAt h checker cond w p).
  { rewrite (stateAt_unfold h checker cond w Hwf w_range p nd Hp), Hs, Hr. by destruct start. }
  rewrite Est. fold h. rewrite Hp. destruct (Hupd p nd c1 Hp Hc1) as [Hc2 _].
  destruct (IH (Some p) _ Hch Hc2) as (c3 & E3 & Hc3). exists c3. split; [|done].
  etransitivity; [exact E3|]. rewrite last_cons. by destruct (last needed).
Qed.

Lemma last_cons_some {A} (x : A) l : last (x :: l) = Some (default x (last l)).
Proof. rewrite last_cons. by destruct (last l). Qed.

(** The walk back stops at a node whose state is cached, or before the first
    window. *)
Lemma neededLoop_spec fuel p nd needed c : h !! p = Some nd → bn_height nd < Z.of_nat fuel → windowEnd nd → Inv c →
  chained (Some p) needed →
  ∃ start needed' c', neededLoop bi fuel checker cache w (Some p) needed c = (Ok (start, needed'), c') ∧ Inv c'
    ∧ chained start needed'
    ∧ match last needed' with Some q => Some q | None => start end = match last needed with Some q => Some q | None => Some p end
    ∧ match start with
      | Some q => ∃ qn, h !! q = Some qn ∧ Lookup c' cache (bn_hash qn) = Some (stateAt h checker cond w q)
      | None => True
      end.
Proof.
  revert p nd needed c. induction fuel as [|fuel IH]; intros p nd needed c Hp Hf Hh Hc Hch.
  { pose proof (wf_range h Hwf p nd Hp). lia. }
  cbn [neededLoop mbind option_bind]. fold h. rewrite Hp. cbn [fmap option_fmap option_map].
  destruct (Lookup c cache (bn_hash nd)) as [st|] eqn:El.
  { eexists _, _, _. split; [done|]. split; [done|]. split; [done|]. split; [done|].
    exists nd. split; [done|]. by rewrite El, (Hlook p nd c st Hp Hc El). }
  destruct (ck_HasStarted checker p) eqn:Hs; cbn [negb].
  2:{ destruct (Hupd p nd c Hp Hc) as [Hc1 Hl1].
      assert (Est : stateAt h checker cond w p = ThresholdDefined) by (by rewrite (stateAt_unfold h checker cond w Hwf w_range p nd Hp), Hs).
      rewrite Est in Hc1, Hl1. eexists _, _, _. split; [done|]. split; [done|]. split; [done|]. split; [done|].
      exists nd. split; [done|]. by rewrite Hl1, Est. }
  destruct (RelativeAncestor h p w) as [q|] eqn:Hr.
  - destruct (relative_spec h w Hwf w_range p nd q Hp Hr) as (qn & Hq & Hhq).
    assert (Hch' : chained (Some q) (p :: needed)) by (split; [by exists nd|done]).
    pose proof (wf_range h Hwf q qn Hq). pose proof w_range.
    assert (Hwq : windowEnd qn).
    { unfold windowEnd in *. rewrite Hhq. replace (bn_height nd - w + 1) with (bn_height nd + 1 + (-1) * w) by lia.
      by rewrite Z.mod_add by lia. }
    destruct (IH q qn (p :: needed) c Hq) as (start & needed' & c' & E & Hc' & Hch1 & Hl & Hst); [lia|done..|].
    exists start, needed', c'. split; [done|]. split; [done|]. split; [done|]. split; [|done].
    rewrite Hl, last_cons. by destruct (last needed).
  - exists None, (p :: needed), c. split; [by destruct fuel|]. split; [done|]. split; [split; [by exists nd|done]|].
    split; [|done]. rewrite last_cons. by destruct (last needed).
Qed.

(** The state for the block after [prev]. *)
Definition specState (prev : option ptr) : ThresholdState :=
  if ck_ForceActive checker prev then ThresholdActive
  else match prev ≫= (λ p, (p,.) <$> h !! p) with
       | None => ThresholdDefined
       | Some (p, nd) =>
           if bn_height nd + 1 <? w then ThresholdDefined
           else stateOf (Ancestor h p (bn_height nd - (bn_height nd + 1) mod w))
       end.

Context (Hlow : ∀ p nd, h !! p = Some nd → bn_height nd + 1 < 2 ^ 31).

Lemma windowEnd_ancestor p nd : h !! p = Some nd → w <= bn_height nd + 1 →
  ∃ q qn, Ancestor h p (bn_height nd - (bn_height nd + 1) mod w) = Some q ∧ h !! q = Some qn ∧ windowEnd qn
    ∧ bn_height qn = bn_height nd - (bn_height nd + 1) mod w.
Proof.
  intros Hp Hh. pose proof w_range. pose proof (wf_range h Hwf p nd Hp).
  pose proof (Z.mod_pos_bound (bn_height nd + 1) w). set (r := (bn_height nd + 1) mod w) in *.
  assert (Hr : r <= bn_height nd).
  { destruct (decide (w = bn_height nd + 1)) as [E|]; [|lia]. unfold r. rewrite <- E, Z.mod_same by lia. lia. }
  rewrite (Ancestor_walk h Hwf p nd) by (done || lia).
  destruct (walk_spec h Hwf (Z.to_nat (bn_height nd - (bn_height nd - r))) p nd Hp) as (q & qn & Hwq & Hq & Hhq); [lia|].
  exists q, qn. split; [done|]. split; [done|]. assert (Hhq' : bn_height qn = bn_height nd - r) by lia. split; [|done].
  unfold windowEnd. rewrite Hhq'. replace (bn_height nd - r + 1) with (bn_height nd + 1 - r) by lia.
  unfold r. rewrite <- Zminus_mod_idemp_l, Z.sub_diag. by apply Z.mod_0_l; lia.
Qed.

Lemma thresholdState_refines prev c : Inv c →
  ∃ c', thresholdState bi prev checker cache c = (Ok (specState prev), c') ∧ Inv c'.
Proof.
  intros Hc. unfold thresholdState, specState. destruct (ck_ForceActive checker prev); [by exists c|].
  fold h. fold w. destruct (prev ≫= _) as [[p nd]|] eqn:Ep; [|by exists c].
  destruct prev as [p0|]; [|done]. cbn in Ep. destruct (h !! p0) as [nd0|] eqn:Hp; [|done]. cbn in Ep. injection Ep as -> ->.
  pose proof (wf_range h Hwf p nd Hp). pose proof (Hlow p nd Hp). pose proof w_range.
  rewrite (wrapS_small 32 (bn_height nd + 1)) by (unfold inS; lia).
  destruct (Z.ltb_spec (bn_height nd + 1) w); [by exists c|]. destruct (Z.eqb_spec w 0); [lia|].
  rewrite Z.rem_mod_nonneg by lia. pose proof (Z.mod_pos_bound (bn_height nd + 1) w).
  rewrite wrapS_small by (unfold inS; lia).
  destruct (windowEnd_ancestor p nd Hp) as (q & qn & -> & Hq & He & Hhq); [lia|].
  destruct (neededLoop_spec (S (Z.to_nat (bn_height nd))) q qn [] c Hq) as (start & needed & c1 & E1 & Hc1 & Hch & Hl & Hst);
    [lia|done|done|done|]. unfold tbind. rewrite E1. cbn [last] in Hl.
  assert (Hrun : ∃ c', applyLoop bi checker cache w (stateOf start) needed c1 = (Ok (stateOf (Some q)), c') ∧ Inv c').
  { destruct (applyLoop_spec needed start c1 Hch Hc1) as (c2 & E2 & Hc2). exists c2. by rewrite E2, Hl. }
  destruct start as [x|]; cbn [mbind option_bind]; [|exact Hrun].
  destruct Hst as (xn & Hx & Hlx). rewrite Hx, Hlx. exact Hrun.
Qed.
End refine.

(** ** Both kinds of checkers together *)
Section chain.
Context (bi : blockIndex) (params : Params).
Let h := bi_heap bi.
Let w := i32 (MinerConfirmationWindow params).

Definition depCond (d : ConsensusDeployment) (p : ptr) : bool :=
  let version := u32 (default 0 (bn_version <$> h !! p)) in
  (Z.land version vbTopMask =? vbTopBits) && negb (Z.land version (u32 (Z.shiftl 1 (BitNumber d))) =? 0).

(** The state of deployment [d] for the block after [prev]. *)
Definition deploymentSpec (d : ConsensusDeployment) (prev : option ptr) : ThresholdState :=
  specState bi (deploymentChecker bi params d) (depCond d) prev.

(** The version a block after [prev] should have. *)
Definition versionSpec (prev : option ptr) : Z :=
  i32 (foldl (λ v d, if bool_decide (deploymentSpec d prev = ThresholdStarted ∨ deploymentSpec d prev = ThresholdLockedIn)
                     then Z.lor v (u32 (Z.shiftl 1 (BitNumber d))) else v) vbTopBits (Deployments params)).

Definition bitCond (bit : nat) (p : ptr) : bool :=
  match h !! p with
  | None => false
  | Some nd =>
      let version := u32 (bn_version nd) in
      let mask := u32 (Z.shiftl 1 (Z.of_nat bit)) in
      (Z.land version vbTopMask =? vbTopBits) && negb (Z.land version mask =? 0)
      && (Z.land (u32 (versionSpec (bn_parent nd))) mask =? 0)
  end.

(** The state of the unknown rule signalled by [bit]. *)
Definition unknownSpec (bit : nat) (prev : option ptr) : ThresholdState :=
  specState bi (bitConditionChecker bi params bit) (bitCond bit) prev.

Definition validCache (c : caches) (r : cacheRef) (state : ptr → ThresholdState) : Prop :=
  is_Some (cacheOf c r) ∧ ∀ p nd st, h !! p = Some nd → Lookup c r (bn_hash nd) = Some st → st = state p.

Definition depValid (c : caches) : Prop := ∀ id d, Deployments params !! id = Some d →
  validCache c (DeploymentCache id) (stateAt h (deploymentChecker bi params d) (depCond d) w).

(** Every cached state is the specified one. *)
Definition validCaches (c : caches) : Prop := depValid c ∧ ∀ bit, (bit < vbNumBits)%nat →
  validCache c (WarningCache bit) (stateAt h (bitConditionChecker bi params bit) (bitCond bit) w).

Lemma Lookup_Update c r r' hash hash' st : is_Some (cacheOf c r) →
  Lookup (Update c r hash st) r' hash' = if decide (r' = r ∧ hash' = hash) then Some st else Lookup c r' hash'.
Proof.
  intros [m Hm]. unfold Lookup, Update, cacheOf in *.
  destruct r as [i|i], r' as [j|j]; cbn [warningCaches deploymentCaches]; try (rewrite decide_False by naive_solver; done).
  all: destruct (decide (j = i)) as [->|Hne];
    [rewrite list_lookup_alter_eq, Hm|rewrite list_lookup_alter_ne by done; rewrite decide_False by naive_solver; done].
  all: cbn; destruct (decide (hash' = hash)) as [->|Hne];
    [rewrite lookup_insert_eq, decide_True by done; done|rewrite lookup_insert_ne, decide_False by naive_solver; done].
Qed.

Lemma cacheOf_Update c r r' hash st : is_Some (cacheOf c r') → is_Some (cacheOf (Update c r hash st) r').
Proof.
  intros [m Hm]. unfold Update, cacheOf in *. destruct r as [i|i], r' as [j|j]; cbn; try (by eexists).
  all: destruct (decide (j = i)) as [->|Hne]; [rewrite list_lookup_alter_eq, Hm; by eexists|].
  all: rewrite list_lookup_alter_ne by done; by eexists.
Qed.

Context (Hinj : ∀ p q pn qn, h !! p = Some pn → h !! q = Some qn → bn_hash pn = bn_hash qn → p = q).

Lemma validCache_Update c r r' state state' p nd : h !! p = Some nd → is_Some (cacheOf c r) → validCache c r' state' →
  (r' = r → state' = state) → validCache (Update c r (bn_hash nd) (state p)) r' state'.
Proof.
  intros Hp Hr [Hs Hv] Hst. split; [by apply cacheOf_Update|]. intros q qn st Hq. rewrite Lookup_Update by done.
  case_decide as E; [|by apply (Hv q qn)]. destruct E as [-> E]. intros [= <-]. rewrite (Hst eq_refl).
  by rewrite (Hinj q p qn nd Hq Hp E).
Qed.

Context (Hwf : wfHeap h) (Hlow : ∀ p nd, h !! p = Some nd → bn_height nd + 1 < 2 ^ 31) (Hw : 0 < w).

Lemma deployment_refines id d prev c : Deployments params !! id = Some d → validCaches c →
  ∃ c', thresholdState bi prev (deploymentChecker bi params d) (DeploymentCache id) c = (Ok (deploymentSpec d prev), c')
    ∧ validCaches c'.
Proof.
  intros Hd Hc. apply (thresholdState_refines bi Hwf (deploymentChecker bi params d) (DeploymentCache id) (depCond d) validCaches); try done.
  - intros p c0 _ Hc0. by exists c0.
  - intros p nd c0 st Hp [Hc0 _]. by apply (Hc0 id d).
  - intros p nd c0 Hp [Hdep Hbit]. destruct (Hdep id d Hd) as [Hs _]. split; [|by rewrite Lookup_Update, decide_True].
    split.
    + intros id' d' Hd'. eapply (validCache_Update _ _ _ _ _ p nd); [done|done|by apply Hdep|].
      intros [= ->]. rewrite Hd in Hd'. by injection Hd' as ->.
    + intros bit Hb. eapply (validCache_Update _ _ _ _ _ p nd); [done|done|by apply Hbit|done].
Qed.

Lemma versionLoop_refines prev ds id v c : (∀ i d, ds !! i = Some d → Deployments params !! (id + i)%nat = Some d) → validCaches c →
  ∃ c', versionLoop bi params prev id ds v c
    = (Ok (i32 (foldl (λ v d, if bool_decide (deploymentSpec d prev = ThresholdStarted ∨ deploymentSpec d prev = ThresholdLockedIn)
                              then Z.lor v (u32 (Z.shiftl 1 (BitNumber d))) else v) v ds)), c') ∧ validCaches c'.
Proof.
  revert id v c. induction ds as [|d ds IH]; intros id v c Hds Hc; [by exists c|]. cbn [versionLoop foldl].
  destruct (deployment_refines id d prev c) as (c1 & E1 & Hc1); [by rewrite <- (Hds 0%nat d eq_refl), Nat.add_0_r|done|].
  unfold tbind. rewrite E1. apply IH; [|done]. intros i d' Hi. rewrite <- (Hds (S i) d' Hi). f_equal. lia.
Qed.

Lemma calcNextBlockVersion_refines prev c : validCaches c →
  ∃ c', calcNextBlockVersion bi params prev c = (Ok (versionSpec prev), c') ∧ validCaches c'.
Proof. intros Hc. by apply versionLoop_refines. Qed.

Lemma unknown_refines bit prev c : (bit < vbNumBits)%nat → validCaches c →
  ∃ c', thresholdState bi prev (bitConditionChecker bi params bit) (WarningCache bit) c = (Ok (unknownSpec bit prev), c')
    ∧ validCaches c'.
Proof.
  intros Hb Hc. apply (thresholdState_refines bi Hwf (bitConditionChecker bi params bit) (WarningCache bit) (bitCond bit) validCaches); try done.
  - intros p c0 [nd Hp] Hc0. unfold bitCond. cbn [ck_Condition bitConditionChecker]. unfold h. rewrite Hp.
    destruct (_ =? vbTopBits); cbn [negb andb]; [|by exists c0]. destruct (_ =? 0); cbn [negb andb]; [by exists c0|].
    destruct (calcNextBlockVersion_refines (bn_parent nd) c0 Hc0) as (c1 & E1 & Hc1). exists c1. unfold tbind. by rewrite E1.
  - intros p nd c0 st Hp [_ Hc0]. by apply (Hc0 bit Hb).
  - intros p nd c0 Hp [Hdep Hbit]. destruct (Hbit bit Hb) as [Hs _]. split; [|by rewrite Lookup_Update, decide_True].
    split.
    + intros id' d' Hd'. eapply (validCache_Update _ _ _ _ _ p nd); [done|done|by apply Hdep|done].
    + intros bit' Hb'. eapply (validCache_Update _ _ _ _ _ p nd); [done|done|by apply Hbit|]. by intros [= ->].
Qed.

Lemma warnLoop_ok node bits c : Forall (λ b, b < vbNumBits)%nat bits → validCaches c →
  ∃ c', warnLoop bi params node bits c = (Ok tt, c') ∧ validCaches c'.
Proof.
  intros Hb. revert c. induction Hb as [|bit bits Hb Hbs IH]; intros c Hc; [by exists c|]. cbn [warnLoop].
  destruct (unknown_refines bit (bn_parent node) c Hb Hc) as (c1 & E1 & Hc1). unfold tbind. rewrite E1.
  apply IH. by case_bool_decide.
Qed.

Lemma newCaches_valid : (length (Deployments params) <= DefinedDeployments)%nat →
  validCaches (mkCaches (newThresholdCaches vbNumBits) (newThresholdCaches DefinedDeployments) false).
Proof.
  intros Hl. assert (Hr : ∀ n i, (i < n)%nat → newThresholdCaches n !! i = Some ∅) by (intros n i Hi; by apply lookup_replicate_2).
  split.
  - intros id d Hd. apply lookup_lt_Some in Hd. split; unfold Lookup; cbn [cacheOf deploymentCaches]; rewrite Hr by lia; [by eexists|].
    intros p nd st _. cbn. by rewrite lookup_empty.
  - intros bit Hb. split; unfold Lookup; cbn [cacheOf warningCaches]; rewrite Hr by done; [by eexists|].
    intros p nd st _. cbn. by rewrite lookup_empty.
Qed.

(** The caches are transparent: whatever is cached from earlier calls, and
    however the caches of known and unknown rules feed each other, the state of
    every deployment and of every unknown bit after any block, and the version
    expected of the next block, are the ones the window-by-window specification
    gives; no call fails, and every cached state stays a specified one. *)
Lemma threshold_caches_transparent (prev : option ptr) (node : blockNode) (c : caches) (Hc : validCaches c) :
  (∀ id d, Deployments params !! id = Some d →
     ∃ c', deploymentState bi params prev id c = (Ok (deploymentSpec d prev), c') ∧ validCaches c')
  ∧ (∀ bit, (bit < vbNumBits)%nat →
     ∃ c', thresholdState bi prev (bitConditionChecker bi params bit) (WarningCache bit) c = (Ok (unknownSpec bit prev), c')
       ∧ validCaches c')
  ∧ (∃ c', calcNextBlockVersion bi params prev c = (Ok (versionSpec prev), c') ∧ validCaches c')
  ∧ ∃ c', warnUnknownRuleActivations bi params node c = (Ok tt, c') ∧ validCaches c'.
Proof.
  split; [|split; [|split]].
  - intros id d Hd. unfold deploymentState. rewrite Hd. apply lookup_lt_Some in Hd as Hlt.
    destruct (Nat.ltb_spec (length (Deployments params)) id); [lia|]. by apply deployment_refines.
  - intros bit Hb. by apply unknown_refines.
  - by apply calcNextBlockVersion_refines.
  - apply warnLoop_ok; [|done]. apply Forall_forall. intros b Hb. by apply elem_of_seq in Hb as [_ Hb].
Qed.

(** The moves of BIP 9 (with the speedy-trial variant) from one window to the
    next, and what each needs of the window that ends with [p]. *)
Inductive edge (d : ConsensusDeployment) (p : ptr) : ThresholdState → ThresholdState → Prop :=
| edge_stay st : (st = ThresholdLockedIn → ck_EligibleToActivate (deploymentChecker bi params d) p = false) → edge d p st st
| edge_start : ck_HasStarted (deploymentChecker bi params d) p = true → edge d p ThresholdDefined ThresholdStarted
| edge_expire : ck_HasEnded (deploymentChecker bi params d) p = true → ck_IsSpeedy (deploymentChecker bi params d) = false →
    edge d p ThresholdDefined ThresholdFailed
| edge_lock : ck_RuleChangeActivationThreshold (deploymentChecker bi params d)
      <= countWindow h (depCond d) (Z.to_nat w) (Some p) → edge d p ThresholdStarted ThresholdLockedIn
| edge_fail : ck_HasEnded (deploymentChecker bi params d) p = true → edge d p ThresholdStarted ThresholdFailed
| edge_activate : ck_EligibleToActivate (deploymentChecker bi params d) p = true → edge d p ThresholdLockedIn ThresholdActive.

Lemma nextState_edge d p st : edge d p st (nextState h (deploymentChecker bi params d) (depCond d) w st p).
Proof.
  unfold nextState. destruct st.
  - destruct (negb _ && _) eqn:E.
    + apply andb_prop in E as [E1 E2]. apply negb_true_iff in E1. by apply edge_expire.
    + destruct (ck_HasStarted _ p) eqn:Es; [by apply edge_start|by apply edge_stay].
  - destruct (negb _ && _) eqn:E; [apply andb_prop in E as [E1 E2]; by apply edge_fail|].
    destruct (Z.leb_spec (ck_RuleChangeActivationThreshold (deploymentChecker bi params d)) (countWindow h (depCond d) (Z.to_nat w) (Some p)));
      [by apply edge_lock|].
    destruct (ck_IsSpeedy (deploymentChecker bi params d) && ck_HasEnded (deploymentChecker bi params d) p) eqn:E2; [apply andb_prop in E2 as [_ E2]; by apply edge_fail|by apply edge_stay].
  - destruct (ck_EligibleToActivate _ p) eqn:E; [by apply edge_activate|by apply edge_stay].
  - by apply edge_stay.
  - by apply edge_stay.
Qed.

Lemma w_bounds : 0 < w < 2 ^ 31.
Proof. split; [done|]. unfold w. pose proof (wrapS_in 32 (MinerConfirmationWindow params)). unfold inS in *. lia. Qed.

(** At the last block of a window, and at every block of the window after it,
    the state is that of the window. *)
Lemma deploymentSpec_window d p pn k p' : h !! p = Some pn → (bn_height pn + 1) mod w = 0 →
  is_Some (h !! p') → walk h k p' = Some p → Z.of_nat k < w →
  ck_ForceActive (deploymentChecker bi params d) (Some p') = false →
  deploymentSpec d (Some p') = stateAt h (deploymentChecker bi params d) (depCond d) w p.
Proof.
  intros Hp He [pn' Hp'] Hk Hlt Hf. unfold deploymentSpec, specState. rewrite Hf. cbn [mbind option_bind]. unfold h in Hp'. rewrite Hp'.
  cbn [fmap option_fmap option_map]. cbn [ck_MinerConfirmationWindow deploymentChecker]. fold w. pose proof w_bounds.
  destruct (walk_height _ Hwf k p' pn' p Hp' Hk) as (pn2 & Hp2 & Hh). assert (pn2 = pn) as -> by (unfold h in *; congruence).
  pose proof (wf_range _ Hwf p pn Hp).
  assert (Hwe : w <= bn_height pn + 1).
  { pose proof (Z.div_mod (bn_height pn + 1) w). assert (0 < (bn_height pn + 1) / w) by nia. nia. }
  destruct (Z.ltb_spec (bn_height pn' + 1) w); [lia|].
  assert (Hm : (bn_height pn' + 1) mod w = Z.of_nat k).
  { replace (bn_height pn' + 1) with (bn_height pn + 1 + Z.of_nat k) by lia.
    rewrite Z.add_mod, He, Z.add_0_l, Z.mod_mod, Z.mod_small by lia. done. }
  rewrite Hm, (Ancestor_walk _ Hwf p' pn') by (done || lia).
  replace (Z.to_nat (bn_height pn' - (bn_height pn' - Z.of_nat k))) with k by lia. rewrite Hk. done.
Qed.

(** C39. Deployments follow the version-bits state machine: while the start
    condition is monotone along the chain (the past median time never
    decreases), the states computed at the ends [q] and [p] of two windows in
    a row are a legal move for the blocks of the second window (so active and
    failed are final, and a lock-in needs the threshold of signalling blocks in
    that window), and every block of the window after [p] has the state of
    [p]; deployments forced active by height are apart. *)
Theorem deployment_state_machine (id : nat) (d : ConsensusDeployment) (p q p' : ptr) (pn : blockNode) (k : nat) (c : caches)
  (Hc : validCaches c) (Hd : Deployments params !! id = Some d)
  (Hp : h !! p = Some pn) (Hend : (bn_height pn + 1) mod w = 0) (Hq : RelativeAncestor h p w = Some q)
  (Hp' : is_Some (h !! p')) (Hk : walk h k p' = Some p) (Hkw : Z.of_nat k < w)
  (Hforce : ck_ForceActive (deploymentChecker bi params d) (Some p') = false
            ∧ ck_ForceActive (deploymentChecker bi params d) (Some p) = false
            ∧ ck_ForceActive (deploymentChecker bi params d) (Some q) = false)
  (Hmono : ck_HasStarted (deploymentChecker bi params d) q = true → ck_HasStarted (deploymentChecker bi params d) p = true) :
  ∃ st0 st c0 c1 c2, deploymentState bi params (Some q) id c = (Ok st0, c0) ∧ deploymentState bi params (Some p) id c = (Ok st, c1)
    ∧ edge d p st0 st ∧ deploymentState bi params (Some p') id c = (Ok st, c2).
Proof.
  destruct Hforce as (F1 & F2 & F3). pose proof w_bounds.
  destruct (relative_spec h w Hwf w_bounds p pn q Hp Hq) as (qn & Hqn & Hhq). pose proof (wf_range h Hwf q qn Hqn).
  assert (Hqend : (bn_height qn + 1) mod w = 0).
  { rewrite Hhq. replace (bn_height pn - w + 1) with (bn_height pn + 1 + (-1) * w) by lia. by rewrite Z.mod_add by lia. }
  assert (Hdep : ∀ prev, ∃ c', deploymentState bi params prev id c = (Ok (deploymentSpec d prev), c')).
  { intros prev. unfold deploymentState. rewrite Hd. apply lookup_lt_Some in Hd as Hlt.
    destruct (Nat.ltb_spec (length (Deployments params)) id); [lia|].
    destruct (deployment_refines id d prev c Hd Hc) as (c' & E & _). by exists c'. }
  destruct (Hdep (Some q)) as [c0 E0], (Hdep (Some p)) as [c1 E1], (Hdep (Some p')) as [c2 E2].
  exists (deploymentSpec d (Some q)), (deploymentSpec d (Some p)), c0, c1, c2. split; [done|]. split; [done|].
  rewrite E2, (deploymentSpec_window d p pn k p') by done.
  rewrite (deploymentSpec_window d p pn 0 p), (deploymentSpec_window d q qn 0 q) by (done || by eexists).
  split; [|done]. rewrite (stateAt_unfold h _ _ w Hwf w_bounds p pn Hp), Hq.
  destruct (ck_HasStarted (deploymentChecker bi params d) p) eqn:Es; [apply nextState_edge|].
  rewrite (stateAt_unfold h _ _ w Hwf w_bounds q qn Hqn).
  destruct (ck_HasStarted (deploymentChecker bi params d) q) eqn:Esq; [by specialize (Hmono eq_refl)|by apply edge_stay].
Qed.
End chain.

(** ** A chain of seven blocks with windows of two *)
Lemma hash_inj_check (h : heap) : NoDup ((λ x, bn_hash x.2) <$> map_to_list h) →
  ∀ p q pn qn, h !! p = Some pn → h !! q = Some qn → bn_hash pn = bn_hash qn → p = q.
Proof.
  intros Hnd p q pn qn Hp Hq E. apply elem_of_map_to_list in Hp, Hq.
  apply list_elem_of_lookup in Hp as [i Hi]. apply list_elem_of_lookup in Hq as [j Hj].
  assert (i = j) as <-.
  { eapply (NoDup_lookup _ i j (bn_hash pn) Hnd); rewrite list_lookup_fmap; [by rewrite Hi|rewrite Hj; cbn; by rewrite E]. }
  rewrite Hi in Hj. by injection Hj.
Qed.

Module VbDemo.
Definition deployment : ConsensusDeployment :=
  {| BitNumber := 3; MinActivationHeight := 0; CustomActivationThreshold := 0; AlwaysActiveHeight := 0;
     DeploymentStarter := SynchronizeStarter (NewMedianTimeDeploymentStarter None);
     DeploymentEnder := SynchronizeEnder (NewMedianTimeDeploymentEnder None) |}.
Definition params : Params :=
  {| Name := Name RegressionNetParams; Net := Net RegressionNetParams; DefaultPort := DefaultPort RegressionNetParams;
     PowLimit := PowLimit RegressionNetParams; PowLimitBits := PowLimitBits RegressionNetParams; PoWNoRetargeting := PoWNoRetargeting RegressionNetParams;
     CoinbaseMaturity := CoinbaseMaturity RegressionNetParams; TargetTimePerBlock := TargetTimePerBlock RegressionNetParams; WTEMAHalfLife := WTEMAHalfLife RegressionNetParams;
     ReduceMinDifficulty := ReduceMinDifficulty RegressionNetParams; MinDiffReductionTime := MinDiffReductionTime RegressionNetParams; GenerateSupported := GenerateSupported RegressionNetParams;
     MaxSupportedTxVersion := MaxSupportedTxVersion RegressionNetParams; MaxTimeOffsetMinutes := MaxTimeOffsetMinutes RegressionNetParams; Checkpoints := Checkpoints RegressionNetParams;
     RuleChangeActivationThreshold := 1; MinerConfirmationWindow := 2; Deployments := [deployment];
     RelayNonStdTxs := RelayNonStdTxs RegressionNetParams; Bech32HRPSegwit := Bech32HRPSegwit RegressionNetParams; HDPrivateKeyID := HDPrivateKeyID RegressionNetParams;
     HDPublicKeyID := HDPublicKeyID RegressionNetParams; HDCoinType := HDCoinType RegressionNetParams |}.
Definition index : blockIndex := demoIndex 6.
Definition fresh : caches := mkCaches (newThresholdCaches vbNumBits) (newThresholdCaches DefinedDeployments) false.
End VbDemo.

Lemma vb_inj p q pn qn : bi_heap VbDemo.index !! p = Some pn → bi_heap VbDemo.index !! q = Some qn →
  bn_hash pn = bn_hash qn → p = q.
Proof. apply hash_inj_check. apply (bool_decide_unpack _). vm_compute. exact I. Qed.

Lemma vb_low p nd : bi_heap VbDemo.index !! p = Some nd → bn_height nd + 1 < 2 ^ 31.
Proof.
  intros Hp. assert (Ha : map_Forall (λ _ n, bn_height n + 1 < 2 ^ 31) (bi_heap VbDemo.index)).
  { apply (bool_decide_unpack _). vm_compute. exact I. }
  exact (Ha p nd Hp).
Qed.

Lemma vb_valid : validCaches VbDemo.index VbDemo.params VbDemo.fresh.
Proof. apply newCaches_valid. vm_compute. lia. Qed.

Lemma threshold_caches_transparent_witness :
  ∃ c', deploymentState VbDemo.index VbDemo.params (Some 4%nat) 0 VbDemo.fresh = (Ok ThresholdStarted, c').
Proof.
  destruct (bi_heap VbDemo.index !! 4%nat) as [nd|] eqn:E; [|vm_compute in E; discriminate].
  destruct (threshold_caches_transparent VbDemo.index VbDemo.params vb_inj demo_wf vb_low eq_refl (Some 4%nat) nd
    VbDemo.fresh vb_valid) as (H & _).
  destruct (H 0%nat VbDemo.deployment eq_refl) as (c' & Ec & _). exists c'. rewrite Ec. do 2 f_equal.
Defined.

Lemma deployment_state_machine_witness :
  ∃ st0 st c0 c1, deploymentState VbDemo.index VbDemo.params (Some 1%nat) 0 VbDemo.fresh = (Ok st0, c0)
    ∧ deploymentState VbDemo.index VbDemo.params (Some 3%nat) 0 VbDemo.fresh = (Ok st, c1)
    ∧ edge VbDemo.index VbDemo.params VbDemo.deployment 3 st0 st.
Proof.
  destruct (bi_heap VbDemo.index !! 3%nat) as [nd|] eqn:E; [|vm_compute in E; discriminate].
  destruct (deployment_state_machine VbDemo.index VbDemo.params vb_inj demo_wf vb_low eq_refl 0 VbDemo.deployment
    3 1 4 nd 1 VbDemo.fresh) as (st0 & st & c0 & c1 & c2 & E0 & E1 & He & _).
  - apply vb_valid.
  - reflexivity.
  - exact E.
  - vm_compute in E. injection E as <-. reflexivity.
  - vm_compute. reflexivity.
  - vm_compute. by eexists.
  - vm_compute. reflexivity.
  - vm_compute. reflexivity.
  - vm_compute. done.
  - intros _. vm_compute. reflexivity.
  - exists st0, st, c0, c1. split; [exact E0|split; [exact E1|exact He]].
Defined.
