(* ===== verification/MedianTime.v ===== *)
(** * The network-adjusted clock (src/node/blockchain/mediantime.go)

    Each peer contributes one sample of its clock.  The offset of the adjusted
    time is the median of the last samples, taken only when their number is odd
    and at least five, and only while it stays under seventy minutes.  Times are
    whole seconds, as the version message carries them. *)
From Stdlib Require Import ZArith Lia Strings.String.
From stdpp Require Import base list gmap strings sorting relations.
From S2P Require Import Prelude Chaincfg BlockIndex.
Open Scope Z_scope.
Open Scope list_scope.

Definition maxAllowedOffsetSecs : Z := 70 * 60.
Definition similarTimeSecs : Z := 5 * 60.
Definition maxMedianTimeEntries : nat := 200.

Record medianTime := mkMedianTime {
  knownIDs : gset string;
  offsets : list Z;
  offsetSecs : Z;
  invalidTimeChecked : bool }.

Definition NewMedianTime : medianTime := mkMedianTime ∅ [] 0 false.

(** [now] is the local clock, in seconds. *)
Definition AdjustedTime (m : medianTime) (now : Z) : Z := now + offsetSecs m.
Definition Offset (m : medianTime) : Z := i64 (offsetSecs m * Second).

(** [time.Time.Sub] saturates at the range of a duration. *)
Definition timeSub (a b : Z) : Z := Z.max (- 2 ^ 63) (Z.min (2 ^ 63 - 1) ((a - b) * Second)).

Definition AddTimeSample (m : medianTime) (sourceID : string) (timeVal now : Z) : medianTime :=
  if bool_decide (sourceID ∈ knownIDs m) then m else
  let known := {[sourceID]} ∪ knownIDs m in
  let offset := Z.quot (timeSub timeVal now) Second in
  let offs := if (length (offsets m) =? maxMedianTimeEntries)%nat && (0 <? maxMedianTimeEntries)%nat
              then drop 1 (offsets m) else offsets m in
  let offs := offs ++ [offset] in
  let numOffsets := length offs in
  let sortedOffsets := merge_sort Z.le offs in
  if (numOffsets <? 5)%nat || negb (Z.land (Z.of_nat numOffsets) 1 =? 1)
  then mkMedianTime known offs (offsetSecs m) (invalidTimeChecked m)
  else
    let med := sortedOffsets !!! (numOffsets / 2)%nat in
    if Z.abs med <? maxAllowedOffsetSecs
    then mkMedianTime known offs med (invalidTimeChecked m)
    else mkMedianTime known offs 0 true.

(** ** The states the clock can reach *)
Inductive sampleStep : medianTime → medianTime → Prop :=
| sample_step m sourceID timeVal now : sampleStep m (AddTimeSample m sourceID timeVal now).

Record clockOk (m : medianTime) : Prop := {
  clock_offset : Z.abs (offsetSecs m) < maxAllowedOffsetSecs;
  clock_samples : (length (offsets m) <= maxMedianTimeEntries)%nat;
  clock_sources : (length (offsets m) <= size (knownIDs m))%nat }.

(** A sample either repeats a known source and changes nothing, or appends its
    offset, dropping the oldest beyond two hundred. *)
Lemma AddTimeSample_cases m id t now : AddTimeSample m id t now = m ∧ id ∈ knownIDs m ∨
  id ∉ knownIDs m ∧ ∃ offs, offs = (if (length (offsets m) =? maxMedianTimeEntries)%nat then drop 1 (offsets m) else offsets m)
      ++ [Z.quot (timeSub t now) Second]
    ∧ offsets (AddTimeSample m id t now) = offs ∧ knownIDs (AddTimeSample m id t now) = {[id]} ∪ knownIDs m
    ∧ offsetSecs (AddTimeSample m id t now) =
        if (length offs <? 5)%nat || negb (Z.land (Z.of_nat (length offs)) 1 =? 1) then offsetSecs m
        else if Z.abs (median offs) <? maxAllowedOffsetSecs then median offs else 0.
Proof.
  unfold AddTimeSample. case_bool_decide as E; [by left|]. right. split; [done|]. eexists. split; [reflexivity|].
  rewrite andb_true_r. set (offs := _ ++ _). destruct (_ || _); [done|].
  change (merge_sort Z.le offs !!! (length offs / 2)%nat) with (median offs). by destruct (_ <? maxAllowedOffsetSecs).
Qed.

Lemma sample_ok m id t now : clockOk m → clockOk (AddTimeSample m id t now).
Proof.
  intros [H1 H2 H3]. destruct (AddTimeSample_cases m id t now) as [[-> _]|(Hn & offs & Eo & E1 & E2 & E3)]; [by split|].
  assert (Hl : (length offs <= maxMedianTimeEntries ∧ length offs <= S (length (offsets m)))%nat).
  { rewrite Eo, length_app. cbn [length]. destruct (Nat.eqb_spec (length (offsets m)) maxMedianTimeEntries) as [El|]; [|lia].
    rewrite length_drop. unfold maxMedianTimeEntries in *. lia. }
  split; rewrite ?E1, ?E2, ?E3; [|lia|].
  - destruct (_ || _); [done|]. destruct (Z.ltb_spec (Z.abs (median offs)) maxAllowedOffsetSecs); [done|].
    unfold maxAllowedOffsetSecs. lia.
  - rewrite size_union, size_singleton by set_solver. lia.
Qed.

(** The adjusted clock is bounded: whatever samples the peers send, in any
    order, the adjusted time stays within seventy minutes of the local clock, at
    most two hundred samples are kept, and no source counts twice. *)
Lemma adjusted_time_bounded (m : medianTime) (now : Z) (Hr : rtc sampleStep NewMedianTime m) :
  Z.abs (AdjustedTime m now - now) < 4200 ∧ (length (offsets m) <= 200)%nat
  ∧ (length (offsets m) <= size (knownIDs m))%nat.
Proof.
  assert (Hok : clockOk m).
  { refine (rtc_ind_r clockOk NewMedianTime _ _ m Hr); [split; cbn; unfold maxAllowedOffsetSecs; lia|].
    intros x y _ [] Hx. by apply sample_ok. }
  destruct Hok as [H1 H2 H3]. unfold AdjustedTime, maxAllowedOffsetSecs, maxMedianTimeEntries in *.
  split; [|done]. replace (now + offsetSecs m - now) with (offsetSecs m) by lia. lia.
Qed.

(** How many offsets lie between [lo] and [hi]. *)
Definition inside (lo hi : Z) (l : list Z) : nat := length (filter (λ x, lo <= x <= hi) l).

Lemma countLt_split lo hi l : lo <= hi →
  (countLt lo l + inside lo hi l <= countLt (hi + 1) l)%nat
  ∧ (countLt lo l + inside lo hi l <= length l)%nat.
Proof.
  intros Hle. unfold countLt, inside. induction l as [|x l IH]; [cbn; lia|].
  rewrite !filter_cons. repeat case_decide; cbn [length]; lia.
Qed.

(** A minority of peers cannot move the clock: when a sample makes the
    number of samples odd and at least five, and more than half of the kept
    offsets lie between [lo] and [hi] (inside the allowed range), the new offset
    lies between [lo] and [hi]. *)
Lemma clock_minority_bound (m : medianTime) (id : string) (t now lo hi : Z)
  (Hnew : id ∉ knownIDs m) (Hrange : - 4200 < lo <= hi ∧ hi < 4200) :
  let m' := AddTimeSample m id t now in let n := length (offsets m') in
  (5 <= n)%nat → Nat.odd n = true →
  (n / 2 < inside lo hi (offsets m'))%nat → lo <= offsetSecs m' <= hi.
Proof.
  cbv zeta. destruct (AddTimeSample_cases m id t now) as [[_ Hin]|(_ & offs & _ & E1 & _ & E3)]; [done|].
  rewrite E1, E3. intros H5 Hodd Hmaj.
  destruct (Nat.ltb_spec (length offs) 5); [lia|].
  assert (Hb : Z.land (Z.of_nat (length offs)) 1 =? 1 = true).
  { apply Z.eqb_eq. change 1 with (Z.ones 1). rewrite Z.land_ones by lia. change (2 ^ 1) with 2. rewrite Zmod_odd.
    apply Nat.odd_spec in Hodd as [k Hk]. rewrite Hk.
    replace (Z.of_nat (2 * k + 1)) with (2 * Z.of_nat k + 1) by lia. by rewrite Z.odd_add, Z.odd_mul. }
  rewrite Hb. cbn [orb negb]. destruct (countLt_split lo hi offs) as [C1 C2]; [lia|].
  assert (Hne : offs ≠ []) by (intros ->; cbn in H5; lia).
  assert (Hlo : lo <= median offs).
  { apply median_count; [done|]. apply Nat.odd_spec in Hodd as [k Hk].
    assert (length offs / 2 = k)%nat by (rewrite Hk, Nat.add_comm, Nat.mul_comm, Nat.div_add; done). lia. }
  assert (Hhi : ¬ hi + 1 <= median offs) by (rewrite median_count by done; lia).
  destruct (Z.ltb_spec (Z.abs (median offs)) maxAllowedOffsetSecs); unfold maxAllowedOffsetSecs in *; lia.
Qed.

(** Once two hundred samples are held, the number stays even and the offset is
    frozen. *)
Lemma clock_frozen m id t now : length (offsets m) = maxMedianTimeEntries →
  offsetSecs (AddTimeSample m id t now) = offsetSecs m ∧ length (offsets (AddTimeSample m id t now)) = maxMedianTimeEntries.
Proof.
  intros Hl. destruct (AddTimeSample_cases m id t now) as [[-> _]|(_ & offs & Eo & E1 & _ & E3)]; [done|].
  assert (Hn : length offs = maxMedianTimeEntries).
  { rewrite Eo, Hl, Nat.eqb_refl, length_app, length_drop, Hl. reflexivity. }
  rewrite E3, E1, Hn. done.
Qed.

(** Once two hundred samples have been taken the adjusted clock never
    changes again, whatever the peers report later. *)
Lemma clock_frozen_forever (m m' : medianTime) (Hl : length (offsets m) = 200%nat) (Hr : rtc sampleStep m m') :
  offsetSecs m' = offsetSecs m.
Proof.
  enough (offsetSecs m' = offsetSecs m ∧ length (offsets m') = maxMedianTimeEntries) by tauto.
  refine (rtc_ind_r (λ x, offsetSecs x = offsetSecs m ∧ length (offsets x) = maxMedianTimeEntries) m _ _ m' Hr); [done|].
  intros x y _ [] [H1 H2]. rewrite <- H1. by apply clock_frozen.
Qed.

Definition demoClock : medianTime :=
  foldl (λ m p, AddTimeSample m p.1 p.2 1000) NewMedianTime
    [("a"%string, 1003); ("b"%string, 1005); ("c"%string, 1001); ("d"%string, 999999)].
Definition frozenClock : medianTime := mkMedianTime ∅ (replicate 200 7) 7 false.

Lemma samples_reachable now l m : rtc sampleStep m (foldl (λ m p, AddTimeSample m p.1 p.2 now) m l).
Proof. revert m. induction l as [|p l IH]; intros m; [apply rtc_refl|]. eapply rtc_l; [apply sample_step|apply IH]. Qed.

Lemma adjusted_time_bounded_witness : Z.abs (AdjustedTime demoClock 5 - 5) < 4200.
Proof.
  apply (adjusted_time_bounded demoClock 5). apply samples_reachable.
Defined.

Lemma clock_minority_bound_witness : 1 <= offsetSecs (AddTimeSample demoClock "e" 1002 1000) <= 5.
Proof.
  apply (clock_minority_bound demoClock "e" 1002 1000 1 5).
  - apply (bool_decide_unpack _). vm_compute. exact I.
  - lia.
  - vm_compute. lia.
  - vm_compute. reflexivity.
  - vm_compute. lia.
Defined.

Lemma clock_frozen_forever_witness : offsetSecs (AddTimeSample frozenClock "z" 9 1) = 7.
Proof.
  apply (clock_frozen_forever frozenClock); [reflexivity|]. apply rtc_once. constructor.
Defined.
