(* ===== verification/Orphans.v ===== *)
(** * Orphan blocks (src/node/blockchain/chain.go)

    Blocks whose parent is not known yet, by hash and by the hash of the parent,
    with a pointer to the one that expires first.  That pointer may outlive the
    orphan it points to. *)
From Stdlib Require Import ZArith Lia Strings.Byte.
From stdpp Require Import base list gmap.
From S2P Require Import Prelude RuleErrors WireTx WireBlock Merkle.
Open Scope Z_scope.
Open Scope list_scope.

Definition maxOrphanBlocks : Z := 25.

Record orphanBlock := mkOrphan {
  ob_block : MsgBlock;
  ob_expiration : Z }.

Record orphanPool := mkPool {
  op_orphans : gmap bytes orphanBlock;
  op_prevOrphans : gmap bytes (list orphanBlock);
  op_oldestOrphan : option orphanBlock }.

Definition emptyPool : orphanPool := mkPool ∅ ∅ None.

Section pool.
Context (sha256 : bytes → bytes).

Definition ob_hash (o : orphanBlock) : bytes := BlockHash sha256 (mb_BlockHeader (ob_block o)).
Definition ob_prev (o : orphanBlock) : bytes := bh_PrevBlock (mb_BlockHeader (ob_block o)).

Definition IsKnownOrphan (p : orphanPool) (hash : bytes) : bool := bool_decide (is_Some (op_orphans p !! hash)).

(** The loop of [GetOrphanRoot]; [fuel] bounds the orphans visited. *)
Fixpoint rootLoop (fuel : nat) (p : orphanPool) (orphanRoot prevHash : bytes) : bytes :=
  match fuel with
  | O => orphanRoot
  | S fuel' =>
      match op_orphans p !! prevHash with
      | None => orphanRoot
      | Some orphan => rootLoop fuel' p prevHash (ob_prev orphan)
      end
  end.
Definition GetOrphanRoot (p : orphanPool) (hash : bytes) : bytes := rootLoop (S (size (op_orphans p))) p hash hash.

Definition removeOrphanBlock (p : orphanPool) (orphan : orphanBlock) : orphanPool :=
  let orphans := filter (λ o, ob_hash o ≠ ob_hash orphan) (default [] (op_prevOrphans p !! ob_prev orphan)) in
  mkPool (delete (ob_hash orphan) (op_orphans p))
    (match orphans with
     | [] => delete (ob_prev orphan) (op_prevOrphans p)
     | _ => <[ob_prev orphan := orphans]> (op_prevOrphans p)
     end)
    (op_oldestOrphan p).

(** One orphan of the loop of [addOrphanBlock]. *)
Definition expireStep (now : Z) (p : orphanPool) (oBlock : orphanBlock) : orphanPool :=
  if ob_expiration oBlock <? now then removeOrphanBlock p oBlock
  else match op_oldestOrphan p with
       | None => mkPool (op_orphans p) (op_prevOrphans p) (Some oBlock)
       | Some oldest => if ob_expiration oBlock <? ob_expiration oldest
                        then mkPool (op_orphans p) (op_prevOrphans p) (Some oBlock) else p
       end.

Definition hourNanos : Z := 3600 * 10 ^ 9.

(** [range] is the order in which the map is visited. *)
Definition addOrphanBlock (range : gmap bytes orphanBlock → list (bytes * orphanBlock)) (p : orphanPool)
    (block : MsgBlock) (now : Z) : res verr orphanPool :=
  let p := foldl (λ p kv, expireStep now p kv.2) p (range (op_orphans p)) in
  let? p :=
    if maxOrphanBlocks <? Z.of_nat (size (op_orphans p)) + 1 then
      match op_oldestOrphan p with
      | None => Err RuntimePanic                  (* a nil dereference *)
      | Some oldest =>
          let p := removeOrphanBlock p oldest in
          Ok (mkPool (op_orphans p) (op_prevOrphans p) None)
      end
    else Ok p in
  let oBlock := mkOrphan block (now + hourNanos) in
  Ok (mkPool (<[ob_hash oBlock := oBlock]> (op_orphans p))
        (<[ob_prev oBlock := default [] (op_prevOrphans p !! ob_prev oBlock) ++ [oBlock]]> (op_prevOrphans p))
        (op_oldestOrphan p)).

(** ** The invariant *)

(** The blocks that occur: no two of them with the same hash and different
    parents. *)
Context (B : MsgBlock → Prop).
Hypothesis HB : ∀ b b', B b → B b' → BlockHash sha256 (mb_BlockHeader b) = BlockHash sha256 (mb_BlockHeader b') →
  bh_PrevBlock (mb_BlockHeader b) = bh_PrevBlock (mb_BlockHeader b').

(** The two maps hold the same orphans, each under its own hash and once under
    its parent's. *)
Record poolOk (p : orphanPool) : Prop := {
  pool_key : ∀ k o, op_orphans p !! k = Some o → ob_hash o = k ∧ B (ob_block o);
  pool_prev : ∀ k o, op_orphans p !! k = Some o → o ∈ default [] (op_prevOrphans p !! ob_prev o);
  pool_back : ∀ k l, op_prevOrphans p !! k = Some l → l ≠ [] ∧ NoDup (ob_hash <$> l)
    ∧ ∀ o, o ∈ l → ob_prev o = k ∧ op_orphans p !! ob_hash o = Some o;
  pool_oldest : ∀ o, op_oldestOrphan p = Some o → B (ob_block o) }.

(** The limit is exceeded by at most one, and then the pointer is nil. *)
Definition poolBound (p : orphanPool) : Prop :=
  Z.of_nat (size (op_orphans p)) <= maxOrphanBlocks + 1
  ∧ (Z.of_nat (size (op_orphans p)) = maxOrphanBlocks + 1 → op_oldestOrphan p = None).

Lemma removeOrphan_prev p o k : default [] (op_prevOrphans (removeOrphanBlock p o) !! k) =
  if decide (k = ob_prev o) then filter (λ x, ob_hash x ≠ ob_hash o) (default [] (op_prevOrphans p !! k))
  else default [] (op_prevOrphans p !! k).
Proof.
  unfold removeOrphanBlock. cbn [op_prevOrphans]. set (l := filter _ _). case_decide as E.
  - subst k. fold l. destruct l; [by rewrite lookup_delete_eq|by rewrite lookup_insert_eq].
  - destruct l; [by rewrite lookup_delete_ne|by rewrite lookup_insert_ne].
Qed.

Lemma removeOrphan_some p o k l : op_prevOrphans (removeOrphanBlock p o) !! k = Some l →
  op_prevOrphans p !! k = Some l ∧ k ≠ ob_prev o
  ∨ k = ob_prev o ∧ l ≠ [] ∧ l = filter (λ x, ob_hash x ≠ ob_hash o) (default [] (op_prevOrphans p !! k)).
Proof.
  unfold removeOrphanBlock. cbn [op_prevOrphans]. set (l' := filter _ _). intros Hl.
  destruct (decide (k = ob_prev o)) as [->|Hne].
  - right. fold l'. destruct l' eqn:E; [by rewrite lookup_delete_eq in Hl|]. rewrite lookup_insert_eq in Hl. by injection Hl as <-.
  - left. destruct l'; [by rewrite lookup_delete_ne in Hl|by rewrite lookup_insert_ne in Hl].
Qed.

Lemma NoDup_fmap_filter {A C} (f : A → C) (P : A → Prop) `{∀ x, Decision (P x)} l : NoDup (f <$> l) → NoDup (f <$> filter P l).
Proof.
  induction l as [|x l IH]; [done|]. rewrite fmap_cons, NoDup_cons. intros [Hn Hd]. rewrite filter_cons. case_decide; [|by apply IH].
  rewrite fmap_cons. apply NoDup_cons. split; [|by apply IH]. intros Hin. apply Hn.
  apply list_elem_of_fmap in Hin as (y & -> & Hy). apply list_elem_of_filter in Hy as [_ Hy]. by apply list_elem_of_fmap_2.
Qed.

Lemma delete_size (m : gmap bytes orphanBlock) k : (size (delete k m) <= size m)%nat
  ∧ (is_Some (m !! k) → size m = S (size (delete k m))).
Proof.
  destruct (m !! k) as [x|] eqn:E.
  - assert (Hs : size m = S (size (delete k m))).
    { rewrite <- (insert_delete_id m k x E) at 1. by rewrite map_size_insert_None by apply lookup_delete_eq. }
    split; [lia|done].
  - rewrite delete_id by done. split; [done|]. by intros [? ?].
Qed.

(** Removing an orphan, one of the pool or one that has left it. *)
Lemma removeOrphan_ok p o : poolOk p → B (ob_block o) → poolOk (removeOrphanBlock p o).
Proof.
  intros [Hk Hp Hb Ho] HBo. split; cbn [op_orphans op_oldestOrphan removeOrphanBlock].
  - intros k x Hx. apply lookup_delete_Some in Hx as [_ Hx]. by apply Hk.
  - intros k x Hx. apply lookup_delete_Some in Hx as [Hne Hx]. fold (removeOrphanBlock p o). rewrite removeOrphan_prev.
    case_decide; [|by apply (Hp k)]. apply list_elem_of_filter. split; [|by apply (Hp k)]. by rewrite (proj1 (Hk k x Hx)).
  - intros k l Hl. apply removeOrphan_some in Hl as [[Hl Hne]|(-> & Hne & El)].
    + destruct (Hb k l Hl) as (H1 & H2 & H3). split; [done|]. split; [done|]. intros x Hx. destruct (H3 x Hx) as [<- Hx'].
      split; [done|]. apply lookup_delete_Some. split; [|done]. intros E. apply Hne. unfold ob_prev. apply HB; [by apply (Hk _ x Hx')|done|done].
    + split; [done|]. destruct (op_prevOrphans p !! ob_prev o) as [l0|] eqn:E0; [|by rewrite El in Hne]. cbn in El.
      destruct (Hb _ l0 E0) as (H1 & H2 & H3). rewrite El. split; [by apply NoDup_fmap_filter|].
      intros x Hx. apply list_elem_of_filter in Hx as [Hxne Hx]. destruct (H3 x Hx) as [Hpx Hx']. split; [done|].
      apply lookup_delete_Some. done.
  - done.
Qed.

(** The loop of [addOrphanBlock]: no orphan is added, the pointer is either the
    old one or an orphan that stays, and it is set when an orphan stays. *)
Lemma expireLoop_ok now l p : poolOk p → NoDup l.*1 → Forall (λ kv : bytes * orphanBlock, op_orphans p !! kv.1 = Some kv.2) l →
  let p' := foldl (λ p kv, expireStep now p kv.2) p l in
  poolOk p' ∧ op_orphans p' ⊆ op_orphans p
  ∧ (∀ k o, op_orphans p' !! k = Some o → (k, o) ∈ l → is_Some (op_oldestOrphan p'))
  ∧ (op_oldestOrphan p' = op_oldestOrphan p ∨ ∃ o, op_oldestOrphan p' = Some o ∧ op_orphans p' !! ob_hash o = Some o)
  ∧ (is_Some (op_oldestOrphan p) → is_Some (op_oldestOrphan p'))
  ∧ ∀ k, k ∉ l.*1 → op_orphans p' !! k = op_orphans p !! k.
Proof.
  revert p. induction l as [|[k o] l IH]; intros p Hok Hnd Hl; cbn [foldl].
  { split; [done|]. split; [done|]. split; [intros ? ? _ Hin; by apply elem_of_nil in Hin|]. split; [by left|]. done. }
  csimpl in Hnd. apply NoDup_cons in Hnd as [Hni Hnd]. apply Forall_cons in Hl as [Hko Hl]. cbn [fst snd] in Hko.
  destruct (pool_key p Hok k o Hko) as [Hkey HBo]. set (p1 := expireStep now p o).
  assert (Hin : ∀ k' o', (k', o') ∈ l → k' ≠ k).
  { intros k' o' Hin ->. apply Hni. by apply (list_elem_of_fmap_2 fst) in Hin. }
  assert (Hp1 : poolOk p1 ∧ op_orphans p1 ⊆ op_orphans p ∧ (∀ k', k' ≠ k → op_orphans p1 !! k' = op_orphans p !! k')
    ∧ (op_orphans p1 !! k = Some o → is_Some (op_oldestOrphan p1))
    ∧ (op_oldestOrphan p1 = op_oldestOrphan p ∨ op_oldestOrphan p1 = Some o ∧ op_orphans p1 = op_orphans p)
    ∧ (is_Some (op_oldestOrphan p) → is_Some (op_oldestOrphan p1))).
  { unfold p1, expireStep. destruct (ob_expiration o <? now).
    - split; [by apply removeOrphan_ok|]. cbn. rewrite Hkey. split; [apply delete_subseteq|]. split; [intros; by rewrite lookup_delete_ne|].
      split; [by rewrite lookup_delete_eq|]. split; [by left|done].
    - assert (Hset : poolOk (mkPool (op_orphans p) (op_prevOrphans p) (Some o))) by (destruct Hok; split; try done; by intros ? [= <-]).
      destruct (op_oldestOrphan p) as [old|] eqn:Eold; [destruct (_ <? _)|]; cbn.
      + split; [done|]. split; [done|]. split; [done|]. split; [by eexists|]. split; [by right|by eexists].
      + split; [done|]. split; [done|]. split; [done|]. rewrite Eold. split; [by eexists|]. split; [by left|done].
      + split; [done|]. split; [done|]. split; [done|]. split; [by eexists|]. split; [by right|by eexists]. }
  destruct Hp1 as (H1 & H2 & H3 & H4 & H5 & H6).
  destruct (IH p1 H1 Hnd) as (I1 & I2 & I3 & I4 & I5 & I6).
  { rewrite Forall_forall in Hl |- *. intros [k' o'] Hx. cbn. rewrite H3; [by apply (Hl _ Hx)|by eapply Hin]. }
  cbv zeta. cbn [foldl snd]. fold p1. set (p2 := foldl _ p1 l) in *. split; [done|]. split; [by etransitivity|]. split; [|split; [|split]].
  - intros k' o' Hx Hel. apply elem_of_cons in Hel as [[= -> ->]|Hel]; [|by apply (I3 k' o')].
    apply I5, H4. by eapply lookup_weaken.
  - destruct I4 as [E4|?]; [|by right]. destruct H5 as [E5|[E5 E5']]; [left; congruence|].
    right. exists o. split; [congruence|]. rewrite Hkey, (I6 k Hni), E5'. done.
  - intros Hs. by apply I5, H6.
  - intros k' Hk'. csimpl in Hk'. apply not_elem_of_cons in Hk' as [Hne Hk']. rewrite I6 by done. by apply H3.
Qed.

Context (range : gmap bytes orphanBlock → list (bytes * orphanBlock)).
Hypothesis Hrange : ∀ m, range m ≡ₚ map_to_list m.

Lemma insertOrphan_ok p o : poolOk p → B (ob_block o) → op_orphans p !! ob_hash o = None →
  poolOk (mkPool (<[ob_hash o := o]> (op_orphans p))
            (<[ob_prev o := default [] (op_prevOrphans p !! ob_prev o) ++ [o]]> (op_prevOrphans p)) (op_oldestOrphan p)).
Proof.
  intros [Hk Hp Hb Ho] HBo Hnew. split; cbn [op_orphans op_prevOrphans op_oldestOrphan]; [| | |done].
  - intros k x Hx. apply lookup_insert_Some in Hx as [[<- <-]|[_ Hx]]; [done|by apply Hk].
  - intros k x Hx. apply lookup_insert_Some in Hx as [[<- <-]|[Hne Hx]].
    + rewrite lookup_insert_eq. cbn. apply elem_of_app. right. by left.
    + destruct (decide (ob_prev x = ob_prev o)) as [E|E].
      * rewrite E, lookup_insert_eq. cbn. apply elem_of_app. left. rewrite <- E. by apply (Hp k).
      * rewrite lookup_insert_ne by done. by apply (Hp k).
  - intros k l Hl. apply lookup_insert_Some in Hl as [[<- <-]|[Hne Hl]].
    + split; [by destruct (default [] _)|].
      assert (Hold : NoDup (ob_hash <$> default [] (op_prevOrphans p !! ob_prev o)) ∧
        ∀ x, x ∈ default [] (op_prevOrphans p !! ob_prev o) → ob_prev x = ob_prev o ∧ op_orphans p !! ob_hash x = Some x).
      { destruct (op_prevOrphans p !! ob_prev o) as [l|] eqn:E; cbn.
        - destruct (Hb _ l E) as (_ & H2 & H3). done.
        - split; [constructor|]. intros x Hx. by apply elem_of_nil in Hx. }
      destruct Hold as [Hnd Hall]. split.
      * rewrite fmap_app. apply NoDup_app. split; [done|]. split; [|apply NoDup_singleton].
        intros h Hh Hin. csimpl in Hin. apply list_elem_of_singleton in Hin as ->. apply list_elem_of_fmap in Hh as (x & E & Hx).
        destruct (Hall x Hx) as [_ Hx']. rewrite <- E, Hnew in Hx'. done.
      * intros x Hx. apply elem_of_app in Hx as [Hx|Hx].
        -- destruct (Hall x Hx) as [H1 H2]. split; [done|]. rewrite lookup_insert_ne; [done|]. intros E. rewrite <- E, Hnew in H2. done.
        -- apply list_elem_of_singleton in Hx as ->. by rewrite lookup_insert_eq.
    + destruct (Hb k l Hl) as (H1 & H2 & H3). split; [done|]. split; [done|]. intros x Hx. destruct (H3 x Hx) as [E1 E2].
      split; [done|]. rewrite lookup_insert_ne; [done|]. intros E. rewrite <- E, Hnew in E2. done.
Qed.

Lemma addOrphan_ok p b now : poolOk p → poolBound p → B b → op_orphans p !! BlockHash sha256 (mb_BlockHeader b) = None →
  ∃ p', addOrphanBlock range p b now = Ok p' ∧ poolOk p' ∧ poolBound p'
    ∧ op_orphans p' !! BlockHash sha256 (mb_BlockHeader b) = Some (mkOrphan b (now + hourNanos)).
Proof.
  intros Hok [Hs Hf] HBb Hnew. unfold addOrphanBlock, maxOrphanBlocks, poolBound in *.
  assert (Hnd : NoDup (range (op_orphans p)).*1).
  { eapply (NoDup_Permutation_proper _ _ (fmap_Permutation fst _ _ (Hrange (op_orphans p)))), NoDup_fst_map_to_list. }
  destruct (expireLoop_ok now (range (op_orphans p)) p Hok Hnd) as (H1 & H2 & H3 & H4 & H5 & _).
  { rewrite Hrange. apply Forall_forall. intros [k o] Hx. by apply elem_of_map_to_list in Hx. }
  set (p1 := foldl _ p _) in *. pose proof (map_subseteq_size _ _ H2) as Hsz.
  assert (Hnew1 : op_orphans p1 !! BlockHash sha256 (mb_BlockHeader b) = None) by (by eapply lookup_weaken_None).
  destruct (Z.ltb_spec 25 (Z.of_nat (size (op_orphans p1)) + 1)) as [Hbig|Hsmall].
  - assert (Hold : is_Some (op_oldestOrphan p1)).
    { destruct (map_choose (op_orphans p1)) as (k & o & Hko).
      - intros E. rewrite E, map_size_empty in Hbig. lia.
      - apply (H3 k o Hko). rewrite Hrange. apply elem_of_map_to_list. by eapply lookup_weaken. }
    destruct Hold as [old Eold]. rewrite Eold. cbn [res_bind].
    pose proof (pool_oldest p1 H1 old Eold) as HBold. pose proof (removeOrphan_ok p1 old H1 HBold) as Hrm.
    destruct (delete_size (op_orphans p1) (ob_hash old)) as [D1 D2].
    eexists. split; [done|]. set (p2 := mkPool _ _ None).
    assert (Hp2 : poolOk p2) by (destruct Hrm; by split).
    assert (Hnew2 : op_orphans p2 !! BlockHash sha256 (mb_BlockHeader b) = None) by (cbn; apply lookup_delete_None; by right).
    split; [apply (insertOrphan_ok p2 (mkOrphan b (now + hourNanos))); done|]. cbn [op_orphans op_oldestOrphan removeOrphanBlock].
    split; [|apply lookup_insert_eq]. rewrite map_size_insert_None by exact Hnew2. split; [|done].
    change (op_orphans p2) with (delete (ob_hash old) (op_orphans p1)). unfold maxOrphanBlocks.
    destruct (decide (size (op_orphans p1) = 26%nat)) as [E26|]; [|lia].
    destruct H4 as [E4|(o & E4 & Ho)].
    + rewrite E4, Hf in Eold; [done|lia].
    + rewrite E4 in Eold. injection Eold as ->. rewrite (D2 (ex_intro _ _ Ho)) in E26. lia.
  - cbn [res_bind]. eexists. split; [done|].
    split; [apply (insertOrphan_ok p1 (mkOrphan b (now + hourNanos))); done|]. cbn [op_orphans op_oldestOrphan].
    split; [|apply lookup_insert_eq]. rewrite map_size_insert_None by exact Hnew1. unfold maxOrphanBlocks. split; lia.
Qed.

(** ** The states the pool can reach *)
Inductive poolStep : orphanPool → orphanPool → Prop :=
| step_add p b now p' : B b → op_orphans p !! BlockHash sha256 (mb_BlockHeader b) = None →
    addOrphanBlock range p b now = Ok p' → poolStep p p'
| step_remove p k o : op_orphans p !! k = Some o → poolStep p (removeOrphanBlock p o).

Lemma step_ok p p' : poolStep p p' → poolOk p → poolBound p → poolOk p' ∧ poolBound p'.
Proof.
  intros Hst Hok Hb. destruct Hst as [p b now p' HBb Hnew E|p k o Hko].
  - destruct (addOrphan_ok p b now Hok Hb HBb Hnew) as (p1 & E1 & H1 & H2 & _). rewrite E in E1. by injection E1 as <-.
  - destruct (pool_key p Hok k o Hko) as [Hk HBo]. split; [by apply removeOrphan_ok|]. destruct Hb as [H1 H2].
    destruct (delete_size (op_orphans p) (ob_hash o)) as [D1 D2]. unfold poolBound. cbn [removeOrphanBlock op_orphans op_oldestOrphan].
    rewrite D2 in H1 by (rewrite Hk; by eexists). split; [lia|]. intros E. lia.
Qed.

(** The orphan pool: in every state reached by adding unknown blocks and
    removing known ones, whatever order the map is visited in, the map by hash
    and the map by parent hold the same orphans, each exactly once under its
    parent and never under an empty list, at most 26 blocks are held, and
    adding another unknown block never dereferences a nil pointer and stores
    that block. *)
Lemma orphan_pool_invariant (p : orphanPool) (Hr : rtc poolStep emptyPool p) :
  (∀ o, op_orphans p !! ob_hash o = Some o ↔ o ∈ default [] (op_prevOrphans p !! ob_prev o))
  ∧ (∀ k l, op_prevOrphans p !! k = Some l → l ≠ [] ∧ NoDup (ob_hash <$> l))
  ∧ (size (op_orphans p) <= 26)%nat
  ∧ ∀ b now, B b → op_orphans p !! BlockHash sha256 (mb_BlockHeader b) = None →
      ∃ p', addOrphanBlock range p b now = Ok p' ∧ IsKnownOrphan p' (BlockHash sha256 (mb_BlockHeader b)) = true.
Proof.
  assert (Hok : poolOk p ∧ poolBound p).
  { refine (rtc_ind_r (λ x, poolOk x ∧ poolBound x) emptyPool _ _ p Hr).
    - split; [split; cbn; intros *; by rewrite ?lookup_empty|]. unfold poolBound, maxOrphanBlocks. cbn. rewrite map_size_empty. lia.
    - intros x y _ Hst [H1 H2]. by eapply step_ok. }
  destruct Hok as [Hok Hb]. split; [|split; [|split]].
  - intros o. split; [by apply (pool_prev p Hok)|]. destruct (op_prevOrphans p !! ob_prev o) as [l|] eqn:E; cbn.
    + intros Hin. by apply (pool_back p Hok _ l E).
    + intros Hin. by apply elem_of_nil in Hin.
  - intros k l Hl. destruct (pool_back p Hok k l Hl) as (H1 & H2 & _). done.
  - destruct Hb. unfold maxOrphanBlocks in *. lia.
  - intros b now HBb Hnew. destruct (addOrphan_ok p b now Hok Hb HBb Hnew) as (p' & E & _ & _ & Hl). exists p'. split; [done|].
    apply bool_decide_eq_true. by rewrite Hl.
Qed.
End pool.

(** ** A run that exceeds the limit *)
Module OrphanDemo.
Definition blk (i : Z) : MsgBlock :=
  mkMsgBlock (mkMsgHeader None (mkBlockHeader i (replicate 32 x05) zeroHash (timeUnix 0) 0 zeroHash)) None [].
Definition B (b : MsgBlock) : Prop := ∃ i, b = blk i.
Definition hash (i : Z) : bytes := BlockHash toySha (mb_BlockHeader (blk i)).
Definition add (p : orphanPool) (i : Z) : option orphanPool :=
  match op_orphans p !! hash i with
  | Some _ => None
  | None => match addOrphanBlock toySha map_to_list p (blk i) i with Ok p' => Some p' | Err _ => None end
  end.
Fixpoint addAll (p : orphanPool) (l : list Z) : option orphanPool :=
  match l with [] => Some p | i :: l' => add p i ≫= (λ p, addAll p l') end.
(** Two blocks, the first of which leaves; then twenty-five more. *)
Definition run : option orphanPool :=
  p ← addAll emptyPool [1; 2];
  o ← op_orphans p !! hash 1;
  addAll (removeOrphanBlock toySha p o) (seqZ 3 25).
Abbreviation step := (poolStep toySha B map_to_list).
End OrphanDemo.

Lemma demo_blocks b b' : OrphanDemo.B b → OrphanDemo.B b' →
  BlockHash toySha (mb_BlockHeader b) = BlockHash toySha (mb_BlockHeader b') →
  bh_PrevBlock (mb_BlockHeader b) = bh_PrevBlock (mb_BlockHeader b').
Proof. by intros [i ->] [j ->]. Qed.

Lemma addAll_reach l p p' : OrphanDemo.addAll p l = Some p' → rtc OrphanDemo.step p p'.
Proof.
  revert p. induction l as [|i l IH]; intros p; cbn [OrphanDemo.addAll].
  - intros [= ->]. apply rtc_refl.
  - destruct (OrphanDemo.add p i) as [p1|] eqn:E; [|done]. cbn [mbind option_bind]. intros H. eapply rtc_l; [|by apply IH].
    unfold OrphanDemo.add in E. destruct (op_orphans p !! _) eqn:El; [done|].
    destruct (addOrphanBlock _ _ p (OrphanDemo.blk i) i) as [p2|] eqn:Ea; [|done]. injection E as ->.
    apply (step_add toySha OrphanDemo.B map_to_list p (OrphanDemo.blk i) i p1); [by exists i|exact El|exact Ea].
Qed.

Lemma run_reach p : OrphanDemo.run = Some p → rtc OrphanDemo.step emptyPool p.
Proof.
  unfold OrphanDemo.run. destruct (OrphanDemo.addAll emptyPool [1; 2]) as [p1|] eqn:E1; [|done]. cbn [mbind option_bind].
  destruct (op_orphans p1 !! OrphanDemo.hash 1) as [o|] eqn:Eo; [|done]. cbn [mbind option_bind]. intros E2.
  etransitivity; [by eapply addAll_reach|]. eapply rtc_l; [|by eapply addAll_reach].
  apply (step_remove toySha OrphanDemo.B map_to_list p1 _ o Eo).
Qed.

Lemma run_size : (λ p, Z.of_nat (size (op_orphans p))) <$> OrphanDemo.run = Some 26.
Proof. vm_compute. reflexivity. Qed.

(** The limit of twenty-five orphans can be exceeded: when the orphan the
    oldest pointer points to has left the pool (here because its parent
    arrived), the eviction removes nothing, and 26 orphans are held. *)
Lemma orphan_limit_exceeded :
  ∃ p, rtc (poolStep toySha OrphanDemo.B map_to_list) emptyPool p
    ∧ Z.of_nat (size (op_orphans p)) = maxOrphanBlocks + 1.
Proof.
  pose proof run_size as Hs. destruct OrphanDemo.run as [p|] eqn:E; [|done]. exists p.
  split; [by apply run_reach|]. by injection Hs.
Qed.

Lemma orphan_pool_invariant_witness : ∃ p, rtc OrphanDemo.step emptyPool p ∧ (size (op_orphans p) <= 26)%nat
  ∧ ∃ p', addOrphanBlock toySha map_to_list p (OrphanDemo.blk 7) 5 = Ok p'
      ∧ IsKnownOrphan p' (OrphanDemo.hash 7) = true.
Proof.
  exists emptyPool. split; [apply rtc_refl|].
  destruct (orphan_pool_invariant toySha OrphanDemo.B demo_blocks map_to_list (λ m, reflexivity _) emptyPool (rtc_refl _ _))
    as (_ & _ & H1 & H2). split; [exact H1|]. apply (H2 (OrphanDemo.blk 7) 5); [by exists 7|apply lookup_empty].
Defined.
