(* ===== verification/Detach.v ===== *)
(** * Undoing a block on a view that holds only some of the coins
    (src/node/blockchain/utxoviewpoint.go, as chain.go uses it)

    A reorganisation undoes blocks on a view that is filled on demand: it holds
    the coins that the undone blocks touch and nothing else, with the flags the
    UTXO cache gave them and the outputs of the block itself added again.  The
    lemmas of this file say that such a view, laid over the set of the tip, goes
    to the set of the parent, and that its modified entries are exactly the
    difference that has to be written to the database. *)
From Stdlib Require Import ZArith Lia Strings.Byte.
From stdpp Require Import base list gmap.
From S2P Require Import Prelude RuleErrors WireTx WireBlock Script Merkle Utxo Compress ChainIO SizeHelper UtxoCache.
Open Scope Z_scope.
Open Scope list_scope.

Abbreviation coinSet := (gmap OutPoint SpentTxOut).

(** What the view says, with [M] behind it. *)
Definition eff (M : coinSet) (v : UtxoViewpoint) (op : OutPoint) : option SpentTxOut :=
  match LookupEntry v op with Some e => coinOf (Some e) | None => M !! op end.

(** An entry that is not marked modified is a coin of [M]. *)
Definition goodEntry (M : coinSet) (op : OutPoint) (oe : option UtxoEntry) : Prop :=
  wfOp op ∧ ∀ e, oe = Some e → wfCoin (stxoOf e)
    ∧ (isModified e = false → IsSpent e = false ∧ M !! op = Some (stxoOf e)).
Definition good (M : coinSet) (v : UtxoViewpoint) : Prop := map_Forall (goodEntry M) (entries v).

(** A view between two blocks: every entry is an unspent coin of [M]. *)
Definition viewFor (M : coinSet) (v : UtxoViewpoint) : Prop :=
  map_Forall (λ op oe, wfOp op ∧ ∃ e, oe = Some e ∧ wfCoin (stxoOf e) ∧ IsSpent e = false ∧ M !! op = Some (stxoOf e))
    (entries v).

(** The view agrees with [M] but on the outputs [K] of the block. *)
Definition agrees (M : coinSet) (K : list OutPoint) (v : UtxoViewpoint) : Prop := ∀ op, op ∉ K → eff M v op = M !! op.

Lemma lookup_setEntry v op e op' : LookupEntry (setEntry v op e) op' = if decide (op' = op) then Some e else LookupEntry v op'.
Proof.
  unfold LookupEntry, setEntry. cbn [entries]. case_decide as E; [subst; by rewrite lookup_insert_eq|].
  by rewrite lookup_insert_ne.
Qed.

Lemma eff_setEntry M v op e op' : eff M (setEntry v op e) op' = if decide (op' = op) then coinOf (Some e) else eff M v op'.
Proof. unfold eff. rewrite lookup_setEntry. by case_decide. Qed.

Lemma good_setEntry M v op e : good M v → wfOp op → wfCoin (stxoOf e) →
  (isModified e = false → IsSpent e = false ∧ M !! op = Some (stxoOf e)) → good M (setEntry v op e).
Proof. intros Hg Ho Hw Hm. apply map_Forall_insert_2; [|done]. split; [done|]. by intros e' [= <-]. Qed.

Lemma good_lookup M v op e : good M v → LookupEntry v op = Some e → goodEntry M op (Some e).
Proof.
  intros Hg. unfold LookupEntry. destruct (entries v !! op) as [oe|] eqn:E; [|done]. cbn. intros ->. exact (Hg _ _ E).
Qed.

Lemma viewFor_good M v : viewFor M v → good M v ∧ ∀ op, eff M v op = M !! op.
Proof.
  intros Hv. split.
  - intros op oe E. destruct (Hv _ _ E) as (Ho & e & -> & Hw & Hs & HM). split; [done|]. by intros e' [= <-].
  - intros op. unfold eff, LookupEntry. destruct (entries v !! op) as [oe|] eqn:E; [|done].
    destruct (Hv _ _ E) as (Ho & e & -> & Hw & Hs & HM). cbn. by rewrite Hs, HM.
Qed.

(** The modified entries are the whole difference. *)
Lemma overlay_eff M v f op : good M v → f op = M !! op → overlay v f op = eff M v op.
Proof.
  intros Hg Hf. unfold overlay, eff. destruct (LookupEntry v op) as [e|] eqn:E; [|done].
  destruct (isModified e) eqn:Em; [done|]. destruct (good_lookup M v op e Hg E) as [_ He].
  destruct (He e eq_refl) as [_ [Hs HM]]; [done|]. rewrite Hf, HM. cbn. by rewrite Hs.
Qed.

(** After [commit] the view is one of the new set. *)
Lemma commit_viewFor M M' v : good M v → (∀ op, eff M v op = M' !! op) → viewFor M' (commit v).
Proof.
  intros Hg He op oe E. unfold commit in E. cbn [entries] in E. rewrite lookup_omap in E.
  destruct (entries v !! op) as [[e|]|] eqn:Ev; cbn in E; [|done|done].
  assert (HL : LookupEntry v op = Some e) by (unfold LookupEntry; by rewrite Ev).
  destruct (Hg _ _ Ev) as [Ho Hge]. destruct (Hge e eq_refl) as [Hw Hm].
  destruct (isModified e && IsSpent e) eqn:Eb; [done|]. injection E as <-.
  assert (Hs : IsSpent e = false).
  { destruct (isModified e) eqn:Em; [exact Eb|]. by apply Hm. }
  assert (Hflip : IsSpent (setFlags e (Z.lxor (ue_packedFlags e) tfModified)) = IsSpent e
    ∧ stxoOf (setFlags e (Z.lxor (ue_packedFlags e) tfModified)) = stxoOf e).
  { set (e' := setFlags e _). destruct (flag_bits e') as (H0 & H1 & _). destruct (flag_bits e) as (G0 & G1 & _).
    unfold stxoOf. rewrite H0, H1, G0, G1. unfold e', setFlags, tfModified. cbn [ue_packedFlags ue_amount ue_pkScript ue_blockHeight].
    rewrite !Z.lxor_spec. cbn [Z.testbit Pos.testbit]. by rewrite !xorb_false_r. }
  destruct Hflip as [F1 F2]. split; [done|]. eexists. split; [reflexivity|]. rewrite F1, F2. split; [done|]. split; [done|].
  rewrite <- He. unfold eff. rewrite HL. cbn. by rewrite Hs.
Qed.

Section undo.
Context (sha256 : bytes → bytes) (Hsha : ∀ b, length (sha256 b) = 32%nat) (M : coinSet).

Lemma Spend_modified e : (IsSpent e = true → isModified e = true) → isModified (Spend e) = true.
Proof.
  intros He. destruct (IsSpent e) eqn:Es.
  - unfold Spend. rewrite Es. by apply He.
  - by apply Spend_flags.
Qed.

Lemma undoOutputs_good hash (cb : bool) h i outs v : length hash = 32%nat → 0 <= h < 2 ^ 31 →
  Forall (λ o, 0 <= to_Value o < 2 ^ 60 ∧ zlen (to_PkScript o) < 2 ^ 32) outs →
  good M v → good M (undoOutputs hash (if cb then tfCoinBase else 0) h i outs v)
    ∧ ∀ op, eff M (undoOutputs hash (if cb then tfCoinBase else 0) h i outs v) op
        = if decide (op ∈ fst <$> spendableFrom hash cb h i outs) then None else eff M v op.
Proof.
  intros Hl Hh Hw. revert i v. induction Hw as [|o outs [Hv Hp] Hw IH]; intros i v Hg.
  { split; [done|]. intros op. rewrite decide_False; [done|apply not_elem_of_nil]. }
  cbn [undoOutputs spendableFrom]. destruct (IsUnspendable (to_PkScript o)); [by apply IH|].
  set (op0 := mkOutPoint hash (u32 i)). set (e0 := default _ _). cbn [app].
  assert (He0 : wfCoin (stxoOf e0) ∧ (IsSpent e0 = true → isModified e0 = true)).
  { unfold e0. destruct (LookupEntry v op0) as [e|] eqn:E.
    - change (default _ (Some e)) with e. destruct (good_lookup M v op0 e Hg E) as [_ He]. destruct (He e eq_refl) as [H1 H2]. split; [done|].
      intros Hs. destruct (isModified e); [done|]. destruct H2 as [Hs2 _]; [done|]. congruence.
    - split; [unfold wfCoin; cbn; lia|]. by destruct cb. }
  destruct He0 as [Hw0 Hm0]. destruct (Spend_flags e0) as (S1 & _ & _ & S4).
  destruct (IH (i + 1) (setEntry v op0 (Spend e0))) as [G1 G2].
  { apply good_setEntry; [done|split; [done|by apply (wrapU_in 32)]|by rewrite S4|]. by rewrite Spend_modified. }
  split; [exact G1|]. intros op. rewrite G2, eff_setEntry. cbn [coinOf mbind option_bind]. rewrite S1. csimpl.
  destruct (decide (op ∈ fst <$> spendableFrom hash cb h (i + 1) outs)) as [Hin|Hni].
  - rewrite decide_True by (by right). done.
  - destruct (decide (op = op0)) as [->|Hne].
    + rewrite decide_True by (by left). done.
    + rewrite decide_False; [done|]. by apply not_elem_of_cons.
Qed.

(** The view run beside a view of the whole set; [K] is what they still differ
    on. *)
Definition beside (K : list OutPoint) (v V : UtxoViewpoint) : Prop := ∀ op, op ∉ K → eff M v op = utxoSet V !! op.

Definition restored (c : SpentTxOut) : UtxoEntry :=
  mkUtxoEntry (stxo_Amount c) (stxo_PkScript c) (stxo_Height c) (Z.lor tfModified (if stxo_IsCoinBase c then tfCoinBase else 0)).
Lemma restored_flags c : stxoOf (restored c) = c ∧ isModified (restored c) = true ∧ IsSpent (restored c) = false.
Proof. by destruct c as [? ? ? []]. Qed.

Lemma undoInputs_beside ins K v V stack V' st : Forall (λ ti, wfOp (ti_PreviousOutPoint ti)) ins → Forall wfCoin stack →
  good M v → beside K v V → undoInputs ins V stack = Ok (V', st) →
  ∃ v', undoInputs ins v stack = Ok (v', st) ∧ good M v' ∧ beside K v' V' ∧ Forall wfCoin st.
Proof.
  intros Hw. revert v V stack. induction Hw as [|ti ins Ho Hw IH]; intros v V stack Hst Hg Hb E.
  { injection E as <- <-. exists v. done. }
  cbn [undoInputs] in *. destruct stack as [|c stack]; [done|]. apply Forall_cons in Hst as [Hc Hst].
  fold (restored c) in *. destruct (restored_flags c) as (R1 & R2 & R3).
  eapply IH; [done| | |exact E].
  - apply good_setEntry; [done|done|by rewrite R1|by rewrite R2].
  - intros op Hop. rewrite eff_setEntry, utxoSet_setEntry. cbn [coinOf mbind option_bind]. rewrite R3.
    case_decide as Ed; [subst; by rewrite lookup_insert_eq|]. rewrite lookup_insert_ne by done. by apply Hb.
Qed.

Lemma disconnectTransaction_beside h (cb : bool) tx K v V stack V' st : 0 <= h < 2 ^ 31 → wfTxIns tx → wfTxOuts tx →
  Forall wfCoin stack → good M v → beside ((fst <$> spendableFrom (TxHash sha256 tx) cb h 0 (tx_TxOut tx)) ++ K) v V →
  disconnectTransaction sha256 h cb tx V stack = Ok (V', st) →
  ∃ v', disconnectTransaction sha256 h cb tx v stack = Ok (v', st) ∧ good M v' ∧ beside K v' V' ∧ Forall wfCoin st.
Proof.
  intros Hh Hwi Hwo Hst Hg Hb E. unfold disconnectTransaction in *.
  destruct (undoOutputs_good (TxHash sha256 tx) cb h 0 (tx_TxOut tx) v (Hsha _) Hh Hwo Hg) as [G1 G2].
  assert (Hb1 : beside K (undoOutputs (TxHash sha256 tx) (if cb then tfCoinBase else 0) h 0 (tx_TxOut tx) v)
                         (undoOutputs (TxHash sha256 tx) (if cb then tfCoinBase else 0) h 0 (tx_TxOut tx) V)).
  { intros op Hop. rewrite G2, (undoOutputs_set _ cb), lookup_deleteAll. case_decide as Ed; [done|]. apply Hb.
    rewrite elem_of_app. naive_solver. }
  destruct cb.
  - injection E as <- <-. eexists. split; [done|]. done.
  - eapply undoInputs_beside; [by apply Forall_reverse|done|exact G1|exact Hb1|exact E].
Qed.

Lemma disconnectLoop_beside h l v V stack V' st : 0 <= h < 2 ^ 31 → Forall (λ p : bool * MsgTx, wfTxIns p.2 ∧ wfTxOuts p.2) l →
  Forall wfCoin stack → good M v →
  beside (mjoin ((λ p : bool * MsgTx, fst <$> spendableFrom (TxHash sha256 p.2) p.1 h 0 (tx_TxOut p.2)) <$> l)) v V →
  disconnectLoop sha256 h l V stack = Ok (V', st) →
  ∃ v', disconnectLoop sha256 h l v stack = Ok (v', st) ∧ good M v' ∧ beside [] v' V'.
Proof.
  intros Hh Hw. revert v V stack. induction Hw as [|[cb tx] l [Hwi Hwo] Hw IH]; intros v V stack Hst Hg Hb E.
  { injection E as <- <-. exists v. done. }
  cbn [disconnectLoop] in *. destruct (disconnectTransaction sha256 h cb tx V stack) as [[V1 st1]|] eqn:E1; [|done].
  cbn [res_bind] in E.
  destruct (disconnectTransaction_beside h cb tx _ v V stack V1 st1 Hh Hwi Hwo Hst Hg Hb E1) as (v1 & -> & G1 & B1 & W1).
  cbn [res_bind]. by apply (IH v1 V1).
Qed.
End undo.

(** A view of a whole set. *)
Definition fullView (M : coinSet) : UtxoViewpoint := mkView ((λ c, Some (restored c)) <$> M) [].
Lemma fullView_set M : utxoSet (fullView M) = M.
Proof.
  apply map_eq. intros op. unfold utxoSet, fullView. cbn [entries]. rewrite lookup_omap, lookup_fmap.
  destruct (M !! op) as [c|]; [|done]. cbn. destruct (restored_flags c) as (R1 & _ & R3). by rewrite R1, R3.
Qed.

Lemma insertOuts_wfCoin hash cb h i outs m : 0 <= h < 2 ^ 31 →
  Forall (λ o, 0 <= to_Value o < 2 ^ 60 ∧ zlen (to_PkScript o) < 2 ^ 32) outs →
  map_Forall (λ _ : OutPoint, wfCoin) m → map_Forall (λ _, wfCoin) (insertAll (spendableFrom hash cb h i outs) m).
Proof.
  intros Hh Hw. revert i m. induction Hw as [|o outs [Hv Hp] Hw IH]; intros i m Hm; [done|].
  cbn [spendableFrom]. destruct (IsUnspendable (to_PkScript o)); cbn [app]; [by apply IH|].
  unfold insertAll in *. cbn [foldl fst snd]. apply IH. apply map_Forall_insert_2; [|done]. unfold wfCoin. cbn. lia.
Qed.

(** Every coin of the set is one the database can hold. *)
Lemma blockOk_wfCoin sha256 h M txs cs M' : 0 <= h < 2 ^ 31 → Forall wfTxOuts txs → blockOk sha256 h M txs cs M' →
  map_Forall (λ _, wfCoin) M → map_Forall (λ _, wfCoin) M' ∧ Forall wfCoin cs.
Proof.
  intros Hh Hw Hb. induction Hb as [m|m tx txs cs rest m' Htx Hb IH]; intros HM; [done|].
  apply Forall_cons in Hw as [Hw1 Hw2].
  assert (Hcs : Forall wfCoin cs).
  { destruct Htx as [_ Hin]. destruct (IsCoinBaseTx tx); [by subst|]. destruct Hin as [_ Hf].
    clear -Hf HM. induction Hf as [|ti c ins cs Hc Hf IH]; constructor; [exact (HM _ _ Hc)|done]. }
  assert (Hset : map_Forall (λ _, wfCoin) (txSet sha256 h m tx)).
  { unfold txSet. assert (Hd : map_Forall (λ _, wfCoin) (if IsCoinBaseTx tx then m else deleteAll (insOf tx) m)).
    { destruct (IsCoinBaseTx tx); [done|]. intros k c. rewrite lookup_deleteAll. case_decide; [done|]. apply HM. }
    by apply insertOuts_wfCoin. }
  destruct (IH Hw2 Hset) as [H1 H2]. split; [done|]. by apply Forall_app.
Qed.

(** Undoing a block on a partial view. *)
Lemma disconnect_partial sha256 (Hsha : ∀ b, length (sha256 b) = 32%nat) (M0 M1 : coinSet) v b cb txs cs :
  blk_Transactions b = cb :: txs → IsCoinBaseTx cb = true → Forall (λ tx, IsCoinBaseTx tx = false) txs →
  0 <= blk_Height b < 2 ^ 31 → Forall wfTxIns (cb :: txs) → Forall wfTxOuts (cb :: txs) →
  Forall wfCoin cs → blockOk sha256 (blk_Height b) M0 (cb :: txs) cs M1 →
  good M1 v → agrees M1 (blockKeys sha256 b) v →
  ∃ v', disconnectTransactions sha256 v b cs = Ok v' ∧ good M1 v' ∧ ∀ op, eff M1 v' op = M0 !! op.
Proof.
  intros Ht Hcb Htxs Hh Hwi Hwo Hcs Hb Hg Hag. unfold disconnectTransactions.
  assert (Hcount : (length cs =? countSpentOutputs b)%nat = true).
  { apply Nat.eqb_eq. unfold countSpentOutputs. rewrite Ht. cbn [drop].
    inversion Hb as [|? ? ? cs1 rest ? [_ Hcoins] Hb1]; subst. rewrite Hcb in Hcoins. subst cs1. cbn [app].
    by apply (blockOk_count _ _ _ _ _ _ Htxs Hb1). }
  rewrite Hcount, Ht, indexed_flags by done. cbn [negb].
  destruct (disconnectLoop_set sha256 (blk_Height b) M0 (cb :: txs) cs M1 (fullView M1) [] Hb (fullView_set M1)) as (V' & EV & HV).
  rewrite app_nil_r in EV.
  destruct (disconnectLoop_beside sha256 Hsha M1 (blk_Height b) (reverse ((λ tx, (IsCoinBaseTx tx, tx)) <$> cb :: txs)) v (fullView M1)
    (reverse cs) V' [] Hh) as (v' & E & G' & B'); [| |done| |exact EV|].
  - apply Forall_reverse, Forall_fmap, Forall_forall. intros tx Hin. rewrite Forall_forall in Hwi, Hwo. split; [by apply Hwi|by apply Hwo].
  - by apply Forall_reverse.
  - intros op Hop. rewrite fullView_set. apply Hag. intros Hin. apply Hop.
    apply elem_of_blockKeys in Hin as (tx & Hin & Hk). rewrite Ht in Hin.
    apply list_elem_of_join. eexists. split; [exact Hk|]. apply list_elem_of_fmap. exists (IsCoinBaseTx tx, tx). split; [done|].
    apply elem_of_reverse. by apply (list_elem_of_fmap_2 (λ tx, (IsCoinBaseTx tx, tx))).
  - rewrite E. cbn [res_bind]. eexists. split; [done|]. split; [done|]. intros op. rewrite <- HV. apply B'. apply not_elem_of_nil.
Qed.

(** ** Filling the view *)
Section fill.
Context (sha256 : bytes → bytes) (Hsha : ∀ b, length (sha256 b) = 32%nat) (M : coinSet).

Lemma addTxOutsFrom_good hash cb h i outs v : length hash = 32%nat → 0 <= h < 2 ^ 31 →
  Forall (λ o, 0 <= to_Value o < 2 ^ 60 ∧ zlen (to_PkScript o) < 2 ^ 32) outs → good M v →
  good M (addTxOutsFrom hash cb h i outs v)
    ∧ ∀ op, op ∉ fst <$> spendableFrom hash cb h i outs → eff M (addTxOutsFrom hash cb h i outs v) op = eff M v op.
Proof.
  intros Hl Hh Hw. revert i v. induction Hw as [|o outs [Hv Hp] Hw IH]; intros i v Hg; [done|].
  cbn [addTxOutsFrom spendableFrom]. unfold Utxo.addTxOut. destruct (IsUnspendable (to_PkScript o)); [by apply IH|].
  set (e := mkUtxoEntry _ _ _ _). set (op0 := mkOutPoint _ _). cbn [app].
  destruct (newEntry_flags (to_Value o) (to_PkScript o) h cb) as (_ & F2 & _ & F4). fold e in F2, F4.
  destruct (IH (i + 1) (setEntry v op0 e)) as [G1 G2].
  { apply good_setEntry; [done|split; [done|by apply (wrapU_in 32)]|rewrite F4; unfold wfCoin; cbn; lia|by rewrite F2]. }
  split; [done|]. intros op Hop. csimpl in Hop. apply not_elem_of_cons in Hop as [Hne Hop].
  rewrite G2 by done. by rewrite eff_setEntry, decide_False.
Qed.

(** The invariant of the loops of [findInputsToFetch]. *)
Definition filling (b : Block) (acc : UtxoViewpoint * list OutPoint) : Prop :=
  good M acc.1 ∧ agrees M (blockKeys sha256 b) acc.1.

Lemma findInput_filling b i acc ti : 0 <= blk_Height b < 2 ^ 31 → Forall wfTxOuts (blk_Transactions b) →
  filling b acc → filling b (findInput sha256 b i acc ti).
Proof.
  intros Hh Hwo. destruct acc as [v needed]. intros (Hg & Ha). unfold findInput. cbn [fst snd] in *.
  assert (Hfetch : filling b (if bool_decide (is_Some (entries v !! ti_PreviousOutPoint ti)) then (v, needed)
                              else (v, needed ++ [ti_PreviousOutPoint ti]))).
  { by case_bool_decide. }
  destruct (txInFlight sha256 (blk_Transactions b) !! op_Hash (ti_PreviousOutPoint ti)) as [idx|]; [|done].
  destruct (idx <=? i)%nat; [|done]. destruct (blk_Transactions b !! idx) as [origin|] eqn:E; [|done].
  apply list_elem_of_lookup_2 in E. rewrite Forall_forall in Hwo.
  destruct (addTxOutsFrom_good (TxHash sha256 origin) (IsCoinBaseTx origin) (blk_Height b) 0 (tx_TxOut origin) v (Hsha _) Hh (Hwo _ E) Hg)
    as [G1 G2].
  split; [exact G1|]. intros op Hop. cbn [fst]. unfold AddTxOuts. rewrite G2; [by apply Ha|].
  intros Hin. apply Hop. apply elem_of_blockKeys. by exists origin.
Qed.

Lemma foldl_inv {A B} (P : A → Prop) (f : A → B → A) l a : P a → (∀ a b, b ∈ l → P a → P (f a b)) → P (foldl f a l).
Proof.
  revert a. induction l as [|b l IH]; intros a Ha Hf; [done|]. cbn. apply IH; [apply Hf; [by left|done]|].
  intros a' b' Hb'. apply Hf. by right.
Qed.

Lemma findInputs_filling b v : 0 <= blk_Height b < 2 ^ 31 → Forall wfTxOuts (blk_Transactions b) →
  good M v → agrees M (blockKeys sha256 b) v → filling b (findInputsToFetch sha256 v b).
Proof.
  intros Hh Hwo Hg Ha. unfold findInputsToFetch. apply foldl_inv; [done|].
  intros acc [i tx] _ Hacc. apply foldl_inv; [done|]. intros acc' ti _ Hacc'. by apply findInput_filling.
Qed.

(** What is fetched are inputs of the block. *)
Lemma needed_wf b v : Forall wfTxIns (blk_Transactions b) → Forall wfOp (findInputsToFetch sha256 v b).2.
Proof.
  intros Hwi. unfold findInputsToFetch. apply (foldl_inv (λ acc : UtxoViewpoint * list OutPoint, Forall wfOp acc.2)); [by constructor|].
  intros acc [i tx] Hin Hacc. cbn [fst snd]. apply elem_of_lookup_imap in Hin as (j & tx' & [= -> ->] & Hj).
  rewrite lookup_drop in Hj. pose proof (Forall_lookup_1 _ _ _ _ Hwi Hj) as Hw. unfold wfTxIns in Hw. rewrite Forall_forall in Hw.
  apply (foldl_inv (λ acc : UtxoViewpoint * list OutPoint, Forall wfOp acc.2)); [done|]. intros [v' n] ti Hti Hn.
  unfold findInput. cbn [snd] in Hn.
  assert (Hn' : Forall wfOp (n ++ [ti_PreviousOutPoint ti])) by (apply Forall_app; split; [done|]; constructor; [by apply Hw|done]).
  repeat case_match; done.
Qed.
End fill.

(** ** The set transition, executable *)
Section check.
Context (sha256 : bytes → bytes).

Definition txCheck (h : Z) (m : coinSet) (tx : MsgTx) : option (list SpentTxOut) :=
  if forallb (λ p, bool_decide (m !! p.1 = None)) (outsOf sha256 h tx) then
    if IsCoinBaseTx tx then Some []
    else if bool_decide (NoDup (insOf tx)) then mapM (λ ti, m !! ti_PreviousOutPoint ti) (tx_TxIn tx) else None
  else None.
Fixpoint blockCheck (h : Z) (m : coinSet) (txs : list MsgTx) : option (list SpentTxOut * coinSet) :=
  match txs with
  | [] => Some ([], m)
  | tx :: txs' =>
      coins ← txCheck h m tx;
      '(rest, m') ← blockCheck h (txSet sha256 h m tx) txs';
      Some (coins ++ rest, m')
  end.

Lemma txCheck_spec h m tx coins : txCheck h m tx = Some coins ↔ txOk sha256 h m tx coins.
Proof.
  unfold txCheck, txOk. destruct (forallb _ _) eqn:E.
  - assert (Hf : Forall (λ p, m !! p.1 = None) (outsOf sha256 h tx)).
    { apply Forall_forall. intros p Hp. rewrite forallb_forall in E. eapply bool_decide_eq_true. apply E. by apply list_elem_of_In. }
    destruct (IsCoinBaseTx tx); [split; [by intros [= <-]|by intros [_ ->]]|]. case_bool_decide as Hn.
    + rewrite mapM_Some. naive_solver.
    + naive_solver.
  - split; [done|]. intros [Hf _]. assert (forallb (λ p, bool_decide (m !! p.1 = None)) (outsOf sha256 h tx) = true) as Et; [|congruence].
    apply forallb_forall. intros p Hp. apply bool_decide_eq_true. rewrite Forall_forall in Hf. apply Hf. by apply list_elem_of_In.
Qed.

Lemma blockCheck_spec h m txs cs m' : blockCheck h m txs = Some (cs, m') ↔ blockOk sha256 h m txs cs m'.
Proof.
  split.
  - revert m cs. induction txs as [|tx txs IH]; intros m cs E; cbn in E; [injection E as <- <-; constructor|].
    destruct (txCheck h m tx) as [coins|] eqn:Et; [|done]. cbn in E.
    destruct (blockCheck h (txSet sha256 h m tx) txs) as [[rest m1]|] eqn:Eb; [|done]. cbn in E. injection E as <- <-.
    constructor; [by apply txCheck_spec|by apply IH].
  - induction 1 as [m|m tx txs coins rest m' Htx Hb IH]; [done|]. cbn. apply txCheck_spec in Htx. rewrite Htx. cbn. by rewrite IH.
Qed.
End check.
