(* ===== verification/Chain.v ===== *)
(** * The chain state machine
    (src/node/blockchain/chain.go, src/node/blockchain/process.go,
    src/node/blockchain/accept.go)

    The state of a running chain: the block index and the best-chain view, the
    UTXO cache over the database, the snapshot of the best state, the orphans
    and the version-bits caches.  Every operation returns a result and the state
    it leaves, also when it fails.  A database transaction is rolled back when
    its body fails; nothing else is.  Notifications are not modelled, but the
    point where the chain lock is released to send them is ([connectBlock]). *)
From Stdlib Require Import ZArith Lia Strings.Byte.
From stdpp Require Import base list gmap.
From S2P Require Import Prelude RuleErrors WireTx WireBlock Chaincfg Difficulty BlockIndex.
From S2P Require Import Merkle Script Utxo Covenant TxRules ScriptVal BlockRules.
From S2P Require Import Compress ChainIO SizeHelper UtxoCache ThresholdState Orphans.
Open Scope Z_scope.
Open Scope list_scope.

(** ** Best-chain selection *)

(** [diff >= min(work of the two tip blocks) >> 2] on top of strictly more
    work. *)
Definition ShouldChangeTip (currentWork proposedWork currentTipBlockWork proposedTipBlockWork : Z) : bool :=
  if proposedWork <=? currentWork then false
  else
    let diff := proposedWork - currentWork in
    let minBlockWork := if proposedTipBlockWork <? currentTipBlockWork then proposedTipBlockWork else currentTipBlockWork in
    let threshold := Z.shiftr minBlockWork 2 in
    threshold <=? diff.

(** ** The state *)
Record BestState := mkBestState {
  bst_Hash : bytes;
  bst_Height : Z;
  bst_Bits : Z;
  bst_BlockSize : Z;
  bst_BlockVsize : Z;
  bst_NumTxns : Z;
  bst_TotalTxns : Z;
  bst_MedianTime : Z;
  bst_BlockTime : Z }.

Definition newBestState (node : blockNode) (blockSize blockVsize numTxns totalTxns medianTime blockTime : Z) : BestState :=
  mkBestState (bn_hash node) (bn_height node) (bn_bits node) blockSize blockVsize numTxns totalTxns medianTime blockTime.

(** The buckets of the database the chain writes. *)
Record chainDb := mkChainDb {
  cdb_utxo : utxoDb (D := bucket);
  cdb_bestState : option bytes;
  cdb_hashIndex : bucket;
  cdb_heightIndex : bucket;
  cdb_spendJournal : bucket;
  cdb_headers : gmap bytes BlockHeader;         (* by [blockIndexKey] *)
  cdb_status : gmap bytes Z;
  cdb_vsize : gmap bytes Z;
  cdb_blocks : gmap bytes MsgBlock }.

Record Chain := mkChainState {
  ch_b : BlockChain;
  ch_cache : utxoCache;
  ch_db : chainDb;
  ch_snapshot : BestState;
  ch_orphans : orphanPool;
  ch_caches : caches;
  ch_pruneTarget : Z }.

Definition withB (c : Chain) (b : BlockChain) : Chain :=
  mkChainState b (ch_cache c) (ch_db c) (ch_snapshot c) (ch_orphans c) (ch_caches c) (ch_pruneTarget c).
Definition withCache (c : Chain) (s : utxoCache) : Chain :=
  mkChainState (ch_b c) s (ch_db c) (ch_snapshot c) (ch_orphans c) (ch_caches c) (ch_pruneTarget c).
Definition withDb (c : Chain) (d : chainDb) : Chain :=
  mkChainState (ch_b c) (ch_cache c) d (ch_snapshot c) (ch_orphans c) (ch_caches c) (ch_pruneTarget c).
Definition withSnapshot (c : Chain) (st : BestState) : Chain :=
  mkChainState (ch_b c) (ch_cache c) (ch_db c) st (ch_orphans c) (ch_caches c) (ch_pruneTarget c).
Definition withOrphans (c : Chain) (p : orphanPool) : Chain :=
  mkChainState (ch_b c) (ch_cache c) (ch_db c) (ch_snapshot c) p (ch_caches c) (ch_pruneTarget c).
Definition withCaches (c : Chain) (tc : caches) : Chain :=
  mkChainState (ch_b c) (ch_cache c) (ch_db c) (ch_snapshot c) (ch_orphans c) tc (ch_pruneTarget c).
Definition setIndex (b : BlockChain) (bi : blockIndex) : BlockChain :=
  mkChain (bc_params b) (bc_checkpoints b) (bc_checkpointsByHeight b) bi (bc_bestChain b) (bc_checkpointNode b) (bc_nextCheckpoint b).
Definition setBestChain (b : BlockChain) (v : chainView) : BlockChain :=
  mkChain (bc_params b) (bc_checkpoints b) (bc_checkpointsByHeight b) (bc_index b) v (bc_checkpointNode b) (bc_nextCheckpoint b).

Definition ch_index (c : Chain) : blockIndex := bc_index (ch_b c).
Definition ch_heap (c : Chain) : heap := bi_heap (ch_index c).
Definition ch_tip (c : Chain) : option ptr := tip (bc_bestChain (ch_b c)).
Definition ch_tipNode (c : Chain) : option blockNode := ch_tip c ≫= (ch_heap c !!.).
Definition withIndex (c : Chain) (bi : blockIndex) : Chain := withB c (setIndex (ch_b c) bi).

(** Computations on the chain. *)
Definition chM (A : Type) : Type := Chain → res verr A * Chain.
Definition hret {A} (a : A) : chM A := λ c, (Ok a, c).
Definition herr {A} (e : verr) : chM A := λ c, (Err e, c).
Definition hbind {A B} (m : chM A) (k : A → chM B) : chM B := λ c,
  match m c with (Ok a, c) => k a c | (Err e, c) => (Err e, c) end.
Definition hget {A} (f : Chain → A) : chM A := λ c, (Ok (f c), c).
Definition hmod (f : Chain → Chain) : chM unit := λ c, (Ok tt, f c).
Definition hlift {A} (r : res verr A) : chM A := λ c, (r, c).
(** A pointer that must not be nil. *)
Definition hsome {A} (o : option A) : chM A := match o with Some a => hret a | None => herr RuntimePanic end.

Declare Scope chain_scope.
Notation "'do!' x ':=' c 'in' k" := (hbind c (λ x, k)) (at level 200, x pattern, c at level 100, k at level 200) : chain_scope.
Open Scope chain_scope.

Section chain.
Context `{Secp} `{ZkVerifier} `{Schnorr} (sha256 blake3 sha3 : bytes → bytes).
Context (engine : bytes → MsgTx → nat → Z → UtxoViewpoint → engineResult).
(** [chainParams.GenesisHash], [math.Log2], the map orders, and the two clocks:
    [now] is [time.Now()] and [adjusted] is [timeSource.AdjustedTime()]. *)
Context (genesisHash : bytes) (log2u8 : Z → Z) (now adjusted : Z).
Context (range : entryMap → list (OutPoint * option UtxoEntry)).
Context (rangeOrphans : gmap bytes orphanBlock → list (bytes * orphanBlock)).
(** The database's pruning of block files: the hashes it deletes; the optional
    indexes: whether their part of the transaction fails. *)
Context (PruneBlocks : Z → gmap bytes MsgBlock → list bytes).
Context (indexConnect indexDisconnect : Block → list SpentTxOut → res verr unit).

(** [btcutil.Block] of a message block at a height. *)
Definition toBlock (msgBlock : MsgBlock) (height : Z) : Block :=
  mkBlock (mb_Transactions msgBlock) height (BlockHash sha256 (mb_BlockHeader msgBlock)) (bh_PrevBlock (mb_BlockHeader msgBlock)).

(** ** Small parts *)

(** [b.index.flushToDB]; the write of the statuses cannot fail here. *)
Definition flushIndex : chM unit := hmod (λ c,
  let '(rows, bi) := flushToDB true (ch_index c) in
  let db := ch_db c in
  withIndex (withDb c (mkChainDb (cdb_utxo db) (cdb_bestState db) (cdb_hashIndex db) (cdb_heightIndex db) (cdb_spendJournal db)
    (cdb_headers db) (foldl (λ m r, <[r.1 := r.2]> m) (cdb_status db) rows) (cdb_vsize db) (cdb_blocks db))) bi).

Definition markFlags (p : ptr) (flags : Z) : chM unit := hmod (λ c, withIndex c (SetStatusFlags (ch_index c) p flags)).
Definition unmarkFlags (p : ptr) (flags : Z) : chM unit := hmod (λ c, withIndex c (UnsetStatusFlags (ch_index c) p flags)).
Definition statusOf (c : Chain) (p : ptr) : Z := default 0 (NodeStatus (ch_index c) p).

Definition isCurrent : chM bool :=
  do! tipNode := (λ c, hsome (ch_tipNode c) c) in
  do! checkpoint := hget (λ c, LatestCheckpoint (ch_b c)) in
  match checkpoint with
  | Some cp => if bn_height tipNode <? cp_Height cp then hret false
               else hret (unixOf adjusted - 24 * 3600 <=? bn_timestamp tipNode)
  | None => hret (unixOf adjusted - 24 * 3600 <=? bn_timestamp tipNode)
  end.

(** The blocks of the store; the error of a missing block is the database's. *)
Definition fetchBlockByNode (p : ptr) : chM MsgBlock := λ c,
  match ch_heap c !! p with
  | None => (Err RuntimePanic, c)
  | Some nd => match cdb_blocks (ch_db c) !! bn_hash nd with
               | Some b => (Ok b, c)
               | None => (Err OtherError, c)
               end
  end.

(** [cache.fetchEntries] on the cache of the chain. *)
Definition fetchCached (ops : list OutPoint) : chM (list (option UtxoEntry)) := λ c,
  let '(r, s) := fetchEntries log2u8 (ud_coins (cdb_utxo (ch_db c))) ops (ch_cache c) in (r, withCache c s).

(** [view.fetchUtxosFromCache] *)
Definition viewFetch (v : UtxoViewpoint) (ops : list OutPoint) : chM UtxoViewpoint :=
  if bool_decide (ops = []) then hret v
  else do! es := fetchCached ops in
       hret (mkView (foldl (λ m p, <[p.1 := p.2]> m) (entries v) (zip ops es)) (bestHash v)).

Definition viewFetchInputs (v : UtxoViewpoint) (block : Block) : chM UtxoViewpoint :=
  let '(v, needed) := findInputsToFetch sha256 v block in viewFetch v needed.

(** What the cache answers for one outpoint. *)
Definition cacheRead (c : Chain) (op : OutPoint) : option UtxoEntry :=
  match get (uc_cachedEntries (ch_cache c)) op with
  | Some oe => oe
  | None => match cs_fetch (ud_coins (cdb_utxo (ch_db c))) op with Ok oe => oe | Err _ => None end
  end.

(** [b.checkConnectBlock]: the entries it reads (for the overwrite rule and for
    the inputs) enter the cache, then the rules run on them. *)
Definition checkConnect (p : ptr) (msgBlock : MsgBlock) (height : Z) (v : UtxoViewpoint) : chM UtxoViewpoint :=
  let txs := mb_Transactions msgBlock in
  do! v1 := viewFetch v (filter (λ op, entries v !! op = None) (createdOutpoints sha256 txs)) in
  do! _ := viewFetchInputs v1 (toBlock msgBlock height) in
  λ c, match checkConnectBlock sha256 sha3 engine genesisHash (cacheRead c) (ch_b c) p msgBlock height v [] with
       | Ok (v, _) => (Ok v, c)
       | Err e => (Err e, c)
       end.

(** [b.utxoCache.connectTransactions(block, &stxos)] *)
Definition cacheConnect (block : Block) : chM (list SpentTxOut) := λ c,
  match UtxoCache.connectTransactions log2u8 sha256 (ud_coins (cdb_utxo (ch_db c))) block (Some []) (ch_cache c) with
  | (Ok stxos, s) => (Ok (default [] stxos), withCache c s)
  | (Err e, s) => (Err e, withCache c s)
  end.

(** ** Connecting and disconnecting a block *)
Definition setUtxo (db : chainDb) (u : utxoDb) : chainDb :=
  mkChainDb u (cdb_bestState db) (cdb_hashIndex db) (cdb_heightIndex db) (cdb_spendJournal db) (cdb_headers db)
    (cdb_status db) (cdb_vsize db) (cdb_blocks db).

(** [b.utxoCache.flush(dbTx, ...)] inside a transaction: the database of the
    transaction and the cache. *)
Definition flushInTx (mode : FlushMode) (hash : bytes) (db : chainDb) (s : utxoCache) : res verr unit * chainDb * utxoCache :=
  let '(r, u, s) := flush range (cdb_utxo db) s mode hash now in (r, setUtxo db u, s).

Definition dbPutBestState (db : chainDb) (snapshot : BestState) (workSum : Z) : chainDb :=
  mkChainDb (cdb_utxo db)
    (Some (serializeBestChainState (mkBest (bst_Hash snapshot) (u32 (bst_Height snapshot)) (bst_TotalTxns snapshot) workSum)))
    (cdb_hashIndex db) (cdb_heightIndex db) (cdb_spendJournal db) (cdb_headers db) (cdb_status db) (cdb_vsize db) (cdb_blocks db).

Definition setMainIndex (db : chainDb) (i : bucket * bucket) (journal : bucket) : chainDb :=
  mkChainDb (cdb_utxo db) (cdb_bestState db) i.1 i.2 journal (cdb_headers db) (cdb_status db) (cdb_vsize db) (cdb_blocks db).

(** The pruning part of the transaction of [connectBlock]. *)
Definition pruneInTx (target : Z) (bi : blockIndex) (state : BestState) (db : chainDb) (s : utxoCache)
  : res verr unit * chainDb * utxoCache :=
  if target =? 0 then (Ok tt, db, s) else
  let deletedHashes := PruneBlocks target (cdb_blocks db) in
  let db := mkChainDb (cdb_utxo db) (cdb_bestState db) (cdb_hashIndex db) (cdb_heightIndex db) (cdb_spendJournal db)
              (cdb_headers db) (cdb_status db) (cdb_vsize db) (foldl (λ m h, delete h m) (cdb_blocks db) deletedHashes) in
  if bool_decide (deletedHashes = []) then (Ok tt, db, s) else
  let db := setMainIndex db (cdb_hashIndex db, cdb_heightIndex db)
              (foldl (λ m h, delete h m) (cdb_spendJournal db) deletedHashes) in
  if flushNeededAfterPrune bi s deletedHashes then flushInTx FlushRequired (bst_Hash state) db s else (Ok tt, db, s).

(** The transaction of [connectBlock]. *)
Definition connectTxn (target : Z) (bi : blockIndex) (nd : blockNode) (block : Block) (state : BestState)
    (stxos : list SpentTxOut) (db : chainDb) (s : utxoCache) : res verr unit * chainDb * utxoCache :=
  match pruneInTx target bi state db s with
  | (Err e, db, s) => (Err e, db, s)
  | (Ok _, db, s) =>
      let db := dbPutBestState db state (bn_workSum nd) in
      let db := setMainIndex db (dbPutBlockIndex (cdb_hashIndex db) (cdb_heightIndex db) (blk_Hash block) (bn_height nd))
                  (dbPutSpendJournalEntry (cdb_spendJournal db) (blk_Hash block) stxos) in
      (indexConnect block stxos, db, s)
  end.

(** [b.db.Update(body)]: on an error the database keeps its old contents, the
    cache keeps what the body did to it. *)
Definition dbUpdate (body : chainDb → utxoCache → res verr unit * chainDb * utxoCache) : chM unit := λ c,
  match body (ch_db c) (ch_cache c) with
  | (Ok _, db, s) => (Ok tt, withDb (withCache c s) db)
  | (Err e, _, s) => (Err e, withCache c s)
  end.

(** The part of [connectBlock] up to the notification, under the chain lock;
    it returns the new best state. *)
Definition connectBlockCommit (p : ptr) (msgBlock : MsgBlock) (height : Z) (stxos : list SpentTxOut) : chM BestState :=
  let block := toBlock msgBlock height in
  do! tipNode := (λ c, hsome (ch_tipNode c) c) in
  if negb (bool_decide (blk_PrevBlock block = bn_hash tipNode)) then herr AssertError else
  if negb (length stxos =? countSpentOutputs block)%nat then herr AssertError else
  do! nd := (λ c, hsome (ch_heap c !! p) c) in
  do! current := isCurrent in
  do! _ := (if current
            then λ c, let '(r, tc) := warnUnknownRuleActivations (ch_index c) (bc_params (ch_b c)) nd (ch_caches c) in (r, withCaches c tc)
            else hret tt) in
  do! _ := flushIndex in
  do! c0 := hget (λ c, c) in
  let numTxns := zlen (blk_Transactions block) in
  let state := newBestState nd (u64 (MsgBlock_SerializeSize msgBlock)) (u64 (GetBlockVsize msgBlock)) numTxns
                 (u64 (bst_TotalTxns (ch_snapshot c0) + numTxns)) (CalcPastMedianTime (H := nodeCtx (ch_heap c0)) p)
                 (bn_timestamp nd) in
  do! _ := dbUpdate (connectTxn (ch_pruneTarget c0) (ch_index c0) nd block state stxos) in
  do! _ := hmod (λ c, withB c (setBestChain (ch_b c) (setTip (ch_heap c) (bc_bestChain (ch_b c)) (Some p)))) in
  do! _ := hmod (λ c, withSnapshot c state) in
  hret state.

(** The rest of [connectBlock], after the lock is taken again: the flush uses
    the best state of the block that was connected. *)
Definition connectBlockFlush (state : BestState) : chM unit := λ c,
  if negb (shouldFlush (ch_cache c) FlushIfNeeded (bst_Hash state) now) then (Ok tt, c)
  else dbUpdate (flushInTx FlushIfNeeded (bst_Hash state)) c.

Definition connectBlock (p : ptr) (msgBlock : MsgBlock) (height : Z) (stxos : list SpentTxOut) : chM unit :=
  do! state := connectBlockCommit p msgBlock height stxos in connectBlockFlush state.

(** The transaction of [disconnectBlock]; [view] is visited in the order of its
    map. *)
Definition disconnectTxn (nd : blockNode) (block : Block) (state : BestState) (view : UtxoViewpoint)
    (db : chainDb) (s : utxoCache) : res verr unit * chainDb * utxoCache :=
  let db := dbPutBestState db state (bn_workSum nd) in
  let db := setMainIndex db (dbRemoveBlockIndex (cdb_hashIndex db) (cdb_heightIndex db) (blk_Hash block) (bn_height nd))
              (cdb_spendJournal db) in
  match flushInTx FlushRequired (bst_Hash state) db s with
  | (Err e, db, s) => (Err e, db, s)
  | (Ok _, db, s) =>
      match dbPutUtxoView (ud_coins (cdb_utxo db)) (range (entries view)) with
      | Err e => (Err e, db, s)
      | Ok b =>
          let db := setUtxo db (mkUtxoDb b (ud_consistency (cdb_utxo db))) in
          match dbFetchSpendJournalEntry (cdb_spendJournal db) block with
          | Err e => (Err e, db, s)
          | Ok stxos =>
              let db := setMainIndex db (cdb_hashIndex db, cdb_heightIndex db)
                          (dbRemoveSpendJournalEntry (cdb_spendJournal db) (blk_Hash block)) in
              (indexDisconnect block stxos, db, s)
          end
      end
  end.

(** The result is the view after [view.commit()]. *)
Definition disconnectBlock (p : ptr) (msgBlock : MsgBlock) (height : Z) (view : UtxoViewpoint) : chM UtxoViewpoint :=
  let block := toBlock msgBlock height in
  do! nd := (λ c, hsome (ch_heap c !! p) c) in
  do! tipNode := (λ c, hsome (ch_tipNode c) c) in
  if negb (bool_decide (bn_hash nd = bn_hash tipNode)) then herr AssertError else
  do! prev := hsome (bn_parent nd) in
  do! prevNode := (λ c, hsome (ch_heap c !! prev) c) in
  do! prevBlock := fetchBlockByNode prev in
  do! _ := flushIndex in
  do! c0 := hget (λ c, c) in
  let state := newBestState prevNode (u64 (MsgBlock_SerializeSize prevBlock)) (u64 (GetBlockVsize prevBlock))
                 (zlen (mb_Transactions prevBlock)) (u64 (bst_TotalTxns (ch_snapshot c0) - zlen (blk_Transactions block)))
                 (CalcPastMedianTime (H := nodeCtx (ch_heap c0)) prev) (bn_timestamp prevNode) in
  do! _ := dbUpdate (disconnectTxn nd block state view) in
  do! _ := hmod (λ c, withB c (setBestChain (ch_b c) (setTip (ch_heap c) (bc_bestChain (ch_b c)) (Some prev)))) in
  do! _ := hmod (λ c, withSnapshot c state) in
  hret (commit view).

(** ** Reorganisation *)

(** From [n] down to the fork (excluded): the nodes, the lowest first; [None]
    when one of them is known to be invalid, with the nodes above it. *)
Fixpoint attachScan (fuel : nat) (c : Chain) (n : option ptr) (forkNode : option ptr) (attachNodes : list ptr)
  : bool * list ptr :=
  match fuel, n with
  | S fuel', Some p =>
      if bool_decide (Some p = forkNode) then (false, attachNodes)
      else if KnownInvalid (statusOf c p) then (true, attachNodes)
      else attachScan fuel' c (ch_heap c !! p ≫= bn_parent) forkNode (p :: attachNodes)
  | _, _ => (false, attachNodes)
  end.
(** From the tip down to the fork (excluded), the tip first. *)
Fixpoint detachScan (fuel : nat) (c : Chain) (n : option ptr) (forkNode : option ptr) : list ptr :=
  match fuel, n with
  | S fuel', Some p =>
      if bool_decide (Some p = forkNode) then []
      else p :: detachScan fuel' c (ch_heap c !! p ≫= bn_parent) forkNode
  | _, _ => []
  end.

Fixpoint markAll (nodes : list ptr) (flags : Z) : chM unit :=
  match nodes with
  | [] => hret tt
  | p :: nodes' => do! _ := markFlags p flags in markAll nodes' flags
  end.

Definition heightOf (c : Chain) (p : ptr) : Z := default 0 (bn_height <$> ch_heap c !! p).

(** The nodes to detach, the tip first, and the nodes to attach, the lowest
    first. *)
Definition getReorganizeNodes (p : ptr) : chM (list ptr * list ptr) :=
  do! nd := (λ c, hsome (ch_heap c !! p) c) in
  do! parent := hsome (bn_parent nd) in
  do! c0 := hget (λ c, c) in
  if KnownInvalid (statusOf c0 parent) then
    do! _ := markFlags p statusInvalidAncestor in hret ([], [])
  else
    let forkNode := findFork (ch_heap c0) (bc_bestChain (ch_b c0)) (Some p) in
    let '(invalidChain, attachNodes) := attachScan (S (Z.to_nat (bn_height nd))) c0 (Some p) forkNode [] in
    if invalidChain then
      do! _ := markAll attachNodes statusInvalidAncestor in hret ([], [])
    else
      let tipHeight := match ch_tip c0 with Some t => heightOf c0 t | None => 0 end in
      hret (detachScan (S (Z.to_nat tipHeight)) c0 (ch_tip c0) forkNode, attachNodes).

(** The blocks to detach, checked against their nodes and undone on the view:
    each with its spend journal. *)
Fixpoint verifyDetach (nodes : list ptr) (view : UtxoViewpoint) (acc : list (MsgBlock * list SpentTxOut))
  : chM (UtxoViewpoint * list (MsgBlock * list SpentTxOut)) :=
  match nodes with
  | [] => hret (view, acc)
  | p :: nodes' =>
      do! nd := (λ c, hsome (ch_heap c !! p) c) in
      do! msgBlock := fetchBlockByNode p in
      let block := toBlock msgBlock (bn_height nd) in
      if negb (bool_decide (bn_hash nd = blk_Hash block)) then herr AssertError else
      do! view := viewFetchInputs view block in
      do! stxos := (λ c, hlift (dbFetchSpendJournalEntry (cdb_spendJournal (ch_db c)) block) c) in
      do! view := hlift (disconnectTransactions sha256 view block stxos) in
      verifyDetach nodes' view (acc ++ [(msgBlock, stxos)])
  end.

Definition isRuleError (e : verr) : bool := match e with RuleError _ => true | _ => false end.

(** The blocks to attach, validated on the view on top of each other. *)
Fixpoint verifyAttach (nodes : list ptr) (view : UtxoViewpoint) (acc : list MsgBlock) : chM (list MsgBlock) :=
  match nodes with
  | [] => hret acc
  | p :: nodes' =>
      do! nd := (λ c, hsome (ch_heap c !! p) c) in
      do! msgBlock := fetchBlockByNode p in
      let block := toBlock msgBlock (bn_height nd) in
      do! c0 := hget (λ c, c) in
      if KnownValid (statusOf c0 p) then
        do! view := viewFetchInputs view block in
        do! r := hlift (Utxo.connectTransactions sha256 view block []) in
        verifyAttach nodes' r.1 (acc ++ [msgBlock])
      else
        λ c, match checkConnect p msgBlock (bn_height nd) view c with
             | (Ok view, c) => (do! _ := markFlags p statusValid in verifyAttach nodes' view (acc ++ [msgBlock])) c
             | (Err e, c) =>
                 if isRuleError e
                 then (do! _ := markFlags p statusValidateFailed in do! _ := markAll nodes' statusInvalidAncestor in herr e) c
                 else (Err e, c)
             end
  end.

Definition verifyReorganizationValidity (detachNodes attachNodes : list ptr)
  : chM (list (MsgBlock * list SpentTxOut) * list MsgBlock) :=
  if bool_decide (detachNodes = [] ∧ attachNodes = []) then hret ([], []) else
  do! tipNode := (λ c, hsome (ch_tipNode c) c) in
  do! c0 := hget (λ c, c) in
  let hashOf (p : ptr) : option bytes := bn_hash <$> ch_heap c0 !! p in
  let parentHash (p : ptr) : option bytes := nd ← ch_heap c0 !! p; q ← bn_parent nd; hashOf q in
  do! _ := (match detachNodes with
            | [] => hret tt
            | first :: _ => if bool_decide (hashOf first = Some (bn_hash tipNode)) then hret tt else herr AssertError
            end) in
  do! _ := (match head attachNodes, last detachNodes with
            | Some firstAttach, Some lastDetach =>
                match parentHash firstAttach, parentHash lastDetach with
                | Some a, Some d => if bool_decide (a = d) then hret tt else herr AssertError
                | _, _ => herr RuntimePanic
                end
            | _, _ => hret tt
            end) in
  do! r := verifyDetach detachNodes (mkView ∅ (bn_hash tipNode)) [] in
  do! attachBlocks := verifyAttach attachNodes r.1 [] in
  hret (r.2, attachBlocks).

Fixpoint detachAll (nodes : list ptr) (blocks : list (MsgBlock * list SpentTxOut)) (view : UtxoViewpoint) : chM unit :=
  match nodes, blocks with
  | [], _ => hret tt
  | p :: nodes', (msgBlock, stxos) :: blocks' =>
      do! nd := (λ c, hsome (ch_heap c !! p) c) in
      let block := toBlock msgBlock (bn_height nd) in
      do! view := viewFetchInputs view block in
      do! view := hlift (disconnectTransactions sha256 view block stxos) in
      do! view := disconnectBlock p msgBlock (bn_height nd) view in
      detachAll nodes' blocks' view
  | _ :: _, [] => herr RuntimePanic
  end.

Fixpoint attachAll (nodes : list ptr) (blocks : list MsgBlock) : chM unit :=
  match nodes, blocks with
  | [], _ => hret tt
  | p :: nodes', msgBlock :: blocks' =>
      do! nd := (λ c, hsome (ch_heap c !! p) c) in
      do! stxos := cacheConnect (toBlock msgBlock (bn_height nd)) in
      do! _ := connectBlock p msgBlock (bn_height nd) stxos in
      attachAll nodes' blocks'
  | _ :: _, [] => herr RuntimePanic
  end.

Definition reorganizeChain (detachNodes attachNodes : list ptr) : chM unit :=
  do! r := verifyReorganizationValidity detachNodes attachNodes in
  do! tipNode := (λ c, hsome (ch_tipNode c) c) in
  do! _ := detachAll detachNodes r.1 (mkView ∅ (bn_hash tipNode)) in
  attachAll attachNodes r.2.

(** ** Accepting a block *)
Definition connectBestChain (p : ptr) (msgBlock : MsgBlock) (height flags : Z) : chM bool :=
  let fastAdd := flagSet flags BFFastAdd in
  let parentHash := bh_PrevBlock (mb_BlockHeader msgBlock) in
  do! tipNode := (λ c, hsome (ch_tipNode c) c) in
  do! nd := (λ c, hsome (ch_heap c !! p) c) in
  if bool_decide (parentHash = bn_hash tipNode) then
    do! fastAdd := hget (λ c, fastAdd || KnownValid (statusOf c p)) in
    do! _ := (if fastAdd then hret tt
              else λ c,
                match checkConnect p msgBlock height (mkView ∅ parentHash) c with
                | (Ok _, c) => (do! _ := markFlags p statusValid in flushIndex) c
                | (Err e, c) =>
                    if isRuleError e
                    then (do! _ := markFlags p statusValidateFailed in do! _ := flushIndex in herr e) c
                    else (Err e, c)
                end) in
    do! stxos := cacheConnect (toBlock msgBlock height) in
    do! _ := (λ c, match connectBlock p msgBlock height stxos c with
                   | (Ok _, c) => (Ok tt, c)
                   | (Err e, c) =>
                       (do! _ := (if isRuleError e then markFlags p statusValidateFailed else hret tt) in
                        do! _ := flushIndex in herr e) c
                   end) in
    do! again := hget (λ c, fastAdd || negb (KnownValid (statusOf c p))) in
    do! _ := (if (again : bool) then do! _ := markFlags p statusValid in flushIndex else hret tt) in
    hret true
  else if negb (ShouldChangeTip (bn_workSum tipNode) (bn_workSum nd) (CalcWork (bn_bits tipNode)) (CalcWork (bn_bits nd)))
  then
    (* the log line reads the fork node *)
    do! fork := hget (λ c, findFork (ch_heap c) (bc_bestChain (ch_b c)) (Some p)) in
    do! _ := hsome fork in
    hret false
  else
    do! nodes := getReorganizeNodes p in
    λ c, match reorganizeChain nodes.1 nodes.2 c with
         | (Ok _, c) => (do! _ := flushIndex in hret true) c
         | (Err e, c) => (do! _ := flushIndex in herr e) c
         end.

(** [dbStoreBlock] *)
Definition dbStoreBlock (db : chainDb) (msgBlock : MsgBlock) (height vsize : Z) : chainDb :=
  let hash := BlockHash sha256 (mb_BlockHeader msgBlock) in
  mkChainDb (cdb_utxo db) (cdb_bestState db) (cdb_hashIndex db) (cdb_heightIndex db) (cdb_spendJournal db)
    (<[blockIndexKey hash (u32 height) := mb_BlockHeader msgBlock]> (cdb_headers db))
    (<[hash := statusDataStored]> (cdb_status db)) (<[hash := vsize]> (cdb_vsize db))
    (match cdb_blocks db !! hash with Some _ => cdb_blocks db | None => <[hash := msgBlock]> (cdb_blocks db) end).

Definition maybeAcceptBlock (msgBlock : MsgBlock) (flags : Z) : chM bool :=
  let prevHash := bh_PrevBlock (mb_BlockHeader msgBlock) in
  do! prev := hget (λ c, LookupNode (ch_index c) prevHash) in
  match prev with
  | None => herr (ruleError ErrPreviousBlockUnknown)
  | Some prevNode =>
      do! c0 := hget (λ c, c) in
      if KnownInvalid (statusOf c0 prevNode) then herr (ruleError ErrInvalidAncestorBlock) else
      do! pn := (λ c, hsome (ch_heap c !! prevNode) c) in
      let blockHeight := i32 (bn_height pn + 1) in
      do! _ := (λ c, let '(r, b) := checkBlockContext sha256 (ch_b c) msgBlock prevNode flags in (r, withB c b)) in
      let blockVsize := GetBlockVsize msgBlock in
      if blockHeight =? -1 then herr OtherError else
      do! _ := hmod (λ c, withDb c (dbStoreBlock (ch_db c) msgBlock blockHeight blockVsize)) in
      do! newNode := (λ c, let '(p, bi) := Add sha256 (ch_index c) (mb_BlockHeader msgBlock) (Some prevNode) statusDataStored blockVsize in
                           (Ok p, withIndex c bi)) in
      connectBestChain newNode msgBlock blockHeight flags
  end.

(** Known to the index, or stored and on the main chain. *)
Definition blockExists (c : Chain) (hash : bytes) : bool :=
  if HaveBlock (ch_index c) hash then true
  else match cdb_blocks (ch_db c) !! hash with
       | None => false
       | Some _ => bool_decide (is_Some (dbFetchHeightByHash (cdb_hashIndex (ch_db c)) hash))
       end.

(** The orphans that wait for [processHash], one after the other: each leaves
    the pool and is accepted; the hashes accepted are returned. *)
Fixpoint processChildren (fuel : nat) (processHash : bytes) (flags : Z) (accepted : list bytes) : chM (list bytes) :=
  match fuel with
  | O => hret accepted
  | S fuel' =>
      do! next := hget (λ c, op_prevOrphans (ch_orphans c) !! processHash ≫= head) in
      match next with
      | None => hret accepted
      | Some orphan =>
          let orphanHash := ob_hash sha256 orphan in
          do! _ := hmod (λ c, withOrphans c (removeOrphanBlock sha256 (ch_orphans c) orphan)) in
          do! _ := maybeAcceptBlock (ob_block orphan) flags in
          processChildren fuel' processHash flags (accepted ++ [orphanHash])
      end
  end.
(** The queue of hashes; [fuel] bounds the hashes taken from it. *)
Fixpoint processQueue (fuel : nat) (queue : list bytes) (flags : Z) : chM unit :=
  match fuel, queue with
  | S fuel', processHash :: queue' =>
      do! n := hget (λ c, size (op_orphans (ch_orphans c))) in
      do! accepted := processChildren (S n) processHash flags [] in
      processQueue fuel' (queue' ++ accepted) flags
  | _, _ => hret tt
  end.
Definition processOrphans (hash : bytes) (flags : Z) : chM unit :=
  do! n := hget (λ c, size (op_orphans (ch_orphans c))) in processQueue (S n) [hash] flags.

(** The checks against the last checkpoint of [ProcessBlock]. *)
Definition checkAgainstCheckpoint (header : BlockHeader) (flags : Z) : chM unit :=
  do! checkpointNode := (λ c, let '(r, b) := findPreviousCheckpoint (ch_b c) in (r, withB c b)) in
  match checkpointNode with
  | None => hret tt
  | Some cp =>
      do! cpn := (λ c, hsome (ch_heap c !! cp) c) in
      do! c0 := hget (λ c, c) in
      if match LookupNode (ch_index c0) (bh_PrevBlock header) ≫= (ch_heap c0 !!.) with
         | Some prevNode => i32 (bn_height prevNode + 1) <? bn_height cpn
         | None => false
         end then herr (ruleError ErrForkTooOld) else
      if bh_Timestamp header <? timeUnix (bn_timestamp cpn) then herr (ruleError ErrCheckpointTimeTooOld) else
      if flagSet flags BFFastAdd then hret tt else
      let duration := bh_Timestamp header - timeUnix (bn_timestamp cpn) in
      let requiredTarget := CompactToBig (calcEasiestDifficulty (bc_params (ch_b c0)) (bn_bits cpn) duration) in
      if requiredTarget <? CompactToBig (bh_Bits header) then herr (ruleError ErrDifficultyTooLow) else hret tt
  end.

(** The result: on the main chain, an orphan. *)
Definition ProcessBlock (msgBlock : MsgBlock) (flags : Z) : chM (bool * bool) :=
  let header := mb_BlockHeader msgBlock in
  let blockHash := BlockHash sha256 header in
  do! c0 := hget (λ c, c) in
  if blockExists c0 blockHash then herr (ruleError ErrDuplicateBlock) else
  if IsKnownOrphan (ch_orphans c0) blockHash then herr (ruleError ErrDuplicateBlock) else
  do! _ := hlift (checkBlockSanity sha256 blake3 msgBlock (bc_params (ch_b c0)) adjusted flags) in
  do! _ := checkAgainstCheckpoint header flags in
  do! c1 := hget (λ c, c) in
  if negb (blockExists c1 (bh_PrevBlock header)) then
    do! _ := (λ c, match addOrphanBlock sha256 rangeOrphans (ch_orphans c) msgBlock now with
                   | Ok p => (Ok tt, withOrphans c p)
                   | Err e => (Err e, c)
                   end) in
    hret (false, true)
  else
    do! isMainChain := maybeAcceptBlock msgBlock flags in
    do! _ := processOrphans blockHash flags in
    hret (isMainChain, false).
End chain.
