(* ===== verification/Reorg.v ===== *)
(** * What a reorganisation does to the state
    (theorems on src/node/blockchain/chain.go)

    Two views of the state are tracked through the operations of [Chain]: the
    tree of blocks with the branch of the tip, and the set of unspent outputs
    that the UTXO cache and the database stand for together. *)
From Stdlib Require Import ZArith Lia Strings.Byte.
From stdpp Require Import base list gmap.
From S2P Require Import Prelude RuleErrors WireTx WireBlock Chaincfg Difficulty BlockIndex.
From S2P Require Import Merkle Script Utxo Covenant TxRules ScriptVal BlockRules.
From S2P Require Import Compress ChainIO SizeHelper UtxoCache ThresholdState Orphans Detach Chain.
Open Scope Z_scope.
Open Scope list_scope.

(** ** The tree without the statuses *)
Definition bare (h : heap) : heap := (λ nd, setStatus nd 0) <$> h.

Section bare.
Context (h h' : heap) (Hb : bare h' = bare h).

Lemma bare_lookup p nd : h !! p = Some nd → ∃ st, h' !! p = Some (setStatus nd st).
Proof.
  intros Hp. assert (E : bare h' !! p = Some (setStatus nd 0)) by (rewrite Hb; unfold bare; by rewrite lookup_fmap, Hp).
  unfold bare in E. rewrite lookup_fmap in E. destruct (h' !! p) as [nd'|]; [|done]. cbn in E.
  exists (bn_status nd'). destruct nd, nd'. cbn in *. injection E as -> -> -> -> -> -> -> -> -> -> ->. done.
Qed.
Lemma bare_lookup_None p : h !! p = None → h' !! p = None.
Proof.
  intros Hp. assert (E : bare h' !! p = None) by (rewrite Hb; unfold bare; by rewrite lookup_fmap, Hp).
  unfold bare in E. rewrite lookup_fmap in E. by destruct (h' !! p).
Qed.

Lemma bare_walk k p : walk h' k p = walk h k p.
Proof.
  revert p. induction k as [|k IH]; intros p; [done|]. cbn [walk]. destruct (h !! p) as [nd|] eqn:E.
  - destruct (bare_lookup p nd E) as [st ->]. cbn. destruct (bn_parent nd); cbn; [apply IH|done].
  - by rewrite (bare_lookup_None p E).
Qed.
End bare.

Lemma bare_wfHeap h h' : bare h' = bare h → wfHeap h → wfHeap h'.
Proof.
  intros Hb Hwf p nd' Hp'. destruct (h !! p) as [nd|] eqn:E; [|by rewrite (bare_lookup_None h h' Hb p E) in Hp'].
  destruct (bare_lookup h h' Hb p nd E) as [st E']. rewrite Hp' in E'. injection E' as ->.
  destruct (Hwf p nd E) as (H1 & H2 & H3 & H4). split; [done|]. split; [done|]. split; [done|].
  cbn [bn_parent setStatus]. destruct (bn_parent nd) as [q|]; [|done].
  destruct H4 as (qn & Hq & Hh & Hw & a & Ha & Hwalk). destruct (bare_lookup h h' Hb q qn Hq) as [st' Hq'].
  exists (setStatus qn st'). split; [done|]. split; [done|]. split; [done|]. exists a. split; [done|].
  by rewrite (bare_walk h h' Hb).
Qed.

Lemma bare_viewOf h h' t : bare h' = bare h → viewOf h' t = viewOf h t.
Proof.
  intros Hb. unfold viewOf. destruct (h !! t) as [tn|] eqn:E.
  - destruct (bare_lookup h h' Hb t tn E) as [st ->]. cbn [bn_height setStatus]. apply list_fmap_ext. intros i j _. by apply bare_walk.
  - by rewrite (bare_lookup_None h h' Hb t E).
Qed.

Lemma bare_updStatus bi p f : bare (bi_heap (updStatus bi p f)) = bare (bi_heap bi).
Proof.
  unfold updStatus. destruct (bi_heap bi !! p) as [nd|] eqn:E; [|done]. cbn [bi_heap]. unfold bare. rewrite fmap_insert.
  apply map_eq. intros q. destruct (decide (q = p)) as [->|Hne].
  - by rewrite lookup_insert_eq, lookup_fmap, E.
  - by rewrite lookup_insert_ne.
Qed.

(** The best chain is the branch of [t]. *)
Definition treeAt (c : Chain) (t : ptr) : Prop :=
  wfHeap (ch_heap c) ∧ is_Some (ch_heap c !! t) ∧ bc_bestChain (ch_b c) = viewOf (ch_heap c) t.

Lemma treeAt_tip c t : treeAt c t → ch_tip c = Some t.
Proof.
  intros (Hwf & [tn Ht] & Hv). unfold ch_tip, tip. rewrite Hv, last_lookup.
  rewrite (length_viewOf _ t tn Ht). cbn [pred]. rewrite (lookup_viewOf _ t tn) by (done || lia). by rewrite Nat.sub_diag.
Qed.
Lemma treeAt_tipNode c t tn : treeAt c t → ch_heap c !! t = Some tn → ch_tipNode c = Some tn.
Proof. intros Ht Hn. unfold ch_tipNode. by rewrite (treeAt_tip c t Ht). Qed.

Lemma treeAt_move c c' t t' : treeAt c t → bare (ch_heap c') = bare (ch_heap c) → is_Some (ch_heap c !! t') →
  (∃ h, bare h = bare (ch_heap c) ∧ bc_bestChain (ch_b c') = setTip h (bc_bestChain (ch_b c)) (Some t')) → treeAt c' t'.
Proof.
  intros (Hwf & [tn Ht] & Hv) Hb [tn' Ht'] (h & Hh & Hv'). split; [by eapply bare_wfHeap|].
  destruct (bare_lookup _ _ Hb t' tn' Ht') as [st' Hst']. split; [by eexists|].
  destruct (bare_lookup _ _ Hh t' tn' Ht') as [st'' Hst''].
  rewrite Hv', Hv, <- (bare_viewOf (ch_heap c) h t Hh).
  rewrite (setTip_view h (bare_wfHeap _ _ Hh Hwf) _ t' _ (viewOf_branchy h t _) Hst'').
  rewrite (bare_viewOf _ _ _ Hb). by apply bare_viewOf.
Qed.

(** ** Successful computations *)
Lemma hbind_ok {A B} (m : chM A) (k : A → chM B) c b c' : hbind m k c = (Ok b, c') →
  ∃ a c1, m c = (Ok a, c1) ∧ k a c1 = (Ok b, c').
Proof. unfold hbind. destruct (m c) as [[a|e] c1]; [|done]. eauto. Qed.
Lemma hsome_ok {A} (o : option A) c a c' : hsome o c = (Ok a, c') → o = Some a ∧ c' = c.
Proof. destruct o; [|done]. by intros [= <- <-]. Qed.
Lemma hget_ok {A} (f : Chain → A) c a c' : hget f c = (Ok a, c') → a = f c ∧ c' = c.
Proof. by intros [= <- <-]. Qed.

(** Splits [H : (do! x := m in k) c = (Ok b, c')] into the run of [m] and the
    run of [k]; the parts that only read are solved for their value. *)
Ltac hstep H :=
  let a := fresh "a" in let c1 := fresh "c" in let E := fresh "E" in
  apply hbind_ok in H as (a & c1 & E & H);
  first [apply hget_ok in E as [-> ->] | apply hsome_ok in E as [E ->] | idtac].

Section facts.
Context `{SecpLaws} `{ZkVerifier} `{Schnorr} (sha256 blake3 sha3 : bytes → bytes).
Context (engine : bytes → MsgTx → nat → Z → UtxoViewpoint → engineResult).
Context (genesisHash : bytes) (log2u8 : Z → Z) (now adjusted : Z).
Context (range : entryMap → list (OutPoint * option UtxoEntry)).
Context (PruneBlocks : Z → gmap bytes MsgBlock → list bytes).
Context (indexConnect indexDisconnect : Block → list SpentTxOut → res verr unit).
Hypothesis Hsha : ∀ b, length (sha256 b) = 32%nat.
Hypothesis Hrange : ∀ m, range m ≡ₚ map_to_list m.

Abbreviation toBlock := (toBlock sha256).
Definition dcoins (c : Chain) : bucket := ud_coins (cdb_utxo (ch_db c)).

(** The coins of the chain are [M]. *)
Definition holdsAt (d : bucket) (s : utxoCache) (M : coinSet) : Prop := cacheOk d s ∧ represents d s M.
Definition holds (c : Chain) (M : coinSet) : Prop := holdsAt (dcoins c) (ch_cache c) M.

(** Nothing changed but the statuses, the caches and the coins that are
    cached. *)
Record quiet (c c' : Chain) : Prop := {
  q_tree : bare (ch_heap c') = bare (ch_heap c);
  q_index : bi_index (ch_index c') = bi_index (ch_index c);
  q_view : bc_bestChain (ch_b c') = bc_bestChain (ch_b c);
  q_snapshot : ch_snapshot c' = ch_snapshot c;
  q_blocks : cdb_blocks (ch_db c') = cdb_blocks (ch_db c);
  q_journal : cdb_spendJournal (ch_db c') = cdb_spendJournal (ch_db c);
  q_db : dcoins c' = dcoins c;
  q_coins : ∀ M, holds c M → holds c' M }.

#[export] Instance quiet_po : PreOrder quiet.
Proof.
  split; [by intros c; split|]. intros c1 c2 c3 [] []. split; try congruence. auto.
Qed.

Lemma quiet_treeAt c c' t : quiet c c' → treeAt c t → treeAt c' t.
Proof.
  intros Hq (Hwf & [tn Ht] & Hv). destruct (bare_lookup _ _ (q_tree _ _ Hq) t tn Ht) as [st Hst].
  split; [by eapply bare_wfHeap; [apply Hq|]|]. split; [by eexists|]. rewrite (q_view _ _ Hq), Hv. symmetry. apply bare_viewOf, Hq.
Qed.

Lemma quiet_withIndex c bi : bare (bi_heap bi) = bare (ch_heap c) → bi_index bi = bi_index (ch_index c) → quiet c (withIndex c bi).
Proof. intros G1 G2. by split. Qed.

Lemma markFlags_quiet p fl c r c' : markFlags p fl c = (r, c') → quiet c c'.
Proof. intros [= <- <-]. apply quiet_withIndex; [apply bare_updStatus|]. unfold SetStatusFlags, updStatus. by case_match. Qed.

Lemma markAll_quiet nodes fl c r c' : markAll nodes fl c = (r, c') → quiet c c'.
Proof.
  revert c. induction nodes as [|p nodes IH]; intros c; cbn [markAll]; [by intros [= <- <-]|].
  unfold hbind, markFlags, hmod. intros E. etrans; [|by eapply IH]. by apply (markFlags_quiet p fl c (Ok tt)).
Qed.

Lemma flushIndex_quiet c r c' : flushIndex c = (r, c') → quiet c c'.
Proof.
  unfold flushIndex, hmod. destruct (flushToDB true (ch_index c)) as [rows bi] eqn:E. intros [= <- <-].
  assert (Hbi : bi_heap bi = ch_heap c ∧ bi_index bi = bi_index (ch_index c)).
  { unfold flushToDB in E. case_bool_decide; injection E as <- <-; done. }
  destruct Hbi as [G1 G2]. split; try done. unfold ch_heap, ch_index. cbn. by rewrite G1.
Qed.

Lemma isCurrent_quiet c r c' : isCurrent adjusted c = (r, c') → quiet c c'.
Proof.
  unfold isCurrent, hbind, hget, hsome. repeat (case_match; simplify_eq/=); unfold hret, herr in *; intros; simplify_eq; done.
Qed.
(** ** Reading coins *)
Lemma viewFetch_spec v ops c r c' M : holds c M → Forall wfOp ops → viewFetch log2u8 v ops c = (r, c') →
  quiet c c' ∧ ∃ es, Forall2 (λ op oe, entryOk (dcoins c') op oe ∧ coinOf oe = M !! op) ops es
    ∧ r = Ok (mkView (foldl (λ m p, <[p.1 := p.2]> m) (entries v) (zip ops es)) (bestHash v)).
Proof.
  intros [Hok HM] Hw. unfold viewFetch. case_bool_decide as E0.
  { subst ops. intros [= <- <-]. split; [done|]. exists []. split; [constructor|]. by destruct v. }
  unfold hbind, fetchCached. fold (dcoins c).
  destruct (fetchEntries_spec log2u8 (dcoins c) (ch_cache c) ops Hok Hw) as (es & s' & -> & Hok' & Hc & Hf).
  intros [= <- <-]. assert (Hq : quiet c (withCache c s')).
  { split; try done. intros M' [_ HM']. split; [done|]. intros op Ho. cbn. change (dcoins (withCache c s')) with (dcoins c).
    rewrite Hc by done. by apply HM'. }
  split; [done|]. exists es. split; [|done].
  rewrite Forall2_same_length_lookup. rewrite Forall2_same_length_lookup in Hf. destruct Hf as [Hl Hf]. split; [done|].
  intros i op oe Hop Hoe. pose proof (Hf i op oe Hop Hoe) as Hg. split; [exact (cache_entries _ _ Hok' op oe Hg)|].
  assert (Ho : wfOp op) by exact (Forall_lookup_1 _ _ _ _ Hw Hop).
  rewrite <- HM, <- Hc by done. unfold coins. by rewrite Hg.
Qed.

Lemma fetched_good M K v ops es d : Forall2 (λ op oe, entryOk d op oe ∧ coinOf oe = M !! op) ops es →
  good M v → agrees M K v →
  good M (mkView (foldl (λ m p, <[p.1 := p.2]> m) (entries v) (zip ops es)) (bestHash v))
  ∧ agrees M K (mkView (foldl (λ m p, <[p.1 := p.2]> m) (entries v) (zip ops es)) (bestHash v)).
Proof.
  intros Hf. revert v. induction Hf as [|op oe ops es [Ho Hc] Hf IH]; intros v Hg Ha; [by destruct v|].
  cbn [zip_with foldl fst snd]. set (v1 := mkView (<[op := oe]> (entries v)) (bestHash v)).
  change (<[op := oe]> (entries v)) with (entries v1). change (bestHash v) with (bestHash v1). apply IH.
  - apply map_Forall_insert_2; [|done]. destruct Ho as [Hw Ho]. split; [done|]. intros e ->. destruct Ho as (Hw1 & _ & Hm).
    split; [done|]. intros Em. destruct (Hm Em) as [Hs _]. split; [done|]. rewrite <- Hc. cbn. by rewrite Hs.
  - intros op' Hop'. unfold eff, LookupEntry, v1. cbn [entries]. destruct (decide (op = op')) as [<-|Hne].
    + rewrite lookup_insert_eq. cbn. by destruct oe.
    + rewrite lookup_insert_ne by done. by apply Ha.
Qed.

(** The transactions of a block as decoding and the sanity checks give them. *)
Definition blockWf (b : Block) : Prop :=
  0 <= blk_Height b < 2 ^ 31 ∧ Forall wfTxIns (blk_Transactions b) ∧ Forall wfTxOuts (blk_Transactions b).

#[export] Instance blockWf_dec b : Decision (blockWf b).
Proof. unfold blockWf, wfTxIns, wfTxOuts. apply _. Defined.

Lemma viewFetchInputs_quiet v b c r c' M : holds c M → Forall wfTxIns (blk_Transactions b) →
  viewFetchInputs sha256 log2u8 v b c = (r, c') → quiet c c'.
Proof.
  intros Hc Hw. unfold viewFetchInputs. pose proof (needed_wf sha256 b v Hw) as Hn.
  destruct (findInputsToFetch sha256 v b) as [v1 needed]. intros E. by eapply viewFetch_spec in E as [? _].
Qed.

Lemma viewFetchInputs_spec v b c r c' M : holds c M → blockWf b → viewFor M v →
  viewFetchInputs sha256 log2u8 v b c = (r, c') →
  quiet c c' ∧ ∃ v', r = Ok v' ∧ good M v' ∧ agrees M (blockKeys sha256 b) v'.
Proof.
  intros Hc (Hh & Hwi & Hwo) Hv. destruct (viewFor_good M v Hv) as [Hg He]. unfold viewFetchInputs.
  pose proof (needed_wf sha256 b v Hwi) as Hn.
  destruct (findInputs_filling sha256 Hsha M b v Hh Hwo Hg) as [Hg1 Ha1]; [by intros op _|].
  destruct (findInputsToFetch sha256 v b) as [v1 needed]. cbn [fst snd] in *. intros E.
  destruct (viewFetch_spec v1 needed c r c' M Hc Hn E) as (Hq & es & Hf & ->). split; [done|].
  eexists. split; [done|]. by eapply fetched_good.
Qed.

Lemma created_wf txs : Forall wfOp (createdOutpoints sha256 txs).
Proof.
  unfold createdOutpoints. apply Forall_concat, Forall_fmap, Forall_forall. intros tx _. apply Forall_forall. intros op Hin.
  apply elem_of_lookup_imap in Hin as (i & o & -> & _). split; [apply Hsha|]. by apply (wrapU_in 32).
Qed.

Lemma checkConnect_quiet p mb h v c r c' M : holds c M → Forall wfTxIns (mb_Transactions mb) →
  checkConnect sha256 sha3 engine genesisHash log2u8 p mb h v c = (r, c') → quiet c c'.
Proof.
  intros Hc Hw. unfold checkConnect, hbind at 1. set (ops := filter _ _).
  assert (Ho : Forall wfOp ops).
  { apply Forall_forall. intros op [_ Hin]%list_elem_of_filter. pose proof (created_wf (mb_Transactions mb)) as Hcr.
    rewrite Forall_forall in Hcr. by apply Hcr. }
  destruct (viewFetch log2u8 v ops c) as [r1 c1] eqn:E1.
  destruct (viewFetch_spec v ops c r1 c1 M Hc Ho E1) as (Hq1 & es & _ & ->). unfold hbind.
  set (v1 := mkView _ _). destruct (viewFetchInputs sha256 log2u8 v1 (toBlock mb h) c1) as [r2 c2] eqn:E2.
  assert (Hq2 : quiet c1 c2). { eapply (viewFetchInputs_quiet v1 (toBlock mb h)); [by apply Hq1|done|exact E2]. }
  intros E. assert (c' = c2) as -> by (repeat case_match; simplify_eq; done). by etrans.
Qed.
(** ** Connecting and disconnecting *)

(** The tip moved to [t]. *)
Record moved (t : ptr) (tn : blockNode) (c c' : Chain) : Prop := {
  m_tree : bare (ch_heap c') = bare (ch_heap c);
  m_view : ∃ h, bare h = bare (ch_heap c) ∧ bc_bestChain (ch_b c') = setTip h (bc_bestChain (ch_b c)) (Some t);
  m_snap : bst_Hash (ch_snapshot c') = bn_hash tn ∧ bst_Height (ch_snapshot c') = bn_height tn }.

Lemma moved_treeAt t tn c c' t0 : moved t tn c c' → treeAt c t0 → is_Some (ch_heap c !! t) → treeAt c' t.
Proof. intros [] Ht Hs. by eapply treeAt_move. Qed.

(** The database is as it was, or holds exactly the coins of [M]. *)
Definition synced (M : coinSet) (d d' : bucket) : Prop := d' = d ∨ ∀ op, wfOp op → cs_coin d' op = M !! op.
Lemma synced_trans M d1 d2 d3 : synced M d1 d2 → synced M d2 d3 → synced M d1 d3.
Proof. intros [->|G1] [->|G2]; unfold synced; eauto. Qed.

Lemma flushInTx_spec mode hash db s M : holdsAt (ud_coins (cdb_utxo db)) s M →
  ∃ u s', flushInTx now range mode hash db s = (Ok tt, setUtxo db u, s') ∧ holdsAt (ud_coins u) s' M
    ∧ synced M (ud_coins (cdb_utxo db)) (ud_coins u)
    ∧ (mode = FlushRequired → (∀ op, wfOp op → cs_coin (ud_coins u) op = M !! op) ∧ ∀ op, get (uc_cachedEntries s') op = None).
Proof.
  intros [Hok HM]. unfold flushInTx.
  destruct (flush_refines range Hrange (cdb_utxo db) s M mode hash now Hok HM) as (u & s' & -> & G1 & G2 & G3 & G4).
  exists u, s'. split; [done|]. split; [done|]. split; [|done].
  destruct (shouldFlush s mode hash now); [right; apply G3|left; by destruct G3 as [-> _]].
Qed.

Lemma warn_quiet nd c r c' :
  (λ c, let '(r, tc) := warnUnknownRuleActivations (ch_index c) (bc_params (ch_b c)) nd (ch_caches c) in (r, withCaches c tc)) c = (r, c') →
  quiet c c'.
Proof. cbv beta. destruct (warnUnknownRuleActivations _ _ _ _). by intros [= <- <-]. Qed.

Lemma pruneInTx_spec target bi state db s M r db' s' : holdsAt (ud_coins (cdb_utxo db)) s M →
  pruneInTx now range PruneBlocks target bi state db s = (r, db', s') →
  r = Ok tt ∧ holdsAt (ud_coins (cdb_utxo db')) s' M ∧ synced M (ud_coins (cdb_utxo db)) (ud_coins (cdb_utxo db')).
Proof.
  intros Hh. unfold pruneInTx. destruct (target =? 0); [intros [= <- <- <-]; split; [done|]; split; [done|by left]|].
  case_bool_decide; [intros [= <- <- <-]; split; [done|]; split; [done|by left]|].
  destruct (flushNeededAfterPrune bi s (PruneBlocks target (cdb_blocks db)));
    [|intros [= <- <- <-]; split; [done|]; split; [done|by left]].
  set (db1 := setMainIndex _ _ _). intros E.
  destruct (flushInTx_spec FlushRequired (bst_Hash state) db1 s M Hh) as (u & s1 & E1 & G1 & G2 & _).
  rewrite E1 in E. injection E as <- <- <-. done.
Qed.

Lemma connectTxn_spec target bi nd block state stxos db s M r db' s' : holdsAt (ud_coins (cdb_utxo db)) s M →
  connectTxn now range PruneBlocks indexConnect target bi nd block state stxos db s = (r, db', s') →
  holdsAt (ud_coins (cdb_utxo db')) s' M ∧ synced M (ud_coins (cdb_utxo db)) (ud_coins (cdb_utxo db')).
Proof.
  intros Hh. unfold connectTxn. destruct (pruneInTx now range PruneBlocks target bi state db s) as [[r1 db1] s1] eqn:E1.
  destruct (pruneInTx_spec _ _ _ _ _ M _ _ _ Hh E1) as (-> & G1 & G2). by intros [= <- <- <-].
Qed.

Abbreviation connectBlockCommit := (connectBlockCommit sha256 now adjusted range PruneBlocks indexConnect).
Abbreviation connectBlock := (connectBlock sha256 now adjusted range PruneBlocks indexConnect).
Abbreviation disconnectBlock := (disconnectBlock sha256 now range indexDisconnect).

Lemma connectBlockCommit_spec p mb h stxos c st c' M nd : holds c M → ch_heap c !! p = Some nd →
  connectBlockCommit p mb h stxos c = (Ok st, c') →
  holds c' M ∧ synced M (dcoins c) (dcoins c') ∧ moved p nd c c'.
Proof.
  intros Hc Hnd E. unfold connectBlockCommit in E. hstep E. destruct (negb _) in E; [done|]. destruct (negb _) in E; [done|].
  hstep E. rename E1 into En. assert (a0 = nd) as -> by congruence. clear En.
  hstep E. rename E1 into Ecur. apply isCurrent_quiet in Ecur as Q1.
  hstep E. rename E1 into Ew.
  assert (Q2 : quiet c0 c1). { destruct a0; [by apply (warn_quiet nd c0 _ _ Ew)|by injection Ew as <- <-]. }
  hstep E. apply flushIndex_quiet in E1 as Q3. assert (Q : quiet c c2) by (etrans; [exact Q1|]; by etrans).
  hstep E. set (state := newBestState _ _ _ _ _ _ _) in E. hstep E. rename E2 into Eu. unfold dbUpdate in Eu.
  destruct (connectTxn _ _ _ _ _ _ _ _ _ _ _ _) as [[[u|e] db'] s'] eqn:Et in Eu; [|done]. injection Eu as <- <-.
  destruct (connectTxn_spec _ _ _ _ _ _ _ _ M _ _ _ (q_coins _ _ Q M Hc) Et) as [G1 G2].
  cbv [hbind hmod hret] in E. injection E as <- <-. split; [exact G1|]. split.
  - rewrite <- (q_db _ _ Q). exact G2.
  - split; cbn.
    + apply Q.
    + exists (ch_heap c2). split; [apply Q|]. change (ch_b (withDb (withCache c2 s') db')) with (ch_b c2). by rewrite (q_view _ _ Q).
    + done.
Qed.

Lemma connectBlock_spec p mb h stxos c c' M nd : holds c M → ch_heap c !! p = Some nd →
  connectBlock p mb h stxos c = (Ok tt, c') →
  holds c' M ∧ synced M (dcoins c) (dcoins c') ∧ moved p nd c c'.
Proof.
  intros Hc Hnd E. unfold connectBlock in E. hstep E. rename E0 into Ec.
  destruct (connectBlockCommit_spec p mb h stxos c a c0 M nd Hc Hnd Ec) as (G1 & G2 & G3).
  unfold connectBlockFlush in E. destruct (negb _) in E; [by injection E as <-|]. unfold dbUpdate in E.
  destruct (flushInTx_spec FlushIfNeeded (bst_Hash a) (ch_db c0) (ch_cache c0) M G1) as (u & s' & E1 & F1 & F2 & _).
  rewrite E1 in E. injection E as <-. split; [exact F1|]. split; [by eapply synced_trans|]. destruct G3. by split.
Qed.
Lemma disconnectTxn_spec nd block state view db s M1 M0 db' s' : holdsAt (ud_coins (cdb_utxo db)) s M1 →
  good M1 view → (∀ op, eff M1 view op = M0 !! op) →
  disconnectTxn now range indexDisconnect nd block state view db s = (Ok tt, db', s') →
  holdsAt (ud_coins (cdb_utxo db')) s' M0 ∧ ∀ op, wfOp op → cs_coin (ud_coins (cdb_utxo db')) op = M0 !! op.
Proof.
  intros Hh Hg He. unfold disconnectTxn. set (db1 := setMainIndex _ _ _).
  destruct (flushInTx_spec FlushRequired (bst_Hash state) db1 s M1 Hh) as (u & s1 & -> & G1 & _ & G3).
  destruct (G3 eq_refl) as [Hu Hempty]. cbn [cdb_utxo setUtxo].
  destruct (view_written (ud_coins u) view (range (entries view)) (cache_db _ _ (proj1 G1)) (Hrange _)) as (b & -> & Hb & Hc).
  { intros op oe E. destruct (Hg op oe E) as [Ho Hw]. split; [done|]. intros e ->. by apply Hw. }
  set (db2 := setUtxo _ _). destruct (dbFetchSpendJournalEntry (cdb_spendJournal db2) block) as [stxos|e]; [|done].
  intros [= _ <- <-]. cbn [cdb_utxo setMainIndex db2 setUtxo ud_coins].
  assert (HM0 : ∀ op, wfOp op → rowCoin b op = M0 !! op).
  { intros op Ho. rewrite Hc by done. rewrite <- He. apply overlay_eff; [done|]. by apply Hu. }
  split; [|exact HM0]. destruct G1 as [[_ Hs _] _]. split.
  - split; [exact Hb|exact Hs|]. intros op oe. by rewrite Hempty.
  - intros op Ho. unfold coins. rewrite Hempty. by apply HM0.
Qed.

Lemma disconnectBlock_spec p mb h view c v' c' M1 M0 nd q : holds c M1 → good M1 view → (∀ op, eff M1 view op = M0 !! op) →
  ch_heap c !! p = Some nd → bn_parent nd = Some q → disconnectBlock p mb h view c = (Ok v', c') →
  v' = commit view ∧ holds c' M0 ∧ (∀ op, wfOp op → cs_coin (dcoins c') op = M0 !! op)
  ∧ ∃ qn, ch_heap c !! q = Some qn ∧ moved q qn c c'.
Proof.
  intros Hc Hg He Hnd Hq E. unfold disconnectBlock in E. hstep E. assert (a = nd) as -> by congruence.
  hstep E. destruct (negb _) in E; [done|]. hstep E. assert (a0 = q) as -> by congruence.
  hstep E. rename a0 into qn, E3 into Hqn. hstep E. rename E3 into Ef.
  assert (c0 = c) as ->.
  { unfold fetchBlockByNode in Ef. destruct (ch_heap c !! q); [|done]. destruct (cdb_blocks _ !! _); [|done]. by injection Ef. }
  hstep E. apply flushIndex_quiet in E3 as Q. hstep E. set (state := newBestState _ _ _ _ _ _ _) in E. hstep E.
  unfold dbUpdate in E4. destruct (disconnectTxn _ _ _ _ _ _ _ _) as [[[[]|e] db'] s'] eqn:Et in E4; [|done]. injection E4 as <- <-.
  destruct (disconnectTxn_spec _ _ _ _ _ _ M1 M0 _ _ (q_coins _ _ Q M1 Hc) Hg He Et) as [G1 G2].
  cbv [hbind hmod hret] in E. injection E as <- <-. split; [done|]. split; [exact G1|]. split; [exact G2|].
  exists qn. split; [done|]. split; cbn.
  - apply Q.
  - exists (ch_heap c0). split; [apply Q|]. change (ch_b (withDb (withCache c0 s') db')) with (ch_b c0). by rewrite (q_view _ _ Q).
  - done.
Qed.
(** The tip with its snapshot. *)
Definition tipAt (c : Chain) (t : ptr) : Prop :=
  treeAt c t ∧ ∃ tn, ch_heap c !! t = Some tn ∧ bst_Hash (ch_snapshot c) = bn_hash tn ∧ bst_Height (ch_snapshot c) = bn_height tn.

Lemma quiet_tipAt c c' t : quiet c c' → tipAt c t → tipAt c' t.
Proof.
  intros Hq [Ht (tn & Htn & Hs)]. split; [by eapply quiet_treeAt|].
  destruct (bare_lookup _ _ (q_tree _ _ Hq) t tn Htn) as [st Hst]. exists (setStatus tn st). by rewrite (q_snapshot _ _ Hq).
Qed.
Lemma moved_tipAt t tn c c' t0 : moved t tn c c' → tipAt c t0 → ch_heap c !! t = Some tn → tipAt c' t.
Proof.
  intros Hm [Ht _] Htn. split; [by eapply moved_treeAt|].
  destruct (bare_lookup _ _ (m_tree _ _ _ _ Hm) t tn Htn) as [st Hst]. exists (setStatus tn st). split; [done|]. apply Hm.
Qed.

(** Going down from [t]: the blocks with their spend journals, and the sets
    before and after them. *)
Inductive undoing (h : heap) : coinSet → ptr → list (ptr * (MsgBlock * list SpentTxOut)) → coinSet → ptr → Prop :=
| undo_nil M t : undoing h M t [] M t
| undo_cons M1 p nd q mb cb txs cs M0 l M' t' :
    h !! p = Some nd → bn_parent nd = Some q → mb_Transactions mb = cb :: txs →
    IsCoinBaseTx cb = true → Forall (λ tx, IsCoinBaseTx tx = false) txs →
    blockWf (toBlock mb (bn_height nd)) → Forall wfCoin cs →
    blockOk sha256 (bn_height nd) M0 (cb :: txs) cs M1 → undoing h M0 q l M' t' →
    undoing h M1 p ((p, (mb, cs)) :: l) M' t'.

(** Going up: the blocks connect one after the other. *)
Inductive redoing (h : heap) : coinSet → list (ptr * MsgBlock) → coinSet → Prop :=
| redo_nil M : redoing h M [] M
| redo_cons M p nd mb cs M1 l M' :
    h !! p = Some nd → blockWf (toBlock mb (bn_height nd)) →
    blockOk sha256 (bn_height nd) M (mb_Transactions mb) cs M1 → redoing h M1 l M' →
    redoing h M ((p, mb) :: l) M'.

Abbreviation detachAll := (detachAll sha256 log2u8 now range indexDisconnect).
Abbreviation attachAll := (attachAll sha256 log2u8 now adjusted range PruneBlocks indexConnect).

Lemma detachAll_spec h l M1 M' t t' view c c' : undoing h M1 t l M' t' → bare (ch_heap c) = bare h →
  holds c M1 → tipAt c t → viewFor M1 view → detachAll l.*1 l.*2 view c = (Ok tt, c') →
  bare (ch_heap c') = bare h ∧ holds c' M' ∧ tipAt c' t' ∧ (l = [] ∧ c' = c ∨ ∀ op, wfOp op → cs_coin (dcoins c') op = M' !! op).
Proof.
  intros Hu. revert view c. induction Hu as [M t|M1 p nd q mb cb txs cs M0 l M' t' Hp Hq Ht Hcb Htxs Hwf Hcs Hb Hu IH];
    intros view c Hbare Hc Htip Hv E.
  { injection E as <-. do 3 (split; [done|]). by left. }
  cbn [detachAll fmap list_fmap fst snd] in E. destruct (bare_lookup h (ch_heap c) Hbare p nd Hp) as [st Hst].
  hstep E. rewrite Hst in E0. injection E0 as <-. cbn [bn_height setStatus] in E.
  hstep E. rename E0 into E1. destruct (viewFetchInputs_spec view (toBlock mb (bn_height nd)) c (Ok a) c0 M1 Hc Hwf Hv E1)
    as (Q1 & v1 & [= <-] & Hg1 & Ha1).
  hstep E. rename E0 into E2. injection E2 as E2 <-. destruct Hwf as (Hh & Hwi & Hwo). cbn [blk_Height Chain.toBlock] in Hh.
  cbn [blk_Transactions Chain.toBlock] in Hwi, Hwo. rewrite Ht in Hwi, Hwo.
  destruct (disconnect_partial sha256 Hsha M0 M1 a (toBlock mb (bn_height nd)) cb txs cs Ht Hcb Htxs Hh Hwi Hwo Hcs Hb Hg1 Ha1)
    as (v2 & E2' & Hg2 & He2). rewrite E2 in E2'. injection E2' as ->.
  hstep E. rename E0 into E3. destruct (bare_lookup _ _ (q_tree _ _ Q1) p _ Hst) as [st0 Hst0].
  destruct (disconnectBlock_spec p mb (bn_height nd) v2 c0 a0 c1 M1 M0 _ q (q_coins _ _ Q1 M1 Hc) Hg2 He2 Hst0 Hq E3)
    as (-> & Hc1 & Hd1 & qn & Hqn & Hm).
  destruct (IH (commit v2) c1) as (B & G1 & G2 & G3); [|done| | |exact E|].
  - rewrite (m_tree _ _ _ _ Hm), (q_tree _ _ Q1). exact Hbare.
  - eapply moved_tipAt; [exact Hm|eapply quiet_tipAt; [exact Q1|exact Htip]|exact Hqn].
  - by apply (commit_viewFor M1).
  - split; [done|]. split; [done|]. split; [done|]. right. destruct G3 as [[-> ->]|G3]; [|done].
    inversion Hu; subst. exact Hd1.
Qed.

(** The outputs that the blocks of [l] create are in no set and not on disk. *)
Definition freshOuts (h : heap) (d : bucket) (M : coinSet) (l : list (ptr * MsgBlock)) : Prop :=
  unseen sha256 d M ((λ x, toBlock x.2 (default 0 (bn_height <$> h !! x.1))) <$> l).

Lemma attachAll_spec h l M M' t c c' : redoing h M l M' → bare (ch_heap c) = bare h → freshOuts h (dcoins c) M l →
  holds c M → tipAt c t → attachAll l.*1 l.*2 c = (Ok tt, c') →
  bare (ch_heap c') = bare h ∧ holds c' M' ∧ tipAt c' (default t (last l.*1)).
Proof.
  intros Hr. revert t c. induction Hr as [M|M p nd mb cs M1 l M' Hp Hwf Hb Hr IH]; intros t c Hbare Hfr Hc Htip E.
  { by injection E as <-. }
  cbn [attachAll fmap list_fmap fst snd] in E. destruct (bare_lookup h (ch_heap c) Hbare p nd Hp) as [st Hst].
  hstep E. rewrite Hst in E0. injection E0 as <-. cbn [bn_height setStatus] in E.
  unfold freshOuts in Hfr. rewrite fmap_cons in Hfr. cbn [fst snd] in Hfr. rewrite Hp in Hfr. cbn [fmap option_fmap option_map default from_option] in Hfr.
  destruct (unseen_cons sha256 Hsha _ _ _ _ Hfr) as [Hnew Hrest]. destruct (Hrest M1 cs Hb) as [Hun1 Hun2].
  hstep E. rename E0 into E1. destruct Hwf as (Hh & Hwi & Hwo). destruct Hc as [Hok HM].
  destruct (connectLoop_refines log2u8 sha256 Hsha (dcoins c) (bn_height nd) (mb_Transactions mb) (ch_cache c) M (Some []) cs M1 Hok HM Hh Hwi Hwo)
    as (s1 & El & Hok1 & HM1); [by apply Forall_forall|done|].
  unfold cacheConnect, UtxoCache.connectTransactions in E1. fold (dcoins c) in E1.
  change (blk_Height (toBlock mb (bn_height nd))) with (bn_height nd) in E1.
  change (blk_Transactions (toBlock mb (bn_height nd))) with (mb_Transactions mb) in E1. rewrite El in E1. injection E1 as <- <-.
  hstep E. rename E0 into E2. destruct a.
  destruct (connectBlock_spec p mb (bn_height nd) _ _ _ M1 (setStatus nd st) (conj Hok1 HM1 : holds (withCache c s1) M1) Hst E2)
    as (Hc2 & Hs2 & Hm).
  destruct (IH p c0) as (B & G1 & G2); [| |done| |exact E|].
  - rewrite (m_tree _ _ _ _ Hm). exact Hbare.
  - destruct Hs2 as [->|Hs2]; [exact Hun1|by apply Hun2].
  - eapply moved_tipAt; [exact Hm|exact Htip|exact Hst].
  - split; [done|]. split; [done|]. rewrite fmap_cons, last_cons. by destruct (last l.*1).
Qed.
(** ** The verification pass *)

(** The store has the block of the node, and its journal. *)
Definition hasBlock (c : Chain) (h : heap) (p : ptr) (mb : MsgBlock) : Prop :=
  ∃ nd, h !! p = Some nd ∧ cdb_blocks (ch_db c) !! bn_hash nd = Some mb ∧ Forall wfTxIns (mb_Transactions mb).
Definition hasJournal (c : Chain) (h : heap) (p : ptr) (mb : MsgBlock) (cs : list SpentTxOut) : Prop :=
  ∃ nd, h !! p = Some nd ∧ dbFetchSpendJournalEntry (cdb_spendJournal (ch_db c)) (toBlock mb (bn_height nd)) = Ok cs.

Lemma quiet_hasBlock c c' h p mb : quiet c c' → hasBlock c h p mb → hasBlock c' h p mb.
Proof. intros Q (nd & G1 & G2 & G3). exists nd. by rewrite (q_blocks _ _ Q). Qed.
Lemma quiet_hasJournal c c' h p mb cs : quiet c c' → hasJournal c h p mb cs → hasJournal c' h p mb cs.
Proof. intros Q (nd & G1 & G2). exists nd. by rewrite (q_journal _ _ Q). Qed.

Lemma fetchBlock_has c h p mb mb' c' : bare (ch_heap c) = bare h → hasBlock c h p mb → fetchBlockByNode p c = (Ok mb', c') →
  mb' = mb ∧ c' = c.
Proof.
  intros Hb (nd & Hp & Hm & _). destruct (bare_lookup h (ch_heap c) Hb p nd Hp) as [st Hst]. unfold fetchBlockByNode.
  rewrite Hst. cbn [bn_hash setStatus]. rewrite Hm. by intros [= <- <-].
Qed.

Lemma verifyDetach_spec h M l view acc c r c' : bare (ch_heap c) = bare h → holds c M →
  Forall (λ x : ptr * (MsgBlock * list SpentTxOut), hasBlock c h x.1 x.2.1 ∧ hasJournal c h x.1 x.2.1 x.2.2) l →
  verifyDetach sha256 log2u8 l.*1 view acc c = (Ok r, c') → quiet c c' ∧ r.2 = acc ++ l.*2.
Proof.
  revert view acc c. induction l as [|[p [mb cs]] l IH]; intros view acc c Hb Hc Hl E.
  { injection E as <- <-. split; [done|]. by rewrite app_nil_r. }
  apply Forall_cons in Hl as [[Hmb Hj] Hl]. cbn [verifyDetach fmap list_fmap fst snd] in *.
  hstep E. hstep E. destruct (fetchBlock_has c h p mb _ _ Hb Hmb E1) as [-> ->]. destruct (negb _) in E; [done|].
  hstep E. rename E2 into E3. destruct Hmb as (nd & Hp & Hblk & Hw).
  assert (Q : quiet c c0) by (eapply viewFetchInputs_quiet; [exact Hc| |exact E3]; exact Hw).
  hstep E. injection E2 as E2 <-. destruct Hj as (nd' & Hp' & Hj). assert (nd' = nd) as -> by congruence.
  destruct (bare_lookup h (ch_heap c) Hb p nd Hp) as [st Hst]. rewrite Hst in E0. injection E0 as <-.
  cbn [bn_height setStatus] in *. rewrite (q_journal _ _ Q), Hj in E2. injection E2 as <-.
  hstep E. injection E0 as E0 <-.
  eapply IH in E as [Q2 ->]; [|by rewrite (q_tree _ _ Q)|by apply Q|].
  2:eapply Forall_impl; [exact Hl|]; intros x [G1 G2]; split; [by eapply quiet_hasBlock|by eapply quiet_hasJournal].
  split; [by etrans|]. by rewrite <- app_assoc.
Qed.

Lemma verifyAttach_spec h M l view acc c r c' : bare (ch_heap c) = bare h → holds c M →
  Forall (λ x : ptr * MsgBlock, hasBlock c h x.1 x.2) l →
  verifyAttach sha256 sha3 engine genesisHash log2u8 l.*1 view acc c = (Ok r, c') → quiet c c' ∧ r = acc ++ l.*2.
Proof.
  revert view acc c. induction l as [|[p mb] l IH]; intros view acc c Hb Hc Hl E.
  { injection E as <- <-. split; [done|]. by rewrite app_nil_r. }
  apply Forall_cons in Hl as [Hmb Hl]. cbn [verifyAttach fmap list_fmap fst snd] in *.
  hstep E. hstep E. destruct (fetchBlock_has c h p mb _ _ Hb Hmb E1) as [-> ->]. hstep E.
  destruct Hmb as (nd & Hp & Hblk & Hw).
  assert (Hgo : ∀ v c1, quiet c c1 → verifyAttach sha256 sha3 engine genesisHash log2u8 l.*1 v (acc ++ [mb]) c1 = (Ok r, c') →
    quiet c c' ∧ r = acc ++ mb :: l.*2).
  { intros v c1 Q E2. destruct (IH v (acc ++ [mb]) c1) as [Q2 ->]; [by rewrite (q_tree _ _ Q)|by apply Q| |exact E2|].
    - eapply Forall_impl; [exact Hl|]. intros x Hx. by eapply quiet_hasBlock.
    - split; [by etrans|]. by rewrite <- app_assoc. }
  destruct (KnownValid (statusOf c p)).
  - hstep E. assert (Q : quiet c c0) by (eapply viewFetchInputs_quiet; [exact Hc| |exact E2]; exact Hw).
    hstep E. injection E3 as _ <-. by eapply Hgo.
  - destruct (checkConnect sha256 sha3 engine genesisHash log2u8 p mb (bn_height a) view c) as [[v|e] c1] eqn:E2.
    + assert (Q : quiet c c1) by (eapply checkConnect_quiet; [exact Hc| |exact E2]; exact Hw).
      hstep E. eapply Hgo; [|exact E]. etrans; [exact Q|]. by eapply markFlags_quiet.
    + destruct (isRuleError e); [|done]. by repeat (hstep E).
Qed.

Abbreviation verifyReorg := (verifyReorganizationValidity sha256 sha3 engine genesisHash log2u8).
Lemma verifyReorg_spec h M l l' c r c' : bare (ch_heap c) = bare h → holds c M →
  Forall (λ x : ptr * (MsgBlock * list SpentTxOut), hasBlock c h x.1 x.2.1 ∧ hasJournal c h x.1 x.2.1 x.2.2) l →
  Forall (λ x : ptr * MsgBlock, hasBlock c h x.1 x.2) l' →
  verifyReorg l.*1 l'.*1 c = (Ok r, c') → quiet c c' ∧ r = (l.*2, l'.*2).
Proof.
  intros Hb Hc Hl Hl' E. unfold verifyReorganizationValidity in E. case_bool_decide as E0.
  { injection E as <- <-. split; [done|]. destruct E0 as [E1 E2]. apply fmap_nil_inv in E1, E2. by subst. }
  clear E0. hstep E. hstep E.
  hstep E. assert (c0 = c) as ->.
  { destruct l.*1; [by injection E1|]. case_bool_decide; [by injection E1|done]. }
  hstep E. assert (c0 = c) as ->.
  { destruct (head l'.*1), (last l.*1); repeat (case_match; simplify_eq/=); try done; unfold hret, herr in *; simplify_eq; done. }
  hstep E. destruct (verifyDetach_spec h M l _ [] c _ _ Hb Hc Hl E3) as [Q1 Er].
  hstep E. destruct (verifyAttach_spec h M l' _ [] c0 _ _ ltac:(by rewrite (q_tree _ _ Q1)) (q_coins _ _ Q1 _ Hc)
    ltac:(eapply Forall_impl; [exact Hl'|]; intros x Hx; by eapply quiet_hasBlock) E4) as [Q2 ->].
  injection E as <- <-. split; [by etrans|]. by rewrite Er.
Qed.

Abbreviation reorganizeChain :=
  (reorganizeChain sha256 sha3 engine genesisHash log2u8 now adjusted range PruneBlocks indexConnect indexDisconnect).

Lemma viewFor_empty M hash : viewFor M (mkView ∅ hash).
Proof. intros op oe Ho. cbn [entries] in Ho. by rewrite lookup_empty in Ho. Qed.

Lemma freshOuts_wf (h : heap) l k : k ∈ mjoin (blockKeys sha256 <$> ((λ x : ptr * MsgBlock, toBlock x.2 (default 0 (bn_height <$> h !! x.1))) <$> l)) → wfOp k.
Proof.
  intros (ks & Hk & Hks)%list_elem_of_join. apply list_elem_of_fmap in Hks as (b & -> & _). by eapply blockKeys_wf.
Qed.

(** C4. A reorganisation that succeeds leaves the unspent set of the new
    branch.  Let the coins be those of the current tip, let the blocks to detach
    lead down to the fork (undoing each gives the set before it) and the blocks
    to attach lead from the set of the fork to the set of the new tip, with the
    outputs they create new.  When [reorganizeChain] returns without an error,
    the UTXO cache over the database stands for exactly the set of the new tip,
    whatever was flushed, pruned or cached on the way, the best chain is the
    branch of the new tip and the snapshot names it. *)
Theorem reorganize_refines (c c' : Chain) (t fork : ptr) (Mtip Mfork Mnew : coinSet)
  (detach : list (ptr * (MsgBlock * list SpentTxOut))) (attach : list (ptr * MsgBlock))
  (Htip : tipAt c t) (Hcoins : holds c Mtip)
  (Hdown : undoing (ch_heap c) Mtip t detach Mfork fork) (Hup : redoing (ch_heap c) Mfork attach Mnew)
  (Hstored : Forall (λ x : ptr * (MsgBlock * list SpentTxOut),
     hasBlock c (ch_heap c) x.1 x.2.1 ∧ hasJournal c (ch_heap c) x.1 x.2.1 x.2.2) detach)
  (Hstored' : Forall (λ x : ptr * MsgBlock, hasBlock c (ch_heap c) x.1 x.2) attach)
  (Hfresh : freshOuts (ch_heap c) (if bool_decide (detach = []) then dcoins c else ∅) Mfork attach)
  (Hrun : reorganizeChain detach.*1 attach.*1 c = (Ok tt, c')) :
  holds c' Mnew ∧ tipAt c' (default fork (last attach.*1)) ∧ bare (ch_heap c') = bare (ch_heap c).
Proof.
  unfold reorganizeChain in Hrun. hstep Hrun.
  destruct (verifyReorg_spec _ Mtip detach attach c _ _ eq_refl Hcoins Hstored Hstored' E) as [Q ->]. cbn [fst snd] in Hrun.
  hstep Hrun. hstep Hrun. destruct a0.
  destruct (detachAll_spec (ch_heap c) detach Mtip Mfork t fork _ _ _ Hdown (q_tree _ _ Q) (q_coins _ _ Q _ Hcoins)
    (quiet_tipAt _ _ _ Q Htip) (viewFor_empty Mtip _) E1) as (B1 & G1 & G2 & G3).
  destruct (attachAll_spec (ch_heap c) attach Mfork Mnew fork c1 c' Hup B1) as (B2 & F1 & F2); [|done|done|exact Hrun|done].
  case_bool_decide as Ed.
  - subst detach. destruct G3 as [[_ ->]|G3]; [by rewrite (q_db _ _ Q)|]. destruct Hfresh as [F1 F2]. split; [done|].
    intros k Hk. split; [|by apply F2]. rewrite G3; [by apply F2|]. eapply freshOuts_wf; done.
  - destruct G3 as [[-> _]|G3]; [done|]. destruct Hfresh as [F1 F2]. split; [done|]. intros k Hk. split; [|by apply F2].
    rewrite G3; [by apply F2|]. eapply freshOuts_wf; done.
Qed.
End facts.

(** ** A reorganisation, run

    Genesis (0), a block (1) whose coinbase both branches spend, the tip (2) and
    a branch of two blocks (3, 4). *)
#[local] Existing Instances ToySecp.toySecp ToySecp.toySecpLaws.
Module ReorgDemo.
Definition cbTx (version : Z) : MsgTx :=
  mkMsgTx version [mkTxIn (mkOutPoint zeroHash (2 ^ 32 - 1)) [x01; x02] [] 0] [mkTxOut 50 [x51]] 0.
Definition X : OutPoint := mkOutPoint (TxHash toySha (cbTx 1)) 0.
Definition spendX (version : Z) : MsgTx := mkMsgTx version [mkTxIn X [] [] 0] [mkTxOut 20 [x51]; mkTxOut 30 [x6a]] 0.

Definition header (version : Z) (prev : bytes) : BlockHeader :=
  mkBlockHeader version prev zeroHash (timeUnix (1000 + version)) 0x1b00ffff zeroHash.
Definition mkB (hd : BlockHeader) (txs : list MsgTx) : MsgBlock := mkMsgBlock (mkMsgHeader None hd) None txs.
Definition hashOf (hd : BlockHeader) : bytes := BlockHash toySha hd.
Definition h0 : BlockHeader := header 1 zeroHash.
Definition h1 : BlockHeader := header 2 (hashOf h0).
Definition hA : BlockHeader := header 3 (hashOf h1).
Definition hB1 : BlockHeader := header 4 (hashOf h1).
Definition hB2 : BlockHeader := header 5 (hashOf hB1).
Definition b0 : MsgBlock := mkB h0 [cbTx 9].
Definition b1 : MsgBlock := mkB h1 [cbTx 1].
Definition bA : MsgBlock := mkB hA [cbTx 2; spendX 3].
Definition bB1 : MsgBlock := mkB hB1 [cbTx 4].
Definition bB2 : MsgBlock := mkB hB2 [cbTx 5; spendX 6].

Definition index : blockIndex :=
  let add bi hd parent := (Add toySha bi hd parent (Z.lor statusDataStored statusValid) 100).2 in
  add (add (add (add (add newBlockIndex h0 None) h1 (Some 0%nat)) hA (Some 1%nat)) hB1 (Some 1%nat)) hB2 (Some 3%nat).

(** The sets after block 1, after the tip and after the branch. *)
Definition setAfter (h : Z) (M : coinSet) (b : MsgBlock) : coinSet :=
  default ∅ (snd <$> blockCheck toySha h M (mb_Transactions b)).
Definition M1 : coinSet := setAfter 1 ∅ b1.
Definition MA : coinSet := setAfter 2 M1 bA.
Definition MB1 : coinSet := setAfter 2 M1 bB1.
Definition MB2 : coinSet := setAfter 3 MB1 bB2.
Definition coinX : SpentTxOut := mkSpentTxOut 50 [x51] 1 true.

Definition log2 (n : Z) : Z := Z.log2 n.
Definition connectIn (b : MsgBlock) (h : Z) (s : utxoCache) : utxoCache :=
  (UtxoCache.connectTransactions log2 toySha (∅ : bucket) (Chain.toBlock toySha b h) (Some []) s).2.
Definition cache1 : utxoCache := connectIn b1 1 (newUtxoCache log2 (100 * 2 ^ 20)).
Definition cacheA : utxoCache := connectIn bA 2 cache1.

Definition db : chainDb :=
  mkChainDb (mkUtxoDb ∅ None) None ∅ ∅ (dbPutSpendJournalEntry ∅ (hashOf hA) [coinX]) ∅ ∅ ∅
    (list_to_map ((λ b, (hashOf (mb_BlockHeader b), b)) <$> [b0; b1; bA; bB1; bB2])).
Definition chain : Chain :=
  mkChainState (mkChain RegressionNetParams [] ∅ index (viewOf (bi_heap index) 2) None None) cacheA db
    (mkBestState (hashOf hA) 2 0x1b00ffff 0 0 2 4 0 0) emptyPool (mkCaches [] [] false) 0.
Definition noIndex (_ : Block) (_ : list SpentTxOut) : res verr unit := Ok tt.
Definition noPrune (_ : Z) (_ : gmap bytes MsgBlock) : list bytes := [].
Definition detach : list (ptr * (MsgBlock * list SpentTxOut)) := [(2%nat, (bA, [coinX]))].
Definition attach : list (ptr * MsgBlock) := [(3%nat, bB1); (4%nat, bB2)].
Abbreviation run :=
  (reorganizeChain (H := ToySecp.toySecp) (H1 := Toy.toySchnorr) toySha toySha (λ _ _ _ _ _, EngineOk) zeroHash log2 0 (timeUnix 1000000)
    map_to_list noPrune noIndex noIndex).
End ReorgDemo.

Lemma demo_run : (ReorgDemo.run ReorgDemo.detach.*1 ReorgDemo.attach.*1 ReorgDemo.chain).1 = Ok tt.
Proof. vm_compute. reflexivity. Qed.

Lemma demo_run_eq : ReorgDemo.run ReorgDemo.detach.*1 ReorgDemo.attach.*1 ReorgDemo.chain
  = (Ok tt, (ReorgDemo.run ReorgDemo.detach.*1 ReorgDemo.attach.*1 ReorgDemo.chain).2).
Proof. rewrite <- demo_run. apply surjective_pairing. Qed.

Lemma demo_wfIndex : wfIndex ReorgDemo.index.
Proof.
  assert (Hadd : ∀ bi hd parent, inU 32 (bh_Bits hd) → inU 32 (unixOf (bh_Timestamp hd)) →
    match parent with
    | Some q => bool_decide (is_Some (bi_heap bi !! q)) && (default 0 (bn_height <$> bi_heap bi !! q) <? 100)
    | None => true
    end = true → wfIndex bi → wfIndex (Add toySha bi hd parent (Z.lor statusDataStored statusValid) 100).2).
  { intros bi hd parent G1 G2 G3 Hbi. apply Add_wf; [done|done| |done]. intros q ->. apply andb_prop in G3 as [G3 G4].
    apply bool_decide_eq_true in G3 as [qn Hqn]. exists qn. rewrite Hqn in G4. cbn in G4. split; [done|]. apply Z.ltb_lt in G4. lia. }
  unfold ReorgDemo.index. repeat (apply Hadd; [vm_compute; split; congruence|vm_compute; split; congruence|vm_compute; reflexivity|]).
  apply (reachable_wf toySha), rtc_refl.
Qed.

Lemma demo_tip : tipAt ReorgDemo.chain 2.
Proof.
  split.
  - split; [exact (proj1 demo_wfIndex)|]. split; [|vm_compute; reflexivity]. vm_compute. by eexists.
  - eexists. split; [vm_compute; reflexivity|]. split; vm_compute; reflexivity.
Qed.

Lemma demo_connect b h s M : holdsAt (∅ : bucket) s M → blockWf (Chain.toBlock toySha b h) →
  bool_decide (is_Some (blockCheck toySha h M (mb_Transactions b))) = true →
  holdsAt ∅ (ReorgDemo.connectIn b h s) (ReorgDemo.setAfter h M b).
Proof.
  intros [Hok HM] (Hh & Hwi & Hwo) [[cs M'] Hc]%bool_decide_eq_true. unfold ReorgDemo.setAfter. rewrite Hc. cbn [fmap option_fmap option_map default from_option snd].
  apply blockCheck_spec in Hc.
  destruct (connectLoop_refines ReorgDemo.log2 toySha toySha_length (∅ : bucket) h (mb_Transactions b) s M (Some []) cs M' Hok HM Hh Hwi Hwo)
    as (s' & E & G1 & G2); [|done|].
  - apply Forall_forall. intros tx _. apply Forall_forall. intros p _. cbn. unfold rowCoin. by rewrite lookup_empty.
  - unfold ReorgDemo.connectIn, UtxoCache.connectTransactions.
    change (blk_Height (Chain.toBlock toySha b h)) with h. change (blk_Transactions (Chain.toBlock toySha b h)) with (mb_Transactions b).
    rewrite E. done.
Qed.

Lemma demo_wf_b1 : blockWf (Chain.toBlock toySha ReorgDemo.b1 1).
Proof. apply (bool_decide_unpack _). vm_compute. reflexivity. Qed.
Lemma demo_wf_bA : blockWf (Chain.toBlock toySha ReorgDemo.bA 2).
Proof. apply (bool_decide_unpack _). vm_compute. reflexivity. Qed.
Lemma demo_wf_bB1 : blockWf (Chain.toBlock toySha ReorgDemo.bB1 2).
Proof. apply (bool_decide_unpack _). vm_compute. reflexivity. Qed.
Lemma demo_wf_bB2 : blockWf (Chain.toBlock toySha ReorgDemo.bB2 3).
Proof. apply (bool_decide_unpack _). vm_compute. reflexivity. Qed.

Lemma demo_holds : holds ReorgDemo.chain ReorgDemo.MA.
Proof.
  apply (demo_connect ReorgDemo.bA 2 ReorgDemo.cache1 ReorgDemo.M1); [|exact demo_wf_bA|vm_compute; reflexivity].
  apply (demo_connect ReorgDemo.b1 1 _ ∅); [|exact demo_wf_b1|vm_compute; reflexivity].
  apply newCache_ok; [apply map_Forall_empty|]. intros op _. cbn. unfold rowCoin. by rewrite !lookup_empty.
Qed.

Lemma setAfter_ok h M b cs : fst <$> blockCheck toySha h M (mb_Transactions b) = Some cs →
  blockOk toySha h M (mb_Transactions b) cs (ReorgDemo.setAfter h M b).
Proof.
  intros E. unfold ReorgDemo.setAfter. destruct (blockCheck toySha h M (mb_Transactions b)) as [[cs' M']|] eqn:Eb; [|done].
  injection E as <-. by apply blockCheck_spec.
Qed.

Lemma demo_down : undoing toySha (ch_heap ReorgDemo.chain) ReorgDemo.MA 2 ReorgDemo.detach ReorgDemo.M1 1.
Proof.
  destruct (ch_heap ReorgDemo.chain !! 2%nat) as [nd|] eqn:En; [|vm_compute in En; discriminate].
  assert (bn_parent nd = Some 1%nat ∧ bn_height nd = 2) as [Hp Hh] by (vm_compute in En; by injection En as <-).
  apply (undo_cons toySha _ ReorgDemo.MA 2 nd 1 ReorgDemo.bA (ReorgDemo.cbTx 2) [ReorgDemo.spendX 3] [ReorgDemo.coinX] ReorgDemo.M1);
    [done|done|reflexivity|reflexivity| | | | |constructor]; rewrite ?Hh.
  - by constructor.
  - exact demo_wf_bA.
  - constructor; [|constructor]. repeat split; vm_compute; congruence.
  - apply (setAfter_ok 2 ReorgDemo.M1 ReorgDemo.bA). vm_compute. reflexivity.
Qed.

Lemma demo_up : redoing toySha (ch_heap ReorgDemo.chain) ReorgDemo.M1 ReorgDemo.attach ReorgDemo.MB2.
Proof.
  destruct (ch_heap ReorgDemo.chain !! 3%nat) as [n1|] eqn:E1; [|vm_compute in E1; discriminate].
  destruct (ch_heap ReorgDemo.chain !! 4%nat) as [n2|] eqn:E2; [|vm_compute in E2; discriminate].
  assert (bn_height n1 = 2) as G1 by (vm_compute in E1; by injection E1 as <-).
  assert (bn_height n2 = 3) as G2 by (vm_compute in E2; by injection E2 as <-).
  apply (redo_cons toySha _ _ 3 n1 ReorgDemo.bB1 [] ReorgDemo.MB1); [done|rewrite G1; exact demo_wf_bB1| |].
  { rewrite G1. apply (setAfter_ok 2 ReorgDemo.M1 ReorgDemo.bB1). vm_compute. reflexivity. }
  apply (redo_cons toySha _ _ 4 n2 ReorgDemo.bB2 [ReorgDemo.coinX] ReorgDemo.MB2); [done|rewrite G2; exact demo_wf_bB2| |constructor].
  rewrite G2. apply (setAfter_ok 3 ReorgDemo.MB1 ReorgDemo.bB2). vm_compute. reflexivity.
Qed.

Lemma demo_stored : Forall (λ x : ptr * (MsgBlock * list SpentTxOut),
     hasBlock ReorgDemo.chain (ch_heap ReorgDemo.chain) x.1 x.2.1
     ∧ hasJournal toySha ReorgDemo.chain (ch_heap ReorgDemo.chain) x.1 x.2.1 x.2.2) ReorgDemo.detach.
Proof.
  constructor; [|constructor]. split; eexists; (split; [vm_compute; reflexivity|]); [split; [vm_compute; reflexivity|]|vm_compute; reflexivity].
  exact (proj1 (proj2 demo_wf_bA)).
Qed.
Lemma demo_stored' : Forall (λ x : ptr * MsgBlock, hasBlock ReorgDemo.chain (ch_heap ReorgDemo.chain) x.1 x.2) ReorgDemo.attach.
Proof.
  constructor; [|constructor; [|constructor]]; eexists; (split; [vm_compute; reflexivity|]; split; [vm_compute; reflexivity|]);
    [exact (proj1 (proj2 demo_wf_bB1))|exact (proj1 (proj2 demo_wf_bB2))].
Qed.
Lemma demo_fresh : freshOuts toySha (ch_heap ReorgDemo.chain) ∅ ReorgDemo.M1 ReorgDemo.attach.
Proof.
  split; [apply (bool_decide_unpack _); vm_compute; reflexivity|].
  intros k Hk. split; [cbn; unfold rowCoin; by rewrite lookup_empty|].
  revert k Hk. apply Forall_forall. apply (bool_decide_unpack _). vm_compute. reflexivity.
Qed.

Lemma reorganize_refines_witness :
  holds (ReorgDemo.run ReorgDemo.detach.*1 ReorgDemo.attach.*1 ReorgDemo.chain).2 ReorgDemo.MB2
  ∧ tipAt (ReorgDemo.run ReorgDemo.detach.*1 ReorgDemo.attach.*1 ReorgDemo.chain).2 (default 1%nat (last ReorgDemo.attach.*1))
  ∧ bare (ch_heap (ReorgDemo.run ReorgDemo.detach.*1 ReorgDemo.attach.*1 ReorgDemo.chain).2) = bare (ch_heap ReorgDemo.chain).
Proof.
  exact (reorganize_refines (H2 := Toy.toySchnorr) toySha toySha (λ _ _ _ _ _, EngineOk) zeroHash ReorgDemo.log2 0 (timeUnix 1000000)
    map_to_list ReorgDemo.noPrune ReorgDemo.noIndex ReorgDemo.noIndex toySha_length (λ m, reflexivity _)
    ReorgDemo.chain (ReorgDemo.run ReorgDemo.detach.*1 ReorgDemo.attach.*1 ReorgDemo.chain).2 2 1 ReorgDemo.MA ReorgDemo.M1 ReorgDemo.MB2
    ReorgDemo.detach ReorgDemo.attach demo_tip demo_holds demo_down demo_up demo_stored demo_stored' demo_fresh demo_run_eq).
Defined.
