(* ===== verification/ChainInv.v ===== *)
(** * The invariant of the chain state machine
    (theorems on src/node/blockchain/process.go, accept.go and chain.go)

    Whatever block is submitted, whether it is accepted, stored as an orphan or
    refused, and at whatever point an error stops the processing, the block
    index stays well formed, the best chain stays the complete branch of one of
    its blocks and the snapshot names that block. *)
From Stdlib Require Import ZArith Lia Strings.Byte.
From stdpp Require Import base list gmap.
From S2P Require Import Prelude RuleErrors WireTx WireBlock Chaincfg Difficulty BlockIndex.
From S2P Require Import Merkle Script Utxo Covenant TxRules ScriptVal BlockRules.
From S2P Require Import Compress ChainIO SizeHelper UtxoCache ThresholdState Orphans Detach Chain Reorg.
Open Scope Z_scope.
Open Scope list_scope.

(** ** Steps that add no block *)
Record advance (c c' : Chain) : Prop := {
  a_tree : bare (ch_heap c') = bare (ch_heap c);
  a_wf : wfIndex (ch_index c) → wfIndex (ch_index c');
  a_orphans : ch_orphans c' = ch_orphans c;
  a_tip : ∀ t, tipAt c t → ∃ t', tipAt c' t' }.

#[export] Instance advance_po : PreOrder advance.
Proof.
  split.
  - intros c. split; eauto.
  - intros c1 c2 c3 [A1 A2 A3 A4] [B1 B2 B3 B4]. split; [congruence|auto|congruence|].
    intros t Ht. destruct (A4 t Ht) as [t' Ht']. by eapply B4.
Qed.

Lemma advance_still c c' : bare (ch_heap c') = bare (ch_heap c) → (wfIndex (ch_index c) → wfIndex (ch_index c')) →
  bc_bestChain (ch_b c') = bc_bestChain (ch_b c) → ch_snapshot c' = ch_snapshot c → ch_orphans c' = ch_orphans c → advance c c'.
Proof.
  intros Hb Hwf Hv Hs Ho. split; [done|done|done|]. intros t [(Hw & [tn Ht] & Hview) (tn' & Htn & Hsn)]. exists t.
  destruct (bare_lookup _ _ Hb t tn' Htn) as [st Hst]. split.
  - split; [by eapply bare_wfHeap|]. split; [by eexists|]. rewrite Hv, Hview. symmetry. by apply bare_viewOf.
  - exists (setStatus tn' st). by rewrite Hs.
Qed.

(** A computation all of whose outcomes are such steps. *)
Definition adv {A} (m : chM A) : Prop := ∀ c, advance c (m c).2.

Lemma adv_bind {A B} (m : chM A) (k : A → chM B) : adv m → (∀ a, adv (k a)) → adv (hbind m k).
Proof.
  intros Hm Hk c. unfold hbind. pose proof (Hm c) as Ha. destruct (m c) as [[a|e] c1]; [|exact Ha].
  etrans; [exact Ha|apply Hk].
Qed.
Lemma adv_ret {A} (a : A) : adv (hret a).
Proof. by intros c. Qed.
Lemma adv_err {A} e : adv (herr (A := A) e).
Proof. by intros c. Qed.
Lemma adv_get {A} (f : Chain → A) : adv (hget f).
Proof. by intros c. Qed.
Lemma adv_lift {A} (r : res verr A) : adv (hlift r).
Proof. by intros c. Qed.
Lemma adv_some {A} (o : option A) : adv (hsome o).
Proof. by destruct o; intros c. Qed.
Lemma adv_read {A} (f : Chain → chM A) : (∀ c, adv (f c)) → adv (λ c, f c c).
Proof. intros Hf c. apply Hf. Qed.
Lemma adv_mod f : (∀ c, advance c (f c)) → adv (hmod f).
Proof. by intros Hf c; apply Hf. Qed.
(** The outcome of a computation is looked at. *)
Lemma adv_outcome {A B} (m : chM A) (k : A → chM B) (ke : verr → chM B) : adv m → (∀ a, adv (k a)) → (∀ e, adv (ke e)) →
  adv (λ c, match m c with (Ok a, c) => k a c | (Err e, c) => ke e c end).
Proof.
  intros Hm Hk He c. pose proof (Hm c) as Ha. destruct (m c) as [[a|e] c1]; (etrans; [exact Ha|]); [apply Hk|apply He].
Qed.

Create HintDb adv.
#[export] Hint Resolve adv_ret adv_err adv_get adv_lift adv_some : adv.
(** Walks through a computation to the operations it is made of. *)
Ltac adv_auto :=
  repeat first
    [ progress (intros; cbv beta)
    | solve [auto with adv]
    | apply adv_bind
    | match goal with
      | |- adv (if ?b then _ else _) => destruct b
      | |- adv (match ?x with _ => _ end) => destruct x
      end ].

Section parts.
Context `{Secp} `{ZkVerifier} `{Schnorr} (sha256 blake3 sha3 : bytes → bytes).
Context (engine : bytes → MsgTx → nat → Z → UtxoViewpoint → engineResult).
Context (genesisHash : bytes) (log2u8 : Z → Z) (now adjusted : Z).
Context (range : entryMap → list (OutPoint * option UtxoEntry)).
Context (rangeOrphans : gmap bytes orphanBlock → list (bytes * orphanBlock)).
Context (PruneBlocks : Z → gmap bytes MsgBlock → list bytes).
Context (indexConnect indexDisconnect : Block → list SpentTxOut → res verr unit).

Lemma adv_heap p : adv (λ c, hsome (ch_heap c !! p) c).
Proof. intros c. apply (adv_some (ch_heap c !! p) c). Qed.
Lemma adv_tipNode : adv (λ c, hsome (ch_tipNode c) c).
Proof. intros c. apply (adv_some (ch_tipNode c) c). Qed.

Lemma adv_flushIndex : adv flushIndex.
Proof.
  intros c. unfold flushIndex, hmod. destruct (flushToDB true (ch_index c)) as [rows bi] eqn:E. cbn [snd].
  assert (Hbi : bi = (flushToDB true (ch_index c)).2) by (by rewrite E).
  apply advance_still; [| |done..].
  - assert (Hh : bi_heap bi = ch_heap c) by (rewrite Hbi; unfold flushToDB; by case_bool_decide).
    unfold ch_heap at 1, ch_index at 1. cbn. by rewrite Hh.
  - intros Hwf. change (wfIndex bi). rewrite Hbi. apply (indexStep_wf sha256 (ch_index c)); [constructor|done].
Qed.
Lemma adv_markFlags p fl : adv (markFlags p fl).
Proof.
  apply adv_mod. intros c. apply advance_still; [apply bare_updStatus|apply updStatus_wf|done..].
Qed.
Lemma adv_markAll nodes fl : adv (markAll nodes fl).
Proof. induction nodes as [|p nodes IH]; cbn [markAll]; [auto with adv|]. apply adv_bind; [apply adv_markFlags|done]. Qed.
Lemma adv_isCurrent : adv (isCurrent adjusted).
Proof. unfold isCurrent. apply adv_bind; [apply adv_tipNode|]. adv_auto. Qed.
Lemma adv_fetchBlockByNode p : adv (fetchBlockByNode p).
Proof. intros c. unfold fetchBlockByNode. by repeat case_match. Qed.
Lemma adv_viewFetch v ops : adv (viewFetch log2u8 v ops).
Proof.
  unfold viewFetch. case_bool_decide; [auto with adv|]. apply adv_bind; [|auto with adv]. intros c. unfold fetchCached.
  destruct (fetchEntries _ _ _ _) as [r s]. by apply advance_still.
Qed.
Lemma adv_viewFetchInputs v b : adv (viewFetchInputs sha256 log2u8 v b).
Proof. unfold viewFetchInputs. destruct (findInputsToFetch sha256 v b). apply adv_viewFetch. Qed.
Lemma adv_checkConnect p mb h v : adv (checkConnect sha256 sha3 engine genesisHash log2u8 p mb h v).
Proof.
  unfold checkConnect. apply adv_bind; [apply adv_viewFetch|]. intros v1. apply adv_bind; [apply adv_viewFetchInputs|].
  intros _ c. by repeat case_match.
Qed.
Lemma adv_cacheConnect b : adv (cacheConnect sha256 log2u8 b).
Proof. intros c. unfold cacheConnect. destruct (UtxoCache.connectTransactions _ _ _ _ _ _) as [[st|e] s]; by apply advance_still. Qed.
Lemma adv_dbUpdate body : adv (dbUpdate body).
Proof. intros c. unfold dbUpdate. destruct (body (ch_db c) (ch_cache c)) as [[[u|e] db] s]; by apply advance_still. Qed.
Lemma adv_warn nd : adv (λ c, let '(r, tc) := warnUnknownRuleActivations (ch_index c) (bc_params (ch_b c)) nd (ch_caches c) in (r, withCaches c tc)).
Proof. intros c. destruct (warnUnknownRuleActivations _ _ _ _) as [r tc]. by apply advance_still. Qed.

#[local] Hint Resolve adv_heap adv_tipNode adv_flushIndex adv_markFlags adv_markAll adv_isCurrent adv_fetchBlockByNode
  adv_viewFetch adv_viewFetchInputs adv_checkConnect adv_cacheConnect adv_dbUpdate adv_warn : adv.

(** The tip moves to a node of the tree and the snapshot with it. *)
Lemma adv_setTip p nd state : bst_Hash state = bn_hash nd → bst_Height state = bn_height nd →
  ∀ c, (∃ st, ch_heap c !! p = Some (setStatus nd st)) →
  advance c (withSnapshot (withB c (setBestChain (ch_b c) (setTip (ch_heap c) (bc_bestChain (ch_b c)) (Some p)))) state).
Proof.
  intros E1 E2 c [st Hp]. split; [done|done|done|]. intros t [Ht _]. exists p. split.
  - eapply treeAt_move; [exact Ht|done|by eexists|]. by exists (ch_heap c).
  - exists (setStatus nd st). done.
Qed.

(** The node read from the heap is still there after steps of this kind. *)
Lemma advance_node c c' p nd : advance c c' → ch_heap c !! p = Some nd → ∃ st, ch_heap c' !! p = Some (setStatus nd st).
Proof. intros Ha Hp. eapply bare_lookup; [apply Ha|done]. Qed.

(** Computations started where the node [nd] is at [p]. *)
Definition at_node (p : ptr) (nd : blockNode) (c : Chain) : Prop := ∃ st, ch_heap c !! p = Some (setStatus nd st).
Definition advAt {A} (p : ptr) (nd : blockNode) (m : chM A) : Prop := ∀ c, at_node p nd c → advance c (m c).2.

Lemma advAt_adv {A} p nd (m : chM A) : adv m → advAt p nd m.
Proof. by intros Hm c _. Qed.
Lemma advAt_bind {A B} p nd (m : chM A) (k : A → chM B) : advAt p nd m → (∀ a, advAt p nd (k a)) → advAt p nd (hbind m k).
Proof.
  intros Hm Hk c Hc. unfold hbind. pose proof (Hm c Hc) as Ha. destruct (m c) as [[a|e] c1]; [|exact Ha].
  etrans; [exact Ha|]. apply Hk. destruct Hc as [st Hp]. destruct (advance_node c c1 p _ Ha Hp) as [st' Hst']. by exists st'.
Qed.
Lemma adv_node {A} p (k : blockNode → chM A) : (∀ nd, advAt p nd (k nd)) → adv (hbind (λ c, hsome (ch_heap c !! p) c) k).
Proof.
  intros Hk c. unfold hbind. destruct (ch_heap c !! p) as [nd|] eqn:E; [|done]. cbn. apply Hk. exists (bn_status nd).
  rewrite E. by destruct nd.
Qed.

Lemma advAt_setTip {A} p nd state (a : A) : bst_Hash state = bn_hash nd → bst_Height state = bn_height nd →
  advAt p nd (do! _ := hmod (λ c, withB c (setBestChain (ch_b c) (setTip (ch_heap c) (bc_bestChain (ch_b c)) (Some p)))) in
              do! _ := hmod (λ c, withSnapshot c state) in hret a).
Proof. intros E1 E2 c Hc. by apply (adv_setTip p nd). Qed.

Lemma adv_connectBlockCommit p mb h stxos : adv (connectBlockCommit sha256 now adjusted range PruneBlocks indexConnect p mb h stxos).
Proof.
  unfold connectBlockCommit. apply adv_bind; [auto with adv|]. intros tn. destruct (negb _); [auto with adv|]. destruct (negb _); [auto with adv|].
  apply adv_node. intros nd. apply advAt_bind; [apply advAt_adv; auto with adv|]. intros cur.
  apply advAt_bind; [apply advAt_adv; destruct cur; auto with adv|]. intros _.
  apply advAt_bind; [apply advAt_adv; auto with adv|]. intros _. apply advAt_bind; [apply advAt_adv; auto with adv|]. intros c0.
  apply advAt_bind; [apply advAt_adv; auto with adv|]. intros _. by apply advAt_setTip.
Qed.

Lemma adv_connectBlock p mb h stxos : adv (connectBlock sha256 now adjusted range PruneBlocks indexConnect p mb h stxos).
Proof.
  unfold connectBlock. apply adv_bind; [apply adv_connectBlockCommit|]. intros st c. unfold connectBlockFlush.
  destruct (negb _); [done|]. apply adv_dbUpdate.
Qed.

Lemma adv_disconnectBlock p mb h view : adv (disconnectBlock sha256 now range indexDisconnect p mb h view).
Proof.
  unfold disconnectBlock. apply adv_bind; [auto with adv|]. intros nd. apply adv_bind; [auto with adv|]. intros tn.
  destruct (negb _); [auto with adv|]. apply adv_bind; [auto with adv|]. intros prev. apply adv_node. intros pn.
  apply advAt_bind; [apply advAt_adv; auto with adv|]. intros pb. apply advAt_bind; [apply advAt_adv; auto with adv|]. intros _.
  apply advAt_bind; [apply advAt_adv; auto with adv|]. intros c0. apply advAt_bind; [apply advAt_adv; auto with adv|]. intros _.
  by apply advAt_setTip.
Qed.

Lemma adv_getReorganizeNodes p : adv (getReorganizeNodes p).
Proof.
  unfold getReorganizeNodes. apply adv_bind; [auto with adv|]. intros nd. apply adv_bind; [auto with adv|]. intros parent.
  apply adv_bind; [auto with adv|]. intros c0. destruct (KnownInvalid _); [apply adv_bind; auto with adv|].
  destruct (attachScan _ _ _ _ _) as [[] l]; [|auto with adv]. apply adv_bind; auto with adv.
Qed.

Lemma adv_verifyDetach nodes view acc : adv (verifyDetach sha256 log2u8 nodes view acc).
Proof.
  revert view acc. induction nodes as [|p nodes IH]; intros view acc; cbn [verifyDetach]; [auto with adv|].
  apply adv_bind; [auto with adv|]. intros nd. apply adv_bind; [auto with adv|]. intros mb. destruct (negb _); [auto with adv|].
  apply adv_bind; [auto with adv|]. intros v1. apply adv_bind; [by intros c|]. intros st. apply adv_bind; [auto with adv|]. intros v2. apply IH.
Qed.

Lemma adv_verifyAttach nodes view acc : adv (verifyAttach sha256 sha3 engine genesisHash log2u8 nodes view acc).
Proof.
  revert view acc. induction nodes as [|p nodes IH]; intros view acc; cbn [verifyAttach]; [auto with adv|].
  apply adv_bind; [auto with adv|]. intros nd. apply adv_bind; [auto with adv|]. intros mb. apply adv_bind; [auto with adv|]. intros c0.
  destruct (KnownValid _).
  - apply adv_bind; [auto with adv|]. intros v1. apply adv_bind; [auto with adv|]. intros [v2 ?]. apply IH.
  - apply (adv_outcome _ _ (λ e c, if isRuleError e
       then (do! _ := markFlags p statusValidateFailed in do! _ := markAll nodes statusInvalidAncestor in herr e) c else (Err e, c))).
    + auto with adv.
    + intros v. apply adv_bind; [auto with adv|]. intros _. apply IH.
    + intros e c. destruct (isRuleError e); [|done].
      assert (Hm : adv (do! _ := markFlags p statusValidateFailed in do! _ := markAll nodes statusInvalidAncestor in herr (A := list MsgBlock) e)); [|apply Hm].
      apply adv_bind; [auto with adv|]. intros _. apply adv_bind; auto with adv.
Qed.

#[local] Hint Resolve adv_connectBlock adv_disconnectBlock adv_getReorganizeNodes adv_verifyDetach adv_verifyAttach : adv.

Lemma adv_verifyReorg d a : adv (verifyReorganizationValidity sha256 sha3 engine genesisHash log2u8 d a).
Proof.
  unfold verifyReorganizationValidity. case_bool_decide; [auto with adv|]. apply adv_bind; [auto with adv|]. intros tn.
  apply adv_bind; [auto with adv|]. intros c0. apply adv_bind; [adv_auto|]. intros _. apply adv_bind; [adv_auto|]. intros _.
  apply adv_bind; [auto with adv|]. intros r. apply adv_bind; auto with adv.
Qed.
Lemma adv_detachAll nodes blocks view : adv (detachAll sha256 log2u8 now range indexDisconnect nodes blocks view).
Proof.
  revert blocks view. induction nodes as [|p nodes IH]; intros blocks view; [cbn; auto with adv|].
  destruct blocks as [|[mb st] blocks]; cbn [detachAll]; [auto with adv|]. apply adv_bind; [auto with adv|]. intros nd.
  apply adv_bind; [auto with adv|]. intros v1. apply adv_bind; [auto with adv|]. intros v2. apply adv_bind; [auto with adv|]. intros v3. apply IH.
Qed.
Lemma adv_attachAll nodes blocks : adv (attachAll sha256 log2u8 now adjusted range PruneBlocks indexConnect nodes blocks).
Proof.
  revert blocks. induction nodes as [|p nodes IH]; intros blocks; [cbn; auto with adv|].
  destruct blocks as [|mb blocks]; cbn [attachAll]; [auto with adv|]. apply adv_bind; [auto with adv|]. intros nd.
  apply adv_bind; [auto with adv|]. intros st. apply adv_bind; [auto with adv|]. intros _. apply IH.
Qed.
#[local] Hint Resolve adv_verifyReorg adv_detachAll adv_attachAll : adv.
Lemma adv_reorganizeChain d a :
  adv (reorganizeChain sha256 sha3 engine genesisHash log2u8 now adjusted range PruneBlocks indexConnect indexDisconnect d a).
Proof. unfold reorganizeChain. adv_auto. Qed.

Abbreviation connectBestChain :=
  (connectBestChain sha256 sha3 engine genesisHash log2u8 now adjusted range PruneBlocks indexConnect indexDisconnect).
Lemma adv_connectBestChain p mb h fl : adv (connectBestChain p mb h fl).
Proof.
  unfold connectBestChain. apply adv_bind; [auto with adv|]. intros tn. apply adv_bind; [auto with adv|]. intros nd.
  case_bool_decide.
  - apply adv_bind; [auto with adv|]. intros fast. apply adv_bind.
    { destruct fast; [auto with adv|]. intros c. pose proof (adv_checkConnect p mb h (mkView ∅ (bh_PrevBlock (mb_BlockHeader mb))) c) as Ha.
      destruct (checkConnect _ _ _ _ _ _ _ _ _ c) as [[v|e] c1].
      - etrans; [exact Ha|]. assert (Hm : adv (do! _ := markFlags p statusValid in flushIndex)) by (apply adv_bind; auto with adv). apply Hm.
      - destruct (isRuleError e); [|exact Ha]. etrans; [exact Ha|].
        assert (Hm : adv (do! _ := markFlags p statusValidateFailed in do! _ := flushIndex in herr (A := unit) e)); [|apply Hm].
        apply adv_bind; [auto with adv|]. intros _. apply adv_bind; auto with adv. }
    intros _. apply adv_bind; [auto with adv|]. intros st. apply adv_bind.
    { intros c. pose proof (adv_connectBlock p mb h st c) as Ha. destruct (connectBlock _ _ _ _ _ _ p mb h st c) as [[u|e] c1]; [exact Ha|].
      etrans; [exact Ha|].
      assert (Hm : adv (do! _ := (if isRuleError e then markFlags p statusValidateFailed else hret tt) in do! _ := flushIndex in herr (A := unit) e)); [|apply Hm].
      apply adv_bind; [destruct (isRuleError e); auto with adv|]. intros _. apply adv_bind; auto with adv. }
    intros _. apply adv_bind; [auto with adv|]. intros [|]; (apply adv_bind; [|auto with adv]); [apply adv_bind; auto with adv|auto with adv].
  - destruct (negb _); [adv_auto|]. apply adv_bind; [auto with adv|]. intros [d a] c.
    pose proof (adv_reorganizeChain d a c) as Ha. cbn [fst snd]. destruct (reorganizeChain _ _ _ _ _ _ _ _ _ _ _ d a c) as [[u|e] c1];
      (etrans; [exact Ha|]); [assert (Hm : adv (do! _ := flushIndex in hret true))|assert (Hm : adv (do! _ := flushIndex in herr (A := bool) e))];
      [apply adv_bind; auto with adv|apply Hm|apply adv_bind; auto with adv|apply Hm].
Qed.

(** ** The invariant *)

(** The blocks that are submitted: header fields at their width, and no two
    with the same hash and different parents. *)
Context (B : MsgBlock → Prop).
Hypothesis HB : ∀ b b', B b → B b' → BlockHash sha256 (mb_BlockHeader b) = BlockHash sha256 (mb_BlockHeader b') →
  bh_PrevBlock (mb_BlockHeader b) = bh_PrevBlock (mb_BlockHeader b').
Hypothesis Hhdr : ∀ b, B b → inU 32 (bh_Bits (mb_BlockHeader b)) ∧ inU 32 (unixOf (bh_Timestamp (mb_BlockHeader b))).
Hypothesis Hro : ∀ m, rangeOrphans m ≡ₚ map_to_list m.

Definition orphanCount (c : Chain) : Z := Z.of_nat (size (op_orphans (ch_orphans c))).

(** [N] bounds the heights, with room for the orphans. *)
Record chainInv (N : Z) (c : Chain) : Prop := {
  ci_index : wfIndex (ch_index c);
  ci_tip : ∃ t, tipAt c t;
  ci_pool : poolOk sha256 B (ch_orphans c);
  ci_bound : poolBound (ch_orphans c);
  ci_heights : ∀ p nd, ch_heap c !! p = Some nd → bn_height nd + orphanCount c <= N }.

Lemma advance_inv N c c' : advance c c' → chainInv N c → chainInv N c'.
Proof.
  intros Ha [I1 [t I2] I3 I4 I5]. split; [by apply Ha|by eapply Ha|by rewrite (a_orphans _ _ Ha)|by rewrite (a_orphans _ _ Ha)|].
  intros p nd' Hp. unfold orphanCount. rewrite (a_orphans _ _ Ha). destruct (ch_heap c !! p) as [nd|] eqn:E.
  - destruct (bare_lookup _ _ (a_tree _ _ Ha) p nd E) as [st E']. rewrite Hp in E'. injection E' as ->. exact (I5 p nd E).
  - by rewrite (bare_lookup_None _ _ (a_tree _ _ Ha) p E) in Hp.
Qed.

Lemma adv_inv {A} N (m : chM A) c : adv m → chainInv N c → chainInv N (m c).2.
Proof. intros Hm. apply advance_inv, Hm. Qed.

(** A node more in the index. *)
Lemma tipAt_grow c bi t : tipAt c t → ch_heap c ⊆ bi_heap bi → wfHeap (bi_heap bi) → tipAt (withIndex c bi) t.
Proof.
  intros [(Hwf & _ & Hv) (tn & Htn & Hs)] Hsub Hwf'. pose proof (lookup_weaken _ _ _ _ Htn Hsub) as Htn'.
  split; [|by exists tn]. split; [exact Hwf'|]. split; [by exists tn|]. change (bc_bestChain (ch_b (withIndex c bi))) with (bc_bestChain (ch_b c)).
  rewrite Hv. change (ch_heap (withIndex c bi)) with (bi_heap bi). unfold viewOf. rewrite Htn, Htn'. apply list_fmap_ext. intros i j Hj.
  apply lookup_seq in Hj as [-> Hj]. symmetry. apply walk_heap; [done|].
  pose proof (wf_range _ Hwf t tn Htn). destruct (walk_spec _ Hwf (Z.to_nat (bn_height tn) - (0 + i)) t tn Htn) as (a & an & Ha & _); [lia|]. by exists a.
Qed.

Lemma findPreviousCheckpoint_frame b : bc_index (findPreviousCheckpoint b).2 = bc_index b ∧ bc_bestChain (findPreviousCheckpoint b).2 = bc_bestChain b.
Proof. unfold findPreviousCheckpoint. repeat case_match; done. Qed.
Lemma checkBlockContext_frame b mb prev fl :
  bc_index (checkBlockContext sha256 b mb prev fl).2 = bc_index b ∧ bc_bestChain (checkBlockContext sha256 b mb prev fl).2 = bc_bestChain b.
Proof.
  unfold checkBlockContext. destruct (bi_heap (bc_index b) !! prev) as [nd|]; [|done].
  assert (Hc : bc_index (CheckBlockHeaderContext (H0 := nodeCtx (bi_heap (bc_index b))) sha256 (mb_BlockHeader mb) prev fl b false).2 = bc_index b
    ∧ bc_bestChain (CheckBlockHeaderContext (H0 := nodeCtx (bi_heap (bc_index b))) sha256 (mb_BlockHeader mb) prev fl b false).2 = bc_bestChain b).
  { unfold CheckBlockHeaderContext. cbn [cc_FindPreviousCheckpoint cc_VerifyCheckpoint BlockChain_ctx].
    destruct (if flagSet fl BFFastAdd then _ else _) as [u|e]; [|done]. destruct (negb _); [done|].
    pose proof (findPreviousCheckpoint_frame b) as Hf. destruct (findPreviousCheckpoint b) as [[[cp|]|e] b']; [case_match|..]; exact Hf. }
  destruct (CheckBlockHeaderContext _ _ _ _ _ _) as [[u|e] b']; [destruct (flagSet fl BFFastAdd)|]; exact Hc.
Qed.

Lemma advance_withB c b : bc_index b = bc_index (ch_b c) → bc_bestChain b = bc_bestChain (ch_b c) → advance c (withB c b).
Proof.
  intros E1 E2. apply advance_still; [|..]; try done; unfold ch_heap, ch_index; cbn; by rewrite E1.
Qed.

Abbreviation maybeAcceptBlock :=
  (maybeAcceptBlock sha256 sha3 engine genesisHash log2u8 now adjusted range PruneBlocks indexConnect indexDisconnect).

Lemma Add_inv N c mb prev pn vsize : chainInv N c → N + 1 < 2 ^ 31 → B mb → ch_heap c !! prev = Some pn →
  chainInv (N + 1) (withIndex c (Add sha256 (ch_index c) (mb_BlockHeader mb) (Some prev) statusDataStored vsize).2).
Proof.
  intros [I1 [t I2] I3 I4 I5] HN Hb Hp. destruct (Hhdr mb Hb) as [Hbits Htime]. pose proof (I5 prev pn Hp) as Hph. unfold orphanCount in *.
  assert (Hpar : ∀ q, Some prev = Some q → ∃ qn, bi_heap (ch_index c) !! q = Some qn ∧ bn_height qn < 2 ^ 31 - 1).
  { intros q [= <-]. exists pn. split; [done|lia]. }
  pose proof (Add_wf sha256 (ch_index c) (mb_BlockHeader mb) (Some prev) statusDataStored vsize Hbits Htime Hpar I1) as Hwf.
  pose proof I1 as (W1 & W2 & _).
  assert (Hfresh : ch_heap c !! bi_next (ch_index c) = None).
  { destruct (ch_heap c !! bi_next (ch_index c)) as [x|] eqn:E; [|done]. pose proof (W2 (bi_next (ch_index c)) ltac:(by exists x)). lia. }
  set (bi := (Add sha256 (ch_index c) (mb_BlockHeader mb) (Some prev) statusDataStored vsize).2) in *.
  assert (Hheap : bi_heap bi = <[bi_next (ch_index c) := newBlockNode sha256 (ch_heap c) (mb_BlockHeader mb) (Some prev) statusDataStored vsize]> (ch_heap c)).
  { unfold bi, Add, allocNode, addNode. cbn [bi_heap]. rewrite lookup_insert_eq. done. }
  split; [exact Hwf| |exact I3|exact I4|].
  - exists t. apply tipAt_grow; [done| |apply Hwf]. rewrite Hheap. by apply insert_subseteq.
  - intros p nd. change (ch_heap (withIndex c bi)) with (bi_heap bi). change (orphanCount (withIndex c bi)) with (orphanCount c). rewrite Hheap.
    intros [[<- <-]|[_ Hp']]%lookup_insert_Some.
    + unfold newBlockNode. cbn [mbind option_bind]. rewrite Hp. cbn [bn_height].
      pose proof (wf_range _ W1 prev pn Hp). rewrite (wrapS_small 32 (bn_height pn + 1)) by (unfold inS; lia). unfold orphanCount in *. lia.
    + pose proof (I5 p nd Hp'). unfold orphanCount in *. lia.
Qed.

Lemma inv_mono N N' c : N <= N' → chainInv N c → chainInv N' c.
Proof. intros Hle [I1 I2 I3 I4 I5]. split; try done. intros p nd Hp. pose proof (I5 p nd Hp). lia. Qed.

Lemma maybeAccept_inv N c mb fl : chainInv N c → N + 1 < 2 ^ 31 → B mb → chainInv (N + 1) (maybeAcceptBlock mb fl c).2.
Proof.
  intros Hi HN Hb. pose proof (inv_mono N (N + 1) c ltac:(lia) Hi) as Hi1. unfold maybeAcceptBlock. unfold hbind at 1, hget at 1.
  destruct (LookupNode (ch_index c) _) as [prev|]; [|done]. unfold hbind at 1, hget at 1. destruct (KnownInvalid _); [done|].
  unfold hbind at 1. destruct (ch_heap c !! prev) as [pn|] eqn:Ep; [|done]. cbn [hsome]. unfold hret. unfold hbind at 1.
  pose proof (checkBlockContext_frame (ch_b c) mb prev fl) as [F1 F2].
  destruct (checkBlockContext sha256 (ch_b c) mb prev fl) as [r b]. cbn [fst snd] in *. pose proof (advance_withB c b F1 F2) as Ha.
  destruct r as [u|e]; [|exact (advance_inv _ _ _ Ha Hi1)]. destruct (_ =? -1); [exact (advance_inv _ _ _ Ha Hi1)|].
  unfold hbind at 1, hmod at 1. unfold hbind at 1. set (c1 := withDb _ _).
  assert (H1' : chainInv N c1). { eapply advance_inv; [|exact Hi]. etrans; [exact Ha|]. by apply advance_still. }
  assert (Ep1 : ch_heap c1 !! prev = Some pn). { unfold c1, ch_heap, ch_index. cbn. rewrite F1. exact Ep. }
  pose proof (Add_inv N c1 mb prev pn (GetBlockVsize mb) H1' HN Hb Ep1) as H2'.
  destruct (Add sha256 (ch_index c1) _ _ _ _) as [p bi]. cbn [snd] in *. apply adv_inv; [apply adv_connectBestChain|exact H2'].
Qed.

(** An orphan leaves the pool. *)
Lemma remove_inv N c k o : chainInv N c → op_orphans (ch_orphans c) !! k = Some o →
  chainInv (N - 1) (withOrphans c (removeOrphanBlock sha256 (ch_orphans c) o)) ∧ B (ob_block o).
Proof.
  intros [I1 I2 I3 I4 I5] Ho. destruct (pool_key _ _ _ I3 k o Ho) as [Hk Hb].
  destruct (step_ok sha256 B HB rangeOrphans Hro _ _ (step_remove sha256 B rangeOrphans _ k o Ho) I3 I4) as [P1 P2].
  split; [|done]. split; [done|done|done|done|]. intros p nd Hp. pose proof (I5 p nd Hp) as Hh.
  destruct (delete_size (op_orphans (ch_orphans c)) (ob_hash sha256 o)) as [_ D]. unfold orphanCount in *. cbn.
  rewrite D in Hh by (rewrite Hk; by eexists). lia.
Qed.

Abbreviation processChildren :=
  (processChildren sha256 sha3 engine genesisHash log2u8 now adjusted range PruneBlocks indexConnect indexDisconnect).
Abbreviation processQueue :=
  (processQueue sha256 sha3 engine genesisHash log2u8 now adjusted range PruneBlocks indexConnect indexDisconnect).

Lemma processChildren_inv N fuel hash fl acc c : chainInv N c → N < 2 ^ 31 → chainInv N (processChildren fuel hash fl acc c).2.
Proof.
  revert acc c. induction fuel as [|fuel IH]; intros acc c Hi HN; [done|]. cbn [processChildren]. unfold hbind at 1, hget at 1.
  destruct (op_prevOrphans (ch_orphans c) !! hash ≫= head) as [o|] eqn:E; [|done].
  destruct (op_prevOrphans (ch_orphans c) !! hash) as [l|] eqn:El; [|done]. cbn in E. destruct l as [|o' l]; [done|]. injection E as ->.
  destruct (pool_back _ _ _ (ci_pool _ _ Hi) hash _ El) as (_ & _ & Hin). destruct (Hin o ltac:(by left)) as [_ Ho].
  destruct (remove_inv N c _ o Hi Ho) as [Hi1 Hb]. unfold hbind at 1, hmod at 1. unfold hbind at 1.
  pose proof (maybeAccept_inv (N - 1) _ (ob_block o) fl Hi1 ltac:(lia) Hb) as Hi2. replace (N - 1 + 1) with N in Hi2 by lia.
  destruct (maybeAcceptBlock (ob_block o) fl _) as [[b|e] c2]; [by apply IH|exact Hi2].
Qed.

Lemma processQueue_inv N fuel queue fl c : chainInv N c → N < 2 ^ 31 → chainInv N (processQueue fuel queue fl c).2.
Proof.
  revert queue c. induction fuel as [|fuel IH]; intros queue c Hi HN; [done|]. destruct queue as [|h queue]; [done|].
  cbn [processQueue]. unfold hbind at 1, hget at 1. unfold hbind at 1.
  pose proof (processChildren_inv N (S (size (op_orphans (ch_orphans c)))) h fl [] c Hi HN) as Hi1.
  destruct (processChildren _ h fl [] c) as [[l|e] c1]; [by apply IH|exact Hi1].
Qed.

Lemma addOrphan_size p b p' : poolOk sha256 B p → addOrphanBlock sha256 rangeOrphans p b now = Ok p' →
  (size (op_orphans p') <= S (size (op_orphans p)))%nat.
Proof.
  intros Hok. unfold addOrphanBlock.
  assert (Hnd : NoDup (rangeOrphans (op_orphans p)).*1).
  { eapply (NoDup_Permutation_proper _ _ (fmap_Permutation fst _ _ (Hro (op_orphans p)))), NoDup_fst_map_to_list. }
  destruct (expireLoop_ok sha256 B HB now (rangeOrphans (op_orphans p)) p Hok Hnd) as (_ & Hsub & _).
  { rewrite Hro. apply Forall_forall. intros [k o] Hx. by apply elem_of_map_to_list in Hx. }
  set (p1 := foldl _ p _) in *. pose proof (map_subseteq_size _ _ Hsub) as Hsz.
  assert (Hins : ∀ (m : gmap bytes orphanBlock) k x, (size (<[k := x]> m) <= S (size m))%nat).
  { intros m k x. destruct (m !! k) as [y|] eqn:E; [rewrite map_size_insert_Some by (by eexists)|rewrite map_size_insert_None by done]; lia. }
  destruct (maxOrphanBlocks <? _); [destruct (op_oldestOrphan p1) as [old|]; [|done]|]; cbn [res_bind]; intros [= <-]; cbn [op_orphans removeOrphanBlock];
    (etrans; [apply Hins|]); [|lia]. destruct (delete_size (op_orphans p1) (ob_hash sha256 old)) as [D _]. cbn. lia.
Qed.

Lemma adv_checkpoint : adv (λ c, let '(r, b) := findPreviousCheckpoint (ch_b c) in (r, withB c b)).
Proof.
  intros c. pose proof (findPreviousCheckpoint_frame (ch_b c)) as [F1 F2]. destruct (findPreviousCheckpoint (ch_b c)) as [r b]. by apply advance_withB.
Qed.
Lemma adv_checkAgainstCheckpoint hd fl : adv (checkAgainstCheckpoint hd fl).
Proof.
  unfold checkAgainstCheckpoint. apply adv_bind; [apply adv_checkpoint|]. intros [cp|]; [|auto with adv].
  apply adv_bind; [auto with adv|]. intros cpn. apply adv_bind; [auto with adv|]. intros c0.
  destruct (match _ with Some _ => _ | None => _ end); [auto with adv|]. destruct (_ <? _); [auto with adv|]. destruct (flagSet _ _); [auto with adv|].
  destruct (_ <? _); auto with adv.
Qed.

Abbreviation ProcessBlock :=
  (ProcessBlock sha256 blake3 sha3 engine genesisHash log2u8 now adjusted range rangeOrphans PruneBlocks indexConnect indexDisconnect).

Lemma ProcessBlock_inv N c mb fl : chainInv N c → N + 1 < 2 ^ 31 → B mb → chainInv (N + 1) (ProcessBlock mb fl c).2.
Proof.
  intros Hi HN Hb. pose proof (inv_mono N (N + 1) c ltac:(lia) Hi) as Hi1. unfold ProcessBlock. unfold hbind at 1, hget at 1.
  destruct (blockExists c _); [done|]. destruct (IsKnownOrphan _ _) eqn:Ek; [done|]. unfold hbind at 1, hlift at 1.
  destruct (checkBlockSanity _ _ _ _ _ _) as [u|e]; [|done]. unfold hbind at 1.
  pose proof (adv_checkAgainstCheckpoint (mb_BlockHeader mb) fl c) as Ha.
  destruct (checkAgainstCheckpoint (mb_BlockHeader mb) fl c) as [[u1|e] c1]; [|exact (advance_inv _ _ _ Ha Hi1)].
  cbn [snd] in Ha. pose proof (advance_inv _ _ _ Ha Hi) as Hi2. unfold hbind at 1, hget at 1. destruct (negb _).
  - unfold hbind at 1. destruct (addOrphanBlock sha256 rangeOrphans (ch_orphans c1) mb now) as [p'|e] eqn:Eo; [|by apply (inv_mono N); [lia|]].
    destruct Hi2 as [I1 I2 I3 I4 I5]. unfold IsKnownOrphan in Ek. apply bool_decide_eq_false in Ek.
    assert (Hnew : op_orphans (ch_orphans c1) !! BlockHash sha256 (mb_BlockHeader mb) = None).
    { rewrite (a_orphans _ _ Ha). by apply eq_None_not_Some. }
    destruct (addOrphan_ok sha256 B HB rangeOrphans Hro (ch_orphans c1) mb now I3 I4 Hb Hnew) as (p1 & E1 & P1 & P2 & _).
    rewrite Eo in E1. injection E1 as <-. pose proof (addOrphan_size _ _ _ I3 Eo) as Hsz.
    split; [done|done|done|done|]. intros p nd Hp. pose proof (I5 p nd Hp). unfold orphanCount in *. cbn. lia.
  - unfold hbind at 1. pose proof (maybeAccept_inv N c1 mb fl Hi2 HN Hb) as Hi3.
    destruct (maybeAcceptBlock mb fl c1) as [[b|e] c2]; [|exact Hi3]. unfold hbind at 1, processOrphans. unfold hbind at 1, hget at 1.
    pose proof (processQueue_inv (N + 1) (S (size (op_orphans (ch_orphans c2)))) [BlockHash sha256 (mb_BlockHeader mb)] fl c2 Hi3 HN) as Hi4.
    destruct (processQueue _ _ fl c2) as [[u2|e] c3]; exact Hi4.
Qed.

(** ** The orphans that waited *)
Lemma maybeAccept_orphans c mb fl : ch_orphans (maybeAcceptBlock mb fl c).2 = ch_orphans c.
Proof.
  unfold maybeAcceptBlock. unfold hbind at 1, hget at 1. destruct (LookupNode (ch_index c) _) as [prev|]; [|done].
  unfold hbind at 1, hget at 1. destruct (KnownInvalid _); [done|]. unfold hbind at 1.
  destruct (ch_heap c !! prev) as [pn|]; [|done]. cbn [hsome]. unfold hret. unfold hbind at 1.
  destruct (checkBlockContext sha256 (ch_b c) mb prev fl) as [[u|e] b]; [|done]. destruct (_ =? -1); [done|].
  unfold hbind at 1, hmod at 1. unfold hbind at 1. set (c1 := withDb _ _).
  destruct (Add sha256 (ch_index c1) _ _ _ _) as [p bi]. by rewrite (a_orphans _ _ (adv_connectBestChain p mb _ fl _)).
Qed.

(** [gone c c']: the orphans of [c] that have left the pool; those that stay are
    the same. *)
Definition pool (c : Chain) : gmap bytes orphanBlock := op_orphans (ch_orphans c).
Definition noChild (c : Chain) (h : bytes) : Prop := ∀ k o, pool c !! k = Some o → ob_prev o ≠ h.

Lemma noChild_mono c c' h : pool c' ⊆ pool c → noChild c h → noChild c' h.
Proof. intros Hs Hn k o Ho. eapply Hn. by eapply lookup_weaken. Qed.

Lemma processChildren_drain N fuel hash fl acc c l c' : chainInv N c → N < 2 ^ 31 → (size (pool c) < fuel)%nat →
  processChildren fuel hash fl acc c = (Ok l, c') →
  noChild c' hash ∧ pool c' ⊆ pool c ∧ (∃ l', l = acc ++ l' ∧ (size (pool c') + length l' = size (pool c))%nat
    ∧ ∀ k, is_Some (pool c !! k) → pool c' !! k = None → k ∈ l').
Proof.
  revert acc c. induction fuel as [|fuel IH]; intros acc c Hi HN Hf E; [lia|]. cbn [processChildren] in E. unfold hbind at 1, hget at 1 in E.
  destruct (op_prevOrphans (ch_orphans c) !! hash ≫= head) as [o|] eqn:Eh.
  - destruct (op_prevOrphans (ch_orphans c) !! hash) as [lp|] eqn:El; [|done]. cbn in Eh. destruct lp as [|o' lp]; [done|]. injection Eh as ->.
    destruct (pool_back _ _ _ (ci_pool _ _ Hi) hash _ El) as (_ & _ & Hin). destruct (Hin o ltac:(by left)) as [_ Ho].
    destruct (remove_inv N c _ o Hi Ho) as [Hi1 Hb]. unfold hbind at 1, hmod at 1 in E. unfold hbind at 1 in E.
    pose proof (maybeAccept_inv (N - 1) _ (ob_block o) fl Hi1 ltac:(lia) Hb) as Hi2. replace (N - 1 + 1) with N in Hi2 by lia.
    pose proof (maybeAccept_orphans (withOrphans c (removeOrphanBlock sha256 (ch_orphans c) o)) (ob_block o) fl) as Hor.
    destruct (maybeAcceptBlock (ob_block o) fl _) as [[b|e] c2]; [|done]. cbn [snd] in *.
    assert (Hp2 : pool c2 = delete (ob_hash sha256 o) (pool c)) by (unfold pool; rewrite Hor; done).
    destruct (delete_size (pool c) (ob_hash sha256 o)) as [_ Dsz]. pose proof (Dsz ltac:(by exists o)) as Dsz'.
    destruct (IH _ c2 Hi2 HN ltac:(rewrite Hp2; lia) E) as (G1 & G2 & l' & -> & G3 & G4). rewrite Hp2 in G2, G3, G4.
    split; [done|]. split; [etrans; [exact G2|apply delete_subseteq]|]. exists (ob_hash sha256 o :: l'). split; [by rewrite <- app_assoc|].
    split; [cbn [length]; lia|]. intros k Hk Hn. destruct (decide (k = ob_hash sha256 o)) as [->|Hne]; [by left|].
    right. apply G4; [by rewrite lookup_delete_ne|done].
  - injection E as <- <-. split; [|split; [done|]].
    + intros k o Ho Hprev. pose proof (pool_prev _ _ _ (ci_pool _ _ Hi) k o Ho) as Hin. rewrite Hprev in Hin.
      destruct (op_prevOrphans (ch_orphans c) !! hash) as [[|x lp]|]; cbn in *; [by apply elem_of_nil in Hin|done|by apply elem_of_nil in Hin].
    + exists []. rewrite app_nil_r. split; [done|]. split; [cbn; lia|]. intros k [x Hk] Hn. congruence.
Qed.

Lemma processQueue_drain N fuel queue fl c c' : chainInv N c → N < 2 ^ 31 → (size (pool c) + length queue <= fuel)%nat →
  processQueue fuel queue fl c = (Ok tt, c') →
  pool c' ⊆ pool c ∧ (∀ h, h ∈ queue → noChild c' h) ∧ ∀ k, is_Some (pool c !! k) → pool c' !! k = None → noChild c' k.
Proof.
  revert queue c. induction fuel as [|fuel IH]; intros queue c Hi HN Hf E.
  { destruct queue; [|cbn in Hf; lia]. injection E as <-. split; [done|]. split; [intros h Hh; by apply elem_of_nil in Hh|]. intros k [x Hk] Hn. congruence. }
  destruct queue as [|h queue]; [injection E as <-; split; [done|]; split; [intros h Hh; by apply elem_of_nil in Hh|]; intros k [x Hk] Hn; congruence|].
  cbn [processQueue] in E. unfold hbind at 1, hget at 1 in E. unfold hbind at 1 in E.
  pose proof (processChildren_inv N (S (size (pool c))) h fl [] c Hi HN) as Hi1. fold (pool c) in E.
  destruct (processChildren _ h fl [] c) as [[l|e] c1] eqn:Ec; [|done]. cbn [snd] in Hi1.
  destruct (processChildren_drain N (S (size (pool c))) h fl [] c l c1 Hi HN (Nat.lt_succ_diag_r _) Ec) as (G1 & G2 & l' & -> & G3 & G4). cbn [app] in *.
  destruct (IH (queue ++ l') c1 Hi1 HN) as (F1 & F2 & F3); [rewrite length_app; cbn [length] in Hf; lia|exact E|].
  split; [by etrans|]. split.
  - intros h' [->|Hh]%elem_of_cons; [by eapply noChild_mono|]. apply F2. apply elem_of_app. by left.
  - intros k Hk Hn. destruct (pool c1 !! k) as [x|] eqn:Ek; [apply F3; [by exists x|done]|]. apply F2. apply elem_of_app. right. by apply G4.
Qed.
End parts.

(** ** Properties *)
Section properties.
Context `{Secp} `{ZkVerifier} `{Schnorr} (sha256 blake3 sha3 : bytes → bytes).
Context (engine : bytes → MsgTx → nat → Z → UtxoViewpoint → engineResult).
Context (genesisHash : bytes) (log2u8 : Z → Z).
Context (range : entryMap → list (OutPoint * option UtxoEntry)).
Context (rangeOrphans : gmap bytes orphanBlock → list (bytes * orphanBlock)).
Context (PruneBlocks : Z → gmap bytes MsgBlock → list bytes).
Context (indexConnect indexDisconnect : Block → list SpentTxOut → res verr unit).
Context (B : MsgBlock → Prop).

(** A block is submitted, with any flags and at any time; its result, which may
    be an error, is dropped. *)
Inductive submit : Chain → Chain → Prop :=
| submit_block c mb flags now adjusted : B mb →
    submit c (ProcessBlock sha256 blake3 sha3 engine genesisHash log2u8 now adjusted range rangeOrphans PruneBlocks
                indexConnect indexDisconnect mb flags c).2.

Hypothesis HB : ∀ b b', B b → B b' → BlockHash sha256 (mb_BlockHeader b) = BlockHash sha256 (mb_BlockHeader b') →
  bh_PrevBlock (mb_BlockHeader b) = bh_PrevBlock (mb_BlockHeader b').
Hypothesis Hhdr : ∀ b, B b → inU 32 (bh_Bits (mb_BlockHeader b)) ∧ inU 32 (unixOf (bh_Timestamp (mb_BlockHeader b))).
Hypothesis Hro : ∀ m, rangeOrphans m ≡ₚ map_to_list m.

(** C5. The invariant of the chain: after any number of blocks has been
    submitted, valid or not, in any order and with any failures in between
    (rejected blocks, database errors, reorganisations that stop half way), the
    block index is well formed, the best chain is exactly the branch of one of
    its blocks, the snapshot carries that block's hash and height, and at most
    26 orphans are held; as long as the heights stay in the int32 range. *)
Theorem chain_invariant (n : nat) (N : Z) (c c' : Chain)
  (Hinit : chainInv sha256 B N c) (HN : N + Z.of_nat n < 2 ^ 31) (Hrun : nsteps submit n c c') :
  wfIndex (ch_index c') ∧ (∃ t, tipAt c' t) ∧ (size (op_orphans (ch_orphans c')) <= 26)%nat.
Proof.
  assert (Hi : chainInv sha256 B (N + Z.of_nat n) c').
  { revert N Hinit HN. induction Hrun as [c|n c c1 c' Hst Hrun IH]; intros N Hinit HN; [by rewrite Z.add_0_r|].
    destruct Hst as [c mb fl now adjusted Hb]. replace (N + Z.of_nat (S n)) with (N + 1 + Z.of_nat n) by lia.
    apply IH; [|lia]. by apply ProcessBlock_inv; [..|lia|]. }
  destruct Hi as [I1 I2 I3 [I4 _] _]. split; [done|]. split; [done|]. unfold maxOrphanBlocks in I4. lia.
Qed.

(** No orphan is forgotten: when a block with a known parent is processed
    without an error, no orphan is left in the pool whose parent is that block or
    an orphan that left the pool with it; the loop over the queue of hashes runs
    to its end. *)
Lemma orphans_drained (N now adjusted : Z) (c c' : Chain) (mb : MsgBlock) (flags : Z) (main : bool)
  (Hinit : chainInv sha256 B N c) (HN : N + 1 < 2 ^ 31) (Hb : B mb)
  (Hrun : ProcessBlock sha256 blake3 sha3 engine genesisHash log2u8 now adjusted range rangeOrphans PruneBlocks
            indexConnect indexDisconnect mb flags c = (Ok (main, false), c')) :
  ∀ k o, op_orphans (ch_orphans c') !! k = Some o →
    ob_prev o ≠ BlockHash sha256 (mb_BlockHeader mb)
    ∧ ∀ k', is_Some (op_orphans (ch_orphans c) !! k') → op_orphans (ch_orphans c') !! k' = None → ob_prev o ≠ k'.
Proof.
  unfold ProcessBlock in Hrun. unfold hbind at 1, hget at 1 in Hrun. destruct (blockExists c _); [done|]. destruct (IsKnownOrphan _ _); [done|].
  unfold hbind at 1, hlift at 1 in Hrun. destruct (checkBlockSanity _ _ _ _ _ _) as [u|e]; [|done]. unfold hbind at 1 in Hrun.
  pose proof (adv_checkAgainstCheckpoint (mb_BlockHeader mb) flags c) as Ha.
  destruct (checkAgainstCheckpoint (mb_BlockHeader mb) flags c) as [[u1|e] c1]; [|done]. cbn [snd] in Ha.
  pose proof (advance_inv _ _ _ _ _ Ha Hinit) as Hi1. unfold hbind at 1, hget at 1 in Hrun. destruct (negb _).
  { unfold hbind in Hrun. by destruct (addOrphanBlock _ _ _ _ _). }
  unfold hbind at 1 in Hrun.
  pose proof (maybeAccept_inv sha256 sha3 engine genesisHash log2u8 now adjusted range PruneBlocks indexConnect indexDisconnect B Hhdr N c1 mb flags Hi1 HN Hb) as Hi2.
  pose proof (maybeAccept_orphans sha256 sha3 engine genesisHash log2u8 now adjusted range PruneBlocks indexConnect indexDisconnect c1 mb flags) as Ho.
  destruct (maybeAcceptBlock _ _ _ _ _ _ _ _ _ _ _ mb flags c1) as [[b|e] c2]; [|done]. cbn [snd] in *.
  unfold hbind at 1, processOrphans in Hrun. unfold hbind at 1, hget at 1 in Hrun.
  destruct (processQueue _ _ _ _ _ _ _ _ _ _ _ _ _ flags c2) as [[[]|e] c3] eqn:Eq; [|done]. injection Hrun as _ <-.
  assert (Hfuel : (size (pool c2) + length [BlockHash sha256 (mb_BlockHeader mb)] <= S (size (op_orphans (ch_orphans c2))))%nat)
    by (unfold pool; cbn [length]; lia).
  destruct (processQueue_drain sha256 sha3 engine genesisHash log2u8 now adjusted range rangeOrphans PruneBlocks indexConnect indexDisconnect
    B HB Hhdr Hro (N + 1) (S (size (op_orphans (ch_orphans c2)))) [BlockHash sha256 (mb_BlockHeader mb)] flags c2 c3 Hi2 HN Hfuel Eq) as (F1 & F2 & F3).
  intros k o Hk. split; [by eapply F2; [left|]|]. intros k' Hk' Hn. eapply F3; [|exact Hn|exact Hk].
  unfold pool. rewrite Ho, (a_orphans _ _ Ha). exact Hk'.
Qed.
End properties.

(** ** A block and the orphan that waits for it *)
#[local] Existing Instances ToySecp.toySecp ToySecp.toySecpLaws.
Module SubmitDemo.
Import Toy ToyAux.
Definition coinbase (version : Z) : MsgTx :=
  mkMsgTx version [mkTxIn (mkOutPoint zeroHash 4294967295) [x53; x00] [] 4294967295] [mkTxOut 50 ([x51; x20] ++ replicate 32 x02)] 0.
Definition blk (version txVersion : Z) (prev : bytes) : MsgBlock :=
  mkMsgBlock (mkMsgHeader (Some (mkZKCertificate zeroHash (replicate 164 x00) [x01]))
    (mkBlockHeader version prev (default [] (CalcMerkleRoot toySha [coinbase txVersion] false)) (timeUnix 2000) 0x1e010000 zeroHash))
    None [coinbase txVersion].
Definition next : MsgBlock := blk 6 7 (ReorgDemo.hashOf ReorgDemo.hA).
Definition child : MsgBlock := blk 7 8 (BlockHash toySha (mb_BlockHeader next)).
Definition B (b : MsgBlock) : Prop := b = next ∨ b = child.
Definition pool : orphanPool := match addOrphanBlock toySha map_to_list emptyPool child 5 with Ok p => p | Err _ => emptyPool end.
Definition chain : Chain := withOrphans ReorgDemo.chain pool.
Abbreviation process := (ProcessBlock (H := ToySecp.toySecp) (H0 := toyZk) (H1 := toySchnorr) toySha toySha toySha
  (λ _ _ _ _ _, EngineOk) zeroHash ReorgDemo.log2 7 (timeUnix 1000000) map_to_list map_to_list
  ReorgDemo.noPrune ReorgDemo.noIndex ReorgDemo.noIndex next (Z.lor BFFastAdd BFNoPoWCheck)).
End SubmitDemo.

Lemma submit_runs : (SubmitDemo.process SubmitDemo.chain).1 = Ok (true, false).
Proof. vm_compute. reflexivity. Qed.
Lemma submit_runs_eq : SubmitDemo.process SubmitDemo.chain = (Ok (true, false), (SubmitDemo.process SubmitDemo.chain).2).
Proof. rewrite <- submit_runs. apply surjective_pairing. Qed.

Lemma submit_blocks b b' : SubmitDemo.B b → SubmitDemo.B b' →
  BlockHash toySha (mb_BlockHeader b) = BlockHash toySha (mb_BlockHeader b') →
  bh_PrevBlock (mb_BlockHeader b) = bh_PrevBlock (mb_BlockHeader b').
Proof.
  assert (Hne : BlockHash toySha (mb_BlockHeader SubmitDemo.next) ≠ BlockHash toySha (mb_BlockHeader SubmitDemo.child)).
  { apply (bool_decide_unpack _). vm_compute. reflexivity. }
  intros [-> | ->] [-> | ->] E; [done|by destruct Hne|by destruct Hne|done].
Qed.
Lemma submit_headers b : SubmitDemo.B b → inU 32 (bh_Bits (mb_BlockHeader b)) ∧ inU 32 (unixOf (bh_Timestamp (mb_BlockHeader b))).
Proof. by intros [-> | ->]; repeat split. Qed.

Lemma submit_pool : poolOk toySha SubmitDemo.B SubmitDemo.pool ∧ poolBound SubmitDemo.pool.
Proof.
  destruct (addOrphan_ok toySha SubmitDemo.B submit_blocks map_to_list (λ m, reflexivity _) emptyPool SubmitDemo.child 5) as (p & E & P1 & P2 & _).
  - split; cbn; intros *; by rewrite ?lookup_empty.
  - unfold poolBound, maxOrphanBlocks. cbn. rewrite map_size_empty. lia.
  - by right.
  - apply lookup_empty.
  - unfold SubmitDemo.pool. by rewrite E.
Qed.

Lemma tipAt_withOrphans c p t : tipAt c t → tipAt (withOrphans c p) t.
Proof. intros [H1 H2]. by split. Qed.

Lemma submit_inv : chainInv toySha SubmitDemo.B 4 SubmitDemo.chain.
Proof.
  split.
  - exact demo_wfIndex.
  - exists 2%nat. apply tipAt_withOrphans, demo_tip.
  - apply submit_pool.
  - apply submit_pool.
  - intros p nd Hp. assert (Hall : map_Forall (λ _ nd, bn_height nd + 1 <= 4) (ch_heap SubmitDemo.chain)).
    { apply (bool_decide_unpack _). vm_compute. reflexivity. }
    assert (Hc : orphanCount SubmitDemo.chain = 1) by (vm_compute; reflexivity). rewrite Hc. exact (Hall p nd Hp).
Qed.

Lemma chain_invariant_witness :
  let c' := (SubmitDemo.process SubmitDemo.chain).2 in
  wfIndex (ch_index c') ∧ (∃ t, tipAt c' t) ∧ (size (op_orphans (ch_orphans c')) <= 26)%nat.
Proof.
  cbv zeta. apply (chain_invariant (H0 := ToyAux.toyZk) (H1 := Toy.toySchnorr) toySha toySha toySha (λ _ _ _ _ _, EngineOk) zeroHash ReorgDemo.log2
    map_to_list map_to_list ReorgDemo.noPrune ReorgDemo.noIndex ReorgDemo.noIndex SubmitDemo.B submit_blocks submit_headers (λ m, reflexivity _)
    1 4 SubmitDemo.chain).
  - exact submit_inv.
  - lia.
  - eapply nsteps_l; [|apply nsteps_O]. constructor. by left.
Defined.

Lemma orphans_drained_witness :
  (SubmitDemo.process SubmitDemo.chain).1 = Ok (true, false) ∧
  ∀ k o, op_orphans (ch_orphans (SubmitDemo.process SubmitDemo.chain).2) !! k = Some o →
    ob_prev o ≠ BlockHash toySha (mb_BlockHeader SubmitDemo.next)
    ∧ ∀ k', is_Some (op_orphans (ch_orphans SubmitDemo.chain) !! k') →
        op_orphans (ch_orphans (SubmitDemo.process SubmitDemo.chain).2) !! k' = None → ob_prev o ≠ k'.
Proof.
  split; [exact submit_runs|].
  exact (orphans_drained (H0 := ToyAux.toyZk) (H1 := Toy.toySchnorr) toySha toySha toySha (λ _ _ _ _ _, EngineOk) zeroHash ReorgDemo.log2
    map_to_list map_to_list ReorgDemo.noPrune ReorgDemo.noIndex ReorgDemo.noIndex SubmitDemo.B submit_blocks submit_headers (λ m, reflexivity _)
    4 7 (timeUnix 1000000) SubmitDemo.chain _ SubmitDemo.next (Z.lor BFFastAdd BFNoPoWCheck) true submit_inv ltac:(lia) (or_introl eq_refl) submit_runs_eq).
Defined.
