(* ===== verification/Interleave.v ===== *)
(** * Two runs that leave the state inconsistent
    (src/node/blockchain/chain.go)

    [connectBlock] releases the chain lock to send its notification and takes it
    again before it flushes; and an error of the UTXO cache in the middle of a
    block is not undone.  The runs of this file are executed on the definitions
    of [Chain]. *)
From Stdlib Require Import ZArith Lia Strings.Byte.
From stdpp Require Import base list gmap.
From S2P Require Import Prelude RuleErrors WireTx WireBlock Chaincfg Difficulty BlockIndex.
From S2P Require Import Merkle Script Utxo Covenant TxRules ScriptVal BlockRules Connect.
From S2P Require Import Compress ChainIO SizeHelper UtxoCache ThresholdState Orphans Detach Chain Reorg.
Open Scope Z_scope.
Open Scope list_scope.

#[local] Existing Instances ToySecp.toySecp ToySecp.toySecpLaws.

(** ** The flush after the lock was released *)
Module FlushRace.
Import ReorgDemo.
(** The chain at block 1, with a cache that is over its limit. *)
Definition smallCache (s : utxoCache) : utxoCache :=
  mkCache 1 (uc_cachedEntries s) (uc_totalEntryMemory s) (uc_lastFlushHash s) (uc_lastFlushTime s).
Definition chain1 : Chain :=
  mkChainState (mkChain RegressionNetParams [] ∅ index (viewOf (bi_heap index) 1) None None) (smallCache cache1) db
    (mkBestState (hashOf h1) 1 0x1b00ffff 0 0 1 2 0 0) emptyPool (mkCaches [] [] false) 0.
Abbreviation commit := (connectBlockCommit toySha 0 (timeUnix 1000000) map_to_list noPrune noIndex).
Abbreviation finish := (connectBlockFlush 0 map_to_list).
Abbreviation connectCoins := (cacheConnect toySha log2).

(** A first call connects block 3 and releases the lock; a second one connects
    block 4 and releases it as well; the first call goes on. *)
Definition race : chM unit :=
  do! stxos1 := connectCoins (Chain.toBlock toySha bB1 2) in
  do! state1 := commit 3%nat bB1 2 stxos1 in
  do! stxos2 := connectCoins (Chain.toBlock toySha bB2 3) in
  do! state2 := commit 4%nat bB2 3 stxos2 in
  finish state1.

(** What is on disk when the program stops there and is started again. *)
Definition after : Chain := (race chain1).2.
Definition fetchBlock (hash : bytes) : res verr (list MsgTx) :=
  match cdb_blocks (ch_db after) !! hash with Some b => Ok (mb_Transactions b) | None => Err OtherError end.
Definition restart : res verr unit :=
  (InitConsistentState log2 toySha map_to_list fetchBlock (ch_index after) (bc_bestChain (ch_b after)) 4%nat (λ _, false) 0
     (cdb_utxo (ch_db after)) (newUtxoCache log2 (100 * 2 ^ 20))).1.1.
End FlushRace.

(** A flush can record the wrong block: [connectBlock] flushes with the best
    state it computed before it released the lock.  When a second block is
    connected in between, the database gets the coins after the second block
    under the hash of the first one; the best state on disk is the second block.
    A restart then replays the second block on coins that already have it, and
    fails with an assertion error: the node does not start any more. *)
Lemma flush_marker_stale :
  (FlushRace.race FlushRace.chain1).1 = Ok tt
  ∧ ud_consistency (cdb_utxo (ch_db FlushRace.after)) = Some (ReorgDemo.hashOf ReorgDemo.hB1)
  ∧ bst_Hash (ch_snapshot FlushRace.after) = ReorgDemo.hashOf ReorgDemo.hB2
  ∧ rowCoin (dcoins FlushRace.after) (mkOutPoint (TxHash toySha (ReorgDemo.spendX 6)) 0) = Some (mkSpentTxOut 20 [x51] 3 false)
  ∧ FlushRace.restart = Err AssertError.
Proof. split; [|split; [|split; [|split]]]; vm_compute; reflexivity. Qed.

(** ** A block that fails in the cache *)
Module RefusedBlock.
Import ReorgDemo.
Definition txs : list MsgTx := [Demo.coinbase; Demo.txA; Demo.txB; Demo.txC].
Definition header : BlockHeader := mkBlockHeader 8 (hashOf h1) (default [] (CalcMerkleRoot toySha txs false)) (timeUnix 2000) 0x1e010000 zeroHash.
Definition block : MsgBlock := mkMsgBlock (mkMsgHeader (Some (mkZKCertificate zeroHash (replicate 164 x00) [x01])) header) None txs.
Definition bi : blockIndex := (Add toySha index header (Some 1%nat) statusDataStored 100).2.
Definition coinsDb : bucket := match dbPutUtxoEntry ∅ Demo.X Demo.entryX with Ok b => b | Err _ => ∅ end.
Definition chain : Chain :=
  mkChainState (mkChain RegressionNetParams [] ∅ bi (viewOf (bi_heap bi) 1) None None) (newUtxoCache log2 (100 * 2 ^ 20))
    (setUtxo db (mkUtxoDb coinsDb None)) (mkBestState (hashOf h1) 1 0x1b00ffff 0 0 1 2 0 0) emptyPool (mkCaches [] [] false) 0.
Abbreviation connectBest := (connectBestChain (H1 := Toy.toySchnorr) toySha toySha (λ _ _ _ _ _, EngineOk) zeroHash log2 0 (timeUnix 1000000)
  map_to_list noPrune noIndex noIndex).
Definition after : Chain := (connectBest 5%nat block 2 BFNone chain).2.
Definition reward : OutPoint := mkOutPoint (TxHash toySha Demo.coinbase) 0.
End RefusedBlock.

(** A block that is not connected can leave coins behind: the block
    [coinbase; A; B; C] of the double spend passes the connection check and is
    marked valid, then the UTXO cache fails on [A] with an assertion error.  The
    tip does not move, but the outputs of the transactions before [A] stay in the
    cache: the reward of the block that was not connected can be spent. *)
Lemma refused_block_leaves_coins :
  (RefusedBlock.connectBest 5%nat RefusedBlock.block 2 BFNone RefusedBlock.chain).1 = Err AssertError
  ∧ bc_bestChain (ch_b RefusedBlock.after) = bc_bestChain (ch_b RefusedBlock.chain)
  ∧ KnownValid (statusOf RefusedBlock.after 5) = true
  ∧ cacheRead RefusedBlock.chain RefusedBlock.reward = None
  ∧ coinOf (cacheRead RefusedBlock.after RefusedBlock.reward)
      = Some (mkSpentTxOut inferenceRewardGrains (Demo.p2tr x02) 2 true).
Proof. split; [|split; [|split; [|split]]]; vm_compute; reflexivity. Qed.
