(* ===== verification/BestChain.v ===== *)
(** * Best-chain selection
    (theorems on src/node/blockchain/chain.go)

    Which blocks a reorganisation detaches and attaches, and what
    [connectBestChain] does to the tip and its cumulative work. *)
From Stdlib Require Import ZArith Lia Strings.Byte.
From stdpp Require Import base list gmap.
From S2P Require Import Prelude RuleErrors WireTx WireBlock Chaincfg Difficulty BlockIndex.
From S2P Require Import Merkle Script Utxo Covenant TxRules ScriptVal BlockRules.
From S2P Require Import Compress ChainIO SizeHelper UtxoCache ThresholdState Orphans Detach Chain Reorg ChainInv.
Open Scope Z_scope.
Open Scope list_scope.

(** ** The nodes of a reorganisation *)
Lemma pathTo_S h k p q nd : h !! p = Some nd → bn_parent nd = Some q → pathTo h (S k) p = pathTo h k q ++ [p].
Proof. intros Hp Hq. cbn [pathTo]. rewrite Hp. cbn. by rewrite Hq. Qed.

Lemma elem_of_pathTo h k p x : x ∈ pathTo h k p → ∃ j, (j < k)%nat ∧ walk h j p = Some x.
Proof.
  revert p. induction k as [|k IH]; intros p Hin; cbn [pathTo] in Hin; [by apply elem_of_nil in Hin|].
  destruct (h !! p ≫= bn_parent) as [q|] eqn:Eq.
  - apply elem_of_app in Hin as [Hin|Hin].
    + destruct (IH q Hin) as (j & Hj & Hw). exists (S j). split; [lia|]. cbn. destruct (h !! p) as [nd|]; [|done]. cbn in *. by rewrite Eq.
    + apply list_elem_of_singleton in Hin as ->. exists 0%nat. split; [lia|done].
  - apply list_elem_of_singleton in Hin as ->. exists 0%nat. split; [lia|done].
Qed.

Lemma last_pathTo h k p : (0 < k)%nat → last (pathTo h k p) = Some p.
Proof. intros Hk. destruct k as [|k]; [lia|]. cbn [pathTo]. destruct (h !! p ≫= bn_parent); [apply last_snoc|done]. Qed.

Section nodes.
Context (c : Chain) (Hwf : wfHeap (ch_heap c)).

Lemma walk_ne k p nd f : ch_heap c !! p = Some nd → walk (ch_heap c) (S k) p = Some f → p ≠ f.
Proof.
  intros Hp Hw ->. destruct (walk_height _ Hwf (S k) f nd f Hp Hw) as (fn & Hf & Hh). rewrite Hp in Hf. injection Hf as <-. lia.
Qed.

Lemma attachScan_path k fuel p nd f acc : ch_heap c !! p = Some nd → walk (ch_heap c) k p = Some f → (k < fuel)%nat →
  (∀ x, x ∈ pathTo (ch_heap c) k p → KnownInvalid (statusOf c x) = false) →
  attachScan fuel c (Some p) (Some f) acc = (false, pathTo (ch_heap c) k p ++ acc).
Proof.
  revert fuel p nd acc. induction k as [|k IH]; intros fuel p nd acc Hp Hw Hf Hok; (destruct fuel as [|fuel]; [lia|]); cbn [attachScan].
  - injection Hw as ->. by rewrite bool_decide_true.
  - pose proof (walk_ne k p nd f Hp Hw) as Hne. rewrite bool_decide_false by congruence.
    cbn in Hw. rewrite Hp in Hw. cbn in Hw. destruct (bn_parent nd) as [q|] eqn:Hq; [|done]. cbn in Hw.
    rewrite (pathTo_S _ k p q nd Hp Hq) in Hok |- *. rewrite (Hok p) by (apply elem_of_app; right; by left).
    rewrite Hp. cbn [mbind option_bind]. rewrite Hq. destruct (wf_parent _ Hwf p nd q Hp Hq) as (qn & Hqn & _).
    rewrite (IH fuel q qn (p :: acc) Hqn Hw) by (lia || (intros x Hx; apply Hok, elem_of_app; by left)). by rewrite <- app_assoc.
Qed.

Lemma attachScan_invalid k fuel p nd f acc x : ch_heap c !! p = Some nd → walk (ch_heap c) k p = Some f → (k < fuel)%nat →
  x ∈ pathTo (ch_heap c) k p → KnownInvalid (statusOf c x) = true → (attachScan fuel c (Some p) (Some f) acc).1 = true.
Proof.
  revert fuel p nd acc. induction k as [|k IH]; intros fuel p nd acc Hp Hw Hf Hin Hx; [by apply elem_of_nil in Hin|].
  destruct fuel as [|fuel]; [lia|]; cbn [attachScan].
  pose proof (walk_ne k p nd f Hp Hw) as Hne. rewrite bool_decide_false by congruence.
  cbn in Hw. rewrite Hp in Hw. cbn in Hw. destruct (bn_parent nd) as [q|] eqn:Hq; [|done]. cbn in Hw.
  rewrite (pathTo_S _ k p q nd Hp Hq) in Hin. destruct (KnownInvalid (statusOf c p)) eqn:Ep; [done|].
  rewrite Hp. cbn [mbind option_bind]. rewrite Hq. destruct (wf_parent _ Hwf p nd q Hp Hq) as (qn & Hqn & _).
  apply elem_of_app in Hin as [Hin|Hin]; [|apply list_elem_of_singleton in Hin as ->; congruence]. eapply IH; [done|done|lia|done|done].
Qed.

Lemma detachScan_path k fuel t tn f : ch_heap c !! t = Some tn → walk (ch_heap c) k t = Some f → (k < fuel)%nat →
  detachScan fuel c (Some t) (Some f) = reverse (pathTo (ch_heap c) k t).
Proof.
  revert fuel t tn. induction k as [|k IH]; intros fuel t tn Ht Hw Hf; (destruct fuel as [|fuel]; [lia|]); cbn [detachScan].
  - injection Hw as ->. by rewrite bool_decide_true.
  - pose proof (walk_ne k t tn f Ht Hw) as Hne. rewrite bool_decide_false by congruence.
    cbn in Hw. rewrite Ht in Hw. cbn in Hw. destruct (bn_parent tn) as [q|] eqn:Hq; [|done]. cbn in Hw.
    rewrite (pathTo_S _ k t q tn Ht Hq), reverse_app. cbn [reverse rev_append app]. rewrite Ht. cbn [mbind option_bind]. rewrite Hq.
    destruct (wf_parent _ Hwf t tn q Ht Hq) as (qn & Hqn & _). by rewrite (IH fuel q qn Hqn Hw) by lia.
Qed.
End nodes.

(** The blocks of a reorganisation: when the branch of [p] shares a block
    with the best chain, [getReorganizeNodes] finds the last one they share, the
    fork; if no block between the fork and [p] is known to be invalid it returns
    the blocks from the tip down to the fork, tip first, and those from the fork
    up to [p], lowest first, and changes nothing; otherwise it returns two empty
    lists. *)
Lemma reorganize_nodes_correct (c : Chain) (t p q g : ptr) (nd : blockNode)
  (Htip : treeAt c t) (Hp : ch_heap c !! p = Some nd) (Hq : bn_parent nd = Some q)
  (Hg : onBranch (ch_heap c) p g) (Hg' : onBranch (ch_heap c) t g)
  (Hpar : KnownInvalid (statusOf c q) = false) :
  ∃ f kd ka, onBranch (ch_heap c) t f ∧ (∀ x, onBranch (ch_heap c) p x → onBranch (ch_heap c) t x → onBranch (ch_heap c) f x)
    ∧ walk (ch_heap c) kd t = Some f ∧ walk (ch_heap c) ka p = Some f
    ∧ if bool_decide (Forall (λ x, KnownInvalid (statusOf c x) = false) (pathTo (ch_heap c) ka p))
      then getReorganizeNodes p c = (Ok (reverse (pathTo (ch_heap c) kd t), pathTo (ch_heap c) ka p), c)
      else (getReorganizeNodes p c).1 = Ok ([], []).
Proof.
  pose proof Htip as (Hwf & [tn Ht] & Hv). pose proof (findFork_spec _ Hwf t tn p nd Ht Hp) as Hs.
  destruct (findFork (ch_heap c) (viewOf (ch_heap c) t) (Some p)) as [f|] eqn:Ef; cbn [forkSpec] in Hs; [|by destruct (Hs g Hg)].
  destruct Hs as (Hpf & Htf & Hmax).
  destruct (onBranch_height _ Hwf t tn f Ht Htf) as (fn & Hf & Hle & Hwt). destruct (onBranch_height _ Hwf p nd f Hp Hpf) as (fn' & Hf' & Hle' & Hwp).
  assert (fn' = fn) as -> by congruence. pose proof (wf_range _ Hwf f fn Hf).
  set (kd := Z.to_nat (bn_height tn - bn_height fn)) in *. set (ka := Z.to_nat (bn_height nd - bn_height fn)) in *.
  assert (Hka : (ka < S (Z.to_nat (bn_height nd)))%nat) by (unfold ka; lia).
  assert (Hkd : (kd < S (Z.to_nat (bn_height tn)))%nat) by (unfold kd; lia). clearbody ka kd.
  exists f, kd, ka. do 4 (split; [done|]). unfold getReorganizeNodes, hbind, hget. rewrite Hp. cbn [hsome hret]. unfold hret. rewrite Hq. cbn [hsome].
  unfold hret. rewrite Hpar, Hv, Ef, (treeAt_tip c t Htip). case_bool_decide as Hall.
  - rewrite Forall_forall in Hall. rewrite (attachScan_path c Hwf ka _ p nd f [] Hp Hwp Hka Hall).
    rewrite app_nil_r. unfold heightOf. rewrite Ht. cbn [fmap option_fmap option_map default from_option].
    rewrite (detachScan_path c Hwf kd _ t tn f Ht Hwt) by done. done.
  - apply not_Forall_Exists in Hall; [|apply _]. apply Exists_exists in Hall as (x & Hx & Hinv).
    assert (Hix : KnownInvalid (statusOf c x) = true) by (cbn in Hinv; destruct (KnownInvalid (statusOf c x)); [done|by destruct Hinv]).
    pose proof (attachScan_invalid c Hwf ka (S (Z.to_nat (bn_height nd))) p nd f [] x Hp Hwp Hka Hx Hix) as Ei.
    destruct (attachScan _ _ _ _ _) as [inv l]. cbn in Ei. subst inv.
    destruct (markAll l statusInvalidAncestor c) as [[u|e] c1] eqn:Em; [done|].
    exfalso. clear -Em. revert c Em. induction l as [|y l IH]; intros c; cbn [markAll]; [done|]. unfold hbind, markFlags, hmod. apply IH.
Qed.

Lemma demo_nodes_facts : ch_heap ReorgDemo.chain !! 4%nat ≫= bn_parent = Some 3%nat
  ∧ walk (ch_heap ReorgDemo.chain) 3 4%nat = Some 0%nat ∧ walk (ch_heap ReorgDemo.chain) 2 2%nat = Some 0%nat
  ∧ KnownInvalid (statusOf ReorgDemo.chain 3) = false.
Proof. split; [|split; [|split]]; vm_compute; reflexivity. Qed.

Lemma reorganize_nodes_correct_witness : ∃ f kd ka,
  walk (ch_heap ReorgDemo.chain) kd 2%nat = Some f ∧ walk (ch_heap ReorgDemo.chain) ka 4%nat = Some f
  ∧ if bool_decide (Forall (λ x, KnownInvalid (statusOf ReorgDemo.chain x) = false) (pathTo (ch_heap ReorgDemo.chain) ka 4%nat))
    then getReorganizeNodes 4%nat ReorgDemo.chain
      = (Ok (reverse (pathTo (ch_heap ReorgDemo.chain) kd 2%nat), pathTo (ch_heap ReorgDemo.chain) ka 4%nat), ReorgDemo.chain)
    else (getReorganizeNodes 4%nat ReorgDemo.chain).1 = Ok ([], []).
Proof.
  destruct demo_nodes_facts as (F1 & F2 & F3 & F4). destruct (ch_heap ReorgDemo.chain !! 4%nat) as [nd|] eqn:E; [|discriminate F1].
  destruct (reorganize_nodes_correct ReorgDemo.chain 2 4 3 0 nd (proj1 demo_tip) E F1 (ex_intro _ 3%nat F2) (ex_intro _ 2%nat F3) F4)
    as (f & kd & ka & _ & _ & G1 & G2 & G3).
  exists f, kd, ka. split; [exact G1|]. split; [exact G2|exact G3].
Defined.

(** ** The tip after a block *)

(** The rule on plain numbers. *)
Lemma ShouldChangeTip_spec cw pw cb pb : ShouldChangeTip cw pw cb pb = true ↔ cw < pw ∧ Z.min cb pb / 4 <= pw - cw.
Proof.
  unfold ShouldChangeTip. assert (Hm : (if pb <? cb then pb else cb) = Z.min cb pb) by (destruct (Z.ltb_spec pb cb); lia).
  rewrite Hm, Z.shiftr_div_pow2 by lia. change (2 ^ 2) with 4. destruct (Z.leb_spec pw cw); [lia|]. rewrite Z.leb_le. lia.
Qed.

Section tip.
Context `{Secp} `{ZkVerifier} `{Schnorr} (sha256 blake3 sha3 : bytes → bytes).
Context (engine : bytes → MsgTx → nat → Z → UtxoViewpoint → engineResult).
Context (genesisHash : bytes) (log2u8 : Z → Z) (now adjusted : Z).
Context (range : entryMap → list (OutPoint * option UtxoEntry)).
Context (PruneBlocks : Z → gmap bytes MsgBlock → list bytes).
Context (indexConnect indexDisconnect : Block → list SpentTxOut → res verr unit).

Lemma adv_run {A} (m : chM A) c a c' : adv m → m c = (Ok a, c') → advance c c'.
Proof. intros Hm E. pose proof (Hm c) as Ha. by rewrite E in Ha. Qed.

Lemma advance_still_tip c c' t : advance c c' → bc_bestChain (ch_b c') = bc_bestChain (ch_b c) → ch_snapshot c' = ch_snapshot c →
  tipAt c t → tipAt c' t.
Proof.
  intros Ha Hv Hs [(Hw & [tn Ht] & Hview) (tn' & Htn & Hsn)]. destruct (bare_lookup _ _ (a_tree _ _ Ha) t tn' Htn) as [st Hst]. split.
  - split; [eapply bare_wfHeap; [apply Ha|done]|]. split; [by eexists|]. rewrite Hv, Hview. symmetry. apply bare_viewOf, Ha.
  - exists (setStatus tn' st). by rewrite Hs.
Qed.

Lemma connectBlock_tip p mb h st c c' t : tipAt c t →
  connectBlock sha256 now adjusted range PruneBlocks indexConnect p mb h st c = (Ok tt, c') → tipAt c' p.
Proof.
  intros Ht E. unfold connectBlock in E. hstep E. rename E0 into Ec.
  assert (Hc0 : tipAt c0 p).
  { unfold connectBlockCommit in Ec. hstep Ec. destruct (negb _) in Ec; [done|]. destruct (negb _) in Ec; [done|].
    hstep Ec. rename E1 into Hnd. hstep Ec. pose proof (adv_run _ _ _ _ (adv_isCurrent adjusted) E1) as A1.
    hstep Ec. assert (A2 : advance c1 c2) by (destruct a2; [exact (adv_run _ _ _ _ (adv_warn a1) E2)|by injection E2 as <- <-]).
    hstep Ec. pose proof (adv_run _ _ _ _ (adv_flushIndex sha256) E3) as A3. hstep Ec. hstep Ec.
    pose proof (adv_run _ _ _ _ (adv_dbUpdate _) E4) as A4. cbv [hbind hmod hret] in Ec. injection Ec as <- <-.
    assert (A : advance c c4) by (etrans; [exact A1|]; etrans; [exact A2|]; by etrans).
    destruct (a_tip _ _ A t Ht) as [t' [Ht' _]]. destruct (advance_node c c4 p a1 A Hnd) as [st' Hst']. split.
    - eapply treeAt_move; [exact Ht'|done|by eexists|]. by exists (ch_heap c4).
    - exists (setStatus a1 st'). split; [exact Hst'|]. done. }
  unfold connectBlockFlush in E. destruct (negb _) in E; [by injection E as <-|].
  eapply advance_still_tip; [exact (adv_run _ _ _ _ (adv_dbUpdate _) E)| | |exact Hc0];
    unfold dbUpdate in E; destruct (flushInTx _ _ _ _ _ _) as [[[u|e] db] s]; try done; by injection E as <-.
Qed.

Lemma attachAll_tip nodes blocks c c' t : tipAt c t →
  attachAll sha256 log2u8 now adjusted range PruneBlocks indexConnect nodes blocks c = (Ok tt, c') → tipAt c' (default t (last nodes)).
Proof.
  revert blocks c t. induction nodes as [|p nodes IH]; intros blocks c t Ht E; [by injection E as <-|].
  destruct blocks as [|mb blocks]; [done|]. cbn [attachAll] in E. hstep E. hstep E. hstep E. destruct a1.
  assert (Ht1 : tipAt c0 t).
  { eapply advance_still_tip; [exact (adv_run _ _ _ _ (adv_cacheConnect sha256 log2u8 _) E1)| | |exact Ht];
      unfold cacheConnect in E1; destruct (UtxoCache.connectTransactions _ _ _ _ _ _) as [[x|e] s]; try done; by injection E1 as <- <-. }
  pose proof (connectBlock_tip _ _ _ _ _ _ _ Ht1 E2) as Ht2. pose proof (IH _ _ _ Ht2 E) as Ht3.
  rewrite last_cons. by destruct (last nodes).
Qed.

Lemma flushIndex_tip c r c' t : tipAt c t → flushIndex c = (r, c') → tipAt c' t.
Proof.
  intros Ht E. pose proof (adv_flushIndex sha256 c) as Ha. rewrite E in Ha. eapply advance_still_tip; [exact Ha| | |exact Ht];
    unfold flushIndex, hmod in E; destruct (flushToDB true (ch_index c)); by injection E as <- <-.
Qed.
Lemma markFlags_tip p fl c r c' t : tipAt c t → markFlags p fl c = (r, c') → tipAt c' t.
Proof.
  intros Ht E. pose proof (adv_markFlags p fl c) as Ha. rewrite E in Ha. eapply advance_still_tip; [exact Ha| | |exact Ht]; by injection E as <- <-.
Qed.
Lemma markAll_tip l fl c r c' t : tipAt c t → markAll l fl c = (r, c') → tipAt c' t.
Proof.
  revert c. induction l as [|p l IH]; intros c Ht E; cbn [markAll] in E; [by injection E as <- <-|]. unfold hbind, markFlags, hmod in E.
  eapply IH; [|exact E]. eapply (markFlags_tip p fl); [exact Ht|reflexivity].
Qed.
Lemma getReorganizeNodes_tip p c r c' t : tipAt c t → getReorganizeNodes p c = (r, c') → tipAt c' t.
Proof.
  intros Ht E. unfold getReorganizeNodes, hbind, hget in E. destruct (ch_heap c !! p) as [nd|]; [|by injection E as <- <-]. cbn [hsome] in E. unfold hret in E.
  destruct (bn_parent nd) as [q|]; [|by injection E as <- <-]. cbn [hsome] in E. unfold hret in E. destruct (KnownInvalid _).
  - destruct (markFlags p statusInvalidAncestor c) as [[u|e] c1] eqn:Em; injection E as <- <-; by eapply markFlags_tip.
  - destruct (attachScan _ _ _ _ _) as [[] l]; [|by injection E as <- <-].
    destruct (markAll l statusInvalidAncestor c) as [[u|e] c1] eqn:Em; injection E as <- <-; by eapply markAll_tip.
Qed.

(** Work does not grow downwards. *)
Lemma walk_work h (Hwf : wfHeap h) k p nd f fn : h !! p = Some nd → walk h k p = Some f → h !! f = Some fn → bn_workSum fn <= bn_workSum nd.
Proof.
  revert p nd. induction k as [|k IH]; intros p nd Hp Hw Hf; [injection Hw as ->; rewrite Hp in Hf; injection Hf as <-; lia|].
  cbn in Hw. rewrite Hp in Hw. cbn in Hw. destruct (bn_parent nd) as [q|] eqn:Hq; [|done]. cbn in Hw.
  destruct (Hwf p nd Hp) as (_ & _ & _ & Hpar). rewrite Hq in Hpar. destruct Hpar as (qn & Hqn & _ & Hwork & _).
  pose proof (IH q qn Hqn Hw Hf). pose proof (CalcWork_nonneg (bn_bits nd)). lia.
Qed.

Abbreviation connectBestChain :=
  (connectBestChain sha256 sha3 engine genesisHash log2u8 now adjusted range PruneBlocks indexConnect indexDisconnect).

(** C6. Best-chain selection: when [connectBestChain] returns without an error
    for a block [p] whose branch meets the best chain, either the tip is now
    [p], which has strictly more cumulative work than the old tip and is ahead by
    at least a quarter of the work of the lighter of the two tip blocks, and the
    call reports a main-chain block; or the tip has not moved, because [p] does not
    extend it and is not ahead by that much (the call reports a side chain), or because its branch holds a
    block known to be invalid (the call reports a main-chain block although it is
    not on the main chain). *)
Theorem best_chain_selection (c c' : Chain) (t p q g : ptr) (tn nd : blockNode) (mb : MsgBlock) (h fl : Z) (b : bool)
  (Htip : tipAt c t) (Ht : ch_heap c !! t = Some tn) (Hp : ch_heap c !! p = Some nd) (Hq : bn_parent nd = Some q)
  (Hext : bh_PrevBlock (mb_BlockHeader mb) = bn_hash tn → q = t) (Hwork : 0 < CalcWork (bn_bits nd))
  (Hg : onBranch (ch_heap c) p g) (Hg' : onBranch (ch_heap c) t g)
  (Hrun : connectBestChain p mb h fl c = (Ok b, c')) :
  (b = true ∧ tipAt c' p ∧ bn_workSum tn < bn_workSum nd
   ∧ Z.min (CalcWork (bn_bits tn)) (CalcWork (bn_bits nd)) / 4 <= bn_workSum nd - bn_workSum tn)
  ∨ tipAt c' t ∧ (b = false ∧ (bn_workSum nd <= bn_workSum tn
                     ∨ bn_workSum nd - bn_workSum tn < Z.min (CalcWork (bn_bits tn)) (CalcWork (bn_bits nd)) / 4)
               ∨ b = true ∧ ∃ x, onBranch (ch_heap c) p x ∧ KnownInvalid (statusOf c x) = true).
Proof.
  pose proof Htip as [Htree _]. pose proof Htree as (Hwf & _). unfold connectBestChain in Hrun. hstep Hrun.
  rewrite (treeAt_tipNode c t tn Htree Ht) in E. injection E as <-. hstep Hrun. rewrite Hp in E. injection E as <-.
  case_bool_decide as Eprev.
  - left. hstep Hrun. set (fast := _ || _) in Hrun. hstep Hrun.
    assert (A1 : advance c c0).
    { destruct fast; [by injection E as <- <-|].
      pose proof (adv_checkConnect sha256 sha3 engine genesisHash log2u8 p mb h (mkView ∅ (bh_PrevBlock (mb_BlockHeader mb))) c) as Ha.
      destruct (checkConnect _ _ _ _ _ _ _ _ _ c) as [[v|e] c1].
      - hstep E. etrans; [exact Ha|]. etrans; [exact (adv_run _ _ _ _ (adv_markFlags p statusValid) E0)|exact (adv_run _ _ _ _ (adv_flushIndex sha256) E)].
      - destruct (isRuleError e); [|done]. by repeat (hstep E). }
    hstep Hrun. pose proof (adv_run _ _ _ _ (adv_cacheConnect sha256 log2u8 _) E0) as A2.
    hstep Hrun. destruct (a_tip _ _ (transitivity A1 A2) t Htip) as [t1 Ht1].
    destruct (connectBlock _ _ _ _ _ _ p mb h _ c1) as [[u|e] c3] eqn:Ecb; [|by repeat (hstep E1)]. injection E1 as <- <-. destruct u.
    pose proof (connectBlock_tip p mb h _ _ _ t1 Ht1 Ecb) as Hp1. hstep Hrun. hstep Hrun.
    assert (Hp2 : tipAt c2 p).
    { destruct (_ || _) in E1; [|by injection E1 as _ <-]. hstep E1. eapply flushIndex_tip; [|exact E1]. by eapply markFlags_tip. }
    injection Hrun as <- <-. split; [done|]. split; [done|]. rewrite (Hext Eprev) in Hq.
    destruct (Hwf p nd Hp) as (_ & _ & _ & Hpar). rewrite Hq in Hpar. destruct Hpar as (qn & Hqn & _ & Hws & _).
    rewrite Ht in Hqn. injection Hqn as <-. split; [lia|]. pose proof (CalcWork_nonneg (bn_bits tn)).
    assert (Z.min (CalcWork (bn_bits tn)) (CalcWork (bn_bits nd)) / 4 <= CalcWork (bn_bits nd)) by (apply Z.div_le_upper_bound; lia). lia.
  - destruct (ShouldChangeTip _ _ _ _) eqn:Esc; cbn [negb] in Hrun.
    + apply ShouldChangeTip_spec in Esc as [Hmore Hthr]. hstep Hrun. rename E into En. destruct a as [dn an]. cbn [fst snd] in Hrun.
      destruct (reorganizeChain _ _ _ _ _ _ _ _ _ _ _ dn an c0) as [[[]|e] c1] eqn:Er; [|by hstep Hrun]. hstep Hrun. injection Hrun as <- <-.
      rename E into Ef. destruct (KnownInvalid (statusOf c q)) eqn:Ekq.
      * right. pose proof (getReorganizeNodes_tip _ _ _ _ t Htip En) as Ht0.
        assert (dn = [] ∧ an = []) as [-> ->].
        { unfold getReorganizeNodes, hbind, hget in En. rewrite Hp in En. cbn [hsome] in En. unfold hret in En. rewrite Hq in En. cbn [hsome] in En.
          unfold hret in En. rewrite Ekq in En. by injection En as <- <- _. }
        unfold reorganizeChain in Er. hstep Er. injection E as <- <-. hstep Er. hstep Er. injection E0 as _ <-. injection Er as <-.
        split; [by eapply flushIndex_tip|]. right. split; [done|]. exists q. split; [|done]. exists 1%nat. cbn. rewrite Hp. cbn. by rewrite Hq.
      * destruct (reorganize_nodes_correct c t p q g nd Htree Hp Hq Hg Hg' Ekq) as (f & kd & ka & Hf & Hmax & Hwt & Hwp & Hres).
        case_bool_decide as Hall.
        -- left. rewrite Hres in En. injection En as <- <- <-. split; [done|]. split; [|done].
           unfold reorganizeChain in Er. hstep Er. hstep Er. hstep Er. destruct a1.
           pose proof (adv_run _ _ _ _ (adv_verifyReorg _ _ _ _ _ _ _) E) as A1. pose proof (adv_run _ _ _ _ (adv_detachAll _ _ _ _ _ _ _ _) E1) as A2.
           destruct (a_tip _ _ (transitivity A1 A2) t Htip) as [t1 Ht1]. pose proof (attachAll_tip _ _ _ _ _ Ht1 Er) as Hlast.
           assert (Hka : (0 < ka)%nat).
           { destruct ka; [|lia]. injection Hwp as <-. destruct Hf as [k Hk]. pose proof (walk_work _ Hwf k t tn p nd Ht Hk Hp). lia. }
           rewrite last_pathTo in Hlast by done. by eapply flushIndex_tip.
        -- right. pose proof (getReorganizeNodes_tip _ _ _ _ t Htip En) as Ht0. rewrite En in Hres. injection Hres as -> ->.
           unfold reorganizeChain in Er. hstep Er. injection E as <- <-. hstep Er. hstep Er. injection E0 as _ <-. injection Er as <-.
           split; [by eapply flushIndex_tip|]. right. split; [done|]. apply not_Forall_Exists in Hall; [|apply _].
           apply Exists_exists in Hall as (x & Hx & Hinv). destruct (elem_of_pathTo _ _ _ _ Hx) as (j & _ & Hj).
           exists x. split; [by exists j|]. cbn in Hinv. destruct (KnownInvalid (statusOf c x)); [done|by destruct Hinv].
    + right. hstep Hrun. hstep Hrun. injection Hrun as <- <-. split; [done|]. left. split; [done|].
      destruct (decide (bn_workSum nd <= bn_workSum tn)) as [Hle|Hgt]; [by left|]. right.
      assert (Hn : ¬ (bn_workSum tn < bn_workSum nd ∧ Z.min (CalcWork (bn_bits tn)) (CalcWork (bn_bits nd)) / 4 <= bn_workSum nd - bn_workSum tn)).
      { rewrite <- ShouldChangeTip_spec. by rewrite Esc. }
      lia.
Qed.
End tip.

#[local] Existing Instances ToySecp.toySecp ToySecp.toySecpLaws.
Module SelectDemo.
Abbreviation run := (connectBestChain (H := ToySecp.toySecp) (H1 := Toy.toySchnorr) toySha toySha (λ _ _ _ _ _, EngineOk) zeroHash ReorgDemo.log2
  0 (timeUnix 1000000) map_to_list ReorgDemo.noPrune ReorgDemo.noIndex ReorgDemo.noIndex 4%nat ReorgDemo.bB2 3 BFNone).
End SelectDemo.

Lemma select_runs : (SelectDemo.run ReorgDemo.chain).1 = Ok true.
Proof. vm_compute. reflexivity. Qed.
Lemma select_runs_eq : SelectDemo.run ReorgDemo.chain = (Ok true, (SelectDemo.run ReorgDemo.chain).2).
Proof. rewrite <- select_runs. apply surjective_pairing. Qed.
Lemma select_facts :
  bool_decide (Some (bh_PrevBlock (mb_BlockHeader ReorgDemo.bB2)) = bn_hash <$> ch_heap ReorgDemo.chain !! 2%nat) = false
  ∧ CalcWork <$> (bn_bits <$> ch_heap ReorgDemo.chain !! 4%nat) = Some (CalcWork 0x1b00ffff)
  ∧ 0 <? CalcWork 0x1b00ffff = true.
Proof. split; [|split]; vm_compute; reflexivity. Qed.

Lemma best_chain_selection_witness :
  ∃ tn nd, ch_heap ReorgDemo.chain !! 2%nat = Some tn ∧ ch_heap ReorgDemo.chain !! 4%nat = Some nd
  ∧ ((true = true ∧ tipAt (SelectDemo.run ReorgDemo.chain).2 4 ∧ bn_workSum tn < bn_workSum nd
      ∧ Z.min (CalcWork (bn_bits tn)) (CalcWork (bn_bits nd)) / 4 <= bn_workSum nd - bn_workSum tn)
     ∨ tipAt (SelectDemo.run ReorgDemo.chain).2 2 ∧ (true = false ∧ (bn_workSum nd <= bn_workSum tn
           ∨ bn_workSum nd - bn_workSum tn < Z.min (CalcWork (bn_bits tn)) (CalcWork (bn_bits nd)) / 4)
         ∨ true = true ∧ ∃ x, onBranch (ch_heap ReorgDemo.chain) 4 x ∧ KnownInvalid (statusOf ReorgDemo.chain x) = true)).
Proof.
  destruct demo_nodes_facts as (F1 & F2 & F3 & _). destruct select_facts as (S1 & S2 & S3).
  destruct (ch_heap ReorgDemo.chain !! 4%nat) as [nd|] eqn:E4; [|discriminate F1].
  destruct (ch_heap ReorgDemo.chain !! 2%nat) as [tn|] eqn:E2; [|vm_compute in E2; discriminate E2].
  exists tn, nd. split; [reflexivity|]. split; [reflexivity|].
  apply (best_chain_selection (H1 := Toy.toySchnorr) toySha toySha (λ _ _ _ _ _, EngineOk) zeroHash ReorgDemo.log2
    0 (timeUnix 1000000) map_to_list ReorgDemo.noPrune ReorgDemo.noIndex ReorgDemo.noIndex ReorgDemo.chain _ 2 4 3 0 tn nd ReorgDemo.bB2 3 BFNone true).
  - exact demo_tip.
  - exact E2.
  - exact E4.
  - exact F1.
  - intros E. exfalso. apply bool_decide_eq_false in S1. apply S1. rewrite E. reflexivity.
  - injection S2 as S2. rewrite S2. by apply Z.ltb_lt.
  - exact (ex_intro _ 3%nat F2).
  - exact (ex_intro _ 2%nat F3).
  - exact select_runs_eq.
Defined.
