(* ===== verification/ScriptStack.v ===== *)
(** * The stack of the script engine (src/node/txscript/stack.go)

    A stack is the Go slice, the top of the stack at its end.  Operations are
    computations over a state that survives an error, as the receiver does. *)
From Stdlib Require Import ZArith Lia Strings.Byte.
From stdpp Require Import base list gmap.
From S2P Require Import Prelude WireTx Script.
Open Scope Z_scope.
Open Scope list_scope.

(** What the engine can return besides nil: a script error, an error of package
    schnorr, another error, or a run-time panic.  [OutOfFuel] is not an error of
    the program: it marks a loop that was cut off. *)
Inductive everr :=
| ScriptError (c : scriptErr)
| KeyError
| PlainError
| EnginePanic
| OutOfFuel.
#[export] Instance everr_eq_dec : EqDecision everr.
Proof. solve_decision. Defined.

(** ** Computations over a state *)
Definition sM (S A : Type) : Type := S → res everr A * S.
Definition sret {S A} (a : A) : sM S A := λ s, (Ok a, s).
Definition serr {S A} (e : everr) : sM S A := λ s, (Err e, s).
Definition sbind {S A B} (m : sM S A) (k : A → sM S B) : sM S B :=
  λ s, match m s with
       | (Ok a, s') => k a s'
       | (Err e, s') => (Err e, s')
       end.
Definition sget {S A} (f : S → A) : sM S A := λ s, (Ok (f s), s).
Definition smod {S} (f : S → S) : sM S unit := λ s, (Ok tt, f s).
Definition sres {S A} (r : res everr A) : sM S A := λ s, (r, s).
Definition fail {S A} (c : scriptErr) : sM S A := serr (ScriptError c).
Notation "'vm!' x ':=' m 'in' k" := (sbind m (λ x, k))
  (at level 200, x pattern, m at level 200, k at level 200) : go_scope.

(** [for i := n; i > 0; i-- { m }] *)
Fixpoint stimes {S} (n : nat) (m : sM S unit) : sM S unit :=
  match n with
  | O => sret tt
  | Datatypes.S n' => vm! _ := m in stimes n' m
  end.

(** ** Booleans *)
(** The value is false when every byte is zero, except that the last one may be
    the sign bit (negative zero). *)
Fixpoint asBool (t : bytes) : bool :=
  match t with
  | [] => false
  | b :: t' => if bool_decide (b = x00) then asBool t'
               else negb (bool_decide (t' = [] ∧ b = x80))
  end.
Definition fromBool (v : bool) : bytes := if v then [x01] else [].

(** ** The stack *)
Record stack := mkStack {
  stk : list bytes;
  verifyMinimalData : bool }.
Definition withStk (s : stack) (l : list bytes) : stack := mkStack l (verifyMinimalData s).

Definition Depth (s : stack) : Z := i32 (zlen (stk s)).

Definition liftNum (r : res scriptErr Z) : res everr Z :=
  match r with Ok n => Ok n | Err c => Err (ScriptError c) end.

Definition PushByteArray (so : bytes) : sM stack unit := smod (λ s, withStk s (stk s ++ [so])).
Definition PushInt (val : Z) : sM stack unit :=
  match scriptNumBytes val with Some b => PushByteArray b | None => serr EnginePanic end.
Definition PushBool (val : bool) : sM stack unit := PushByteArray (fromBool val).

Definition nipN (idx : Z) : sM stack bytes := λ s,
  let sz := Depth s in
  if (idx <? 0) || (sz - 1 <? idx) then (Err (ScriptError ErrInvalidStackOperation), s) else
  match stk s !! Z.to_nat (sz - idx - 1) with
  | None => (Err EnginePanic, s)
  | Some so =>
      (Ok so, withStk s (if idx =? 0 then take (Z.to_nat (sz - 1)) (stk s)
                         else if idx =? sz - 1 then drop 1 (stk s)
                         else take (Z.to_nat (sz - idx - 1)) (stk s) ++ slice (Z.to_nat (sz - idx)) (Z.to_nat sz) (stk s)))
  end.
Definition NipN (idx : Z) : sM stack unit := vm! _ := nipN idx in sret tt.

Definition PopByteArray : sM stack bytes := nipN 0.
Definition PopInt : sM stack Z :=
  vm! so := PopByteArray in
  λ s, (liftNum (MakeScriptNum so (verifyMinimalData s) maxScriptNumLen), s).
Definition PopBool : sM stack bool := vm! so := PopByteArray in sret (asBool so).

Definition PeekByteArray (idx : Z) : sM stack bytes := λ s,
  let sz := Depth s in
  if (idx <? 0) || (sz <=? idx) then (Err (ScriptError ErrInvalidStackOperation), s) else
  match stk s !! Z.to_nat (sz - idx - 1) with
  | None => (Err EnginePanic, s)
  | Some so => (Ok so, s)
  end.
Definition PeekInt (idx : Z) : sM stack Z :=
  vm! so := PeekByteArray idx in
  λ s, (liftNum (MakeScriptNum so (verifyMinimalData s) maxScriptNumLen), s).
Definition PeekBool (idx : Z) : sM stack bool := vm! so := PeekByteArray idx in sret (asBool so).

Definition Tuck : sM stack unit :=
  vm! so2 := PopByteArray in
  vm! so1 := PopByteArray in
  vm! _ := PushByteArray so2 in
  vm! _ := PushByteArray so1 in
  PushByteArray so2.

Definition DropN (n : Z) : sM stack unit :=
  if n <? 1 then fail ErrInvalidStackOperation else
  stimes (Z.to_nat n) (vm! _ := PopByteArray in sret tt).
Definition DupN (n : Z) : sM stack unit :=
  if n <? 1 then fail ErrInvalidStackOperation else
  stimes (Z.to_nat n) (vm! so := PeekByteArray (i32 (n - 1)) in PushByteArray so).
Definition RotN (n : Z) : sM stack unit :=
  if n <? 1 then fail ErrInvalidStackOperation else
  let entry := i32 (3 * n - 1) in
  stimes (Z.to_nat n) (vm! so := nipN entry in PushByteArray so).
Definition SwapN (n : Z) : sM stack unit :=
  if n <? 1 then fail ErrInvalidStackOperation else
  let entry := i32 (2 * n - 1) in
  stimes (Z.to_nat n) (vm! so := nipN entry in PushByteArray so).
Definition OverN (n : Z) : sM stack unit :=
  if n <? 1 then fail ErrInvalidStackOperation else
  let entry := i32 (2 * n - 1) in
  stimes (Z.to_nat n) (vm! so := PeekByteArray entry in PushByteArray so).
Definition PickN (n : Z) : sM stack unit := vm! so := PeekByteArray n in PushByteArray so.
Definition RollN (n : Z) : sM stack unit := vm! so := nipN n in PushByteArray so.

(** [getStack] and [setStack] of engine.go: the error of [DropN] on an empty
    stack is ignored. *)
Definition getStack (s : stack) : list bytes :=
  reverse ((λ i, match (PeekByteArray (Z.of_nat i) s).1 with Ok b => b | Err _ => [] end) <$> seq 0 (Z.to_nat (Depth s))).
Definition setStack (data : list bytes) : sM stack unit := λ s,
  let '(_, s') := DropN (Depth s) s in (Ok tt, withStk s' (stk s' ++ data)).

(** ** What the operations do *)
Create HintDb stk.

(** A stack the Go code can index with an int32. *)
Abbreviation fits l := (zlen l < 2 ^ 31).

Lemma zlen_snoc {A} (l : list A) x : zlen (l ++ [x]) = zlen l + 1.
Proof. unfold zlen. rewrite length_app. cbn. lia. Qed.
Lemma zlen_cons_r {A} (x : A) l : zlen (x :: l) = zlen l + 1.
Proof. unfold zlen. cbn [length]. lia. Qed.
#[export] Hint Rewrite @zlen_snoc @zlen_app @zlen_cons_r @zlen_nil : stk.

Lemma Depth_fits l m : fits l → Depth (mkStack l m) = zlen l.
Proof. intros H. apply wrapS_small; [lia|]. unfold inS. pose proof (zlen_nonneg l). cbn [stk]. lia. Qed.

Lemma nipN_app m l1 x l2 : fits (l1 ++ x :: l2) →
  nipN (zlen l2) (mkStack (l1 ++ x :: l2) m) = (Ok x, mkStack (l1 ++ l2) m).
Proof.
  intros Hf. unfold nipN. rewrite Depth_fits by done. autorewrite with stk in *.
  pose proof (zlen_nonneg l1). pose proof (zlen_nonneg l2).
  rewrite (proj2 (Z.ltb_ge (zlen l2) 0)), (proj2 (Z.ltb_ge _ (zlen l2))) by lia. cbn [orb stk withStk verifyMinimalData].
  rewrite (list_lookup_middle l1 l2 x (Z.to_nat _)) by (unfold zlen in *; lia).
  unfold withStk. cbn [verifyMinimalData stk]. do 2 f_equal. destruct (Z.eqb_spec (zlen l2) 0) as [E|E].
  - destruct l2; [|unfold zlen in E; cbn in E; lia]. rewrite app_nil_r, take_app_length'; [done|unfold zlen; cbn; lia].
  - destruct (Z.eqb_spec (zlen l2) (zlen l1 + (zlen l2 + 1) - 1)) as [E'|E'].
    + destruct l1; [done|unfold zlen in E'; cbn in E'; lia].
    + rewrite take_app_length' by (unfold zlen; lia). f_equal. rewrite (cons_middle x l1 l2), app_assoc.
      rewrite slice_app_skip by (rewrite length_app; unfold zlen; cbn; lia). rewrite length_app. cbn [length].
      replace (Z.to_nat _ - _)%nat with 0%nat by (unfold zlen; lia). apply slice_all. unfold zlen. lia.
Qed.

Lemma Peek_app m l1 x l2 : fits (l1 ++ x :: l2) →
  PeekByteArray (zlen l2) (mkStack (l1 ++ x :: l2) m) = (Ok x, mkStack (l1 ++ x :: l2) m).
Proof.
  intros Hf. unfold PeekByteArray. rewrite Depth_fits by done. autorewrite with stk in *.
  pose proof (zlen_nonneg l1). pose proof (zlen_nonneg l2).
  rewrite (proj2 (Z.ltb_ge (zlen l2) 0)), (proj2 (Z.leb_gt _ (zlen l2))) by lia. cbn [orb stk].
  by rewrite (list_lookup_middle l1 l2 x (Z.to_nat _)) by (unfold zlen in *; lia).
Qed.

Lemma nipN_short m l idx : fits l → idx < 0 ∨ zlen l <= idx →
  nipN idx (mkStack l m) = (Err (ScriptError ErrInvalidStackOperation), mkStack l m).
Proof.
  intros Hf H. unfold nipN. rewrite Depth_fits by done.
  destruct (Z.ltb_spec idx 0), (Z.ltb_spec (zlen l - 1) idx); try done. lia.
Qed.
Lemma Peek_short m l idx : fits l → idx < 0 ∨ zlen l <= idx →
  PeekByteArray idx (mkStack l m) = (Err (ScriptError ErrInvalidStackOperation), mkStack l m).
Proof.
  intros Hf H. unfold PeekByteArray. rewrite Depth_fits by done.
  destruct (Z.ltb_spec idx 0), (Z.leb_spec (zlen l) idx); try done. lia.
Qed.

Lemma Pop_snoc m l x : fits (l ++ [x]) → PopByteArray (mkStack (l ++ [x]) m) = (Ok x, mkStack l m).
Proof. intros H. pose proof (nipN_app m l x [] H) as E. by rewrite app_nil_r in E. Qed.
Lemma Pop_nil m : PopByteArray (mkStack [] m) = (Err (ScriptError ErrInvalidStackOperation), mkStack [] m).
Proof. done. Qed.

Lemma sbind_ok {S A B} (m : sM S A) (k : A → sM S B) s a s' : m s = (Ok a, s') → sbind m k s = k a s'.
Proof. intros H. unfold sbind. by rewrite H. Qed.
Lemma sbind_err {S A B} (m : sM S A) (k : A → sM S B) s e s' : m s = (Err e, s') → sbind m k s = (Err e, s').
Proof. intros H. unfold sbind. by rewrite H. Qed.
Lemma Push_stk x l m : PushByteArray x (mkStack l m) = (Ok tt, mkStack (l ++ [x]) m).
Proof. done. Qed.
Lemma stimes_S {S} n (m : sM S unit) s s' : m s = (Ok tt, s') → stimes (Datatypes.S n) m s = stimes n m s'.
Proof. apply (sbind_ok m (λ _, stimes n m)). Qed.
Lemma stimes_err {S} n (m : sM S unit) s e s' : (0 < n)%nat → m s = (Err e, s') → stimes n m s = (Err e, s').
Proof. intros Hn H. destruct n; [lia|]. by apply (sbind_err m). Qed.

(** The loops: moving, respectively copying, the items of [a] to the top. *)
Lemma nip_loop m l a r e : fits (l ++ a ++ r) → e = zlen (a ++ r) - 1 →
  stimes (length a) (vm! so := nipN e in PushByteArray so) (mkStack (l ++ a ++ r) m) = (Ok tt, mkStack (l ++ r ++ a) m).
Proof.
  revert r. induction a as [|x a IH]; intros r Hf He; [cbn; by rewrite app_nil_r|].
  cbn [app length] in *. autorewrite with stk in He. assert (E : e = zlen (a ++ r)) by (autorewrite with stk; lia).
  pose proof (nipN_app m l x (a ++ r) Hf) as N. rewrite <- E in N.
  erewrite stimes_S by (rewrite (sbind_ok _ _ _ _ _ N); apply Push_stk).
  rewrite <- !app_assoc. rewrite (IH (r ++ [x])); [by rewrite <- app_assoc| |]; autorewrite with stk in *; lia.
Qed.

Lemma peek_loop m l a r e : fits (l ++ a ++ r ++ a) → e = zlen (a ++ r) - 1 →
  stimes (length a) (vm! so := PeekByteArray e in PushByteArray so) (mkStack (l ++ a ++ r) m) = (Ok tt, mkStack (l ++ a ++ r ++ a) m).
Proof.
  revert l r. induction a as [|x a IH]; intros l r Hf He; [cbn; by rewrite app_nil_r|].
  cbn [app length] in *. autorewrite with stk in He, Hf. pose proof (zlen_nonneg a). pose proof (zlen_nonneg r). assert (E : e = zlen (a ++ r)) by (autorewrite with stk; lia).
  pose proof (Peek_app m l x (a ++ r) ltac:(autorewrite with stk in *; lia)) as N. rewrite <- E in N.
  erewrite stimes_S by (rewrite (sbind_ok _ _ _ _ _ N); apply Push_stk).
  pose proof (IH (l ++ [x]) (r ++ [x])) as IH'. rewrite <- !app_assoc in IH'. cbn [app] in IH'.
  rewrite <- app_assoc. cbn [app]. rewrite <- app_assoc.
  rewrite IH'; [done| |]; autorewrite with stk in *; lia.
Qed.

Lemma drop_loop m l a : fits (l ++ a) →
  stimes (length a) (vm! _ := PopByteArray in sret tt) (mkStack (l ++ a) m) = (Ok tt, mkStack l m).
Proof.
  induction a as [|x a IH] using rev_ind; intros Hf; [cbn; by rewrite app_nil_r|].
  rewrite length_app, Nat.add_comm. cbn [Nat.add length]. rewrite app_assoc in *.
  erewrite stimes_S by (by rewrite (sbind_ok _ _ _ _ _ (Pop_snoc m _ _ Hf))). apply IH. autorewrite with stk in *. lia.
Qed.

Lemma i32_id z : 0 <= z < 2 ^ 31 → i32 z = z.
Proof. intros H. apply wrapS_small; [lia|]. unfold inS. lia. Qed.

(** The guard [n < 1] and the loop bounds, for the group words. *)
Ltac words Hn :=
  rewrite (proj2 (Z.ltb_ge _ 1) Hn), ?i32_id by (autorewrite with stk in *; lia).
Ltac loop_bound a := replace (Z.to_nat _) with (length a) by (unfold zlen in *; lia).

Lemma DropN_app n l a m : 1 <= n → zlen a = n → fits (l ++ a) → DropN n (mkStack (l ++ a) m) = (Ok tt, mkStack l m).
Proof. intros Hn Ha Hf. unfold DropN. words Hn. loop_bound a. by apply drop_loop. Qed.
Lemma DupN_app n l a m : 1 <= n → zlen a = n → fits (l ++ a ++ a) → DupN n (mkStack (l ++ a) m) = (Ok tt, mkStack (l ++ a ++ a) m).
Proof.
  intros Hn Ha Hf. unfold DupN. pose proof (zlen_nonneg l). words Hn. loop_bound a.
  pose proof (peek_loop m l a [] (n - 1)) as E. rewrite app_nil_r in E. apply E; autorewrite with stk in *; lia.
Qed.
Lemma OverN_app n l a b m : 1 <= n → zlen a = n → zlen b = n → fits (l ++ a ++ b ++ a) →
  OverN n (mkStack (l ++ a ++ b) m) = (Ok tt, mkStack (l ++ a ++ b ++ a) m).
Proof.
  intros Hn Ha Hb Hf. unfold OverN. pose proof (zlen_nonneg l). words Hn. loop_bound a.
  apply peek_loop; autorewrite with stk in *; lia.
Qed.
Lemma SwapN_app n l a b m : 1 <= n → zlen a = n → zlen b = n → fits (l ++ a ++ b) →
  SwapN n (mkStack (l ++ a ++ b) m) = (Ok tt, mkStack (l ++ b ++ a) m).
Proof.
  intros Hn Ha Hb Hf. unfold SwapN. pose proof (zlen_nonneg l). words Hn. loop_bound a.
  apply nip_loop; autorewrite with stk in *; lia.
Qed.
Lemma RotN_app n l a b c m : 1 <= n → zlen a = n → zlen b = n → zlen c = n → fits (l ++ a ++ b ++ c) →
  RotN n (mkStack (l ++ a ++ b ++ c) m) = (Ok tt, mkStack (l ++ b ++ c ++ a) m).
Proof.
  intros Hn Ha Hb Hc Hf. unfold RotN. pose proof (zlen_nonneg l). words Hn. loop_bound a.
  pose proof (nip_loop m l a (b ++ c) (3 * n - 1)) as E. rewrite <- app_assoc in E. apply E; autorewrite with stk in *; lia.
Qed.
Lemma PickN_app n l x a m : zlen a = n → fits (l ++ x :: a) → PickN n (mkStack (l ++ x :: a) m) = (Ok tt, mkStack (l ++ x :: a ++ [x]) m).
Proof.
  intros <- Hf. unfold PickN. rewrite (sbind_ok _ _ _ _ _ (Peek_app m l x a Hf)), Push_stk. by rewrite <- app_assoc.
Qed.
Lemma RollN_app n l x a m : zlen a = n → fits (l ++ x :: a) → RollN n (mkStack (l ++ x :: a) m) = (Ok tt, mkStack (l ++ a ++ [x]) m).
Proof. intros <- Hf. unfold RollN. rewrite (sbind_ok _ _ _ _ _ (nipN_app m l x a Hf)), Push_stk. by rewrite <- app_assoc. Qed.
Lemma NipN_app n l x a m : zlen a = n → fits (l ++ x :: a) → NipN n (mkStack (l ++ x :: a) m) = (Ok tt, mkStack (l ++ a) m).
Proof. intros <- Hf. unfold NipN. by rewrite (sbind_ok _ _ _ _ _ (nipN_app m l x a Hf)). Qed.
Lemma Tuck_app l x y m : fits (l ++ [x; y]) → Tuck (mkStack (l ++ [x; y]) m) = (Ok tt, mkStack (l ++ [y; x; y]) m).
Proof.
  intros Hf. unfold Tuck. replace (l ++ [x; y]) with ((l ++ [x]) ++ [y]) in * by (by rewrite <- app_assoc).
  rewrite (sbind_ok _ _ _ _ _ (Pop_snoc m (l ++ [x]) y Hf)).
  rewrite (sbind_ok _ _ _ _ _ (Pop_snoc m l x ltac:(autorewrite with stk in *; lia))).
  do 2 (erewrite sbind_ok by apply Push_stk). rewrite Push_stk. by rewrite <- !app_assoc.
Qed.

Lemma drop_loop_short m l n : (length l < n)%nat → fits l →
  (stimes n (vm! _ := PopByteArray in sret tt) (mkStack l m)).1 = Err (ScriptError ErrInvalidStackOperation).
Proof.
  revert n. induction l as [|x l IH] using rev_ind; intros n Hn Hf.
  - by rewrite (stimes_err n _ _ _ _ Hn (sbind_err _ _ _ _ _ (Pop_nil m))).
  - destruct n; [lia|]. rewrite length_app in Hn. cbn [length] in Hn.
    erewrite stimes_S by (by rewrite (sbind_ok _ _ _ _ _ (Pop_snoc m _ _ Hf))). apply IH; [lia|]. autorewrite with stk in Hf. lia.
Qed.

(** A word whose loop starts with a failing access. *)
Lemma loop_short {S} n m (k : bytes → sM S unit) s : (0 < n)%nat → m s = (Err (ScriptError ErrInvalidStackOperation), s) →
  (stimes n (sbind m k) s).1 = Err (ScriptError ErrInvalidStackOperation).
Proof. intros Hn Hm. by rewrite (stimes_err n _ _ _ _ Hn (sbind_err _ _ _ _ _ Hm)). Qed.

(** The words that move items: on a stack with enough items each one does
    what its comment draws ([DropN], [DupN], [OverN], [SwapN], [RotN] on groups of
    [n] items, [NipN], [PickN], [RollN] on the item below [n] others, [Tuck]), and
    on a stack with too few items each one fails with ErrInvalidStackOperation. *)
Lemma stack_words_correct (n : Z) (l a b c : list bytes) (x y : bytes) (m : bool)
  (Hn : 1 <= n) (Ha : zlen a = n) (Hb : zlen b = n) (Hc : zlen c = n) (Hf : zlen l + 4 * n + 2 < 2 ^ 31) :
  let st k := mkStack k m in
  (DropN n (st (l ++ a)) = (Ok tt, st l)
   ∧ DupN n (st (l ++ a)) = (Ok tt, st (l ++ a ++ a))
   ∧ OverN n (st (l ++ a ++ b)) = (Ok tt, st (l ++ a ++ b ++ a))
   ∧ SwapN n (st (l ++ a ++ b)) = (Ok tt, st (l ++ b ++ a))
   ∧ RotN n (st (l ++ a ++ b ++ c)) = (Ok tt, st (l ++ b ++ c ++ a)))
  ∧ (NipN n (st (l ++ x :: a)) = (Ok tt, st (l ++ a))
     ∧ PickN n (st (l ++ x :: a)) = (Ok tt, st (l ++ x :: a ++ [x]))
     ∧ RollN n (st (l ++ x :: a)) = (Ok tt, st (l ++ a ++ [x]))
     ∧ Tuck (st (l ++ [x; y])) = (Ok tt, st (l ++ [y; x; y])))
  ∧ (∀ k, zlen k < n → (DropN n (st k)).1 = Err (ScriptError ErrInvalidStackOperation)
       ∧ (DupN n (st k)).1 = Err (ScriptError ErrInvalidStackOperation))
  ∧ (∀ k, zlen k < 2 * n → (OverN n (st k)).1 = Err (ScriptError ErrInvalidStackOperation)
       ∧ (SwapN n (st k)).1 = Err (ScriptError ErrInvalidStackOperation))
  ∧ (∀ k, zlen k < 3 * n → (RotN n (st k)).1 = Err (ScriptError ErrInvalidStackOperation))
  ∧ ∀ k, zlen k <= n → (NipN n (st k)).1 = Err (ScriptError ErrInvalidStackOperation)
       ∧ (PickN n (st k)).1 = Err (ScriptError ErrInvalidStackOperation)
       ∧ (RollN n (st k)).1 = Err (ScriptError ErrInvalidStackOperation).
Proof.
  cbv zeta. pose proof (zlen_nonneg l) as Hl. split; [|split; [|split; [|split; [|split]]]].
  - split; [|split; [|split; [|split]]]; [apply DropN_app|apply DupN_app|apply OverN_app|apply SwapN_app|apply RotN_app];
      autorewrite with stk; lia.
  - split; [|split; [|split]]; [apply NipN_app|apply PickN_app|apply RollN_app|apply Tuck_app]; autorewrite with stk; lia.
  - intros k Hk. split; unfold DropN, DupN; words Hn.
    + apply drop_loop_short; unfold zlen in *; lia.
    + apply loop_short; [lia|]. apply Peek_short; lia.
  - intros k Hk. split; unfold OverN, SwapN; words Hn; (apply loop_short; [lia|]); [apply Peek_short|apply nipN_short]; lia.
  - intros k Hk. unfold RotN. words Hn. apply loop_short; [lia|]. apply nipN_short; lia.
  - intros k Hk. split; [|split]; unfold NipN, PickN, RollN.
    + by rewrite (sbind_err _ _ _ _ _ (nipN_short m k n ltac:(lia) ltac:(lia))).
    + by rewrite (sbind_err _ _ _ _ _ (Peek_short m k n ltac:(lia) ltac:(lia))).
    + by rewrite (sbind_err _ _ _ _ _ (nipN_short m k n ltac:(lia) ltac:(lia))).
Qed.

Lemma stack_words_correct_witness :
  RotN 1 (mkStack [[x07]; [x01]; [x02]; [x03]] true) = (Ok tt, mkStack [[x07]; [x02]; [x03]; [x01]] true).
Proof.
  pose proof (stack_words_correct 1 [[x07]] [[x01]] [[x02]] [[x03]] [] [] true ltac:(lia) eq_refl eq_refl eq_refl ltac:(vm_compute; reflexivity)) as H.
  cbv zeta in H. exact (proj2 (proj2 (proj2 (proj2 (proj1 H))))).
Defined.
