(* ===== verification/SigHash.v ===== *)
(** * Signature hashes and their caches
    (src/node/txscript/hashcache.go, sighash.go, sigcache.go)

    The midstates a transaction's signature hashes share, the hash a taproot
    signature signs, and the cache of signatures that were found valid.  A
    [PrevOutputFetcher] is a function to the spent output, [None] for nil. *)
From Stdlib Require Import ZArith Lia Strings.Byte Strings.String.
From stdpp Require Import base list gmap.
From S2P Require Import Prelude WireTx Merkle Script ScriptStack.
Open Scope Z_scope.
Open Scope list_scope.

(** ** Hash types *)
Definition SigHashDefault : Z := 0x00.
Definition SigHashAll : Z := 0x1.
Definition SigHashNone : Z := 0x2.
Definition SigHashSingle : Z := 0x3.
Definition SigHashAnyOneCanPay : Z := 0x80.
Definition sigHashMask : Z := 0x1f.
Definition blankCodeSepValue : Z := 4294967295.

Definition isValidTaprootSigHash (hashType : Z) : bool :=
  (hashType =? SigHashDefault) || (hashType =? SigHashAll) || (hashType =? SigHashNone) || (hashType =? SigHashSingle)
  || (hashType =? 0x81) || (hashType =? 0x82) || (hashType =? 0x83).

Definition PrevOutputFetcher : Type := OutPoint → option TxOut.
Definition CannedPrevOutputFetcher (pkScript : bytes) (amt : Z) : PrevOutputFetcher := λ _, Some (mkTxOut amt pkScript).
Definition MultiPrevOutFetcher : Type := gmap OutPoint TxOut.
Definition MultiFetchPrevOutput (m : MultiPrevOutFetcher) : PrevOutputFetcher := λ op, m !! op.
Definition AddPrevOut (m : MultiPrevOutFetcher) (op : OutPoint) (txOut : TxOut) : MultiPrevOutFetcher := <[op := txOut]> m.
Definition MergePrevOuts (m other : MultiPrevOutFetcher) : MultiPrevOutFetcher := other ∪ m.

Record TxSigHashes := mkTxSigHashes {
  HashPrevOutsV0 : bytes; HashSequenceV0 : bytes; HashOutputsV0 : bytes;
  HashPrevOutsV1 : bytes; HashSequenceV1 : bytes; HashOutputsV1 : bytes;
  HashInputScriptsV1 : bytes; HashInputAmountsV1 : bytes }.

(** [l[i]]; [None] is the index panic. *)
Definition at_ {A} (l : list A) (i : Z) : option A := if i <? 0 then None else l !! Z.to_nat i.

Section hashes.
Context (sha256 : bytes → bytes).

(** [chainhash.TaggedHash]: the digests of the tags are precomputed, with the
    values the hash of the tag has. *)
Definition TaggedHash (tag : bytes) (msgs : list bytes) : bytes := sha256 (sha256 tag ++ sha256 tag ++ concat msgs).
Definition tagBytes (s : string) : bytes := list_byte_of_string s.
Definition TagTapSighash : bytes := tagBytes "TapSighash".
Definition TagTapLeaf : bytes := tagBytes "TapLeaf".
Definition TagTapBranch : bytes := tagBytes "TapBranch".
Definition TagTapTweak : bytes := tagBytes "TapTweak".

(** ** Midstates *)
(** The strings that are hashed; a nil output is a panic. *)
Definition prevOutsString (tx : MsgTx) : bytes :=
  concat ((λ i, op_Hash (ti_PreviousOutPoint i) ++ le_encode 4 (op_Index (ti_PreviousOutPoint i))) <$> tx_TxIn tx).
Definition sequenceString (tx : MsgTx) : bytes := concat ((λ i, le_encode 4 (ti_Sequence i)) <$> tx_TxIn tx).
Definition outputsString (tx : MsgTx) : bytes := concat (WriteTxOutBuf <$> tx_TxOut tx).
Definition spentOutputs (fetch : PrevOutputFetcher) (tx : MsgTx) : option (list TxOut) :=
  mapM (λ i, fetch (ti_PreviousOutPoint i)) (tx_TxIn tx).
Definition amountsString (outs : list TxOut) : bytes := concat ((λ o, le_encode 8 (u64 (to_Value o))) <$> outs).
Definition scriptsString (outs : list TxOut) : bytes := concat ((λ o, WriteVarBytesBuf (to_PkScript o)) <$> outs).

Definition calcHashPrevOuts (tx : MsgTx) : bytes := sha256 (prevOutsString tx).
Definition calcHashSequence (tx : MsgTx) : bytes := sha256 (sequenceString tx).
Definition calcHashOutputs (tx : MsgTx) : bytes := sha256 (outputsString tx).
Definition calcHashInputAmounts (tx : MsgTx) (fetch : PrevOutputFetcher) : option bytes :=
  outs ← spentOutputs fetch tx; Some (sha256 (amountsString outs)).
Definition calcHashInputScripts (tx : MsgTx) (fetch : PrevOutputFetcher) : option bytes :=
  outs ← spentOutputs fetch tx; Some (sha256 (scriptsString outs)).

(** The loop over the inputs: whether the midstates of segwit v0 and of taproot
    are needed.  It stops when both are. *)
Fixpoint scanInputs (fetch : PrevOutputFetcher) (ins : list TxIn) (hasV0Inputs hasV1Inputs : bool) : option (bool * bool) :=
  match ins with
  | [] => Some (hasV0Inputs, hasV1Inputs)
  | txIn :: ins' =>
      let outpoint := ti_PreviousOutPoint txIn in
      if (op_Index outpoint =? 4294967295) && bool_decide (op_Hash outpoint = zeroHash)
      then scanInputs fetch ins' true hasV1Inputs
      else
        prevOut ← fetch outpoint;
        let '(v0, v1) := if isWitnessTaprootScript (to_PkScript prevOut) then (hasV0Inputs, true) else (true, hasV1Inputs) in
        if v0 && v1 then Some (v0, v1) else scanInputs fetch ins' v0 v1
  end.

Definition NewTxSigHashes (tx : MsgTx) (fetch : PrevOutputFetcher) : option TxSigHashes :=
  '(hasV0Inputs, hasV1Inputs) ← scanInputs fetch (tx_TxIn tx) false false;
  let p1 := calcHashPrevOuts tx in
  let s1 := calcHashSequence tx in
  let o1 := calcHashOutputs tx in
  let v0 h := if hasV0Inputs : bool then sha256 h else zeroHash in
  '(am, sc) ← (if hasV1Inputs : bool
               then am ← calcHashInputAmounts tx fetch; sc ← calcHashInputScripts tx fetch; Some (am, sc)
               else Some (zeroHash, zeroHash));
  Some (mkTxSigHashes (v0 p1) (v0 s1) (v0 o1) p1 s1 o1 sc am).

(** ** The hash of segwit v0 *)
Definition calcWitnessSignatureHashRaw (subScript : bytes) (sigHashes : option TxSigHashes) (hashType : Z) (tx : MsgTx)
    (idx amt : Z) : res everr bytes :=
  if zlen (tx_TxIn tx) - 1 <? idx then Err PlainError else
  match sigHashes, at_ (tx_TxIn tx) idx with
  | Some sh, Some txIn =>
      let anyone := negb (Z.land hashType SigHashAnyOneCanPay =? 0) in
      let single := Z.land hashType sigHashMask =? SigHashSingle in
      let none := Z.land hashType sigHashMask =? SigHashNone in
      let outputs :=
        if negb single && negb none then Some (HashOutputsV0 sh)
        else if single && (idx <? zlen (tx_TxOut tx))
             then o ← at_ (tx_TxOut tx) idx; Some (DoubleHashH sha256 (WriteTxOutBuf o))
             else Some zeroHash in
      match outputs with
      | None => Err EnginePanic
      | Some outputs =>
          Ok (DoubleHashH sha256
            (le_encode 4 (u32 (tx_Version tx))
             ++ (if anyone then zeroHash else HashPrevOutsV0 sh)
             ++ (if negb anyone && negb single && negb none then HashSequenceV0 sh else zeroHash)
             ++ op_Hash (ti_PreviousOutPoint txIn) ++ le_encode 4 (op_Index (ti_PreviousOutPoint txIn))
             ++ WriteVarBytesBuf subScript
             ++ le_encode 8 (u64 amt) ++ le_encode 4 (ti_Sequence txIn)
             ++ outputs
             ++ le_encode 4 (tx_LockTime tx) ++ le_encode 4 (u32 hashType)))
      end
  | _, _ => Err EnginePanic
  end.

Definition CalcWitnessSigHash (script : bytes) (sigHashes : option TxSigHashes) (hType : Z) (tx : MsgTx) (idx amt : Z) : res everr bytes :=
  match checkScriptParses script with
  | Some c => Err (ScriptError c)
  | None => calcWitnessSignatureHashRaw script sigHashes hType tx idx amt
  end.

(** ** The hash of taproot and tapscript *)
Record taprootSigHashOptions := mkOpts {
  extFlag : Z;
  annexHash : option bytes;
  opt_tapLeafHash : bytes;
  keyVersion : Z;
  opt_codeSepPos : Z }.
Definition defaultTaprootSighashOptions : taprootSigHashOptions := mkOpts 0 None [] 0 0.
Definition baseSigHashExtFlag : Z := 0.
Definition tapscriptSighashExtFlag : Z := 1.

Definition writeDigestExtensions (o : taprootSigHashOptions) : bytes :=
  if extFlag o =? tapscriptSighashExtFlag
  then opt_tapLeafHash o ++ [z2b (keyVersion o)] ++ le_encode 4 (opt_codeSepPos o)
  else [].

Definition TaprootSigHashOption : Type := taprootSigHashOptions → taprootSigHashOptions.
Definition WithAnnex (annex : bytes) : TaprootSigHashOption := λ o,
  mkOpts (extFlag o) (Some (sha256 (WriteVarBytesBuf annex))) (opt_tapLeafHash o) (keyVersion o) (opt_codeSepPos o).
Definition WithBaseTapscriptVersion (codeSepPos : Z) (tapLeafHash : bytes) : TaprootSigHashOption := λ o,
  mkOpts tapscriptSighashExtFlag (annexHash o) tapLeafHash 0 codeSepPos.

(** The message that is hashed; [sigHashes] is a pointer that may be nil and is
    followed only where the hash type needs it. *)
Definition taprootSigMsg (sigHashes : option TxSigHashes) (hType : Z) (tx : MsgTx) (idx : Z)
    (fetch : PrevOutputFetcher) (opts : taprootSigHashOptions) : res everr bytes :=
  let need {A} (o : option A) : res everr A := match o with Some a => Ok a | None => Err EnginePanic end in
  let anyone := Z.land hType SigHashAnyOneCanPay =? SigHashAnyOneCanPay in
  let? inputs := if anyone then Ok [] else
                 let? sh := need sigHashes in
                 Ok (HashPrevOutsV1 sh ++ HashInputAmountsV1 sh ++ HashInputScriptsV1 sh ++ HashSequenceV1 sh) in
  let? outputs := if negb (Z.land hType SigHashSingle =? SigHashSingle) && negb (Z.land hType SigHashSingle =? SigHashNone)
                  then let? sh := need sigHashes in Ok (HashOutputsV1 sh) else Ok [] in
  let? input := need (at_ (tx_TxIn tx) idx) in
  let spendType := u8 (extFlag opts * 2 + match annexHash opts with Some _ => 1 | None => 0 end) in
  let? this := if anyone
               then let? prevOut := need (fetch (ti_PreviousOutPoint input)) in
                    Ok (writeOutPointBuf (ti_PreviousOutPoint input) ++ WriteTxOutBuf prevOut ++ le_encode 4 (ti_Sequence input))
               else Ok (le_encode 4 (u32 idx)) in
  let? single := if Z.land hType sigHashMask =? SigHashSingle
                 then if zlen (tx_TxOut tx) <=? idx then Err PlainError
                      else let? txOut := need (at_ (tx_TxOut tx) idx) in Ok (sha256 (WriteTxOutBuf txOut))
                 else Ok [] in
  Ok ([x00] ++ [z2b hType] ++ le_encode 4 (u32 (tx_Version tx)) ++ le_encode 4 (tx_LockTime tx) ++ inputs ++ outputs
      ++ [z2b spendType] ++ this ++ default [] (annexHash opts) ++ single ++ writeDigestExtensions opts).

Definition calcTaprootSignatureHashRaw (sigHashes : option TxSigHashes) (hType : Z) (tx : MsgTx) (idx : Z)
    (fetch : PrevOutputFetcher) (sigHashOpts : list TaprootSigHashOption) : res everr bytes :=
  let opts := foldl (λ o f, f o) defaultTaprootSighashOptions sigHashOpts in
  if negb (isValidTaprootSigHash hType) then Err PlainError else
  if zlen (tx_TxIn tx) - 1 <? idx then Err PlainError else
  let? sigMsg := taprootSigMsg sigHashes hType tx idx fetch opts in
  Ok (TaggedHash TagTapSighash [sigMsg]).

Definition CalcTaprootSignatureHash (sigHashes : option TxSigHashes) (hType : Z) (tx : MsgTx) (idx : Z)
    (fetch : PrevOutputFetcher) : res everr bytes :=
  calcTaprootSignatureHashRaw sigHashes hType tx idx fetch [].

(** ** The cache of midstates, by transaction hash *)
Definition HashCache : Type := gmap bytes TxSigHashes.
Definition AddSigHashes (h : HashCache) (tx : MsgTx) (fetch : PrevOutputFetcher) : option HashCache :=
  sh ← NewTxSigHashes tx fetch; Some (<[TxHash sha256 tx := sh]> h).
Definition ContainsHashes (h : HashCache) (txid : bytes) : bool := bool_decide (is_Some (h !! txid)).
Definition GetSigHashes (h : HashCache) (txid : bytes) : option TxSigHashes := h !! txid.
Definition PurgeSigHashes (h : HashCache) (txid : bytes) : HashCache := delete txid h.
End hashes.

(** ** The cache of valid signatures *)
Record sigCacheEntry := mkSigCacheEntry { sce_sig : bytes; sce_pubKey : bytes }.
Record SigCache := mkSigCache {
  validSigs : gmap bytes sigCacheEntry;
  maxEntries : Z }.
Definition NewSigCache (maxEntries : Z) : SigCache := mkSigCache ∅ maxEntries.

Definition Exists (s : SigCache) (sigHash sig pubKey : bytes) : bool :=
  match validSigs s !! sigHash with
  | Some entry => bool_decide (sce_pubKey entry = pubKey) && bool_decide (sce_sig entry = sig)
  | None => false
  end.

(** [pick] is the first key of the iteration over the map. *)
Definition AddSig (pick : gmap bytes sigCacheEntry → option bytes) (s : SigCache) (sigHash sig pubKey : bytes) : SigCache :=
  if maxEntries s <=? 0 then s else
  let sigs := if maxEntries s <? u64 (Z.of_nat (size (validSigs s)) + 1)
              then match pick (validSigs s) with Some k => delete k (validSigs s) | None => validSigs s end
              else validSigs s in
  mkSigCache (<[sigHash := mkSigCacheEntry sig pubKey]> sigs) (maxEntries s).

(** ** What the taproot hash commits to *)

(** A list of values with a prefix-free encoding is determined by the
    concatenation of their encodings. *)
Lemma concat_prefix_free {A} (enc : A → bytes) (P : A → Prop) (l l' : list A) :
  (∀ a b r r', P a → P b → enc a ++ r = enc b ++ r' → a = b ∧ r = r') → (∀ a, enc a ≠ []) →
  Forall P l → Forall P l' → concat (enc <$> l) = concat (enc <$> l') → l = l'.
Proof.
  intros Hpf Hne Hl. revert l'. induction Hl as [|a l Ha Hl IH]; intros [|b l'] Hl' E; [done| | |]; cbn in E.
  - destruct (enc b) eqn:Eb; [by destruct (Hne b)|done].
  - destruct (enc a) eqn:Ea; [by destruct (Hne a)|done].
  - apply Forall_cons in Hl' as [Hb Hl']. destruct (Hpf _ _ _ _ Ha Hb E) as [-> E']. f_equal. by apply IH.
Qed.

Lemma le_prefix_free n w a b r r' : w = 8 * Z.of_nat n → inU w a → inU w b →
  le_encode n a ++ r = le_encode n b ++ r' → a = b ∧ r = r'.
Proof.
  intros Hw Ha Hb E. apply app_inj_1 in E as [E ->]; [|by rewrite !length_le_encode]. split; [|done].
  by apply (le_encode_inj n w).
Qed.

(** A transaction with the field ranges of the Go types. *)
Definition wfSigTx (tx : MsgTx) : Prop :=
  inS 32 (tx_Version tx) ∧ inU 32 (tx_LockTime tx)
  ∧ Forall (λ i, wfOutPoint (ti_PreviousOutPoint i) ∧ inU 32 (ti_Sequence i)) (tx_TxIn tx)
  ∧ Forall wfTxOut (tx_TxOut tx).

Lemma prevOuts_inj tx tx' : wfSigTx tx → wfSigTx tx' → prevOutsString tx = prevOutsString tx' →
  ti_PreviousOutPoint <$> tx_TxIn tx = ti_PreviousOutPoint <$> tx_TxIn tx'.
Proof.
  intros (_ & _ & Hi & _) (_ & _ & Hi' & _) E.
  apply (concat_prefix_free writeOutPointBuf wfOutPoint); [intros ????; apply (codec_prefix_free writeOutPointBuf readOutPointBuf wfOutPoint)| | | |].
  - intros [h i] H. unfold writeOutPointBuf in H. apply (f_equal length) in H. rewrite length_app, length_le_encode in H. cbn in H. lia.
  - apply Forall_fmap. by eapply Forall_impl; [exact Hi|intros ? []].
  - apply Forall_fmap. by eapply Forall_impl; [exact Hi'|intros ? []].
  - unfold prevOutsString in E. by rewrite <- !list_fmap_compose.
Qed.

Lemma sequence_inj tx tx' : wfSigTx tx → wfSigTx tx' → sequenceString tx = sequenceString tx' →
  ti_Sequence <$> tx_TxIn tx = ti_Sequence <$> tx_TxIn tx'.
Proof.
  intros (_ & _ & Hi & _) (_ & _ & Hi' & _) E.
  apply (concat_prefix_free (le_encode 4) (inU 32)); [intros ????; by apply (le_prefix_free 4 32)|done| | |].
  - apply Forall_fmap. by eapply Forall_impl; [exact Hi|intros ? []].
  - apply Forall_fmap. by eapply Forall_impl; [exact Hi'|intros ? []].
  - unfold sequenceString in E. by rewrite <- !list_fmap_compose.
Qed.

Lemma TxOut_prefix_free a b r r' : wfTxOut a → wfTxOut b → WriteTxOutBuf a ++ r = WriteTxOutBuf b ++ r' → a = b ∧ r = r'.
Proof.
  intros Ha Hb. pose proof Ha as [_ Ha']. pose proof Hb as [_ Hb'].
  eapply (codec_prefix_free WriteTxOutBuf (readTxOutBuf maxWitnessItemSize)); [apply TxOut_codec|done..].
Qed.

Lemma le_encode_nonnil n z : le_encode (S n) z ≠ [].
Proof. intros H. apply (f_equal length) in H. rewrite length_le_encode in H. done. Qed.

Lemma outputs_inj tx tx' : wfSigTx tx → wfSigTx tx' → outputsString tx = outputsString tx' → tx_TxOut tx = tx_TxOut tx'.
Proof.
  intros (_ & _ & _ & Ho) (_ & _ & _ & Ho'). apply (concat_prefix_free WriteTxOutBuf wfTxOut); [exact TxOut_prefix_free| |done..].
  intros a H. unfold WriteTxOutBuf in H. apply app_eq_nil in H as [H _]. by apply le_encode_nonnil in H.
Qed.

(** The amounts and the scripts determine the spent outputs. *)
Lemma spent_inj outs outs' : Forall wfTxOut outs → Forall wfTxOut outs' →
  amountsString outs = amountsString outs' → scriptsString outs = scriptsString outs' → outs = outs'.
Proof.
  intros Hw Hw' Ea Es.
  assert (Ha : to_Value <$> outs = to_Value <$> outs').
  { apply (concat_prefix_free (λ v, le_encode 8 (u64 v)) (inS 64)); [|intros; apply le_encode_nonnil| | |].
    - intros a b r r' Ha Hb E. apply (le_prefix_free 8 64) in E as [E ->]; [|done|apply wrapU_in; lia..]. split; [|done].
      rewrite <- (wrapS_wrapU 64 a), <- (wrapS_wrapU 64 b) by (lia || done). by rewrite E.
    - apply Forall_fmap. by eapply Forall_impl; [exact Hw|intros ? []].
    - apply Forall_fmap. by eapply Forall_impl; [exact Hw'|intros ? []].
    - unfold amountsString in Ea. by rewrite <- !list_fmap_compose. }
  assert (Hs : to_PkScript <$> outs = to_PkScript <$> outs').
  { apply (concat_prefix_free WriteVarBytesBuf wfScript).
    - intros a b r r' Wa Wb. apply (codec_prefix_free WriteVarBytesBuf (readScriptBuf maxWitnessItemSize EmptyString) (wfScriptIn maxWitnessItemSize)); by split.
    - intros a H. unfold WriteVarBytesBuf in H. apply app_eq_nil in H as [H _]. apply (f_equal length) in H.
      pose proof (WriteVarIntBuf_length (Z.of_nat (length a))) as Hl. rewrite H in Hl. unfold VarIntSerializeSize in Hl. cbn in Hl.
      repeat case_match; lia.
    - apply Forall_fmap. by eapply Forall_impl; [exact Hw|intros ? []].
    - apply Forall_fmap. by eapply Forall_impl; [exact Hw'|intros ? []].
    - unfold scriptsString in Es. by rewrite <- !list_fmap_compose. }
  clear Hw Hw' Ea Es. revert outs' Ha Hs. induction outs as [|[v p] outs IH]; intros outs' Ev Ep.
  - by destruct outs'.
  - destruct outs' as [|[v' p'] outs']; [done|]. cbn in Ev, Ep. injection Ev as -> Ev. injection Ep as -> Ep. f_equal. by apply IH.
Qed.

Section binding.
Context (sha256 : bytes → bytes) (Hsha : ∀ b, length (sha256 b) = 32%nat).

(** What a signer hands to the signature hash. *)
Record signing := mkSigning {
  sg_tx : MsgTx; sg_fetch : PrevOutputFetcher; sg_type : Z; sg_idx : Z; sg_opts : list TaprootSigHashOption }.
Definition optsOf (s : signing) : taprootSigHashOptions := foldl (λ o f, f o) defaultTaprootSighashOptions (sg_opts s).
Definition spentOf (s : signing) : list TxOut := default [] (spentOutputs (sg_fetch s) (sg_tx s)).
Definition signedHash (s : signing) : res everr bytes :=
  calcTaprootSignatureHashRaw sha256 (NewTxSigHashes sha256 (sg_tx s) (sg_fetch s)) (sg_type s) (sg_tx s) (sg_idx s)
    (sg_fetch s) (sg_opts s).

(** An input that spends a taproot output. *)
Definition spendsTaproot (fetch : PrevOutputFetcher) (i : TxIn) : Prop :=
  (op_Index (ti_PreviousOutPoint i) =? 4294967295) && bool_decide (op_Hash (ti_PreviousOutPoint i) = zeroHash) = false
  ∧ ∃ o, fetch (ti_PreviousOutPoint i) = Some o ∧ isWitnessTaprootScript (to_PkScript o) = true.

(** Key or script path options. *)
Definition wfOpts (o : taprootSigHashOptions) : Prop :=
  (∀ a, annexHash o = Some a → length a = 32%nat) ∧
  (extFlag o = 0 ∧ opt_tapLeafHash o = [] ∧ keyVersion o = 0 ∧ opt_codeSepPos o = 0
   ∨ extFlag o = 1 ∧ length (opt_tapLeafHash o) = 32%nat ∧ keyVersion o = 0 ∧ inU 32 (opt_codeSepPos o)).

Record wfSigning (s : signing) : Prop := {
  ws_tx : wfSigTx (sg_tx s);
  ws_spent : is_Some (spentOutputs (sg_fetch s) (sg_tx s));
  ws_outs : Forall wfTxOut (spentOf s);
  ws_taproot : List.Exists (spendsTaproot (sg_fetch s)) (tx_TxIn (sg_tx s));
  ws_type : sg_type s = SigHashDefault ∨ sg_type s = SigHashAll;
  ws_idx : inU 32 (sg_idx s);
  ws_opts : wfOpts (optsOf s) }.

(** The strings hashed with SHA-256 for a signature hash. *)
Definition signingStrings (s : signing) : list bytes :=
  [sha256 TagTapSighash ++ sha256 TagTapSighash
     ++ match taprootSigMsg sha256 (NewTxSigHashes sha256 (sg_tx s) (sg_fetch s)) (sg_type s) (sg_tx s) (sg_idx s)
                (sg_fetch s) (optsOf s) with Ok m => m | Err _ => [] end;
   prevOutsString (sg_tx s); amountsString (spentOf s); scriptsString (spentOf s); sequenceString (sg_tx s);
   outputsString (sg_tx s)].
Definition shaCollision (S S' : list bytes) : Prop :=
  ∃ x y, x ∈ S ∧ y ∈ S' ∧ x ≠ y ∧ sha256 x = sha256 y.

Definition sameSigned (s s' : signing) : Prop :=
  sg_type s = sg_type s' ∧ sg_idx s = sg_idx s' ∧ optsOf s = optsOf s'
  ∧ tx_Version (sg_tx s) = tx_Version (sg_tx s') ∧ tx_LockTime (sg_tx s) = tx_LockTime (sg_tx s')
  ∧ ti_PreviousOutPoint <$> tx_TxIn (sg_tx s) = ti_PreviousOutPoint <$> tx_TxIn (sg_tx s')
  ∧ ti_Sequence <$> tx_TxIn (sg_tx s) = ti_Sequence <$> tx_TxIn (sg_tx s')
  ∧ tx_TxOut (sg_tx s) = tx_TxOut (sg_tx s') ∧ spentOf s = spentOf s'.

Lemma hash_eq x y S S' : x ∈ S → y ∈ S' → sha256 x = sha256 y → x = y ∨ shaCollision S S'.
Proof. intros Hx Hy E. destruct (decide (x = y)); [by left|right]. by exists x, y. Qed.

Lemma scan_taproot fetch ins outs v : mapM (λ i, fetch (ti_PreviousOutPoint i)) ins = Some outs →
  List.Exists (spendsTaproot fetch) ins → ∃ v', scanInputs fetch ins v false = Some (v', true).
Proof.
  assert (Hstay : ∀ ins outs v, mapM (λ i, fetch (ti_PreviousOutPoint i)) ins = Some outs →
    ∃ v', scanInputs fetch ins v true = Some (v', true)).
  { clear. induction ins as [|i ins IH]; intros outs v Hm; [by eexists|]. cbn -[zeroHash] in Hm |- *.
    destruct (fetch _) as [o|]; [|done]. cbn in Hm. destruct (mapM _ ins) as [os|]; [|done].
    destruct (_ && _); [by eapply IH|]. cbn. destruct (isWitnessTaprootScript _); [destruct v; [by eexists|]|by eexists]. by eapply IH. }
  revert outs v. induction ins as [|i ins IH]; intros outs v Hm Hex; [by apply Exists_nil in Hex|]. cbn -[zeroHash] in Hm |- *.
  destruct (fetch _) as [o|] eqn:Ef; [|done]. cbn in Hm. destruct (mapM _ ins) as [os|] eqn:Em; [|done].
  destruct (_ && _) eqn:En.
  - apply Exists_cons in Hex as [[Hn _]|Hex]; [congruence|]. by eapply IH.
  - cbn. destruct (isWitnessTaprootScript _) eqn:Et.
    + destruct v; [by eexists|]. by eapply Hstay.
    + destruct v; cbn [andb]; (apply Exists_cons in Hex as [(_ & o' & E & Et')|Hex]; [congruence|by eapply IH]).
Qed.

(** The message of a well-formed signing, with its fields. *)
Lemma signing_msg s : wfSigning s →
  taprootSigMsg sha256 (NewTxSigHashes sha256 (sg_tx s) (sg_fetch s)) (sg_type s) (sg_tx s) (sg_idx s) (sg_fetch s) (optsOf s)
  = (if at_ (tx_TxIn (sg_tx s)) (sg_idx s) is Some _ then
     Ok ([x00; z2b (sg_type s)] ++ le_encode 4 (u32 (tx_Version (sg_tx s))) ++ le_encode 4 (tx_LockTime (sg_tx s))
         ++ sha256 (prevOutsString (sg_tx s)) ++ sha256 (amountsString (spentOf s)) ++ sha256 (scriptsString (spentOf s))
         ++ sha256 (sequenceString (sg_tx s)) ++ sha256 (outputsString (sg_tx s))
         ++ [z2b (extFlag (optsOf s) * 2 + match annexHash (optsOf s) with Some _ => 1 | None => 0 end)]
         ++ le_encode 4 (sg_idx s) ++ default [] (annexHash (optsOf s)) ++ writeDigestExtensions (optsOf s))
     else Err EnginePanic).
Proof.
  intros [_ [outs Hsp] _ Htap Hty Hidx Ho].
  destruct (scan_taproot (sg_fetch s) (tx_TxIn (sg_tx s)) outs false Hsp Htap) as [v Hscan].
  assert (Hn : NewTxSigHashes sha256 (sg_tx s) (sg_fetch s)
    = Some (let h x := if v : bool then sha256 x else zeroHash in
            mkTxSigHashes (h (sha256 (prevOutsString (sg_tx s)))) (h (sha256 (sequenceString (sg_tx s)))) (h (sha256 (outputsString (sg_tx s))))
              (sha256 (prevOutsString (sg_tx s))) (sha256 (sequenceString (sg_tx s))) (sha256 (outputsString (sg_tx s)))
              (sha256 (scriptsString (spentOf s))) (sha256 (amountsString (spentOf s))))).
  { unfold NewTxSigHashes, calcHashInputAmounts, calcHashInputScripts, spentOf. rewrite Hscan, Hsp. done. }
  rewrite Hn. unfold taprootSigMsg. cbv zeta.
  replace (z2b (u8 _)) with (z2b (extFlag (optsOf s) * 2 + match annexHash (optsOf s) with Some _ => 1 | None => 0 end))
    by (symmetry; apply z2b_mod).
  rewrite (wrapU_small 32 (sg_idx s)) by done.
  assert (Hb : (Z.land (sg_type s) SigHashAnyOneCanPay =? SigHashAnyOneCanPay) = false
    ∧ (Z.land (sg_type s) SigHashSingle =? SigHashSingle) = false ∧ (Z.land (sg_type s) SigHashSingle =? SigHashNone) = false
    ∧ (Z.land (sg_type s) sigHashMask =? SigHashSingle) = false) by (by destruct Hty as [-> | ->]).
  destruct Hb as (-> & -> & -> & ->). cbn [negb andb res_bind]. destruct (at_ (tx_TxIn (sg_tx s)) (sg_idx s)); [|done].
  cbn [res_bind HashPrevOutsV1 HashInputAmountsV1 HashInputScriptsV1 HashSequenceV1 HashOutputsV1 app]. by rewrite <- !app_assoc.
Qed.

(** The tail of the message: the spend type decides which parts follow. *)
Lemma opts_inj o o' : wfOpts o → wfOpts o' →
  z2b (extFlag o * 2 + match annexHash o with Some _ => 1 | None => 0 end)
    = z2b (extFlag o' * 2 + match annexHash o' with Some _ => 1 | None => 0 end) →
  default [] (annexHash o) ++ writeDigestExtensions o = default [] (annexHash o') ++ writeDigestExtensions o' → o = o'.
Proof.
  destruct o as [e a t k c], o' as [e' a' t' k' c']. unfold wfOpts, writeDigestExtensions. cbn [extFlag annexHash opt_tapLeafHash keyVersion opt_codeSepPos].
  intros [Ha Ho] [Ha' Ho'] Eb E. apply (f_equal b2z) in Eb. rewrite !b2z_z2b in Eb.
  assert (He : e = e' ∧ bool_decide (is_Some a) = bool_decide (is_Some a')).
  { assert (Hd : e * 2 + match a with Some _ => 1 | None => 0 end = e' * 2 + match a' with Some _ => 1 | None => 0 end).
    { rewrite !Z.mod_small in Eb by (destruct a, a'; lia). done. }
    destruct a, a'; (split; [lia|]); first [done|exfalso; lia]. }
  destruct He as [-> Hsome].
  assert (Hx : a = a' ∧ (if e' =? tapscriptSighashExtFlag then t ++ [z2b k] ++ le_encode 4 c else [])
                      = (if e' =? tapscriptSighashExtFlag then t' ++ [z2b k'] ++ le_encode 4 c' else [])).
  { destruct a as [a|], a' as [a'|]; [|done..].
    cbn [default from_option id] in E. apply app_inj_1 in E as [-> E]; [done|]. by rewrite (Ha a), (Ha' a'). }
  destruct Hx as [-> E'].
  destruct Ho as [(-> & -> & -> & ->)|(-> & Ht & -> & Hc)], Ho' as [(? & -> & -> & ->)|(? & Ht' & -> & Hc')]; try done.
  change (1 =? tapscriptSighashExtFlag) with true in E'. cbn [app] in E'. apply app_inj_1 in E' as [-> E']; [|congruence].
  apply (app_inv_head [z2b 0]) in E'. f_equal. by apply (le_encode_inj 4 32).
Qed.

(** C15. What a taproot signature of the default type commits to: two signings
    (transaction, spent outputs, hash type, input, leaf and annex) that sign the
    same hash agree on all of it, the amounts and scripts of every spent output
    included, unless two of the strings hashed for them collide under SHA-256.
    The transactions are assumed to spend at least one taproot output. *)
Theorem taproot_sighash_binding (s s' : signing) (h : bytes)
  (Hs : wfSigning s) (Hs' : wfSigning s') (Hh : signedHash s = Ok h) (Hh' : signedHash s' = Ok h) :
  sameSigned s s' ∨ shaCollision (signingStrings s) (signingStrings s').
Proof.
  unfold signedHash, calcTaprootSignatureHashRaw in Hh, Hh'. fold (optsOf s) in Hh. fold (optsOf s') in Hh'.
  pose proof (signing_msg s Hs) as Hm. pose proof (signing_msg s' Hs') as Hm'.
  unfold signingStrings. rewrite Hm in Hh |- *. rewrite Hm' in Hh' |- *. clear Hm Hm'.
  destruct (negb _); [done|]. destruct (_ <? _); [done|]. destruct (negb _); [done|]. destruct (_ <? _); [done|].
  destruct (at_ (tx_TxIn (sg_tx s)) _); [|done]. destruct (at_ (tx_TxIn (sg_tx s')) _); [|done].
  cbn [res_bind] in Hh, Hh'. injection Hh as Hh. injection Hh' as Hh'. rewrite <- Hh' in Hh. clear Hh'.
  unfold TaggedHash in Hh. cbn [concat] in Hh. rewrite !app_nil_r in Hh.
  match goal with |- _ ∨ shaCollision ?S ?S' => set (S1 := S); set (S2 := S') end.
  assert (Hc : ∀ x y, x ∈ S1 → y ∈ S2 → sha256 x = sha256 y → x = y ∨ shaCollision S1 S2) by (intros; by apply hash_eq).
  destruct (Hc _ _ ltac:(by left) ltac:(by left) Hh) as [E|]; [|by right]. clear Hh.
  do 2 (apply app_inv_head in E). apply app_inj_1 in E as [Ety E]; [|done].
  apply app_inj_1 in E as [Ev E]; [|by rewrite !length_le_encode]. apply app_inj_1 in E as [El E]; [|by rewrite !length_le_encode].
  do 5 (apply app_inj_1 in E as [? E]; [|by rewrite !Hsha]). apply app_inj_1 in E as [Est E]; [|done].
  apply (f_equal (λ l, default x00 (l !! 0%nat))) in Est. cbn [lookup list_lookup default] in Est.
  apply app_inj_1 in E as [Ei E]; [|by rewrite !length_le_encode].
  repeat match goal with H : sha256 ?x = sha256 ?y |- _ =>
    destruct (Hc x y ltac:(subst S1; set_solver) ltac:(subst S2; set_solver) H) as [?|]; [clear H|by right] end.
  left. destruct Hs as [T1 T2 T3 _ T5 T6 T7], Hs' as [T1' T2' T3' _ T5' T6' T7'].
  pose proof T1 as (V1 & V2 & _). pose proof T1' as (V1' & V2' & _).
  apply (le_encode_inj 4 32) in Ev; [|done|apply wrapU_in; lia..]. apply (le_encode_inj 4 32) in El; [|done..].
  apply (le_encode_inj 4 32) in Ei; [|done..].
  split; [destruct T5 as [E5|E5], T5' as [E5'|E5']; rewrite E5, E5' in Ety |- *; [done|vm_compute in Ety; discriminate Ety..|done]|]. split; [done|]. split; [by apply opts_inj|].
  split; [rewrite <- (wrapS_wrapU 32 (tx_Version (sg_tx s))), Ev by (lia || done); by apply wrapS_wrapU|]. split; [done|].
  split; [by apply prevOuts_inj|]. split; [by apply sequence_inj|]. split; [by apply outputs_inj|]. by apply spent_inj.
Qed.
End binding.

(** The hash a signature signs does not cover the spent amounts and scripts
    when no spent output is a taproot output: the midstates of the amounts and
    scripts are computed only if one is, and stay zero otherwise.  Inputs that
    spend pay-to-Merkle-root outputs are signed with the same hash, so their
    signatures commit to neither amount nor script. *)
Lemma merkle_root_sighash_ignores_spent (sha256 : bytes → bytes) (tx : MsgTx) (fetch fetch' : PrevOutputFetcher)
  (hType idx : Z) (opts : list TaprootSigHashOption)
  (Hty : Z.land hType SigHashAnyOneCanPay = 0)
  (Hno : Forall (λ i, ∃ o, fetch (ti_PreviousOutPoint i) = Some o ∧ isWitnessMerkleRootScript (to_PkScript o) = true) (tx_TxIn tx))
  (Hno' : Forall (λ i, ∃ o, fetch' (ti_PreviousOutPoint i) = Some o ∧ isWitnessMerkleRootScript (to_PkScript o) = true) (tx_TxIn tx)) :
  calcTaprootSignatureHashRaw sha256 (NewTxSigHashes sha256 tx fetch) hType tx idx fetch opts
  = calcTaprootSignatureHashRaw sha256 (NewTxSigHashes sha256 tx fetch') hType tx idx fetch' opts.
Proof.
  assert (Hcl : ∀ p, isWitnessMerkleRootScript p = true → isWitnessTaprootScript p = false).
  { intros p. unfold isWitnessMerkleRootScript, isWitnessTaprootScript, extractWitnessV2MerkleRootBytes, extractWitnessV1KeyBytes, witness32.
    destruct p as [|a [|b p]]; [done..|]. destruct (_ =? _)%nat; [|done]. cbn [andb].
    destruct (Z.eqb_spec (b2z a) OP_2) as [->|]; [intros _; reflexivity|]. intros H. discriminate H. }
  assert (Hscan : ∀ f, Forall (λ i, ∃ o, f (ti_PreviousOutPoint i) = Some o ∧ isWitnessMerkleRootScript (to_PkScript o) = true) (tx_TxIn tx) →
    ∀ v, scanInputs f (tx_TxIn tx) v false = Some (v || negb (length (tx_TxIn tx) =? 0)%nat, false)).
  { clear Hno Hno'. intros f Hf. induction Hf as [|i ins (o & Eo & Ho) _ IH]; intros v; [cbn; by rewrite orb_false_r|].
    cbn -[zeroHash]. rewrite orb_true_r. destruct (_ && _); [rewrite IH; done|]. rewrite Eo. cbn. rewrite (Hcl _ Ho). by rewrite IH. }
  assert (Hn : NewTxSigHashes sha256 tx fetch = NewTxSigHashes sha256 tx fetch').
  { unfold NewTxSigHashes. by rewrite (Hscan fetch Hno), (Hscan fetch' Hno'). }
  rewrite Hn. unfold calcTaprootSignatureHashRaw, taprootSigMsg. by rewrite Hty.
Qed.

(** ** Facts about the caches *)

(** Everything in the cache was added with a key and a signature that satisfy
    [P]; what [Exists] finds satisfies it. *)
Definition cacheHolds (P : bytes → bytes → bytes → Prop) (c : SigCache) : Prop :=
  ∀ h e, validSigs c !! h = Some e → P h (sce_sig e) (sce_pubKey e).

Lemma Exists_holds P c h sig pk : cacheHolds P c → Exists c h sig pk = true → P h sig pk.
Proof.
  unfold Exists. intros Hc He. destruct (validSigs c !! h) as [e|] eqn:E; [|done].
  apply andb_prop in He as [<-%bool_decide_eq_true <-%bool_decide_eq_true]. by apply Hc.
Qed.
Lemma AddSig_holds P pick c h sig pk : cacheHolds P c → P h sig pk → cacheHolds P (AddSig pick c h sig pk).
Proof.
  intros Hc Hp. unfold AddSig. destruct (_ <=? _); [done|]. intros h' e He. cbn [validSigs] in He.
  apply lookup_insert_Some in He as [[<- <-]|[_ He]]; [done|]. apply Hc.
  destruct (_ <? _); [|done]. destruct (pick _); [|done]. by apply lookup_delete_Some in He as [_ ?].
Qed.

(** The cache stays within its limit. *)
Lemma AddSig_bounded pick c h sig pk : 0 <= maxEntries c < 2 ^ 63 →
  (∀ m, m ≠ ∅ → ∃ k, pick m = Some k ∧ is_Some (m !! k)) →
  Z.of_nat (size (validSigs c)) <= maxEntries c →
  Z.of_nat (size (validSigs (AddSig pick c h sig pk))) <= maxEntries (AddSig pick c h sig pk).
Proof.
  intros Hm Hpick Hs. unfold AddSig. destruct (Z.leb_spec (maxEntries c) 0); [done|]. cbn [validSigs maxEntries].
  rewrite (wrapU_small 64) by (unfold inU; lia).
  match goal with |- Z.of_nat (size (<[_ := _]> ?m)) <= _ => set (M := m); assert (Z.of_nat (size M) < maxEntries c) end.
  { unfold M. destruct (Z.ltb_spec (maxEntries c) (Z.of_nat (size (validSigs c)) + 1)) as [Hlt|Hge]; [|lia].
    destruct (Hpick (validSigs c)) as (k & -> & Hk).
    { intros E. rewrite E, map_size_empty in Hlt. lia. }
    destruct Hk as [v Hk]. rewrite map_size_delete_Some by (by eexists). lia. }
  clearbody M. rewrite map_size_insert. case_match; unfold id; lia.
Qed.

(** ** Examples *)
Module SigDemo.
Definition p2tr : bytes := [x51; x20] ++ replicate 32 x07.
Definition p2mr : bytes := [x52; x20] ++ replicate 32 x07.
Definition op : OutPoint := mkOutPoint (replicate 32 x01) 0.
Definition tx : MsgTx := mkMsgTx 2 [mkTxIn op [] [] 5] [mkTxOut 40 p2tr] 9.
Definition spend (o : TxOut) : signing := mkSigning tx (λ _, Some o) SigHashDefault 0 [].
End SigDemo.

Lemma taproot_sighash_binding_witness :
  ∃ h, signedHash toySha (SigDemo.spend (mkTxOut 50 SigDemo.p2tr)) = Ok h
  ∧ (sameSigned (SigDemo.spend (mkTxOut 50 SigDemo.p2tr)) (SigDemo.spend (mkTxOut 50 SigDemo.p2tr))
     ∨ shaCollision toySha (signingStrings toySha (SigDemo.spend (mkTxOut 50 SigDemo.p2tr)))
         (signingStrings toySha (SigDemo.spend (mkTxOut 50 SigDemo.p2tr)))).
Proof.
  destruct (signedHash toySha (SigDemo.spend (mkTxOut 50 SigDemo.p2tr))) as [h|e] eqn:E; [|vm_compute in E; discriminate E].
  exists h. split; [done|].
  assert (W : wfSigning (SigDemo.spend (mkTxOut 50 SigDemo.p2tr))).
  { split.
    - split; [vm_compute; split; discriminate || reflexivity|]. split; [vm_compute; split; discriminate || reflexivity|].
      repeat constructor; vm_compute; try discriminate; reflexivity.
    - by eexists.
    - repeat constructor; vm_compute; try discriminate; reflexivity.
    - apply Exists_cons_hd. split; [reflexivity|]. by eexists.
    - by left.
    - vm_compute; split; discriminate || reflexivity.
    - split; [done|]. left. done. }
  apply (taproot_sighash_binding toySha toySha_length _ _ h W W E E).
Defined.

Lemma merkle_root_sighash_ignores_spent_witness :
  signedHash toySha (SigDemo.spend (mkTxOut 50 SigDemo.p2mr)) = signedHash toySha (SigDemo.spend (mkTxOut 7 ([x52; x20] ++ replicate 32 x08))).
Proof.
  apply (merkle_root_sighash_ignores_spent toySha SigDemo.tx (λ _, Some (mkTxOut 50 SigDemo.p2mr))
    (λ _, Some (mkTxOut 7 ([x52; x20] ++ replicate 32 x08))) SigHashDefault 0 []); [reflexivity|repeat constructor; by eexists..].
Defined.
