(* ===== verification/Taproot.v ===== *)
(** * Taproot and pay-to-Merkle-root commitments (src/node/txscript/taproot.go)

    Control blocks, the Merkle proof that a script is a leaf of the committed
    tree, the assembly of a tree with its proofs.  Points and signatures are the
    class [Schnorr] and its extension [TapTweak]. *)
From Stdlib Require Import ZArith Lia Strings.Byte.
From stdpp Require Import base list gmap sets.
From S2P Require Import Prelude WireTx Merkle Script ScriptStack SigHash Utxo Covenant.
Open Scope Z_scope.
Open Scope list_scope.

(** What taproot.go uses of the curve besides keys and signatures: the point
    [P + tweak * G], and whether the y coordinate of a point is odd. *)
Class TapTweak `{Schnorr} := {
  tweakAdd : PubKey → bytes → PubKey;
  yIsOdd : PubKey → bool }.

Definition BaseLeafVersion : Z := 0xc0.
Definition TaprootLeafMask : Z := 0xfe.
Definition TaprootAnnexTag : Z := 0x50.
Definition ControlBlockBaseSize : Z := 33.
Definition ControlBlockNodeSize : Z := 32.
Definition ControlBlockMaxNodeCount : Z := 128.
Definition ControlBlockMaxSize : Z := ControlBlockBaseSize + ControlBlockNodeSize * ControlBlockMaxNodeCount.
Definition MerkleRootControlBlockBaseSize : Z := 1.
Definition MerkleRootControlBlockMaxSize : Z := MerkleRootControlBlockBaseSize + ControlBlockNodeSize * ControlBlockMaxNodeCount.

(** [bytes.Compare] *)
Fixpoint bytesCompare (a b : bytes) : comparison :=
  match a, b with
  | [], [] => Eq
  | [], _ :: _ => Lt
  | _ :: _, [] => Gt
  | x :: a', y :: b' => match b2z x ?= b2z y with Eq => bytesCompare a' b' | c => c end
  end.

(** ** Trees *)
Record TapLeaf := mkTapLeaf { LeafVersion : Z; LeafScript : bytes }.
Inductive TapNode := NLeaf (l : TapLeaf) | NBranch (leftNode rightNode : TapNode).
Definition NewBaseTapLeaf (script : bytes) : TapLeaf := mkTapLeaf BaseLeafVersion script.

Section hash.
Context (sha256 : bytes → bytes).

Definition TapLeafHash (t : TapLeaf) : bytes :=
  TaggedHash sha256 TagTapLeaf [[z2b (LeafVersion t)] ++ WriteVarBytesBuf (LeafScript t)].
Definition tapBranchHash (l r : bytes) : bytes :=
  match bytesCompare l r with
  | Gt => TaggedHash sha256 TagTapBranch [r; l]
  | _ => TaggedHash sha256 TagTapBranch [l; r]
  end.
Fixpoint TapHash (n : TapNode) : bytes :=
  match n with
  | NLeaf l => TapLeafHash l
  | NBranch l r => tapBranchHash (TapHash l) (TapHash r)
  end.

(** The root from a leaf and its proof, 32 bytes per level. *)
Definition computeMerkleRootFromProof (leafVersion : Z) (inclusionProof revealedScript : bytes) : bytes :=
  foldl (λ merkleAccumulator nodeOffset, tapBranchHash merkleAccumulator (slice (32 * nodeOffset) (32 * nodeOffset + 32) inclusionProof))
    (TapLeafHash (mkTapLeaf leafVersion revealedScript))
    (seq 0 (length inclusionProof / 32)).

(** ** Control blocks *)
Section keys.
Context `{TapTweak}.

Record ControlBlock := mkControlBlock {
  InternalKey : PubKey;
  OutputKeyYIsOdd : bool;
  cb_LeafVersion : Z;
  cb_InclusionProof : bytes }.

Definition ControlBlock_ToBytes (c : ControlBlock) : bytes :=
  [z2b (Z.lor (cb_LeafVersion c) (if OutputKeyYIsOdd c then 1 else 0))] ++ SerializePubKey (InternalKey c) ++ cb_InclusionProof c.
Definition ControlBlock_RootHash (c : ControlBlock) (revealedScript : bytes) : bytes :=
  computeMerkleRootFromProof (cb_LeafVersion c) (cb_InclusionProof c) revealedScript.

Definition ParseControlBlock (ctrlBlock : bytes) : res everr ControlBlock :=
  if zlen ctrlBlock <? ControlBlockBaseSize then Err (ScriptError ErrControlBlockTooSmall) else
  if ControlBlockMaxSize <? zlen ctrlBlock then Err (ScriptError ErrControlBlockTooLarge) else
  if negb ((zlen ctrlBlock - ControlBlockBaseSize) mod ControlBlockNodeSize =? 0) then Err (ScriptError ErrControlBlockInvalidLength) else
  match ctrlBlock with
  | [] => Err EnginePanic
  | b :: _ =>
      match ParsePubKey (slice 1 33 ctrlBlock) with
      | None => Err KeyError
      | Some pubKey => Ok (mkControlBlock pubKey (Z.land (b2z b) 0x01 =? 0x01) (Z.land (b2z b) TaprootLeafMask) (drop 33 ctrlBlock))
      end
  end.

(** The error of [ParsePubKey] is dropped: [None] is the nil dereference. *)
Definition ComputeTaprootOutputKey (pubKey : PubKey) (scriptRoot : bytes) : option PubKey :=
  internalKey ← ParsePubKey (SerializePubKey pubKey);
  Some (tweakAdd internalKey (TaggedHash sha256 TagTapTweak [SerializePubKey internalKey; scriptRoot])).

Definition VerifyTaprootLeafCommitment (controlBlock : ControlBlock) (taprootWitnessProgram revealedScript : bytes) : res everr unit :=
  let rootHash := ControlBlock_RootHash controlBlock revealedScript in
  match ComputeTaprootOutputKey (InternalKey controlBlock) rootHash with
  | None => Err EnginePanic
  | Some taprootKey =>
      if negb (bool_decide (SerializePubKey taprootKey = taprootWitnessProgram)) then Err (ScriptError ErrTaprootMerkleProofInvalid) else
      if negb (bool_decide (OutputKeyYIsOdd controlBlock = yIsOdd taprootKey)) then Err (ScriptError ErrTaprootOutputKeyParityMismatch) else
      Ok tt
  end.
End keys.

Record MerkleRootControlBlock := mkMRControlBlock { mr_LeafVersion : Z; mr_InclusionProof : bytes }.
Definition MerkleRootControlBlock_RootHash (c : MerkleRootControlBlock) (revealedScript : bytes) : bytes :=
  computeMerkleRootFromProof (mr_LeafVersion c) (mr_InclusionProof c) revealedScript.
Definition MerkleRootControlBlock_ToBytes (c : MerkleRootControlBlock) : bytes :=
  [z2b (Z.lor (mr_LeafVersion c) 0x01)] ++ mr_InclusionProof c.

Definition ParseMerkleRootControlBlock (ctrlBlock : bytes) : res everr MerkleRootControlBlock :=
  if zlen ctrlBlock <? MerkleRootControlBlockBaseSize then Err (ScriptError ErrControlBlockTooSmall) else
  if MerkleRootControlBlockMaxSize <? zlen ctrlBlock then Err (ScriptError ErrControlBlockTooLarge) else
  if negb ((zlen ctrlBlock - MerkleRootControlBlockBaseSize) mod ControlBlockNodeSize =? 0) then Err (ScriptError ErrControlBlockInvalidLength) else
  match ctrlBlock with
  | [] => Err EnginePanic
  | b :: proofBytes =>
      if negb (Z.land (b2z b) 0x01 =? 0x01) then Err (ScriptError ErrMerkleRootControlBlockInvalidParity)
      else Ok (mkMRControlBlock (Z.land (b2z b) TaprootLeafMask) proofBytes)
  end.

Definition VerifyMerkleRootLeafCommitment (controlBlock : MerkleRootControlBlock) (witnessProgram revealedScript : bytes) : res everr unit :=
  if negb (bool_decide (MerkleRootControlBlock_RootHash controlBlock revealedScript = witnessProgram))
  then Err (ScriptError ErrMerkleRootMerkleProofInvalid) else Ok tt.

(** ** Assembling a tree *)
Record TapscriptProof := mkTapProof { tp_TapLeaf : TapLeaf; tp_RootNode : option TapNode; tp_InclusionProof : bytes }.
Record IndexedTapScriptTree := mkTree {
  RootNode : option TapNode;
  LeafMerkleProofs : list TapscriptProof;
  LeafProofIndex : gmap bytes nat }.
Definition NewIndexedTapScriptTree (numLeaves : nat) : IndexedTapScriptTree :=
  mkTree None (replicate numLeaves (mkTapProof (mkTapLeaf 0 []) None [])) ∅.

Fixpoint leafDescendants (node : TapNode) : list TapLeaf :=
  match node with
  | NLeaf l => [l]
  | NBranch l r => leafDescendants l ++ leafDescendants r
  end.

(** [scriptTree.LeafMerkleProofs[i].InclusionProof = append(..., h...)]; the map
    lookup of an absent hash is 0. *)
Definition appendProof (i : nat) (h : bytes) (ps : list TapscriptProof) : list TapscriptProof :=
  alter (λ p, mkTapProof (tp_TapLeaf p) (tp_RootNode p) (tp_InclusionProof p ++ h)) i ps.
Definition setLeaf (i : nat) (l : TapLeaf) (ps : list TapscriptProof) : list TapscriptProof :=
  alter (λ p, mkTapProof l (tp_RootNode p) (tp_InclusionProof p)) i ps.
Definition proofIndex (idx : gmap bytes nat) (node : TapNode) : nat := default 0%nat (idx !! TapHash node).
Definition appendAll (idx : gmap bytes nat) (leaves : list TapLeaf) (h : bytes) (ps : list TapscriptProof) : list TapscriptProof :=
  foldl (λ ps leaf, appendProof (proofIndex idx (NLeaf leaf)) h ps) ps leaves.

(** A [TapBranch] is the pair of its nodes. *)
Definition TapBranch : Type := TapNode * TapNode.
Definition nodeOf (b : TapBranch) : TapNode := NBranch b.1 b.2.

(** The first loop pairs the leaves; an odd last leaf is merged with the last
    pair.  [None] is the index panic when there is no pair. *)
Fixpoint pairLeaves (idx : gmap bytes nat) (i : nat) (leaves : list TapLeaf) (branches : list TapBranch) (ps : list TapscriptProof)
  : option (list TapBranch * list TapscriptProof) :=
  match leaves with
  | [] => Some (branches, ps)
  | [leaf] =>
      branchToMerge ← last branches;
      let branches := take (length branches - 1) branches ++ [(nodeOf branchToMerge, NLeaf leaf)] in
      let ps := appendProof i (TapHash (nodeOf branchToMerge)) (setLeaf i leaf ps) in
      let lastLeafHash := TapLeafHash leaf in
      let ps := appendProof (proofIndex idx branchToMerge.1) lastLeafHash ps in
      Some (branches, appendProof (proofIndex idx branchToMerge.2) lastLeafHash ps)
  | lleaf :: rleaf :: rest =>
      let ps := appendProof i (TapLeafHash rleaf) (setLeaf i lleaf ps) in
      let ps := appendProof (i + 1) (TapLeafHash lleaf) (setLeaf (i + 1) rleaf ps) in
      pairLeaves idx (i + 2) rest (branches ++ [(NLeaf lleaf, NLeaf rleaf)]) ps
  end.

(** The second loop merges the two front branches and appends the result; one
    branch less per round. *)
Fixpoint mergeBranches (fuel : nat) (idx : gmap bytes nat) (branches : list TapBranch) (ps : list TapscriptProof)
  : option TapNode * list TapscriptProof :=
  match fuel, branches with
  | _, [] => (None, ps)
  | _, [b] => (Some (nodeOf b), ps)
  | S fuel', l :: r :: rest =>
      let ps := appendAll idx (leafDescendants (nodeOf l)) (TapHash (nodeOf r)) ps in
      let ps := appendAll idx (leafDescendants (nodeOf r)) (TapHash (nodeOf l)) ps in
      mergeBranches fuel' idx (rest ++ [(nodeOf l, nodeOf r)]) ps
  | O, _ => (None, ps)
  end.

Definition leafIndex (leaves : list TapLeaf) : gmap bytes nat :=
  foldl (λ m '(i, leaf), <[TapLeafHash leaf := i]> m) ∅ (imap pair leaves).

Definition AssembleTaprootScriptTree (leaves : list TapLeaf) : option IndexedTapScriptTree :=
  match leaves with
  | [leaf] => Some (mkTree (Some (NLeaf leaf)) [mkTapProof leaf (Some (NLeaf leaf)) []] {[ TapLeafHash leaf := 0%nat ]})
  | _ =>
      let idx := leafIndex leaves in
      '(branches, ps) ← pairLeaves idx 0 leaves [] (LeafMerkleProofs (NewIndexedTapScriptTree (length leaves)));
      let '(rootNode, ps) := mergeBranches (length branches) idx branches ps in
      Some (mkTree rootNode ((λ p, mkTapProof (tp_TapLeaf p) rootNode (tp_InclusionProof p)) <$> ps) idx)
  end.
End hash.
Arguments ControlBlock {_}.

(** ** The annex (standard.go) *)
Definition isAnnexedWitness (witness : list bytes) : bool :=
  if zlen witness <? 2 then false
  else match last witness with
       | Some (b :: _) => b2z b =? TaprootAnnexTag
       | _ => false
       end.
Definition extractAnnex (witness : list bytes) : res everr bytes :=
  if negb (isAnnexedWitness witness) then Err (ScriptError ErrWitnessHasNoAnnex)
  else match last witness with Some l => Ok l | None => Err EnginePanic end.

Definition CalcTapscriptSignaturehash (sha256 : bytes → bytes) (sigHashes : option TxSigHashes) (hType : Z) (tx : MsgTx) (idx : Z)
    (fetch : PrevOutputFetcher) (tapLeaf : TapLeaf) (sigHashOpts : list TaprootSigHashOption) : res everr bytes :=
  calcTaprootSignatureHashRaw sha256 sigHashes hType tx idx fetch
    (WithBaseTapscriptVersion blankCodeSepValue (TapLeafHash sha256 tapLeaf) :: sigHashOpts).

(** ** Facts: hashes of branches and proofs *)
Lemma bytesCompare_swap a b : bytesCompare b a = CompOpp (bytesCompare a b).
Proof.
  revert b. induction a as [|x a IH]; intros [|y b]; cbn; [done..|]. rewrite (Z.compare_antisym (b2z x) (b2z y)).
  destruct (b2z x ?= b2z y); cbn; [apply IH|done..].
Qed.
Lemma bytesCompare_eq a b : bytesCompare a b = Eq → a = b.
Proof.
  revert b. induction a as [|x a IH]; intros [|y b]; cbn; [done..|].
  destruct (b2z x ?= b2z y) eqn:E; [|done..]. apply Z.compare_eq, b2z_inj in E as ->. intros H. f_equal. by apply IH.
Qed.

Lemma foldl_ext_in {A B} (f g : A → B → A) l a : (∀ x b, b ∈ l → f x b = g x b) → foldl f a l = foldl g a l.
Proof.
  revert a. induction l as [|b l IH]; intros a H; [done|]. cbn. rewrite H by (by left). apply IH. intros x c Hc. apply H. by right.
Qed.

Section facts.
Context (sha256 : bytes → bytes) (Hsha : ∀ b, length (sha256 b) = 32%nat).
Abbreviation TapHash := (TapHash sha256).
Abbreviation TapLeafHash := (TapLeafHash sha256).
Abbreviation tapBranchHash := (tapBranchHash sha256).
Abbreviation compute := (computeMerkleRootFromProof sha256).

Lemma tapBranchHash_comm l r : tapBranchHash l r = tapBranchHash r l.
Proof.
  unfold Taproot.tapBranchHash. rewrite (bytesCompare_swap l r). destruct (bytesCompare l r) eqn:E; [|done..].
  by apply bytesCompare_eq in E as ->.
Qed.
Lemma tapBranchHash_length l r : length (tapBranchHash l r) = 32%nat.
Proof. unfold Taproot.tapBranchHash. destruct (bytesCompare l r); apply Hsha. Qed.
Lemma TapHash_length n : length (TapHash n) = 32%nat.
Proof. destruct n; [apply Hsha|apply tapBranchHash_length]. Qed.

Lemma compute_nil v s : compute v [] s = TapLeafHash (mkTapLeaf v s).
Proof. done. Qed.
Lemma compute_snoc v p s h k : length p = (32 * k)%nat → length h = 32%nat → compute v (p ++ h) s = tapBranchHash (compute v p s) h.
Proof.
  intros Hp Hh. unfold computeMerkleRootFromProof. rewrite length_app, Hp, Hh.
  replace ((32 * k + 32) / 32)%nat with (k + 1)%nat by (replace (32 * k + 32)%nat with ((k + 1) * 32)%nat by lia; by rewrite Nat.div_mul).
  replace (32 * k / 32)%nat with k by (by rewrite Nat.mul_comm, Nat.div_mul).
  rewrite seq_app, foldl_app. cbn [seq foldl Nat.add]. f_equal.
  - apply foldl_ext_in.
    intros acc i Hi. f_equal. unfold slice. rewrite elem_of_seq in Hi. rewrite drop_app_le by lia. rewrite take_app_le; [done|].
    rewrite length_drop. lia.
  - rewrite <- Hp. unfold slice. rewrite drop_app_length. rewrite take_ge; [done|]. lia.
Qed.

(** ** The proofs of an assembled tree *)
Definition addH (h : bytes) (p : TapscriptProof) : TapscriptProof := mkTapProof (tp_TapLeaf p) (tp_RootNode p) (tp_InclusionProof p ++ h).
Lemma appendProof_lookup i h ps j : appendProof i h ps !! j = if decide (i = j) then addH h <$> ps !! j else ps !! j.
Proof. unfold appendProof. destruct (decide (i = j)) as [->|]; [apply list_lookup_alter_eq|by apply list_lookup_alter_ne]. Qed.
Lemma setLeaf_lookup i l ps j :
  setLeaf i l ps !! j = if decide (i = j) then (λ p, mkTapProof l (tp_RootNode p) (tp_InclusionProof p)) <$> ps !! j else ps !! j.
Proof. unfold setLeaf. destruct (decide (i = j)) as [->|]; [apply list_lookup_alter_eq|by apply list_lookup_alter_ne]. Qed.

Section assembled.
Context (idx : gmap bytes nat).
Abbreviation ix l := (proofIndex sha256 idx (NLeaf l)).

Lemma appendAll_lookup ls h ps j : NoDup ((λ l, ix l) <$> ls) →
  appendAll sha256 idx ls h ps !! j = if decide (j ∈ (λ l, ix l) <$> ls) then addH h <$> ps !! j else ps !! j.
Proof.
  revert ps. induction ls as [|l ls IH]; intros ps Hnd; [by rewrite decide_False by (by apply not_elem_of_nil)|].
  cbn [fmap list_fmap] in *. apply NoDup_cons in Hnd as [Hni Hnd].
  change (appendAll sha256 idx (l :: ls) h ps) with (appendAll sha256 idx ls h (appendProof (ix l) h ps)).
  rewrite IH by done. rewrite appendProof_lookup.
  destruct (decide (ix l = j)) as [Ej|Hne]; destruct (decide (j ∈ (λ l, ix l) <$> ls)) as [Hin|Hin].
  - by rewrite <- Ej in Hin.
  - rewrite decide_True; [done|]. rewrite Ej. by left.
  - by rewrite decide_True by (by right).
  - rewrite decide_False; [done|]. by intros [->|?]%elem_of_cons.
Qed.

Lemma length_appendAll ls h ps : length (appendAll sha256 idx ls h ps) = length ps.
Proof. revert ps. induction ls as [|l ls IH]; intros ps; [done|]. cbn. unfold appendAll in IH. rewrite IH. apply length_alter. Qed.

(** The proofs of the leaves [ls] lead to the hash [H], with fewer than [n] levels. *)
Definition goodFor (ps : list TapscriptProof) (ls : list TapLeaf) (H : bytes) (n : nat) : Prop :=
  ∀ l, l ∈ ls → ∃ p k, ps !! ix l = Some p ∧ tp_TapLeaf p = l ∧ (length (tp_InclusionProof p) = 32 * k ∧ k < n)%nat
    ∧ compute (LeafVersion l) (tp_InclusionProof p) (LeafScript l) = H.

Lemma goodFor_same ps ps' ls H n : (∀ l, l ∈ ls → ps' !! ix l = ps !! ix l) → goodFor ps ls H n → goodFor ps' ls H n.
Proof. intros Hs Hg l Hl. rewrite (Hs l Hl). by apply Hg. Qed.
Lemma goodFor_add ps ps' ls H H' n n' : (n < n')%nat → length H' = 32%nat → (∀ l, l ∈ ls → ps' !! ix l = addH H' <$> ps !! ix l) →
  goodFor ps ls H n → goodFor ps' ls (tapBranchHash H H') n'.
Proof.
  intros Hn Hlen Hs Hg l Hl. destruct (Hg l Hl) as (p & k & Ep & El & [Ek Ekn] & Ec). exists (addH H' p), (S k).
  rewrite (Hs l Hl), Ep. split; [done|]. split; [done|]. cbn [tp_InclusionProof addH]. split; [rewrite length_app; split; lia|].
  by rewrite (compute_snoc _ _ _ _ k), Ec.
Qed.
Lemma goodFor_app ps ls ls' H n : goodFor ps ls H n → goodFor ps ls' H n → goodFor ps (ls ++ ls') H n.
Proof. intros H1 H2 l [?|?]%elem_of_app; [by apply H1|by apply H2]. Qed.

Lemma leafDescendants_nonempty n : (0 < length (leafDescendants n))%nat.
Proof. induction n; cbn; rewrite ?length_app; lia. Qed.

Abbreviation good ps n := (goodFor ps (leafDescendants n) (TapHash n) (length (leafDescendants n))).

(** Two subtrees are merged: the proofs of each are extended by the other's hash. *)
Lemma good_merge ps ps' L R : good ps L → good ps R →
  (∀ l, l ∈ leafDescendants L → ps' !! ix l = addH (TapHash R) <$> ps !! ix l) →
  (∀ l, l ∈ leafDescendants R → ps' !! ix l = addH (TapHash L) <$> ps !! ix l) → good ps' (NBranch L R).
Proof.
  intros HL HR H1 H2. cbn [leafDescendants Taproot.TapHash]. pose proof (leafDescendants_nonempty L). pose proof (leafDescendants_nonempty R).
  rewrite length_app. apply goodFor_app.
  - eapply goodFor_add; [|apply TapHash_length|done|done]; lia.
  - rewrite tapBranchHash_comm. eapply goodFor_add; [|apply TapHash_length|done|done]; lia.
Qed.

Definition leavesOf (bs : list TapBranch) : list TapLeaf := concat ((λ b, leafDescendants (nodeOf b)) <$> bs).
Abbreviation ixs ls := ((λ l, ix l) <$> ls).

Lemma mergeBranches_good fuel bs ps : (length bs <= fuel)%nat → bs ≠ [] → NoDup (ixs (leavesOf bs)) → Forall (λ b, good ps (nodeOf b)) bs →
  ∃ root ps', mergeBranches sha256 fuel idx bs ps = (Some root, ps') ∧ leafDescendants root ≡ₚ leavesOf bs ∧ good ps' root
    ∧ length ps' = length ps.
Proof.
  revert bs ps. induction fuel as [|fuel IH]; intros bs ps Hf Hne Hnd Hg; [destruct bs; [done|cbn in Hf; lia]|].
  destruct bs as [|L [|R bs]]; [done| |].
  - exists (nodeOf L), ps. split; [done|]. apply Forall_cons in Hg as [Hg _]. split; [|by split].
    unfold leavesOf. cbn [fmap list_fmap concat]. by rewrite app_nil_r.
  - apply Forall_cons in Hg as [HL [HR Hg]%Forall_cons].
    assert (Hl : leavesOf (L :: R :: bs) = leafDescendants (nodeOf L) ++ leafDescendants (nodeOf R) ++ leavesOf bs) by done.
    rewrite Hl, !fmap_app in Hnd. apply NoDup_app in Hnd as (N1 & D1 & (N2 & D2 & N3)%NoDup_app).
    set (ps1 := appendAll sha256 idx (leafDescendants (nodeOf L)) (TapHash (nodeOf R)) ps).
    set (ps2 := appendAll sha256 idx (leafDescendants (nodeOf R)) (TapHash (nodeOf L)) ps1).
    assert (Hps : ∀ j, ps2 !! j = if decide (j ∈ ixs (leafDescendants (nodeOf R))) then addH (TapHash (nodeOf L)) <$> ps1 !! j else ps1 !! j)
      by (intros j; by apply appendAll_lookup).
    assert (Hp1 : ∀ j, ps1 !! j = if decide (j ∈ ixs (leafDescendants (nodeOf L))) then addH (TapHash (nodeOf R)) <$> ps !! j else ps !! j)
      by (intros j; by apply appendAll_lookup).
    assert (Hin : ∀ n l, l ∈ leafDescendants n → ix l ∈ ixs (leafDescendants n)) by (intros n l; apply (list_elem_of_fmap_2 (λ l, ix l))).
    destruct (IH (bs ++ [(nodeOf L, nodeOf R)]) ps2) as (root & ps' & Em & Hperm & Hgood & Hlen).
    + rewrite length_app. cbn in Hf |- *. lia.
    + by destruct bs.
    + unfold leavesOf. rewrite fmap_app, concat_app, fmap_app. fold (leavesOf bs). cbn [fmap list_fmap concat nodeOf leafDescendants fst snd].
      rewrite app_nil_r, fmap_app. apply NoDup_app. split; [done|]. split.
      * intros j Hj Hj'. apply elem_of_app in Hj' as [Hj'|Hj']; [apply (D1 j Hj'), elem_of_app; by right|by apply (D2 j Hj')].
      * apply NoDup_app. split; [done|]. split; [|done]. intros j Hj Hj'. apply (D1 j Hj), elem_of_app. by left.
    + apply Forall_app. split; [|apply Forall_singleton; eapply (good_merge ps); [done|done| |]].
      * apply Forall_forall. intros b Hb. apply (goodFor_same ps); [|by eapply (proj1 (Forall_forall _ _) Hg)].
        intros l Hl'. assert (Hj : ix l ∈ ixs (leavesOf bs)).
        { apply (list_elem_of_fmap_2 (λ l, ix l)). apply list_elem_of_In, in_concat. exists (leafDescendants (nodeOf b)).
          split; [|by apply list_elem_of_In]. apply list_elem_of_In. by apply (list_elem_of_fmap_2 (λ b, leafDescendants (nodeOf b))). }
        rewrite Hps, decide_False, Hp1, decide_False; [done| |]; intros Hc; [apply (D1 _ Hc), elem_of_app; by right|by apply (D2 _ Hc)].
      * intros l Hl'. rewrite Hps, decide_False; [|intros Hc; apply (D1 _ (Hin _ _ Hl')), elem_of_app; by left].
        by rewrite Hp1, decide_True by (by apply Hin).
      * intros l Hl'. rewrite Hps, decide_True by (by apply Hin). rewrite Hp1, decide_False; [done|].
        intros Hc. apply (D1 _ Hc). apply elem_of_app. left. by apply Hin.
    + exists root, ps'. split; [exact Em|]. split; [|split; [done|]].
      * rewrite Hperm. unfold leavesOf. rewrite fmap_app, concat_app. cbn [fmap list_fmap concat nodeOf leafDescendants fst snd].
        rewrite app_nil_r. rewrite (Permutation_app_comm (concat _)), <- app_assoc. done.
      * rewrite Hlen. unfold ps2, ps1. by rewrite !length_appendAll.
Qed.

(** The first loop, on the leaves [pre ++ rest] with [pre] already paired. *)
Section pairing.
Context (leaves : list TapLeaf) (Hix : ∀ i l, leaves !! i = Some l → ix l = i).

Lemma ix_at u l v : leaves = u ++ l :: v → ix l = length u.
Proof. intros E. apply Hix. rewrite E. by apply list_lookup_middle. Qed.
Lemma ix_before u v l : leaves = u ++ v → l ∈ u → (ix l < length u)%nat.
Proof. intros E [j Hj]%list_elem_of_lookup. rewrite (Hix j l); [by eapply lookup_lt_Some|]. rewrite E. by apply lookup_app_l_Some. Qed.

Definition leafPair (b : TapBranch) : Prop := ∃ l r, b = (NLeaf l, NLeaf r).

(** Looking up a proof list after appends and leaf updates. *)
Ltac lookups := rewrite ?appendProof_lookup, ?setLeaf_lookup, ?appendProof_lookup, ?setLeaf_lookup; repeat case_decide; try lia; try done.

Lemma setLeaf_good ps i l p : ix l = i → ps !! i = Some p → tp_InclusionProof p = [] → good (setLeaf i l ps) (NLeaf l).
Proof.
  intros Hi Hp Hn l' Hl'. apply list_elem_of_singleton in Hl' as ->. rewrite Hi.
  exists (mkTapProof l (tp_RootNode p) []), 0%nat. rewrite setLeaf_lookup, decide_True by done. rewrite Hp. cbn. rewrite Hn. do 2 (split; [done|]). split; [lia|done].
Qed.

(** The branches [bs] and the proofs of their leaves, which lie below [n]. *)
Definition paired (ps : list TapscriptProof) (bs : list TapBranch) : Prop := Forall (λ b, good ps (nodeOf b)) bs.
Lemma paired_same ps ps' bs : (∀ l, l ∈ leavesOf bs → ps' !! ix l = ps !! ix l) → paired ps bs → paired ps' bs.
Proof.
  intros Hs Hg. apply Forall_forall. intros b Hin. apply (goodFor_same ps); [|by eapply (proj1 (Forall_forall _ _) Hg)].
  intros l Hl. apply Hs. apply list_elem_of_In, in_concat. exists (leafDescendants (nodeOf b)).
  split; [|by apply list_elem_of_In]. apply list_elem_of_In. by apply (list_elem_of_fmap_2 (λ b, leafDescendants (nodeOf b))).
Qed.
Lemma leavesOf_snoc bs b : leavesOf (bs ++ [b]) = leavesOf bs ++ leafDescendants (nodeOf b).
Proof. unfold leavesOf. rewrite fmap_app, concat_app. cbn [fmap list_fmap concat]. by rewrite app_nil_r. Qed.

(** A pair of leaves. *)
Lemma pair_step pre l r rest ps p q : leaves = pre ++ l :: r :: rest →
  ps !! length pre = Some p → tp_InclusionProof p = [] → ps !! (length pre + 1)%nat = Some q → tp_InclusionProof q = [] →
  let ps1 := appendProof (length pre) (TapLeafHash r) (setLeaf (length pre) l ps) in
  let ps2 := appendProof (length pre + 1) (TapLeafHash l) (setLeaf (length pre + 1) r ps1) in
  (∀ j, (j < length pre ∨ length pre + 2 <= j)%nat → ps2 !! j = ps !! j) ∧ good ps2 (NBranch (NLeaf l) (NLeaf r)).
Proof.
  intros El Hp Hpn Hq Hqn ps1 ps2.
  pose proof (ix_at pre l (r :: rest) El) as Il. pose proof (ix_at (pre ++ [l]) r rest ltac:(by rewrite El, <- app_assoc)) as Ir.
  rewrite length_app in Ir. cbn in Ir. split; [intros j Hj; unfold ps2, ps1; lookups|].
  apply (good_merge (setLeaf (length pre + 1) r (setLeaf (length pre) l ps))).
  - apply (goodFor_same (setLeaf (length pre) l ps)); [|by apply (setLeaf_good ps _ l p)].
    intros x ->%list_elem_of_singleton. rewrite Il. lookups.
  - apply (setLeaf_good _ _ r q); [done| |done]. rewrite setLeaf_lookup, decide_False by lia. done.
  - intros x ->%list_elem_of_singleton. rewrite Il. unfold ps2, ps1. lookups.
  - intros x ->%list_elem_of_singleton. rewrite Ir. unfold ps2, ps1. lookups.
Qed.

(** The odd leaf at the end. *)
Lemma pair_odd bs a c leaf ps p : let pre := leavesOf bs ++ [a; c] in leaves = pre ++ [leaf] →
  ps !! length pre = Some p → tp_InclusionProof p = [] → good ps (NBranch (NLeaf a) (NLeaf c)) →
  let ps1 := appendProof (length pre) (TapHash (NBranch (NLeaf a) (NLeaf c))) (setLeaf (length pre) leaf ps) in
  let ps3 := appendProof (ix c) (TapLeafHash leaf) (appendProof (ix a) (TapLeafHash leaf) ps1) in
  (∀ l, l ∈ leavesOf bs → ps3 !! ix l = ps !! ix l) ∧ good ps3 (NBranch (NBranch (NLeaf a) (NLeaf c)) (NLeaf leaf)).
Proof.
  intros pre El Hp Hn Hb ps1 ps3. assert (Hlp : length pre = (length (leavesOf bs) + 2)%nat) by (unfold pre; by rewrite length_app).
  pose proof (ix_at pre leaf [] El) as Ii.
  pose proof (ix_at (leavesOf bs) a [c; leaf] ltac:(by rewrite El; unfold pre; rewrite <- app_assoc)) as Ia.
  pose proof (ix_at (leavesOf bs ++ [a]) c [leaf] ltac:(by rewrite El; unfold pre; rewrite <- !app_assoc)) as Ic. rewrite length_app in Ic. cbn in Ic.
  split.
  - intros l Hl. pose proof (ix_before (leavesOf bs) ([a; c] ++ [leaf]) l ltac:(by rewrite El; unfold pre; rewrite <- app_assoc) Hl).
    unfold ps3, ps1. lookups.
  - apply (good_merge (setLeaf (length pre) leaf ps)).
    + apply (goodFor_same ps); [|exact Hb]. intros l [->|[->|[]%not_elem_of_nil]%elem_of_cons]%elem_of_cons; lookups.
    + by apply (setLeaf_good ps _ leaf p).
    + intros l [->|[->|[]%not_elem_of_nil]%elem_of_cons]%elem_of_cons; unfold ps3, ps1; lookups.
    + intros l ->%list_elem_of_singleton. unfold ps3, ps1. rewrite Ii. lookups.
Qed.

Lemma pairLeaves_good rest : ∀ pre bs ps, leaves = pre ++ rest → length ps = length leaves →
  (∀ j p, (length pre <= j)%nat → ps !! j = Some p → tp_InclusionProof p = []) →
  leavesOf bs = pre → Forall leafPair bs → paired ps bs → (length rest = 1%nat → bs ≠ []) →
  ∃ bs' ps', pairLeaves sha256 idx (length pre) rest bs ps = Some (bs', ps') ∧ leavesOf bs' = leaves
    ∧ paired ps' bs' ∧ length ps' = length ps ∧ (bs' = [] → leaves = []).
Proof.
  assert (Hemp : ∀ bs' : list TapBranch, leavesOf bs' = leaves → bs' = [] → leaves = []) by (by intros ? <- ->).
  induction rest as [|leaf|l r rest IH] using pair_ind; intros pre bs ps El Hlen Hfresh Hbs Hpair Hg Hne.
  - exists bs, ps. rewrite app_nil_r in El. split; [done|]. split; [congruence|]. split; [done|]. split; [done|]. apply Hemp. congruence.
  - destruct bs as [|b bs _] using rev_ind; [by destruct (Hne eq_refl)|].
    apply Forall_app in Hpair as [_ [(a & c & ->) _]%Forall_cons]. apply Forall_app in Hg as [Hg [Hb _]%Forall_cons].
    rewrite leavesOf_snoc in Hbs. cbn in Hbs. subst pre.
    destruct (lookup_lt_is_Some_2 ps (length (leavesOf bs ++ [a; c]))) as [p Hp]; [rewrite Hlen, El, !length_app; cbn; lia|].
    destruct (pair_odd bs a c leaf ps p El Hp (Hfresh _ _ (Nat.le_refl _) Hp) Hb) as [Hold Hnew].
    cbn [pairLeaves]. rewrite last_snoc. cbn [mbind option_bind]. eexists (bs ++ [(nodeOf (NLeaf a, NLeaf c), NLeaf leaf)]), _.
    split; [do 3 f_equal; rewrite length_app; cbn [length]; by rewrite Nat.add_sub, take_app_length|].
    assert (Hl : leavesOf (bs ++ [(nodeOf (NLeaf a, NLeaf c), NLeaf leaf)]) = leaves) by (rewrite leavesOf_snoc, El, <- app_assoc; done).
    split; [exact Hl|]. split; [|split; [|by apply Hemp]].
    + apply Forall_app. split; [by apply (paired_same ps)|]. apply Forall_singleton. exact Hnew.
    + unfold appendProof, setLeaf. by rewrite !length_alter.
  - destruct (lookup_lt_is_Some_2 ps (length pre)) as [p Hp]; [rewrite Hlen, El, length_app; cbn; lia|].
    destruct (lookup_lt_is_Some_2 ps (length pre + 1)) as [q Hq]; [rewrite Hlen, El, length_app; cbn; lia|].
    destruct (pair_step pre l r rest ps p q El Hp (Hfresh _ _ (Nat.le_refl _) Hp) Hq (Hfresh _ _ (Nat.le_add_r _ 1) Hq)) as [Hold Hnew].
    cbn [pairLeaves]. set (ps2 := appendProof (length pre + 1) _ _) in *.
    assert (Hl2 : length ps2 = length ps) by (unfold ps2, appendProof, setLeaf; by rewrite !length_alter).
    destruct (IH (pre ++ [l; r]) (bs ++ [(NLeaf l, NLeaf r)]) ps2) as (bs' & ps' & E & H2 & H3 & H4 & H5).
    + by rewrite El, <- app_assoc.
    + congruence.
    + intros j x Hj Hx. rewrite length_app in Hj. cbn [length] in Hj.
      rewrite (Hold j) in Hx by (right; lia). eapply Hfresh; [|exact Hx]. lia.
    + rewrite leavesOf_snoc, Hbs. done.
    + apply Forall_app. split; [done|]. apply Forall_singleton. by eexists _, _.
    + apply Forall_app. split; [|by apply Forall_singleton]. apply (paired_same ps); [|done]. intros x Hx. apply Hold. left.
      rewrite Hbs in Hx. by apply (ix_before pre (l :: r :: rest)).
    + intros _. by destruct bs.
    + exists bs', ps'. rewrite length_app in E. cbn [length] in E. rewrite E, <- Hl2. done.
Qed.
End pairing.
End assembled.

Lemma leafIndex_lookup leaves i l : NoDup (TapLeafHash <$> leaves) → leaves !! i = Some l →
  leafIndex sha256 leaves !! TapLeafHash l = Some i.
Proof.
  unfold leafIndex. induction leaves as [|x leaves IH] using rev_ind; intros Hnd Hi; [done|].
  rewrite imap_app, foldl_app. cbn [imap foldl]. rewrite Nat.add_0_r.
  rewrite fmap_app in Hnd. apply NoDup_app in Hnd as (N1 & D & _).
  apply lookup_snoc_Some in Hi as [[Hlt Hi]|[-> ->]].
  - rewrite lookup_insert_ne; [by apply IH|]. intros E. apply (D (TapLeafHash l)); [|rewrite <- E; by left].
    apply list_elem_of_fmap_2. by eapply list_elem_of_lookup_2.
  - by rewrite lookup_insert_eq.
Qed.

(** A script tree is assembled with valid proofs: for every list of leaves
    with distinct hashes the assembly succeeds, the leaves of the tree are the
    given ones, and for each leaf the Merkle proof at its index leads from the
    leaf to the root hash, which is what the spending rules recompute, in fewer
    levels than there are leaves. *)
Lemma tap_tree_proofs (leaves : list TapLeaf) (Hne : leaves ≠ []) (Hnd : NoDup (TapLeafHash <$> leaves)) :
  ∃ tree root, AssembleTaprootScriptTree sha256 leaves = Some tree ∧ RootNode tree = Some root
  ∧ leafDescendants root ≡ₚ leaves ∧ length (LeafMerkleProofs tree) = length leaves
  ∧ ∀ i leaf, leaves !! i = Some leaf → LeafProofIndex tree !! TapLeafHash leaf = Some i
      ∧ ∃ p, LeafMerkleProofs tree !! i = Some p ∧ tp_TapLeaf p = leaf ∧ tp_RootNode p = Some root
        ∧ compute (LeafVersion leaf) (tp_InclusionProof p) (LeafScript leaf) = TapHash root
        ∧ ∃ k, (length (tp_InclusionProof p) = 32 * k ∧ k < length leaves)%nat.
Proof.
  destruct (decide (length leaves = 1%nat)) as [H1|H1].
  { destruct leaves as [|leaf [|]]; [done| |done]. eexists _, _. split; [done|]. split; [done|]. split; [done|]. split; [done|].
    intros [|i] l Hl; [|done]. injection Hl as <-. split; [apply lookup_singleton_eq|]. eexists. split; [done|]. split; [done|]. split; [done|].
    split; [by destruct leaf|]. exists 0%nat. cbn. lia. }
  set (idx := leafIndex sha256 leaves).
  assert (Hix : ∀ i l, leaves !! i = Some l → proofIndex sha256 idx (NLeaf l) = i).
  { intros i l Hl. unfold proofIndex. cbn [Taproot.TapHash]. unfold idx. by rewrite (leafIndex_lookup leaves i l). }
  set (ps0 := LeafMerkleProofs (NewIndexedTapScriptTree (length leaves))).
  destruct (pairLeaves_good idx leaves Hix leaves [] [] ps0) as (bs & ps & Ep & Hl & Hpd & Hlen & Hbs);
    [done|apply length_replicate| |done|by constructor|by constructor|lia|].
  { intros j p _ Hp. apply lookup_replicate in Hp as [-> _]. done. }
  assert (Hnb : bs ≠ []) by (intros E; by apply Hne, Hbs).
  destruct (mergeBranches_good idx (length bs) bs ps) as (root & ps' & Em & Hperm & Hgood & Hlen'); [done|done| |done|].
  { rewrite Hl. replace ((λ l, proofIndex sha256 idx (NLeaf l)) <$> leaves) with (seq 0 (length leaves)); [apply NoDup_seq|].
    apply list_eq. intros i. rewrite list_lookup_fmap. destruct (leaves !! i) as [l|] eqn:E; cbn.
    - rewrite (Hix i l E). apply lookup_seq. split; [done|]. by eapply lookup_lt_Some.
    - apply lookup_seq_ge. by apply lookup_ge_None. }
  assert (Ha : AssembleTaprootScriptTree sha256 leaves
    = Some (mkTree (Some root) ((λ p, mkTapProof (tp_TapLeaf p) (Some root) (tp_InclusionProof p)) <$> ps') idx)).
  { unfold AssembleTaprootScriptTree. destruct leaves as [|x [|y leaves]]; [done|done|]. fold idx ps0. cbn [length] in Ep. rewrite Ep.
    cbn [mbind option_bind]. by rewrite Em. }
  eexists _, root. split; [exact Ha|]. split; [done|]. rewrite Hl in Hperm. split; [done|].
  cbn [LeafMerkleProofs LeafProofIndex]. split; [rewrite length_fmap, Hlen', Hlen; apply length_replicate|].
  intros i leaf Hi. split; [by apply leafIndex_lookup|]. destruct (Hgood leaf) as (p & k & Hp & Hpl & Hk & Hc).
  { rewrite Hperm. by eapply list_elem_of_lookup_2. }
  rewrite (Hix i leaf Hi) in Hp. eexists. rewrite list_lookup_fmap, Hp.
  do 3 (split; [done|]). split; [done|]. exists k. by rewrite (Permutation_length Hperm) in Hk.
Qed.

(** ** Which scripts a root accepts *)

(** The strings hashed for a leaf, a branch, a tree, and a proof. *)
Definition tapString (tag : bytes) (msgs : list bytes) : bytes := sha256 tag ++ sha256 tag ++ concat msgs.
Definition leafString (t : TapLeaf) : bytes := tapString TagTapLeaf [[z2b (LeafVersion t)] ++ WriteVarBytesBuf (LeafScript t)].
Definition branchString (l r : bytes) : bytes :=
  match bytesCompare l r with Gt => tapString TagTapBranch [r; l] | _ => tapString TagTapBranch [l; r] end.
Fixpoint nodeStrings (n : TapNode) : list bytes :=
  match n with
  | NLeaf t => [leafString t]
  | NBranch l r => branchString (TapHash l) (TapHash r) :: nodeStrings l ++ nodeStrings r
  end.
Definition proofStrings (v : Z) (p s : bytes) : list bytes :=
  leafString (mkTapLeaf v s)
  :: ((λ i, branchString (compute v (take (32 * i) p) s) (slice (32 * i) (32 * i + 32) p)) <$> seq 0 (length p / 32)).

Lemma TapLeafHash_string t : TapLeafHash t = sha256 (leafString t).
Proof. done. Qed.
Lemma tapBranchHash_string l r : tapBranchHash l r = sha256 (branchString l r).
Proof. unfold Taproot.tapBranchHash, branchString. by destruct (bytesCompare l r). Qed.

Lemma proofStrings_snoc v p h s k : length p = (32 * k)%nat → length h = 32%nat →
  proofStrings v (p ++ h) s = proofStrings v p s ++ [branchString (compute v p s) h].
Proof.
  intros Hp Hh. unfold proofStrings. cbn [app]. f_equal. rewrite length_app, Hp, Hh.
  replace ((32 * k + 32) / 32)%nat with (k + 1)%nat by (replace (32 * k + 32)%nat with ((k + 1) * 32)%nat by lia; by rewrite Nat.div_mul).
  replace (32 * k / 32)%nat with k by (by rewrite Nat.mul_comm, Nat.div_mul).
  rewrite seq_app, fmap_app. cbn [seq fmap list_fmap Nat.add]. f_equal.
  - apply list_fmap_ext. intros i j Hj. apply lookup_seq in Hj as [-> Hj]. f_equal.
    + by rewrite take_app_le by lia.
    + unfold slice. rewrite drop_app_le by lia. rewrite take_app_le; [done|]. rewrite length_drop. lia.
  - f_equal. rewrite take_app_length' by lia. f_equal. unfold slice. rewrite <- Hp, drop_app_length. apply take_ge. lia.
Qed.

(** Strings of leaves and of branches never agree, but for a collision of the tags. *)
Lemma leaf_branch_strings t l r : leafString t = branchString l r → sha256 TagTapLeaf = sha256 TagTapBranch.
Proof.
  unfold leafString, branchString, tapString. destruct (bytesCompare l r); intros E; apply app_inj_1 in E as [E _]; by rewrite ?Hsha.
Qed.
Lemma branch_strings l r l' r' : length l = 32%nat → length r = 32%nat → length l' = 32%nat → length r' = 32%nat →
  branchString l r = branchString l' r' → (l = l' ∧ r = r') ∨ (l = r' ∧ r = l').
Proof.
  intros H1 H2 H3 H4. unfold branchString, tapString. cbn [concat].
  destruct (bytesCompare l r), (bytesCompare l' r'); intros E; do 2 apply app_inv_head in E; rewrite !app_nil_r in E;
    apply app_inj_1 in E as [-> ->]; auto; congruence.
Qed.
Lemma leaf_strings t t' : inU 8 (LeafVersion t) → inU 8 (LeafVersion t') → wfScript (LeafScript t) → wfScript (LeafScript t') →
  leafString t = leafString t' → t = t'.
Proof.
  destruct t as [v s], t' as [v' s']. cbn [LeafVersion LeafScript]. intros Hv Hv' Hs Hs' E. unfold leafString, tapString in E.
  do 2 apply app_inv_head in E. cbn [concat app LeafVersion LeafScript] in E. rewrite !app_nil_r in E. injection E as Ev Es.
  apply (f_equal b2z) in Ev. rewrite !b2z_z2b, !Z.mod_small in Ev by (unfold inU in *; lia). subst v'. f_equal.
  pose proof (codec_prefix_free WriteVarBytesBuf (readScriptBuf maxWitnessItemSize String.EmptyString) (wfScriptIn maxWitnessItemSize) s s' [] []) as Hpf.
  rewrite !app_nil_r in Hpf. by apply Hpf; [split..|].
Qed.

Definition wfLeaf (t : TapLeaf) : Prop := inU 8 (LeafVersion t) ∧ wfScript (LeafScript t).
Definition tags : list bytes := [TagTapLeaf; TagTapBranch].

Abbreviation tagColl S S' := (shaCollision sha256 (tags ++ S) (tags ++ S')).

Lemma coll_tag S S' : sha256 TagTapLeaf = sha256 TagTapBranch → tagColl S S'.
Proof.
  intros E. exists TagTapLeaf, TagTapBranch. split; [apply elem_of_app; left; by left|].
  split; [apply elem_of_app; left; right; by left|]. by split.
Qed.
Lemma coll_mono S S' T T' : S ⊆ T → S' ⊆ T' → tagColl S S' → tagColl T T'.
Proof.
  intros H1 H2 (x & y & Hx & Hy & E). exists x, y. apply elem_of_app in Hx, Hy.
  split; [apply elem_of_app; destruct Hx; auto|]. split; [apply elem_of_app; destruct Hy; auto|done].
Qed.
Lemma coll_str x y S S' : x ∈ S → y ∈ S' → sha256 x = sha256 y → x = y ∨ tagColl S S'.
Proof.
  intros Hx Hy E. destruct (decide (x = y)); [by left|right]. exists x, y. split; [apply elem_of_app; by right|].
  split; [apply elem_of_app; by right|done].
Qed.
Lemma compute_length v p s : length (compute v p s) = 32%nat.
Proof.
  unfold computeMerkleRootFromProof. destruct (length p / 32)%nat; [apply Hsha|]. rewrite seq_S, foldl_app. apply tapBranchHash_length.
Qed.

(** A proof that leads to the hash of a tree starts at one of its leaves. *)
Lemma proof_sound v s k : wfLeaf (mkTapLeaf v s) → ∀ p n, length p = (32 * k)%nat → Forall wfLeaf (leafDescendants n) →
  compute v p s = TapHash n →
  mkTapLeaf v s ∈ leafDescendants n ∨ tagColl (proofStrings v p s) (nodeStrings n).
Proof.
  intros [Hw1 Hw2]. induction k as [|k IH]; intros p n Hp Hn E.
  - destruct p; [|done]. rewrite compute_nil, TapLeafHash_string in E. destruct n as [t|l r].
    + destruct (coll_str _ _ (proofStrings v [] s) (nodeStrings (NLeaf t)) ltac:(by left) ltac:(by left) E) as [Es|]; [|by right].
      left. apply list_elem_of_singleton. apply Forall_cons in Hn as [[W1 W2] _]. by apply leaf_strings.
    + cbn [Taproot.TapHash] in E. rewrite tapBranchHash_string in E.
      destruct (coll_str _ _ (proofStrings v [] s) (nodeStrings (NBranch l r)) ltac:(by left) ltac:(by left) E) as [Es|]; [|by right].
      right. by eapply coll_tag, leaf_branch_strings.
  - assert (∃ q h, p = q ++ h ∧ length q = (32 * k)%nat ∧ length h = 32%nat) as (q & h & -> & Hq & Hh).
    { exists (take (32 * k) p), (drop (32 * k) p). rewrite take_drop, length_take, length_drop. split; [done|]. lia. }
    rewrite (compute_snoc _ _ _ _ k) in E by done. rewrite tapBranchHash_string in E.
    rewrite (proofStrings_snoc _ _ _ _ k) by done.
    assert (Hin : branchString (compute v q s) h ∈ proofStrings v q s ++ [branchString (compute v q s) h]) by (apply elem_of_app; right; by left).
    destruct n as [t|l r].
    + destruct (coll_str _ _ _ (nodeStrings (NLeaf t)) Hin ltac:(by left) E) as [Es|]; [|by right].
      right. eapply coll_tag, leaf_branch_strings. by symmetry.
    + cbn [Taproot.TapHash] in E. rewrite tapBranchHash_string in E.
      destruct (coll_str _ _ _ (nodeStrings (NBranch l r)) Hin ltac:(by left) E) as [Es|]; [|by right].
      apply Forall_app in Hn as [Hl Hr].
      apply branch_strings in Es as [[Eq _]|[Eq _]]; [| |apply compute_length|done|apply TapHash_length..].
      * destruct (IH q l Hq Hl Eq) as [Hi|Hc]; [left; apply elem_of_app; by left|right].
        revert Hc. apply coll_mono; [set_solver|cbn; set_solver].
      * destruct (IH q r Hq Hr Eq) as [Hi|Hc]; [left; apply elem_of_app; by right|right].
        revert Hc. apply coll_mono; [set_solver|cbn; set_solver].
Qed.

(** ** Control blocks on the wire *)
Lemma version_byte b : Z.land (b2z b) 1 = 0 →
  ∀ o : bool, Z.land (b2z (z2b (Z.lor (b2z b) (if o then 1 else 0)))) 1 = (if o then 1 else 0)
  ∧ Z.land (b2z (z2b (Z.lor (b2z b) (if o then 1 else 0)))) TaprootLeafMask = b2z b.
Proof. destruct b; intros H [|]; first [discriminate H|by vm_compute]. Qed.
Lemma version_byte_z v : inU 8 v → Z.land v 1 = 0 →
  ∀ o : bool, Z.land (b2z (z2b (Z.lor v (if o then 1 else 0)))) 1 = (if o then 1 else 0)
  ∧ Z.land (b2z (z2b (Z.lor v (if o then 1 else 0)))) TaprootLeafMask = v.
Proof.
  intros Hv He o. assert (E : b2z (z2b v) = v) by (rewrite b2z_z2b; by apply Z.mod_small).
  pose proof (version_byte (z2b v)) as H. rewrite E in H. by apply H.
Qed.

Lemma mr_control_roundtrip c k : inU 8 (mr_LeafVersion c) → Z.land (mr_LeafVersion c) 1 = 0 →
  length (mr_InclusionProof c) = (32 * k)%nat → (k <= 128)%nat →
  ParseMerkleRootControlBlock (MerkleRootControlBlock_ToBytes c) = Ok c.
Proof.
  intros Hv He Hl Hk. destruct c as [v p]. cbn [mr_LeafVersion mr_InclusionProof] in *.
  unfold ParseMerkleRootControlBlock, MerkleRootControlBlock_ToBytes. cbn [mr_LeafVersion mr_InclusionProof app].
  assert (Hz : zlen (z2b (Z.lor v 1) :: p) = 1 + 32 * Z.of_nat k) by (unfold zlen; cbn [length]; lia). rewrite Hz.
  unfold MerkleRootControlBlockBaseSize, MerkleRootControlBlockMaxSize, ControlBlockNodeSize, ControlBlockMaxNodeCount, MerkleRootControlBlockBaseSize.
  rewrite (proj2 (Z.ltb_ge _ _)), (proj2 (Z.ltb_ge _ _)) by lia.
  replace ((1 + 32 * Z.of_nat k - 1) mod 32) with 0 by (replace (1 + 32 * Z.of_nat k - 1) with (Z.of_nat k * 32) by lia; by rewrite Z.mod_mul).
  destruct (version_byte_z v Hv He true) as [-> ->]. done.
Qed.
Lemma mr_control_parsed b c : ParseMerkleRootControlBlock b = Ok c →
  b = MerkleRootControlBlock_ToBytes c ∧ inU 8 (mr_LeafVersion c) ∧ ∃ k, length (mr_InclusionProof c) = (32 * k)%nat.
Proof.
  unfold ParseMerkleRootControlBlock. destruct (_ <? _); [done|]. destruct (_ <? _); [done|].
  destruct (Z.eqb_spec ((zlen b - MerkleRootControlBlockBaseSize) mod ControlBlockNodeSize) 0) as [Hm|]; [|done].
  destruct b as [|x p]; [done|]. cbn [negb]. destruct (Z.eqb_spec (Z.land (b2z x) 1) 1) as [Ho|]; [|done]. intros [= <-].
  unfold MerkleRootControlBlock_ToBytes. cbn [mr_LeafVersion mr_InclusionProof app negb]. split; [f_equal; revert Ho; by destruct x|].
  split; [split; [apply Z.land_nonneg; right; done|destruct x; vm_compute; reflexivity]|].
  apply Z.mod_divide in Hm as [k Hm]; [|done]. exists (Z.to_nat k). unfold zlen, ControlBlockNodeSize, MerkleRootControlBlockBaseSize in Hm.
  cbn [length] in Hm. lia.
Qed.

(** A pay-to-Merkle-root output can be spent with exactly the scripts of its
    tree: when the output commits to the root of a script tree, every leaf has a
    control block that the spending rules parse and accept, and a script they
    accept with any control block is a leaf of the tree, unless two of the
    strings hashed for the proof and for the tree collide under SHA-256. *)
Lemma merkle_root_spend_iff (leaves : list TapLeaf) (tree : IndexedTapScriptTree) (root : TapNode)
  (Hnd : NoDup (TapLeafHash <$> leaves)) (Hw : Forall wfLeaf leaves)
  (Heven : Forall (λ l, Z.land (LeafVersion l) 1 = 0) leaves) (Hsize : (length leaves <= 128)%nat)
  (Ha : AssembleTaprootScriptTree sha256 leaves = Some tree) (Hr : RootNode tree = Some root) :
  (∀ i leaf, leaves !! i = Some leaf → ∃ p c, LeafMerkleProofs tree !! i = Some p
     ∧ ParseMerkleRootControlBlock (MerkleRootControlBlock_ToBytes (mkMRControlBlock (LeafVersion leaf) (tp_InclusionProof p))) = Ok c
     ∧ VerifyMerkleRootLeafCommitment sha256 c (TapHash root) (LeafScript leaf) = Ok tt)
  ∧ (∀ b c script, wfScript script → ParseMerkleRootControlBlock b = Ok c →
       VerifyMerkleRootLeafCommitment sha256 c (TapHash root) script = Ok tt →
       mkTapLeaf (mr_LeafVersion c) script ∈ leaves
       ∨ tagColl (proofStrings (mr_LeafVersion c) (mr_InclusionProof c) script) (nodeStrings root)).
Proof.
  assert (Hne : leaves ≠ []) by (intros ->; cbn in Ha; injection Ha as <-; done).
  destruct (tap_tree_proofs leaves Hne Hnd) as (tree' & root' & Ha' & Hr' & Hperm & _ & Hp).
  assert (tree' = tree) as -> by congruence. assert (root' = root) as -> by congruence. split.
  - intros i leaf Hi. destruct (Hp i leaf Hi) as (_ & p & Ep & _ & _ & Ec & k & Hk & Hkn).
    rewrite Forall_lookup in Hw, Heven. destruct (Hw i leaf Hi) as [Hv _]. eexists p, _. split; [done|].
    split; [apply (mr_control_roundtrip _ k); [done|by apply (Heven i)|done|lia]|].
    unfold VerifyMerkleRootLeafCommitment, MerkleRootControlBlock_RootHash. cbn [mr_LeafVersion mr_InclusionProof].
    by rewrite Ec, bool_decide_eq_true_2.
  - intros b c script Hs Hb Hv. apply mr_control_parsed in Hb as (_ & Hv8 & k & Hk).
    unfold VerifyMerkleRootLeafCommitment, MerkleRootControlBlock_RootHash in Hv.
    destruct (bool_decide _) eqn:E; [|done]. apply bool_decide_eq_true in E.
    destruct (proof_sound (mr_LeafVersion c) script k (conj Hv8 Hs) (mr_InclusionProof c) root Hk) as [Hin|Hc]; [by rewrite Hperm|done| |by right].
    left. by rewrite <- Hperm.
Qed.
End facts.

(** ** Examples *)
Module TapDemo.
Definition a : TapLeaf := NewBaseTapLeaf [x51].
Definition b : TapLeaf := NewBaseTapLeaf [x52].
Definition c : TapLeaf := NewBaseTapLeaf [x53].

(** A toy hash that depends on more than a prefix: the sum of the bytes at the
    positions that agree modulo 32, each weighted by its position. *)
Definition mix (s : bytes) : bytes :=
  (λ i, z2b (foldl (λ acc p, acc * 3 + b2z p.2 * (Z.of_nat p.1 + 1)) (zlen s + Z.of_nat i)
               (filter (λ p : nat * byte, p.1 `mod` 32 = i)%nat (imap pair s)))) <$> seq 0 32.
Lemma mix_length s : length (mix s) = 32%nat.
Proof. unfold mix. by rewrite length_fmap, length_seq. Qed.
End TapDemo.

Lemma merkle_root_spend_iff_witness : ∃ tree root,
  AssembleTaprootScriptTree TapDemo.mix [TapDemo.a; TapDemo.b; TapDemo.c] = Some tree ∧ RootNode tree = Some root
  ∧ ∃ p cb, LeafMerkleProofs tree !! 1%nat = Some p
     ∧ ParseMerkleRootControlBlock (MerkleRootControlBlock_ToBytes (mkMRControlBlock BaseLeafVersion (tp_InclusionProof p))) = Ok cb
     ∧ VerifyMerkleRootLeafCommitment TapDemo.mix cb (TapHash TapDemo.mix root) [x52] = Ok tt.
Proof.
  destruct (AssembleTaprootScriptTree TapDemo.mix [TapDemo.a; TapDemo.b; TapDemo.c]) as [tree|] eqn:E; [|vm_compute in E; discriminate E].
  destruct (RootNode tree) as [root|] eqn:Er; [|exfalso; revert Er; vm_compute in E; injection E as <-; discriminate].
  exists tree, root. split; [done|]. split; [done|].
  apply (proj1 (merkle_root_spend_iff TapDemo.mix TapDemo.mix_length [TapDemo.a; TapDemo.b; TapDemo.c] tree root
    ltac:(apply (bool_decide_unpack _); vm_compute; exact I)
    ltac:(repeat constructor; vm_compute; discriminate || reflexivity)
    ltac:(repeat constructor) ltac:(cbn; lia) E Er) 1%nat TapDemo.b eq_refl).
Defined.

(** With two equal leaves the proofs go wrong: the index of leaf hashes holds
    only the last position, so the first of the two is left without its upper
    levels, and the control block built from it is refused. *)
Lemma tap_tree_duplicate_leaves :
  ∃ tree root p, AssembleTaprootScriptTree TapDemo.mix [TapDemo.a; TapDemo.b; TapDemo.a; TapDemo.c] = Some tree
  ∧ RootNode tree = Some root ∧ LeafMerkleProofs tree !! 0%nat = Some p
  ∧ VerifyMerkleRootLeafCommitment TapDemo.mix (mkMRControlBlock BaseLeafVersion (tp_InclusionProof p)) (TapHash TapDemo.mix root) [x51]
    = Err (ScriptError ErrMerkleRootMerkleProofInvalid).
Proof. eexists _, _, _. split; [vm_compute; reflexivity|]. split; [reflexivity|]. split; [reflexivity|]. vm_compute. reflexivity. Qed.
