(* ===== verification/Opcodes.v ===== *)
(** * The opcodes of the script engine (src/node/txscript/opcode.go,
    sigvalidate.go, and the state of engine.go)

    One definition per opcode handler, as computations over the engine.  Hash
    functions, the Schnorr library and the XMSS verifier are parameters. *)
From Stdlib Require Import ZArith Lia Strings.Byte.
From stdpp Require Import base list gmap.
From S2P Require Import Prelude WireTx Merkle Script ScriptStack SigHash Utxo Covenant TxRules Taproot.
Open Scope Z_scope.
Open Scope list_scope.

(** ** Opcode values *)
Definition OP_1NEGATE : Z := 0x4f.
Definition OP_RESERVED : Z := 0x50.
Definition OP_NOP : Z := 0x61.
Definition OP_VER : Z := 0x62.
Definition OP_IF : Z := 0x63.
Definition OP_NOTIF : Z := 0x64.
Definition OP_VERIF : Z := 0x65.
Definition OP_VERNOTIF : Z := 0x66.
Definition OP_ELSE : Z := 0x67.
Definition OP_ENDIF : Z := 0x68.
Definition OP_VERIFY : Z := 0x69.
Definition OP_CHECKLOCKTIMEVERIFY : Z := 0xb1.
Definition OP_CHECKSEQUENCEVERIFY : Z := 0xb2.
Definition OP_TOALTSTACK : Z := 0x6b.
Definition OP_FROMALTSTACK : Z := 0x6c.
Definition OP_2DROP : Z := 0x6d.
Definition OP_2DUP : Z := 0x6e.
Definition OP_3DUP : Z := 0x6f.
Definition OP_2OVER : Z := 0x70.
Definition OP_2ROT : Z := 0x71.
Definition OP_2SWAP : Z := 0x72.
Definition OP_IFDUP : Z := 0x73.
Definition OP_DEPTH : Z := 0x74.
Definition OP_DROP : Z := 0x75.
Definition OP_DUP : Z := 0x76.
Definition OP_NIP : Z := 0x77.
Definition OP_OVER : Z := 0x78.
Definition OP_PICK : Z := 0x79.
Definition OP_ROLL : Z := 0x7a.
Definition OP_ROT : Z := 0x7b.
Definition OP_SWAP : Z := 0x7c.
Definition OP_TUCK : Z := 0x7d.
Definition OP_CAT : Z := 0x7e.
Definition OP_SUBSTR : Z := 0x7f.
Definition OP_LEFT : Z := 0x80.
Definition OP_RIGHT : Z := 0x81.
Definition OP_SIZE : Z := 0x82.
Definition OP_INVERT : Z := 0x83.
Definition OP_AND : Z := 0x84.
Definition OP_OR : Z := 0x85.
Definition OP_XOR : Z := 0x86.
Definition OP_EQUALVERIFY : Z := 0x88.
Definition OP_RESERVED1 : Z := 0x89.
Definition OP_RESERVED2 : Z := 0x8a.
Definition OP_1ADD : Z := 0x8b.
Definition OP_1SUB : Z := 0x8c.
Definition OP_2MUL : Z := 0x8d.
Definition OP_2DIV : Z := 0x8e.
Definition OP_NEGATE : Z := 0x8f.
Definition OP_ABS : Z := 0x90.
Definition OP_NOT : Z := 0x91.
Definition OP_0NOTEQUAL : Z := 0x92.
Definition OP_ADD : Z := 0x93.
Definition OP_SUB : Z := 0x94.
Definition OP_MUL : Z := 0x95.
Definition OP_DIV : Z := 0x96.
Definition OP_MOD : Z := 0x97.
Definition OP_LSHIFT : Z := 0x98.
Definition OP_RSHIFT : Z := 0x99.
Definition OP_BOOLAND : Z := 0x9a.
Definition OP_BOOLOR : Z := 0x9b.
Definition OP_NUMEQUAL : Z := 0x9c.
Definition OP_NUMEQUALVERIFY : Z := 0x9d.
Definition OP_NUMNOTEQUAL : Z := 0x9e.
Definition OP_LESSTHAN : Z := 0x9f.
Definition OP_GREATERTHAN : Z := 0xa0.
Definition OP_LESSTHANOREQUAL : Z := 0xa1.
Definition OP_GREATERTHANOREQUAL : Z := 0xa2.
Definition OP_MIN : Z := 0xa3.
Definition OP_MAX : Z := 0xa4.
Definition OP_WITHIN : Z := 0xa5.
Definition OP_RIPEMD160 : Z := 0xa6.
Definition OP_SHA1 : Z := 0xa7.
Definition OP_SHA256 : Z := 0xa8.
Definition OP_HASH256 : Z := 0xaa.
Definition OP_CODESEPARATOR : Z := 0xab.
Definition OP_CHECKSIG : Z := 0xac.
Definition OP_CHECKSIGVERIFY : Z := 0xad.
Definition OP_CHECKMULTISIG : Z := 0xae.
Definition OP_CHECKMULTISIGVERIFY : Z := 0xaf.
Definition OP_CHECKSIGADD : Z := 0xba.
Definition OP_CHECKXMSSSIG : Z := 0xde.
Definition OP_NOP1 : Z := 0xb0.
Definition OP_NOP4 : Z := 0xb3.
Definition OP_NOP5 : Z := 0xb4.
Definition OP_NOP6 : Z := 0xb5.
Definition OP_NOP7 : Z := 0xb6.
Definition OP_NOP8 : Z := 0xb7.
Definition OP_NOP9 : Z := 0xb8.
Definition OP_NOP10 : Z := 0xb9.

Definition MaxOpsPerScript : Z := 201.
Definition MaxScriptElementSize : Z := 520.
Definition MaxStackSize : Z := 1000.
Definition sigOpsDelta : Z := 50.
Definition MaxTxInSequenceNum : Z := 0xffffffff.

(** ** The state of the engine *)
Inductive cond := OpCondFalse | OpCondTrue | OpCondSkip.
#[export] Instance cond_eq_dec : EqDecision cond.
Proof. solve_decision. Defined.

Record tapscriptExecutionCtx := mkTapCtx {
  annex : option bytes;
  codeSepPos : Z;
  tapLeafHash : bytes;
  opsBudget : Z }.

(** The fields that [NewEngine] sets for good. *)
Record engineInput := mkInput {
  ei_tx : MsgTx;
  ei_txIdx : Z;
  ei_hashCache : option TxSigHashes;
  ei_prevOutFetcher : PrevOutputFetcher;
  ei_witnessVersion : Z;
  ei_witnessProgram : option bytes;
  ei_inputAmount : Z }.

Record Engine := mkEngine {
  e_in : engineInput;
  e_sigCache : option SigCache;
  scripts : list bytes;
  scriptIdx : nat;
  opcodeIdx : Z;
  lastCodeSep : Z;
  tokenizer : ScriptTokenizer;
  dstack : stack;
  astack : stack;
  condStack : list cond;
  numOps : Z;
  tapscriptCtx : option tapscriptExecutionCtx }.

Definition vM (A : Type) : Type := sM Engine A.

Definition withDstack (s : stack) (vm : Engine) : Engine :=
  mkEngine (e_in vm) (e_sigCache vm) (scripts vm) (scriptIdx vm) (opcodeIdx vm) (lastCodeSep vm) (tokenizer vm) s (astack vm)
    (condStack vm) (numOps vm) (tapscriptCtx vm).
Definition withAstack (s : stack) (vm : Engine) : Engine :=
  mkEngine (e_in vm) (e_sigCache vm) (scripts vm) (scriptIdx vm) (opcodeIdx vm) (lastCodeSep vm) (tokenizer vm) (dstack vm) s
    (condStack vm) (numOps vm) (tapscriptCtx vm).
Definition withCond (c : list cond) (vm : Engine) : Engine :=
  mkEngine (e_in vm) (e_sigCache vm) (scripts vm) (scriptIdx vm) (opcodeIdx vm) (lastCodeSep vm) (tokenizer vm) (dstack vm) (astack vm)
    c (numOps vm) (tapscriptCtx vm).
Definition withCtx (c : option tapscriptExecutionCtx) (vm : Engine) : Engine :=
  mkEngine (e_in vm) (e_sigCache vm) (scripts vm) (scriptIdx vm) (opcodeIdx vm) (lastCodeSep vm) (tokenizer vm) (dstack vm) (astack vm)
    (condStack vm) (numOps vm) c.
Definition withSigCache (c : option SigCache) (vm : Engine) : Engine :=
  mkEngine (e_in vm) c (scripts vm) (scriptIdx vm) (opcodeIdx vm) (lastCodeSep vm) (tokenizer vm) (dstack vm) (astack vm)
    (condStack vm) (numOps vm) (tapscriptCtx vm).
Definition withLastCodeSep (n : Z) (vm : Engine) : Engine :=
  mkEngine (e_in vm) (e_sigCache vm) (scripts vm) (scriptIdx vm) (opcodeIdx vm) n (tokenizer vm) (dstack vm) (astack vm)
    (condStack vm) (numOps vm) (tapscriptCtx vm).

(** A stack operation on the data stack and on the alternative stack. *)
Definition onD {A} (m : sM stack A) : vM A := λ vm, let '(r, s) := m (dstack vm) in (r, withDstack s vm).
Definition onA {A} (m : sM stack A) : vM A := λ vm, let '(r, s) := m (astack vm) in (r, withAstack s vm).

Definition PopByteArray' : vM bytes := onD PopByteArray.
Definition PopInt' : vM Z := onD PopInt.
Definition PushByteArray' (b : bytes) : vM unit := onD (PushByteArray b).
Definition PushInt' (n : Z) : vM unit := onD (PushInt n).
Definition PushBool' (b : bool) : vM unit := onD (PushBool b).

Definition isBranchExecuting (vm : Engine) : bool :=
  match last (condStack vm) with
  | None => true
  | Some c => bool_decide (c = OpCondTrue)
  end.

Definition tallyOpCost (cost : Z) : vM unit := λ vm,
  match tapscriptCtx vm with
  | None => (Err EnginePanic, vm)
  | Some t =>
      let budget := i32 (opsBudget t - cost) in
      let vm' := withCtx (Some (mkTapCtx (annex t) (codeSepPos t) (tapLeafHash t) budget)) vm in
      (if budget <? 0 then Err (ScriptError ErrTaprootMaxSigOps) else Ok tt, vm')
  end.
Definition tallysigOp : vM unit := tallyOpCost sigOpsDelta.

(** ** Constants, flow control and lock times *)
(** A handler takes the value of the opcode and the data it pushes. *)
Definition handler : Type := Z → bytes → vM unit.
Definition opcodeDisabled : handler := λ _ _, fail ErrDisabledOpcode.
Definition opcodeReserved : handler := λ _ _, fail ErrReservedOpcode.
Definition opcodeInvalid : handler := λ _ _, fail ErrReservedOpcode.
Definition opcodeFalse : handler := λ _ _, PushByteArray' [].
Definition opcodePushData : handler := λ _ data, PushByteArray' data.
Definition opcode1Negate : handler := λ _ _, PushInt' (-1).
Definition opcodeN : handler := λ op _, PushInt' (u8 (op - (OP_1 - 1))).
Definition opcodeNop : handler := λ op _,
  if (op =? OP_NOP1) || (op =? OP_NOP4) || (op =? OP_NOP5) || (op =? OP_NOP6) || (op =? OP_NOP7) || (op =? OP_NOP8)
     || (op =? OP_NOP9) || (op =? OP_NOP10)
  then fail ErrDiscourageUpgradableNOPs else sret tt.

Definition popIfBool : vM bool :=
  vm! so := PopByteArray' in
  if 1 <? zlen so then fail ErrMinimalIf else
  if (zlen so =? 1) && negb (bool_decide (so = [x01])) then fail ErrMinimalIf else
  sret (asBool so).
Definition pushCond (negated : bool) : vM unit :=
  vm! executing := sget isBranchExecuting in
  vm! condVal := (if executing : bool
                  then vm! ok := popIfBool in sret (if xorb ok negated then OpCondTrue else OpCondFalse)
                  else sret OpCondSkip) in
  smod (λ vm, withCond (condStack vm ++ [condVal]) vm).
Definition opcodeIf : handler := λ _ _, pushCond false.
Definition opcodeNotIf : handler := λ _ _, pushCond true.
Definition opcodeElse : handler := λ _ _ vm,
  match last (condStack vm) with
  | None => (Err (ScriptError ErrUnbalancedConditional), vm)
  | Some c =>
      let c' := match c with OpCondTrue => OpCondFalse | OpCondFalse => OpCondTrue | OpCondSkip => OpCondSkip end in
      (Ok tt, withCond (take (length (condStack vm) - 1) (condStack vm) ++ [c']) vm)
  end.
Definition opcodeEndif : handler := λ _ _ vm,
  match last (condStack vm) with
  | None => (Err (ScriptError ErrUnbalancedConditional), vm)
  | Some _ => (Ok tt, withCond (take (length (condStack vm) - 1) (condStack vm)) vm)
  end.

Definition abstractVerify (c : scriptErr) : vM unit :=
  vm! verified := onD PopBool in
  if verified : bool then sret tt else fail c.
Definition opcodeVerify : handler := λ _ _, abstractVerify ErrVerify.
Definition opcodeReturn : handler := λ _ _, fail ErrEarlyReturn.

Definition verifyLockTime (txLockTime threshold lockTime : Z) : option scriptErr :=
  if negb ((txLockTime <? threshold) && (lockTime <? threshold) || (threshold <=? txLockTime) && (threshold <=? lockTime))
  then Some ErrUnsatisfiedLockTime
  else if txLockTime <? lockTime then Some ErrUnsatisfiedLockTime else None.
Definition verifyLockTimeM (txLockTime threshold lockTime : Z) : vM unit :=
  match verifyLockTime txLockTime threshold lockTime with Some c => fail c | None => sret tt end.

(** The number on top of the stack, of at most five bytes, which stays there. *)
Definition peekLockTime : vM Z :=
  vm! so := onD (PeekByteArray 0) in
  λ vm, (liftNum (MakeScriptNum so (verifyMinimalData (dstack vm)) 5), vm).
Definition thisInput : vM TxIn := λ vm,
  match at_ (tx_TxIn (ei_tx (e_in vm))) (ei_txIdx (e_in vm)) with Some i => (Ok i, vm) | None => (Err EnginePanic, vm) end.

Definition opcodeCheckLockTimeVerify : handler := λ _ _,
  vm! lockTime := peekLockTime in
  if lockTime <? 0 then fail ErrNegativeLockTime else
  vm! txLockTime := sget (λ vm, tx_LockTime (ei_tx (e_in vm))) in
  vm! _ := verifyLockTimeM txLockTime LockTimeThreshold lockTime in
  vm! txIn := thisInput in
  if ti_Sequence txIn =? MaxTxInSequenceNum then fail ErrUnsatisfiedLockTime else sret tt.

Definition opcodeCheckSequenceVerify : handler := λ _ _,
  vm! sequence := peekLockTime in
  if sequence <? 0 then fail ErrNegativeLockTime else
  if negb (Z.land sequence SequenceLockTimeDisabled =? 0) then sret tt else
  vm! version := sget (λ vm, tx_Version (ei_tx (e_in vm))) in
  if u32 version <? 2 then fail ErrUnsatisfiedLockTime else
  vm! txIn := thisInput in
  let txSequence := ti_Sequence txIn in
  if negb (Z.land txSequence SequenceLockTimeDisabled =? 0) then fail ErrUnsatisfiedLockTime else
  let lockTimeMask := Z.lor SequenceLockTimeIsSeconds SequenceLockTimeMask in
  verifyLockTimeM (Z.land txSequence lockTimeMask) SequenceLockTimeIsSeconds (Z.land sequence lockTimeMask).

(** ** Stack words *)
Definition opcodeToAltStack : handler := λ _ _, vm! so := PopByteArray' in onA (PushByteArray so).
Definition opcodeFromAltStack : handler := λ _ _, vm! so := onA PopByteArray in PushByteArray' so.
Definition opcode2Drop : handler := λ _ _, onD (DropN 2).
Definition opcode2Dup : handler := λ _ _, onD (DupN 2).
Definition opcode3Dup : handler := λ _ _, onD (DupN 3).
Definition opcode2Over : handler := λ _ _, onD (OverN 2).
Definition opcode2Rot : handler := λ _ _, onD (RotN 2).
Definition opcode2Swap : handler := λ _ _, onD (SwapN 2).
Definition opcodeIfDup : handler := λ _ _,
  vm! so := onD (PeekByteArray 0) in if asBool so then PushByteArray' so else sret tt.
Definition opcodeDepth : handler := λ _ _, vm! d := sget (λ vm, Depth (dstack vm)) in PushInt' d.
Definition opcodeDrop : handler := λ _ _, onD (DropN 1).
Definition opcodeDup : handler := λ _ _, onD (DupN 1).
Definition opcodeNip : handler := λ _ _, onD (NipN 1).
Definition opcodeOver : handler := λ _ _, onD (OverN 1).
Definition opcodePick : handler := λ _ _, vm! val := PopInt' in onD (PickN (scriptNumInt32 val)).
Definition opcodeRoll : handler := λ _ _, vm! val := PopInt' in onD (RollN (scriptNumInt32 val)).
Definition opcodeRot : handler := λ _ _, onD (RotN 1).
Definition opcodeSwap : handler := λ _ _, onD (SwapN 1).
Definition opcodeTuck : handler := λ _ _, onD Tuck.

(** ** Byte strings *)
Definition opcodeCat : handler := λ _ _,
  vm! ctx := sget tapscriptCtx in
  match ctx with
  | None => fail ErrDisabledOpcode
  | Some _ =>
      vm! depth := sget (λ vm, Depth (dstack vm)) in
      if depth <? 2 then fail ErrInvalidStackOperation else
      vm! vch2 := PopByteArray' in
      vm! vch1 := PopByteArray' in
      let resultLen := zlen vch1 + zlen vch2 in
      if MaxScriptElementSize <? resultLen then fail ErrElementTooBig else
      vm! _ := tallyOpCost (i32 (Z.quot (resultLen + 63) 64)) in
      PushByteArray' (vch1 ++ vch2)
  end.
Definition opcodeSize : handler := λ _ _, vm! so := onD (PeekByteArray 0) in PushInt' (zlen so).
Definition opcodeEqual : handler := λ _ _,
  vm! a := PopByteArray' in
  vm! b := PopByteArray' in
  PushBool' (bool_decide (a = b)).
Definition opcodeEqualVerify : handler := λ op data, vm! _ := opcodeEqual op data in abstractVerify ErrEqualVerify.

(** ** Arithmetic, on int64 *)
Definition pushFlag (b : bool) : vM unit := PushInt' (if b then 1 else 0).
Definition opcode1Add : handler := λ _ _, vm! m := PopInt' in PushInt' (i64 (m + 1)).
Definition opcode1Sub : handler := λ _ _, vm! m := PopInt' in PushInt' (i64 (m - 1)).
Definition opcodeNegate : handler := λ _ _, vm! m := PopInt' in PushInt' (i64 (- m)).
Definition opcodeAbs : handler := λ _ _, vm! m := PopInt' in PushInt' (if m <? 0 then i64 (- m) else m).
Definition opcodeNot : handler := λ _ _, vm! m := PopInt' in pushFlag (m =? 0).
Definition opcode0NotEqual : handler := λ _ _, vm! m := PopInt' in PushInt' (if negb (m =? 0) then 1 else m).

(** [v0] is the top of the stack, [v1] the number below it. *)
Definition binop (f : Z → Z → vM unit) : vM unit := vm! v0 := PopInt' in vm! v1 := PopInt' in f v0 v1.
Definition opcodeAdd : handler := λ _ _, binop (λ v0 v1, PushInt' (i64 (v0 + v1))).
Definition opcodeSub : handler := λ _ _, binop (λ v0 v1, PushInt' (i64 (v1 - v0))).
Definition opcodeBoolAnd : handler := λ _ _, binop (λ v0 v1, pushFlag (negb (v0 =? 0) && negb (v1 =? 0))).
Definition opcodeBoolOr : handler := λ _ _, binop (λ v0 v1, pushFlag (negb (v0 =? 0) || negb (v1 =? 0))).
Definition opcodeNumEqual : handler := λ _ _, binop (λ v0 v1, pushFlag (v0 =? v1)).
Definition opcodeNumEqualVerify : handler := λ op data, vm! _ := opcodeNumEqual op data in abstractVerify ErrNumEqualVerify.
Definition opcodeNumNotEqual : handler := λ _ _, binop (λ v0 v1, pushFlag (negb (v0 =? v1))).
Definition opcodeLessThan : handler := λ _ _, binop (λ v0 v1, pushFlag (v1 <? v0)).
Definition opcodeGreaterThan : handler := λ _ _, binop (λ v0 v1, pushFlag (v0 <? v1)).
Definition opcodeLessThanOrEqual : handler := λ _ _, binop (λ v0 v1, pushFlag (v1 <=? v0)).
Definition opcodeGreaterThanOrEqual : handler := λ _ _, binop (λ v0 v1, pushFlag (v0 <=? v1)).
Definition opcodeMin : handler := λ _ _, binop (λ v0 v1, PushInt' (if v1 <? v0 then v1 else v0)).
Definition opcodeMax : handler := λ _ _, binop (λ v0 v1, PushInt' (if v0 <? v1 then v1 else v0)).
Definition opcodeWithin : handler := λ _ _,
  vm! maxVal := PopInt' in
  vm! minVal := PopInt' in
  vm! x := PopInt' in
  pushFlag ((minVal <=? x) && (x <? maxVal)).

Section crypto.
Context (sha256 sha1 ripemd160 : bytes → bytes) `{TapTweak} (xmssVerify : bytes → bytes → bytes → bool)
  (pick : gmap bytes sigCacheEntry → option bytes).

(** ** Hashes *)
Definition hashTop (h : bytes → bytes) : vM unit := vm! buf := PopByteArray' in PushByteArray' (h buf).
Definition opcodeRipemd160 : handler := λ _ _, hashTop ripemd160.
Definition opcodeSha1 : handler := λ _ _, hashTop sha1.
Definition opcodeSha256 : handler := λ _ _, hashTop sha256.
Definition opcodeHash160 : handler := λ _ _, hashTop (λ b, ripemd160 (sha256 b)).
Definition opcodeHash256 : handler := λ _ _, hashTop (λ b, sha256 (sha256 b)).

Definition opcodeCodeSeparator : handler := λ _ _,
  vm! _ := smod (λ vm, withLastCodeSep (t_offset (tokenizer vm)) vm) in
  smod (λ vm, match tapscriptCtx vm with
              | None => vm
              | Some t => withCtx (Some (mkTapCtx (annex t) (u32 (t_opcodePos (tokenizer vm))) (tapLeafHash t) (opsBudget t))) vm
              end).

(** ** Signatures *)
Definition SignatureSize : Z := 64.

Definition parseTaprootSigAndPubKey (pkBytes rawSig : bytes) : res everr (PubKey * Sig * Z) :=
  match ParsePubKey pkBytes with
  | None => Err KeyError
  | Some pubKey =>
      if zlen rawSig =? SignatureSize then
        match ParseSignature rawSig with Some sig => Ok (pubKey, sig, SigHashDefault) | None => Err KeyError end
      else
        match rawSig !! 64%nat with
        | Some b =>
            if (zlen rawSig =? SignatureSize + 1) && negb (bool_decide (b = x00)) then
              match ParseSignature (take 64 rawSig) with Some sig => Ok (pubKey, sig, b2z b) | None => Err KeyError end
            else Err (ScriptError ErrInvalidTaprootSigLen)
        | None => Err (ScriptError ErrInvalidTaprootSigLen)
        end
  end.

(** The check of one signature through the signature cache. *)
Definition verifySig (pubKey : PubKey) (sig : Sig) (pkBytes fullSigBytes sigHash : bytes) : vM bool := λ vm,
  match e_sigCache vm with
  | Some c =>
      if Exists c sigHash fullSigBytes pkBytes then (Ok true, vm) else
      if Verify sig sigHash pubKey then (Ok true, withSigCache (Some (AddSig pick c sigHash fullSigBytes pkBytes)) vm)
      else (Ok false, vm)
  | None => (Ok (Verify sig sigHash pubKey), vm)
  end.

(** An error of the signature hash means an invalid signature. *)
Definition sigHashOr (r : res everr bytes) (k : bytes → vM bool) : vM bool :=
  match r with
  | Ok sigHash => k sigHash
  | Err EnginePanic => serr EnginePanic
  | Err _ => sret false
  end.

Definition CalcTapscriptSigHash (hashType : Z) (vm : Engine) : res everr bytes :=
  match tapscriptCtx vm with
  | None => Err (ScriptError ErrInternal)
  | Some t =>
      let opts := WithBaseTapscriptVersion (codeSepPos t) (tapLeafHash t)
                  :: match annex t with Some a => [WithAnnex sha256 a] | None => [] end in
      calcTaprootSignatureHashRaw sha256 (ei_hashCache (e_in vm)) hashType (ei_tx (e_in vm)) (ei_txIdx (e_in vm))
        (ei_prevOutFetcher (e_in vm)) opts
  end.

(** [newBaseTapscriptSigVerifier] and its [Verify]. *)
Definition verifyTapscriptSig (pkBytes rawSig : bytes) : vM bool :=
  if zlen pkBytes =? 0 then fail ErrTaprootPubkeyIsEmpty else
  if negb (zlen pkBytes =? 32) then fail ErrDiscourageUpgradeablePubKeyType else
  vm! (pubKey, sig, hashType) := sres (parseTaprootSigAndPubKey pkBytes rawSig) in
  vm! sigHash := sget (CalcTapscriptSigHash hashType) in
  sigHashOr sigHash (verifySig pubKey sig pkBytes rawSig).

(** The budget is charged for every signature that is not empty. *)
Definition chargeSig (sig : bytes) : vM unit := if 0 <? zlen sig then tallysigOp else sret tt.

Definition opcodeCheckSig : handler := λ _ _,
  vm! pkBytes := PopByteArray' in
  vm! fullSigBytes := PopByteArray' in
  vm! ctx := sget tapscriptCtx in
  match ctx with
  | None => fail ErrInternal
  | Some _ =>
      vm! _ := chargeSig fullSigBytes in
      if zlen pkBytes =? 0 then fail ErrTaprootPubkeyIsEmpty else
      if zlen fullSigBytes =? 0 then PushByteArray' [] else
      vm! valid := verifyTapscriptSig pkBytes fullSigBytes in
      if negb valid && negb (zlen fullSigBytes =? 0) then fail ErrNullFail else
      PushBool' valid
  end.
Definition opcodeCheckSigVerify : handler := λ op data, vm! _ := opcodeCheckSig op data in abstractVerify ErrCheckSigVerify.

Definition xmssPKLen : Z := 64.
Definition xmssSignatureLen : Z := 2340.
Definition numSigChunks : nat := 5.
Definition sigChunkSize : Z := Z.quot xmssSignatureLen (Z.of_nat numSigChunks).

(** The chunks come off the stack last one first. *)
Fixpoint popChunks (n : nat) (chunks : list bytes) : vM (list bytes) :=
  match n with
  | O => sret chunks
  | S n' => vm! chunk := PopByteArray' in popChunks n' (chunk :: chunks)
  end.

Definition opcodeCheckXmssSig : handler := λ _ _,
  vm! ctx := sget tapscriptCtx in
  match ctx with
  | None => fail ErrReservedOpcode
  | Some _ =>
      vm! pkBytes := PopByteArray' in
      vm! sigChunks := popChunks numSigChunks [] in
      if negb (zlen pkBytes =? xmssPKLen) then PushBool' false else
      if negb (forallb (λ chunk, zlen chunk =? sigChunkSize) sigChunks) then PushBool' false else
      vm! _ := tallyOpCost 1000 in
      vm! sigHash := sget (CalcTapscriptSigHash SigHashDefault) in
      match sigHash with
      | Err EnginePanic => serr EnginePanic
      | Err _ => PushBool' false
      | Ok sigHash =>
          if negb (xmssVerify pkBytes sigHash (concat sigChunks)) then fail ErrNullFail else PushBool' true
      end
  end.

Definition opcodeCheckSigAdd : handler := λ _ _,
  vm! ctx := sget tapscriptCtx in
  match ctx with
  | None => fail ErrReservedOpcode
  | Some _ =>
      vm! pubKeyBytes := PopByteArray' in
      vm! accumulatorInt := PopInt' in
      vm! sigBytes := PopByteArray' in
      vm! _ := chargeSig sigBytes in
      if zlen pubKeyBytes =? 0 then fail ErrTaprootPubkeyIsEmpty else
      if zlen sigBytes =? 0 then PushInt' accumulatorInt else
      vm! valid := verifyTapscriptSig pubKeyBytes sigBytes in
      if negb valid then fail ErrNullFail else
      PushInt' (i64 (accumulatorInt + 1))
  end.

Definition opcodeCheckMultiSig : handler := λ _ _, fail ErrTapscriptCheckMultisig.
Definition opcodeCheckMultiSigVerify : handler := λ op data,
  vm! _ := opcodeCheckMultiSig op data in abstractVerify ErrCheckMultiSigVerify.

(** ** The table *)
Definition opcodeArray : list (Z * handler) :=
  [(OP_1NEGATE, opcode1Negate); (OP_RESERVED, opcodeReserved); (OP_NOP, opcodeNop);
   (OP_VER, opcodeReserved); (OP_IF, opcodeIf); (OP_NOTIF, opcodeNotIf);
   (OP_VERIF, opcodeReserved); (OP_VERNOTIF, opcodeReserved); (OP_ELSE, opcodeElse);
   (OP_ENDIF, opcodeEndif); (OP_VERIFY, opcodeVerify); (OP_RETURN, opcodeReturn);
   (OP_CHECKLOCKTIMEVERIFY, opcodeCheckLockTimeVerify); (OP_CHECKSEQUENCEVERIFY, opcodeCheckSequenceVerify); (OP_TOALTSTACK, opcodeToAltStack);
   (OP_FROMALTSTACK, opcodeFromAltStack); (OP_2DROP, opcode2Drop); (OP_2DUP, opcode2Dup);
   (OP_3DUP, opcode3Dup); (OP_2OVER, opcode2Over); (OP_2ROT, opcode2Rot);
   (OP_2SWAP, opcode2Swap); (OP_IFDUP, opcodeIfDup); (OP_DEPTH, opcodeDepth);
   (OP_DROP, opcodeDrop); (OP_DUP, opcodeDup); (OP_NIP, opcodeNip);
   (OP_OVER, opcodeOver); (OP_PICK, opcodePick); (OP_ROLL, opcodeRoll);
   (OP_ROT, opcodeRot); (OP_SWAP, opcodeSwap); (OP_TUCK, opcodeTuck);
   (OP_CAT, opcodeCat); (OP_SUBSTR, opcodeDisabled); (OP_LEFT, opcodeDisabled);
   (OP_RIGHT, opcodeDisabled); (OP_SIZE, opcodeSize); (OP_INVERT, opcodeDisabled);
   (OP_AND, opcodeDisabled); (OP_OR, opcodeDisabled); (OP_XOR, opcodeDisabled);
   (OP_EQUAL, opcodeEqual); (OP_EQUALVERIFY, opcodeEqualVerify); (OP_RESERVED1, opcodeReserved);
   (OP_RESERVED2, opcodeReserved); (OP_1ADD, opcode1Add); (OP_1SUB, opcode1Sub);
   (OP_2MUL, opcodeDisabled); (OP_2DIV, opcodeDisabled); (OP_NEGATE, opcodeNegate);
   (OP_ABS, opcodeAbs); (OP_NOT, opcodeNot); (OP_0NOTEQUAL, opcode0NotEqual);
   (OP_ADD, opcodeAdd); (OP_SUB, opcodeSub); (OP_MUL, opcodeDisabled);
   (OP_DIV, opcodeDisabled); (OP_MOD, opcodeDisabled); (OP_LSHIFT, opcodeDisabled);
   (OP_RSHIFT, opcodeDisabled); (OP_BOOLAND, opcodeBoolAnd); (OP_BOOLOR, opcodeBoolOr);
   (OP_NUMEQUAL, opcodeNumEqual); (OP_NUMEQUALVERIFY, opcodeNumEqualVerify); (OP_NUMNOTEQUAL, opcodeNumNotEqual);
   (OP_LESSTHAN, opcodeLessThan); (OP_GREATERTHAN, opcodeGreaterThan); (OP_LESSTHANOREQUAL, opcodeLessThanOrEqual);
   (OP_GREATERTHANOREQUAL, opcodeGreaterThanOrEqual); (OP_MIN, opcodeMin); (OP_MAX, opcodeMax);
   (OP_WITHIN, opcodeWithin); (OP_RIPEMD160, opcodeRipemd160); (OP_SHA1, opcodeSha1);
   (OP_SHA256, opcodeSha256); (OP_HASH160, opcodeHash160); (OP_HASH256, opcodeHash256);
   (OP_CODESEPARATOR, opcodeCodeSeparator); (OP_CHECKSIG, opcodeCheckSig); (OP_CHECKSIGVERIFY, opcodeCheckSigVerify);
   (OP_CHECKMULTISIG, opcodeCheckMultiSig); (OP_CHECKMULTISIGVERIFY, opcodeCheckMultiSigVerify); (OP_CHECKSIGADD, opcodeCheckSigAdd);
   (OP_CHECKXMSSSIG, opcodeCheckXmssSig); (OP_NOP1, opcodeNop); (OP_NOP4, opcodeNop);
   (OP_NOP5, opcodeNop); (OP_NOP6, opcodeNop); (OP_NOP7, opcodeNop);
   (OP_NOP8, opcodeNop); (OP_NOP9, opcodeNop); (OP_NOP10, opcodeNop)].

(** [op.opfunc]: the pushes by their range, the table, and the values that have
    no meaning. *)
Definition opfunc (op : Z) : handler :=
  if op =? OP_0 then opcodeFalse
  else if op <=? OP_PUSHDATA4 then opcodePushData
  else if (OP_1 <=? op) && (op <=? OP_16) then opcodeN
  else match list_find (λ e : Z * handler, e.1 = op) opcodeArray with
       | Some (_, (_, h)) => h
       | None => opcodeInvalid
       end.
End crypto.
