(* ===== verification/Engine.v ===== *)
(** * The script engine (src/node/txscript/engine.go)

    [NewEngine] checks the scripts of an input, [Execute] runs them opcode by
    opcode and, for a witness program, the script its witness reveals. *)
From Stdlib Require Import ZArith Lia Strings.Byte.
From stdpp Require Import base list gmap.
From S2P Require Import Prelude WireTx Merkle Script ScriptStack SigHash Utxo Covenant TxRules Taproot Opcodes.
Open Scope Z_scope.
Open Scope list_scope.

Definition isOpcodeDisabled (opcode : Z) : bool :=
  existsb (Z.eqb opcode)
    [OP_SUBSTR; OP_LEFT; OP_RIGHT; OP_INVERT; OP_AND; OP_OR; OP_XOR; OP_2MUL; OP_2DIV; OP_MUL; OP_DIV; OP_MOD; OP_LSHIFT; OP_RSHIFT].
Definition isOpcodeAlwaysIllegal (opcode : Z) : bool := (opcode =? OP_VERIF) || (opcode =? OP_VERNOTIF).
Definition isOpcodeConditional (opcode : Z) : bool :=
  (opcode =? OP_IF) || (opcode =? OP_NOTIF) || (opcode =? OP_ELSE) || (opcode =? OP_ENDIF).

(** The switch falls through to the length cases only when the value cases do
    not apply. *)
Definition checkMinimalDataPush (opcodeVal : Z) (data : bytes) : option scriptErr :=
  let dataLen := zlen data in
  let d0 := match data with b :: _ => b2z b | [] => 0 end in
  let must v := if opcodeVal =? v then None else Some ErrMinimalData in
  if (dataLen =? 0) && negb (opcodeVal =? OP_0) then Some ErrMinimalData
  else if (dataLen =? 1) && (1 <=? d0) && (d0 <=? 16) then must (u8 (OP_1 + d0 - 1))
  else if (dataLen =? 1) && (d0 =? 0x81) then must OP_1NEGATE
  else if dataLen <=? 75 then must dataLen
  else if dataLen <=? 255 then must OP_PUSHDATA1
  else if dataLen <=? 65535 then must OP_PUSHDATA2
  else None.

Definition withNumOps (n : Z) (vm : Engine) : Engine :=
  mkEngine (e_in vm) (e_sigCache vm) (scripts vm) (scriptIdx vm) (opcodeIdx vm) (lastCodeSep vm) (tokenizer vm) (dstack vm) (astack vm)
    (condStack vm) n (tapscriptCtx vm).
Definition withTokenizer (t : ScriptTokenizer) (vm : Engine) : Engine :=
  mkEngine (e_in vm) (e_sigCache vm) (scripts vm) (scriptIdx vm) (opcodeIdx vm) (lastCodeSep vm) t (dstack vm) (astack vm)
    (condStack vm) (numOps vm) (tapscriptCtx vm).
Definition withOpcodeIdx (n : Z) (vm : Engine) : Engine :=
  mkEngine (e_in vm) (e_sigCache vm) (scripts vm) (scriptIdx vm) n (lastCodeSep vm) (tokenizer vm) (dstack vm) (astack vm)
    (condStack vm) (numOps vm) (tapscriptCtx vm).
Definition withScripts (l : list bytes) (i : nat) (vm : Engine) : Engine :=
  mkEngine (e_in vm) (e_sigCache vm) l i (opcodeIdx vm) (lastCodeSep vm) (tokenizer vm) (dstack vm) (astack vm)
    (condStack vm) (numOps vm) (tapscriptCtx vm).

(** [witness[:len(witness)-1]] and the annex. *)
Definition stripWitnessAnnex (witness : list bytes) : list bytes * option bytes :=
  if isAnnexedWitness witness
  then (take (length witness - 1) witness, match extractAnnex witness with Ok a => Some a | Err _ => None end)
  else (witness, None).

Section engine.
Context (sha256 sha1 ripemd160 : bytes → bytes) `{TapTweak} (xmssVerify : bytes → bytes → bytes → bool)
  (pick : gmap bytes sigCacheEntry → option bytes).
Abbreviation opfunc := (opfunc sha256 sha1 ripemd160 xmssVerify pick).

(** ** One opcode *)
(** The operation limit applies outside tapscript, the element limit to all that
    is not such an operation. *)
Definition countOp (op : Z) (data : bytes) : vM unit := λ vm,
  if match tapscriptCtx vm with None => OP_16 <? op | Some _ => false end then
    let n := numOps vm + 1 in
    (if MaxOpsPerScript <? n then Err (ScriptError ErrTooManyOperations) else Ok tt, withNumOps n vm)
  else if MaxScriptElementSize <? zlen data then (Err (ScriptError ErrElementTooBig), vm) else (Ok tt, vm).

Definition executeOpcode (op : Z) (data : bytes) : vM unit :=
  if isOpcodeDisabled op then fail ErrDisabledOpcode else
  if isOpcodeAlwaysIllegal op then fail ErrReservedOpcode else
  vm! _ := countOp op data in
  vm! executing := sget isBranchExecuting in
  if negb executing && negb (isOpcodeConditional op) then sret tt else
  vm! minimal := sget (λ vm, verifyMinimalData (dstack vm)) in
  match (if minimal && executing && (op <=? OP_PUSHDATA4) then checkMinimalDataPush op data else None) with
  | Some c => fail c
  | None => opfunc op op data
  end.

(** ** Witness programs *)
Definition VerifyTaprootKeySpend (witnessProgram rawSig : bytes) : vM unit := λ vm,
  match at_ (tx_TxIn (ei_tx (e_in vm))) (ei_txIdx (e_in vm)) with
  | None => (Err EnginePanic, vm)
  | Some txIn =>
      let annex := (stripWitnessAnnex (ti_Witness txIn)).2 in
      (vm! (pubKey, sig, hashType) := sres (parseTaprootSigAndPubKey witnessProgram rawSig) in
       vm! sigHash := sget (λ vm, calcTaprootSignatureHashRaw sha256 (ei_hashCache (e_in vm)) hashType (ei_tx (e_in vm)) (ei_txIdx (e_in vm))
                                    (ei_prevOutFetcher (e_in vm)) (match annex with Some a => [WithAnnex sha256 a] | None => [] end)) in
       vm! sigValid := sigHashOr sigHash (verifySig pick pubKey sig witnessProgram rawSig) in
       if sigValid : bool then sret tt else fail ErrTaprootSigInvalid) vm
  end.

Definition verifyTaprootKeyPath (witnessProgram rawSig : bytes) : vM unit :=
  vm! _ := VerifyTaprootKeySpend witnessProgram rawSig in
  onD (setStack [[x01]]).

Definition enforceTapscriptStackLimits : vM unit := λ vm,
  if MaxStackSize <? Depth (dstack vm) then (Err (ScriptError ErrStackOverflow), vm) else
  if existsb (λ e, MaxScriptElementSize <? zlen e) (getStack (dstack vm)) then (Err (ScriptError ErrElementTooBig), vm) else
  (Ok tt, vm).

Definition newTapscriptExecutionCtx (witnessSize : Z) (annex : option bytes) (tapLeafHash : bytes) : tapscriptExecutionCtx :=
  mkTapCtx annex blankCodeSepValue tapLeafHash (i32 (sigOpsDelta + witnessSize)).

Definition setupScriptPathSpend (stack : list bytes) (witnessSize : Z) (annex : option bytes) (witnessScript : bytes) (leafVersion : Z) : vM unit :=
  if negb (leafVersion =? BaseLeafVersion) then fail ErrDiscourageUpgradeableTaprootVersion else
  match checkScriptParses witnessScript with
  | Some c => fail c
  | None =>
      vm! _ := smod (withCtx (Some (newTapscriptExecutionCtx witnessSize annex (TapLeafHash sha256 (NewBaseTapLeaf witnessScript))))) in
      vm! _ := smod (λ vm, withScripts (scripts vm ++ [witnessScript]) (scriptIdx vm) vm) in
      vm! _ := onD (setStack (take (length stack - 2) stack)) in
      enforceTapscriptStackLimits
  end.

(** [stack[len(stack)-1]] and [stack[len(stack)-2]]. *)
Definition lastTwo (stack : list bytes) : option (bytes * bytes) :=
  c ← at_ stack (zlen stack - 1); s ← at_ stack (zlen stack - 2); Some (c, s).

Definition verifyTaprootSpend (witnessProgram : bytes) (witness : list bytes) : vM unit :=
  if zlen witness =? 0 then fail ErrWitnessProgramEmpty else
  let witnessSize := i32 (TxWitness_SerializeSize witness) in
  let '(stack, annex) := stripWitnessAnnex witness in
  match stack with
  | [rawSig] => verifyTaprootKeyPath witnessProgram rawSig
  | _ =>
      match lastTwo stack with
      | None => serr EnginePanic
      | Some (ctrl, witnessScript) =>
          vm! controlBlock := sres (ParseControlBlock ctrl) in
          vm! _ := sres (VerifyTaprootLeafCommitment sha256 controlBlock witnessProgram witnessScript) in
          setupScriptPathSpend stack witnessSize annex witnessScript (cb_LeafVersion controlBlock)
      end
  end.

Definition verifyMerkleRootSpend (witnessProgram : bytes) (witness : list bytes) : vM unit :=
  if zlen witness =? 0 then fail ErrWitnessProgramEmpty else
  let witnessSize := i32 (TxWitness_SerializeSize witness) in
  let '(stack, annex) := stripWitnessAnnex witness in
  if zlen stack =? 1 then fail ErrMerkleRootNoKeyPathSpend else
  match lastTwo stack with
  | None => serr EnginePanic
  | Some (ctrl, witnessScript) =>
      vm! controlBlock := sres (ParseMerkleRootControlBlock ctrl) in
      vm! _ := sres (VerifyMerkleRootLeafCommitment sha256 controlBlock witnessProgram witnessScript) in
      setupScriptPathSpend stack witnessSize annex witnessScript (mr_LeafVersion controlBlock)
  end.

Definition verifyWitnessProgram (version : Z) (program : bytes) (witness : list bytes) : vM unit :=
  if version =? 0 then fail ErrDiscourageUpgradableWitnessProgram
  else if version =? 1 then
    if negb (zlen program =? 32) then fail ErrDiscourageUpgradableWitnessProgram else verifyTaprootSpend program witness
  else if version =? 2 then
    if negb (zlen program =? 32) then fail ErrDiscourageUpgradableWitnessProgram else verifyMerkleRootSpend program witness
  else fail ErrDiscourageUpgradableWitnessProgram.

(** ** Steps *)
(** The opcode at the program counter: [Next] and [executeOpcode]. *)
Definition stepOpcode : vM unit := λ vm,
  if (length (scripts vm) <=? scriptIdx vm)%nat then (Err (ScriptError ErrInvalidProgramCounter), vm) else
  let '(ok, t) := Next (tokenizer vm) in
  let vm := withTokenizer t vm in
  if negb ok then (Err (ScriptError (match t_err t with Some c => c | None => ErrInvalidProgramCounter end)), vm) else
  (vm! _ := executeOpcode (t_op t) (t_data t) in
   λ vm, if MaxStackSize <? i32 (Depth (dstack vm) + Depth (astack vm)) then (Err (ScriptError ErrStackOverflow), vm)
         else (Ok tt, withOpcodeIdx (opcodeIdx vm + 1) vm)) vm.

(** The end of a script: the next one, or the script of the witness. *)
Definition endOfScript : vM bool :=
  vm! cs := sget condStack in
  if negb (length cs =? 0)%nat then fail ErrUnbalancedConditional else
  vm! _ := smod (λ vm, withAstack (DropN (Depth (astack vm)) (astack vm)).2 vm) in
  vm! _ := smod (λ vm, withScripts (scripts vm) (S (scriptIdx vm)) (withLastCodeSep 0 (withOpcodeIdx 0 (withNumOps 0 vm)))) in
  vm! prog := sget (λ vm, if (scriptIdx vm =? 2)%nat then ei_witnessProgram (e_in vm) else None) in
  vm! _ := match prog with
           | None => sret tt
           | Some program =>
               vm! txIn := thisInput in
               vm! version := sget (λ vm, ei_witnessVersion (e_in vm)) in
               verifyWitnessProgram version program (ti_Witness txIn)
           end in
  vm! _ := smod (λ vm, if bool_decide (scripts vm !! scriptIdx vm = Some []) then withScripts (scripts vm) (S (scriptIdx vm)) vm else vm) in
  λ vm, match scripts vm !! scriptIdx vm with
        | None => (Ok true, vm)
        | Some s => (Ok false, withTokenizer (MakeScriptTokenizer 0 s) vm)
        end.

Definition Step : vM bool :=
  vm! _ := stepOpcode in
  vm! done := sget (λ vm, Done (tokenizer vm)) in
  if negb done then sret false else endOfScript.

Definition CheckErrorCondition (finalScript : bool) : vM unit := λ vm,
  if (scriptIdx vm <? length (scripts vm))%nat then (Err (ScriptError ErrScriptUnfinished), vm) else
  if finalScript && bool_decide (is_Some (tapscriptCtx vm)) && negb (Depth (dstack vm) =? 1) then (Err (ScriptError ErrCleanStack), vm) else
  if Depth (dstack vm) <? 1 then (Err (ScriptError ErrEmptyStack), vm) else
  (vm! v := onD PopBool in if v : bool then sret tt else fail ErrEvalFalse) vm.

(** ** Running *)
Fixpoint executeLoop (fuel : nat) : vM unit :=
  match fuel with
  | O => serr OutOfFuel
  | S fuel' => vm! done := Step in if done : bool then sret tt else executeLoop fuel'
  end.

(** Every step takes at least a byte of a script; the scripts are those of the
    input and one element of its witness. *)
Definition sumLen (l : list bytes) : nat := sum_list (length <$> l).
Definition witnessOf (i : engineInput) : list bytes :=
  match at_ (tx_TxIn (ei_tx i)) (ei_txIdx i) with Some t => ti_Witness t | None => [] end.
Definition executeFuel (vm : Engine) : nat := S (sumLen (scripts vm) + sumLen (witnessOf (e_in vm))).

Definition Execute : vM unit := λ vm,
  (vm! _ := executeLoop (executeFuel vm) in CheckErrorCondition true) vm.

(** ** Construction *)
Definition checkScript (scr : bytes) : res everr unit :=
  if MaxScriptSize <? zlen scr then Err (ScriptError ErrScriptTooBig) else
  match checkScriptParses scr with Some c => Err (ScriptError c) | None => Ok tt end.

Definition NewEngine (scriptPubKey : bytes) (tx : MsgTx) (txIdx : Z) (sigCache : option SigCache) (hashCache : option TxSigHashes)
    (inputAmount : Z) (prevOutFetcher : PrevOutputFetcher) : res everr Engine :=
  if (txIdx <? 0) || (zlen (tx_TxIn tx) <=? txIdx) then Err (ScriptError ErrInvalidIndex) else
  match at_ (tx_TxIn tx) txIdx with
  | None => Err EnginePanic
  | Some txIn =>
      let scriptSig := ti_SignatureScript txIn in
      if (zlen scriptSig =? 0) && (zlen scriptPubKey =? 0) then Err (ScriptError ErrEvalFalse) else
      if negb (IsPushOnlyScript scriptSig) then Err (ScriptError ErrNotPushOnly) else
      let? _ := checkScript scriptSig in
      let? _ := checkScript scriptPubKey in
      let? (version, program) :=
        match extractWitnessProgramInfo scriptPubKey with
        | Some (version, program) => if negb (zlen scriptSig =? 0) then Err (ScriptError ErrWitnessMalleated) else Ok (version, Some program)
        | None => if negb (zlen (ti_Witness txIn) =? 0) then Err (ScriptError ErrWitnessUnexpected) else Ok (0, None)
        end in
      let scripts := [scriptSig; scriptPubKey] in
      let idx := if zlen scriptSig =? 0 then 1%nat else 0%nat in
      Ok (mkEngine (mkInput tx txIdx hashCache prevOutFetcher version program inputAmount) sigCache scripts idx 0 0
            (MakeScriptTokenizer 0 (default [] (scripts !! idx))) (mkStack [] true) (mkStack [] true) [] 0 None)
  end.

(** What the validation code does with an input. *)
Definition runInput (scriptPubKey : bytes) (tx : MsgTx) (txIdx : Z) (sigCache : option SigCache) (hashCache : option TxSigHashes)
    (inputAmount : Z) (prevOutFetcher : PrevOutputFetcher) : res everr unit * option SigCache :=
  match NewEngine scriptPubKey tx txIdx sigCache hashCache inputAmount prevOutFetcher with
  | Err e => (Err e, sigCache)
  | Ok vm => let '(r, vm') := Execute vm in (r, e_sigCache vm')
  end.
End engine.
