(* ===== verification/EngineInv.v ===== *)
(** * The script engine never panics, stays within its limits, and stops

    A small program logic: [stri k m Q] says that the stack operation [m] keeps
    every element within the limit, grows the stack by at most [k], does not
    panic, and returns only results in [Q]; [tri k m Q] is the same for engine
    operations, which moreover leave the scripts and the program counter alone. *)
From Stdlib Require Import ZArith Lia Strings.Byte.
From stdpp Require Import base list gmap.
From S2P Require Import Prelude WireTx Merkle Script ScriptStack SigHash Utxo Covenant TxRules Taproot Opcodes Engine.
Open Scope Z_scope.
Open Scope list_scope.

Create HintDb eng.

(** ** Stack operations *)
Definition small (b : bytes) : Prop := zlen b <= MaxScriptElementSize.
Record sinv (n : Z) (s : stack) : Prop := {
  si_len : zlen (stk s) <= n;
  si_small : Forall small (stk s);
  si_min : verifyMinimalData s = true }.

(** The errors an operation may return. *)
Definition clean {A} (Q : A → Prop) (r : res everr A) : Prop :=
  match r with Ok a => Q a | Err e => e ≠ EnginePanic ∧ e ≠ OutOfFuel end.
Definition stri (k : Z) {A} (m : sM stack A) (Q : A → Prop) : Prop :=
  ∀ n s, sinv n s → n + k < 2 ^ 31 → sinv (n + k) (m s).2 ∧ clean Q (m s).1.

Lemma stri_weaken {A} k k' (m : sM stack A) (Q R : A → Prop) : k <= k' → (∀ a, Q a → R a) → stri k m Q → stri k' m R.
Proof.
  intros Hk HQ Hm n s Hs Hn. destruct (Hm n s Hs ltac:(lia)) as [[H1 H2 H3] H4]. split; [by split; [lia|..]|].
  unfold clean in *. destruct (m s).1; [by apply HQ|done].
Qed.
Lemma stri_ret {A} (a : A) (Q : A → Prop) : Q a → stri 0 (sret a) Q.
Proof. intros Ha n s Hs _. by rewrite Z.add_0_r. Qed.
Lemma stri_fail {A} c (Q : A → Prop) : stri 0 (fail c) Q.
Proof. intros n s Hs _. rewrite Z.add_0_r. by split. Qed.
Lemma stri_bind {A B} k k' (m : sM stack A) (f : A → sM stack B) (Q : A → Prop) (R : B → Prop) : 0 <= k' →
  stri k m Q → (∀ a, Q a → stri k' (f a) R) → stri (k + k') (sbind m f) R.
Proof.
  intros Hk' Hm Hf n s Hs Hn. destruct (Hm n s Hs ltac:(lia)) as [H1 H2]. unfold sbind.
  destruct (m s) as [[a|e] s']; cbn [fst snd] in *.
  - rewrite Z.add_assoc. apply (Hf a H2 (n + k) s'); [done|lia].
  - split; [|done]. destruct H1 as [E1 E2 E3]. split; [lia|done..].
Qed.
Lemma stri_times k n (m : sM stack unit) : 0 <= k → stri k m (λ _, True) → stri (Z.of_nat n * k) (stimes n m) (λ _, True).
Proof.
  intros Hk Hm. induction n as [|n IH]; [by apply stri_ret|]. cbn [stimes].
  replace (Z.of_nat (S n) * k) with (k + Z.of_nat n * k) by nia. eapply stri_bind; [nia|exact Hm|]. intros _ _. exact IH.
Qed.

Lemma push_tri b : small b → stri 1 (PushByteArray b) (λ _, True).
Proof.
  intros Hb n [l m] [H1 H2 H3] _. rewrite Push_stk. split; [|done]. cbn [stk verifyMinimalData] in *.
  split; cbn [stk verifyMinimalData snd]; [autorewrite with stk; lia| |done].
  apply Forall_app. by split; [|apply Forall_singleton].
Qed.
Lemma nip_tri idx : stri 0 (nipN idx) small.
Proof.
  intros n [l m] [H1 H2 H3] Hn. rewrite Z.add_0_r in *. cbn [stk verifyMinimalData] in *.
  assert (Hf : fits l) by lia. destruct (decide (0 <= idx < zlen l)) as [Hi|Hi].
  - destruct (lookup_lt_is_Some_2 l (Z.to_nat (zlen l - idx - 1))) as [x Hx]; [unfold zlen in *; lia|].
    rewrite <- (take_drop_middle l _ x Hx) in Hf, H1, H2 |- *. set (u := take _ l) in *. set (v := drop _ l) in *.
    assert (Hv : idx = zlen v) by (unfold v, zlen in *; rewrite length_drop; lia).
    rewrite Hv, nipN_app by done. apply Forall_app in H2 as [U1 [U2 U3]%Forall_cons]. split; [|done].
    cbn [snd]. split; cbn [stk verifyMinimalData]; [autorewrite with stk in *; lia|by apply Forall_app|done].
  - rewrite nipN_short by lia. by split.
Qed.
Lemma peek_tri idx : stri 0 (PeekByteArray idx) small.
Proof.
  intros n [l m] [H1 H2 H3] Hn. rewrite Z.add_0_r in *. cbn [stk verifyMinimalData] in *.
  assert (Hf : fits l) by lia. destruct (decide (0 <= idx < zlen l)) as [Hi|Hi].
  - destruct (lookup_lt_is_Some_2 l (Z.to_nat (zlen l - idx - 1))) as [x Hx]; [unfold zlen in *; lia|].
    rewrite <- (take_drop_middle l _ x Hx) in Hf, H1, H2 |- *. set (u := take _ l) in *. set (v := drop _ l) in *.
    assert (Hv : idx = zlen v) by (unfold v, zlen in *; rewrite length_drop; lia).
    rewrite Hv, Peek_app by done. split; [done|]. by apply Forall_app in H2 as [U1 [U2 U3]%Forall_cons].
  - rewrite Peek_short by lia. by split.
Qed.
Lemma pop_tri : stri 0 PopByteArray small.
Proof. apply nip_tri. Qed.

(** Numbers of [len] bytes. *)
Definition numOf (len n : Z) : Prop := - 2 ^ (8 * len - 1) < n < 2 ^ (8 * len - 1).
Lemma MakeScriptNum_bound v minimal len n : 1 <= len <= 7 → MakeScriptNum v minimal len = Ok n → numOf len n.
Proof.
  intros Hlen Hv. destruct v as [|c w _] using rev_ind.
  { unfold MakeScriptNum in Hv. destruct (_ <? _); [done|]. destruct (minimal && _); [done|]. injection Hv as <-.
    unfold numOf. assert (0 < 2 ^ (8 * len - 1)) by (apply Z.pow_pos_nonneg; lia). lia. }
  assert (Hl : zlen w + 1 <= len).
  { unfold MakeScriptNum in Hv. destruct (Z.ltb_spec len (zlen (w ++ [c]))); [done|]. autorewrite with stk in *. lia. }
  rewrite MakeScriptNum_snoc in Hv by lia. destruct (minimal && _); [done|]. injection Hv as <-.
  pose proof (le_decode_bound w). pose proof (b2z_range c). unfold numOf. pose proof (zlen_nonneg w).
  assert (Hp : 128 * 2 ^ (8 * zlen w) <= 2 ^ (8 * len - 1)).
  { change 128 with (2 ^ 7). rewrite <- Z.pow_add_r by lia. apply Z.pow_le_mono_r; lia. }
  destruct (Z.leb_spec 128 (b2z c)); nia.
Qed.
Lemma PopInt_tri : stri 0 PopInt (numOf 4).
Proof.
  unfold PopInt. change 0 with (0 + 0). eapply stri_bind; [lia|apply pop_tri|]. intros so _ n s Hs _. rewrite Z.add_0_r. split; [done|].
  unfold liftNum, clean. cbn [fst]. destruct (MakeScriptNum so _ _) as [z|c] eqn:E; [|done]. by apply MakeScriptNum_bound in E.
Qed.
Lemma PopBool_tri : stri 0 PopBool (λ _, True).
Proof. unfold PopBool. change 0 with (0 + 0). eapply stri_bind; [lia|apply pop_tri|]. intros so _. by apply stri_ret. Qed.
Lemma PushInt_tri n : numOf 5 n → stri 1 (PushInt n) (λ _, True).
Proof.
  intros Hn. destruct (scriptnum_encode_decode 5 n ltac:(lia) Hn) as (v & Hv & Hm). unfold PushInt. rewrite Hv. apply push_tri.
  unfold MakeScriptNum in Hm. destruct (Z.ltb_spec 5 (zlen v)); [done|]. unfold small, MaxScriptElementSize. lia.
Qed.
Lemma PushBool_tri b : stri 1 (PushBool b) (λ _, True).
Proof. apply push_tri. by destruct b. Qed.

(** The words: each loop is at most three rounds. *)
Lemma loop_tri n (m : sM stack bytes) : stri 0 m small → stri (Z.of_nat n) (stimes n (vm! so := m in PushByteArray so)) (λ _, True).
Proof.
  intros Hm. replace (Z.of_nat n) with (Z.of_nat n * (0 + 1)) by lia. apply stri_times; [lia|].
  eapply stri_bind; [lia|exact Hm|]. intros so Hso. by apply push_tri.
Qed.
Lemma guarded_tri (b : bool) k c (m : sM stack unit) : 0 <= k → stri k m (λ _, True) → stri k (if b then fail c else m) (λ _, True).
Proof. intros Hk Hm. destruct b; [|done]. apply (stri_weaken 0 k _ (λ _, True)); [done|done|]. apply stri_fail. Qed.
Lemma DropN_tri n : stri 0 (DropN n) (λ _, True).
Proof.
  apply guarded_tri; [lia|]. apply (stri_weaken (Z.of_nat (Z.to_nat n) * (0 + 0)) 0 _ (λ _, True)); [lia|done|]. apply stri_times; [lia|].
  eapply stri_bind; [lia|apply pop_tri|]. intros so _. by apply stri_ret.
Qed.
Lemma DupN_tri n : 0 <= n → stri n (DupN n) (λ _, True).
Proof. intros Hn. apply guarded_tri; [done|]. apply (stri_weaken (Z.of_nat (Z.to_nat n)) n _ (λ _, True)); [lia|done|]. apply loop_tri, peek_tri. Qed.
Lemma OverN_tri n : 0 <= n → stri n (OverN n) (λ _, True).
Proof. intros Hn. apply guarded_tri; [done|]. apply (stri_weaken (Z.of_nat (Z.to_nat n)) n _ (λ _, True)); [lia|done|]. apply loop_tri, peek_tri. Qed.
Lemma RotN_tri n : 0 <= n → stri n (RotN n) (λ _, True).
Proof. intros Hn. apply guarded_tri; [done|]. apply (stri_weaken (Z.of_nat (Z.to_nat n)) n _ (λ _, True)); [lia|done|]. apply loop_tri, nip_tri. Qed.
Lemma SwapN_tri n : 0 <= n → stri n (SwapN n) (λ _, True).
Proof. intros Hn. apply guarded_tri; [done|]. apply (stri_weaken (Z.of_nat (Z.to_nat n)) n _ (λ _, True)); [lia|done|]. apply loop_tri, nip_tri. Qed.
Lemma NipN_tri n : stri 0 (NipN n) (λ _, True).
Proof. unfold NipN. change 0 with (0 + 0). eapply stri_bind; [lia|apply nip_tri|]. intros so _. by apply stri_ret. Qed.
Lemma PickN_tri n : stri 1 (PickN n) (λ _, True).
Proof. unfold PickN. change 1 with (0 + 1). eapply stri_bind; [lia|apply peek_tri|]. intros so Hso. by apply push_tri. Qed.
Lemma RollN_tri n : stri 1 (RollN n) (λ _, True).
Proof. unfold RollN. change 1 with (0 + 1). eapply stri_bind; [lia|apply nip_tri|]. intros so Hso. by apply push_tri. Qed.
Lemma Tuck_tri : stri 3 Tuck (λ _, True).
Proof.
  unfold Tuck. change 3 with (0 + (0 + (1 + (1 + 1)))). do 2 (eapply stri_bind; [lia|apply pop_tri|]; intros ? ?).
  do 2 (eapply stri_bind; [lia|by apply push_tri|]; intros ? ?). by apply push_tri.
Qed.

(** ** Engine operations *)

(** What the caller of the engine provides: the input exists, its output is
    known, the midstates are there when it has a witness, and the size of the
    witness gives a budget that fits in an int32. *)
Definition envOK (i : engineInput) : Prop :=
  ∃ txIn, at_ (tx_TxIn (ei_tx i)) (ei_txIdx i) = Some txIn ∧ is_Some (ei_prevOutFetcher i (ti_PreviousOutPoint txIn))
    ∧ (ti_Witness txIn ≠ [] → is_Some (ei_hashCache i)) ∧ TxWitness_SerializeSize (ti_Witness txIn) + sigOpsDelta < 2 ^ 31.

Record einv (N : Z) (vm : Engine) : Prop := {
  ev_len : zlen (stk (dstack vm)) + zlen (stk (astack vm)) <= N;
  ev_d : Forall small (stk (dstack vm));
  ev_a : Forall small (stk (astack vm));
  ev_dm : verifyMinimalData (dstack vm) = true;
  ev_am : verifyMinimalData (astack vm) = true;
  ev_env : envOK (e_in vm);
  ev_ctx : is_Some (tapscriptCtx vm) → witnessOf (e_in vm) ≠ [] }.

(** The budget is not overdrawn. *)
Definition budgetOK (vm : Engine) : Prop :=
  match tapscriptCtx vm with Some t => 0 <= opsBudget t < 2 ^ 31 | None => True end.

(** What no opcode changes. *)
Record frame (vm vm' : Engine) : Prop := {
  fr_in : e_in vm' = e_in vm;
  fr_scripts : scripts vm' = scripts vm;
  fr_idx : scriptIdx vm' = scriptIdx vm;
  fr_tok : tokenizer vm' = tokenizer vm;
  fr_ops : numOps vm' = numOps vm;
  fr_ctx : is_Some (tapscriptCtx vm') ↔ is_Some (tapscriptCtx vm) }.
#[export] Instance frame_refl : Reflexive frame.
Proof. intros vm. by split. Qed.
#[export] Instance frame_trans : Transitive frame.
Proof. intros a b c [] []. split; try congruence. by etransitivity. Qed.

(** [c] says that the engine is known to run a tapscript. *)
Definition tri (c : bool) (k : Z) {A} (m : vM A) (Q : A → Prop) : Prop :=
  ∀ N vm, einv N vm → budgetOK vm → (c = true → is_Some (tapscriptCtx vm)) → N + k < 2 ^ 31 →
    frame vm (m vm).2 ∧ einv (N + k) (m vm).2 ∧ clean Q (m vm).1 ∧ (is_Ok (m vm).1 = true → budgetOK (m vm).2).

Lemma einv_mono N N' vm : N <= N' → einv N vm → einv N' vm.
Proof. intros HN []. split; [lia|done..]. Qed.

Lemma tri_weaken {A} c k k' (m : vM A) (Q R : A → Prop) : k <= k' → (∀ a, Q a → R a) → tri c k m Q → tri c k' m R.
Proof.
  intros Hk HQ Hm N vm Hi Hb Hc HN. destruct (Hm N vm Hi Hb Hc ltac:(lia)) as (H1 & H2 & H3 & H4). split; [done|].
  split; [eapply einv_mono; [|done]; lia|]. split; [|done]. unfold clean in *. destruct (m vm).1; [by apply HQ|done].
Qed.
Lemma tri_bind {A B} c k k' (m : vM A) (f : A → vM B) (Q : A → Prop) (R : B → Prop) : 0 <= k' →
  tri c k m Q → (∀ a, Q a → tri c k' (f a) R) → tri c (k + k') (sbind m f) R.
Proof.
  intros Hk' Hm Hf N vm Hi Hb Hc HN. destruct (Hm N vm Hi Hb Hc ltac:(lia)) as (H1 & H2 & H3 & H4). unfold sbind.
  destruct (m vm) as [[a|e] vm']; cbn [fst snd clean is_Ok] in *.
  - destruct (Hf a H3 (N + k) vm') as (F1 & F2 & F3 & F4); [done|by apply H4| |lia|].
    { intros Ec. by apply (fr_ctx _ _ H1), Hc. }
    split; [by etransitivity|]. rewrite Z.add_assoc. done.
  - split; [done|]. split; [eapply einv_mono; [|done]; lia|]. by split.
Qed.
Lemma tri_bind0 {A B} c k (m : vM A) (f : A → vM B) (Q : A → Prop) (R : B → Prop) : 0 <= k →
  tri c 0 m Q → (∀ a, Q a → tri c k (f a) R) → tri c k (sbind m f) R.
Proof. intros Hk Hm Hf. change k with (0 + k). by eapply tri_bind. Qed.
Lemma tri_bindk {A B} c k (m : vM A) (f : A → vM B) (Q : A → Prop) (R : B → Prop) :
  tri c k m Q → (∀ a, Q a → tri c 0 (f a) R) → tri c k (sbind m f) R.
Proof. intros Hm Hf. rewrite <- (Z.add_0_r k). by eapply tri_bind. Qed.
Lemma tri_ret {A} c k (a : A) (Q : A → Prop) : 0 <= k → Q a → tri c k (sret a) Q.
Proof. intros Hk Ha N vm Hi Hb _ _. split; [done|]. split; [eapply einv_mono; [|done]; lia|]. by split. Qed.
Lemma tri_err {A} c k e (Q : A → Prop) : 0 <= k → e ≠ EnginePanic → e ≠ OutOfFuel → tri c k (serr e) Q.
Proof. intros Hk He He' N vm Hi Hb _ _. split; [done|]. split; [eapply einv_mono; [|done]; lia|]. by split. Qed.
Lemma tri_fail {A} c k e (Q : A → Prop) : 0 <= k → tri c k (fail e) Q.
Proof. intros Hk. by apply tri_err. Qed.
Lemma tri_get {A} c k (f : Engine → A) : 0 <= k → tri c k (sget f) (λ _, True).
Proof. intros Hk N vm Hi Hb _ _. split; [done|]. split; [eapply einv_mono; [|done]; lia|]. by split. Qed.
Lemma tri_ctx {B} c k (f : option tapscriptExecutionCtx → vM B) (R : B → Prop) :
  tri c k (f None) R → (∀ t, tri true k (f (Some t)) R) → tri c k (sbind (sget tapscriptCtx) f) R.
Proof.
  intros Hn Hs N vm Hi Hb Hc HN. unfold sbind, sget. destruct (tapscriptCtx vm) as [t|] eqn:E;
    [|rewrite <- E in Hc; exact (Hn N vm Hi Hb Hc HN)].
  apply (Hs t N vm); [done|done| |done]. intros _. by rewrite E.
Qed.

Lemma tri_onD {A} c k (m : sM stack A) (Q : A → Prop) : stri k m Q → tri c k (onD m) Q.
Proof.
  intros Hm N vm [H1 H2 H3 H4 H5 H6 H7] Hb _ HN. pose proof (zlen_nonneg (stk (astack vm))).
  destruct (Hm (N - zlen (stk (astack vm))) (dstack vm)) as [[S1 S2 S3] S4]; [by split; [lia|..]|lia|].
  unfold onD. destruct (m (dstack vm)) as [r s]. cbn [fst snd] in *. split; [by split|]. split; [|by split].
  split; cbn [dstack astack e_in tapscriptCtx withDstack]; [lia|done..].
Qed.
Lemma tri_onA {A} c k (m : sM stack A) (Q : A → Prop) : stri k m Q → tri c k (onA m) Q.
Proof.
  intros Hm N vm [H1 H2 H3 H4 H5 H6 H7] Hb _ HN. pose proof (zlen_nonneg (stk (dstack vm))).
  destruct (Hm (N - zlen (stk (dstack vm))) (astack vm)) as [[S1 S2 S3] S4]; [by split; [lia|..]|lia|].
  unfold onA. destruct (m (astack vm)) as [r s]. cbn [fst snd] in *. split; [by split|]. split; [|by split].
  split; cbn [dstack astack e_in tapscriptCtx withAstack]; [lia|done..].
Qed.

(** ** The handlers *)
Lemma pop'_tri c : tri c 0 PopByteArray' small.
Proof. apply tri_onD, pop_tri. Qed.
Lemma popInt'_tri c : tri c 0 PopInt' (numOf 4).
Proof. apply tri_onD, PopInt_tri. Qed.
Lemma push'_tri c b : small b → tri c 1 (PushByteArray' b) (λ _, True).
Proof. intros. by apply tri_onD, push_tri. Qed.
Lemma pushInt'_tri c n : numOf 5 n → tri c 1 (PushInt' n) (λ _, True).
Proof. intros. by apply tri_onD, PushInt_tri. Qed.
Lemma pushBool'_tri c b : tri c 1 (PushBool' b) (λ _, True).
Proof. apply tri_onD, PushBool_tri. Qed.
Lemma peek'_tri c i : tri c 0 (onD (PeekByteArray i)) small.
Proof. apply tri_onD, peek_tri. Qed.
Lemma popA_tri c : tri c 0 (onA PopByteArray) small.
Proof. apply tri_onA, pop_tri. Qed.
Lemma popBool'_tri c : tri c 0 (onD PopBool) (λ _, True).
Proof. apply tri_onD, PopBool_tri. Qed.
#[export] Hint Resolve pop'_tri popInt'_tri push'_tri pushInt'_tri pushBool'_tri peek'_tri popA_tri popBool'_tri : eng.
#[export] Hint Resolve tri_onD tri_onA DropN_tri NipN_tri PickN_tri RollN_tri Tuck_tri push_tri : eng.

Lemma small_nil : small [].
Proof. done. Qed.
#[export] Hint Resolve small_nil : eng.

(** The results of arithmetic on numbers of four bytes fit in five. *)
Lemma num_small n : - 2 ^ 33 <= n <= 2 ^ 33 → numOf 5 n.
Proof. unfold numOf. change (2 ^ (8 * 5 - 1)) with (2 ^ 39). lia. Qed.
Lemma num4 n : numOf 4 n → - 2 ^ 31 < n < 2 ^ 31.
Proof. done. Qed.
Lemma i64_small n : - 2 ^ 33 <= n <= 2 ^ 33 → i64 n = n.
Proof. intros. apply wrapS_small; [lia|]. unfold inS. lia. Qed.

Ltac nums := repeat match goal with H : numOf 4 ?n |- _ => apply num4 in H end;
  rewrite ?i64_small by lia; repeat case_match; apply num_small; lia.

Ltac eng_leaf := eapply tri_weaken; [|by intros|solve [eauto with eng | apply pushInt'_tri; nums]]; lia.
Ltac eng1 :=
  match goal with
  | |- tri _ _ (sret _) _ => apply tri_ret; [lia|done]
  | |- tri _ _ (fail _) _ => apply tri_fail; lia
  | |- tri _ _ (serr _) _ => apply tri_err; [lia|done..]
  | |- tri _ _ (sbind (sget tapscriptCtx) _) _ => apply tri_ctx; [|intros ?]
  | |- tri _ _ (sbind (sget _) _) _ => eapply tri_bind0; [lia|apply tri_get; lia|intros ? _]
  | |- tri _ _ (sbind _ _) _ => eapply tri_bind0; [lia|solve [eauto with eng]|intros ? ?]
  | |- tri _ _ (if ?b then _ else _) _ => destruct b eqn:?
  | |- tri _ _ (match ?b with _ => _ end) _ => destruct b eqn:?
  | |- _ => eng_leaf
  end.
Ltac eng := repeat eng1.

Lemma abstractVerify_tri c e : tri c 0 (abstractVerify e) (λ _, True).
Proof. unfold abstractVerify. eng. Qed.
Lemma popIfBool_tri c : tri c 0 popIfBool (λ _, True).
Proof. unfold popIfBool. eng. Qed.
Lemma thisInput_tri c : tri c 0 thisInput (λ _, True).
Proof.
  intros N vm Hi Hb _ _. destruct (ev_env _ _ Hi) as (txIn & Ht & _). unfold thisInput. rewrite Ht, Z.add_0_r. by split.
Qed.
Lemma peekLockTime_tri c : tri c 0 peekLockTime (λ _, True).
Proof.
  unfold peekLockTime. eapply tri_bind0; [lia|apply peek'_tri|]. intros so _ N vm Hi Hb _ _. rewrite Z.add_0_r.
  split; [done|]. split; [done|]. split; [|done]. unfold liftNum, clean. cbn. by destruct (MakeScriptNum so _ _).
Qed.
Lemma verifyLockTime_tri c a t l : tri c 0 (verifyLockTimeM a t l) (λ _, True).
Proof. unfold verifyLockTimeM. eng. Qed.
Lemma tally_tri cost : 0 <= cost <= 1000 → tri true 0 (tallyOpCost cost) (λ _, True).
Proof.
  intros Hcost N vm Hi Hb Hc _. destruct (Hc eq_refl) as [t Et]. unfold budgetOK in Hb. rewrite Et in Hb.
  unfold tallyOpCost. rewrite Et. rewrite (wrapS_small 32) by (unfold inS; lia). cbn [fst snd]. rewrite Z.add_0_r.
  split; [split; cbn; try done; rewrite Et; split; by eexists|]. destruct Hi as [I1 I2 I3 I4 I5 I6 I7].
  split; [split; try done; cbn [tapscriptCtx withCtx e_in]; intros _; apply I7; by rewrite Et|].
  destruct (Z.ltb_spec (opsBudget t - cost) 0); [by split|]. split; [done|]. intros _. cbn. lia.
Qed.
#[export] Hint Resolve abstractVerify_tri popIfBool_tri thisInput_tri peekLockTime_tri verifyLockTime_tri : eng.
Lemma setCond_tri c f : tri c 0 (smod (λ vm, withCond (f vm) vm)) (λ _, True).
Proof. intros N vm [] Hb _ _. rewrite Z.add_0_r. split; [by split|]. split; [by split|]. by split. Qed.
#[export] Hint Resolve setCond_tri : eng.

Definition ok (h : handler) : Prop := ∀ op data, tri false 3 (h op data) (λ _, True).

Section handlers.
Context (sha256 sha1 ripemd160 : bytes → bytes) `{TapTweak} (xmssVerify : bytes → bytes → bytes → bool)
  (pick : gmap bytes sigCacheEntry → option bytes).
Hypothesis Hsha : ∀ b, length (sha256 b) = 32%nat.
Hypothesis Hsha1 : ∀ b, length (sha1 b) = 20%nat.
Hypothesis Hripemd : ∀ b, length (ripemd160 b) = 20%nat.

Lemma small_hash (h : bytes → bytes) n b : (∀ b, length (h b) = n) → (n <= 520)%nat → small (h b).
Proof. intros Hh Hn. unfold small, zlen, MaxScriptElementSize. rewrite Hh. lia. Qed.
Lemma hashTop_tri c h n : (∀ b, length (h b) = n) → (n <= 520)%nat → tri c 3 (hashTop h) (λ _, True).
Proof. intros Hh Hn. unfold hashTop. eng1. eapply tri_weaken; [|by intros|apply push'_tri; by eapply small_hash]. lia. Qed.

(** The signature hash does not panic for an input with a witness. *)
Lemma sigHash_clean i hType opts : envOK i → witnessOf i ≠ [] →
  match calcTaprootSignatureHashRaw sha256 (ei_hashCache i) hType (ei_tx i) (ei_txIdx i) (ei_prevOutFetcher i) opts with
  | Err e => e = PlainError | Ok _ => True end.
Proof.
  intros (txIn & Ht & [prev Hp] & Hh & _) Hw. unfold witnessOf in Hw. rewrite Ht in Hw. destruct (Hh Hw) as [sh Esh].
  unfold calcTaprootSignatureHashRaw. destruct (negb _); [done|]. destruct (_ <? _); [done|]. unfold taprootSigMsg.
  rewrite Esh, Ht. cbn [res_bind]. set (s1 := if _ : bool then Ok [] else _). assert (∃ x, s1 = Ok x) as [x ->] by (unfold s1; case_match; by eexists).
  cbn [res_bind]. set (s2 := if _ : bool then _ else Ok []). assert (∃ x, s2 = Ok x) as [y ->] by (unfold s2; case_match; by eexists).
  cbn [res_bind]. rewrite Hp. set (s3 := if _ : bool then _ else _). assert (∃ x, s3 = Ok x) as [z ->] by (unfold s3; case_match; by eexists).
  cbn [res_bind]. destruct (_ =? _); [|done]. destruct (Z.leb_spec (zlen (tx_TxOut (ei_tx i))) (ei_txIdx i)) as [|Hlt]; [done|].
  unfold at_ in *. destruct (_ <? _) eqn:Eneg; [done|]. apply Z.ltb_ge in Eneg.
  destruct (lookup_lt_is_Some_2 (tx_TxOut (ei_tx i)) (Z.to_nat (ei_txIdx i))) as [o ->]; [unfold zlen in Hlt; lia|done].
Qed.
Lemma tapSigHash_clean N vm hType : einv N vm → is_Some (tapscriptCtx vm) →
  match CalcTapscriptSigHash sha256 hType vm with Err e => e = PlainError | Ok _ => True end.
Proof. intros Hi [t Et]. unfold CalcTapscriptSigHash. rewrite Et. apply sigHash_clean; [apply Hi|]. apply Hi. by rewrite Et. Qed.

Lemma tri_sighash {B} k ht (f : res everr bytes → vM B) (R : B → Prop) :
  (∀ h, tri true k (f (Ok h)) R) → tri true k (f (Err PlainError)) R → tri true k (sbind (sget (CalcTapscriptSigHash sha256 ht)) f) R.
Proof.
  intros H1 H2 N vm Hi Hb Hc HN. unfold sbind, sget. pose proof (tapSigHash_clean N vm ht Hi (Hc eq_refl)) as Hh.
  destruct (CalcTapscriptSigHash sha256 ht vm) as [h|e]; [exact (H1 h N vm Hi Hb Hc HN)|subst e; exact (H2 N vm Hi Hb Hc HN)].
Qed.

Lemma verifySig_tri c pk sig pkb full h : tri c 0 (verifySig pick pk sig pkb full h) (λ _, True).
Proof.
  intros N vm [I1 I2 I3 I4 I5 I6 I7] Hb _ _. rewrite Z.add_0_r. unfold verifySig.
  destruct (e_sigCache vm); repeat case_match; cbn [fst snd]; (split; [by split|]); (split; [by split|]); by split.
Qed.
Lemma verifyTapscriptSig_tri pk sig : tri true 0 (verifyTapscriptSig sha256 pick pk sig) (λ _, True).
Proof.
  unfold verifyTapscriptSig. eng1; [eng1|]. eng1; [eng1|]. eapply tri_bind0; [lia| |].
  - instantiate (1 := λ _, True). intros N vm Hi Hb _ _. rewrite Z.add_0_r. split; [done|]. split; [done|]. cbn. split; [|done].
    unfold parseTaprootSigAndPubKey. by repeat case_match.
  - intros [[pub s] ht] _. apply tri_sighash; [intros h; apply verifySig_tri|cbn [sigHashOr]; eng1].
Qed.
Lemma chargeSig_tri s : tri true 0 (chargeSig s) (λ _, True).
Proof. unfold chargeSig, tallysigOp. eng1; [by apply tally_tri|eng1]. Qed.
Hint Resolve verifyTapscriptSig_tri chargeSig_tri : eng.

Lemma opcodeCat_tri : ok opcodeCat.
Proof.
  intros op data. unfold opcodeCat. eng1; [eng1|]. eng1. eng1; [eng1|]. eng1. eng1. eng1; [eng1|]. rename a0 into v2, a1 into v1.
  apply Z.ltb_ge in Heqb0. unfold MaxScriptElementSize in *. pose proof (zlen_nonneg v1). pose proof (zlen_nonneg v2).
  assert (Hq : 0 <= Z.quot (zlen v1 + zlen v2 + 63) 64 <= 1000).
  { rewrite Z.quot_div_nonneg by lia. split; [apply Z.div_pos; lia|]. apply Z.div_le_upper_bound; lia. }
  eapply tri_bind0; [lia|apply tally_tri; by rewrite (wrapS_small 32) by (unfold inS; lia)|]. intros _ _.
  eapply tri_weaken; [|by intros|apply push'_tri]; [lia|]. unfold small, MaxScriptElementSize. rewrite zlen_app. lia.
Qed.
Lemma opcodeCheckSig_tri : ok (opcodeCheckSig sha256 pick).
Proof. intros op data. unfold opcodeCheckSig. eng. Qed.
Lemma popChunks_tri c n l : tri c 0 (popChunks n l) (λ _, True).
Proof. revert l. induction n as [|n IH]; intros l; cbn [popChunks]; [eng1|]. eng1. apply IH. Qed.
Lemma opcodeCheckXmssSig_tri : ok (opcodeCheckXmssSig sha256 xmssVerify).
Proof.
  intros op data. unfold opcodeCheckXmssSig. eng1; [eng1|]. eng1. eapply tri_bind0; [lia|apply popChunks_tri|]. intros chunks _.
  eng1; [eng1|]. eng1; [eng1|]. eapply tri_bind0; [lia|by apply tally_tri|]. intros _ _.
  apply tri_sighash; [intros h; eng|eng1].
Qed.
Lemma opcodeCheckSigAdd_tri : ok (opcodeCheckSigAdd sha256 pick).
Proof. intros op data. unfold opcodeCheckSigAdd. eng. Qed.
Lemma opcodeDepth_tri : ok opcodeDepth.
Proof.
  intros op data N vm Hi Hb Hc HN. unfold opcodeDepth, sbind, sget. apply (tri_weaken false 1 3 _ (λ _, True)); [lia|done| |done..].
  apply pushInt'_tri, num_small. destruct Hi as [I1 _ _ _ _ _ _]. pose proof (zlen_nonneg (stk (dstack vm))). pose proof (zlen_nonneg (stk (astack vm))).
  destruct (dstack vm) as [l m]. cbn [stk] in *. rewrite Depth_fits by lia. lia.
Qed.
Lemma equal_tri : ok opcodeEqual.
Proof. intros op data. unfold opcodeEqual. eng. Qed.
Lemma numEqual_tri : ok opcodeNumEqual.
Proof. intros op data. unfold opcodeNumEqual, binop, pushFlag. eng. Qed.
Lemma verify_after h e : ok h → ok (λ op data, vm! _ := h op data in abstractVerify e).
Proof. intros Hh op data. eapply tri_bindk; [apply Hh|]. intros _ _. apply abstractVerify_tri. Qed.
Lemma opcodeElse_tri : ok opcodeElse.
Proof.
  intros op data N vm Hi Hb _ HN. unfold opcodeElse. assert (einv (N + 3) vm) by (eapply einv_mono; [|done]; lia).
  destruct (last (condStack vm)); [|by split]. cbn [fst snd]. destruct H1 as [I1 I2 I3 I4 I5 I6 I7]. split; [by split|]. split; [by split|]. by split.
Qed.
Lemma opcodeEndif_tri : ok opcodeEndif.
Proof.
  intros op data N vm Hi Hb _ HN. unfold opcodeEndif. assert (einv (N + 3) vm) by (eapply einv_mono; [|done]; lia).
  destruct (last (condStack vm)); [|by split]. cbn [fst snd]. destruct H1 as [I1 I2 I3 I4 I5 I6 I7]. split; [by split|]. split; [by split|]. by split.
Qed.
Lemma opcodeCodeSeparator_tri : ok opcodeCodeSeparator.
Proof.
  intros op data N vm [I1 I2 I3 I4 I5 I6 I7] Hb _ HN. unfold opcodeCodeSeparator, sbind, smod. cbn [fst snd tapscriptCtx withLastCodeSep].
  unfold budgetOK in *. destruct (tapscriptCtx vm) as [t|] eqn:Et; cbn [fst snd].
  - split; [split; cbn; try done; rewrite Et; split; by eexists|]. split; [|by split].
    split; cbn [dstack astack e_in withCtx withLastCodeSep]; [lia|done..|]. intros _. apply I7. by eexists.
  - split; [split; cbn; try done; by rewrite Et|]. split; [|split; [done|cbn; by rewrite Et]].
    split; cbn [dstack astack e_in withLastCodeSep tapscriptCtx]; [lia|done..|]. rewrite Et. by intros [].
Qed.
Lemma pushCond_tri b : tri false 3 (pushCond b) (λ _, True).
Proof.
  unfold pushCond. eng1. eapply tri_bind0; [lia| |intros cv _; apply (tri_weaken _ 0 3 _ (λ _, True)); [lia|done|apply setCond_tri]].
  instantiate (1 := λ _, True). eng.
Qed.

(** The stack words push at most three elements. *)
Lemma word_ok k (m : sM stack unit) : k <= 3 → stri k m (λ _, True) → ok (λ _ _, onD m).
Proof. intros Hk Hm op data. eapply tri_weaken; [exact Hk|by intros|]. by apply tri_onD. Qed.
Lemma hash_ok h n : (∀ b, length (h b) = n) → (n <= 520)%nat → ok (λ _ _, hashTop h).
Proof. intros Hh Hn op data. by eapply hashTop_tri. Qed.
Lemma size_ok : ok opcodeSize.
Proof.
  intros op data. unfold opcodeSize. eapply tri_bind0; [lia|apply peek'_tri|]. intros so Hso. unfold small, MaxScriptElementSize in Hso.
  pose proof (zlen_nonneg so). eapply tri_weaken; [|by intros|apply pushInt'_tri, num_small; lia]. lia.
Qed.
Lemma altStack_ok : ok opcodeToAltStack.
Proof.
  intros op data. unfold opcodeToAltStack. eng1. eapply tri_weaken; [|by intros|by apply tri_onA, push_tri]. lia.
Qed.
Lemma opcodeN_ok : ok opcodeN.
Proof.
  intros op data. unfold opcodeN. eapply tri_weaken; [|by intros|apply pushInt'_tri, num_small]; [lia|].
  unfold u8, wrapU. pose proof (Z.mod_pos_bound (op - (OP_1 - 1)) (2 ^ 8)). lia.
Qed.
Lemma lockTime_ok : ok opcodeCheckLockTimeVerify ∧ ok opcodeCheckSequenceVerify.
Proof. split; intros op data; unfold opcodeCheckLockTimeVerify, opcodeCheckSequenceVerify; eng. Qed.

Ltac word := eapply word_ok; [|first [apply DropN_tri | apply DupN_tri; lia | apply OverN_tri; lia | apply RotN_tri; lia
  | apply SwapN_tri; lia | apply NipN_tri | apply Tuck_tri]]; lia.
Ltac handler :=
  first
    [ solve [intros ? ?; apply tri_fail; lia] | solve [intros ? ?; by apply pushCond_tri]
    | apply opcodeCat_tri | apply opcodeCheckSig_tri | apply opcodeCheckXmssSig_tri | apply opcodeCheckSigAdd_tri | apply opcodeDepth_tri
    | apply equal_tri | apply numEqual_tri | apply opcodeElse_tri | apply opcodeEndif_tri | apply opcodeCodeSeparator_tri
    | apply size_ok | apply altStack_ok | apply lockTime_ok | solve [word]
    | solve [eapply hash_ok; [done|lia]]
    | apply verify_after; handler
    | solve [intros op data; unfold opcode1Negate, opcodeNop, opcodeVerify, opcodeFromAltStack, opcodeIfDup, opcodePick, opcodeRoll,
        opcode1Add, opcode1Sub, opcodeNegate, opcodeAbs, opcodeNot, opcode0NotEqual, opcodeAdd, opcodeSub, opcodeBoolAnd, opcodeBoolOr,
        opcodeNumNotEqual, opcodeLessThan, opcodeGreaterThan, opcodeLessThanOrEqual, opcodeGreaterThanOrEqual, opcodeMin, opcodeMax,
        opcodeWithin, binop, pushFlag; eng] ].

Lemma table_ok : Forall (λ e, ok e.2) (opcodeArray sha256 sha1 ripemd160 xmssVerify pick).
Proof. unfold opcodeArray. repeat (apply Forall_cons; split); [..|by apply Forall_nil]; cbn [snd]; handler. Qed.

(** Every opcode, provided the data it pushes is within the limit. *)
Lemma opfunc_ok op data : (op <= OP_PUSHDATA4 → small data) →
  tri false 3 (opfunc sha256 sha1 ripemd160 xmssVerify pick op op data) (λ _, True).
Proof.
  intros Hd. unfold opfunc. destruct (op =? OP_0).
  { eapply tri_weaken; [|by intros|by apply push'_tri, small_nil]. lia. }
  destruct (Z.leb_spec op OP_PUSHDATA4) as [Hle|_].
  { eapply tri_weaken; [|by intros|by apply push'_tri, Hd]. lia. }
  destruct (_ && _); [apply opcodeN_ok|]. destruct (list_find _ _) as [[i [op' h]]|] eqn:E; [|apply tri_fail; lia].
  apply list_find_Some in E as (E & _). apply (proj1 (Forall_lookup _ _) table_ok i (op', h) E).
Qed.
End handlers.
