(* ===== verification/EngineRun.v ===== *)
(** * Running a script: no panic, no endless loop, and the limits

    [sound m vm P] says that the computation [m] started in [vm] neither panics
    nor runs out of fuel, and that [P] holds of what it returns.  [running] is
    the invariant of the engine between two steps, [measure] bounds the number
    of steps left. *)
From Stdlib Require Import ZArith Lia Strings.Byte.
From stdpp Require Import base list gmap.
From S2P Require Import Prelude WireTx Merkle Script ScriptStack SigHash Utxo Covenant TxRules Taproot Opcodes Engine EngineInv.
Open Scope Z_scope.
Open Scope list_scope.

Definition sound {A} (m : vM A) (vm : Engine) (P : A → Engine → Prop) : Prop :=
  match m vm with
  | (Ok a, vm') => P a vm'
  | (Err e, _) => e ≠ EnginePanic ∧ e ≠ OutOfFuel
  end.

Lemma sound_bind {A B} (m : vM A) (f : A → vM B) vm (P : A → Engine → Prop) (R : B → Engine → Prop) :
  sound m vm P → (∀ a vm', P a vm' → sound (f a) vm' R) → sound (sbind m f) vm R.
Proof. unfold sound, sbind. intros Hm Hf. destruct (m vm) as [[a|e] vm']; [|done]. apply (Hf a vm' Hm). Qed.
Lemma sound_mono {A} (m : vM A) vm (P R : A → Engine → Prop) : sound m vm P → (∀ a vm', P a vm' → R a vm') → sound m vm R.
Proof. unfold sound. intros Hm HR. destruct (m vm) as [[a|e] vm']; [|done]. by apply HR. Qed.
Lemma sound_fail {A} c vm (P : A → Engine → Prop) : sound (fail c) vm P.
Proof. done. Qed.
Lemma sound_mod f vm (P : unit → Engine → Prop) : P tt (f vm) → sound (smod f) vm P.
Proof. done. Qed.
Lemma sound_get {A B} (f : Engine → A) (k : A → vM B) vm R : sound (k (f vm)) vm R → sound (sbind (sget f) k) vm R.
Proof. done. Qed.
Lemma sound_seq {B} (f : Engine → Engine) (k : unit → vM B) vm R : sound (k tt) (f vm) R → sound (sbind (smod f) k) vm R.
Proof. done. Qed.
Lemma sound_tri {A} c k N (m : vM A) (Q : A → Prop) vm : tri c k m Q → einv N vm → budgetOK vm →
  (c = true → is_Some (tapscriptCtx vm)) → N + k < 2 ^ 31 →
  sound m vm (λ a vm', Q a ∧ frame vm vm' ∧ einv (N + k) vm' ∧ budgetOK vm').
Proof.
  intros Hm Hi Hb Hc HN. destruct (Hm N vm Hi Hb Hc HN) as (H1 & H2 & H3 & H4). unfold sound.
  destruct (m vm) as [[a|e] vm']; cbn in *; [|done]. split_and!; auto.
Qed.

(** ** The stack as a whole *)
Lemma stack_drop m l : ∀ k, fits (l ++ k) → (stimes (length k) (vm! _ := PopByteArray in sret tt) (mkStack (l ++ k) m)).2 = mkStack l m.
Proof.
  intros k. induction k as [|x k IH] using rev_ind; intros Hf; [by rewrite app_nil_r|].
  rewrite length_app, Nat.add_1_r. cbn [stimes]. unfold sbind at 1. unfold sbind at 1, PopByteArray.
  rewrite app_assoc in Hf |- *. change 0 with (zlen ([] : list bytes)). rewrite (nipN_app m (l ++ k) x []) by done. rewrite app_nil_r. cbn [sret].
  apply IH. autorewrite with stk in *. lia.
Qed.
Lemma DropN_all s : fits (stk s) → (DropN (Depth s) s).2 = mkStack [] (verifyMinimalData s).
Proof.
  destruct s as [l m]. cbn [stk verifyMinimalData]. intros Hf. unfold DropN. rewrite Depth_fits by done.
  destruct (Z.ltb_spec (zlen l) 1) as [Hl|Hl]; [by destruct l; [|unfold zlen in Hl; cbn in Hl; lia]|].
  unfold zlen. rewrite Nat2Z.id. apply (stack_drop m []). done.
Qed.
Lemma setStack_stk data s : fits (stk s) → setStack data s = (Ok tt, mkStack data (verifyMinimalData s)).
Proof.
  intros Hf. unfold setStack. pose proof (DropN_all s Hf) as Hd. destruct (DropN (Depth s) s) as [r s']. cbn in Hd. by rewrite Hd.
Qed.
Lemma getStack_stk s : fits (stk s) → getStack s = stk s.
Proof.
  destruct s as [l m]. cbn [stk]. intros Hf. unfold getStack. rewrite Depth_fits by done. unfold zlen. rewrite Nat2Z.id.
  transitivity (reverse (reverse l)); [|apply reverse_involutive]. f_equal. apply list_eq_same_length with (length l);
    [by rewrite length_reverse|by rewrite length_fmap, length_seq|].
  intros i x y Hi Hx Hy. apply list_lookup_fmap_Some in Hx as (j & -> & Hj). apply lookup_seq in Hj as [-> Hj].
  rewrite reverse_lookup in Hy by done. cbn in *. rewrite <- (take_drop_middle l _ _ Hy) in Hf |- *.
  set (u := take _ l) in *. set (v := drop _ l) in *.
  assert (Z.of_nat i = zlen v) as -> by (unfold v, zlen; rewrite length_drop; lia). by rewrite Peek_app.
Qed.

(** ** The witness *)
Lemma witness_size w : Z.of_nat (sumLen w) + zlen w <= TxWitness_SerializeSize w.
Proof.
  unfold TxWitness_SerializeSize. assert (Hv : ∀ n, 1 <= VarIntSerializeSize n) by (intros; unfold VarIntSerializeSize; repeat case_match; lia).
  assert (Hg : ∀ n, n + Z.of_nat (sumLen w) + zlen w <= foldl (λ n w, n + VarIntSerializeSize (zlen w) + zlen w) n w);
    [|specialize (Hg (VarIntSerializeSize (zlen w))); specialize (Hv (zlen w)); lia].
  induction w as [|e w IH]; intros n; [change (sumLen []) with 0%nat; unfold zlen; cbn; lia|]. cbn [foldl]. etransitivity; [|apply IH]. specialize (Hv (zlen e)).
  replace (sumLen (e :: w)) with (length e + sumLen w)%nat by done. unfold zlen in *. cbn [length]. lia.
Qed.
Lemma sumLen_elem w e : e ∈ w → (length e <= sumLen w)%nat.
Proof.
  intros Hi. unfold sumLen. induction w as [|x w IH]; [by apply not_elem_of_nil in Hi|].
  apply elem_of_cons in Hi as [->|Hi]; cbn; [lia|]. specialize (IH Hi). cbn in IH. lia.
Qed.
Lemma lastTwo_elem l c s : lastTwo l = Some (c, s) → s ∈ l.
Proof.
  unfold lastTwo. intros Hl. destruct (at_ l (zlen l - 1)); [|done]. cbn in Hl. unfold at_ in Hl. destruct (_ <? 0); [done|]. cbn in Hl.
  destruct (l !! _) eqn:E; [|done]. injection Hl as <- <-. by eapply list_elem_of_lookup_2.
Qed.
Lemma lastTwo_some l : 2 <= zlen l → is_Some (lastTwo l).
Proof.
  intros Hl. unfold lastTwo, at_. rewrite !(proj2 (Z.ltb_ge _ 0)) by lia. unfold zlen in *.
  destruct (lookup_lt_is_Some_2 l (Z.to_nat (Z.of_nat (length l) - 1))) as [c ->]; [lia|].
  destruct (lookup_lt_is_Some_2 l (Z.to_nat (Z.of_nat (length l) - 2))) as [d ->]; [lia|]. cbn. by eexists.
Qed.
Lemma strip_elem w e : e ∈ (stripWitnessAnnex w).1 → e ∈ w.
Proof. unfold stripWitnessAnnex. destruct (isAnnexedWitness w); [|done]. intros Hi. by eapply elem_of_take in Hi as (i & Hi%list_elem_of_lookup_2 & _). Qed.
Lemma strip_nonempty w : w ≠ [] → 1 <= zlen (stripWitnessAnnex w).1.
Proof.
  intros Hw. unfold stripWitnessAnnex. destruct (isAnnexedWitness w) eqn:E; cbn [fst].
  - unfold isAnnexedWitness in E. destruct (Z.ltb_spec (zlen w) 2); [done|]. unfold zlen in *. rewrite length_take. lia.
  - destruct w as [|e w]; [done|]. rewrite zlen_cons. pose proof (zlen_nonneg w). lia.
Qed.

(** ** The invariant *)
Record running (vm : Engine) : Prop := {
  rn_inv : einv MaxStackSize vm;
  rn_budget : budgetOK vm;
  rn_ops : tapscriptCtx vm = None → 0 <= numOps vm <= MaxOpsPerScript;
  rn_tok : okTok (tokenizer vm);
  rn_scripts : Forall (λ s, zlen s < 2 ^ 31) (scripts vm);
  rn_first : tapscriptCtx vm = None → length (scripts vm) = 2%nat;
  rn_last : is_Some (tapscriptCtx vm) → length (scripts vm) = 3%nat ∧ scriptIdx vm = 2%nat }.

(** What holds after every step, the last one included. *)
Record limits (vm : Engine) : Prop := {
  lm_inv : einv MaxStackSize vm;
  lm_budget : budgetOK vm;
  lm_ops : tapscriptCtx vm = None → 0 <= numOps vm <= MaxOpsPerScript }.
Lemma running_limits vm : running vm → limits vm.
Proof. intros []. by split. Qed.

(** The bytes of script that are left to read. *)
Definition measure (vm : Engine) : nat :=
  (length (restOf (tokenizer vm)) + sumLen (drop (S (scriptIdx vm)) (scripts vm))
   + match tapscriptCtx vm with None => sumLen (witnessOf (e_in vm)) | Some _ => 0 end)%nat.

(** What a step leaves as it is. *)
Record sameScript (vm vm' : Engine) : Prop := {
  ss_in : e_in vm' = e_in vm;
  ss_scripts : scripts vm' = scripts vm;
  ss_idx : scriptIdx vm' = scriptIdx vm;
  ss_ctx : is_Some (tapscriptCtx vm') ↔ is_Some (tapscriptCtx vm) }.
Lemma frame_same vm vm' : frame vm vm' → sameScript vm vm'.
Proof. intros []. by split. Qed.

Section run.
Context (sha256 sha1 ripemd160 : bytes → bytes) `{TapTweak} (xmssVerify : bytes → bytes → bytes → bool)
  (pick : gmap bytes sigCacheEntry → option bytes).
Hypothesis Hsha : ∀ b, length (sha256 b) = 32%nat.
Hypothesis Hsha1 : ∀ b, length (sha1 b) = 20%nat.
Hypothesis Hripemd : ∀ b, length (ripemd160 b) = 20%nat.
Hypothesis Hkey : ∀ k b, ParsePubKey b = Some k → is_Some (ParsePubKey (SerializePubKey k)).

Abbreviation executeOpcode := (executeOpcode sha256 sha1 ripemd160 xmssVerify pick).
Abbreviation Step := (Step sha256 sha1 ripemd160 xmssVerify pick).

Lemma none_iff (a b : option tapscriptExecutionCtx) : (is_Some a ↔ is_Some b) → a = None → b = None.
Proof. rewrite <- !not_eq_None_Some. intros Hab ->. destruct b; [|done]. exfalso. by apply Hab. Qed.

Lemma countOp_sound op data vm : running vm →
  sound (countOp op data) vm (λ _ vm', einv MaxStackSize vm' ∧ budgetOK vm' ∧ sameScript vm vm' ∧ tokenizer vm' = tokenizer vm
    ∧ (tapscriptCtx vm' = None → 0 <= numOps vm' <= MaxOpsPerScript) ∧ (op <= OP_16 → small data)).
Proof.
  intros [Hi Hb Ho _ _ _ _]. unfold sound, countOp. destruct (tapscriptCtx vm) as [t|] eqn:Et.
  - destruct (Z.ltb_spec MaxScriptElementSize (zlen data)); [done|]. split_and!; auto; [by split|]. by rewrite Et.
  - destruct (Z.ltb_spec OP_16 op).
    + destruct (Z.ltb_spec MaxOpsPerScript (numOps vm + 1)); [done|]. destruct Hi as [I1 I2 I3 I4 I5 I6 I7].
      split; [by split|]. split; [by unfold budgetOK; cbn; rewrite Et|]. split; [by split|]. split; [done|].
      split; [cbn; intros; pose proof (Ho eq_refl); lia|lia].
    + destruct (Z.ltb_spec MaxScriptElementSize (zlen data)); [done|]. split_and!; auto; by split.
Qed.

Lemma executeOpcode_sound op data vm : running vm →
  sound (executeOpcode op data) vm (λ _ vm', einv (MaxStackSize + 3) vm' ∧ budgetOK vm' ∧ sameScript vm vm' ∧ tokenizer vm' = tokenizer vm
    ∧ (tapscriptCtx vm' = None → 0 <= numOps vm' <= MaxOpsPerScript)).
Proof.
  intros Hr. unfold Engine.executeOpcode. destruct (isOpcodeDisabled op); [done|]. destruct (isOpcodeAlwaysIllegal op); [done|].
  eapply sound_bind; [by apply countOp_sound|]. intros _ vm1 (Hi & Hb & Hs & Ht & Ho & Hd). apply sound_get.
  destruct (negb _ && _).
  { split_and!; auto. eapply einv_mono; [|done]. lia. }
  apply sound_get. destruct (if _ : bool then _ else None) as [c|]; [done|]. eapply sound_mono.
  - eapply sound_tri; [apply opfunc_ok; try done|done|done|done|by unfold MaxStackSize].
    intros. apply Hd. unfold OP_PUSHDATA4, OP_16 in *. lia.
  - intros _ vm2 (_ & Hf & Hi2 & Hb2). destruct Hs, Hf. split_and!; auto; [split; try congruence; by rewrite fr_ctx|congruence|].
    intros E. rewrite fr_ops. apply Ho. by eapply none_iff.
Qed.

Lemma depth_ok N s : zlen (stk s) <= N → N < 2 ^ 31 → Depth s = zlen (stk s).
Proof. intros. destruct s as [l m]. cbn [stk] in *. apply Depth_fits. lia. Qed.

(** After an opcode the limits hold again and the tokenizer has advanced. *)
Lemma stepOpcode_sound vm : running vm →
  sound (stepOpcode sha256 sha1 ripemd160 xmssVerify pick) vm (λ _ vm', running vm' ∧ sameScript vm vm' ∧ (measure vm' < measure vm)%nat).
Proof.
  intros Hr. destruct Hr as [Hi Hb Ho Ht Hs Hf Hl] eqn:Er. clear Er. unfold sound, stepOpcode. destruct (_ <=? _)%nat; [done|].
  destruct (Next (tokenizer vm)) as [ok t] eqn:En. destruct ok; cbn [negb]; [|by destruct (t_err t)].
  destruct (Next_parsed _ _ Ht En) as (Ht' & _ & Hrest & _). set (vm1 := withTokenizer t vm).
  assert (Hr1 : running vm1) by (destruct Hi; by split).
  pose proof (executeOpcode_sound (t_op t) (t_data t) vm1 Hr1) as Hx. unfold sound, sbind in *.
  destruct (executeOpcode (t_op t) (t_data t) vm1) as [[[]|e] vm2]; [|done]. destruct Hx as (Hi2 & Hb2 & [S1 S2 S3 S4] & Ht2 & Ho2).
  destruct Hi2 as [I1 I2 I3 I4 I5 I6 I7]. pose proof (zlen_nonneg (stk (dstack vm2))). pose proof (zlen_nonneg (stk (astack vm2))).
  unfold MaxStackSize in I1. rewrite !(depth_ok 1003) by lia. rewrite (wrapS_small 32) by (unfold inS; lia).
  destruct (Z.ltb_spec MaxStackSize (zlen (stk (dstack vm2)) + zlen (stk (astack vm2)))); [done|].
  cbn in S1, S2, S3, S4, Ht2. split; [|split; [by split|]].
  - split; cbn [tokenizer scripts scriptIdx tapscriptCtx numOps withOpcodeIdx]; [by split|done|done|by rewrite Ht2|by rewrite S2| |].
    + intros E. rewrite S2. apply Hf. by eapply none_iff.
    + intros E. rewrite S2, S3. apply Hl. by apply S4.
  - unfold measure. cbn [tokenizer scripts scriptIdx tapscriptCtx e_in withOpcodeIdx]. rewrite Ht2, S1, S2, S3, Hrest, length_app.
    pose proof (encTok_nonempty (t_op t, t_data t)). destruct (tapscriptCtx vm2) as [c|] eqn:E2; [lia|].
    rewrite (none_iff _ _ S4 eq_refl). lia.
Qed.

(** What verifying a witness program does to the engine: nothing but the stack
    for a key path, one more script for a script path. *)
Record afterWitness (vm vm' : Engine) : Prop := {
  aw_in : e_in vm' = e_in vm;
  aw_idx : scriptIdx vm' = scriptIdx vm;
  aw_inv : einv MaxStackSize vm';
  aw_budget : budgetOK vm';
  aw_ops : numOps vm' = numOps vm;
  aw_scripts : (tapscriptCtx vm' = None ∧ scripts vm' = scripts vm)
    ∨ (is_Some (tapscriptCtx vm') ∧ ∃ w, scripts vm' = scripts vm ++ [w] ∧ w ∈ witnessOf (e_in vm)) }.

Lemma verifySig_sound pk sg pkb full h vm : sound (verifySig pick pk sg pkb full h) vm (λ _ vm', ∃ c, vm' = withSigCache c vm).
Proof.
  unfold sound, verifySig. destruct (e_sigCache vm) as [c|] eqn:Ec.
  - destruct (Exists _ _ _ _); [exists (Some c); destruct vm; cbn in *; by subst|].
    destruct (Verify _ _ _); [by eexists|]. exists (Some c). destruct vm. cbn in *. by subst.
  - exists None. destruct vm. cbn in *. by subst.
Qed.
Lemma keyPath_sound program rawSig vm : einv MaxStackSize vm → stk (astack vm) = [] → tapscriptCtx vm = None → witnessOf (e_in vm) ≠ [] →
  sound (verifyTaprootKeyPath sha256 pick program rawSig) vm (λ _, afterWitness vm).
Proof.
  intros Hi Ha Hn Hw. unfold verifyTaprootKeyPath. eapply (sound_bind _ _ _ (λ _ vm', ∃ c, vm' = withSigCache c vm)).
  - unfold VerifyTaprootKeySpend. pose proof (ev_env _ _ Hi) as (txIn & Ht & _). unfold sound. rewrite Ht. unfold sbind at 1, sres.
    assert (Hp : clean (λ _, True) (parseTaprootSigAndPubKey program rawSig)) by (unfold parseTaprootSigAndPubKey; by repeat case_match).
    destruct (parseTaprootSigAndPubKey program rawSig) as [[[pub s] ht]|e]; [|done]. unfold sbind at 1, sget.
    pose proof (sigHash_clean sha256 (e_in vm) ht (match (stripWitnessAnnex (ti_Witness txIn)).2 with Some a => [WithAnnex sha256 a] | None => [] end)
      (ev_env _ _ Hi) Hw) as Hc.
    destruct (calcTaprootSignatureHashRaw _ _ _ _ _ _ _) as [h|e]; [|by subst e]. cbn [sigHashOr].
    eapply (sound_bind _ _ _ (λ _ vm', ∃ c, vm' = withSigCache c vm)); [apply verifySig_sound|]. intros [] vm' Hv; [exact Hv|done].
  - intros _ vm1 [c ->]. destruct Hi as [I1 I2 I3 I4 I5 I6 I7]. unfold MaxStackSize in I1. rewrite Ha in I1.
    unfold sound, onD. cbn [dstack withSigCache]. rewrite setStack_stk by (autorewrite with stk in I1; lia).
    split; cbn [e_in scriptIdx numOps tapscriptCtx scripts withDstack withSigCache]; try done; [|by unfold budgetOK; cbn; rewrite Hn|by left].
    split; cbn [dstack astack e_in tapscriptCtx withDstack withSigCache stk verifyMinimalData]; try done; [by rewrite Ha|].
    by apply Forall_singleton.
Qed.

(** The limits that a script path is started under. *)
Lemma enforce_sound vm : zlen (stk (dstack vm)) < 2 ^ 31 →
  sound enforceTapscriptStackLimits vm (λ _ vm', vm' = vm ∧ zlen (stk (dstack vm)) <= MaxStackSize ∧ Forall small (stk (dstack vm))).
Proof.
  intros Hf. unfold sound, enforceTapscriptStackLimits. rewrite (depth_ok (zlen (stk (dstack vm)))) by lia. rewrite getStack_stk by done.
  destruct (Z.ltb_spec MaxStackSize (zlen (stk (dstack vm)))); [done|]. destruct (existsb _ _) eqn:E; [done|]. split_and!; [done|done|].
  apply Forall_forall. intros e He. unfold small. apply Z.ltb_ge. destruct (_ <? _) eqn:E'; [|done].
  assert (existsb (λ e, MaxScriptElementSize <? zlen e) (stk (dstack vm)) = true); [|congruence].
  apply existsb_exists. exists e. by rewrite <- list_elem_of_In.
Qed.

Lemma sound_setStack {B} data (k : unit → vM B) vm R : fits (stk (dstack vm)) →
  sound (k tt) (withDstack (mkStack data (verifyMinimalData (dstack vm))) vm) R → sound (sbind (onD (setStack data)) k) vm R.
Proof. intros Hf Hk. unfold sound, sbind, onD. by rewrite setStack_stk. Qed.
Lemma setup_sound stack annex script leafVersion vm txIn :
  einv MaxStackSize vm → stk (astack vm) = [] → at_ (tx_TxIn (ei_tx (e_in vm))) (ei_txIdx (e_in vm)) = Some txIn →
  ti_Witness txIn ≠ [] → (∀ e, e ∈ stack → e ∈ ti_Witness txIn) → zlen stack < 2 ^ 31 → script ∈ stack →
  sound (setupScriptPathSpend sha256 stack (i32 (TxWitness_SerializeSize (ti_Witness txIn))) annex script leafVersion) vm (λ _, afterWitness vm).
Proof.
  intros Hi Ha Ht Hw Hs Hlen Hin. unfold setupScriptPathSpend. destruct (negb _); [done|]. destruct (checkScriptParses script); [done|].
  do 2 apply sound_seq. destruct Hi as [I1 I2 I3 I4 I5 I6 I7]. unfold MaxStackSize in I1. rewrite Ha in I1. autorewrite with stk in I1.
  destruct I6 as (txIn' & Ht' & Hp & Hh & Hz) eqn:E6. clear E6. assert (txIn' = txIn) by congruence. subst txIn'.
  apply sound_setStack; [cbn [dstack withScripts withCtx]; lia|].
  set (d := take _ stack). assert (Hd : zlen d <= zlen stack) by (unfold d, zlen; rewrite length_take; lia).
  eapply sound_mono; [apply enforce_sound; cbn [dstack withDstack stk]; lia|]. intros _ vm' (-> & Hsz & Hsm).
  cbn [dstack withDstack withScripts withCtx stk] in Hsz, Hsm. pose proof (witness_size (ti_Witness txIn)).
  assert (0 <= TxWitness_SerializeSize (ti_Witness txIn)) by (unfold zlen in *; lia). unfold sigOpsDelta in Hz.
  assert (Hwo : witnessOf (e_in vm) = ti_Witness txIn) by (unfold witnessOf; by rewrite Ht).
  split; cbn [e_in scriptIdx tapscriptCtx scripts numOps withDstack withScripts withCtx]; [done|done| | |done|].
  - split; cbn [e_in tapscriptCtx dstack astack stk verifyMinimalData withDstack withScripts withCtx]; try done;
      [rewrite Ha; autorewrite with stk; lia|]. intros _. by rewrite Hwo.
  - unfold budgetOK. cbn [tapscriptCtx withDstack withScripts withCtx newTapscriptExecutionCtx opsBudget]. unfold sigOpsDelta.
    rewrite !(wrapS_small 32) by (unfold inS; rewrite ?(wrapS_small 32) by (unfold inS; lia); lia). lia.
  - right. split; [by eexists|]. exists script. split; [done|]. rewrite Hwo. by apply Hs.
Qed.

Lemma ctrl_clean b : clean (λ c, ∃ k, ParsePubKey k = Some (InternalKey c)) (ParseControlBlock b).
Proof.
  unfold ParseControlBlock. destruct (Z.ltb_spec (zlen b) ControlBlockBaseSize); [done|]. do 2 (destruct (_ : bool); [done|]).
  destruct b as [|c b]; [unfold zlen, ControlBlockBaseSize in *; cbn in *; lia|]. destruct (ParsePubKey _) as [k|] eqn:E; [|done].
  by eexists.
Qed.
Lemma mrCtrl_clean b : clean (λ _, True) (ParseMerkleRootControlBlock b).
Proof.
  unfold ParseMerkleRootControlBlock. destruct (Z.ltb_spec (zlen b) MerkleRootControlBlockBaseSize); [done|]. do 2 (destruct (_ : bool); [done|]).
  destruct b as [|c b]; [unfold zlen, MerkleRootControlBlockBaseSize in *; cbn in *; lia|]. by destruct (negb _).
Qed.
Lemma leafCommitment_clean c program script : (∃ k, ParsePubKey k = Some (InternalKey c)) →
  clean (λ _, True) (VerifyTaprootLeafCommitment sha256 c program script).
Proof.
  intros [k Hk]. unfold VerifyTaprootLeafCommitment, ComputeTaprootOutputKey. destruct (Hkey _ _ Hk) as [k' ->]. cbn. by repeat case_match.
Qed.
Lemma sound_res {A B} (r : res everr A) (k : A → vM B) vm Q R : clean Q r → (∀ a, Q a → sound (k a) vm R) → sound (sbind (sres r) k) vm R.
Proof. intros Hr Hk. unfold sound, sbind, sres. destruct r; [by apply Hk|done]. Qed.

(** Both kinds of witness program. *)
Lemma verifyWitnessProgram_sound version program vm txIn :
  einv MaxStackSize vm → stk (astack vm) = [] → tapscriptCtx vm = None → at_ (tx_TxIn (ei_tx (e_in vm))) (ei_txIdx (e_in vm)) = Some txIn →
  sound (verifyWitnessProgram sha256 pick version program (ti_Witness txIn)) vm (λ _, afterWitness vm).
Proof.
  intros Hi Ha Hn Ht. assert (Hwo : witnessOf (e_in vm) = ti_Witness txIn) by (unfold witnessOf; by rewrite Ht).
  pose proof (ev_env _ _ Hi) as (txIn' & Ht' & _ & _ & Hz). assert (txIn' = txIn) by congruence. subst txIn'.
  pose proof (witness_size (ti_Witness txIn)). unfold sigOpsDelta in Hz. assert (Hfit : zlen (ti_Witness txIn) < 2 ^ 31) by lia.
  assert (Hstrip : ∀ e, e ∈ (stripWitnessAnnex (ti_Witness txIn)).1 → e ∈ ti_Witness txIn) by (intros; by apply strip_elem).
  assert (Hlen : zlen (stripWitnessAnnex (ti_Witness txIn)).1 < 2 ^ 31).
  { unfold stripWitnessAnnex. destruct (isAnnexedWitness _); [|done]. cbn [fst]. unfold zlen in *. rewrite length_take. lia. }
  unfold verifyWitnessProgram, verifyTaprootSpend, verifyMerkleRootSpend. destruct (version =? 0); [done|].
  assert (Hne : zlen (ti_Witness txIn) ≠ 0 → ti_Witness txIn ≠ []) by (intros E Hx; apply E; by rewrite Hx).
  pose proof (strip_nonempty (ti_Witness txIn)) as Hst. destruct (stripWitnessAnnex (ti_Witness txIn)) as [st an]. cbn [fst] in *.
  assert (Htwo : ti_Witness txIn ≠ [] → length st ≠ 1%nat → ∃ c s, lastTwo st = Some (c, s) ∧ s ∈ st).
  { intros Hw Hone. destruct (lastTwo_some st) as [[c s] E]; [specialize (Hst Hw); unfold zlen in *; lia|].
    exists c, s. split; [done|]. by eapply lastTwo_elem. }
  destruct (version =? 1).
  - destruct (negb _); [done|]. destruct (Z.eqb_spec (zlen (ti_Witness txIn)) 0) as [|Hw]; [done|]. apply Hne in Hw.
    destruct (decide (length st = 1%nat)) as [Hone|Hone].
    { destruct st as [|rawSig []]; try done. apply keyPath_sound; try done. by rewrite Hwo. }
    destruct (Htwo Hw Hone) as (ctrl & script & -> & Hin).
    assert (sound (sbind (sres (ParseControlBlock ctrl)) (λ c, sbind (sres (VerifyTaprootLeafCommitment sha256 c program script))
      (λ _, setupScriptPathSpend sha256 st (i32 (TxWitness_SerializeSize (ti_Witness txIn))) an script (cb_LeafVersion c)))) vm (λ _, afterWitness vm));
      [|by destruct st as [|? []]].
    eapply sound_res; [apply ctrl_clean|]. intros c Hc. eapply sound_res; [by apply leafCommitment_clean|]. intros _ _. by apply setup_sound.
  - destruct (version =? 2); [|done]. destruct (negb _); [done|]. destruct (Z.eqb_spec (zlen (ti_Witness txIn)) 0) as [|Hw]; [done|]. apply Hne in Hw.
    destruct (Z.eqb_spec (zlen st) 1) as [|Hone]; [done|]. destruct (Htwo Hw ltac:(unfold zlen in Hone; lia)) as (ctrl & script & -> & Hin).
    eapply sound_res; [apply mrCtrl_clean|]. intros c _. eapply (sound_res _ _ _ (λ _, True)).
    { unfold VerifyMerkleRootLeafCommitment. by destruct (negb _). }
    intros _ _. by apply setup_sound.
Qed.

(** The state between two scripts. *)
Definition between (vm vm' : Engine) : Prop :=
  einv MaxStackSize vm' ∧ budgetOK vm' ∧ numOps vm' = 0 ∧ Forall (λ s, zlen s < 2 ^ 31) (scripts vm')
  ∧ (is_Some (tapscriptCtx vm') → length (scripts vm') = 3%nat ∧ (2 <= scriptIdx vm')%nat)
  ∧ (tapscriptCtx vm' = None → length (scripts vm') = 2%nat)
  ∧ (sumLen (drop (scriptIdx vm') (scripts vm')) + match tapscriptCtx vm' with None => sumLen (witnessOf (e_in vm')) | Some _ => 0 end
     <= measure vm)%nat.

Lemma nextScript_between vm : running vm →
  between vm (withScripts (scripts vm) (S (scriptIdx vm)) (withLastCodeSep 0 (withOpcodeIdx 0 (withNumOps 0
    (withAstack (DropN (Depth (astack vm)) (astack vm)).2 vm)))))
  ∧ stk (DropN (Depth (astack vm)) (astack vm)).2 = [].
Proof.
  intros [[I1 I2 I3 I4 I5 I6 I7] Hb Ho Ht Hs Hf Hl]. unfold MaxStackSize in I1. pose proof (zlen_nonneg (stk (dstack vm))).
  rewrite DropN_all by (pose proof (zlen_nonneg (stk (astack vm))); lia). split; [|done].
  split_and!; cbn [numOps scripts tapscriptCtx scriptIdx e_in withScripts withLastCodeSep withOpcodeIdx withNumOps withAstack]; try done.
  - split; cbn [dstack astack e_in tapscriptCtx stk verifyMinimalData withScripts withLastCodeSep withOpcodeIdx withNumOps withAstack]; try done.
      autorewrite with stk. pose proof (zlen_nonneg (stk (astack vm))). unfold MaxStackSize. lia.
  - intros E. destruct (Hl E) as [-> ->]. split; [done|lia].
  - unfold measure. lia.
Qed.

Lemma witness_between vm vm1 vm2 : between vm vm1 → tapscriptCtx vm1 = None → scriptIdx vm1 = 2%nat → afterWitness vm1 vm2 → between vm vm2.
Proof.
  intros (Hi & Hb & Ho & Hs & Hl & Hf & Hm) Hn Hidx [A1 A2 A3 A4 A5 [[A6 A7]|[[c A6] (w & A7 & A8)]]].
  - split_and!; try done; [congruence|by rewrite A7|by rewrite A6; intros []|intros _; rewrite A7; auto|]. rewrite A6, A7, A1, A2. by rewrite Hn in Hm.
  - rewrite Hn in Hm. pose proof (sumLen_elem _ _ A8) as Hw. split_and!; try done; [congruence| | |by rewrite A6|].
    + rewrite A7. apply Forall_app. split; [done|]. apply Forall_singleton. destruct (ev_env _ _ Hi) as (txIn & Ht & _ & _ & Hz).
      unfold witnessOf in Hw. rewrite Ht in Hw. pose proof (witness_size (ti_Witness txIn)). pose proof (zlen_nonneg (ti_Witness txIn)).
      unfold zlen at 1. unfold sigOpsDelta in Hz. lia.
    + intros _. rewrite A7, length_app, (Hf Hn), A2, Hidx. done.
    + rewrite A6, A7, A2, Hidx, drop_app_ge by (by rewrite (Hf Hn)). rewrite (Hf Hn). cbn. unfold sumLen in *. cbn in *. lia.
Qed.

Lemma skipEmpty_between vm vm1 : between vm vm1 →
  between vm (if bool_decide (scripts vm1 !! scriptIdx vm1 = Some []) then withScripts (scripts vm1) (S (scriptIdx vm1)) vm1 else vm1).
Proof.
  intros (Hi & Hb & Ho & Hs & Hl & Hf & Hm). case_bool_decide as E; [|done].
  split_and!; cbn [numOps scripts tapscriptCtx scriptIdx e_in withScripts]; try done.
  - destruct Hi. by split.
  - intros Hc. specialize (Hl Hc). lia.
  - rewrite (drop_S _ _ _ E) in Hm. exact Hm.
Qed.

(** The end of a script: the next one is set up, or there is none. *)
Definition ended (vm : Engine) (d : bool) (vm' : Engine) : Prop :=
  limits vm' ∧ if d then (length (scripts vm') <= scriptIdx vm')%nat else running vm' ∧ (measure vm' <= measure vm)%nat.

Lemma endOfScript_sound vm : running vm → sound (endOfScript sha256 pick) vm (ended vm).
Proof.
  intros Hr. destruct (nextScript_between vm Hr) as [Hbt Ha]. unfold endOfScript. apply sound_get. destruct (negb _); [done|].
  do 2 apply sound_seq. cbn [scripts scriptIdx withAstack withScripts]. set (vm1 := withScripts _ _ _) in *. apply sound_get.
  eapply (sound_bind _ _ _ (λ _ vm2, between vm vm2)).
  - destruct (Nat.eqb_spec (scriptIdx vm1) 2) as [Hidx|]; [|done]. destruct (ei_witnessProgram (e_in vm1)) as [program|]; [|done].
    assert (Hn : tapscriptCtx vm1 = None).
    { destruct (tapscriptCtx vm1) as [c|] eqn:E; [|done]. exfalso. destruct Hr as [_ _ _ _ _ _ Hl]. cbn in Hidx.
      destruct Hl as [_ Hl]; [by exists c|]. lia. }
    pose proof (ev_env _ _ (proj1 Hbt)) as (txIn & Ht & _). unfold sound, sbind at 1, thisInput. rewrite Ht. unfold sbind, sget.
    pose proof (verifyWitnessProgram_sound (ei_witnessVersion (e_in vm1)) program vm1 txIn (proj1 Hbt) Ha Hn Ht) as Hv. unfold sound in Hv.
    destruct (verifyWitnessProgram _ _ _ _ _ vm1) as [[[]|e] vm2]; [|done]. by eapply witness_between.
  - intros _ vm2 H2. apply sound_seq. apply skipEmpty_between in H2. set (vm3 := if _ : bool then _ else vm2) in *.
    destruct H2 as (Hi & Hb & Ho & Hs & Hl & Hf & Hm). unfold sound. destruct (scripts vm3 !! scriptIdx vm3) as [s|] eqn:E.
    + assert (Hi' : einv MaxStackSize (withTokenizer (MakeScriptTokenizer 0 s) vm3)) by (destruct Hi; by split).
      split; [by split; [done|done|intros _; cbn; by rewrite Ho]|].
      pose proof (proj1 (Forall_lookup _ _) Hs _ _ E) as Hz. cbn in Hz. split.
      * split; cbn [tapscriptCtx numOps tokenizer scripts scriptIdx withTokenizer]; try done; [by intros _; rewrite Ho| |].
        -- unfold okTok. cbn. pose proof (zlen_nonneg s). split; [done|]. lia.
        -- intros Hc. destruct (Hl Hc) as [E3 E2]. apply lookup_lt_Some in E. split; [done|]. lia.
      * unfold measure at 1. cbn [tokenizer scriptIdx scripts tapscriptCtx e_in withTokenizer]. rewrite (drop_S _ _ _ E) in Hm.
        unfold restOf. cbn [t_offset t_script MakeScriptTokenizer]. rewrite drop_0. unfold sumLen in *. cbn in Hm. cbn. lia.
    + split; [by split; [done|done|intros _; by rewrite Ho]|]. by apply lookup_ge_None in E.
Qed.

Lemma Step_sound vm : running vm → sound Step vm (λ d vm', limits vm' ∧
  if d : bool then (length (scripts vm') <= scriptIdx vm')%nat else running vm' ∧ (measure vm' < measure vm)%nat).
Proof.
  intros Hr. unfold Engine.Step. eapply sound_bind; [by apply stepOpcode_sound|]. intros _ vm1 (Hr1 & _ & Hm). apply sound_get.
  destruct (Done _); cbn [negb].
  - eapply sound_mono; [by apply endOfScript_sound|]. intros [] vm2 [Hi H2]; [by split|]. split; [done|]. destruct H2. split; [done|lia].
  - split; [by apply running_limits|done].
Qed.

Lemma executeLoop_sound fuel : ∀ vm, running vm → (measure vm < fuel)%nat →
  sound (executeLoop sha256 sha1 ripemd160 xmssVerify pick fuel) vm (λ _ vm', limits vm' ∧ (length (scripts vm') <= scriptIdx vm')%nat).
Proof.
  induction fuel as [|fuel IH]; intros vm Hr Hm; [lia|]. cbn [executeLoop]. eapply sound_bind; [by apply Step_sound|].
  intros [] vm1 [Hi H1]; [by split|]. destruct H1. apply IH; [done|lia].
Qed.

Lemma CheckErrorCondition_sound b vm : einv MaxStackSize vm → sound (CheckErrorCondition b) vm (λ _ _, True).
Proof.
  intros Hi. unfold sound, CheckErrorCondition. destruct (_ <? _)%nat; [done|]. destruct (_ && _); [done|]. destruct (_ <? _); [done|].
  unfold sbind, onD. destruct Hi as [I1 I2 I3 I4 I5 I6 I7]. unfold MaxStackSize in I1. pose proof (zlen_nonneg (stk (astack vm))).
  destruct (PopBool_tri (zlen (stk (dstack vm))) (dstack vm)) as [_ Hc]; [by split|lia|]. destruct (PopBool (dstack vm)) as [[[]|e] s]; [done..|].
  exact Hc.
Qed.

(** ** From construction to the result *)
(** What the validation code guarantees about the input it runs the engine on. *)
Definition inputOK (tx : MsgTx) (txIdx : Z) (hashCache : option TxSigHashes) (fetch : PrevOutputFetcher) : Prop :=
  ∀ txIn, at_ (tx_TxIn tx) txIdx = Some txIn →
    is_Some (fetch (ti_PreviousOutPoint txIn)) ∧ (ti_Witness txIn ≠ [] → is_Some hashCache)
    ∧ TxWitness_SerializeSize (ti_Witness txIn) + sigOpsDelta < 2 ^ 31.

Lemma checkScript_clean scr : clean (λ _, zlen scr < 2 ^ 31) (checkScript scr).
Proof.
  unfold checkScript. destruct (Z.ltb_spec MaxScriptSize (zlen scr)); [done|]. destruct (checkScriptParses scr); [done|].
  unfold clean, MaxScriptSize in *. lia.
Qed.
Lemma NewEngine_clean pkScript tx txIdx sigCache hashCache amount fetch : inputOK tx txIdx hashCache fetch →
  clean (λ vm, running vm ∧ (measure vm < executeFuel vm)%nat) (NewEngine pkScript tx txIdx sigCache hashCache amount fetch).
Proof.
  intros Hin. unfold NewEngine. destruct (Z.ltb_spec txIdx 0); [done|]. destruct (Z.leb_spec (zlen (tx_TxIn tx)) txIdx); [done|]. cbn [orb].
  destruct (at_ (tx_TxIn tx) txIdx) as [txIn|] eqn:Et.
  2: { exfalso. unfold at_ in Et. rewrite (proj2 (Z.ltb_ge _ _)) in Et by lia. apply lookup_ge_None in Et. unfold zlen in *. lia. }
  destruct (Hin txIn Et) as (Hp & Hh & Hz). set (ss := ti_SignatureScript txIn). destruct (_ && _); [done|]. destruct (negb _); [done|].
  pose proof (checkScript_clean ss) as C1. destruct (checkScript ss); [|done]. cbn [res_bind].
  pose proof (checkScript_clean pkScript) as C2. destruct (checkScript pkScript); [|done]. cbn [res_bind clean] in *.
  match goal with |- context [res_bind ?m _] => destruct m as [[version program]|e] eqn:E end; cbn [res_bind clean].
  2: { destruct (extractWitnessProgramInfo pkScript) as [[v pr]|]; destruct (negb _); by simplify_eq. }
  set (idx := if _ : bool then 1%nat else 0%nat). set (scr := default [] ([ss; pkScript] !! idx)). set (i := mkInput _ _ _ _ _ _ _).
  assert (Hscr : zlen scr < 2 ^ 31) by (unfold scr, idx; by destruct (_ =? 0)). split.
  - split; cbn [tapscriptCtx numOps tokenizer scripts scriptIdx]; try done.
    + split; cbn [dstack astack e_in tapscriptCtx stk verifyMinimalData]; try done; first [by exists txIn | by intros []].
    + unfold okTok. cbn. pose proof (zlen_nonneg scr). split; [done|]. lia.
    + repeat apply Forall_cons; try done. by split; [|by apply Forall_cons].
  - unfold measure, executeFuel. cbn [tokenizer scriptIdx scripts tapscriptCtx e_in]. unfold restOf. cbn [t_offset t_script MakeScriptTokenizer].
    rewrite drop_0. unfold scr, idx, sumLen. destruct (zlen ss =? 0); cbn; lia.
Qed.

Lemma runInput_clean pkScript tx txIdx sigCache hashCache amount fetch : inputOK tx txIdx hashCache fetch →
  clean (λ _, True) (runInput sha256 sha1 ripemd160 xmssVerify pick pkScript tx txIdx sigCache hashCache amount fetch).1.
Proof.
  intros Hin. unfold runInput. pose proof (NewEngine_clean pkScript tx txIdx sigCache hashCache amount fetch Hin) as Hn.
  destruct (NewEngine _ _ _ _ _ _ _) as [vm|e]; [|done]. destruct Hn as [Hr Hm].
  assert (Hx : sound (Execute sha256 sha1 ripemd160 xmssVerify pick) vm (λ _ _, True)).
  { unfold Execute, sound. eapply sound_bind; [by apply executeLoop_sound|]. intros _ vm' [Hl _]. by apply CheckErrorCondition_sound, Hl. }
  unfold sound in Hx. destruct (Execute _ _ _ _ _ vm) as [[[]|e] vm']; [done|]. exact Hx.
Qed.
End run.

(** What the engine relies on in the hash functions and the key library. *)
Class CryptoLaws (sha256 sha1 ripemd160 : bytes → bytes) `{Schnorr} : Prop := {
  sha256_length : ∀ b, length (sha256 b) = 32%nat;
  sha1_length : ∀ b, length (sha1 b) = 20%nat;
  ripemd160_length : ∀ b, length (ripemd160 b) = 20%nat;
  SerializePubKey_parses : ∀ k b, ParsePubKey b = Some k → is_Some (ParsePubKey (SerializePubKey k)) }.

(** The states of a run: after how many steps does not matter. *)
Inductive reach (step : vM bool) (vm0 : Engine) : bool → Engine → Prop :=
| reach_start : reach step vm0 false vm0
| reach_step vm d vm' : reach step vm0 false vm → step vm = (Ok d, vm') → reach step vm0 d vm'.

Section theorems.
Context (sha256 sha1 ripemd160 : bytes → bytes) `{TapTweak} (xmssVerify : bytes → bytes → bytes → bool)
  (pick : gmap bytes sigCacheEntry → option bytes) `{!CryptoLaws sha256 sha1 ripemd160}.
Abbreviation step := (Step sha256 sha1 ripemd160 xmssVerify pick).

Lemma reach_inv vm0 d vm : running vm0 → reach step vm0 d vm → limits vm ∧ (d = false → running vm).
Proof.
  intros Hr0 Hr. induction Hr as [|vm d vm' _ [_ IH] Hs]; [split; [by apply running_limits|done]|].
  pose proof (Step_sound sha256 sha1 ripemd160 xmssVerify pick sha256_length sha1_length ripemd160_length SerializePubKey_parses vm (IH eq_refl)) as Hv.
  unfold sound in Hv. rewrite Hs in Hv. destruct Hv as [Hl Hv]. split; [done|]. intros ->. apply Hv.
Qed.

(** C11. Running the scripts of an input ends, with success or an error that the
    engine reports: no index out of range, no nil dereference, no conversion
    that panics, whatever the scripts and the witness are, and in at most one
    step per byte of the scripts and the witness. *)
Theorem engine_total (pkScript : bytes) (tx : MsgTx) (txIdx : Z) (sigCache : option SigCache) (hashCache : option TxSigHashes)
    (amount : Z) (fetch : PrevOutputFetcher) (Hin : inputOK tx txIdx hashCache fetch) :
  match (runInput sha256 sha1 ripemd160 xmssVerify pick pkScript tx txIdx sigCache hashCache amount fetch).1 with
  | Ok _ => True
  | Err e => e ≠ EnginePanic ∧ e ≠ OutOfFuel
  end.
Proof. apply runInput_clean; try done; apply CryptoLaws0. Qed.

(** C12. The limits of the engine hold after every step: at most 1,000 elements on
    both stacks together, none longer than 520 bytes, at most 201 operations
    outside tapscript, and a budget that is not overdrawn in tapscript. *)
Theorem engine_limits (pkScript : bytes) (tx : MsgTx) (txIdx : Z) (sigCache : option SigCache) (hashCache : option TxSigHashes)
    (amount : Z) (fetch : PrevOutputFetcher) (vm0 vm : Engine) (d : bool) (Hin : inputOK tx txIdx hashCache fetch)
    (Hnew : NewEngine pkScript tx txIdx sigCache hashCache amount fetch = Ok vm0) (Hrun : reach step vm0 d vm) :
  zlen (stk (dstack vm)) + zlen (stk (astack vm)) <= 1000
  ∧ (∀ e, e ∈ stk (dstack vm) ++ stk (astack vm) → zlen e <= 520)
  ∧ (tapscriptCtx vm = None → 0 <= numOps vm <= 201)
  ∧ (∀ t, tapscriptCtx vm = Some t → 0 <= opsBudget t).
Proof.
  pose proof (NewEngine_clean pkScript tx txIdx sigCache hashCache amount fetch Hin) as Hn. rewrite Hnew in Hn. destruct Hn as [Hn _].
  destruct (reach_inv vm0 d vm Hn Hrun) as [[[L1 L2 L3 _ _ _ _] Lb Lo] _]. split; [done|]. split; [|split; [done|]].
  - intros e [He|He]%elem_of_app; [by apply (proj1 (Forall_forall _ _) L2)|by apply (proj1 (Forall_forall _ _) L3)].
  - intros t Et. unfold budgetOK in Lb. rewrite Et in Lb. lia.
Qed.
End theorems.

(** ** A concrete spend *)
Module EngineDemo.
Definition h20 (b : bytes) : bytes := take 20 (TapDemo.mix b).
#[export] Instance toyTweak : TapTweak (H := Toy.toySchnorr) := {| tweakAdd k t := k; yIsOdd k := false |}.
Lemma toyLaws : CryptoLaws (H := Toy.toySchnorr) TapDemo.mix h20 h20.
Proof.
  split; try exact TapDemo.mix_length.
  - intros b. unfold h20. by rewrite length_take, TapDemo.mix_length.
  - intros b. unfold h20. by rewrite length_take, TapDemo.mix_length.
  - intros k b E. cbn in *. destruct (length b =? 32)%nat eqn:El; [|done]. injection E as <-. by rewrite El.
Qed.
(** A merkle root output whose only leaf is [OP_DUP OP_EQUAL], spent with 07. *)
Definition leafScript : bytes := [x76; x87].
Definition root : bytes := TapHash TapDemo.mix (NLeaf (NewBaseTapLeaf leafScript)).
Definition pkScript : bytes := [x52; x20] ++ root.
Definition tx : MsgTx :=
  mkMsgTx 2 [mkTxIn (mkOutPoint (replicate 32 x01) 0) [] [[x07]; leafScript; [xc1]] 5] [mkTxOut 4 [x51]] 0.
Definition fetch : PrevOutputFetcher := λ _, Some (mkTxOut 5 pkScript).
Definition sigHashes : option TxSigHashes := NewTxSigHashes TapDemo.mix tx fetch.
Definition noXmss : bytes → bytes → bytes → bool := λ _ _ _, false.
Definition noPick : gmap bytes sigCacheEntry → option bytes := λ _, None.
Definition cache : option SigCache := Some (NewSigCache 10).
End EngineDemo.
Import (hints) EngineDemo.

Lemma demo_inputOK : inputOK EngineDemo.tx 0 EngineDemo.sigHashes EngineDemo.fetch.
Proof. intros txIn [= <-]. split; [by eexists|]. split; [intros _; eexists; vm_compute; reflexivity|]. vm_compute. reflexivity. Qed.

Lemma engine_total_witness :
  (runInput (H0 := EngineDemo.toyTweak) TapDemo.mix EngineDemo.h20 EngineDemo.h20 EngineDemo.noXmss EngineDemo.noPick
     EngineDemo.pkScript EngineDemo.tx 0 EngineDemo.cache EngineDemo.sigHashes 5 EngineDemo.fetch).1 = Ok tt
  ∧ match (runInput (H0 := EngineDemo.toyTweak) TapDemo.mix EngineDemo.h20 EngineDemo.h20 EngineDemo.noXmss EngineDemo.noPick
     EngineDemo.pkScript EngineDemo.tx 0 EngineDemo.cache EngineDemo.sigHashes 5 EngineDemo.fetch).1 with
    | Ok _ => True | Err e => e ≠ EnginePanic ∧ e ≠ OutOfFuel end.
Proof.
  split; [vm_compute; reflexivity|].
  exact (engine_total (H0 := EngineDemo.toyTweak) (CryptoLaws0 := EngineDemo.toyLaws) TapDemo.mix EngineDemo.h20 EngineDemo.h20
    EngineDemo.noXmss EngineDemo.noPick EngineDemo.pkScript EngineDemo.tx 0 EngineDemo.cache
    EngineDemo.sigHashes 5 EngineDemo.fetch demo_inputOK).
Defined.

Lemma engine_limits_witness : ∃ vm0 vm,
  NewEngine EngineDemo.pkScript EngineDemo.tx 0 EngineDemo.cache EngineDemo.sigHashes 5 EngineDemo.fetch = Ok vm0
  ∧ Step (H0 := EngineDemo.toyTweak) TapDemo.mix EngineDemo.h20 EngineDemo.h20 EngineDemo.noXmss EngineDemo.noPick vm0 = (Ok false, vm)
  ∧ stk (dstack vm) = [[x02]] ∧ zlen (stk (dstack vm)) + zlen (stk (astack vm)) <= 1000.
Proof.
  eexists _, _. split; [reflexivity|]. split; [vm_compute; reflexivity|]. split; [reflexivity|].
  eapply (engine_limits (H0 := EngineDemo.toyTweak) (CryptoLaws0 := EngineDemo.toyLaws) TapDemo.mix EngineDemo.h20 EngineDemo.h20 EngineDemo.noXmss EngineDemo.noPick
    EngineDemo.pkScript EngineDemo.tx 0 EngineDemo.cache EngineDemo.sigHashes 5 EngineDemo.fetch _ _ false demo_inputOK); [reflexivity|].
  eapply reach_step; [apply reach_start|]. vm_compute. reflexivity.
Defined.
