(* ===== verification/EngineCache.v ===== *)
(** * The signature cache does not change what the engine answers

    [indep m] says that the computation [m] returns the same result from two
    engines that differ only in their signature caches, as long as both caches
    hold only signatures that verify, and that it keeps them so. *)
From Stdlib Require Import ZArith Lia Strings.Byte.
From stdpp Require Import base list gmap.
From S2P Require Import Prelude WireTx Merkle Script ScriptStack SigHash Utxo Covenant TxRules Taproot Opcodes Engine EngineInv EngineRun.
Open Scope Z_scope.
Open Scope list_scope.

Section cache.
Context (sha256 sha1 ripemd160 : bytes → bytes) `{TapTweak} (xmssVerify : bytes → bytes → bytes → bool)
  (pick : gmap bytes sigCacheEntry → option bytes).

(** The entries of a sound cache are signatures that verify. *)
Definition validEntry (h fullSig pkBytes : bytes) : Prop :=
  ∃ pub sig ht, parseTaprootSigAndPubKey pkBytes fullSig = Ok (pub, sig, ht) ∧ Verify sig h pub = true.
Definition cacheOK (c : option SigCache) : Prop := match c with None => True | Some c => cacheHolds validEntry c end.

Definition indep {A} (m : vM A) : Prop := ∀ vm c, cacheOK (e_sigCache vm) → cacheOK c →
  (m (withSigCache c vm)).1 = (m vm).1 ∧ cacheOK (e_sigCache (m vm).2)
  ∧ ∃ c', (m (withSigCache c vm)).2 = withSigCache c' (m vm).2 ∧ cacheOK c'.

Lemma indep_bind {A B} (m : vM A) (f : A → vM B) : indep m → (∀ a, indep (f a)) → indep (sbind m f).
Proof.
  intros Hm Hf vm c Hv Hc. destruct (Hm vm c Hv Hc) as (E1 & O1 & c' & E2 & O2). unfold sbind.
  destruct (m (withSigCache c vm)) as [r s], (m vm) as [r' s']. cbn [fst snd] in *. subst r s. destruct r' as [a|e]; [by apply Hf|].
  split; [done|]. split; [done|]. by exists c'.
Qed.
Lemma indep_pure {A} (m : vM A) : (∀ vm c, m (withSigCache c vm) = ((m vm).1, withSigCache c (m vm).2)) →
  (∀ vm, e_sigCache (m vm).2 = e_sigCache vm) → indep m.
Proof. intros Hm He vm c Hv Hc. rewrite Hm, He. split; [done|]. split; [done|]. by exists c. Qed.
Lemma indep_ret {A} (a : A) : indep (sret a).
Proof. by apply indep_pure. Qed.
Lemma indep_err {A} e : indep (serr (A := A) e).
Proof. by apply indep_pure. Qed.
Lemma indep_fail {A} c : indep (fail (A := A) c).
Proof. by apply indep_pure. Qed.
Lemma indep_res {A} (r : res everr A) : indep (sres r).
Proof. by apply indep_pure. Qed.
Lemma indep_get {A} (f : Engine → A) : (∀ vm c, f (withSigCache c vm) = f vm) → indep (sget f).
Proof. intros Hf. apply indep_pure; [|done]. intros vm c. unfold sget. by rewrite Hf. Qed.
Lemma indep_mod (f : Engine → Engine) : (∀ vm c, f (withSigCache c vm) = withSigCache c (f vm)) → (∀ vm, e_sigCache (f vm) = e_sigCache vm) → indep (smod f).
Proof. intros Hf He. apply indep_pure; [|done]. intros vm c. unfold smod. by rewrite Hf. Qed.
Lemma indep_onD {A} (m : sM stack A) : indep (onD m).
Proof. apply indep_pure; intros vm; intros; unfold onD; cbn; by destruct (m (dstack vm)). Qed.
Lemma indep_onA {A} (m : sM stack A) : indep (onA m).
Proof. apply indep_pure; intros vm; intros; unfold onA; cbn; by destruct (m (astack vm)). Qed.

Create HintDb cache.
Ltac pure := apply indep_pure; intros; cbn; repeat case_match; cbn in *; simplify_eq; done.
Ltac ind1 :=
  match goal with
  | |- indep (sbind _ _) => apply indep_bind; [|intros ?]
  | |- indep (sret _) => apply indep_ret
  | |- indep (serr _) => apply indep_err
  | |- indep (fail _) => apply indep_fail
  | |- indep (sres _) => apply indep_res
  | |- indep (sget _) => apply indep_get; done
  | |- indep (onD _) => apply indep_onD
  | |- indep (onA _) => apply indep_onA
  | |- indep (if ?b then _ else _) => destruct b eqn:?
  | |- indep (match ?b with _ => _ end) => destruct b eqn:?
  | |- indep PopByteArray' => apply indep_onD
  | |- indep PopInt' => apply indep_onD
  | |- indep (PushByteArray' _) => apply indep_onD
  | |- indep (PushInt' _) => apply indep_onD
  | |- indep (PushBool' _) => apply indep_onD
  | |- _ => solve [eauto with cache]
  end.
Ltac ind := repeat ind1.

Lemma abstractVerify_ind c : indep (abstractVerify c).
Proof. unfold abstractVerify. ind. Qed.
Lemma thisInput_ind : indep thisInput.
Proof. unfold thisInput. pure. Qed.
Lemma tally_ind cost : indep (tallyOpCost cost).
Proof. unfold tallyOpCost. pure. Qed.
Hint Resolve abstractVerify_ind thisInput_ind tally_ind : cache.

(** The one place where the cache is consulted. *)
Lemma verifySig_ind pub sig pkb full h ht : parseTaprootSigAndPubKey pkb full = Ok (pub, sig, ht) → indep (verifySig pick pub sig pkb full h).
Proof.
  intros Hp.
  assert (Hspec : ∀ vm, cacheOK (e_sigCache vm) → (verifySig pick pub sig pkb full h vm).1 = Ok (Verify sig h pub)
    ∧ ∃ c, (verifySig pick pub sig pkb full h vm).2 = withSigCache c vm ∧ cacheOK c).
  { intros vm Hv. assert (Hself : withSigCache (e_sigCache vm) vm = vm) by (by destruct vm). unfold verifySig.
    destruct (e_sigCache vm) as [c|] eqn:Ec; [|split; [done|]; by exists None].
    destruct (Exists c h full pkb) eqn:Ex.
    - destruct (Exists_holds _ _ _ _ _ Hv Ex) as (p & s & t & Hp' & Hver). rewrite Hp in Hp'. injection Hp' as <- <- <-. rewrite Hver.
      split; [done|]. exists (Some c). by rewrite Hself.
    - destruct (Verify sig h pub) eqn:Hver; [|split; [done|]; exists (Some c); by rewrite Hself].
      split; [done|]. eexists. split; [done|]. apply AddSig_holds; [done|]. by exists pub, sig, ht. }
  intros vm c Hv Hc. destruct (Hspec vm Hv) as (E1 & c1 & E2 & O1). destruct (Hspec (withSigCache c vm) Hc) as (F1 & c2 & F2 & O2).
  rewrite E1, F1, E2, F2. split; [done|]. split; [done|]. by exists c2.
Qed.
Lemma sigHashOr_ind r k : (∀ h, indep (k h)) → indep (sigHashOr r k).
Proof. intros Hk. unfold sigHashOr. destruct r as [h|[]]; ind. Qed.
Lemma indep_parse {B} pkb full (k : PubKey * Sig * Z → vM B) :
  (∀ x, parseTaprootSigAndPubKey pkb full = Ok x → indep (k x)) → indep (sbind (sres (parseTaprootSigAndPubKey pkb full)) k).
Proof. intros Hk vm c Hv Hc. unfold sbind, sres. destruct (parseTaprootSigAndPubKey pkb full) as [x|e] eqn:E; [by apply Hk|]. split; [done|]. split; [done|]. by exists c. Qed.
Lemma verifyTapscriptSig_ind pk sig : indep (verifyTapscriptSig sha256 pick pk sig).
Proof.
  unfold verifyTapscriptSig. do 2 (ind1; [ind1|]). apply indep_parse. intros [[pub s] ht] Hp. ind1; [by ind1|].
  apply sigHashOr_ind. intros h. by eapply verifySig_ind.
Qed.
Hint Resolve verifyTapscriptSig_ind : cache.
Lemma popChunks_ind n l : indep (popChunks n l).
Proof. revert l. induction n as [|n IH]; intros l; cbn [popChunks]; ind. Qed.
Lemma peekLockTime_ind : indep peekLockTime.
Proof. unfold peekLockTime. ind1; [ind1|]. by apply indep_pure. Qed.
Hint Resolve popChunks_ind peekLockTime_ind : cache.
Lemma codeSeparator_ind op data : indep (opcodeCodeSeparator op data).
Proof. unfold opcodeCodeSeparator. ind1; apply indep_mod; intros; cbn; by repeat case_match. Qed.
Lemma pushCond_ind b : indep (pushCond b).
Proof. unfold pushCond, popIfBool. ind. by apply indep_mod. Qed.

Definition indepH (h : handler) : Prop := ∀ op data, indep (h op data).
Lemma table_ind : Forall (λ e, indepH e.2) (opcodeArray sha256 sha1 ripemd160 xmssVerify pick).
Proof.
  unfold opcodeArray. repeat (apply Forall_cons; split); [..|by apply Forall_nil]; cbn [snd]; intros op data.
  all: try first [apply indep_fail | apply pushCond_ind | apply indep_onD | apply indep_onA].
  all: try solve [apply codeSeparator_ind | unfold opcodeElse, opcodeEndif; pure].
  all: unfold opcodeNumEqualVerify, opcodeEqualVerify, opcodeCheckSigVerify, opcodeCheckMultiSigVerify, opcodeNop, opcodeVerify, opcodeFromAltStack, opcodeToAltStack, opcodeIfDup, opcodePick, opcodeRoll, opcodeDepth,
        opcode1Add, opcode1Sub, opcodeNegate, opcodeAbs, opcodeNot, opcode0NotEqual, opcodeAdd, opcodeSub, opcodeBoolAnd, opcodeBoolOr,
        opcodeNumNotEqual, opcodeLessThan, opcodeGreaterThan, opcodeLessThanOrEqual, opcodeGreaterThanOrEqual, opcodeMin, opcodeMax,
        opcodeWithin, opcodeNumEqual, opcodeEqual, opcodeSize, opcodeCat, binop, pushFlag,
        opcodeRipemd160, opcodeSha1, opcodeSha256, opcodeHash160, opcodeHash256, hashTop, opcodeCheckSig,
        opcodeCheckXmssSig, opcodeCheckSigAdd, opcodeCheckMultiSig, opcodeCheckLockTimeVerify,
        opcodeCheckSequenceVerify, chargeSig, tallysigOp, verifyLockTimeM; ind.
Qed.
Lemma opfunc_ind op data : indep (opfunc sha256 sha1 ripemd160 xmssVerify pick op op data).
Proof.
  unfold opfunc. destruct (op =? OP_0); [apply indep_onD|]. destruct (op <=? OP_PUSHDATA4); [apply indep_onD|].
  destruct (_ && _); [apply indep_onD|]. destruct (list_find _ _) as [[i [op' h]]|] eqn:E; [|apply indep_fail].
  apply list_find_Some in E as (E & _). apply (proj1 (Forall_lookup _ _) table_ind i (op', h) E).
Qed.
Hint Resolve opfunc_ind : cache.
Lemma countOp_ind op data : indep (countOp op data).
Proof. unfold countOp. pure. Qed.
Hint Resolve countOp_ind : cache.
Lemma executeOpcode_ind op data : indep (executeOpcode sha256 sha1 ripemd160 xmssVerify pick op data).
Proof. unfold executeOpcode. ind. Qed.

(** ** Witness programs *)
Lemma keySpend_ind program rawSig : indep (VerifyTaprootKeySpend sha256 pick program rawSig).
Proof.
  assert (Hi : ∀ an, indep (vm! (pubKey, sig, hashType) := sres (parseTaprootSigAndPubKey program rawSig) in
    vm! sigHash := sget (λ vm, calcTaprootSignatureHashRaw sha256 (ei_hashCache (e_in vm)) hashType (ei_tx (e_in vm)) (ei_txIdx (e_in vm))
                                    (ei_prevOutFetcher (e_in vm)) (match an with Some a => [WithAnnex sha256 a] | None => [] end)) in
    vm! sigValid := sigHashOr sigHash (verifySig pick pubKey sig program rawSig) in
    if sigValid : bool then sret tt else fail ErrTaprootSigInvalid)).
  { intros an. apply indep_parse. intros [[pub s] ht] Hp. ind1; [by ind1|]. ind1; [|ind]. apply sigHashOr_ind. intros h. by eapply verifySig_ind. }
  intros vm c Hv Hc. unfold VerifyTaprootKeySpend. cbn [e_in withSigCache]. destruct (at_ _ _) as [txIn|]; [by apply Hi|].
  split; [done|]. split; [done|]. by exists c.
Qed.
Lemma setup_ind st sz an script v : indep (setupScriptPathSpend sha256 st sz an script v).
Proof.
  unfold setupScriptPathSpend. ind; try by apply indep_mod. unfold enforceTapscriptStackLimits. pure.
Qed.
Hint Resolve keySpend_ind setup_ind : cache.
Lemma verifyWitnessProgram_ind version program w : indep (verifyWitnessProgram sha256 pick version program w).
Proof. unfold verifyWitnessProgram, verifyTaprootSpend, verifyMerkleRootSpend, verifyTaprootKeyPath. ind. Qed.
Hint Resolve verifyWitnessProgram_ind : cache.

(** ** Steps and runs *)
Lemma stepOpcode_ind : indep (stepOpcode sha256 sha1 ripemd160 xmssVerify pick).
Proof.
  intros vm c Hv Hc. unfold stepOpcode. cbn [scripts scriptIdx tokenizer withSigCache].
  destruct (_ <=? _)%nat; [split; [done|]; split; [done|]; by exists c|]. destruct (Next (tokenizer vm)) as [ok t].
  destruct ok; cbn [negb]; [|split; [done|]; split; [done|]; by exists c].
  refine (indep_bind (executeOpcode sha256 sha1 ripemd160 xmssVerify pick (t_op t) (t_data t)) _ (executeOpcode_ind _ _) _ (withTokenizer t vm) c Hv Hc).
  intros []. pure.
Qed.
Lemma endOfScript_ind : indep (endOfScript sha256 pick).
Proof.
  unfold endOfScript. ind; try (apply indep_mod; intros; cbn; by repeat case_match). pure.
Qed.
Hint Resolve stepOpcode_ind endOfScript_ind : cache.
Lemma Step_ind : indep (Step sha256 sha1 ripemd160 xmssVerify pick).
Proof. unfold Step. ind. Qed.
Lemma executeLoop_ind n : indep (executeLoop sha256 sha1 ripemd160 xmssVerify pick n).
Proof. induction n as [|n IH]; cbn [executeLoop]; [ind|]. apply indep_bind; [apply Step_ind|]. intros []; [ind1|exact IH]. Qed.
Lemma CheckErrorCondition_ind b : indep (CheckErrorCondition b).
Proof.
  intros vm c Hv Hc. unfold CheckErrorCondition. cbn [scripts scriptIdx tapscriptCtx dstack withSigCache].
  do 3 (destruct (_ : bool); [split; [done|]; split; [done|]; by exists c|]). revert vm c Hv Hc. change (indep (vm! v := onD PopBool in if v : bool then sret tt else fail ErrEvalFalse)). ind.
Qed.
Lemma Execute_ind : indep (Execute sha256 sha1 ripemd160 xmssVerify pick).
Proof.
  intros vm c. unfold Execute. change (executeFuel (withSigCache c vm)) with (executeFuel vm).
  apply indep_bind; [apply executeLoop_ind|]. intros _. apply CheckErrorCondition_ind.
Qed.
(** The cache passes through [NewEngine]. *)
Lemma NewEngine_cache pkScript tx txIdx c1 c2 hashCache amount fetch :
  NewEngine pkScript tx txIdx c2 hashCache amount fetch
  = match NewEngine pkScript tx txIdx c1 hashCache amount fetch with Ok vm => Ok (withSigCache c2 vm) | Err e => Err e end.
Proof. unfold NewEngine, res_bind. by repeat (case_match; simplify_eq/=; try done). Qed.
Lemma NewEngine_sigCache pkScript tx txIdx c hashCache amount fetch vm :
  NewEngine pkScript tx txIdx c hashCache amount fetch = Ok vm → e_sigCache vm = c.
Proof. unfold NewEngine, res_bind. intros E. by repeat (case_match; simplify_eq/=; try done). Qed.
Lemma runInput_ind pkScript tx txIdx c1 c2 hashCache amount fetch : cacheOK c1 → cacheOK c2 →
  (runInput sha256 sha1 ripemd160 xmssVerify pick pkScript tx txIdx c1 hashCache amount fetch).1
  = (runInput sha256 sha1 ripemd160 xmssVerify pick pkScript tx txIdx c2 hashCache amount fetch).1
  ∧ cacheOK (runInput sha256 sha1 ripemd160 xmssVerify pick pkScript tx txIdx c1 hashCache amount fetch).2.
Proof.
  intros Hc1 Hc2. unfold runInput. rewrite (NewEngine_cache pkScript tx txIdx c1 c2).
  destruct (NewEngine pkScript tx txIdx c1 _ _ _) as [vm|e] eqn:E; [|done]. apply NewEngine_sigCache in E as Hv.
  destruct (Execute_ind vm c2) as (R1 & R2 & c' & R3 & R4); [by rewrite Hv|done|].
  destruct (Execute _ _ _ _ _ (withSigCache c2 vm)), (Execute _ _ _ _ _ vm). cbn in *. by subst.
Qed.

(** C13. The signature cache is transparent: with any two caches that hold only
    signatures that verify, in particular with none, the scripts of an input get
    the same verdict, and the run leaves in the cache only signatures that
    verify. *)
Theorem sigcache_transparent (pkScript : bytes) (tx : MsgTx) (txIdx : Z) (c1 c2 : option SigCache) (hashCache : option TxSigHashes)
    (amount : Z) (fetch : PrevOutputFetcher) (H1 : cacheOK c1) (H2 : cacheOK c2) :
  (runInput sha256 sha1 ripemd160 xmssVerify pick pkScript tx txIdx c1 hashCache amount fetch).1
  = (runInput sha256 sha1 ripemd160 xmssVerify pick pkScript tx txIdx c2 hashCache amount fetch).1
  ∧ cacheOK (runInput sha256 sha1 ripemd160 xmssVerify pick pkScript tx txIdx c1 hashCache amount fetch).2.
Proof. by apply runInput_ind. Qed.
End cache.

(** A key path spend, whose signature the engine puts in the cache. *)
Module CacheDemo.
Definition key : bytes := replicate 32 x11.
Definition pkScript : bytes := [x51; x20] ++ key.
Definition fetch : PrevOutputFetcher := λ _, Some (mkTxOut 5 pkScript).
Definition unsigned : MsgTx := mkMsgTx 2 [mkTxIn (mkOutPoint (replicate 32 x01) 0) [] [] 5] [mkTxOut 4 [x51]] 0.
Definition sigHash : bytes :=
  match calcTaprootSignatureHashRaw TapDemo.mix (NewTxSigHashes TapDemo.mix unsigned fetch) SigHashDefault unsigned 0 fetch [] with
  | Ok h => h | Err _ => [] end.
Definition sig : bytes := key ++ sigHash.
Definition tx : MsgTx := mkMsgTx 2 [mkTxIn (mkOutPoint (replicate 32 x01) 0) [] [sig] 5] [mkTxOut 4 [x51]] 0.
Definition run (c : option SigCache) : res everr unit * option SigCache :=
  runInput (H0 := EngineDemo.toyTweak) TapDemo.mix EngineDemo.h20 EngineDemo.h20 EngineDemo.noXmss EngineDemo.noPick
    pkScript tx 0 c (NewTxSigHashes TapDemo.mix tx fetch) 5 fetch.
End CacheDemo.

Lemma sigcache_transparent_witness :
  (CacheDemo.run EngineDemo.cache).1 = Ok tt
  ∧ (∃ c, (CacheDemo.run EngineDemo.cache).2 = Some c ∧ size (validSigs c) = 1%nat)
  ∧ (CacheDemo.run EngineDemo.cache).1 = (CacheDemo.run None).1
  ∧ cacheOK (H := Toy.toySchnorr) (CacheDemo.run EngineDemo.cache).2.
Proof.
  split; [vm_compute; reflexivity|]. split; [eexists; split; vm_compute; reflexivity|].
  unfold CacheDemo.run.
  refine (sigcache_transparent (H0 := EngineDemo.toyTweak) TapDemo.mix EngineDemo.h20 EngineDemo.h20 EngineDemo.noXmss EngineDemo.noPick
    CacheDemo.pkScript CacheDemo.tx 0 EngineDemo.cache None (NewTxSigHashes TapDemo.mix CacheDemo.tx CacheDemo.fetch) 5 CacheDemo.fetch _ I).
  intros h e He. discriminate He.
Defined.
