(* ===== verification/ScriptPool.v ===== *)
(** * Validating a block's scripts with the engine and a shared signature cache

    The validators of src/node/blockchain/scriptval.go with the script engine in
    place of a parameter.  All goroutines, those of other validators too, share
    one signature cache, so that the verdict on an input could depend on the
    schedule; it does not. *)
From Stdlib Require Import ZArith Lia Strings.Byte.
From stdpp Require Import base list gmap relations.
From S2P Require Import Prelude RuleErrors WireTx Merkle Script ScriptStack SigHash Utxo Covenant TxRules ScriptVal Taproot Opcodes Engine EngineInv EngineRun EngineCache.
Open Scope Z_scope.
Open Scope list_scope.

Section pool.
Context (sha256 sha1 ripemd160 : bytes → bytes) `{TapTweak} (xmssVerify : bytes → bytes → bytes → bool)
  (pick : gmap bytes sigCacheEntry → option bytes).

(** [cachedHashes]: the midstates, for a transaction with a witness. *)
Definition cachedHashes (tx : MsgTx) (utxoView : UtxoViewpoint) : option TxSigHashes :=
  if HasWitness tx then NewTxSigHashes sha256 tx (FetchPrevOutput utxoView) else None.

(** [NewEngine] and [Execute] on one input, and the cache afterwards. *)
Definition scriptEngine (sigCache : option SigCache) (pkScript : bytes) (tx : MsgTx) (txInIndex : nat) (inputAmount : Z)
    (utxoView : UtxoViewpoint) : engineResult * option SigCache :=
  match NewEngine pkScript tx (Z.of_nat txInIndex) sigCache (cachedHashes tx utxoView) inputAmount (FetchPrevOutput utxoView) with
  | Err _ => (EngineParseError, sigCache)
  | Ok vm => match Execute sha256 sha1 ripemd160 xmssVerify pick vm with
             | (Ok _, vm') => (EngineOk, e_sigCache vm')
             | (Err _, vm') => (EngineExecError, e_sigCache vm')
             end
  end.

(** The handler's work on one item, on the shared cache. *)
Definition validateWith (utxoView : UtxoViewpoint) (sigCache : option SigCache) (txVI : txValidateItem) : option verr :=
  validateItem (λ pk tx i a v, (scriptEngine sigCache pk tx i a v).1) utxoView txVI.
Definition cacheAfter (utxoView : UtxoViewpoint) (sigCache : option SigCache) (txVI : txValidateItem) : option SigCache :=
  match LookupEntry utxoView (ti_PreviousOutPoint (vi_txIn txVI)) with
  | None => sigCache
  | Some utxo => (scriptEngine sigCache (ue_pkScript utxo) (vi_tx txVI) (vi_txInIndex txVI) (ue_amount utxo) utxoView).2
  end.

(** ** The pool on a shared cache *)
Section shared.
Context (utxoView : UtxoViewpoint) (items : list txValidateItem).
Abbreviation pstate := (Pool.state (Item := txValidateItem)).

(** A handler's computation reads and extends the cache; the other steps of the
    pool leave it alone; other validators may change it at any time, as long as
    they too add only signatures that verify. *)
Inductive cstep : pstate * option SigCache → pstate * option SigCache → Prop :=
| cstep_compute s c i it :
    Pool.workers s !! i = Some (Pool.Busy it) →
    cstep (s, c) (Pool.set s i (Pool.Sending (validateWith utxoView c it)), cacheAfter utxoView c it)
| cstep_pool s s' c :
    Pool.step (validateWith utxoView c) items s s' →
    (∀ i it, Pool.workers s !! i = Some (Pool.Busy it) → Pool.workers s' !! i = Some (Pool.Busy it)) →
    cstep (s, c) (s', c)
| cstep_env s c c' : cacheOK c' → cstep (s, c) (s, c').

Lemma scriptEngine_ind c1 c2 pk tx i a : cacheOK c1 → cacheOK c2 →
  (scriptEngine c1 pk tx i a utxoView).1 = (scriptEngine c2 pk tx i a utxoView).1 ∧ cacheOK (scriptEngine c1 pk tx i a utxoView).2.
Proof.
  intros H1 H2. unfold scriptEngine. rewrite (NewEngine_cache pk tx _ c1 c2).
  destruct (NewEngine pk tx (Z.of_nat i) c1 _ _ _) as [vm|e] eqn:E; [|done]. apply NewEngine_sigCache in E as Hv.
  destruct (Execute_ind sha256 sha1 ripemd160 xmssVerify pick vm c2) as (R1 & R2 & c' & R3 & R4); [by rewrite Hv|done|].
  destruct (Execute _ _ _ _ _ (withSigCache c2 vm)) as [r2 vm2], (Execute _ _ _ _ _ vm) as [r1 vm1]. cbn in *. subst. by destruct r1.
Qed.
Lemma validateWith_ind c it : cacheOK c → validateWith utxoView c it = validateWith utxoView None it ∧ cacheOK (cacheAfter utxoView c it).
Proof.
  intros Hc. unfold validateWith, validateItem, cacheAfter. destruct (LookupEntry _ _) as [u|]; [|done].
  destruct (scriptEngine_ind c None (ue_pkScript u) (vi_tx it) (vi_txInIndex it) (ue_amount u) Hc I) as [E O]. by rewrite E.
Qed.

(** A run on the shared cache is a run of the pool whose check uses no cache. *)
Lemma cstep_refines n c0 : cacheOK c0 → ∀ x, rtc cstep (Pool.init items n, c0) x →
  rtc (Pool.step (validateWith utxoView None) items) (Pool.init items n) x.1 ∧ cacheOK x.2.
Proof.
  intros Hc0 x Hx. eapply (rtc_ind_r (λ x, rtc (Pool.step (validateWith utxoView None) items) (Pool.init items n) x.1 ∧ cacheOK x.2)); [|..|exact Hx].
  { split; [apply rtc_refl|done]. }
  clear x Hx. intros x y _ Hxy [Hr Hc]. destruct Hxy as [s c i it Hw|s s' c Hs Hkeep|s c c' Hc']; cbn [fst snd] in *.
  - destruct (validateWith_ind c it Hc) as [-> O]. split; [|done]. eapply rtc_r; [exact Hr|]. by apply Pool.step_compute.
  - split; [|done]. eapply rtc_r; [exact Hr|]. destruct Hs as [s i it|s i it Hw|s i|s i e|s i|s i r].
    + by apply Pool.step_dispatch.
    + exfalso. specialize (Hkeep i it Hw). cbn in Hkeep. rewrite list_lookup_insert_eq in Hkeep by (by eapply lookup_lt_Some). done.
    + by apply Pool.step_nil.
    + by apply Pool.step_error.
    + by apply Pool.step_quit_idle.
    + by apply Pool.step_quit_send.
  - by split.
Qed.
End shared.

End pool.

(** One input, one handler, the cache of [EngineDemo]. *)
Module PoolDemo.
Definition view : UtxoViewpoint :=
  mkView {[ mkOutPoint (replicate 32 x01) 0 := Some (mkUtxoEntry 5 CacheDemo.pkScript 0 0) ]} zeroHash.
Definition items : list txValidateItem := blockItems view [CacheDemo.tx].
Definition item : txValidateItem := mkItem CacheDemo.tx 0 (mkTxIn (mkOutPoint (replicate 32 x01) 0) [] [CacheDemo.sig] 5).
Definition engine (c : option SigCache) pk tx i a v : engineResult * option SigCache :=
  scriptEngine (H0 := EngineDemo.toyTweak) TapDemo.mix EngineDemo.h20 EngineDemo.h20 EngineDemo.noXmss EngineDemo.noPick c pk tx i a v.
Definition cstep := cstep (H0 := EngineDemo.toyTweak) TapDemo.mix EngineDemo.h20 EngineDemo.h20 EngineDemo.noXmss EngineDemo.noPick view items.
Definition start : Pool.state := Pool.init items (Pool.maxGoRoutines items 1).
Lemma items_eq : items = [item].
Proof. vm_compute. reflexivity. Qed.
(** The handler takes the input, checks it and reports. *)
Lemma run : ∃ s c, rtc cstep (start, EngineDemo.cache) (s, c) ∧ Pool.returned s = Some None.
Proof.
  assert (Hs : start = Pool.mkState 0 0 [Pool.Idle] None) by (unfold start; rewrite items_eq; vm_compute; reflexivity).
  rewrite Hs. eexists _, _. split.
  - eapply rtc_l; [apply cstep_pool; [by apply (Pool.step_dispatch _ _ _ 0 item); rewrite ?items_eq|intros [|i] it; by intros]|].
    eapply rtc_l; [by apply (cstep_compute _ _ _ _ _ _ _ _ _ 0 item)|].
    eapply rtc_l; [apply cstep_pool; [apply (Pool.step_nil _ _ _ 0); [done|vm_compute; reflexivity]|intros [|i] it; by intros]|].
    apply rtc_refl.
  - unfold Pool.onNil. cbn [Pool.returned Pool.processedItems Pool.set]. by rewrite items_eq.
Qed.
End PoolDemo.

