(* ===== verification/EngineSpend.v ===== *)
(** * What it takes to spend a witness output

    The engine on an output [OP_1 <key>] or [OP_2 <root>]: the program is pushed
    and read, and everything depends on the witness.  The theorems say exactly
    which witnesses are accepted. *)
From Stdlib Require Import ZArith Lia Strings.Byte.
From stdpp Require Import base list gmap.
From S2P Require Import Prelude WireTx Merkle Script ScriptStack SigHash Utxo Covenant TxRules Taproot Opcodes Engine EngineInv EngineRun EngineCache.
Open Scope Z_scope.
Open Scope list_scope.

(** The output scripts. *)
Definition programScript (version : Z) (program : bytes) : bytes := z2b (OP_1 - 1 + version) :: x20 :: program.

Ltac bytes32 p Hp :=
  do 32 (destruct p as [|? p]; [discriminate Hp|]); destruct p; [clear Hp|discriminate Hp].

(** Equations of computations. *)
Lemma bind_get {S A B} (f : S → A) (k : A → sM S B) s : sbind (sget f) k s = k (f s) s.
Proof. done. Qed.
Lemma bind_mod {S B} (f : S → S) (k : unit → sM S B) s : sbind (smod f) k s = k tt (f s).
Proof. done. Qed.
Lemma bind_ok {S A B} (m : sM S A) (k : A → sM S B) s a s' : m s = (Ok a, s') → sbind m k s = k a s'.
Proof. unfold sbind. by intros ->. Qed.
Lemma bind_err {S A B} (m : sM S A) (k : A → sM S B) s e s' : m s = (Err e, s') → sbind m k s = (Err e, s').
Proof. unfold sbind. by intros ->. Qed.
Lemma bind_assoc {S A B C} (m : sM S A) (k : A → sM S B) (h : B → sM S C) s : sbind (sbind m k) h s = sbind m (λ a, sbind (k a) h) s.
Proof. unfold sbind. by destruct (m s) as [[a|e] s']. Qed.
Lemma bind_cong {S A B} (m m' : sM S A) (k : A → sM S B) s s' : m s = m' s' → sbind m k s = sbind m' k s'.
Proof. unfold sbind. by intros ->. Qed.

Section spend.
Context (sha256 sha1 ripemd160 : bytes → bytes) `{TapTweak} (xmssVerify : bytes → bytes → bytes → bool)
  (pick : gmap bytes sigCacheEntry → option bytes).
Abbreviation stepOpcode := (stepOpcode sha256 sha1 ripemd160 xmssVerify pick).
Abbreviation executeLoop := (executeLoop sha256 sha1 ripemd160 xmssVerify pick).

(** The engine on a witness output: as built, and when its script ends. *)
Definition programVM (i : engineInput) (c : option SigCache) (pk : bytes) : Engine :=
  mkEngine i c [[]; pk] 1 0 0 (MakeScriptTokenizer 0 pk) (mkStack [] true) (mkStack [] true) [] 0 None.

(** After the two pushes. *)
Definition programDone (version : Z) (program : bytes) (i : engineInput) (c : option SigCache) (t : ScriptTokenizer) : Engine :=
  mkEngine i c [[]; programScript version program] 1 2 0 t (mkStack [[z2b version]; program] true) (mkStack [] true) [] 0 None.

(** And once its state is reset for the next script. *)
Definition programEnd (version : Z) (program : bytes) (i : engineInput) (c : option SigCache) (t : ScriptTokenizer) : Engine :=
  mkEngine i c [[]; programScript version program] 2 0 0 t (mkStack [[z2b version]; program] true) (mkStack [] true) [] 0 None.

Section program.
Context (version : Z) (program : bytes).
Hypothesis Hversion : version = 1 ∨ version = 2.
Hypothesis Hprogram : length program = 32%nat.
Abbreviation pk := (programScript version program).

Lemma NewEngine_program tx txIdx c hashCache amount fetch vm :
  NewEngine pk tx txIdx c hashCache amount fetch = Ok vm ↔
  ∃ txIn, at_ (tx_TxIn tx) txIdx = Some txIn ∧ ti_SignatureScript txIn = []
    ∧ vm = programVM (mkInput tx txIdx hashCache fetch version (Some program) amount) c pk.
Proof.
  assert (Hinfo : extractWitnessProgramInfo pk = Some (version, program) ∧ checkScript pk = Ok tt ∧ zlen pk =? 0 = false).
  { generalize Hprogram; generalize program; intros p Hp. bytes32 p Hp. by destruct Hversion as [-> | ->]. }
  destruct Hinfo as (Hi & Hc & Hz). unfold NewEngine. rewrite Hi, Hc, Hz. split.
  - destruct (_ || _); [done|]. destruct (at_ _ _) as [txIn|]; [|done]. rewrite andb_false_r. destruct (negb (IsPushOnlyScript _)); [done|].
    destruct (checkScript (ti_SignatureScript txIn)); [|done]. cbn [res_bind]. destruct (Z.eqb_spec (zlen (ti_SignatureScript txIn)) 0) as [E|]; cbn [negb res_bind]; [|done].
    cbn. intros [= <-]. exists txIn. split; [done|]. assert (ti_SignatureScript txIn = []) as -> by (destruct (ti_SignatureScript txIn); [done|unfold zlen in E; cbn in E; lia]).
    done.
  - intros (txIn & Ht & Hs & ->). rewrite Ht, Hs. assert (Hb : (txIdx <? 0) || (zlen (tx_TxIn tx) <=? txIdx) = false).
    { unfold at_ in Ht. destruct (txIdx <? 0) eqn:E; [done|]. apply Z.ltb_ge in E. apply lookup_lt_Some in Ht. apply Z.leb_gt. unfold zlen. lia. }
    by rewrite Hb.
Qed.

Lemma program_steps i c : ∃ vm1 t, stepOpcode (programVM i c pk) = (Ok tt, vm1) ∧ Done (tokenizer vm1) = false
  ∧ stepOpcode vm1 = (Ok tt, programDone version program i c t) ∧ Done t = true.
Proof.
  generalize Hprogram; generalize program; intros p Hp. bytes32 p Hp. destruct Hversion as [-> | ->]; eexists _, _; (split; [vm_compute; reflexivity|]); (split; [vm_compute; reflexivity|]);
    (split; [vm_compute; reflexivity|]); vm_compute; reflexivity.
Qed.

(** At the end of the output script the witness is looked at. *)
Definition openScript : vM bool :=
  vm! _ := smod (λ vm, if bool_decide (scripts vm !! scriptIdx vm = Some []) then withScripts (scripts vm) (S (scriptIdx vm)) vm else vm) in
  λ vm, match scripts vm !! scriptIdx vm with
        | None => (Ok true, vm)
        | Some s => (Ok false, withTokenizer (MakeScriptTokenizer 0 s) vm)
        end.
Lemma endOfScript_program i c t txIn : ei_witnessVersion i = version → ei_witnessProgram i = Some program →
  at_ (tx_TxIn (ei_tx i)) (ei_txIdx i) = Some txIn →
  endOfScript sha256 pick (programDone version program i c t)
  = (vm! _ := verifyWitnessProgram sha256 pick version program (ti_Witness txIn) in openScript) (programEnd version program i c t).
Proof.
  intros Hv Hp Ht. unfold endOfScript. rewrite bind_get. cbn [condStack programDone length negb Nat.eqb]. rewrite bind_mod, bind_mod, bind_get.
  cbn [programDone astack dstack scripts scriptIdx withScripts Nat.eqb e_in withLastCodeSep withOpcodeIdx withNumOps withAstack
    e_sigCache tokenizer condStack tapscriptCtx opcodeIdx lastCodeSep numOps].
  change (DropN (Depth (mkStack [] true)) (mkStack [] true)).2 with (mkStack [] true). rewrite Hp.
  apply bind_cong. rewrite (bind_ok thisInput _ _ txIn (programEnd version program i c t)) by (unfold thisInput; cbn; by rewrite Ht).
  rewrite bind_get. cbn [e_in programEnd]. by rewrite Hv.
Qed.

(** The whole run up to there. *)
Lemma executeLoop_program n i c txIn : ei_witnessVersion i = version → ei_witnessProgram i = Some program →
  at_ (tx_TxIn (ei_tx i)) (ei_txIdx i) = Some txIn → ∃ t,
  executeLoop (S (S n)) (programVM i c pk)
  = (vm! d := (vm! _ := verifyWitnessProgram sha256 pick version program (ti_Witness txIn) in openScript) in
     if d : bool then sret tt else executeLoop n) (programEnd version program i c t)
  ∧ ∀ vm', (vm! _ := verifyWitnessProgram sha256 pick version program (ti_Witness txIn) in openScript) (programEnd version program i c t) = (Ok false, vm') →
     reach (Step sha256 sha1 ripemd160 xmssVerify pick) (programVM i c pk) false vm'.
Proof.
  intros Hv Hp Ht. destruct (program_steps i c) as (vm1 & t & E1 & D1 & E2 & D2). exists t. split.
  2: { intros vm' Hr. eapply reach_step; [eapply reach_step; [apply reach_start|]|].
       - unfold Step. rewrite (bind_ok _ _ _ _ _ E1), bind_get, D1. reflexivity.
       - unfold Step. rewrite (bind_ok _ _ _ _ _ E2), bind_get. cbn [tokenizer programDone]. rewrite D2. cbn [negb].
         by rewrite (endOfScript_program i c t txIn Hv Hp Ht). }
  cbn [Engine.executeLoop]. unfold Step at 1. rewrite bind_assoc, (bind_ok _ _ _ _ _ E1), bind_assoc, bind_get, D1. cbn [negb].
  rewrite (bind_ok (sret false) _ vm1 false vm1 eq_refl). unfold Step at 1. rewrite bind_assoc, (bind_ok _ _ _ _ _ E2), bind_assoc, bind_get.
  cbn [tokenizer programDone]. rewrite D2. cbn [negb]. apply bind_cong. apply (endOfScript_program i c t txIn Hv Hp Ht).
Qed.
End program.

(** ** The key path *)
(** What a valid key path witness is. *)
Definition validKeySig (key sig : bytes) (annex : option bytes) (i : engineInput) : Prop :=
  ∃ pub s ht h, parseTaprootSigAndPubKey key sig = Ok (pub, s, ht)
    ∧ calcTaprootSignatureHashRaw sha256 (ei_hashCache i) ht (ei_tx i) (ei_txIdx i) (ei_prevOutFetcher i)
        (match annex with Some a => [WithAnnex sha256 a] | None => [] end) = Ok h
    ∧ Verify s h pub = true.

Lemma verifySig_ok pub sig pkb full h ht vm : parseTaprootSigAndPubKey pkb full = Ok (pub, sig, ht) → cacheOK (e_sigCache vm) →
  ∃ c, verifySig pick pub sig pkb full h vm = (Ok (Verify sig h pub), withSigCache c vm).
Proof.
  intros Hp Hc. destruct (verifySig_ind pick pub sig pkb full h ht Hp vm None Hc I) as (E & _ & _).
  pose proof (verifySig_sound pick pub sig pkb full h vm) as Hs. unfold sound in Hs.
  destruct (verifySig pick pub sig pkb full h vm) as [r vm'] eqn:Ev. cbn in E. subst r. destruct Hs as [c ->]. by exists c.
Qed.

Lemma keySpend_iff key sig annex vm txIn : at_ (tx_TxIn (ei_tx (e_in vm))) (ei_txIdx (e_in vm)) = Some txIn →
  (stripWitnessAnnex (ti_Witness txIn)).2 = annex → cacheOK (e_sigCache vm) →
  (validKeySig key sig annex (e_in vm) ∧ ∃ c, VerifyTaprootKeySpend sha256 pick key sig vm = (Ok tt, withSigCache c vm))
  ∨ (~ validKeySig key sig annex (e_in vm) ∧ ∃ e vm', VerifyTaprootKeySpend sha256 pick key sig vm = (Err e, vm')).
Proof.
  intros Ht Ha Hc. unfold VerifyTaprootKeySpend. rewrite Ht, Ha.
  destruct (parseTaprootSigAndPubKey key sig) as [[[pub s] ht]|e] eqn:Ep.
  2: { right. split; [|by eexists _, _]. intros (? & ? & ? & ? & Hp & _). congruence. }
  rewrite (bind_ok _ _ _ (pub, s, ht) vm) by (by rewrite <- Ep). rewrite bind_get.
  destruct (calcTaprootSignatureHashRaw _ _ _ _ _ _ _) as [h|e] eqn:Eh; cbn [sigHashOr].
  2: { right. split; [intros (? & ? & ? & ? & Hp & Hh & _); rewrite Ep in Hp; injection Hp as <- <- <-; congruence|]. destruct e; by eexists _, _. }
  destruct (verifySig_ok pub s key sig h ht vm Ep Hc) as [c Ev]. rewrite (bind_ok _ _ _ _ _ Ev). destruct (Verify s h pub) eqn:Evf.
  - left. split; [by exists pub, s, ht, h|]. by exists c.
  - right. split; [|by eexists _, _]. intros (? & ? & ? & ? & Hp & Hh & Hv). rewrite Ep in Hp. injection Hp as <- <- <-. congruence.
Qed.

(** C10. A taproot output with a single witness element (besides an annex) is
    spendable exactly by a signature: the scripts verify if and only if the
    signature script is empty and the element is a valid signature, under the
    output key itself, of the taproot signature hash of this input; no other
    witness of that form passes, provided the signature cache holds only
    signatures that verify. *)
Theorem taproot_key_spend_iff (key : bytes) (tx : MsgTx) (txIdx : Z) (txIn : TxIn) (sig : bytes) (annex : option bytes)
    (c : option SigCache) (hashCache : option TxSigHashes) (amount : Z) (fetch : PrevOutputFetcher)
    (Hkey : length key = 32%nat) (Ht : at_ (tx_TxIn tx) txIdx = Some txIn)
    (Hw : stripWitnessAnnex (ti_Witness txIn) = ([sig], annex)) (Hc : cacheOK c) :
  (runInput sha256 sha1 ripemd160 xmssVerify pick (programScript 1 key) tx txIdx c hashCache amount fetch).1 = Ok tt
  ↔ ti_SignatureScript txIn = []
    ∧ validKeySig key sig annex (mkInput tx txIdx hashCache fetch 1 (Some key) amount).
Proof.
  unfold runInput. destruct (NewEngine _ _ _ _ _ _ _) as [vm|e] eqn:En.
  2: { split; [done|]. intros [Hs _]. pose proof (proj2 (NewEngine_program 1 key (or_introl eq_refl) Hkey tx txIdx c hashCache amount fetch _)
         (ex_intro _ txIn (conj Ht (conj Hs eq_refl)))). congruence. }
  apply NewEngine_program in En as (txIn' & Ht' & Hs & ->); [|by left|done]. assert (txIn' = txIn) by congruence. subst txIn'.
  set (i := mkInput tx txIdx hashCache fetch 1 (Some key) amount). unfold Execute.
  assert (Hf : ∃ n, executeFuel (programVM i c (programScript 1 key)) = S (S n)) by (eexists; reflexivity). destruct Hf as [n ->].
  destruct (executeLoop_program 1 key (or_introl eq_refl) Hkey n i c txIn eq_refl eq_refl Ht) as (t & Hl & _).
  assert (Hne : zlen (ti_Witness txIn) =? 0 = false).
  { apply Z.eqb_neq. intros E. destruct (ti_Witness txIn); [done|unfold zlen in E; cbn in E; lia]. }
  assert (Hv : verifyWitnessProgram sha256 pick 1 key (ti_Witness txIn) = verifyTaprootKeyPath sha256 pick key sig).
  { unfold verifyWitnessProgram, verifyTaprootSpend. cbn [Z.eqb Pos.eqb]. rewrite Hne, Hw. unfold zlen. by rewrite Hkey. }
  rewrite Hv in Hl. set (vm2 := programEnd 1 key i c t) in *. unfold verifyTaprootKeyPath in Hl.
  destruct (keySpend_iff key sig annex vm2 txIn Ht) as [[Hok [c' Hr]]|[Hno (e & vm' & Hr)]]; [by rewrite Hw|done|..].
  - assert (Hx : sbind (executeLoop (S (S n))) (λ _, CheckErrorCondition true) (programVM i c (programScript 1 key))
      = (Ok tt, withDstack (mkStack [] true) (withSigCache c' vm2))).
    { erewrite bind_cong by exact Hl. rewrite !bind_assoc. rewrite (bind_ok _ _ _ _ _ Hr). reflexivity. }
    rewrite Hx. cbn [fst]. by split.
  - assert (Hx : sbind (executeLoop (S (S n))) (λ _, CheckErrorCondition true) (programVM i c (programScript 1 key)) = (Err e, vm')).
    { erewrite bind_cong by exact Hl. rewrite !bind_assoc. by apply bind_err. }
    rewrite Hx. cbn [fst]. split; [done|]. by intros [_ Hok].
Qed.

(** ** The script path *)
(** The control block reveals the script under the program. *)
Definition commits (version : Z) (program ctrl script : bytes) : Prop :=
  if version =? 1
  then ∃ cb, ParseControlBlock ctrl = Ok cb ∧ VerifyTaprootLeafCommitment sha256 cb program script = Ok tt ∧ cb_LeafVersion cb = BaseLeafVersion
  else ∃ cb, ParseMerkleRootControlBlock ctrl = Ok cb ∧ VerifyMerkleRootLeafCommitment sha256 cb program script = Ok tt
             ∧ mr_LeafVersion cb = BaseLeafVersion.
(** What the engine asks of the script and of its arguments. *)
Definition startable (st : list bytes) (script : bytes) : Prop :=
  checkScriptParses script = None ∧ zlen st <= MaxStackSize ∧ Forall small st.

(** The engine about to run the revealed script. *)
Definition tapSetup (version : Z) (program : bytes) (i : engineInput) (c : option SigCache) (t : ScriptTokenizer)
    (st : list bytes) (script : bytes) (annex : option bytes) (witnessSize : Z) : Engine :=
  mkEngine i c [[]; programScript version program; script] 2 0 0 t (mkStack st true) (mkStack [] true) [] 0
    (Some (newTapscriptExecutionCtx witnessSize annex (TapLeafHash sha256 (NewBaseTapLeaf script)))).
Definition tapVM (version : Z) (program : bytes) (i : engineInput) (c : option SigCache)
    (st : list bytes) (script : bytes) (annex : option bytes) (witnessSize : Z) : Engine :=
  tapSetup version program i c (MakeScriptTokenizer 0 script) st script annex witnessSize.

(** The script runs to its end and leaves a single true element. *)
Definition tapscriptAccepts (version : Z) (program : bytes) (i : engineInput) (c : option SigCache)
    (st : list bytes) (script : bytes) (annex : option bytes) (witnessSize : Z) : Prop :=
  match script with
  | [] => ∃ e, st = [e] ∧ asBool e = true
  | _ => ∃ n vm' e, executeLoop n (tapVM version program i c st script annex witnessSize) = (Ok tt, vm')
                    ∧ stk (dstack vm') = [e] ∧ asBool e = true
  end.

Lemma lastTwo_split l c s : lastTwo l = Some (c, s) ↔ ∃ st, l = st ++ [s; c].
Proof.
  split.
  - unfold lastTwo, at_. intros E. destruct (zlen l - 1 <? 0) eqn:E1; [done|]. destruct (l !! Z.to_nat (zlen l - 1)) as [c'|] eqn:Ec; [|done]. cbn in E.
    destruct (zlen l - 2 <? 0) eqn:E2; [done|]. destruct (l !! Z.to_nat (zlen l - 2)) as [s'|] eqn:Es; [|done]. cbn in E. injection E as -> ->.
    apply Z.ltb_ge in E2. unfold zlen in *. exists (take (length l - 2) l). rewrite <- (take_drop (length l - 2) l) at 1. f_equal.
    replace (Z.to_nat (Z.of_nat (length l) - 2)) with (length l - 2)%nat in Es by lia.
    replace (Z.to_nat (Z.of_nat (length l) - 1)) with (S (length l - 2)) in Ec by lia.
    rewrite (drop_S _ _ _ Es), (drop_S _ _ _ Ec), drop_ge by lia. done.
  - intros [st ->]. unfold lastTwo, at_, zlen. rewrite length_app. cbn [length].
    rewrite !(proj2 (Z.ltb_ge _ 0)) by lia.
    replace (Z.to_nat (Z.of_nat (length st + 2) - 1)) with (length st + 1)%nat by lia.
    replace (Z.to_nat (Z.of_nat (length st + 2) - 2)) with (length st + 0)%nat by lia. by rewrite (lookup_app_r st _ (length st + 1)), (lookup_app_r st _ (length st + 0)), !Nat.add_sub' by lia.
Qed.

Lemma setup_iff version program i c t st script ctrl annex size leafVersion : zlen (st ++ [script; ctrl]) < 2 ^ 31 →
  (leafVersion = BaseLeafVersion ∧ startable st script
   ∧ setupScriptPathSpend sha256 (st ++ [script; ctrl]) size annex script leafVersion (programEnd version program i c t)
     = (Ok tt, tapSetup version program i c t st script annex size))
  ∨ (~ (leafVersion = BaseLeafVersion ∧ startable st script)
   ∧ ∃ e vm', setupScriptPathSpend sha256 (st ++ [script; ctrl]) size annex script leafVersion (programEnd version program i c t) = (Err e, vm')).
Proof.
  intros Hlen. unfold setupScriptPathSpend, startable.
  destruct (Z.eqb_spec leafVersion BaseLeafVersion) as [->|Hv]; cbn [negb]; [|right; split; [by intros [? _]|by eexists _, _]].
  destruct (checkScriptParses script) as [e|] eqn:Ep; [right; split; [by intros (_ & ? & _)|by eexists _, _]|].
  rewrite bind_mod, bind_mod. rewrite length_app, Nat.add_sub, take_app_length.
  rewrite (bind_ok _ _ _ tt (tapSetup version program i c t st script annex size)) by reflexivity.
  rewrite zlen_app in Hlen. assert (Hst : zlen st < 2 ^ 31) by (pose proof (zlen_nonneg [script; ctrl]); lia).
  unfold enforceTapscriptStackLimits. cbn [dstack tapSetup]. rewrite Depth_fits by done. rewrite getStack_stk by done. cbn [stk].
  destruct (Z.ltb_spec MaxStackSize (zlen st)); [right; split; [intros (_ & _ & ? & _); lia|by eexists _, _]|].
  destruct (existsb _ st) eqn:Ex.
  - right. split; [|by eexists _, _]. intros (_ & _ & _ & Hs). apply existsb_exists in Ex as (e & Hin & He). rewrite <- list_elem_of_In in Hin.
    rewrite Forall_forall in Hs. specialize (Hs e Hin). apply Z.ltb_lt in He. unfold small in Hs. lia.
  - left. split_and!; try done. apply Forall_forall. intros e He. unfold small. apply Z.ltb_ge. destruct (_ <? _) eqn:E'; [|done].
    assert (existsb (λ e, MaxScriptElementSize <? zlen e) st = true); [|congruence]. apply existsb_exists. exists e. by rewrite <- list_elem_of_In.
Qed.

(** The witness is accepted as a script path exactly when its last two elements
    are a script and a control block that commits to it. *)
Definition scriptPath (version : Z) (program : bytes) (stack : list bytes) (st : list bytes) (script ctrl : bytes) : Prop :=
  stack = st ++ [script; ctrl] ∧ commits version program ctrl script ∧ startable st script.

Lemma snoc2_inj (st st' : list bytes) a b a' b' : st ++ [a; b] = st' ++ [a'; b'] → st = st' ∧ a = a' ∧ b = b'.
Proof. intros E. apply app_inj_2 in E as [-> E]; [|done]. by simplify_eq. Qed.

Lemma commit_cases version program i c t st script ctrl annex size m :
  zlen (st ++ [script; ctrl]) < 2 ^ 31 →
  (∀ P : Prop, (∀ v, (commits version program ctrl script ↔ v = BaseLeafVersion) →
     m (programEnd version program i c t) = setupScriptPathSpend sha256 (st ++ [script; ctrl]) size annex script v (programEnd version program i c t) → P) →
   (~ commits version program ctrl script → (∃ e vm', m (programEnd version program i c t) = (Err e, vm')) → P) → P) →
  (scriptPath version program (st ++ [script; ctrl]) st script ctrl
   ∧ m (programEnd version program i c t) = (Ok tt, tapSetup version program i c t st script annex size))
  ∨ (~ (∃ st' script' ctrl', scriptPath version program (st ++ [script; ctrl]) st' script' ctrl')
     ∧ ∃ e vm', m (programEnd version program i c t) = (Err e, vm')).
Proof.
  intros Hlen Hm. apply Hm; clear Hm.
  - intros v Hv Hs. rewrite Hs. destruct (setup_iff version program i c t st script ctrl annex size v Hlen) as [(Hb & Hst & ->)|[Hno He]].
    + left. split; [|done]. split; [done|]. split; [by apply Hv|done].
    + right. split; [|done]. intros (st' & script' & ctrl' & E & Hc & Hst). apply snoc2_inj in E as (-> & -> & ->). apply Hno. split; [by apply Hv|done].
  - intros Hc He. right. split; [|done]. intros (st' & script' & ctrl' & E & Hc' & _). apply snoc2_inj in E as (-> & -> & ->). done.
Qed.

Lemma witnessProgram_cases version program i c t w stack annex : (version = 1 ∧ length stack ≠ 1%nat) ∨ version = 2 → length program = 32%nat →
  stripWitnessAnnex w = (stack, annex) → zlen stack < 2 ^ 31 →
  (∃ st script ctrl, scriptPath version program stack st script ctrl
     ∧ verifyWitnessProgram sha256 pick version program w (programEnd version program i c t)
       = (Ok tt, tapSetup version program i c t st script annex (i32 (TxWitness_SerializeSize w))))
  ∨ (~ (∃ st script ctrl, scriptPath version program stack st script ctrl)
     ∧ ∃ e vm', verifyWitnessProgram sha256 pick version program w (programEnd version program i c t) = (Err e, vm')).
Proof.
  intros Hv Hp Hw Hlen. assert (Hpl : zlen program =? 32 = true) by (unfold zlen; by rewrite Hp).
  destruct (decide (w = [])) as [->|Hne].
  { right. injection Hw as <- <-. split; [by intros ([] & ? & ? & ? & _)|]. unfold verifyWitnessProgram, verifyTaprootSpend, verifyMerkleRootSpend.
    rewrite Hpl. destruct Hv as [[-> _]| ->]; by eexists _, _. }
  assert (Hz : zlen w =? 0 = false) by (apply Z.eqb_neq; destruct w; [done|unfold zlen; cbn; lia]).
  destruct (lastTwo stack) as [[ctrl script]|] eqn:El.
  - pose proof (proj1 (lastTwo_split _ _ _) El) as [st ->].
    destruct (commit_cases version program i c t st script ctrl annex (i32 (TxWitness_SerializeSize w))
      (verifyWitnessProgram sha256 pick version program w) Hlen) as [[H1 H2]|H1]; [|by left; exists st, script, ctrl|by right].
    assert (Hl1 : zlen (st ++ [script; ctrl]) =? 1 = false) by (apply Z.eqb_neq; rewrite zlen_app; unfold zlen; cbn; lia).
    intros P Hok Hno. unfold verifyWitnessProgram, verifyTaprootSpend, verifyMerkleRootSpend in *. rewrite Hpl, Hz, Hw, Hl1 in *. unfold commits in *.
    destruct Hv as [[-> Hl]| ->]; cbn [Z.eqb Pos.eqb negb] in *.
    + assert (Hm : ∀ A (x : bytes → A) y, match st ++ [script; ctrl] with [r] => x r | _ => y end = y) by (intros; by destruct st as [|? []]).
      rewrite Hm, El in Hok, Hno. destruct (ParseControlBlock ctrl) as [cb|e] eqn:Ecb.
      2: { apply Hno; [by intros (? & ? & _)|by eexists _, _]. }
      rewrite (bind_ok _ _ _ cb (programEnd 1 program i c t)) in Hok, Hno by done.
      destruct (VerifyTaprootLeafCommitment sha256 cb program script) as [[]|e] eqn:Ev.
      * eapply Hok; [|reflexivity]. split; [by intros (cb' & [= <-] & _ & Hb)|]. intros Hb. by exists cb.
      * apply Hno; [intros (cb' & [= <-] & Hb & _); congruence|by eexists _, _].
    + rewrite El in Hok, Hno. destruct (ParseMerkleRootControlBlock ctrl) as [cb|e] eqn:Ecb.
      2: { apply Hno; [by intros (? & ? & _)|by eexists _, _]. }
      rewrite (bind_ok _ _ _ cb (programEnd 2 program i c t)) in Hok, Hno by done.
      destruct (VerifyMerkleRootLeafCommitment sha256 cb program script) as [[]|e] eqn:Ev.
      * eapply Hok; [|reflexivity]. split; [by intros (cb' & [= <-] & _ & Hb)|]. intros Hb. by exists cb.
      * apply Hno; [intros (cb' & [= <-] & Hb & _); congruence|by eexists _, _].
  - right. split; [intros (st & script & ctrl & E & _); pose proof (proj2 (lastTwo_split stack ctrl script) (ex_intro _ st E)); congruence|].
    assert (Hl1 : version = 1 → length stack ≠ 1%nat) by (by destruct Hv as [[_ ?]| ->]).
    unfold verifyWitnessProgram, verifyTaprootSpend, verifyMerkleRootSpend. rewrite Hpl, Hz, Hw, El.
    destruct Hv as [[-> _]| ->]; cbn [Z.eqb Pos.eqb negb].
    + destruct stack as [|? []]; [by eexists _, _|by specialize (Hl1 eq_refl)|by eexists _, _].
    + destruct (zlen stack =? 1); by eexists _, _.
Qed.

(** ** Running the revealed script *)
Lemma executeLoop_fuel n vm vm' : executeLoop n vm = (Ok tt, vm') → ∀ m,
  (∃ v, executeLoop m vm = (Err OutOfFuel, v)) ∨ executeLoop m vm = (Ok tt, vm').
Proof.
  revert vm. induction n as [|n IH]; intros vm Hn m; [done|]. destruct m as [|m]; [left; by eexists|]. cbn [Engine.executeLoop] in *.
  unfold sbind in *. destruct (Step _ _ _ _ _ vm) as [[[]|e] v]; [by right| |done]. by apply IH.
Qed.

Context `{!CryptoLaws sha256 sha1 ripemd160}.

Lemma Step_ctx vm d vm' : running vm → is_Some (tapscriptCtx vm) → Step sha256 sha1 ripemd160 xmssVerify pick vm = (Ok d, vm') →
  is_Some (tapscriptCtx vm').
Proof.
  intros Hr Hc. unfold Step. pose proof (stepOpcode_sound sha256 sha1 ripemd160 xmssVerify pick sha256_length sha1_length ripemd160_length vm Hr) as Hs.
  unfold sound in Hs. destruct (stepOpcode vm) as [[[]|e] vm1] eqn:E1; [|rewrite (bind_err _ _ _ _ _ E1); done].
  destruct Hs as (Hr1 & Hss & _). rewrite (bind_ok _ _ _ _ _ E1), bind_get. apply (ss_ctx _ _ Hss) in Hc.
  destruct (Done _); cbn [negb]; [|by intros [= <- <-]]. unfold endOfScript. rewrite bind_get. destruct (negb _); [done|].
  rewrite bind_mod, bind_mod, bind_get. cbn [scriptIdx withScripts withAstack]. rewrite (proj2 (rn_last _ Hr1 Hc)). cbn [Nat.eqb].
  rewrite (bind_ok (sret tt) _ _ tt _ eq_refl), bind_mod. repeat case_match; intros [= <- <-]; exact Hc.
Qed.
Lemma executeLoop_ctx n : ∀ vm vm', running vm → is_Some (tapscriptCtx vm) → executeLoop n vm = (Ok tt, vm') → is_Some (tapscriptCtx vm').
Proof.
  induction n as [|n IH]; intros vm vm' Hr Hc Hn; [done|]. cbn [Engine.executeLoop] in Hn. unfold sbind in Hn.
  pose proof (Step_sound sha256 sha1 ripemd160 xmssVerify pick sha256_length sha1_length ripemd160_length SerializePubKey_parses vm Hr) as Hs.
  unfold sound in Hs. destruct (Step _ _ _ _ _ vm) as [[d|e] v] eqn:Es; [|done]. apply Step_ctx in Es; [|done..].
  destruct d; [by injection Hn as <-|]. destruct Hs as [_ [Hs _]]. by apply (IH v).
Qed.

(** The final check, for a tapscript. *)
Lemma check_iff vm : limits vm → (length (scripts vm) <= scriptIdx vm)%nat → is_Some (tapscriptCtx vm) →
  ((CheckErrorCondition true vm).1 = Ok tt ↔ ∃ e, stk (dstack vm) = [e] ∧ asBool e = true).
Proof.
  intros [[L1 _ _ _ _ _ _] _ _] Hl Hc. unfold MaxStackSize in L1. pose proof (zlen_nonneg (stk (astack vm))). unfold CheckErrorCondition.
  rewrite (proj2 (Nat.ltb_ge _ _)) by done. rewrite bool_decide_eq_true_2 by done. cbn [andb]. rewrite (depth_ok 1000) by lia.
  destruct (Z.eqb_spec (zlen (stk (dstack vm))) 1) as [E|E]; cbn [negb].
  - destruct (dstack vm) as [[|e []] m] eqn:Ed; unfold zlen in E; cbn in E; try lia. rewrite (proj2 (Z.ltb_ge _ _)) by (unfold zlen; cbn; lia).
    unfold sbind, onD. rewrite Ed. assert (Hp : PopBool (mkStack [e] m) = (Ok (asBool e), mkStack [] m)).
    { unfold PopBool. rewrite (bind_ok _ _ _ e (mkStack [] m)); [done|]. apply (nipN_app m [] e []). done. }
    rewrite Hp. destruct (asBool e) eqn:Ea; cbn.
    + split; [intros _; by exists e|done].
    + split; [done|]. intros (e' & [= <-] & Hb). congruence.
  - cbn. split; [done|]. intros (e & E' & _). exfalso. apply E. rewrite E'. done.
Qed.

(** The verdict on a script path, from the state the witness sets up. *)
Lemma scriptPath_verdict version program i c t st script annex size n :
  let vm := tapSetup version program i c t st script annex size in
  let run := (vm! d := openScript in if d : bool then sret tt else executeLoop n) in
  sound run vm (λ _ vm', limits vm' ∧ (length (scripts vm') <= scriptIdx vm')%nat) →
  (∀ vm', openScript vm = (Ok false, vm') → running vm') →
  ((vm! _ := run in CheckErrorCondition true) vm).1 = Ok tt ↔ tapscriptAccepts version program i c st script annex size.
Proof.
  intros vm run Hs Hr. unfold tapscriptAccepts. destruct script as [|b script'] eqn:Escr.
  - assert (Ho : run vm = (Ok tt, withScripts (scripts vm) 3 vm)) by reflexivity. unfold sound in Hs. rewrite Ho in Hs.
    rewrite (bind_ok _ _ _ _ _ Ho). rewrite check_iff by (try apply Hs; by eexists). done.
  - rewrite <- Escr in *. set (v := tapVM version program i c st script annex size) in *.
    assert (Ho : openScript vm = (Ok false, v)) by (subst script; reflexivity). specialize (Hr _ Ho).
    assert (Hrun : run vm = executeLoop n v) by (unfold run; by rewrite (bind_ok _ _ _ _ _ Ho)). unfold sound in Hs. rewrite Hrun in Hs.
    assert (Hcx : is_Some (tapscriptCtx v)) by (by eexists). split.
    + intros Hok. destruct (executeLoop n v) as [[[]|e] vm'] eqn:El; [|rewrite (bind_err _ _ _ _ _ Hrun) in Hok; done].
      rewrite (bind_ok _ _ _ _ _ Hrun) in Hok. apply check_iff in Hok as (e & E1 & E2); [|apply Hs|apply Hs|by eapply executeLoop_ctx].
      by exists n, vm', e.
    + intros (m & vm' & e & Hm & E1 & E2). destruct (executeLoop_fuel m v vm' Hm n) as [[w Hf]|Hn]; [rewrite Hf in Hs; by destruct Hs|].
      rewrite Hn in Hs. rewrite Hn in Hrun. rewrite (bind_ok _ _ _ _ _ Hrun). apply check_iff; [apply Hs|apply Hs|by eapply executeLoop_ctx|].
      by exists e.
Qed.

(** C9. A taproot output with more than one witness element, and a merkle root
    output with any witness, is spendable exactly by a script: the scripts verify
    if and only if the signature script is empty, the last two elements (besides
    an annex) are a script and a control block that proves that the output
    commits to it, the script parses, its arguments are within the limits, and
    running it on them ends with one true element on the stack.  A merkle root
    output has no key path. *)
Theorem script_spend_iff (version : Z) (program : bytes) (tx : MsgTx) (txIdx : Z) (txIn : TxIn) (stack : list bytes) (annex : option bytes)
    (c : option SigCache) (hashCache : option TxSigHashes) (amount : Z) (fetch : PrevOutputFetcher)
    (Hversion : (version = 1 ∧ length stack ≠ 1%nat) ∨ version = 2) (Hprogram : length program = 32%nat)
    (Ht : at_ (tx_TxIn tx) txIdx = Some txIn) (Hw : stripWitnessAnnex (ti_Witness txIn) = (stack, annex))
    (Hin : inputOK tx txIdx hashCache fetch) :
  (runInput sha256 sha1 ripemd160 xmssVerify pick (programScript version program) tx txIdx c hashCache amount fetch).1 = Ok tt
  ↔ ti_SignatureScript txIn = []
    ∧ ∃ st script ctrl, scriptPath version program stack st script ctrl
      ∧ tapscriptAccepts version program (mkInput tx txIdx hashCache fetch version (Some program) amount) c st script annex
          (i32 (TxWitness_SerializeSize (ti_Witness txIn))).
Proof.
  assert (Hv : version = 1 ∨ version = 2) by (destruct Hversion as [[? _]|?]; auto). unfold runInput.
  pose proof (NewEngine_clean (programScript version program) tx txIdx c hashCache amount fetch Hin) as Hclean.
  destruct (NewEngine _ _ _ _ _ _ _) as [vm|e] eqn:En.
  2: { split; [done|]. intros [Hs _]. pose proof (proj2 (NewEngine_program version program Hv Hprogram tx txIdx c hashCache amount fetch _)
         (ex_intro _ txIn (conj Ht (conj Hs eq_refl)))). congruence. }
  apply NewEngine_program in En as (txIn' & Ht' & Hs & ->); [|done..]. assert (txIn' = txIn) by congruence. subst txIn'.
  set (i := mkInput tx txIdx hashCache fetch version (Some program) amount) in *. set (vm0 := programVM i c _) in *. destruct Hclean as [Hrun Hm].
  assert (Hlen : zlen stack < 2 ^ 31).
  { pose proof (Hin txIn Ht) as (_ & _ & Hz). pose proof (witness_size (ti_Witness txIn)) as Hws. unfold sigOpsDelta in Hz.
    assert (stack = (stripWitnessAnnex (ti_Witness txIn)).1) as -> by (by rewrite Hw). unfold stripWitnessAnnex.
    destruct (isAnnexedWitness _); cbn [fst]; unfold zlen in *; rewrite ?length_take; lia. }
  pose proof (executeLoop_sound sha256 sha1 ripemd160 xmssVerify pick sha256_length sha1_length ripemd160_length SerializePubKey_parses _ _ Hrun Hm) as Hsound.
  unfold Execute. assert (Hf : ∃ n, executeFuel vm0 = S (S n)) by (eexists; reflexivity). destruct Hf as [n Hn]. rewrite Hn in *.
  destruct (executeLoop_program version program Hv Hprogram n i c txIn eq_refl eq_refl Ht) as (t & Hl & Hreach).
  fold vm0 in Hl, Hreach. destruct (witnessProgram_cases version program i c t (ti_Witness txIn) stack annex Hversion Hprogram Hw Hlen)
    as [(st & script & ctrl & Hsp & Hok)|[Hno (e & vm' & He)]].
  - rewrite bind_assoc, (bind_ok _ _ _ _ _ Hok) in Hl.
    pose proof (scriptPath_verdict version program i c t st script annex (i32 (TxWitness_SerializeSize (ti_Witness txIn))) n) as Hvd. cbn zeta in Hvd.
    unfold sound in Hsound, Hvd. rewrite Hl in Hsound.
    rewrite (bind_cong _ _ (λ _ : unit, CheckErrorCondition true) _ _ Hl).
    destruct (sbind _ (λ _ : unit, CheckErrorCondition true) _) as [r w] eqn:Er. cbn [fst] in *.
    rewrite Hvd; [|exact Hsound|].
    + split; [intros Ha; split; [done|]; by exists st, script, ctrl|]. intros (_ & st' & script' & ctrl' & (E & _ & _) & Ha).
      destruct Hsp as (-> & _ & _). apply snoc2_inj in E as (-> & -> & ->). done.
    + intros vm' Ho. apply (reach_inv sha256 sha1 ripemd160 xmssVerify pick vm0 false vm' Hrun); [|done]. apply Hreach. by rewrite (bind_ok _ _ _ _ _ Hok).
  - rewrite bind_assoc, (bind_err _ _ _ _ _ He) in Hl. rewrite (bind_err _ _ _ _ _ Hl). cbn [fst]. split; [done|].
    intros (_ & st & script & ctrl & Hsp & _). exfalso. apply Hno. by exists st, script, ctrl.
Qed.
End spend.

Lemma taproot_key_spend_iff_witness :
  validKeySig (H := Toy.toySchnorr) TapDemo.mix CacheDemo.key CacheDemo.sig None
    (mkInput CacheDemo.tx 0 (NewTxSigHashes TapDemo.mix CacheDemo.tx CacheDemo.fetch) CacheDemo.fetch 1 (Some CacheDemo.key) 5).
Proof.
  refine (proj2 (proj1 (taproot_key_spend_iff (H0 := EngineDemo.toyTweak) TapDemo.mix EngineDemo.h20 EngineDemo.h20 EngineDemo.noXmss EngineDemo.noPick
    CacheDemo.key CacheDemo.tx 0 (mkTxIn (mkOutPoint (replicate 32 x01) 0) [] [CacheDemo.sig] 5) CacheDemo.sig None EngineDemo.cache
    (NewTxSigHashes TapDemo.mix CacheDemo.tx CacheDemo.fetch) 5 CacheDemo.fetch eq_refl eq_refl eq_refl _) _)).
  - intros h e E. discriminate E.
  - vm_compute. reflexivity.
Defined.

Lemma script_spend_iff_witness :
  ∃ st script ctrl, scriptPath (H0 := EngineDemo.toyTweak) TapDemo.mix 2 EngineDemo.root [[x07]; EngineDemo.leafScript; [xc1]] st script ctrl
    ∧ tapscriptAccepts (H0 := EngineDemo.toyTweak) TapDemo.mix EngineDemo.h20 EngineDemo.h20 EngineDemo.noXmss EngineDemo.noPick 2 EngineDemo.root
        (mkInput EngineDemo.tx 0 EngineDemo.sigHashes EngineDemo.fetch 2 (Some EngineDemo.root) 5) EngineDemo.cache st script None
        (i32 (TxWitness_SerializeSize [[x07]; EngineDemo.leafScript; [xc1]])).
Proof.
  refine (proj2 (proj1 (script_spend_iff (H0 := EngineDemo.toyTweak) (CryptoLaws0 := EngineDemo.toyLaws) TapDemo.mix EngineDemo.h20 EngineDemo.h20
    EngineDemo.noXmss EngineDemo.noPick 2 EngineDemo.root EngineDemo.tx 0
    (mkTxIn (mkOutPoint (replicate 32 x01) 0) [] [[x07]; EngineDemo.leafScript; [xc1]] 5) [[x07]; EngineDemo.leafScript; [xc1]] None EngineDemo.cache
    EngineDemo.sigHashes 5 EngineDemo.fetch (or_intror eq_refl) _ eq_refl eq_refl demo_inputOK) _)).
  - vm_compute. reflexivity.
  - vm_compute. reflexivity.
Defined.
