(* ===== verification/GoHeap.v ===== *)
(** * Priority queues of the Go standard library (container/heap)

    The package works on any type that implements [heap.Interface]; here that is
    the class [HeapInterface], whose operations return [None] for an index out of
    range.  [HeapLaws] says what an implementation promises: it behaves as an
    array of values under a strict weak order.  Against these laws [Push], [Pop]
    and [Remove] keep the heap order and the first element is a least one. *)
From Stdlib Require Import ZArith Lia.
From stdpp Require Import base list option.
Open Scope list_scope.

Class HeapInterface (H X : Type) := {
  hp_Len : H → nat;
  hp_Less : H → nat → nat → option bool;
  hp_Swap : H → nat → nat → option H;
  hp_Push : H → X → H;
  hp_Pop : H → option (X * H) }.

Section heap.
Context {H X : Type} `{HeapInterface H X}.

(** [up]: the parent of 0 is 0, as Go divides towards zero. *)
Fixpoint up (fuel : nat) (h : H) (j : nat) : option H :=
  match fuel with
  | O => Some h
  | S fuel' =>
      let i := (j - 1) / 2 in
      if (i =? j) then Some h else
      l ← hp_Less h j i;
      if negb l then Some h else
      h' ← hp_Swap h i j;
      up fuel' h' i
  end.

(** [down] returns the position where the element ends. *)
Fixpoint downLoop (fuel : nat) (h : H) (i n : nat) : option (H * nat) :=
  match fuel with
  | O => Some (h, i)
  | S fuel' =>
      let j1 := 2 * i + 1 in
      if (n <=? j1) then Some (h, i) else
      r ← (if (j1 + 1 <? n) then hp_Less h (j1 + 1) j1 else Some false);
      let j := if r : bool then j1 + 1 else j1 in
      l ← hp_Less h j i;
      if negb l then Some (h, i) else
      h' ← hp_Swap h i j;
      downLoop fuel' h' j n
  end.
Definition down (h : H) (i0 n : nat) : option (H * bool) :=
  '(h', i) ← downLoop (S n) h i0 n; Some (h', i0 <? i).

Definition heapPush (h : H) (x : X) : option H :=
  let h := hp_Push h x in up (hp_Len h) h (hp_Len h - 1).
Definition heapPop (h : H) : option (X * H) :=
  let n := hp_Len h - 1 in
  h ← hp_Swap h 0 n;
  '(h, _) ← down h 0 n;
  hp_Pop h.
Definition heapRemove (h : H) (i : nat) : option (X * H) :=
  let n := hp_Len h - 1 in
  h ← (if (n =? i) then Some h
       else h ← hp_Swap h i n;
            '(h, moved) ← down h i n;
            if moved : bool then Some h else up (S i) h i);
  hp_Pop h.
End heap.

(** ** What an implementation promises *)
Definition swapAt {A} (l : list A) (i j : nat) : list A :=
  match l !! i, l !! j with
  | Some a, Some b => <[i := b]> (<[j := a]> l)
  | _, _ => l
  end.

Class HeapLaws (H X A : Type) `{HeapInterface H X} (lt : A → A → bool) (arr : H → list A) (inv : H → Prop) (new : H → X → A → Prop) (out : H → X → A → Prop) := {
  lt_asym a b : lt a b = true → lt b a = false;
  le_trans a b c : lt b a = false → lt c b = false → lt c a = false;
  Len_arr h : inv h → hp_Len h = length (arr h);
  Less_arr h i j a b : inv h → arr h !! i = Some a → arr h !! j = Some b → hp_Less h i j = Some (lt a b);
  Swap_arr h i j : inv h → i < length (arr h) → j < length (arr h) → ∃ h', hp_Swap h i j = Some h' ∧ inv h' ∧ arr h' = swapAt (arr h) i j;
  Push_arr h x a : inv h → new h x a → inv (hp_Push h x) ∧ arr (hp_Push h x) = arr h ++ [a];
  Pop_arr h l a : inv h → arr h = l ++ [a] → ∃ x h', hp_Pop h = Some (x, h') ∧ out h' x a ∧ inv h' ∧ arr h' = l }.

(** ** Arrays in heap order *)
Section order.
Context {A : Type} (lt : A → A → bool).
Abbreviation le a b := (lt b a = false).

Definition okAt (l : list A) (k : nat) : Prop :=
  ∀ a b, l !! ((k - 1) / 2) = Some a → l !! k = Some b → le a b.
(** The first [n] elements are in heap order. *)
Definition heapOrdered (n : nat) (l : list A) : Prop := ∀ k, 0 < k < n → okAt l k.
(** The parent of [i] is at most its children. *)
Definition skipOk (n : nat) (l : list A) (i : nat) : Prop :=
  ∀ k a b, 0 < i → 0 < k < n → (k - 1) / 2 = i → l !! ((i - 1) / 2) = Some a → l !! k = Some b → le a b.
(** In order but for [i] and its parent, and but for [i] and its children. *)
Definition upOk (n : nat) (l : list A) (i : nat) : Prop := (∀ k, 0 < k < n → k ≠ i → okAt l k) ∧ skipOk n l i.
Definition downOk (n : nat) (l : list A) (i : nat) : Prop := (∀ k, 0 < k < n → (k - 1) / 2 ≠ i → okAt l k) ∧ skipOk n l i.
Definition nearOk (n : nat) (l : list A) (i : nat) : Prop :=
  (∀ k, 0 < k < n → k ≠ i → (k - 1) / 2 ≠ i → okAt l k) ∧ skipOk n l i.

Hypothesis Htrans : ∀ a b c, le a b → le b c → le a c.
Hypothesis Hasym : ∀ a b, lt a b = true → lt b a = false.

Lemma le_refl a : le a a.
Proof. destruct (lt a a) eqn:E; [|done]. by rewrite (Hasym a a E) in E. Qed.

(** The first element of a heap is a least one. *)
Lemma root_least l n r : heapOrdered n l → n <= length l → l !! 0 = Some r → ∀ k x, k < n → l !! k = Some x → le r x.
Proof.
  intros Hh Hn Hr k. induction k as [k IH] using lt_wf_ind. intros x Hk Hx. destruct k as [|k].
  - rewrite Hr in Hx. injection Hx as <-. apply le_refl.
  - assert (Hp : S k / 2 < S k) by (apply Nat.div_lt; lia). replace (S k) with (S (S k - 1)) in Hk by lia.
    destruct (lookup_lt_is_Some_2 l ((S k - 1) / 2)) as [p Ep]; [pose proof (Nat.Div0.div_le_mono (S k - 1) (S k) 2); lia|].
    apply (Htrans _ p).
    + apply (IH ((S k - 1) / 2)); [pose proof (Nat.Div0.div_le_mono (S k - 1) (S k) 2); lia|pose proof (Nat.Div0.div_le_mono (S k - 1) (S k) 2); lia|done].
    + apply (Hh (S k)); [lia|done|done].
Qed.

Lemma swapAt_lookup (l : list A) i j a b k : l !! i = Some a → l !! j = Some b →
  swapAt l i j !! k = if decide (k = i) then Some b else if decide (k = j) then Some a else l !! k.
Proof.
  intros Hi Hj. unfold swapAt. rewrite Hi, Hj. apply lookup_lt_Some in Hi, Hj.
  destruct (decide (k = i)) as [->|Hki]; [by rewrite list_lookup_insert_eq by (by rewrite length_insert)|].
  rewrite list_lookup_insert_ne by done. destruct (decide (k = j)) as [->|Hkj]; [by rewrite list_lookup_insert_eq|by rewrite list_lookup_insert_ne].
Qed.
Lemma length_swapAt (l : list A) i j : length (swapAt l i j) = length l.
Proof. unfold swapAt. destruct (l !! i), (l !! j); by rewrite ?length_insert. Qed.

(** The same elements among the first [n], the same ones after. *)
Definition sameUpTo (n : nat) (l l' : list A) : Prop := take n l' ≡ₚ take n l ∧ drop n l' = drop n l.
Lemma swapAt_same n l i j : i < n → j < n → n <= length l → sameUpTo n l (swapAt l i j).
Proof.
  intros Hi Hj Hn. destruct (lookup_lt_is_Some_2 l i) as [a Ea]; [lia|]. destruct (lookup_lt_is_Some_2 l j) as [b Eb]; [lia|].
  unfold swapAt. rewrite Ea, Eb. split.
  - rewrite !take_insert_lt by done. apply Permutation_insert_swap; by rewrite lookup_take_lt.
  - by rewrite !drop_insert_lt.
Qed.

(** One round of [up]. *)
Lemma parent_lt k : 0 < k → (k - 1) / 2 < k.
Proof. intros Hk. apply Nat.Div0.div_lt_upper_bound. lia. Qed.
Lemma parent_le k : (k - 1) / 2 <= k.
Proof. apply Nat.Div0.div_le_upper_bound. lia. Qed.

Ltac sw Ha Hb H := rewrite (swapAt_lookup _ _ _ _ _ _ Ha Hb) in H.

Lemma up_step n l j a b : let i := (j - 1) / 2 in upOk n l j → 0 < j < n → l !! i = Some a → l !! j = Some b → lt b a = true →
  upOk n (swapAt l i j) i.
Proof.
  intros i [Hok Hskip] Hj Ha Hb Hlt. pose proof (parent_lt j ltac:(lia)) as Hij. fold i in Hij. split.
  - intros k Hk Hki x y Hx Hy. sw Ha Hb Hx; sw Ha Hb Hy. pose proof (parent_lt k ltac:(lia)).
    destruct (decide (k = i)); [done|]. destruct (decide (k = j)) as [->|Hkj].
    + fold i in Hx. rewrite decide_True in Hx by done. simplify_eq. by apply Hasym.
    + destruct (decide ((k - 1) / 2 = i)) as [E|E].
      * simplify_eq. apply (Htrans _ a); [by apply Hasym|]. apply (Hok k); [done|done|by rewrite E|done].
      * destruct (decide ((k - 1) / 2 = j)) as [E'|E'].
        -- simplify_eq. by eapply (Hskip k); [lia|done|done|..].
        -- by apply (Hok k).
  - intros k x y Hi Hk E Hx Hy. sw Ha Hb Hx; sw Ha Hb Hy. pose proof (parent_lt i Hi). pose proof (parent_lt k ltac:(lia)).
    rewrite !decide_False in Hx by lia. destruct (decide (k = i)); [lia|]. assert (Hia : le x a) by (apply (Hok i); [lia|lia|done|done]).
    destruct (decide (k = j)) as [->|Hkj]; [by simplify_eq|]. apply (Htrans _ a); [done|]. apply (Hok k); [lia|done|by rewrite E|done].
Qed.
Lemma up_done n l j : upOk n l j → (j = 0 ∨ okAt l j) → heapOrdered n l.
Proof. intros [Hok _] Hj k Hk. destruct (decide (k = j)) as [->|]; [by destruct Hj; [lia|]|by apply Hok]. Qed.

(** One round of [down], from [i] to its smaller child [j]. *)
Lemma down_step n l i j x c : nearOk n l i → j < n → (j - 1) / 2 = i → 0 < j → l !! i = Some x → l !! j = Some c → lt c x = true →
  (∀ k y, 0 < k < n → (k - 1) / 2 = i → l !! k = Some y → le c y) → downOk n (swapAt l i j) j.
Proof.
  intros [Hok Hskip] Hj Hp Hj0 Hx Hc Hlt Hmin. pose proof (parent_lt j Hj0). split.
  - intros k Hk Hpk u v Hu Hv. sw Hx Hc Hu; sw Hx Hc Hv. pose proof (parent_lt k ltac:(lia)).
    rewrite (decide_False (P := (k - 1) / 2 = j)) in Hu by done. destruct (decide (k = i)) as [->|Hki].
    + rewrite decide_False in Hu by lia. simplify_eq. by eapply (Hskip j); [lia|lia|done|..].
    + destruct (decide (k = j)) as [->|Hkj].
      * rewrite decide_True in Hu by done. simplify_eq. by apply Hasym.
      * destruct (decide ((k - 1) / 2 = i)) as [E|E]; [simplify_eq; by apply (Hmin k)|]. by apply (Hok k).
  - intros k u v _ Hk E Hu Hv. sw Hx Hc Hu; sw Hx Hc Hv. pose proof (parent_lt k ltac:(lia)).
    rewrite (decide_True (P := (j - 1) / 2 = i)) in Hu by done. rewrite !decide_False in Hv by lia. injection Hu as <-.
    apply (Hok k); [lia|lia|lia|by rewrite E|done].
Qed.
Lemma near_down n l i : downOk n l i → nearOk n l i.
Proof. intros [Hok Hs]. split; [|done]. intros k Hk _. by apply Hok. Qed.
Lemma near_up n l i : nearOk n l i → (∀ k, 0 < k < n → (k - 1) / 2 = i → okAt l k) → upOk n l i.
Proof. intros [Hok Hs] Hc. split; [|done]. intros k Hk Hki. destruct (decide ((k - 1) / 2 = i)); [by apply Hc|by apply Hok]. Qed.
Lemma down_done n l i : downOk n l i → (∀ k, 0 < k < n → (k - 1) / 2 = i → okAt l k) → heapOrdered n l.
Proof. intros [Hok Hs] Hc k Hk. destruct (decide ((k - 1) / 2 = i)); [by apply Hc|by apply Hok]. Qed.
Lemma swap_near n i l : heapOrdered (S n) l → length l = S n → i < n → nearOk n (swapAt l i n) i.
Proof.
  intros Hh Hl Hi. destruct (lookup_lt_is_Some_2 l i) as [a Ha]; [lia|]. destruct (lookup_lt_is_Some_2 l n) as [b Hb]; [lia|]. split.
  - intros k Hk Hki Hpi x y Hx Hy. pose proof (parent_lt k ltac:(lia)). sw Ha Hb Hx; sw Ha Hb Hy. rewrite !decide_False in Hx by lia. rewrite !decide_False in Hy by lia.
    apply (Hh k); [lia|done|done].
  - intros k x y Hi0 Hk E Hx Hy. pose proof (parent_lt i Hi0). pose proof (parent_lt k ltac:(lia)). sw Ha Hb Hx; sw Ha Hb Hy.
    rewrite !decide_False in Hx by lia. rewrite !decide_False in Hy by lia. apply (Htrans _ a); [apply (Hh i); [lia|done|done]|apply (Hh k); [lia|by rewrite E|done]].
Qed.

End order.

(** ** The operations of the package *)
Section package.
Context {H X A : Type} `{HeapInterface H X} {lt : A → A → bool} {arr : H → list A} {inv : H → Prop}
  {new : H → X → A → Prop} {out : H → X → A → Prop} `{!HeapLaws H X A lt arr inv new out}.
Abbreviation le a b := (lt b a = false).

Lemma sameUpTo_trans n (l1 l2 l3 : list A) : sameUpTo n l1 l2 → sameUpTo n l2 l3 → sameUpTo n l1 l3.
Proof. intros [P1 D1] [P2 D2]. split; [by rewrite P2|congruence]. Qed.
Lemma sameUpTo_length n (l l' : list A) : sameUpTo n l l' → length l' = length l.
Proof. intros [P D]. rewrite <- (take_drop n l), <- (take_drop n l'), !length_app, D. by rewrite P. Qed.

Lemma up_spec fuel : ∀ h j n, inv h → j < fuel → j < n → n <= length (arr h) → upOk lt n (arr h) j →
  ∃ h', up fuel h j = Some h' ∧ inv h' ∧ heapOrdered lt n (arr h') ∧ sameUpTo n (arr h) (arr h').
Proof.
  induction fuel as [|fuel IH]; intros h j n Hi Hf Hj Hn Hok; [lia|]. cbn [up].
  destruct (Nat.eqb_spec ((j - 1) / 2) j) as [E|E].
  { exists h. split_and!; [done|done| |by split]. eapply up_done; [done|]. left. destruct j; [done|]. pose proof (parent_lt (S j) ltac:(lia)). lia. }
  assert (Hp : (j - 1) / 2 < j) by (pose proof (parent_le j); lia).
  destruct (lookup_lt_is_Some_2 (arr h) j) as [b Hb]; [lia|]. destruct (lookup_lt_is_Some_2 (arr h) ((j - 1) / 2)) as [a Ha]; [lia|].
  rewrite (Less_arr h j _ b a) by done. cbn [mbind option_bind negb fst snd]. destruct (lt b a) eqn:El; cbn [mbind option_bind negb fst snd].
  - destruct (Swap_arr h ((j - 1) / 2) j Hi) as (h' & -> & Hi' & Ea); [lia|lia|]. cbn [mbind option_bind negb fst snd].
    destruct (IH h' ((j - 1) / 2) n) as (h'' & -> & R1 & R2 & R3); [done|lia|lia|by rewrite Ea, length_swapAt| |].
    { rewrite Ea. eapply up_step; try done; [apply le_trans|apply lt_asym|lia]. }
    exists h''. split_and!; try done. eapply sameUpTo_trans; [|exact R3]. rewrite Ea. apply swapAt_same; lia.
  - exists h. split_and!; [done|done| |by split]. eapply up_done; [done|]. right. intros x y Hx Hy. congruence.
Qed.

Lemma children n i k : 0 < k < n → (k - 1) / 2 = i → k = 2 * i + 1 ∨ (k = 2 * i + 2 ∧ 2 * i + 2 < n).
Proof. intros Hk <-. pose proof (Nat.div_mod_eq (k - 1) 2). pose proof (Nat.mod_upper_bound (k - 1) 2). lia. Qed.

(** One round of the loop: it stops in order, or goes on from a child. *)
Lemma down_round fuel h i n : inv h → n <= length (arr h) → i < n → nearOk lt n (arr h) i →
  (downLoop (S fuel) h i n = Some (h, i) ∧ ∀ k, 0 < k < n → (k - 1) / 2 = i → okAt lt (arr h) k)
  ∨ ∃ j h', downLoop (S fuel) h i n = downLoop fuel h' j n ∧ i < j < n ∧ inv h' ∧ downOk lt n (arr h') j ∧ sameUpTo n (arr h) (arr h').
Proof.
  intros Hi Hn Hin Hok. cbn [downLoop]. replace (i + (i + 0)) with (2 * i) by lia.
  destruct (Nat.leb_spec n (2 * i + 1)) as [Hc|Hc].
  { left. split; [done|]. intros k Hk E. destruct (children n i k Hk E); lia. }
  destruct (lookup_lt_is_Some_2 (arr h) i) as [x Hx]; [lia|]. destruct (lookup_lt_is_Some_2 (arr h) (2 * i + 1)) as [c1 H1]; [lia|].
  set (r := if (2 * i + 1 + 1 <? n) then _ else _).
  assert (∃ b, r = Some b ∧ ∃ c, arr h !! (if b then 2 * i + 1 + 1 else 2 * i + 1) = Some c ∧ (b = true → 2 * i + 1 + 1 < n)
    ∧ ∀ k y, 0 < k < n → (k - 1) / 2 = i → arr h !! k = Some y → le c y) as (b & -> & c & Hcj & Hbn & Hmin).
  { unfold r. destruct (Nat.ltb_spec (2 * i + 1 + 1) n) as [H2|H2].
    - destruct (lookup_lt_is_Some_2 (arr h) (2 * i + 1 + 1)) as [c2 E2]; [lia|]. rewrite (Less_arr h _ _ c2 c1) by done.
      exists (lt c2 c1). split; [done|]. destruct (lt c2 c1) eqn:El.
      + exists c2. split; [done|]. split; [done|]. intros k y Hk E Hy. destruct (children n i k Hk E) as [->|[-> _]].
        * assert (y = c1) as -> by congruence. by apply lt_asym.
        * replace (2 * i + 2) with (2 * i + 1 + 1) in Hy by lia. assert (y = c2) as -> by congruence. apply (le_refl lt lt_asym).
      + exists c1. split; [done|]. split; [done|]. intros k y Hk E Hy. destruct (children n i k Hk E) as [->|[-> _]].
        * assert (y = c1) as -> by congruence. apply (le_refl lt lt_asym).
        * replace (2 * i + 2) with (2 * i + 1 + 1) in Hy by lia. assert (y = c2) as -> by congruence. done.
    - exists false. split; [done|]. exists c1. split; [done|]. split; [done|]. intros k y Hk E Hy. destruct (children n i k Hk E) as [->|[-> ?]]; [|lia].
      assert (y = c1) as -> by congruence. apply (le_refl lt lt_asym). }
  cbn [mbind option_bind negb fst snd]. set (j := if b then 2 * i + 1 + 1 else 2 * i + 1) in *. assert (Hj : i < j < n ∧ (j - 1) / 2 = i).
  { unfold j. destruct b; [specialize (Hbn eq_refl)|]; (split; [lia|]).
    - replace (2 * i + 1 + 1 - 1) with (1 + i * 2) by lia. by rewrite Nat.div_add by lia.
    - replace (2 * i + 1 - 1) with (i * 2) by lia. by rewrite Nat.div_mul by lia. }
  rewrite (Less_arr h j i c x) by done. cbn [mbind option_bind negb fst snd]. destruct (lt c x) eqn:El; cbn [mbind option_bind negb fst snd].
  - right. destruct (Swap_arr h i j Hi) as (h' & -> & Hi' & Ea); [lia|lia|]. cbn [mbind option_bind negb fst snd]. exists j, h'. split; [done|]. split; [lia|]. split; [done|].
    rewrite Ea. split; [|apply swapAt_same; lia]. eapply down_step; try done; [apply lt_asym|lia|lia|lia].
  - left. split; [done|]. intros k Hk E u v Hu Hv. rewrite E in Hu. assert (u = x) as -> by congruence.
    apply (le_trans _ c); [done|]. by apply (Hmin k).
Qed.

Lemma downLoop_spec fuel : ∀ h i n, inv h → n <= length (arr h) → i < n → n - i < fuel → downOk lt n (arr h) i →
  ∃ h' i', downLoop fuel h i n = Some (h', i') ∧ i <= i' ∧ inv h' ∧ heapOrdered lt n (arr h') ∧ sameUpTo n (arr h) (arr h').
Proof.
  induction fuel as [|fuel IH]; intros h i n Hi Hn Hin Hf Hok; [lia|].
  destruct (down_round fuel h i n Hi Hn Hin (near_down lt n _ i Hok)) as [[-> Hd]|(j & h' & -> & Hj & Hi' & Hok' & Hs)].
  - exists h, i. split_and!; [done|lia|done|by eapply down_done|by split].
  - destruct (IH h' j n) as (h'' & i' & -> & R1 & R2 & R3 & R4); try done; [by rewrite (sameUpTo_length _ _ _ Hs)|lia|lia|].
    exists h'', i'. split_and!; [done|lia|done|done|by eapply sameUpTo_trans].
Qed.
Lemma down_spec h i n : inv h → n <= length (arr h) → i < n → nearOk lt n (arr h) i →
  ∃ h' m, down h i n = Some (h', m) ∧ inv h' ∧ sameUpTo n (arr h) (arr h')
    ∧ if m : bool then heapOrdered lt n (arr h') else upOk lt n (arr h') i.
Proof.
  intros Hi Hn Hin Hok. unfold down.
  destruct (down_round n h i n Hi Hn Hin Hok) as [[-> Hd]|(j & h' & -> & Hj & Hi' & Hok' & Hs)]; cbn [mbind option_bind negb fst snd].
  - exists h, false. rewrite Nat.ltb_irrefl. split_and!; [done|done|by split|by apply near_up].
  - destruct (downLoop_spec n h' j n) as (h'' & i' & -> & R1 & R2 & R3 & R4); try done; [by rewrite (sameUpTo_length _ _ _ Hs)|lia|lia|]. cbn [mbind option_bind negb fst snd].
    exists h'', true. rewrite (proj2 (Nat.ltb_lt i i')) by lia. split_and!; [done|done|by eapply sameUpTo_trans|done].
Qed.

(** A heap: the invariant of the implementation and the order. *)
Definition isHeap (h : H) : Prop := inv h ∧ heapOrdered lt (length (arr h)) (arr h).

Lemma heapOrdered_take n (l l' : list A) : heapOrdered lt n l → n <= length l → take n l = l' → heapOrdered lt n l'.
Proof.
  intros Hh Hn <- k Hk a b Ha Hb. pose proof (parent_lt k ltac:(lia)). rewrite lookup_take_lt in Ha, Hb by lia. by apply (Hh k).
Qed.
(** The end of [Pop] and [Remove]: the element at the end leaves. *)
Lemma pop_last h n l i a : inv h → length l = S n → i <= n → l !! i = Some a → sameUpTo n (swapAt l i n) (arr h) → heapOrdered lt n (arr h) →
  ∃ x h', hp_Pop h = Some (x, h') ∧ out h' x a ∧ isHeap h' ∧ a :: arr h' ≡ₚ l.
Proof.
  intros Hi Hl Hin Ha Hs Hh. pose proof (sameUpTo_length _ _ _ Hs) as Hlen. rewrite length_swapAt in Hlen.
  destruct (lookup_lt_is_Some_2 l n) as [b Hb]; [lia|]. destruct Hs as [Hp Hd].
  assert (Hlast : swapAt l i n !! n = Some a).
  { rewrite (swapAt_lookup _ _ _ _ _ _ Ha Hb). destruct (decide (n = i)) as [->|]; [congruence|by rewrite decide_True]. }
  assert (Hdrop : drop n (arr h) = [a]).
  { rewrite Hd. rewrite (drop_S _ _ _ Hlast), drop_ge by (rewrite length_swapAt; lia). done. }
  destruct (Pop_arr h (take n (arr h)) a Hi) as (x & h' & E & Ho & Hi' & Ea); [by rewrite <- Hdrop, take_drop|].
  exists x, h'. split; [done|]. split; [done|]. split.
  - split; [done|]. rewrite Ea at 1. rewrite length_take_le by lia. eapply heapOrdered_take; [exact Hh|lia|done].
  - assert (Hperm : swapAt l i n ≡ₚ l) by (unfold swapAt; rewrite Ha, Hb; by apply Permutation_insert_swap).
    assert (Hsw : take n (swapAt l i n) ++ [a] = swapAt l i n).
    { rewrite <- (take_drop n (swapAt l i n)) at 2. by rewrite <- Hd, Hdrop. }
    rewrite Ea, Hp. transitivity (swapAt l i n); [|exact Hperm]. rewrite <- Hsw at 2. apply Permutation_cons_append.
Qed.

Lemma heapPush_spec h x a : isHeap h → new h x a → ∃ h', heapPush h x = Some h' ∧ isHeap h' ∧ arr h' ≡ₚ a :: arr h.
Proof.
  intros [Hi Hh] Hn. destruct (Push_arr h x a Hi Hn) as [Hi' Ea]. unfold heapPush. rewrite !(Len_arr _ Hi'), Ea, length_app. cbn [length].
  rewrite Nat.add_sub. destruct (up_spec (length (arr h) + 1) (hp_Push h x) (length (arr h)) (length (arr h) + 1)) as (h' & -> & R1 & R2 & R3);
    [done|lia|lia|by rewrite Ea, length_app| |].
  - rewrite Ea. split; [|intros k y z Hj Hk E; pose proof (parent_lt k ltac:(lia)); lia]. intros k Hk Hne y z Hy Hz. pose proof (parent_lt k ltac:(lia)).
    rewrite lookup_app_l in Hy, Hz by lia. apply (Hh k); [lia|done|done].
  - exists h'. split; [done|]. pose proof (sameUpTo_length _ _ _ R3) as Hl. rewrite Ea, length_app in Hl. split; [split; [done|by rewrite Hl]|].
    destruct R3 as [P _]. rewrite !take_ge in P by (rewrite ?Hl, ?Ea, ?length_app; cbn; lia). rewrite P, Ea. symmetry. apply Permutation_cons_append.
Qed.

Lemma heapPop_spec h : isHeap h → arr h ≠ [] → ∃ x h' a, heapPop h = Some (x, h') ∧ out h' x a ∧ isHeap h' ∧ a :: arr h' ≡ₚ arr h
  ∧ arr h !! 0 = Some a ∧ ∀ b, b ∈ arr h → le a b.
Proof.
  intros [Hi Hh] Hne. unfold heapPop. rewrite (Len_arr _ Hi). destruct (arr h) as [|a l] eqn:El; [done|]. clear Hne. rewrite <- El in *.
  assert (Hlen : length (arr h) = S (length (arr h) - 1)) by (rewrite El; cbn; lia). set (n := length (arr h) - 1) in *. rewrite Hlen in Hh.
  assert (Ha : arr h !! 0 = Some a) by (by rewrite El).
  destruct (Swap_arr h 0 n Hi) as (h1 & -> & Hi1 & E1); [lia|lia|]. cbn [mbind option_bind].
  assert (∃ h2 m, down h1 0 n = Some (h2, m) ∧ inv h2 ∧ sameUpTo n (swapAt (arr h) 0 n) (arr h2) ∧ heapOrdered lt n (arr h2)) as (h2 & m & -> & R1 & R2 & R3).
  { destruct (decide (n = 0)) as [->|Hn0].
    - exists h1, false. split; [done|]. rewrite E1. split; [done|]. split; [by split|]. intros k Hk. lia.
    - destruct (down_spec h1 0 n) as (h2 & m & E & R1 & R2 & R3); [done|rewrite E1, length_swapAt; lia|lia|rewrite E1; apply (swap_near lt le_trans); [done|done|lia]|].
      exists h2, m. rewrite E1 in R2. split_and!; try done. destruct m; [done|]. eapply up_done; [done|by left]. }
  cbn [mbind option_bind]. destruct (pop_last h2 n (arr h) 0 a R1 Hlen ltac:(lia) Ha R2 R3) as (x & h' & E & O & Hh' & P).
  exists x, h', a. split_and!; try done. intros b Hb. apply list_elem_of_lookup in Hb as [k Hk].
  apply (root_least lt le_trans lt_asym (arr h) (S n) a Hh ltac:(lia) Ha k b); [apply lookup_lt_Some in Hk; lia|done].
Qed.

Lemma heapRemove_spec h i a : isHeap h → arr h !! i = Some a → ∃ x h', heapRemove h i = Some (x, h') ∧ out h' x a ∧ isHeap h' ∧ a :: arr h' ≡ₚ arr h.
Proof.
  intros [Hi Hh] Ha. unfold heapRemove. rewrite (Len_arr _ Hi). pose proof (lookup_lt_Some _ _ _ Ha) as Hlt.
  assert (Hlen : length (arr h) = S (length (arr h) - 1)) by lia. set (n := length (arr h) - 1) in *. rewrite Hlen in Hh.
  destruct (Nat.eqb_spec n i) as [<-|Hni].
  - cbn [mbind option_bind]. apply (pop_last h n (arr h) n a); [done|done|lia|done| |].
    + assert (swapAt (arr h) n n = arr h) as ->; [|by split]. unfold swapAt. rewrite Ha. by rewrite !list_insert_id by (rewrite ?list_insert_id by done; done).
    + intros k Hk. apply Hh. lia.
  - destruct (Swap_arr h i n Hi) as (h1 & -> & Hi1 & E1); [lia|lia|]. cbn [mbind option_bind].
    destruct (down_spec h1 i n) as (h2 & m & -> & R1 & R2 & R3); [done|rewrite E1, length_swapAt; lia|lia|rewrite E1; apply (swap_near lt le_trans); [done|done|lia]|].
    cbn [mbind option_bind]. rewrite E1 in R2. destruct m.
    + cbn [mbind option_bind]. apply (pop_last h2 n (arr h) i a); try done. lia.
    + destruct (up_spec (S i) h2 i n) as (h3 & -> & S1 & S2 & S3); [done|lia|lia|rewrite (sameUpTo_length _ _ _ R2), length_swapAt; lia|done|].
      cbn [mbind option_bind]. apply (pop_last h3 n (arr h) i a); try done; [lia|]. by eapply sameUpTo_trans.
Qed.
End package.
