(* ===== verification/FeeHeap.v ===== *)
(** * The fee-rate heap of the mempool (src/node/mempool/fee_heap.go)

    The heap is an array of pointers to entries, each of which records its
    position; [indexMap] finds an entry by the hash of its transaction.  The
    entries live in a store, so that the array and the map share them as in the
    source.  The array is an implementation of the heap interface of GoHeap, and
    the heap with its map is a priority queue: a finite map from hashes to fee
    rates and sizes, from which [PopMin] takes a least element. *)
From Stdlib Require Import ZArith Lia Strings.Byte.
From stdpp Require Import base gmap list.
From S2P Require Import Prelude Taproot GoHeap.
Open Scope Z_scope.

Record txFeeRateEntry := mkFeeRateEntry {
  fe_txHash : bytes;
  fe_feePerKB : Z;
  fe_txSize : Z;
  fe_index : Z }.
Definition setIndex (i : Z) (e : txFeeRateEntry) : txFeeRateEntry :=
  mkFeeRateEntry (fe_txHash e) (fe_feePerKB e) (fe_txSize e) i.

(** The store of entries and the slice of pointers. *)
Record feeRateEntries := mkFeeRateEntries {
  fr_objs : gmap nat txFeeRateEntry;
  fr_slice : list nat }.

Definition entryAt (h : feeRateEntries) (i : nat) : option txFeeRateEntry := p ← fr_slice h !! i; fr_objs h !! p.

Definition feeLess (a b : txFeeRateEntry) : bool :=
  if fe_feePerKB a =? fe_feePerKB b
  then match bytesCompare (fe_txHash a) (fe_txHash b) with Lt => true | _ => false end
  else fe_feePerKB a <? fe_feePerKB b.

Definition Less (h : feeRateEntries) (i j : nat) : option bool :=
  a ← entryAt h i; b ← entryAt h j; Some (feeLess a b).
Definition Swap (h : feeRateEntries) (i j : nat) : option feeRateEntries :=
  p ← fr_slice h !! i; q ← fr_slice h !! j;
  let objs := alter (setIndex (Z.of_nat i)) q (fr_objs h) in
  Some (mkFeeRateEntries (alter (setIndex (Z.of_nat j)) p objs) (<[i := q]> (<[j := p]> (fr_slice h)))).
Definition Push (h : feeRateEntries) (entry : nat) : feeRateEntries :=
  mkFeeRateEntries (alter (setIndex (Z.of_nat (length (fr_slice h)))) entry (fr_objs h)) (fr_slice h ++ [entry]).
Definition Pop (h : feeRateEntries) : option (nat * feeRateEntries) :=
  match last (fr_slice h) with
  | Some entry => Some (entry, mkFeeRateEntries (alter (setIndex (-1)) entry (fr_objs h)) (take (length (fr_slice h) - 1) (fr_slice h)))
  | None => None
  end.

#[export] Instance feeRateInterface : HeapInterface feeRateEntries nat := {|
  hp_Len h := length (fr_slice h); hp_Less := Less; hp_Swap := Swap; hp_Push := Push; hp_Pop := Pop |}.

(** The heap with its index; [th_next] is the next free address. *)
Record txFeeRateHeap := mkFeeRateHeap {
  th_entries : feeRateEntries;
  th_indexMap : gmap bytes nat;
  th_next : nat }.

Definition newTxFeeRateHeap : txFeeRateHeap := mkFeeRateHeap (mkFeeRateEntries ∅ []) ∅ 0.
Definition Len (h : txFeeRateHeap) : nat := length (fr_slice (th_entries h)).
Definition Add (h : txFeeRateHeap) (txHash : bytes) (feePerKB txSize : Z) : option txFeeRateHeap :=
  match th_indexMap h !! txHash with
  | Some _ => Some h
  | None =>
      let entry := th_next h in
      let objs := <[entry := mkFeeRateEntry txHash feePerKB txSize 0]> (fr_objs (th_entries h)) in
      entries ← heapPush (mkFeeRateEntries objs (fr_slice (th_entries h))) entry;
      Some (mkFeeRateHeap entries (<[txHash := entry]> (th_indexMap h)) (S (th_next h)))
  end.
(** The result is the pointer, or nil; the entry is read where it is used. *)
Definition PopMin (h : txFeeRateHeap) : option (option txFeeRateEntry * txFeeRateHeap) :=
  if (Len h =? 0)%nat then Some (None, h) else
  '(p, entries) ← heapPop (th_entries h);
  entry ← fr_objs entries !! p;
  Some (Some entry, mkFeeRateHeap entries (delete (fe_txHash entry) (th_indexMap h)) (th_next h)).
(** [heap.Remove] with an index out of range panics: the index of an entry that
    left the heap is -1. *)
Definition Remove (h : txFeeRateHeap) (txHash : bytes) : option txFeeRateHeap :=
  match th_indexMap h !! txHash with
  | None => Some h
  | Some p =>
      entry ← fr_objs (th_entries h) !! p;
      if fe_index entry <? 0 then None else
      '(_, entries) ← heapRemove (th_entries h) (Z.to_nat (fe_index entry));
      Some (mkFeeRateHeap entries (delete txHash (th_indexMap h)) (th_next h))
  end.

(** ** The order on entries *)
Lemma bytesCompare_refl a : bytesCompare a a = Eq.
Proof. induction a as [|x a IH]; [done|]. cbn. by rewrite Z.compare_refl. Qed.
Lemma bytesCompare_trans a b c : bytesCompare a b ≠ Gt → bytesCompare b c ≠ Gt → bytesCompare a c ≠ Gt.
Proof.
  revert b c. induction a as [|x a IH]; intros [|y b] [|z c]; cbn; try done. intros H1 H2.
  destruct (Z.compare_spec (b2z x) (b2z y)), (Z.compare_spec (b2z y) (b2z z)), (Z.compare_spec (b2z x) (b2z z)); try done; try lia. by apply (IH b).
Qed.

(** The part of an entry that does not change, with its address. *)
Record item := mkItem { it_ptr : nat; it_hash : bytes; it_fee : Z; it_size : Z }.
Definition itemLt (a b : item) : bool :=
  if it_fee a =? it_fee b then match bytesCompare (it_hash a) (it_hash b) with Lt => true | _ => false end else it_fee a <? it_fee b.
(** No greater fee rate and, at the same rate, no greater hash. *)
Definition itemLe (a b : item) : Prop := it_fee a < it_fee b ∨ it_fee a = it_fee b ∧ bytesCompare (it_hash a) (it_hash b) ≠ Gt.

Lemma itemLe_lt a b : itemLt b a = false ↔ itemLe a b.
Proof.
  unfold itemLt, itemLe. rewrite (bytesCompare_swap (it_hash a) (it_hash b)).
  destruct (Z.eqb_spec (it_fee b) (it_fee a)) as [E|E].
  - destruct (bytesCompare (it_hash a) (it_hash b)); cbn; intuition (try done; lia).
  - rewrite Z.ltb_ge. intuition lia.
Qed.
Lemma itemLt_asym a b : itemLt a b = true → itemLt b a = false.
Proof.
  intros H. apply itemLe_lt. unfold itemLt in H. unfold itemLe. destruct (Z.eqb_spec (it_fee a) (it_fee b)) as [E|E].
  - right. split; [done|]. by destruct (bytesCompare (it_hash a) (it_hash b)).
  - left. lia.
Qed.
Lemma itemLe_trans a b c : itemLe a b → itemLe b c → itemLe a c.
Proof. unfold itemLe. intros [H|[H H']] [G|[G G']]; [lia..|]. right. split; [lia|]. by eapply bytesCompare_trans. Qed.

(** ** The array implements the heap interface *)
Definition itemAt (objs : gmap nat txFeeRateEntry) (p : nat) : item :=
  match objs !! p with
  | Some e => mkItem p (fe_txHash e) (fe_feePerKB e) (fe_txSize e)
  | None => mkItem p [] 0 0
  end.
Definition items (h : feeRateEntries) : list item := itemAt (fr_objs h) <$> fr_slice h.
(** Every entry is in the store and knows its position. *)
Definition indexed (h : feeRateEntries) : Prop :=
  ∀ i p, fr_slice h !! i = Some p → ∃ e, fr_objs h !! p = Some e ∧ fe_index e = Z.of_nat i.

Lemma itemAt_setIndex objs p i q : itemAt (alter (setIndex i) p objs) q = itemAt objs q.
Proof.
  unfold itemAt. destruct (decide (p = q)) as [<-|Hn]; [rewrite lookup_alter_eq; by destruct (objs !! p)|by rewrite lookup_alter_ne].
Qed.
Lemma items_setIndex objs p i (l : list nat) : itemAt (alter (setIndex i) p objs) <$> l = itemAt objs <$> l.
Proof. apply list_fmap_ext. intros ? ? _. apply itemAt_setIndex. Qed.
Lemma swapAt_fmap {A B} (f : A → B) (l : list A) i j : swapAt (f <$> l) i j = f <$> swapAt l i j.
Proof.
  unfold swapAt. rewrite !list_lookup_fmap. destruct (l !! i), (l !! j); cbn; rewrite ?list_fmap_insert; done.
Qed.
Lemma indexed_inj h i j p : indexed h → fr_slice h !! i = Some p → fr_slice h !! j = Some p → i = j.
Proof. intros Hx Hi Hj. destruct (Hx _ _ Hi) as (e & E & F), (Hx _ _ Hj) as (e' & E' & F'). rewrite E in E'. injection E' as <-. lia. Qed.

Lemma Less_items h i j a b : indexed h → items h !! i = Some a → items h !! j = Some b → Less h i j = Some (itemLt a b).
Proof.
  intros Hx Ha Hb. apply list_lookup_fmap_Some in Ha as (p & -> & Hp). apply list_lookup_fmap_Some in Hb as (q & -> & Hq).
  destruct (Hx _ _ Hp) as (e & E & _), (Hx _ _ Hq) as (f & F & _). unfold Less, entryAt. rewrite Hp, Hq. cbn. rewrite E, F. cbn.
  unfold itemAt. by rewrite E, F.
Qed.
Lemma Swap_items h i j : indexed h → (i < length (items h))%nat → (j < length (items h))%nat →
  ∃ h', Swap h i j = Some h' ∧ indexed h' ∧ items h' = swapAt (items h) i j.
Proof.
  unfold items. rewrite length_fmap. intros Hx Hi Hj. destruct (lookup_lt_is_Some_2 _ _ Hi) as [p Hp], (lookup_lt_is_Some_2 _ _ Hj) as [q Hq].
  unfold Swap. rewrite Hp, Hq. cbn. eexists. split; [done|]. split.
  - intros k r Hk. cbn in *. destruct (Hx _ _ Hp) as (e & E & Ei), (Hx _ _ Hq) as (f & F & Fi).
    destruct (decide (k = i)) as [->|Hki]; [|destruct (decide (k = j)) as [->|Hkj]].
    + rewrite list_lookup_insert_eq in Hk by (by rewrite length_insert). injection Hk as <-. destruct (decide (p = q)) as [<-|Hn].
      * assert (i = j) as <- by (by eapply indexed_inj). rewrite !lookup_alter_eq, E. by eexists.
      * rewrite lookup_alter_ne, lookup_alter_eq, F by done. by eexists.
    + rewrite list_lookup_insert_ne, list_lookup_insert_eq in Hk by done. injection Hk as <-. rewrite lookup_alter_eq.
      destruct (decide (q = p)) as [->|]; [exfalso; by eapply Hki, indexed_inj|]. rewrite lookup_alter_ne, E by done. by eexists.
    + rewrite !list_lookup_insert_ne in Hk by done. rewrite !lookup_alter_ne; [by apply Hx|..]; intros ->; [apply Hkj|apply Hki]; by eapply indexed_inj.
  - cbn. rewrite !items_setIndex, swapAt_fmap. unfold swapAt. by rewrite Hp, Hq.
Qed.
Lemma Push_items h x e : indexed h → fr_objs h !! x = Some e → x ∉ fr_slice h → indexed (Push h x) ∧ items (Push h x) = items h ++ [itemAt (fr_objs h) x].
Proof.
  intros Hx He Hn. split.
  - intros i p. cbn. intros Hp. apply lookup_app_Some in Hp as [Hp|[Hl Hp]].
    + rewrite lookup_alter_ne; [by apply Hx|]. intros ->. apply Hn. by eapply list_elem_of_lookup_2.
    + apply list_lookup_singleton_Some in Hp as [Hi <-]. rewrite lookup_alter_eq, He. eexists. split; [done|]. cbn. lia.
  - unfold items. cbn. by rewrite items_setIndex, fmap_app.
Qed.
(** The pointer [Pop] returns: its entry is still in the store. *)
Definition poppedEntry (h : feeRateEntries) (x : nat) (a : item) : Prop :=
  x = it_ptr a ∧ ∃ e, fr_objs h !! x = Some e ∧ a = mkItem x (fe_txHash e) (fe_feePerKB e) (fe_txSize e).
Lemma Pop_items h l a : indexed h → items h = l ++ [a] → ∃ x h', Pop h = Some (x, h') ∧ poppedEntry h' x a ∧ indexed h' ∧ items h' = l.
Proof.
  intros Hx Hl. apply fmap_app_inv in Hl as (s & t & -> & Ha & Hs). destruct t as [|p [|]]; [done| |done]. injection Ha as ->.
  destruct (Hx (length s) p) as (e & He & _); [rewrite Hs; by apply list_lookup_middle|].
  unfold Pop. rewrite Hs, last_snoc. eexists _, _. split; [done|].
  split; [unfold poppedEntry, itemAt; cbn; rewrite lookup_alter_eq, He; split; [done|by eexists]|].
  rewrite length_app. cbn. rewrite Nat.add_sub, take_app_length. split.
  - intros i q Hq. cbn in *. assert (Hi : fr_slice h !! i = Some q) by (rewrite Hs; by apply lookup_app_l_Some). rewrite lookup_alter_ne; [by apply Hx|].
    intros ->. apply lookup_lt_Some in Hq. assert (i = length s); [|lia]. eapply indexed_inj; [done..|]. rewrite Hs. by apply list_lookup_middle.
  - unfold items. cbn. by rewrite items_setIndex.
Qed.

(** A pointer may be pushed when it is in the store and not in the array. *)
Definition newEntry (h : feeRateEntries) (x : nat) (a : item) : Prop :=
  is_Some (fr_objs h !! x) ∧ x ∉ fr_slice h ∧ a = itemAt (fr_objs h) x.
#[export] Instance feeRateLaws : HeapLaws feeRateEntries nat item itemLt items indexed newEntry poppedEntry.
Proof.
  split.
  - apply itemLt_asym.
  - intros a b c. rewrite !itemLe_lt. apply itemLe_trans.
  - intros h _. cbn. unfold items. by rewrite length_fmap.
  - apply Less_items.
  - apply Swap_items.
  - intros h x a Hi ([e He] & Hn & ->). by eapply Push_items.
  - apply Pop_items.
Qed.

(** ** The heap as a priority queue *)
(** [h] holds the fee rates and sizes of [m]. *)
Record feeHeap (m : gmap bytes (Z * Z)) (h : txFeeRateHeap) : Prop := {
  fh_heap : isHeap (th_entries h) (lt := itemLt) (arr := items) (inv := indexed);
  fh_items x f s : m !! x = Some (f, s) ↔ ∃ p, mkItem p x f s ∈ items (th_entries h);
  fh_index x p : th_indexMap h !! x = Some p ↔ ∃ f s, mkItem p x f s ∈ items (th_entries h);
  fh_fresh a : a ∈ items (th_entries h) → (it_ptr a < th_next h)%nat }.

Lemma it_ptr_itemAt objs p : it_ptr (itemAt objs p) = p.
Proof. unfold itemAt. by destruct (objs !! p). Qed.
Lemma items_NoDup h : indexed h → NoDup (items h).
Proof.
  intros Hx. unfold items. apply NoDup_fmap_2_strong.
  - intros p q _ _ E. by rewrite <- (it_ptr_itemAt (fr_objs h) p), E, it_ptr_itemAt.
  - apply NoDup_alt. intros i j p. by apply indexed_inj.
Qed.
Lemma feeHeap_fun m h a b : feeHeap m h → a ∈ items (th_entries h) → b ∈ items (th_entries h) → it_hash a = it_hash b → a = b.
Proof.
  intros [_ Hm Hx _] Ha Hb E. destruct a as [p x f s], b as [q y g t]. cbn in E. subst y.
  assert (Hp : m !! x = Some (f, s)) by (apply Hm; by eexists). assert (Hq : m !! x = Some (g, t)) by (apply Hm; by eexists).
  assert (Ip : th_indexMap h !! x = Some p) by (apply Hx; by eexists _, _). assert (Iq : th_indexMap h !! x = Some q) by (apply Hx; by eexists _, _). congruence.
Qed.
(** An entry leaves the heap. *)
Lemma feeHeap_delete m h a e : feeHeap m h → isHeap e (lt := itemLt) (arr := items) (inv := indexed) → a :: items e ≡ₚ items (th_entries h) →
  feeHeap (delete (it_hash a) m) (mkFeeRateHeap e (delete (it_hash a) (th_indexMap h)) (th_next h)).
Proof.
  intros Hf He Hp. assert (Hin : ∀ b, b ∈ items e ↔ b ∈ items (th_entries h) ∧ it_hash b ≠ it_hash a).
  { intros b. rewrite <- Hp, elem_of_cons. assert (Ha : a ∈ items (th_entries h)) by (rewrite <- Hp; by left).
    assert (Hn : NoDup (a :: items e)) by (rewrite Hp; apply items_NoDup, Hf). apply NoDup_cons in Hn as [Hn _]. split.
    - intros Hb. split; [by right|]. intros E. apply Hn. rewrite <- (feeHeap_fun m h b a); try done. rewrite <- Hp. by right.
    - by intros [[->|Hb] Hne]. }
  split; cbn.
  - done.
  - intros x f s. rewrite lookup_delete_Some, (fh_items _ _ Hf). setoid_rewrite Hin. cbn. naive_solver.
  - intros x p. rewrite lookup_delete_Some, (fh_index _ _ Hf). setoid_rewrite Hin. cbn. naive_solver.
  - intros b Hb. apply Hin in Hb as [Hb _]. by apply (fh_fresh _ _ Hf).
Qed.

Lemma feeHeap_new : feeHeap ∅ newTxFeeRateHeap.
Proof.
  split; cbn.
  - split; [intros i p; done|intros k; cbn; lia].
  - intros x f s. rewrite lookup_empty. split; [done|]. by intros [p Hp%elem_of_nil].
  - intros x p. rewrite lookup_empty. split; [done|]. by intros (f & s & Hp%elem_of_nil).
  - by intros a Ha%elem_of_nil.
Qed.

Lemma Add_spec m h x f s : feeHeap m h → m !! x = None → ∃ h', Add h x f s = Some h' ∧ feeHeap (<[x := (f, s)]> m) h'.
Proof.
  intros Hf Hx. unfold Add. destruct (th_indexMap h !! x) as [q|] eqn:Eq.
  { apply (fh_index _ _ Hf) in Eq as (f' & s' & Hq). assert (m !! x = Some (f', s')) by (apply (fh_items _ _ Hf); by eexists). congruence. }
  set (n := th_next h). set (e0 := mkFeeRateEntries (<[n := mkFeeRateEntry x f s 0]> (fr_objs (th_entries h))) (fr_slice (th_entries h))).
  assert (Hn : ∀ p, p ∈ fr_slice (th_entries h) → p ≠ n).
  { intros p Hp ->. pose proof (fh_fresh _ _ Hf (itemAt (fr_objs (th_entries h)) n)) as Hl. rewrite it_ptr_itemAt in Hl. unfold n in *.
    specialize (Hl (list_elem_of_fmap_2 _ _ _ Hp)). lia. }
  assert (He : items e0 = items (th_entries h)).
  { apply list_fmap_ext. intros i p Hp. unfold itemAt. cbn. rewrite lookup_insert_ne; [done|]. apply not_eq_sym, Hn. by eapply list_elem_of_lookup_2. }
  assert (H0 : isHeap e0 (lt := itemLt) (arr := items) (inv := indexed)).
  { destruct (fh_heap _ _ Hf) as [Hi Ho]. split; [|by rewrite He]. intros i p Hp. cbn in *. rewrite lookup_insert_ne; [by apply Hi|].
    apply not_eq_sym, Hn. by eapply list_elem_of_lookup_2. }
  destruct (heapPush_spec e0 n (mkItem n x f s) H0) as (e & E & Hh & Hp).
  { split; [cbn; rewrite lookup_insert_eq; by eexists|]. split; [intros Hi; by apply (Hn n)|]. unfold itemAt. cbn. by rewrite lookup_insert_eq. }
  rewrite E. cbn. eexists. split; [done|]. rewrite He in Hp. split; cbn; [done|..].
  - intros y g t. setoid_rewrite Hp. setoid_rewrite elem_of_cons. rewrite lookup_insert_Some, (fh_items _ _ Hf). split.
    + intros [[-> [= -> ->]]|[Hne [p Hi]]]; [exists n; by left|exists p; by right].
    + intros [p [[= -> -> -> ->]|Hi]]; [by left|]. right. split; [|by exists p]. intros ->.
      assert (m !! y = Some (g, t)); [|congruence]. apply (fh_items _ _ Hf). by exists p.
  - intros y p. setoid_rewrite Hp. setoid_rewrite elem_of_cons. rewrite lookup_insert_Some, (fh_index _ _ Hf). split.
    + intros [[-> <-]|[Hne (g & t & Hi)]]; [exists f, s; by left|exists g, t; by right].
    + intros (g & t & [[= -> -> -> ->]|Hi]); [by left|]. right. split; [|by exists g, t]. intros ->.
      assert (m !! y = Some (g, t)); [|congruence]. apply (fh_items _ _ Hf). by exists p.
  - intros a Ha. rewrite Hp in Ha. apply elem_of_cons in Ha as [->|Ha]; [cbn; lia|]. pose proof (fh_fresh _ _ Hf a Ha). unfold n. lia.
Qed.

Lemma Remove_spec m h x : feeHeap m h → ∃ h', Remove h x = Some h' ∧ feeHeap (delete x m) h'.
Proof.
  intros Hf. unfold Remove. destruct (th_indexMap h !! x) as [p|] eqn:Ep.
  - apply (fh_index _ _ Hf) in Ep as (f & s & Ha). pose proof Ha as (p' & E & Hp)%list_elem_of_fmap.
    assert (p' = p) as -> by (by rewrite <- (it_ptr_itemAt (fr_objs (th_entries h)) p'), <- E).
    apply list_elem_of_lookup_1 in Hp as [i Hi]. destruct (fh_heap _ _ Hf) as [Hx Ho]. destruct (Hx i p Hi) as (e & He & Ei). rewrite He. cbn [mbind option_bind].
    rewrite Ei, (proj2 (Z.ltb_ge _ _)), Nat2Z.id by lia.
    destruct (heapRemove_spec (th_entries h) i (mkItem p x f s)) as (q & e' & -> & _ & Hh & Hperm); [by split|unfold items; by rewrite list_lookup_fmap, Hi, E|].
    cbn [mbind option_bind]. eexists. split; [done|]. by apply (feeHeap_delete m h (mkItem p x f s) e').
  - exists h. split; [done|]. rewrite delete_id; [done|]. destruct (m !! x) as [[f s]|] eqn:E; [|done]. apply (fh_items _ _ Hf) in E as [p Hp].
    assert (th_indexMap h !! x = Some p); [|congruence]. apply (fh_index _ _ Hf). by exists f, s.
Qed.

Lemma Len_zero m h : feeHeap m h → Len h = 0%nat ↔ m = ∅.
Proof.
  intros Hf. unfold Len. rewrite <- (length_fmap (itemAt (fr_objs (th_entries h)))). rewrite length_zero_iff_nil. split.
  - intros E. apply map_empty. intros x. destruct (m !! x) as [[f s]|] eqn:Ex; [|done]. apply (fh_items _ _ Hf) in Ex as [p Hp]. unfold items in Hp. rewrite E in Hp. by apply elem_of_nil in Hp.
  - intros ->. destruct (itemAt _ <$> _) as [|[p x f s] l] eqn:E; [done|]. assert ((∅ : gmap bytes (Z * Z)) !! x = Some (f, s)); [|done].
    apply (fh_items _ _ Hf). exists p. unfold items. rewrite E. by left.
Qed.

Lemma Len_size m h : feeHeap m h → Len h = size m.
Proof.
  intros Hf. set (f a := (it_hash a, (it_fee a, it_size a))). pose proof (items_NoDup _ (proj1 (fh_heap _ _ Hf))) as Hnd.
  assert (Hfst : NoDup (f <$> items (th_entries h)).*1).
  { rewrite <- list_fmap_compose. apply NoDup_fmap_2_strong; [|done]. intros a b Ha Hb E. by eapply feeHeap_fun. }
  assert (Hm : m = list_to_map (f <$> items (th_entries h))).
  { apply map_eq. intros x. apply option_eq. intros [g t]. rewrite (fh_items _ _ Hf), <- elem_of_list_to_map by done. rewrite list_elem_of_fmap. split.
    - intros [p Hp]. by eexists (mkItem p x g t).
    - intros ([p y g' t'] & [= -> -> ->] & Hp). by exists p. }
  rewrite Hm, <- length_map_to_list, map_to_list_to_map, length_fmap by done. unfold Len, items. by rewrite length_fmap.
Qed.

(** The order in which transactions are evicted. *)
Definition cheaper (x : bytes) (f : Z) (y : bytes) (g : Z) : Prop := f < g ∨ f = g ∧ bytesCompare x y ≠ Gt.

Lemma PopMin_spec m h : feeHeap m h → m ≠ ∅ → ∃ e h', PopMin h = Some (Some e, h')
  ∧ m !! fe_txHash e = Some (fe_feePerKB e, fe_txSize e) ∧ feeHeap (delete (fe_txHash e) m) h'
  ∧ ∀ y g t, m !! y = Some (g, t) → cheaper (fe_txHash e) (fe_feePerKB e) y g.
Proof.
  intros Hf Hne. unfold PopMin. destruct (Nat.eqb_spec (Len h) 0) as [E|E]; [by apply (Len_zero m) in E|].
  destruct (heapPop_spec (th_entries h)) as (p & e & a & -> & [Hp (o & Ho & Ha)] & Hh & Hperm & _ & Hmin); [apply Hf|intros E'; apply E; unfold Len; rewrite <- (length_fmap (itemAt (fr_objs (th_entries h)))); unfold items in E'; by rewrite E'|].
  cbn [mbind option_bind]. rewrite Ho. cbn [mbind option_bind]. exists o. eexists. split; [done|]. subst a. cbn in Hp.
  assert (Hin : mkItem p (fe_txHash o) (fe_feePerKB o) (fe_txSize o) ∈ items (th_entries h)) by (rewrite <- Hperm; by left). split_and!.
  - apply (fh_items _ _ Hf). by exists p.
  - by apply (feeHeap_delete m h (mkItem p (fe_txHash o) (fe_feePerKB o) (fe_txSize o)) e).
  - intros y g t Hy. apply (fh_items _ _ Hf) in Hy as [q Hq]. by apply Hmin, itemLe_lt in Hq.
Qed.

Lemma Add_exists m h x f s v : feeHeap m h → m !! x = Some v → Add h x f s = Some h.
Proof.
  intros Hf Hx. destruct v as [g t]. apply (fh_items _ _ Hf) in Hx as [p Hp]. unfold Add.
  by rewrite (proj2 (fh_index _ _ Hf x p)) by (by exists g, t).
Qed.

(** ** Sequences of operations *)
Inductive heapOp := OpAdd (txHash : bytes) (feePerKB txSize : Z) | OpRemove (txHash : bytes) | OpPopMin.
Definition heapStep (h : txFeeRateHeap) (op : heapOp) : option (option txFeeRateEntry * txFeeRateHeap) :=
  match op with
  | OpAdd x f s => h' ← Add h x f s; Some (None, h')
  | OpRemove x => h' ← Remove h x; Some (None, h')
  | OpPopMin => PopMin h
  end.
Fixpoint heapRun (h : txFeeRateHeap) (ops : list heapOp) : option (list (option txFeeRateEntry) * txFeeRateHeap) :=
  match ops with
  | [] => Some ([], h)
  | op :: ops' =>
      '(r, h) ← heapStep h op;
      '(rs, h) ← heapRun h ops';
      Some (r :: rs, h)
  end.

(** The abstract queue: [Add] keeps an entry that is there, [PopMin] takes an
    entry that is no dearer than any other. *)
Inductive queueStep (m : gmap bytes (Z * Z)) : heapOp → option (bytes * Z * Z) → gmap bytes (Z * Z) → Prop :=
| QAdd x f s : m !! x = None → queueStep m (OpAdd x f s) None (<[x := (f, s)]> m)
| QAddAgain x f s : is_Some (m !! x) → queueStep m (OpAdd x f s) None m
| QRemove x : queueStep m (OpRemove x) None (delete x m)
| QPopEmpty : m = ∅ → queueStep m OpPopMin None m
| QPop x f s : m !! x = Some (f, s) → (∀ y g t, m !! y = Some (g, t) → cheaper x f y g) → queueStep m OpPopMin (Some (x, f, s)) (delete x m).
Inductive queueRun : gmap bytes (Z * Z) → list heapOp → list (option (bytes * Z * Z)) → gmap bytes (Z * Z) → Prop :=
| QNil m : queueRun m [] [] m
| QCons m op r m' ops rs m'' : queueStep m op r m' → queueRun m' ops rs m'' → queueRun m (op :: ops) (r :: rs) m''.

Definition popped (r : option txFeeRateEntry) : option (bytes * Z * Z) :=
  (λ e, (fe_txHash e, fe_feePerKB e, fe_txSize e)) <$> r.

Lemma heapStep_refines m h op : feeHeap m h → ∃ r h' m', heapStep h op = Some (r, h') ∧ queueStep m op (popped r) m' ∧ feeHeap m' h'.
Proof.
  intros Hf. destruct op as [x f s|x|]; cbn [heapStep].
  - destruct (m !! x) as [v|] eqn:E.
    + rewrite (Add_exists m h x f s v) by done. eexists None, h, m. split; [done|]. split; [constructor; by eexists|done].
    + destruct (Add_spec m h x f s Hf E) as (h' & -> & Hf'). eexists None, h', _. split; [done|]. split; [by constructor|done].
  - destruct (Remove_spec m h x Hf) as (h' & -> & Hf'). eexists None, h', _. split; [done|]. split; [by constructor|done].
  - destruct (decide (m = ∅)) as [->|Hne].
    + eexists None, h, ∅. split; [|split; [by constructor|done]]. unfold PopMin. by rewrite (proj2 (Len_zero ∅ h Hf)).
    + destruct (PopMin_spec m h Hf Hne) as (e & h' & -> & Hm & Hf' & Hmin). eexists (Some e), h', _. split; [done|]. split; [|done]. by econstructor.
Qed.

(** C17. The fee-rate heap is a priority queue.  Any sequence of [Add], [Remove]
    and [PopMin] on a new heap runs without a fault: no index is out of range and
    no entry is missing.  The results are those of a finite map from transaction
    hashes to fee rates and sizes in which [PopMin] takes an entry of the lowest
    fee rate, of the least hash among equals, and [Remove] takes exactly the entry
    of the given hash; at the end the heap holds the entries of that map. *)
Theorem fee_heap_refines_queue ops : ∃ rs h m, heapRun newTxFeeRateHeap ops = Some (rs, h)
  ∧ queueRun ∅ ops (popped <$> rs) m ∧ feeHeap m h.
Proof.
  assert (Hgen : ∀ m h, feeHeap m h → ∃ rs h' m', heapRun h ops = Some (rs, h') ∧ queueRun m ops (popped <$> rs) m' ∧ feeHeap m' h');
    [|apply Hgen, feeHeap_new].
  induction ops as [|op ops IH]; intros m h Hf; cbn [heapRun].
  - exists [], h, m. split; [done|]. split; [constructor|done].
  - destruct (heapStep_refines m h op Hf) as (r & h1 & m1 & -> & Hs & Hf1). cbn [mbind option_bind].
    destruct (IH m1 h1 Hf1) as (rs & h2 & m2 & -> & Hr & Hf2). cbn [mbind option_bind]. eexists (r :: rs), h2, m2. split; [done|]. split; [by econstructor|done].
Qed.
