(* ===== verification/MempoolPolicy.v ===== *)
(** * Mempool policy and errors (src/node/mempool/policy.go, error.go)

    The relay fee, the dust limit and the standardness rules, with the reject
    codes they report.  Amounts are int64 and wrap as in Go. *)
From Stdlib Require Import ZArith Lia Strings.Byte.
From stdpp Require Import base list gmap.
From S2P Require Import Prelude RuleErrors WireTx Merkle Script Utxo Covenant TxRules.
Import Bounty InferenceGo.
Open Scope Z_scope.

(** ** Errors *)
Inductive RejectCode := RejectMalformed | RejectInvalid | RejectObsolete | RejectDuplicate
  | RejectNonstandard | RejectDust | RejectInsufficientFee | RejectCheckpoint.
#[export] Instance RejectCode_eq_dec : EqDecision RejectCode.
Proof. solve_decision. Defined.
Definition rejectCodeValue (c : RejectCode) : Z :=
  match c with
  | RejectMalformed => 0x01 | RejectInvalid => 0x10 | RejectObsolete => 0x11 | RejectDuplicate => 0x12
  | RejectNonstandard => 0x40 | RejectDust => 0x41 | RejectInsufficientFee => 0x42 | RejectCheckpoint => 0x43
  end.

(** The mempool's [RuleError] wraps a [TxRuleError] or an error of the chain;
    other errors are returned as they are. *)
Inductive mperr := TxRuleError (c : RejectCode) | ChainError (c : ErrorCode) | PlainErr (e : verr).
#[export] Instance mperr_eq_dec : EqDecision mperr.
Proof. solve_decision. Defined.
Definition txRuleError {A} (c : RejectCode) : res mperr A := Err (TxRuleError c).
(** [if cerr, ok := err.(blockchain.RuleError); ok { chainRuleError(cerr) }] *)
Definition chainRuleError (e : verr) : mperr := match e with RuleError c => ChainError c | e => PlainErr e end.
Definition fromChain {A} (r : res verr A) : res mperr A :=
  match r with Ok a => Ok a | Err e => Err (chainRuleError e) end.

(** [extractRejectCode]; the argument is nil or an error. *)
Definition extractRejectCode (err : option mperr) : RejectCode * bool :=
  match err with
  | Some (ChainError c) | Some (PlainErr (RuleError c)) =>
      (match c with
       | ErrDuplicateBlock => RejectDuplicate
       | ErrBlockVersionTooOld => RejectObsolete
       | ErrCheckpointTimeTooOld | ErrDifficultyTooLow | ErrBadCheckpoint | ErrForkTooOld => RejectCheckpoint
       | _ => RejectInvalid
       end, true)
  | Some (TxRuleError c) => (c, true)
  | _ => (RejectInvalid, false)
  end.
(** The code [ErrToRejectErr] sends with a reject message. *)
Definition ErrToRejectErr (err : option mperr) : RejectCode :=
  let '(rejectCode, found) := extractRejectCode err in
  if found : bool then rejectCode else RejectInvalid.

(** ** Fees *)
Definition maxStandardTxVsize : Z := 100000.
Definition maxStandardSigScriptSize : Z := 1650.
Definition DefaultMinRelayTxFee : Z := 1000.
Definition DefaultMaxMempoolSize : Z := 300 * 1000 * 1000.
Definition maxInt64 : Z := 2 ^ 63 - 1.

Definition calcMinRequiredTxRelayFee (serializedSize minRelayTxFee : Z) : Z :=
  let feeRate := minRelayTxFee in
  if (0 <? feeRate) && (Z.quot maxInt64 feeRate <? serializedSize) then MaxGrain else
  let minFee := Z.quot (i64 (serializedSize * feeRate)) 1000 in
  let minFee := if (minFee =? 0) && (0 <? minRelayTxFee) then minRelayTxFee else minFee in
  if (minFee <? 0) || (MaxGrain <? minFee) then MaxGrain else minFee.

Definition IsWitnessProgram (script : bytes) : bool := bool_decide (is_Some (extractWitnessProgramInfo script)).

Definition GetDustThreshold (txOut : TxOut) : Z :=
  let totalSize := TxOut_SerializeSize txOut + 41 in
  let totalSize := totalSize + (if IsWitnessProgram (to_PkScript txOut) then CalcVsize 0 107 else 107) in
  3 * totalSize.

Definition IsDust (txOut : TxOut) (minRelayTxFee : Z) : bool :=
  if IsUnspendable (to_PkScript txOut) then true else
  let dustThreshold := GetDustThreshold txOut in
  let feeRate := minRelayTxFee in
  if MaxGrain <? to_Value txOut then true else
  if Z.quot maxInt64 1000 <? to_Value txOut then false else
  i64 (to_Value txOut * 1000) <? i64 (dustThreshold * feeRate).

(** ** Standardness *)
(** A nil entry is dereferenced. *)
Definition checkInputsStandard (tx : MsgTx) (utxoView : UtxoViewpoint) : res mperr unit :=
  res_forall (λ txIn,
    match LookupEntry utxoView (ti_PreviousOutPoint txIn) with
    | None => Err (PlainErr RuntimePanic)
    | Some entry =>
        let originPkScript := ue_pkScript entry in
        if IsInferenceBountyScript originPkScript then Ok tt else
        match GetScriptClass originPkScript with
        | NonStandardTy => txRuleError RejectNonstandard
        | _ => Ok tt
        end
    end) (tx_TxIn tx).

Definition checkSigScript (txIn : TxIn) : res mperr unit :=
  let sigScriptLen := zlen (ti_SignatureScript txIn) in
  if maxStandardSigScriptSize <? sigScriptLen then txRuleError RejectNonstandard else
  if negb (IsPushOnlyScript (ti_SignatureScript txIn)) then txRuleError RejectNonstandard else Ok tt.

(** One output; the accumulator counts the data outputs. *)
Definition checkOutStandard (minRelayTxFee : Z) (numNullDataOutputs : nat) (txOut : TxOut) : res mperr nat :=
  let scriptClass := GetScriptClass (to_PkScript txOut) in
  if bool_decide (scriptClass = NonStandardTy) && negb (IsInferenceBountyScript (to_PkScript txOut))
  then txRuleError RejectNonstandard else
  if bool_decide (scriptClass = NullDataTy) then Ok (S numNullDataOutputs) else
  if IsDust txOut minRelayTxFee then txRuleError RejectDust else Ok numNullDataOutputs.

Definition CheckTransactionStandard (msgTx : MsgTx) (height medianTimePast minRelayTxFee maxTxVersion : Z) : res mperr unit :=
  if (maxTxVersion <? tx_Version msgTx) || (tx_Version msgTx <? 1) then txRuleError RejectNonstandard else
  if negb (IsFinalizedTransaction msgTx height medianTimePast) then txRuleError RejectNonstandard else
  if maxStandardTxVsize <? GetTransactionVsize msgTx then txRuleError RejectNonstandard else
  let? _ := res_forall checkSigScript (tx_TxIn msgTx) in
  let? numNullDataOutputs := res_foldl (checkOutStandard minRelayTxFee) O (tx_TxOut msgTx) in
  if (1 <? numNullDataOutputs)%nat then txRuleError RejectNonstandard else Ok tt.

(** ** Facts *)
(** Rounding up to one grain per transaction, the fee a size needs. *)
Definition scaledFee (size rate : Z) : Z := if size * rate / 1000 =? 0 then rate else size * rate / 1000.

Lemma relayFee_eq size rate : 0 <= size → 0 < rate →
  calcMinRequiredTxRelayFee size rate = if maxInt64 <? size * rate then MaxGrain else Z.min MaxGrain (scaledFee size rate).
Proof.
  intros Hs Hr. unfold calcMinRequiredTxRelayFee, scaledFee. rewrite (proj2 (Z.ltb_lt 0 rate) Hr). cbn [andb].
  rewrite Z.quot_div_nonneg by (unfold maxInt64; lia). pose proof (Z.mul_div_le maxInt64 rate Hr). pose proof (Z.mul_succ_div_gt maxInt64 rate Hr).
  destruct (Z.ltb_spec (maxInt64 / rate) size) as [Hb|Hb], (Z.ltb_spec maxInt64 (size * rate)) as [Hm|Hm]; [done|nia|nia|].
  rewrite wrapS_small, Z.quot_div_nonneg by (unfold inS, maxInt64 in *; nia). rewrite andb_true_r.
  pose proof (Z.div_pos (size * rate) 1000 ltac:(nia) ltac:(lia)). unfold MaxGrain, GrainPerMDL.
  destruct (Z.eqb_spec (size * rate / 1000) 0); destruct (_ || _) eqn:E; lia.
Qed.

(** The relay fee is monotone and bounded.  For a positive fee rate the fee a
    transaction must pay is positive, at most the money supply, at least the rate
    times the size in thousands of bytes (or the money supply when that is not an
    amount), and a larger transaction never pays less, but for the full rate that
    sizes which would be free pay; no intermediate product overflows. *)
Lemma relay_fee_bounds size size' rate : 0 <= size → size <= size' → 0 < rate →
  0 < calcMinRequiredTxRelayFee size rate <= MaxGrain
  ∧ Z.min MaxGrain (size * rate / 1000) <= calcMinRequiredTxRelayFee size rate
  ∧ calcMinRequiredTxRelayFee size rate <= Z.max rate (calcMinRequiredTxRelayFee size' rate).
Proof.
  intros Hs Hle Hr. rewrite !relayFee_eq by lia. unfold scaledFee, MaxGrain, GrainPerMDL.
  assert (Hm : size * rate <= size' * rate) by nia. pose proof (Z.div_le_mono _ _ 1000 ltac:(lia) Hm). pose proof (Z.div_pos (size * rate) 1000 ltac:(nia) ltac:(lia)).
  destruct (Z.ltb_spec maxInt64 (size * rate)), (Z.ltb_spec maxInt64 (size' * rate)), (Z.eqb_spec (size * rate / 1000) 0), (Z.eqb_spec (size' * rate / 1000) 0); lia.
Qed.
Lemma relay_fee_bounds_witness : 0 < calcMinRequiredTxRelayFee 250 1000 <= MaxGrain
  ∧ Z.min MaxGrain (250 * 1000 / 1000) <= calcMinRequiredTxRelayFee 250 1000
  ∧ calcMinRequiredTxRelayFee 250 1000 <= Z.max 1000 (calcMinRequiredTxRelayFee 300 1000).
Proof. apply (relay_fee_bounds 250 300 1000); lia. Defined.

Record standardTx (tx : MsgTx) (height mtp minRelayTxFee maxTxVersion : Z) : Prop := {
  st_version : 1 <= tx_Version tx <= maxTxVersion;
  st_final : IsFinalizedTransaction tx height mtp = true;
  st_size : GetTransactionVsize tx <= maxStandardTxVsize;
  st_inputs : Forall (λ ti, zlen (ti_SignatureScript ti) <= maxStandardSigScriptSize ∧ IsPushOnlyScript (ti_SignatureScript ti) = true) (tx_TxIn tx);
  st_outputs : Forall (λ o, GetScriptClass (to_PkScript o) = NullDataTy
      ∨ (GetScriptClass (to_PkScript o) ≠ NonStandardTy ∨ IsInferenceBountyScript (to_PkScript o) = true) ∧ IsDust o minRelayTxFee = false) (tx_TxOut tx);
  st_data : (length (filter (λ o, GetScriptClass (to_PkScript o) = NullDataTy) (tx_TxOut tx)) <= 1)%nat }.

Lemma checkSigScript_ok ti : checkSigScript ti = Ok tt ↔ zlen (ti_SignatureScript ti) <= maxStandardSigScriptSize ∧ IsPushOnlyScript (ti_SignatureScript ti) = true.
Proof. unfold checkSigScript, txRuleError. destruct (Z.ltb_spec maxStandardSigScriptSize (zlen (ti_SignatureScript ti))), (IsPushOnlyScript _); cbn; intuition (done || lia). Qed.

Lemma checkOuts_ok rate outs n k : res_foldl (checkOutStandard rate) n outs = Ok k ↔
  Forall (λ o, GetScriptClass (to_PkScript o) = NullDataTy
      ∨ (GetScriptClass (to_PkScript o) ≠ NonStandardTy ∨ IsInferenceBountyScript (to_PkScript o) = true) ∧ IsDust o rate = false) outs
  ∧ k = (n + length (filter (λ o, GetScriptClass (to_PkScript o) = NullDataTy) outs))%nat.
Proof.
  revert n. induction outs as [|o outs IH]; intros n; cbn [res_foldl].
  - rewrite Forall_nil, filter_nil, Nat.add_0_r. split; [intros [= ->]; done|by intros [_ ->]].
  - rewrite Forall_cons, filter_cons. unfold checkOutStandard at 1, txRuleError.
    destruct (decide (GetScriptClass (to_PkScript o) = NullDataTy)) as [E|E].
    + rewrite E, bool_decide_eq_false_2, bool_decide_eq_true_2 by done. cbn. rewrite IH, Nat.add_succ_r. intuition.
    + rewrite (bool_decide_eq_false_2 _ E).
      destruct (decide (GetScriptClass (to_PkScript o) = NonStandardTy)) as [E'|E'].
      * rewrite (bool_decide_eq_true_2 _ E'). destruct (IsInferenceBountyScript (to_PkScript o)), (IsDust o rate); cbn; rewrite ?IH; intuition congruence.
      * rewrite (bool_decide_eq_false_2 _ E'). destruct (IsDust o rate); cbn; rewrite ?IH; intuition congruence.
Qed.

Lemma ifErr_ok {E A} (c : bool) (e : E) (k : res E A) a : (if c then Err e else k) = Ok a ↔ c = false ∧ k = Ok a.
Proof. destruct c; intuition congruence. Qed.

(** [CheckTransactionStandard] accepts exactly the standard transactions: a
    version in the supported range, final at the next block, at most 100000
    virtual bytes, push-only signature scripts of at most 1650 bytes, outputs that
    carry data or have a known form (a bounty covenant counts) and are not dust,
    and at most one output that carries data. *)
Lemma standard_iff tx height mtp rate maxV :
  CheckTransactionStandard tx height mtp rate maxV = Ok tt ↔ standardTx tx height mtp rate maxV.
Proof.
  unfold CheckTransactionStandard, txRuleError. rewrite !ifErr_ok, orb_false_iff, negb_false_iff, !Z.ltb_ge.
  assert (HI : res_forall checkSigScript (tx_TxIn tx) = Ok tt ↔
    Forall (λ ti, zlen (ti_SignatureScript ti) <= maxStandardSigScriptSize ∧ IsPushOnlyScript (ti_SignatureScript ti) = true) (tx_TxIn tx)).
  { rewrite res_forall_Ok. apply Forall_proper; [intros ti; apply checkSigScript_ok|done]. }
  pose proof (checkOuts_ok rate (tx_TxOut tx) 0) as HO. split.
  - intros ([H1 H2] & H3 & H4 & H5). destruct (res_forall checkSigScript (tx_TxIn tx)) as [[]|]; [|done]. cbn [res_bind] in H5.
    destruct (res_foldl _ _ _) as [k|]; [|done]. cbn [res_bind] in H5. destruct (proj1 (HO k) eq_refl) as [HF ->].
    apply ifErr_ok in H5 as [H5 _]. apply Nat.ltb_ge in H5. by split; try apply HI.
  - intros [H1 H2 H3 H4 H5 H6]. split; [lia|]. split; [done|]. split; [done|]. rewrite (proj2 HI H4). cbn [res_bind].
    rewrite (proj2 (HO _) (conj H5 eq_refl)). cbn [res_bind]. rewrite ifErr_ok. split; [by apply Nat.ltb_ge|done].
Qed.
