(* ===== verification/Mempool.v ===== *)
(** * The transaction pool (src/node/mempool/mempool.go)

    The pool is two stores: the main pool with the outpoints it spends, its size
    and its fee-rate heap, and the orphans with their index by spent outpoint.
    The pointers to transactions are values, since transactions do not change.
    The order of a [range] over a map and the readings of the clock are functions
    of a counter in the state, so that every iteration may have its own order.
    [None] is a fault (a nil dereference or an index out of range) or a recursion
    deeper than the fuel; the theorems show that neither happens. *)
From Stdlib Require Import ZArith Lia Strings.Byte.
From stdpp Require Import base gmap list.
From S2P Require Import Prelude RuleErrors WireTx Merkle Script Utxo Covenant Chaincfg TxRules ScriptVal GoHeap FeeHeap MempoolPolicy.
Open Scope Z_scope.
Open Scope list_scope.

Definition orphanTTL : Z := 15 * 60 * 10 ^ 9.
Definition orphanExpireScanInterval : Z := 5 * 60 * 10 ^ 9.
Definition MaxRBFSequence : Z := 0xfffffffd.
Definition MaxReplacementEvictions : Z := 100.
Definition MinStandardTxNonWitnessSize : Z := 65.
Definition UnminedHeight : Z := 0x7fffffff.

(** The fields of the configuration that are data. *)
Record Policy := mkPolicy {
  MaxTxVersion : Z;
  AcceptNonStd : bool;
  MaxOrphanTxs : Z;
  MaxOrphanTxSize : Z;
  MinRelayTxFee : Z;
  RejectReplacement : bool;
  MaxMempoolSize : Z }.

Record TxDesc := mkTxDesc { td_Tx : MsgTx; td_Added : Z; td_Height : Z; td_Fee : Z; td_FeePerKB : Z }.
Record orphanTx := mkOrphanTx { ot_tx : MsgTx; ot_tag : Z; ot_expiration : Z }.

Record orphanPool := mkOrphanPool {
  orphans : gmap bytes orphanTx;
  orphansByPrev : gmap OutPoint (gmap bytes MsgTx);
  nextExpireScan : Z;
  orphanTick : nat }.
Record mainPool := mkMainPool {
  pool : gmap bytes TxDesc;
  outpoints : gmap OutPoint MsgTx;
  poolBytes : Z;
  feeRateHeap : txFeeRateHeap;
  lastUpdated : Z;
  mainTick : nat }.
Record TxPool := mkTxPool {
  mp_main : mainPool;
  mp_orphans : orphanPool;
  lastEvictedFeeRate : Z }.

(** What an operation reads from outside: the chain, through the functions of the
    configuration, the clock and the order of map iterations. *)
Record Env := mkEnv {
  FetchUtxoView : MsgTx → res verr UtxoViewpoint;
  CheckInferenceBountySpends : option (MsgTx → UtxoViewpoint → res verr unit);
  BestHeight : Z;
  MedianTimePast : Z;
  CalcSequenceLock : MsgTx → UtxoViewpoint → res verr SequenceLock;
  clock : nat → Z;
  order : nat → gset bytes → list bytes }.

Definition foldM {S A} (f : S → A → option S) : S → list A → option S :=
  fix go s l := match l with [] => Some s | a :: l' => s' ← f s a; go s' l' end.

(** The outpoints of the outputs of a transaction, in order. *)
Definition outputsOf (txHash : bytes) (tx : MsgTx) : list OutPoint :=
  (λ i, mkOutPoint txHash (u32 (Z.of_nat i))) <$> seq 0 (length (tx_TxOut tx)).

Section pool.
Context (sha256 : bytes → bytes) (policy : Policy) (env : Env).
Abbreviation TxHash := (TxHash sha256).

(** ** Orphans *)
Definition setIndexed (byPrev : gmap OutPoint (gmap bytes MsgTx)) (o : orphanPool) : orphanPool :=
  mkOrphanPool (orphans o) byPrev (nextExpireScan o) (orphanTick o).
Definition tickOrphans (o : orphanPool) : orphanPool :=
  mkOrphanPool (orphans o) (orphansByPrev o) (nextExpireScan o) (S (orphanTick o)).

(** One input of an orphan that leaves: an inner map that becomes empty goes. *)
Definition unindexInput (txHash : bytes) (byPrev : gmap OutPoint (gmap bytes MsgTx)) (txIn : TxIn) : gmap OutPoint (gmap bytes MsgTx) :=
  match byPrev !! ti_PreviousOutPoint txIn with
  | None => byPrev
  | Some m =>
      let m := delete txHash m in
      if (size m =? 0)%nat then delete (ti_PreviousOutPoint txIn) byPrev else <[ti_PreviousOutPoint txIn := m]> byPrev
  end.

(** [for _, orphan := range mp.orphansByPrev[prevOut] { f(orphan) }]: an entry
    that is deleted before it is reached is not visited. *)
Definition rangeByPrev (f : orphanPool → MsgTx → option orphanPool) (o : orphanPool) (prevOut : OutPoint) : option orphanPool :=
  foldM (λ o txHash, match orphansByPrev o !! prevOut ≫= (.!! txHash) with Some orphan => f o orphan | None => Some o end)
    (tickOrphans o) (order env (orphanTick o) (dom (default ∅ (orphansByPrev o !! prevOut)))).

Fixpoint removeOrphan (fuel : nat) (o : orphanPool) (tx : MsgTx) (removeRedeemers : bool) : option orphanPool :=
  match fuel with
  | O => None
  | S fuel' =>
      let txHash := TxHash tx in
      match orphans o !! txHash with
      | None => Some o
      | Some otx =>
          let o := setIndexed (foldl (unindexInput txHash) (orphansByPrev o) (tx_TxIn (ot_tx otx))) o in
          o ← (if removeRedeemers
               then foldM (rangeByPrev (λ o orphan, removeOrphan fuel' o orphan true)) o (outputsOf txHash tx)
               else Some o);
          Some (mkOrphanPool (delete txHash (orphans o)) (orphansByPrev o) (nextExpireScan o) (orphanTick o))
      end
  end.
(** One level of the recursion for each orphan is enough. *)
Definition orphanFuel (o : orphanPool) : nat := S (size (orphans o)).
Definition removeOrphanTop (o : orphanPool) (tx : MsgTx) (removeRedeemers : bool) : option orphanPool :=
  removeOrphan (orphanFuel o) o tx removeRedeemers.
Definition RemoveOrphan (o : orphanPool) (tx : MsgTx) : option orphanPool := removeOrphanTop o tx false.

(** [for _, otx := range mp.orphans { f(otx) }], with a count of the visits that count. *)
Definition rangeOrphans {A} (f : A * orphanPool → orphanTx → option (A * orphanPool)) (a : A) (o : orphanPool) : option (A * orphanPool) :=
  foldM (λ s txHash, match orphans s.2 !! txHash with Some otx => f s otx | None => Some s end)
    (a, tickOrphans o) (order env (orphanTick o) (dom (orphans o))).

Definition RemoveOrphansByTag (o : orphanPool) (tag : Z) : option (Z * orphanPool) :=
  rangeOrphans (λ s otx, if ot_tag otx =? tag
                         then o' ← removeOrphanTop s.2 (ot_tx otx) true; Some (u64 (s.1 + 1), o')
                         else Some s) 0 o.

Definition limitNumOrphans (o : orphanPool) : option orphanPool :=
  let now := clock env (orphanTick o) in
  let o := tickOrphans o in
  o ← (if nextExpireScan o <? now then
         '(_, o) ← rangeOrphans (λ s otx, if ot_expiration otx <? now
                                         then o' ← removeOrphanTop s.2 (ot_tx otx) true; Some (tt, o') else Some s) tt o;
         Some (mkOrphanPool (orphans o) (orphansByPrev o) (now + orphanExpireScanInterval) (orphanTick o))
       else Some o);
  if Z.of_nat (size (orphans o)) + 1 <=? MaxOrphanTxs policy then Some o else
  let o' := tickOrphans o in
  match order env (orphanTick o) (dom (orphans o)) with
  | [] => Some o'
  | txHash :: _ => match orphans o !! txHash with Some otx => removeOrphanTop o' (ot_tx otx) false | None => Some o' end
  end.

Definition indexInput (txHash : bytes) (tx : MsgTx) (byPrev : gmap OutPoint (gmap bytes MsgTx)) (txIn : TxIn) : gmap OutPoint (gmap bytes MsgTx) :=
  <[ti_PreviousOutPoint txIn := <[txHash := tx]> (default ∅ (byPrev !! ti_PreviousOutPoint txIn))]> byPrev.

Definition addOrphan (o : orphanPool) (tx : MsgTx) (tag : Z) : option orphanPool :=
  if MaxOrphanTxs policy <=? 0 then Some o else
  o ← limitNumOrphans o;
  let otx := mkOrphanTx tx tag (clock env (orphanTick o) + orphanTTL) in
  Some (mkOrphanPool (<[TxHash tx := otx]> (orphans o)) (foldl (indexInput (TxHash tx) tx) (orphansByPrev o) (tx_TxIn tx))
          (nextExpireScan o) (S (orphanTick o))).

Definition maybeAddOrphan (o : orphanPool) (tx : MsgTx) (tag : Z) : option (res mperr unit * orphanPool) :=
  if MaxOrphanTxSize policy <? SerializeSize tx then Some (txRuleError RejectNonstandard, o) else
  o ← addOrphan o tx tag; Some (Ok tt, o).

Definition removeOrphanDoubleSpends (o : orphanPool) (tx : MsgTx) : option orphanPool :=
  foldM (rangeByPrev (λ o orphan, removeOrphanTop o orphan true)) o (insOf tx).

(** ** The main pool *)
Definition isTransactionInPool (m : mainPool) (hash : bytes) : bool := bool_decide (is_Some (pool m !! hash)).
Definition isOrphanInPool (o : orphanPool) (hash : bytes) : bool := bool_decide (is_Some (orphans o !! hash)).
Definition haveTransaction (mp : TxPool) (hash : bytes) : bool :=
  isTransactionInPool (mp_main mp) hash || isOrphanInPool (mp_orphans mp) hash.

Fixpoint removeTransaction (fuel : nat) (m : mainPool) (tx : MsgTx) (removeRedeemers : bool) : option mainPool :=
  match fuel with
  | O => None
  | S fuel' =>
      let txHash := TxHash tx in
      m ← (if removeRedeemers
           then foldM (λ m prevOut, match outpoints m !! prevOut with
                                    | Some txRedeemer => removeTransaction fuel' m txRedeemer true
                                    | None => Some m
                                    end) m (outputsOf txHash tx)
           else Some m);
      match pool m !! txHash with
      | None => Some m
      | Some txDesc =>
          let txSize := u64 (SerializeSize (td_Tx txDesc)) in
          heap ← Remove (feeRateHeap m) txHash;
          Some (mkMainPool (delete txHash (pool m)) (foldl (λ ops txIn, delete (ti_PreviousOutPoint txIn) ops) (outpoints m) (tx_TxIn (td_Tx txDesc)))
                  (u64 (poolBytes m - txSize)) heap (clock env (mainTick m)) (S (mainTick m)))
      end
  end.
(** One level for the transaction and one for each that spends from it. *)
Definition poolFuel (m : mainPool) : nat := S (size (pool m)).
Definition removeTx (m : mainPool) (tx : MsgTx) (removeRedeemers : bool) : option mainPool :=
  removeTransaction (poolFuel m) m tx removeRedeemers.

Definition staleClaim (check : MsgTx → UtxoViewpoint → res verr unit) (txD : TxDesc) : bool :=
  if negb (tx_Version (td_Tx txD) =? TxVersionInferenceProof) then false else
  match FetchUtxoView env (td_Tx txD) with
  | Err _ => false
  | Ok utxoView => match check (td_Tx txD) utxoView with Err _ => true | Ok _ => false end
  end.
Definition PurgeStaleInferenceClaims (m : mainPool) : option mainPool :=
  match CheckInferenceBountySpends env with
  | None => Some m
  | Some check =>
      let stale := omap (λ hash, txD ← pool m !! hash; if staleClaim check txD then Some (td_Tx txD) else None)
                        (order env (mainTick m) (dom (pool m))) in
      foldM (λ m tx, removeTx m tx true) m stale
  end.

Definition RemoveDoubleSpends (m : mainPool) (tx : MsgTx) : option mainPool :=
  foldM (λ m prevOut, match outpoints m !! prevOut with
                      | Some txRedeemer => if bool_decide (TxHash txRedeemer = TxHash tx) then Some m else removeTx m txRedeemer true
                      | None => Some m
                      end) m (insOf tx).

(** [fee * 1000 / size] in int64. *)
Definition feeRateOf (fee txSize : Z) : Z := Z.quot (i64 (fee * 1000)) txSize.

(** The optional address index and fee estimator are not enabled. *)
Definition addTransaction (m : mainPool) (tx : MsgTx) (height fee : Z) : option (TxDesc * mainPool) :=
  let txD := mkTxDesc tx (clock env (mainTick m)) height fee (feeRateOf fee (GetTransactionVsize tx)) in
  let txSize := u64 (SerializeSize tx) in
  heap ← Add (feeRateHeap m) (TxHash tx) (td_FeePerKB txD) (i64 txSize);
  Some (txD, mkMainPool (<[TxHash tx := txD]> (pool m)) (foldl (λ ops txIn, <[ti_PreviousOutPoint txIn := tx]> ops) (outpoints m) (tx_TxIn tx))
               (u64 (poolBytes m + txSize)) heap (clock env (S (mainTick m))) (S (S (mainTick m)))).

Definition CheckSpend (m : mainPool) (op : OutPoint) : option MsgTx := outpoints m !! op.
Definition FetchTransaction (m : mainPool) (txHash : bytes) : option MsgTx := td_Tx <$> pool m !! txHash.
Definition Count (m : mainPool) : nat := size (pool m).
Definition TxHashes (m : mainPool) : list bytes := order env (mainTick m) (dom (pool m)).
Definition TxDescs (m : mainPool) : list TxDesc := omap (λ hash, pool m !! hash) (TxHashes m).

(** ** Replacement *)
(** The loop over the inputs stops at the first that signals; the cache holds
    ancestors that do not. *)
Fixpoint signalsReplacement (fuel : nat) (m : mainPool) (tx : MsgTx) (cache : gset bytes) : option (bool * gset bytes) :=
  match fuel with
  | O => None
  | S fuel' =>
      foldM (λ s txIn,
        if s.1 : bool then Some s else
        if ti_Sequence txIn <=? MaxRBFSequence then Some (true, s.2) else
        let hash := op_Hash (ti_PreviousOutPoint txIn) in
        match pool m !! hash with
        | None => Some s
        | Some unconfirmedAncestor =>
            if bool_decide (hash ∈ s.2) then Some s else
            '(r, cache) ← signalsReplacement fuel' m (td_Tx unconfirmedAncestor) s.2;
            if r : bool then Some (true, cache) else Some (false, {[hash]} ∪ cache)
        end) (false, cache) (tx_TxIn tx)
  end.

Definition checkPoolDoubleSpend (m : mainPool) (tx : MsgTx) : option (res mperr bool) :=
  foldM (λ r txIn,
    match r with
    | Err _ => Some r
    | Ok _ =>
        match outpoints m !! ti_PreviousOutPoint txIn with
        | None => Some r
        | Some conflict =>
            if RejectReplacement policy then Some (txRuleError RejectDuplicate) else
            '(signals, _) ← signalsReplacement (poolFuel m) m conflict ∅;
            if negb signals then Some (txRuleError RejectDuplicate) else Some (Ok true)
        end
    end) (Ok false) (tx_TxIn tx).

(** [maps.Copy(dst, src)] and the loop that does the same. *)
Definition mapsCopy {A} (dst src : gmap bytes A) : gmap bytes A := src ∪ dst.

Abbreviation txMap := (gmap bytes MsgTx).
(** The cached relatives of [hash], or those that [rec] computes and caches. *)
Definition cached (rec : gmap bytes txMap → option (txMap * gmap bytes txMap)) (cache : gmap bytes txMap) (hash : bytes) : option (txMap * gmap bytes txMap) :=
  match cache !! hash with
  | Some more => Some (more, cache)
  | None => '(more, cache) ← rec cache; Some (more, <[hash := more]> cache)
  end.
(** A parent or redeemer [rel] joins the set, with its own relatives. *)
Definition joinRelative (rec : MsgTx → gmap bytes txMap → option (txMap * gmap bytes txMap)) (s : txMap * gmap bytes txMap) (rel : MsgTx) : option (txMap * gmap bytes txMap) :=
  let hash := TxHash rel in
  let relatives := <[hash := rel]> s.1 in
  '(more, cache) ← cached (rec rel) s.2 hash;
  Some (mapsCopy relatives more, cache).

Fixpoint txAncestors (fuel : nat) (m : mainPool) (tx : MsgTx) (cache : gmap bytes txMap) : option (txMap * gmap bytes txMap) :=
  match fuel with
  | O => None
  | S fuel' =>
      foldM (λ s txIn,
        match pool m !! op_Hash (ti_PreviousOutPoint txIn) with
        | None => Some s
        | Some parent => joinRelative (λ tx cache, txAncestors fuel' m tx cache) s (td_Tx parent)
        end) (∅, cache) (tx_TxIn tx)
  end.
(** The loop that copies the descendants of a descendant sets each under its
    hash, which is its key. *)
Fixpoint txDescendants (fuel : nat) (m : mainPool) (tx : MsgTx) (cache : gmap bytes txMap) : option (txMap * gmap bytes txMap) :=
  match fuel with
  | O => None
  | S fuel' =>
      foldM (λ s op,
        match outpoints m !! op with
        | None => Some s
        | Some descendant => joinRelative (λ tx cache, txDescendants fuel' m tx cache) s descendant
        end) (∅, cache) (outputsOf (TxHash tx) tx)
  end.

Definition txConflicts (m : mainPool) (tx : MsgTx) : option txMap :=
  foldM (λ conflicts txIn,
    match outpoints m !! ti_PreviousOutPoint txIn with
    | None => Some conflicts
    | Some conflict =>
        let conflicts := <[TxHash conflict := conflict]> conflicts in
        '(descendants, _) ← txDescendants (poolFuel m) m conflict ∅;
        Some (mapsCopy conflicts descendants)
    end) ∅ (tx_TxIn tx).

(** The loop over the conflicts: the fees so far and the parents seen. *)
Definition conflictLoop (m : mainPool) (txFeeRate : Z) (conflicts : txMap) (acc : res mperr (Z * gset bytes)) (hash : bytes) : option (res mperr (Z * gset bytes)) :=
  match acc with
  | Err _ => Some acc
  | Ok (conflictsFee, conflictsParents) =>
      txD ← pool m !! hash;
      conflict ← conflicts !! hash;
      if txFeeRate <=? td_FeePerKB txD then Some (txRuleError RejectInsufficientFee) else
      Some (Ok (i64 (conflictsFee + td_Fee txD), list_to_set (op_Hash <$> insOf conflict) ∪ conflictsParents))
  end.

Definition validateReplacement (m : mainPool) (tx : MsgTx) (txFee : Z) : option (res mperr txMap) :=
  conflicts ← txConflicts m tx;
  if MaxReplacementEvictions <? Z.of_nat (size conflicts) then Some (txRuleError RejectNonstandard) else
  '(ancestors, _) ← txAncestors (poolFuel m) m tx ∅;
  if bool_decide (dom ancestors ∩ dom conflicts ≠ ∅) then Some (txRuleError RejectInvalid) else
  let txSize := GetTransactionVsize tx in
  let txFeeRate := feeRateOf txFee txSize in
  acc ← foldM (conflictLoop m txFeeRate conflicts) (Ok (0, ∅)) (order env (mainTick m) (dom conflicts));
  match acc with
  | Err e => Some (Err e)
  | Ok (conflictsFee, conflictsParents) =>
      let minFee := calcMinRequiredTxRelayFee txSize (MinRelayTxFee policy) in
      if txFee <? i64 (conflictsFee + minFee) then Some (txRuleError RejectInsufficientFee) else
      if existsb (λ prevOut, negb (bool_decide (op_Hash prevOut ∈ conflictsParents)) && bool_decide (is_Some (pool m !! op_Hash prevOut))) (insOf tx)
      then Some (txRuleError RejectInvalid) else Some (Ok conflicts)
  end.
End pool.

(** ** Acceptance *)
(** A computation that can fault, fail or succeed. *)
Definition bindOR {E A B} (c : option (res E A)) (k : A → option (res E B)) : option (res E B) :=
  match c with
  | None => None
  | Some (Err e) => Some (Err e)
  | Some (Ok a) => k a
  end.
Notation "'do?' x ':=' c 'in' k" := (bindOR c (λ x, k)) (at level 200, x pattern, c at level 100, k at level 200) : go_scope.

Record MempoolAcceptResult := mkAccept {
  ar_TxFee : Z;
  ar_TxSize : Z;
  ar_Conflicts : gmap bytes MsgTx;
  ar_MissingParents : list bytes;
  ar_utxoView : option UtxoViewpoint;
  ar_bestHeight : Z }.

Section accept.
Context `{Schnorr} (sha256 sha3 : bytes → bytes) (engine : bytes → MsgTx → nat → Z → UtxoViewpoint → engineResult)
  (chainParams : Params) (policy : Policy) (env : Env).
Abbreviation TxHash := (TxHash sha256).

Definition fetchInputUtxos (m : mainPool) (tx : MsgTx) : res verr UtxoViewpoint :=
  let? utxoView := FetchUtxoView env tx in
  Ok (foldl (λ v prevOut,
        match LookupEntry v prevOut with
        | Some entry => if IsSpent entry
                        then match pool m !! op_Hash prevOut with Some d => AddTxOut sha256 v (td_Tx d) (op_Index prevOut) UnminedHeight | None => v end
                        else v
        | None => match pool m !! op_Hash prevOut with Some d => AddTxOut sha256 v (td_Tx d) (op_Index prevOut) UnminedHeight | None => v end
        end) utxoView (insOf tx)).

(** The outputs of the transaction itself must not be in the view; they are
    removed from it. *)
Definition checkNotInChain (tx : MsgTx) (utxoView : UtxoViewpoint) : res mperr UtxoViewpoint :=
  res_foldl (λ v prevOut,
    match LookupEntry v prevOut with
    | Some entry => if IsSpent entry then Ok (RemoveEntry v prevOut) else txRuleError RejectDuplicate
    | None => Ok (RemoveEntry v prevOut)
    end) utxoView (outputsOf (TxHash tx) tx).

(** The hashes of the outpoints that are missing or spent; the order of the
    list is that of a map and not specified. *)
Definition missingOf (utxoView : UtxoViewpoint) : list bytes :=
  omap (λ '(outpoint, entry),
          match entry with
          | Some e => if IsSpent e then Some (op_Hash outpoint) else None
          | None => Some (op_Hash outpoint)
          end) (map_to_list (entries utxoView)).

Definition reclassify {A} (r : res mperr A) : res mperr A :=
  match r with
  | Ok a => Ok a
  | Err (PlainErr RuntimePanic) => Err (PlainErr RuntimePanic)
  | Err e => let '(rejectCode, found) := extractRejectCode (Some e) in txRuleError (if found : bool then rejectCode else RejectNonstandard)
  end.
Definition validateStandardness (tx : MsgTx) (nextBlockHeight medianTimePast : Z) (utxoView : UtxoViewpoint) : res mperr unit :=
  if AcceptNonStd policy then Ok tt else
  let? _ := reclassify (CheckTransactionStandard tx nextBlockHeight medianTimePast (MinRelayTxFee policy) (MaxTxVersion policy)) in
  reclassify (checkInputsStandard tx utxoView).

(** What follows the second test in the source, the limiter of free transactions,
    is not reached: one of the two tests holds. *)
Definition validateRelayFeeMet (txFee txSize : Z) : res mperr unit :=
  let minFee := calcMinRequiredTxRelayFee txSize (MinRelayTxFee policy) in
  if txFee <? minFee then txRuleError RejectInsufficientFee else Ok tt.

(** The fee floor of a full pool. *)
Definition belowFloor (mp : TxPool) (txFee txSize : Z) : bool :=
  (0 <? MaxMempoolSize policy) && (0 <? lastEvictedFeeRate mp) && (MaxMempoolSize policy <=? poolBytes (mp_main mp))
  && (feeRateOf txFee txSize <=? lastEvictedFeeRate mp).

Definition checkMempoolAcceptance (mp : TxPool) (tx : MsgTx) (rejectDupOrphans : bool) : option (res mperr MempoolAcceptResult) :=
  let m := mp_main mp in
  let txHash := TxHash tx in
  if negb (HasWitness tx) then Some (txRuleError RejectNonstandard) else
  if isTransactionInPool m txHash || (rejectDupOrphans && isOrphanInPool (mp_orphans mp) txHash) then Some (txRuleError RejectDuplicate) else
  if SerializeSizeStripped tx <? MinStandardTxNonWitnessSize then Some (txRuleError RejectNonstandard) else
  let allowInferenceTx := TxVersionInference <=? MaxSupportedTxVersion chainParams in
  do? _ := Some (fromChain (CheckTransactionSanity tx allowInferenceTx)) in
  if IsCoinBaseTx tx then Some (txRuleError RejectInvalid) else
  let bestHeight := BestHeight env in
  let nextBlockHeight := i32 (bestHeight + 1) in
  let medianTimePast := MedianTimePast env in
  do? isReplacement := checkPoolDoubleSpend policy m tx in
  do? utxoView := Some (fromChain (fetchInputUtxos m tx)) in
  do? utxoView := Some (checkNotInChain tx utxoView) in
  let missingParents := missingOf utxoView in
  if (0 <? length missingParents)%nat then Some (Ok (mkAccept 0 0 ∅ missingParents None 0)) else
  do? issued := Some (fromChain (InferenceGo.CheckInferenceGoIssuance sha3 tx nextBlockHeight chainParams)) in
  do? txFee := Some (fromChain (CheckTransactionInputsWithIssuance tx nextBlockHeight utxoView chainParams issued)) in
  do? _ := Some (validateStandardness tx nextBlockHeight medianTimePast utxoView) in
  do? sequenceLock := Some (fromChain (CalcSequenceLock env tx utxoView)) in
  if negb (SequenceLockActive sequenceLock nextBlockHeight medianTimePast) then Some (txRuleError RejectNonstandard) else
  let txSize := GetTransactionVsize tx in
  if belowFloor mp txFee txSize then Some (txRuleError RejectInsufficientFee) else
  do? _ := Some (validateRelayFeeMet txFee txSize) in
  do? conflicts := (if isReplacement then validateReplacement sha256 policy env m tx txFee else Some (Ok ∅)) in
  do? _ := Some (fromChain (ValidateTransactionScripts engine utxoView tx)) in
  do? _ := Some (match CheckInferenceBountySpends env with Some check => fromChain (check tx utxoView) | None => Ok tt end) in
  Some (Ok (mkAccept txFee txSize conflicts [] (Some utxoView) bestHeight)).

(** [trimToSize]: the loop, with the fee floor. *)
Fixpoint trimLoop (fuel : nat) (m : mainPool) (floor : Z) : option (mainPool * Z) :=
  if (MaxMempoolSize policy <? poolBytes m) && (0 <? Len (feeRateHeap m))%nat then
    match fuel with
    | O => None
    | S fuel' =>
        '(entry, heap) ← PopMin (feeRateHeap m);
        entry ← entry;
        let m := mkMainPool (pool m) (outpoints m) (poolBytes m) heap (lastUpdated m) (mainTick m) in
        match pool m !! fe_txHash entry with
        | None => trimLoop fuel' m floor
        | Some txDesc =>
            m ← removeTx sha256 env m (td_Tx txDesc) true;
            trimLoop fuel' m (fe_feePerKB entry)
        end
    end
  else Some (m, floor).
Definition trimToSize (m : mainPool) (floor : Z) : option (mainPool * Z) :=
  if MaxMempoolSize policy =? 0 then Some (m, floor) else
  if poolBytes m <=? MaxMempoolSize policy then Some (m, 0) else
  trimLoop (Len (feeRateHeap m)) m floor.

(** The conflicts leave the pool; each is looked up for the log. *)
Definition removeConflicts (m : mainPool) (conflicts : gmap bytes MsgTx) : option mainPool :=
  foldM (λ m hash, conflict ← conflicts !! hash; _ ← pool m !! TxHash conflict; removeTx sha256 env m conflict false)
    m (order env (mainTick m) (dom conflicts)).

(** The result: missing parents, or the descriptor of the accepted transaction. *)
Definition maybeAcceptTransaction (mp : TxPool) (tx : MsgTx) (rejectDupOrphans : bool)
    : option (res mperr (list bytes * option TxDesc) * TxPool) :=
  r ← checkMempoolAcceptance mp tx rejectDupOrphans;
  match r with
  | Err e => Some (Err e, mp)
  | Ok r =>
      if (0 <? length (ar_MissingParents r))%nat then Some (Ok (ar_MissingParents r, None), mp) else
      m ← removeConflicts (mp_main mp) (ar_Conflicts r);
      '(txD, m) ← addTransaction sha256 env m tx (ar_bestHeight r) (ar_TxFee r);
      '(m, floor) ← trimToSize m (lastEvictedFeeRate mp);
      let mp := mkTxPool m (mp_orphans mp) floor in
      match pool m !! TxHash tx with
      | None => Some (txRuleError RejectInsufficientFee, mp)
      | Some _ => Some (Ok ([], Some txD), mp)
      end
  end.
Definition MaybeAcceptTransaction (mp : TxPool) (tx : MsgTx) := maybeAcceptTransaction mp tx true.

Definition setOrphans (mp : TxPool) (o : orphanPool) : TxPool := mkTxPool (mp_main mp) o (lastEvictedFeeRate mp).

(** The orphans that spend one output: the first that is accepted or invalid ends
    the loop.  The result is the accepted one. *)
Fixpoint tryOrphans (mp : TxPool) (txs : list MsgTx) : option (option (TxDesc * MsgTx) * TxPool) :=
  match txs with
  | [] => Some (None, mp)
  | tx :: txs' =>
      '(r, mp) ← maybeAcceptTransaction mp tx false;
      match r with
      | Err _ => o ← removeOrphanTop sha256 env (mp_orphans mp) tx true; Some (None, setOrphans mp o)
      | Ok (missing, txD) =>
          if (0 <? length missing)%nat then tryOrphans mp txs' else
          d ← txD;
          o ← removeOrphanTop sha256 env (mp_orphans mp) tx false;
          Some (Some (d, tx), setOrphans mp o)
      end
  end.
(** One output of a processed transaction. *)
Definition processOutput (s : list (TxDesc * MsgTx) * TxPool) (prevOut : OutPoint) : option (list (TxDesc * MsgTx) * TxPool) :=
  let '(accepted, mp) := s in
  let o := mp_orphans mp in
  match orphansByPrev o !! prevOut with
  | None => Some s
  | Some m =>
      '(r, mp) ← tryOrphans (setOrphans mp (tickOrphans o)) (omap (λ hash, m !! hash) (order env (orphanTick o) (dom m)));
      Some (accepted ++ match r with Some x => [x] | None => [] end, mp)
  end.
(** The work list: every transaction that is accepted joins it. *)
Fixpoint processLoop (fuel : nat) (mp : TxPool) (processList : list MsgTx) (acceptedTxns : list TxDesc) : option (list TxDesc * TxPool) :=
  match processList with
  | [] => Some (acceptedTxns, mp)
  | processItem :: rest =>
      match fuel with
      | O => None
      | S fuel' =>
          '(new, mp) ← foldM processOutput ([], mp) (outputsOf (TxHash processItem) processItem);
          processLoop fuel' mp (rest ++ new.*2) (acceptedTxns ++ new.*1)
      end
  end.
Definition processOrphans (mp : TxPool) (acceptedTx : MsgTx) : option (list TxDesc * TxPool) :=
  '(acceptedTxns, mp) ← processLoop (S (size (orphans (mp_orphans mp)))) mp [acceptedTx] [];
  o ← foldM (removeOrphanDoubleSpends sha256 env) (mp_orphans mp) (acceptedTx :: (td_Tx <$> acceptedTxns));
  Some (acceptedTxns, setOrphans mp o).

Definition ProcessTransaction (mp : TxPool) (tx : MsgTx) (allowOrphan : bool) (tag : Z) : option (res mperr (list TxDesc) * TxPool) :=
  '(r, mp) ← maybeAcceptTransaction mp tx true;
  match r with
  | Err e => Some (Err e, mp)
  | Ok (missingParents, txD) =>
      if (length missingParents =? 0)%nat then
        '(newTxs, mp) ← processOrphans mp tx;
        d ← txD;
        Some (Ok (d :: newTxs), mp)
      else if negb allowOrphan then Some (txRuleError RejectDuplicate, mp) else
      '(r, o) ← maybeAddOrphan sha256 policy env (mp_orphans mp) tx tag;
      Some (match r with Err e => Err e | Ok _ => Ok [] end, setOrphans mp o)
  end.

Definition New : TxPool :=
  mkTxPool (mkMainPool ∅ ∅ 0 newTxFeeRateHeap 0 0) (mkOrphanPool ∅ ∅ (clock env 0 + orphanExpireScanInterval) 1) 0.
End accept.
