(* ===== verification/MempoolOrphans.v ===== *)
(** * The orphan store of the mempool: invariants (src/node/mempool/mempool.go)

    The index by outpoint lists exactly the inputs of the orphans, also while a
    removal is under way: the orphans of [X] are being removed and are out of the
    index already.  Removing an orphan with its redeemers leaves no orphan that
    spends an output of a removed one. *)
From Stdlib Require Import ZArith Lia Strings.Byte.
From stdpp Require Import base gmap list.
From S2P Require Import Prelude RuleErrors WireTx Merkle Script Utxo TxRules MempoolPolicy Mempool.
Open Scope Z_scope.
Open Scope list_scope.

(** A [range] visits every key once. *)
Definition fairOrder (env : Env) : Prop := ∀ n s, order env n s ≡ₚ elements s.

Lemma foldM_app {S A} (f : S → A → option S) s l l' : foldM f s (l ++ l') = (s' ← foldM f s l; foldM f s' l').
Proof. revert s. induction l as [|a l IH]; intros s; cbn; [done|]. destruct (f s a); cbn; [apply IH|done]. Qed.

(** A loop whose body keeps [I], relates the states by [R] and makes [Q a] hold for good. *)
Lemma foldM_spec {S A} (f : S → A → option S) (I : S → Prop) (R : S → S → Prop) (Q : A → S → Prop) l :
  (∀ s, I s → R s s) → (∀ s1 s2 s3, R s1 s2 → R s2 s3 → R s1 s3) → (∀ a s s', I s → I s' → R s s' → Q a s → Q a s') →
  (∀ s a, I s → a ∈ l → ∃ s', f s a = Some s' ∧ I s' ∧ R s s' ∧ Q a s') →
  ∀ s, I s → ∃ s', foldM f s l = Some s' ∧ I s' ∧ R s s' ∧ ∀ a, a ∈ l → Q a s'.
Proof.
  intros Hrefl Htrans Hmono. induction l as [|a l IH]; intros Hf s Hs; cbn.
  - exists s. split_and!; [done|done|by apply Hrefl|]. by intros a Ha%elem_of_nil.
  - destruct (Hf s a Hs ltac:(by left)) as (s1 & -> & H1 & R1 & Q1). cbn [mbind option_bind].
    destruct (IH ltac:(intros s' b Hs' Hb; apply Hf; [done|by right]) s1 H1) as (s2 & -> & H2 & R2 & Q2).
    exists s2. split_and!; [done|done|by eapply Htrans|]. intros b [->|Hb]%elem_of_cons; [by apply (Hmono _ s1 s2)|by apply Q2].
Qed.

(** ** The index *)
Abbreviation indexed byPrev op h := (byPrev !! op ≫= (.!! h)).
Definition noEmpty (byPrev : gmap OutPoint (gmap bytes MsgTx)) : Prop := ∀ op m, byPrev !! op = Some m → m ≠ ∅.

Lemma unindexInput_lookup h byPrev ti op k : indexed (unindexInput h byPrev ti) op k =
  if decide (op = ti_PreviousOutPoint ti ∧ k = h) then None else indexed byPrev op k.
Proof.
  unfold unindexInput. destruct (byPrev !! ti_PreviousOutPoint ti) as [m|] eqn:E.
  - assert (Hm : indexed (if (size (delete h m) =? 0)%nat then delete (ti_PreviousOutPoint ti) byPrev else <[ti_PreviousOutPoint ti := delete h m]> byPrev) op k
      = if decide (op = ti_PreviousOutPoint ti) then delete h m !! k else indexed byPrev op k).
    { destruct (Nat.eqb_spec (size (delete h m)) 0) as [Hz|Hz]; destruct (decide (op = ti_PreviousOutPoint ti)) as [->|Hn].
      - apply map_size_empty_inv in Hz. by rewrite lookup_delete_eq, Hz, lookup_empty.
      - by rewrite lookup_delete_ne.
      - by rewrite lookup_insert_eq.
      - by rewrite lookup_insert_ne. }
    rewrite Hm. destruct (decide (op = ti_PreviousOutPoint ti)) as [->|Hn]; [|by rewrite decide_False by (by intros [? _])].
    destruct (decide (k = h)) as [->|Hk].
    + by rewrite lookup_delete_eq, decide_True.
    + rewrite lookup_delete_ne, decide_False by (done || by intros [_ ?]). by rewrite E.
  - case_decide as Hc; [|done]. destruct Hc as [-> _]. by rewrite E.
Qed.
Lemma unindexInput_noEmpty h byPrev ti : noEmpty byPrev → noEmpty (unindexInput h byPrev ti).
Proof.
  intros Hb op m. unfold unindexInput. destruct (byPrev !! ti_PreviousOutPoint ti) as [m'|] eqn:E; [|apply Hb].
  destruct (Nat.eqb_spec (size (delete h m')) 0) as [Hz|Hz].
  - intros [_ Hm]%lookup_delete_Some. by apply (Hb op).
  - intros [[_ <-]|[_ Hm]]%lookup_insert_Some; [|by apply (Hb op)]. intros Hm. apply Hz. by rewrite Hm.
Qed.
Lemma unindex_lookup h ins byPrev op k : indexed (foldl (unindexInput h) byPrev ins) op k =
  if decide (k = h ∧ op ∈ ti_PreviousOutPoint <$> ins) then None else indexed byPrev op k.
Proof.
  revert byPrev. induction ins as [|ti ins IH]; intros byPrev; cbn [foldl].
  - rewrite decide_False; [done|]. by intros [_ Ho%elem_of_nil].
  - rewrite IH, unindexInput_lookup. rewrite fmap_cons. destruct (decide (k = h)) as [->|Hk].
    + destruct (decide (op = ti_PreviousOutPoint ti)) as [->|Hn].
      * rewrite (decide_True (P := ti_PreviousOutPoint ti = _ ∧ _)) by done. rewrite (decide_True (P := h = h ∧ ti_PreviousOutPoint ti ∈ _ :: _)) by (split; [done|by left]). by case_decide.
      * rewrite (decide_False (P := op = _ ∧ _)) by (by intros [? _]). apply decide_ext. rewrite elem_of_cons. naive_solver.
    + by rewrite !decide_False by (by intros [? ?]).
Qed.
Lemma unindex_noEmpty h ins byPrev : noEmpty byPrev → noEmpty (foldl (unindexInput h) byPrev ins).
Proof. revert byPrev. induction ins as [|ti ins IH]; intros byPrev Hb; [done|]. apply IH. by apply unindexInput_noEmpty. Qed.

Lemma indexInput_lookup h tx byPrev ti op k : indexed (indexInput h tx byPrev ti) op k =
  if decide (op = ti_PreviousOutPoint ti ∧ k = h) then Some tx else indexed byPrev op k.
Proof.
  unfold indexInput. destruct (decide (op = ti_PreviousOutPoint ti)) as [->|Hn].
  - rewrite lookup_insert_eq. cbn. destruct (decide (k = h)) as [->|Hk].
    + by rewrite lookup_insert_eq, decide_True.
    + rewrite lookup_insert_ne, decide_False by (done || by intros [_ ?]). by destruct (byPrev !! ti_PreviousOutPoint ti).
  - rewrite lookup_insert_ne, decide_False by (done || by intros [? _]). done.
Qed.
Lemma index_lookup h tx ins byPrev op k : indexed (foldl (indexInput h tx) byPrev ins) op k =
  if decide (k = h ∧ op ∈ ti_PreviousOutPoint <$> ins) then Some tx else indexed byPrev op k.
Proof.
  revert byPrev. induction ins as [|ti ins IH]; intros byPrev; cbn [foldl].
  - rewrite decide_False; [done|]. by intros [_ Ho%elem_of_nil].
  - rewrite IH, indexInput_lookup. rewrite fmap_cons. destruct (decide (k = h)) as [->|Hk].
    + destruct (decide (op = ti_PreviousOutPoint ti)) as [->|Hn].
      * rewrite (decide_True (P := ti_PreviousOutPoint ti = _ ∧ _)) by done. rewrite (decide_True (P := h = h ∧ ti_PreviousOutPoint ti ∈ _ :: _)) by (split; [done|by left]). by case_decide.
      * rewrite (decide_False (P := op = _ ∧ _)) by (by intros [? _]). apply decide_ext. rewrite elem_of_cons. naive_solver.
    + by rewrite !decide_False by (by intros [? ?]).
Qed.
Lemma index_noEmpty h tx ins byPrev : noEmpty byPrev → noEmpty (foldl (indexInput h tx) byPrev ins).
Proof.
  revert byPrev. induction ins as [|ti ins IH]; intros byPrev Hb; [done|]. apply IH. intros op m. unfold indexInput.
  intros [[_ <-]|[_ Hm]]%lookup_insert_Some; [apply insert_non_empty|by apply (Hb op)].
Qed.

(** ** The invariant *)
Section inv.
Context (sha256 : bytes → bytes) (policy : Policy).
Abbreviation TxHash := (TxHash sha256).

Record orphansOk (X : gset bytes) (o : orphanPool) : Prop := {
  oo_key h x : orphans o !! h = Some x → TxHash (ot_tx x) = h;
  oo_index op h t : indexed (orphansByPrev o) op h = Some t ↔ h ∉ X ∧ ∃ x, orphans o !! h = Some x ∧ ot_tx x = t ∧ op ∈ insOf t;
  oo_noEmpty : noEmpty (orphansByPrev o) }.

(** A removal: orphans leave, and the outputs of those that left are not spent by
    an orphan of the index. *)
Record orphansGone (o o' : orphanPool) : Prop := {
  og_sub : orphans o' ⊆ orphans o;
  og_scan : nextExpireScan o' = nextExpireScan o;
  og_free op : orphansByPrev o !! op = None → orphansByPrev o' !! op = None;
  og_closed h x op : orphans o !! h = Some x → orphans o' !! h = None → op ∈ outputsOf h (ot_tx x) → orphansByPrev o' !! op = None }.

Lemma orphansGone_refl o : orphansGone o o.
Proof. split; [done|done|done|]. intros h x op Hx Hn. congruence. Qed.
Lemma orphansGone_trans o1 o2 o3 : orphansGone o1 o2 → orphansGone o2 o3 → orphansGone o1 o3.
Proof.
  intros H1 H2. split; [by etrans; [apply H2|apply H1]|by rewrite (og_scan _ _ H2); apply H1|intros op Ho; by apply H2, H1|].
  intros h x op Hx Hn Ho. destruct (orphans o2 !! h) as [y|] eqn:E.
  - assert (y = x) as -> by (pose proof (lookup_weaken _ _ _ _ E (og_sub _ _ H1)); congruence). by apply (og_closed _ _ H2 h x).
  - apply H2. by apply (og_closed _ _ H1 h x).
Qed.

(** The index shrinks with the orphans. *)
Lemma byPrev_free X o o' op : orphansOk X o → orphansOk X o' → orphans o' ⊆ orphans o → orphansByPrev o !! op = None → orphansByPrev o' !! op = None.
Proof.
  intros H1 H2 Hs Hn. destruct (orphansByPrev o' !! op) as [m|] eqn:E; [|done]. exfalso.
  destruct (map_choose m (oo_noEmpty _ _ H2 op m E)) as (h & t & Ht).
  assert (Hi : indexed (orphansByPrev o') op h = Some t) by (by rewrite E). apply (oo_index _ _ H2) in Hi as (HX & x & Hx & Hxt & Ho).
  assert (Hi : indexed (orphansByPrev o) op h = Some t); [|by rewrite Hn in Hi].
  apply (oo_index _ _ H1). split; [done|]. exists x. split; [by eapply lookup_weaken|done].
Qed.
Lemma byPrev_none X o op : orphansOk X o → (∀ h, indexed (orphansByPrev o) op h = None) → orphansByPrev o !! op = None.
Proof.
  intros H1 Hn. destruct (orphansByPrev o !! op) as [m|] eqn:E; [|done]. destruct (map_choose m (oo_noEmpty _ _ H1 op m E)) as (h & t & Ht).
  specialize (Hn h). cbn in Hn. congruence.
Qed.

(** The loop over the spenders of an output, for a body that removes one. *)
Lemma rangeByPrev_spec env X N f o prevOut : fairOrder env →
  (∀ o t, orphansOk X o → (size (dom (orphans o) ∖ X) <= N)%nat → (∃ op h, indexed (orphansByPrev o) op h = Some t) →
     ∃ o', f o t = Some o' ∧ orphansOk X o' ∧ orphansGone o o' ∧ orphans o' !! TxHash t = None) →
  orphansOk X o → (size (dom (orphans o) ∖ X) <= N)%nat →
  ∃ o', rangeByPrev env f o prevOut = Some o' ∧ orphansOk X o' ∧ orphansGone o o' ∧ orphansByPrev o' !! prevOut = None.
Proof.
  intros Hord Hf Hok HN. unfold rangeByPrev. set (ks := order env _ _).
  destruct (foldM_spec (λ o txHash, match indexed (orphansByPrev o) prevOut txHash with Some orphan => f o orphan | None => Some o end)
    (λ o', orphansOk X o' ∧ orphansGone o o') orphansGone (λ h o', indexed (orphansByPrev o') prevOut h = None) ks) with (s := tickOrphans o)
    as (o' & -> & [H1 H2] & H3 & H4).
  - intros s _. apply orphansGone_refl.
  - apply orphansGone_trans.
  - intros h s s' [H1 _] [H2 _] Hg Hn. destruct (indexed (orphansByPrev s') prevOut h) as [t|] eqn:E; [|done]. exfalso.
    apply (oo_index _ _ H2) in E as (HX & x & Hx & Hxt & Ho). assert (Hi : indexed (orphansByPrev s) prevOut h = Some t); [|congruence].
    apply (oo_index _ _ H1). split; [done|]. exists x. split; [by eapply lookup_weaken, og_sub|done].
  - intros s h [H1 H2] _. destruct (indexed (orphansByPrev s) prevOut h) as [t|] eqn:E.
    + destruct (Hf s t) as (s' & Es & H3 & H4 & H5); [done| |by exists prevOut, h|].
      { etrans; [|exact HN]. apply subseteq_size. pose proof (subseteq_dom _ _ (og_sub _ _ H2)). set_solver. }
      exists s'. split_and!; [done|done|by eapply orphansGone_trans|done|].
      destruct (indexed (orphansByPrev s') prevOut h) as [t'|] eqn:E'; [|done]. exfalso. apply (oo_index _ _ H3) in E' as (_ & x & Hx & _).
      apply (oo_index _ _ H1) in E as (_ & y & Hy & <- & _). rewrite (oo_key _ _ H1 _ _ Hy) in H5. congruence.
    + exists s. split_and!; try done. apply orphansGone_refl.
  - split; [by destruct Hok|]. by destruct (orphansGone_refl o).
  - exists o'. split_and!; try done. eapply byPrev_none; [done|]. intros h. destruct (indexed (orphansByPrev o') prevOut h) as [t|] eqn:E; [|done].
    rewrite <- E. apply H4. unfold ks. rewrite (Hord _ _). apply elem_of_elements, elem_of_dom.
    apply (oo_index _ _ H1) in E as (HX & x & Hx & Hxt & Ho). assert (Hi : indexed (orphansByPrev o) prevOut h = Some t).
    { apply (oo_index _ _ Hok). split; [done|]. exists x. split; [by eapply lookup_weaken, og_sub|done]. }
    destruct (orphansByPrev o !! prevOut) as [m|]; [by eexists|done].
Qed.

(** Unindexing an orphan that is about to go. *)
Lemma unindexed_ok X o h x : orphansOk X o → orphans o !! h = Some x → h ∉ X →
  orphansOk ({[h]} ∪ X) (setIndexed (foldl (unindexInput h) (orphansByPrev o) (tx_TxIn (ot_tx x))) o).
Proof.
  intros Hok Hx HX. split; cbn.
  - apply Hok.
  - intros op k t. rewrite unindex_lookup. destruct (decide (k = h)) as [->|Hk].
    + split; [|intros [Hn _]; set_solver]. case_decide as Hc; [done|]. intros Hi%(oo_index _ _ Hok). destruct Hi as (_ & y & Hy & <- & Ho).
      exfalso. apply Hc. split; [done|]. by assert (y = x) as -> by congruence.
    + rewrite decide_False by (by intros [? _]). rewrite (oo_index _ _ Hok). set_solver.
  - by apply unindex_noEmpty, Hok.
Qed.
Lemma deleted_ok X o h : orphansOk ({[h]} ∪ X) o → h ∉ X →
  orphansOk X (mkOrphanPool (delete h (orphans o)) (orphansByPrev o) (nextExpireScan o) (orphanTick o)).
Proof.
  intros Hok HX. split; cbn.
  - intros k x [_ Hx]%lookup_delete_Some. by apply Hok.
  - intros op k t. rewrite (oo_index _ _ Hok). setoid_rewrite lookup_delete_Some. set_solver.
  - apply Hok.
Qed.

Lemma removeOrphan_spec env : fairOrder env → ∀ fuel X o tx (r : bool), orphansOk X o → TxHash tx ∉ X → (size (dom (orphans o) ∖ X) < fuel)%nat →
  (r = true → ∀ x, orphans o !! TxHash tx = Some x → ot_tx x = tx) →
  ∃ o', removeOrphan sha256 env fuel o tx r = Some o' ∧ orphansOk X o' ∧ orphans o' !! TxHash tx = None ∧ nextExpireScan o' = nextExpireScan o
    ∧ if r then orphansGone o o' else orphans o' = delete (TxHash tx) (orphans o).
Proof.
  intros Hord. induction fuel as [|fuel IH]; intros X o tx r Hok HX Hf Hr; [lia|]. cbn [removeOrphan]. set (h := TxHash tx) in *.
  destruct (orphans o !! h) as [x|] eqn:Ex.
  2: { exists o. split_and!; try done. destruct r; [apply orphansGone_refl|by rewrite delete_id]. }
  pose proof (unindexed_ok X o h x Hok Ex HX) as Hok1. set (o1 := setIndexed _ o) in *. destruct r; cbn [mbind option_bind].
  2: { eexists. split; [done|]. split; [by apply (deleted_ok X o1 h)|]. cbn. by rewrite lookup_delete_eq. }
  specialize (Hr eq_refl x eq_refl).
  assert (Hd : (size (dom (orphans o1) ∖ ({[h]} ∪ X)) < fuel)%nat).
  { assert (h ∈ dom (orphans o) ∖ X) by (apply elem_of_difference; split; [by apply elem_of_dom|done]).
    assert (dom (orphans o1) ∖ ({[h]} ∪ X) ⊂ dom (orphans o) ∖ X) as Hs%subset_size by (cbn; set_solver). lia. }
  destruct (foldM_spec (rangeByPrev env (λ o orphan, removeOrphan sha256 env fuel o orphan true))
    (λ o', orphansOk ({[h]} ∪ X) o' ∧ orphansGone o1 o') orphansGone (λ op o', orphansByPrev o' !! op = None) (outputsOf h tx)) with (s := o1)
    as (o2 & -> & [H1 H2] & H3 & H4).
  - intros s _. apply orphansGone_refl.
  - apply orphansGone_trans.
  - intros op s s' _ _ Hg Hn. by apply Hg.
  - intros s op [H1 H2] _. destruct (rangeByPrev_spec env ({[h]} ∪ X) (size (dom (orphans s) ∖ ({[h]} ∪ X))) (λ o orphan, removeOrphan sha256 env fuel o orphan true) s op)
      as (s' & Es & H3 & H4 & H5); [done| |done|done|].
    + intros o' t Ho Hn (op' & k & Hk). apply (oo_index _ _ Ho) in Hk as (HkX & y & Hy & <- & Hop). pose proof (oo_key _ _ Ho _ _ Hy) as Hkey.
      destruct (IH ({[h]} ∪ X) o' (ot_tx y) true) as (o'' & E & G1 & G2 & G3 & G4); [done|by rewrite Hkey| |by intros _ z; rewrite Hkey, Hy; intros [= ->]|by exists o''].
      assert (size (dom (orphans s) ∖ ({[h]} ∪ X)) <= size (dom (orphans o1) ∖ ({[h]} ∪ X)))%nat; [|lia].
      apply subseteq_size. pose proof (subseteq_dom _ _ (og_sub _ _ H2)). set_solver.
    + exists s'. split_and!; try done. by eapply orphansGone_trans.
  - split; [done|apply orphansGone_refl].
  - cbn [mbind option_bind]. eexists. split; [done|]. split; [by apply deleted_ok|]. cbn. split; [by rewrite lookup_delete_eq|]. split; [by rewrite (og_scan _ _ H2)|].
    split; cbn.
    + etrans; [apply delete_subseteq|]. by apply (og_sub o1).
    + by apply (og_scan o1).
    + intros op Hn. apply (og_free _ _ H2). cbn. destruct (foldl _ _ _ !! op) as [m|] eqn:E; [|done].
      destruct (map_choose m (oo_noEmpty _ _ Hok1 op m E)) as (k & t & Ht). exfalso.
      assert (Hi : indexed (foldl (unindexInput h) (orphansByPrev o) (tx_TxIn (ot_tx x))) op k = Some t) by (by rewrite E).
      rewrite unindex_lookup in Hi. case_decide; [done|]. by rewrite Hn in Hi.
    + intros k y op Hy [->|Hk]%lookup_delete_None Ho; [|by apply (og_closed _ _ H2 k y)]. apply H4. by assert (y = x) as -> by congruence; rewrite <- Hr.
Qed.

(** ** Operations between which the index is complete *)
Lemma removeOrphanTop_spec env o tx (r : bool) : fairOrder env → orphansOk ∅ o → (r = true → ∀ x, orphans o !! TxHash tx = Some x → ot_tx x = tx) →
  ∃ o', removeOrphanTop sha256 env o tx r = Some o' ∧ orphansOk ∅ o' ∧ orphans o' !! TxHash tx = None ∧ nextExpireScan o' = nextExpireScan o
    ∧ if r then orphansGone o o' else orphans o' = delete (TxHash tx) (orphans o).
Proof.
  intros Hord Hok Hr. apply removeOrphan_spec; [done|done|set_solver| |done].
  unfold orphanFuel. rewrite difference_empty_L, size_dom. lia.
Qed.
Lemma tickOrphans_ok X o : orphansOk X o → orphansOk X (tickOrphans o).
Proof. intros [H1 H2 H3]. by split. Qed.
Lemma tickOrphans_gone o : orphansGone o (tickOrphans o).
Proof. destruct (orphansGone_refl o). by split. Qed.

(** A scan of the orphans that removes those which satisfy [P], with their redeemers. *)
Lemma rangeOrphans_spec {A} env (P : orphanTx → bool) (g : A → A) a o : fairOrder env → orphansOk ∅ o →
  ∃ a' o', rangeOrphans env (λ s otx, if P otx then o' ← removeOrphanTop sha256 env s.2 (ot_tx otx) true; Some (g s.1, o') else Some s) a o = Some (a', o')
    ∧ orphansOk ∅ o' ∧ orphansGone o o' ∧ ∀ h x, orphans o' !! h = Some x → P x = false.
Proof.
  intros Hord Hok. unfold rangeOrphans. set (f := λ (s : A * orphanPool) h, match orphans s.2 !! h with Some otx => _ | None => _ end).
  destruct (foldM_spec f (λ s, orphansOk ∅ s.2 ∧ orphansGone o s.2) (λ s s', orphansGone s.2 s'.2) (λ h s, ∀ x, orphans s.2 !! h = Some x → P x = false)
    (order env (orphanTick o) (dom (orphans o)))) with (s := (a, tickOrphans o)) as ([a' o'] & -> & [H1 H2] & _ & H3).
  - intros s _. apply orphansGone_refl.
  - intros s1 s2 s3. apply orphansGone_trans.
  - intros h s s' _ _ Hg Hn x Hx. apply Hn. by eapply lookup_weaken, og_sub.
  - intros s h [H1 H2] _. unfold f. destruct (orphans s.2 !! h) as [x|] eqn:Ex; [|by exists s; split_and!; [done..|apply orphansGone_refl|congruence]].
    destruct (P x) eqn:EP; [|exists s; split_and!; [done..|apply orphansGone_refl|congruence]].
    pose proof (oo_key _ _ H1 _ _ Ex) as Hk.
    destruct (removeOrphanTop_spec env s.2 (ot_tx x) true) as (o' & -> & G1 & G2 & G3 & G4); [done|done|by intros _ y; rewrite Hk, Ex; intros [= ->]|].
    cbn. eexists. split; [done|]. cbn. split_and!; [done|by eapply orphansGone_trans|done|]. intros y. rewrite <- Hk, G2. done.
  - cbn. split; [by apply tickOrphans_ok|apply tickOrphans_gone].
  - exists a', o'. split; [done|]. split_and!; [done|done|]. intros h x Hx. apply (H3 h); [|done].
    rewrite (Hord _ _). apply elem_of_elements, elem_of_dom. exists x. by eapply lookup_weaken, og_sub.
Qed.

Lemma RemoveOrphansByTag_spec env o tag : fairOrder env → orphansOk ∅ o →
  ∃ n o', RemoveOrphansByTag sha256 env o tag = Some (n, o') ∧ orphansOk ∅ o' ∧ orphansGone o o' ∧ ∀ h x, orphans o' !! h = Some x → ot_tag x ≠ tag.
Proof.
  intros Hord Hok. destruct (rangeOrphans_spec env (λ otx, ot_tag otx =? tag) (λ n, u64 (n + 1)) 0 o Hord Hok) as (n & o' & E & H1 & H2 & H3).
  exists n, o'. split_and!; try done. intros h x Hx. apply H3 in Hx. by apply Z.eqb_neq.
Qed.

Lemma size_delete_sub {A} (m m' : gmap bytes A) h : m' ⊆ delete h m → is_Some (m !! h) → (size m' < size m)%nat.
Proof.
  intros Hs [x Hx]. apply subseteq_dom, subseteq_size in Hs. rewrite !size_dom in Hs. rewrite <- (insert_delete_id m h x Hx). rewrite map_size_insert_None by apply lookup_delete_eq. lia.
Qed.

(** There is room for one more afterwards, and after a scan no orphan that had
    expired is left. *)
Lemma limitNumOrphans_spec env o : fairOrder env → orphansOk ∅ o →
  ∃ o', limitNumOrphans sha256 policy env o = Some o' ∧ orphansOk ∅ o' ∧ orphans o' ⊆ orphans o
    ∧ (0 < MaxOrphanTxs policy → Z.of_nat (size (orphans o)) <= MaxOrphanTxs policy → Z.of_nat (size (orphans o')) + 1 <= MaxOrphanTxs policy)
    ∧ (nextExpireScan o < clock env (orphanTick o) → ∀ h x, orphans o' !! h = Some x → clock env (orphanTick o) <= ot_expiration x).
Proof.
  intros Hord Hok. unfold limitNumOrphans. set (now := clock env (orphanTick o)). cbn [nextExpireScan tickOrphans].
  match goal with |- context [mbind ?k ?c] => assert (Hscan : ∃ o1, c = Some o1 ∧ orphansOk ∅ o1 ∧ orphans o1 ⊆ orphans o
    ∧ (nextExpireScan o < now → ∀ h x, orphans o1 !! h = Some x → now <= ot_expiration x)) end.
  { destruct (Z.ltb_spec (nextExpireScan o) now) as [Hn|Hn].
    - destruct (rangeOrphans_spec env (λ otx, ot_expiration otx <? now) (λ _, tt) tt (tickOrphans o) Hord (tickOrphans_ok _ _ Hok)) as (a & o1 & -> & H1 & H2 & H3).
      cbn. eexists. split; [done|]. cbn. split; [destruct H1; by split|]. split; [apply (og_sub _ _ H2)|]. intros _ h x Hx. apply H3 in Hx. by apply Z.ltb_ge.
    - eexists. split; [done|]. split; [by apply tickOrphans_ok|]. split; [done|]. lia. }
  destruct Hscan as (o1 & -> & Hok1 & Hs1 & He). cbn [mbind option_bind].
  assert (Hsz : (size (orphans o1) <= size (orphans o))%nat) by (apply subseteq_dom, subseteq_size in Hs1; by rewrite !size_dom in Hs1).
  destruct (Z.leb_spec (Z.of_nat (size (orphans o1)) + 1) (MaxOrphanTxs policy)) as [Hb|Hb].
  { exists o1. by split_and!. }
  pose proof (Hord (orphanTick o1) (dom (orphans o1))) as Hp. destruct (order env _ _) as [|h l].
  { symmetry in Hp. apply Permutation_nil_r, elements_empty_inv in Hp. apply leibniz_equiv in Hp. eexists. split; [done|]. split; [by apply tickOrphans_ok|]. split; [done|].
    split; [|done]. intros H0 _. apply (f_equal size) in Hp. rewrite size_dom, size_empty in Hp. lia. }
  assert (Hh : h ∈ dom (orphans o1)) by (apply elem_of_elements; rewrite <- Hp; by left). apply elem_of_dom in Hh as [x Hx]. rewrite Hx.
  destruct (removeOrphanTop_spec env (tickOrphans o1) (ot_tx x) false Hord (tickOrphans_ok _ _ Hok1) ltac:(done)) as (o2 & -> & H1 & H2 & H3 & H4).
  rewrite (oo_key _ _ Hok1 _ _ Hx) in H4. cbn in H4. exists o2. split_and!; try done.
  - rewrite H4. etrans; [apply delete_subseteq|done].
  - intros _ Hm. pose proof (size_delete_sub (orphans o1) (orphans o2) h) as Hd. rewrite H4 in Hd at 1. specialize (Hd ltac:(done) ltac:(by eexists)). lia.
  - intros Hn k y Hy. rewrite H4 in Hy. apply lookup_delete_Some in Hy as [_ Hy]. by apply (He Hn k).
Qed.

Lemma addOrphan_spec env o tx tag : fairOrder env → orphansOk ∅ o → orphans o !! TxHash tx = None → Z.of_nat (size (orphans o)) <= Z.max 0 (MaxOrphanTxs policy) →
  ∃ o', addOrphan sha256 policy env o tx tag = Some o' ∧ orphansOk ∅ o' ∧ Z.of_nat (size (orphans o')) <= Z.max 0 (MaxOrphanTxs policy)
    ∧ ∀ h x, orphans o' !! h = Some x → orphans o !! h = Some x ∨ h = TxHash tx ∧ ot_tx x = tx ∧ ot_tag x = tag.
Proof.
  intros Hord Hok Hnew Hb. unfold addOrphan. destruct (Z.leb_spec (MaxOrphanTxs policy) 0) as [Hm|Hm].
  { exists o. split_and!; try done. intros h x Hx. by left. }
  destruct (limitNumOrphans_spec env o Hord Hok) as (o1 & -> & H1 & H2 & H3 & H4). cbn [mbind option_bind]. eexists. split; [done|]. split; [|split]; cbn.
  - split; cbn.
    + intros h x [[<- <-]|[_ Hx]]%lookup_insert_Some; [done|]. by apply H1.
    + intros op h t. rewrite index_lookup. destruct (decide (h = TxHash tx)) as [->|Hh].
      * setoid_rewrite lookup_insert_eq. destruct (decide (op ∈ insOf tx)) as [Ho|Ho].
        { rewrite decide_True by done. split; [intros [= <-]; split; [set_solver|]; by eexists|]. by intros (_ & x & [= <-] & <- & _). }
        rewrite decide_False by (by intros [_ ?]). split; [|by intros (_ & x & [= <-] & <- & ?)].
        intros Hi%(oo_index _ _ H1). destruct Hi as (_ & x & Hx & <- & Hi). pose proof (lookup_weaken _ _ _ _ Hx H2). congruence.
      * rewrite decide_False by (by intros [? _]). setoid_rewrite lookup_insert_ne; [|done]. apply H1.
    + by apply index_noEmpty, H1.
  - rewrite map_size_insert_None; [specialize (H3 Hm); lia|]. destruct (orphans o1 !! TxHash tx) as [x|] eqn:E; [|done]. pose proof (lookup_weaken _ _ _ _ E H2). congruence.
  - intros h x [[<- <-]|[_ Hx]]%lookup_insert_Some; [by right|]. left. by eapply lookup_weaken.
Qed.
Lemma maybeAddOrphan_spec env o tx tag : fairOrder env → orphansOk ∅ o → orphans o !! TxHash tx = None → Z.of_nat (size (orphans o)) <= Z.max 0 (MaxOrphanTxs policy) →
  ∃ r o', maybeAddOrphan sha256 policy env o tx tag = Some (r, o') ∧ orphansOk ∅ o' ∧ Z.of_nat (size (orphans o')) <= Z.max 0 (MaxOrphanTxs policy)
    ∧ ∀ h x, orphans o' !! h = Some x → orphans o !! h = Some x ∨ h = TxHash tx ∧ ot_tx x = tx ∧ ot_tag x = tag.
Proof.
  intros Hord Hok Hnew Hb. unfold maybeAddOrphan. destruct (MaxOrphanTxSize policy <? SerializeSize tx).
  - eexists _, o. split_and!; try done. intros h x Hx. by left.
  - destruct (addOrphan_spec env o tx tag Hord Hok Hnew Hb) as (o' & -> & H). eexists _, o'. by split.
Qed.

Lemma removeOrphanDoubleSpends_spec env o tx : fairOrder env → orphansOk ∅ o →
  ∃ o', removeOrphanDoubleSpends sha256 env o tx = Some o' ∧ orphansOk ∅ o' ∧ orphansGone o o' ∧ ∀ op, op ∈ insOf tx → orphansByPrev o' !! op = None.
Proof.
  intros Hord Hok. unfold removeOrphanDoubleSpends.
  destruct (foldM_spec (rangeByPrev env (λ o orphan, removeOrphanTop sha256 env o orphan true)) (orphansOk ∅) orphansGone (λ op o', orphansByPrev o' !! op = None) (insOf tx)) with (s := o)
    as (o' & -> & H1 & H2 & H3); [intros; apply orphansGone_refl|apply orphansGone_trans|by intros op s s' _ _ Hg Hn; apply Hg| |done|by exists o'].
  intros s op Hs _. apply (rangeByPrev_spec env ∅ (size (dom (orphans s) ∖ ∅))); [done| |done|done].
  intros o' t Ho _ (op' & k & Hk). apply (oo_index _ _ Ho) in Hk as (_ & y & Hy & <- & Hop). pose proof (oo_key _ _ Ho _ _ Hy) as Hkey.
  destruct (removeOrphanTop_spec env o' (ot_tx y) true) as (o'' & E & G1 & G2 & G3 & G4); [done|done|by intros _ z; rewrite Hkey, Hy; intros [= ->]|by exists o''].
Qed.
End inv.
