(* ===== verification/MempoolMain.v ===== *)
(** * The main pool of the mempool: invariants (src/node/mempool/mempool.go)

    The outpoints are exactly the inputs of the pool, so no two transactions of
    the pool spend the same output; the size is the sum of the serialized sizes
    in uint64; the heap holds the fee rates of the pool.  While [trimToSize] works
    the hashes of [X] have left the heap and not yet the pool.

    Transactions form an acyclic graph: a transaction names its parents by hash.
    This is the [rank] the lemmas assume for the transactions of the pool. *)
From Stdlib Require Import ZArith Lia Strings.Byte.
From stdpp Require Import base gmap list.
From S2P Require Import Prelude RuleErrors WireTx Merkle Script Utxo Covenant TxRules FeeHeap MempoolPolicy Mempool MempoolOrphans.
Import InferenceGo.
Open Scope Z_scope.
Open Scope list_scope.

Definition sizeOf (d : TxDesc) : Z := u64 (SerializeSize (td_Tx d)).
Definition sumSizes (p : gmap bytes TxDesc) : Z := map_fold (λ _ d s, sizeOf d + s) 0 p.
(** The fee rates and sizes the heap should hold. *)
Definition feeView (X : gset bytes) (p : gmap bytes TxDesc) : gmap bytes (Z * Z) :=
  (λ d, (td_FeePerKB d, i64 (sizeOf d))) <$> filter (λ kv, kv.1 ∉ X) p.

Lemma sumSizes_delete p h d : p !! h = Some d → sumSizes p = sizeOf d + sumSizes (delete h p).
Proof. intros Hd. unfold sumSizes. apply (map_fold_delete_L (λ _ d s, sizeOf d + s) 0 h d p); [|done]. intros. lia. Qed.
Lemma sumSizes_insert p h d : p !! h = None → sumSizes (<[h := d]> p) = sizeOf d + sumSizes p.
Proof. intros Hd. rewrite (sumSizes_delete _ h d) by apply lookup_insert_eq. by rewrite delete_insert_id. Qed.
Lemma sumSizes_nonneg p : 0 <= sumSizes p.
Proof.
  unfold sumSizes. apply (map_fold_weak_ind (λ s _, 0 <= s)); [lia|]. intros h d p' s _ Hs.
  pose proof (wrapU_in 64 (SerializeSize (td_Tx d)) ltac:(lia)) as [H _]. unfold sizeOf. lia.
Qed.
Lemma feeView_delete X p h : feeView X (delete h p) = delete h (feeView X p).
Proof. unfold feeView. by rewrite map_filter_delete, fmap_delete. Qed.
Lemma feeView_insert p h d : feeView ∅ (<[h := d]> p) = <[h := (td_FeePerKB d, i64 (sizeOf d))]> (feeView ∅ p).
Proof. unfold feeView. rewrite map_filter_insert_True by (cbn; set_solver). by rewrite fmap_insert. Qed.
Lemma feeView_lookup X p h v : feeView X p !! h = Some v ↔ h ∉ X ∧ ∃ d, p !! h = Some d ∧ v = (td_FeePerKB d, i64 (sizeOf d)).
Proof. unfold feeView. rewrite lookup_fmap_Some. setoid_rewrite map_lookup_filter_Some. cbn. naive_solver. Qed.
Lemma feeView_pop X p h : feeView ({[h]} ∪ X) p = delete h (feeView X p).
Proof.
  apply map_eq. intros k. apply option_eq. intros v. rewrite lookup_delete_Some, !feeView_lookup. set_solver.
Qed.
Lemma feeView_forget X p h : p !! h = None → feeView ({[h]} ∪ X) p = feeView X p.
Proof. intros Hn. rewrite feeView_pop, delete_id; [done|]. apply eq_None_not_Some. intros [v Hv]. apply feeView_lookup in Hv as (_ & d & Hd & _). congruence. Qed.

Lemma foldl_delete_lookup (ops : gmap OutPoint MsgTx) ins op :
  foldl (λ ops txIn, delete (ti_PreviousOutPoint txIn) ops) ops ins !! op = if decide (op ∈ ti_PreviousOutPoint <$> ins) then None else ops !! op.
Proof.
  revert ops. induction ins as [|ti ins IH]; intros ops; cbn [foldl].
  - rewrite decide_False; [done|]. apply not_elem_of_nil.
  - rewrite IH, fmap_cons. destruct (decide (op = ti_PreviousOutPoint ti)) as [->|Hn].
    + rewrite (decide_True (P := _ ∈ _ :: _)) by (by left). case_decide; [done|]. by rewrite lookup_delete_eq.
    + rewrite lookup_delete_ne by done. apply decide_ext. rewrite elem_of_cons. naive_solver.
Qed.
Lemma foldl_insert_lookup (ops : gmap OutPoint MsgTx) tx ins op :
  foldl (λ ops txIn, <[ti_PreviousOutPoint txIn := tx]> ops) ops ins !! op = if decide (op ∈ ti_PreviousOutPoint <$> ins) then Some tx else ops !! op.
Proof.
  revert ops. induction ins as [|ti ins IH]; intros ops; cbn [foldl].
  - rewrite decide_False; [done|]. apply not_elem_of_nil.
  - rewrite IH, fmap_cons. destruct (decide (op = ti_PreviousOutPoint ti)) as [->|Hn].
    + rewrite (decide_True (P := _ ∈ _ :: _)) by (by left). case_decide; [done|]. by rewrite lookup_insert_eq.
    + rewrite lookup_insert_ne by done. apply decide_ext. rewrite elem_of_cons. naive_solver.
Qed.

Section inv.
Context (sha256 : bytes → bytes) (rank : bytes → nat).
Abbreviation TxHash := (TxHash sha256).

(** The parents of a transaction come before it. *)
Definition ranked (tx : MsgTx) : Prop := ∀ op, op ∈ insOf tx → (rank (op_Hash op) < rank (TxHash tx))%nat.

Record mainOk (X : gset bytes) (m : mainPool) : Prop := {
  mo_key h d : pool m !! h = Some d → TxHash (td_Tx d) = h;
  mo_out op t : outpoints m !! op = Some t ↔ ∃ d, pool m !! TxHash t = Some d ∧ td_Tx d = t ∧ op ∈ insOf t;
  mo_bytes : poolBytes m = u64 (sumSizes (pool m));
  mo_heap : feeHeap (feeView X (pool m)) (feeRateHeap m);
  mo_rank h d : pool m !! h = Some d → ranked (td_Tx d);
  mo_fee h d : pool m !! h = Some d → 0 <= td_Fee d <= MaxGrain }.

(** A removal: transactions leave, and no transaction that is left spends an
    output of one that is gone. *)
Record mainGone (m m' : mainPool) : Prop := {
  mg_sub : pool m' ⊆ pool m;
  mg_free op : outpoints m !! op = None → outpoints m' !! op = None;
  mg_closed h d op : pool m !! h = Some d → pool m' !! h = None → op ∈ outputsOf h (td_Tx d) → outpoints m' !! op = None }.
Lemma mainGone_refl m : mainGone m m.
Proof. split; [done|done|]. intros h d op Hd Hn. congruence. Qed.
Lemma mainGone_trans m1 m2 m3 : mainGone m1 m2 → mainGone m2 m3 → mainGone m1 m3.
Proof.
  intros H1 H2. split; [by etrans; [apply H2|apply H1]|intros op Ho; by apply H2, H1|].
  intros h d op Hd Hn Ho. destruct (pool m2 !! h) as [e|] eqn:E.
  - assert (e = d) as -> by (pose proof (lookup_weaken _ _ _ _ E (mg_sub _ _ H1)); congruence). by apply (mg_closed _ _ H2 h d).
  - apply H2. by apply (mg_closed _ _ H1 h d).
Qed.

Lemma outpoints_sub X m m' op t : mainOk X m → mainOk X m' → pool m' ⊆ pool m → outpoints m' !! op = Some t → outpoints m !! op = Some t.
Proof.
  intros H1 H2 Hs Ht. apply (mo_out _ _ H2) in Ht as (d & Hd & Htx & Ho). apply (mo_out _ _ H1). exists d. split; [by eapply lookup_weaken|done].
Qed.
Lemma outpoints_free X m m' op : mainOk X m → mainOk X m' → pool m' ⊆ pool m → outpoints m !! op = None → outpoints m' !! op = None.
Proof.
  intros H1 H2 Hs Hn. destruct (outpoints m' !! op) as [t|] eqn:E; [|done]. pose proof (outpoints_sub _ _ _ _ _ H1 H2 Hs E). congruence.
Qed.

(** One transaction leaves the pool. *)
Definition dropTx (m : mainPool) (h : bytes) (d : TxDesc) (heap : txFeeRateHeap) (t : Z) (n : nat) : mainPool :=
  mkMainPool (delete h (pool m)) (foldl (λ ops txIn, delete (ti_PreviousOutPoint txIn) ops) (outpoints m) (tx_TxIn (td_Tx d)))
    (u64 (poolBytes m - u64 (SerializeSize (td_Tx d)))) heap t n.
Lemma dropTx_ok X m h d heap t n : mainOk X m → pool m !! h = Some d → feeHeap (delete h (feeView X (pool m))) heap → mainOk X (dropTx m h d heap t n).
Proof.
  intros Hok Hd Hh. pose proof (mo_key _ _ Hok _ _ Hd) as Hk. split; cbn.
  - intros k e [_ He]%lookup_delete_Some. by apply Hok.
  - intros op u. rewrite foldl_delete_lookup. setoid_rewrite lookup_delete_Some. split.
    + case_decide as Ho; [done|]. intros (e & He & Ht & Hu)%(mo_out _ _ Hok). exists e. split_and!; try done. intros Hhu. rewrite <- Hhu, Hd in He. injection He as <-. by subst u.
    + intros (e & [Hne He] & Ht & Ho). assert (Hu : outpoints m !! op = Some u) by (apply Hok; by exists e). rewrite decide_False; [done|].
      intros Hin. apply Hne. assert (Hw : outpoints m !! op = Some (td_Tx d)) by (apply Hok; exists d; by rewrite Hk). congruence.
  - rewrite (mo_bytes _ _ Hok), (sumSizes_delete _ h d Hd). unfold sizeOf, wrapU. rewrite Zminus_mod_idemp_l. f_equal. lia.
  - by rewrite feeView_delete.
  - intros k e [_ He]%lookup_delete_Some. by apply (mo_rank _ _ Hok k).
  - intros k e [_ He]%lookup_delete_Some. by apply (mo_fee _ _ Hok k).
Qed.

(** The pool transactions that come after [h]. *)
Definition later (m : mainPool) (h : bytes) : gset bytes := filter (λ k, (rank h < rank k)%nat) (dom (pool m)).
Lemma later_lt m m' h k : pool m' ⊆ pool m → k ∈ dom (pool m) → (rank h < rank k)%nat → (size (later m' k) < size (later m h))%nat.
Proof.
  intros Hs Hk Hr. apply subset_size. pose proof (subseteq_dom _ _ Hs). unfold later. split.
  - intros x. rewrite !elem_of_filter. intros [Hx Hd]. split; [lia|set_solver].
  - intros Hc. specialize (Hc k). rewrite !elem_of_filter in Hc. destruct Hc as [Hlt _]; [done|lia].
Qed.

Lemma op_Hash_outputsOf h tx op : op ∈ outputsOf h tx → op_Hash op = h.
Proof. unfold outputsOf. by intros (i & -> & _)%list_elem_of_fmap. Qed.

(** The pool's transaction of this hash, if any, has as many outputs. *)
Definition sameOutputs (m : mainPool) (tx : MsgTx) : Prop := ∀ d, pool m !! TxHash tx = Some d → length (tx_TxOut (td_Tx d)) = length (tx_TxOut tx).

Lemma removeTransaction_spec env : ∀ fuel X m tx (r : bool), mainOk X m → (size (later m (TxHash tx)) < fuel)%nat →
  ∃ m', removeTransaction sha256 env fuel m tx r = Some m' ∧ mainOk X m' ∧ pool m' !! TxHash tx = None
    ∧ if r then pool m' ⊆ pool m ∧ (∀ op, op ∈ outputsOf (TxHash tx) tx → outpoints m' !! op = None) ∧ (sameOutputs m tx → mainGone m m')
      else pool m' = delete (TxHash tx) (pool m).
Proof.
  induction fuel as [|fuel IH]; intros X m tx r Hok Hf; [lia|]. cbn [removeTransaction]. set (h := TxHash tx) in *.
  assert (Hloop : ∃ m1, (if r then foldM (λ m prevOut, match outpoints m !! prevOut with Some txRedeemer => removeTransaction sha256 env fuel m txRedeemer true | None => Some m end) m (outputsOf h tx)
      else Some m) = Some m1 ∧ mainOk X m1 ∧ mainGone m m1 ∧ if r then ∀ op, op ∈ outputsOf h tx → outpoints m1 !! op = None else m1 = m).
  { destruct r; [|exists m; split_and!; [done..|apply mainGone_refl|done]].
    destruct (foldM_spec (λ m prevOut, match outpoints m !! prevOut with Some txRedeemer => removeTransaction sha256 env fuel m txRedeemer true | None => Some m end)
      (λ m', mainOk X m' ∧ mainGone m m') mainGone (λ op m', outpoints m' !! op = None) (outputsOf h tx)) with (s := m) as (m1 & -> & [H1 H2] & _ & H3).
    - intros s _. apply mainGone_refl.
    - apply mainGone_trans.
    - intros op s s' _ _ Hg Hn. by apply Hg.
    - intros s op [H1 H2] Hop. destruct (outpoints s !! op) as [t|] eqn:Et; [|exists s; split_and!; [done..|apply mainGone_refl|done]].
      pose proof Et as (d & Hd & Htx & Hin)%(mo_out _ _ H1). pose proof (mo_rank _ _ H1 _ _ Hd) as Hrk. rewrite Htx in Hrk. specialize (Hrk op Hin).
      rewrite (op_Hash_outputsOf _ _ _ Hop) in Hrk. pose proof (lookup_weaken _ _ _ _ Hd (mg_sub _ _ H2)) as Hdm.
      destruct (IH X s t true) as (s' & -> & G1 & G2 & Gs & _ & G3); [done| |].
      { pose proof (later_lt m s h (TxHash t) (mg_sub _ _ H2)) as Hl. specialize (Hl ltac:(by eapply elem_of_dom_2) Hrk). lia. }
      assert (Hsame : sameOutputs s t) by (intros e; rewrite Hd; intros [= <-]; by rewrite Htx). specialize (G3 Hsame).
      exists s'. split_and!; [done|done|by eapply mainGone_trans|done|]. destruct (outpoints s' !! op) as [t'|] eqn:E; [|done]. exfalso.
      pose proof (outpoints_sub _ _ _ _ _ H1 G1 (mg_sub _ _ G3) E) as E'. assert (t' = t) as -> by congruence.
      apply (mo_out _ _ G1) in E as (e & He & _). congruence.
    - split; [done|apply mainGone_refl].
    - exists m1. by split_and!. }
  destruct Hloop as (m1 & -> & Hok1 & Hg & Hl). cbn [mbind option_bind]. destruct (pool m1 !! h) as [d|] eqn:Ed.
  - destruct (Remove_spec _ (feeRateHeap m1) h (mo_heap _ _ Hok1)) as (heap & -> & Hh). cbn [mbind option_bind]. eexists. split; [done|].
    pose proof (dropTx_ok X m1 h d heap (clock env (mainTick m1)) (S (mainTick m1)) Hok1 Ed Hh) as Hok2. unfold dropTx in Hok2. split; [done|]. cbn.
    split; [by rewrite lookup_delete_eq|]. destruct r; [|by rewrite Hl].
    assert (Hfree : ∀ op, outpoints m1 !! op = None → foldl (λ ops txIn, delete (ti_PreviousOutPoint txIn) ops) (outpoints m1) (tx_TxIn (td_Tx d)) !! op = None)
      by (intros op Hn; rewrite foldl_delete_lookup, Hn; by case_decide).
    assert (Hsub : delete h (pool m1) ⊆ pool m) by (etrans; [apply delete_subseteq|apply Hg]).
    split; [done|]. split; [intros op Ho; by apply Hfree, Hl|]. intros Hr. split; cbn.
    + done.
    + intros op Hn. by apply Hfree, Hg.
    + intros k e op He [<-|Hk]%lookup_delete_None Ho; apply Hfree; [|by apply (mg_closed _ _ Hg k e)]. apply Hl. unfold outputsOf in *. by rewrite <- (Hr e He).
  - exists m1. split; [done|]. split; [done|]. split; [done|]. destruct r; [by split; [apply Hg|]|]. subst m1. by rewrite delete_id.
Qed.

Lemma removeTx_spec env X m tx (r : bool) : mainOk X m →
  ∃ m', removeTx sha256 env m tx r = Some m' ∧ mainOk X m' ∧ pool m' !! TxHash tx = None
    ∧ if r then pool m' ⊆ pool m ∧ (∀ op, op ∈ outputsOf (TxHash tx) tx → outpoints m' !! op = None) ∧ (sameOutputs m tx → mainGone m m')
      else pool m' = delete (TxHash tx) (pool m).
Proof.
  intros Hok. apply removeTransaction_spec; [done|]. unfold poolFuel. rewrite <- (size_dom (D := gset bytes)).
  pose proof (subseteq_size (later m (TxHash tx)) (dom (pool m))) as Hs. unfold later in *. specialize (Hs ltac:(set_solver)). lia.
Qed.
(** A transaction of the pool. *)
Lemma removeTx_member env X m h d : mainOk X m → pool m !! h = Some d →
  ∃ m', removeTx sha256 env m (td_Tx d) true = Some m' ∧ mainOk X m' ∧ pool m' !! h = None ∧ mainGone m m'.
Proof.
  intros Hok Hd. pose proof (mo_key _ _ Hok _ _ Hd) as Hk.
  destruct (removeTx_spec env X m (td_Tx d) true Hok) as (m' & E & H1 & H2 & _ & _ & H3).
  exists m'. rewrite <- Hk. split_and!; [done..|]. apply H3. intros e. rewrite Hk, Hd. by intros [= <-].
Qed.

(** ** Adding and trimming *)
Lemma addTransaction_spec env m tx height fee : mainOk ∅ m → pool m !! TxHash tx = None → (∀ op, op ∈ insOf tx → outpoints m !! op = None) → ranked tx → 0 <= fee <= MaxGrain →
  ∃ txD m', addTransaction sha256 env m tx height fee = Some (txD, m') ∧ mainOk ∅ m' ∧ pool m' = <[TxHash tx := txD]> (pool m)
    ∧ td_Tx txD = tx ∧ td_Fee txD = fee ∧ td_FeePerKB txD = feeRateOf fee (GetTransactionVsize tx).
Proof.
  intros Hok Hn Hfree Hr Hfee. unfold addTransaction. cbn [td_FeePerKB].
  destruct (Add_spec _ (feeRateHeap m) (TxHash tx) (feeRateOf fee (GetTransactionVsize tx)) (i64 (u64 (SerializeSize tx))) (mo_heap _ _ Hok)) as (heap & -> & Hh).
  { apply eq_None_not_Some. intros [v Hv]. apply feeView_lookup in Hv as (_ & d & Hd & _). congruence. }
  cbn [mbind option_bind]. eexists _, _. split; [done|]. split; [|done]. split; cbn.
  - intros h d [[<- <-]|[_ Hd]]%lookup_insert_Some; [done|by apply Hok].
  - intros op t. rewrite foldl_insert_lookup. split.
    + case_decide as Ho.
      * intros [= <-]. eexists. rewrite lookup_insert_eq. split_and!; try done.
      * intros (d & Hd & Ht & Hi)%(mo_out _ _ Hok). exists d. split_and!; try done. rewrite lookup_insert_ne; [done|]. intros E. rewrite E, Hd in Hn. done.
    + intros (d & [[E <-]|[Hne Hd]]%lookup_insert_Some & Ht & Ho).
      * cbn in Ht. subst t. by rewrite decide_True.
      * assert (Hu : outpoints m !! op = Some t) by (apply Hok; by exists d). rewrite decide_False; [done|]. intros Hin. apply Hfree in Hin. congruence.
  - rewrite (mo_bytes _ _ Hok), sumSizes_insert by done. unfold sizeOf, wrapU. cbn. rewrite Zplus_mod_idemp_l. f_equal. lia.
  - rewrite feeView_insert. done.
  - intros h d [[<- <-]|[_ Hd]]%lookup_insert_Some; [done|by apply (mo_rank _ _ Hok h)].
  - intros h d [[<- <-]|[_ Hd]]%lookup_insert_Some; [done|by apply (mo_fee _ _ Hok h)].
Qed.

Lemma mainOk_weaken X m h : mainOk ({[h]} ∪ X) m → pool m !! h = None → mainOk X m.
Proof. intros [H1 H2 H3 H4 H5 H6] Hn. split; try done. by rewrite feeView_forget in H4. Qed.
Lemma feeView_empty p : feeView ∅ p = ∅ → p = ∅.
Proof.
  intros E. apply map_empty. intros h. destruct (p !! h) as [d|] eqn:Ed; [|done].
  assert (feeView ∅ p !! h = Some (td_FeePerKB d, i64 (sizeOf d))) as Hv by (apply feeView_lookup; split; [set_solver|by exists d]). by rewrite E in Hv.
Qed.
Lemma feeView_size p : size (feeView ∅ p) = size p.
Proof. unfold feeView. rewrite map_size_fmap. f_equal. apply map_filter_id. intros h d _. cbn. set_solver. Qed.

(** The fee rate [floor] of the last transaction that [trimToSize] took is at
    most that of every transaction that stayed. *)
Lemma trimLoop_spec policy env : 0 <= MaxMempoolSize policy → ∀ fuel m floor, mainOk ∅ m → (size (pool m) <= fuel)%nat →
  ∃ m' floor', trimLoop sha256 policy env fuel m floor = Some (m', floor') ∧ mainOk ∅ m' ∧ mainGone m m' ∧ poolBytes m' <= MaxMempoolSize policy
    ∧ (m' = m ∧ floor' = floor ∨ ∀ h d, pool m' !! h = Some d → floor' <= td_FeePerKB d).
Proof.
  intros Hmax. assert (Hexit : ∀ m floor, mainOk ∅ m → (MaxMempoolSize policy <? poolBytes m) && (0 <? Len (feeRateHeap m))%nat = false →
    ∃ m' floor', Some (m, floor) = Some (m', floor') ∧ mainOk ∅ m' ∧ mainGone m m' ∧ poolBytes m' <= MaxMempoolSize policy
    ∧ (m' = m ∧ floor' = floor ∨ ∀ h d, pool m' !! h = Some d → floor' <= td_FeePerKB d)).
  { intros m floor Hok E. exists m, floor. split_and!; [done|done|apply mainGone_refl| |by left].
    apply andb_false_iff in E as [E|E]; [by apply Z.ltb_ge|]. apply Nat.ltb_ge in E.
    assert (E0 : Len (feeRateHeap m) = 0%nat) by lia. apply (Len_zero _ _ (mo_heap _ _ Hok)), feeView_empty in E0. rewrite (mo_bytes _ _ Hok), E0. done. }
  induction fuel as [|fuel IH]; intros m floor Hok Hf; cbn [trimLoop]; destruct (_ && _) eqn:E; try (by apply Hexit).
  { apply andb_true_iff in E as [_ E]. apply Nat.ltb_lt in E. rewrite (Len_size _ _ (mo_heap _ _ Hok)), feeView_size in E. lia. }
  destruct (PopMin_spec (feeView ∅ (pool m)) (feeRateHeap m) (mo_heap _ _ Hok)) as (e & heap & -> & He & Hh & Hmin).
  { intros E0. apply (Len_zero _ _ (mo_heap _ _ Hok)) in E0. rewrite E0, andb_false_r in E. done. }
  cbn [mbind option_bind]. set (m1 := mkMainPool _ _ _ heap _ _). apply feeView_lookup in He as (_ & d & Hd & Hv). injection Hv as Hfee _.
  assert (Hok1 : mainOk ({[fe_txHash e]} ∪ ∅) m1) by (destruct Hok; split; try done; cbn; by rewrite feeView_pop).
  change (pool m1) with (pool m). rewrite Hd. destruct (removeTx_member env _ m1 (fe_txHash e) d Hok1 Hd) as (m2 & -> & H1 & H2 & H3). cbn [mbind option_bind].
  pose proof (mainOk_weaken _ _ _ H1 H2) as Hok2. assert (Hg : mainGone m m2) by (destruct H3; by split).
  destruct (IH m2 (fe_feePerKB e) Hok2) as (m3 & floor' & -> & G1 & G2 & G3 & G4).
  { pose proof (size_delete_sub (pool m) (pool m2) (fe_txHash e)) as Hs. assert (pool m2 ⊆ delete (fe_txHash e) (pool m)) as Hsub.
    { apply map_subseteq_spec. intros k x Hx. apply lookup_delete_Some. split; [intros <-; congruence|]. by eapply lookup_weaken, Hg. }
    specialize (Hs Hsub ltac:(by eexists)). lia. }
  exists m3, floor'. split_and!; [done|done|by eapply mainGone_trans|done|]. right. destruct G4 as [[-> ->]|G4]; [|done].
  intros h x Hx. destruct (Hmin h (td_FeePerKB x) (i64 (sizeOf x))) as [Hlt|[Heq _]]; [|lia..].
  apply feeView_lookup. split; [set_solver|]. exists x. split; [|done]. by eapply lookup_weaken, Hg.
Qed.

Lemma trimToSize_spec policy env m floor : 0 <= MaxMempoolSize policy → mainOk ∅ m →
  ∃ m' floor', trimToSize sha256 policy env m floor = Some (m', floor') ∧ mainOk ∅ m' ∧ mainGone m m'
    ∧ (MaxMempoolSize policy = 0 ∧ m' = m ∨ poolBytes m' <= MaxMempoolSize policy
       ∧ (m' = m ∨ ∀ h d, pool m' !! h = Some d → floor' <= td_FeePerKB d)).
Proof.
  intros Hmax Hok. unfold trimToSize. destruct (Z.eqb_spec (MaxMempoolSize policy) 0) as [E|E].
  - exists m, floor. split_and!; [done|done|apply mainGone_refl|by left].
  - destruct (Z.leb_spec (poolBytes m) (MaxMempoolSize policy)) as [Hb|Hb].
    + exists m, 0. split_and!; [done|done|apply mainGone_refl|right; split; [done|by left]].
    + destruct (trimLoop_spec policy env Hmax (Len (feeRateHeap m)) m floor Hok) as (m' & floor' & E' & H1 & H2 & H3 & H4).
      { rewrite (Len_size _ _ (mo_heap _ _ Hok)), feeView_size. lia. }
      exists m', floor'. split_and!; try done. right. split; [done|]. destruct H4 as [[? ?]|?]; [by left|by right].
Qed.
End inv.
