(* ===== verification/MempoolRbf.v ===== *)
(** * Ancestors, descendants and replacement (src/node/mempool/mempool.go)

    [txAncestors] and [txDescendants] are one recursion over the direct relatives
    of a transaction with a cache of finished sets; they return exactly the
    transactions that can be reached.  [signalsReplacement] stops at the first
    signal and caches the ancestors without one; it decides whether a transaction
    or an ancestor in the pool signals.  An accepted replacement pays for
    everything it evicts. *)
From Stdlib Require Import ZArith Lia Strings.Byte.
From stdpp Require Import base gmap list.
From S2P Require Import Prelude RuleErrors WireTx Merkle Script Utxo Covenant TxRules FeeHeap MempoolPolicy Mempool MempoolOrphans MempoolMain.
Import InferenceGo.
Open Scope Z_scope.
Open Scope list_scope.

Lemma foldM_ext {S A} (f g : S → A → option S) l : (∀ s a, a ∈ l → f s a = g s a) → ∀ s, foldM f s l = foldM g s l.
Proof.
  induction l as [|a l IH]; intros Hfg s; [done|]. cbn. rewrite Hfg by (by left). destruct (g s a); cbn; [|done]. apply IH. intros s' b Hb. apply Hfg. by right.
Qed.
Lemma foldM_omap {S A B} (g : A → option B) (f : S → B → option S) l s :
  foldM (λ s a, match g a with Some b => f s b | None => Some s end) s l = foldM f s (omap g l).
Proof. revert s. induction l as [|a l IH]; intros s; [done|]. cbn. destruct (g a); cbn; [|apply IH]. destruct (f s b); cbn; [apply IH|done]. Qed.

(** ** Reachable relatives *)
Section relatives.
Context (sha256 : bytes → bytes) (next : MsgTx → list MsgTx).
Abbreviation TxHash := (TxHash sha256).
Abbreviation txMap := (gmap bytes MsgTx).

Inductive related (t : MsgTx) : MsgTx → Prop :=
| rel_one u : u ∈ next t → related t u
| rel_more u v : u ∈ next t → related u v → related t v.

Fixpoint relatives (fuel : nat) (t : MsgTx) (cache : gmap bytes txMap) : option (txMap * gmap bytes txMap) :=
  match fuel with
  | O => None
  | S fuel' => foldM (joinRelative sha256 (relatives fuel')) (∅, cache) (next t)
  end.

(** [good] transactions have good relatives of a smaller [measure]; the hashes of
    [member]s tell them apart. *)
Context (good member : MsgTx → Prop) (measure : MsgTx → nat)
  (Hmeasure : ∀ t u, good t → u ∈ next t → good u ∧ (measure u < measure t)%nat)
  (Hmember : ∀ t u, u ∈ next t → member u) (Hinj : ∀ u v, member u → member v → TxHash u = TxHash v → u = v).

Definition relativesOf (t : MsgTx) (M : txMap) : Prop := ∀ h u, M !! h = Some u ↔ TxHash u = h ∧ related t u.
Definition cacheOk (cache : gmap bytes txMap) : Prop := ∀ h M, cache !! h = Some M → ∃ u, member u ∧ TxHash u = h ∧ relativesOf u M.

Lemma related_member t u : related t u → member u.
Proof. induction 1; by eauto. Qed.

Lemma joinRelative_eq rec M cache v : joinRelative sha256 rec (M, cache) v = ('(N, c) ← cached (rec v) cache (TxHash v); Some (mapsCopy (<[TxHash v := v]> M) N, c)).
Proof. done. Qed.

(** The set for the relatives [done] of a transaction. *)
Definition setFor (done : list MsgTx) (M : txMap) : Prop := ∀ h u, M !! h = Some u ↔ TxHash u = h ∧ ∃ v, v ∈ done ∧ (u = v ∨ related v u).
Lemma setFor_join done M v N : (∀ u, u ∈ done → member u) → member v → setFor done M → relativesOf v N → setFor (done ++ [v]) (mapsCopy (<[TxHash v := v]> M) N).
Proof.
  intros Hd Hv HM HN h u. unfold mapsCopy. setoid_rewrite elem_of_app. setoid_rewrite list_elem_of_singleton.
  assert (Hm : ∀ w x, w ∈ done → (x = w ∨ related w x) → member x) by (intros w x Hw [->|Hx]; [by apply Hd|by eapply related_member]).
  rewrite lookup_union_Some_raw, lookup_insert_Some, (HN h u), (HM h u). split.
  - intros [[E Hr]|[Hn [[E <-]|[Hne [E (w & Hw & Hr)]]]]].
    + split; [done|]. exists v. by auto.
    + split; [done|]. exists v. by auto.
    + split; [done|]. exists w. by auto.
  - intros [E (w & [Hw| ->] & Hr)].
    + destruct (N !! h) as [u'|] eqn:E'.
      * apply HN in E' as [E' Hr']. assert (u' = u) as -> by (apply Hinj; [by eapply related_member|by eapply Hm|congruence]). by left.
      * right. split; [done|]. destruct (decide (TxHash v = h)) as [Ev|Ev]; [|right; split; [done|]; split; [done|by exists w]].
        left. split; [done|]. apply Hinj; [done|by eapply Hm|congruence].
    + destruct Hr as [->|Hr]; [|by left]. destruct (N !! h) as [u'|] eqn:E'; [|right; split; [done|by left]].
      apply HN in E' as [E' Hr']. left. split; [done|]. assert (u' = v) as <-; [|done]. apply Hinj; [by eapply related_member|done|congruence].
Qed.

Lemma relatives_spec : ∀ fuel t cache, good t → cacheOk cache → (measure t < fuel)%nat →
  ∃ M cache', relatives fuel t cache = Some (M, cache') ∧ relativesOf t M ∧ cacheOk cache'.
Proof.
  induction fuel as [|fuel IH]; intros t cache Ht Hc Hf; [lia|]. cbn [relatives].
  assert (Hgen : ∀ l done M cache, (∀ u, u ∈ done → member u) → (∀ u, u ∈ l → u ∈ next t) → setFor done M → cacheOk cache →
    ∃ M' cache', foldM (joinRelative sha256 (relatives fuel)) (M, cache) l = Some (M', cache') ∧ setFor (done ++ l) M' ∧ cacheOk cache').
  { clear cache Hc. induction l as [|v l IHl]; intros done M cache Hd Hl HM Hc.
    - exists M, cache. by rewrite app_nil_r.
    - cbn [foldM]. rewrite joinRelative_eq.
      assert (Hv : v ∈ next t) by (apply Hl; by left). destruct (Hmeasure t v Ht Hv) as [Hg Hlt]. pose proof (Hmember t v Hv) as Hmv.
      assert (∃ N c1, cached (relatives fuel v) cache (TxHash v) = Some (N, c1) ∧ relativesOf v N ∧ cacheOk c1) as (N & c1 & -> & HN & Hc1).
      { unfold cached. destruct (cache !! TxHash v) as [N|] eqn:E.
        - exists N, cache. split; [done|]. split; [|done]. destruct (Hc _ _ E) as (u & Hu & Eu & HN). by rewrite <- (Hinj u v Hu Hmv Eu).
        - destruct (IH v cache Hg Hc) as (N & c1 & -> & HN & Hc1); [lia|]. cbn. eexists N, _. split; [done|]. split; [done|].
          intros h P [[<- <-]|[_ HP]]%lookup_insert_Some; [by exists v|by apply Hc1]. }
      cbn [mbind option_bind]. destruct (IHl (done ++ [v]) (mapsCopy (<[TxHash v := v]> M) N) c1) as (M' & c' & -> & HM' & Hc').
      + intros u [Hu| ->%list_elem_of_singleton]%elem_of_app; [by apply Hd|done].
      + intros u Hu. apply Hl. by right.
      + by apply setFor_join.
      + done.
      + exists M', c'. by rewrite <- app_assoc in HM'. }
  destruct (Hgen (next t) [] ∅ cache) as (M & c' & -> & HM & Hc'); [by intros u Hu%elem_of_nil|done| |done|].
  { intros h u. rewrite lookup_empty. split; [done|]. intros [_ (v & Hv%elem_of_nil & _)]. done. }
  exists M, c'. split; [done|]. split; [|done]. intros h u. rewrite (HM h u). cbn. split.
  - intros [E (v & Hv & [->|Hr])]; (split; [done|]); [by apply rel_one|by eapply rel_more].
  - intros [E Hr]. split; [done|]. inversion Hr; subst; eauto.
Qed.
End relatives.

Section rbf.
Context (sha256 : bytes → bytes) (rank : bytes → nat).
Abbreviation TxHash := (TxHash sha256).
Abbreviation mainOk := (mainOk sha256 rank).
Abbreviation ranked := (ranked sha256 rank).

(** The pool transactions an input names, and those that spend an output. *)
Definition parentsOf (m : mainPool) (tx : MsgTx) : list MsgTx := omap (λ txIn, td_Tx <$> pool m !! op_Hash (ti_PreviousOutPoint txIn)) (tx_TxIn tx).
Definition redeemersOf (m : mainPool) (tx : MsgTx) : list MsgTx := omap (λ op, outpoints m !! op) (outputsOf (TxHash tx) tx).
Definition ancestor (m : mainPool) (t u : MsgTx) : Prop := related (parentsOf m) t u.
Definition descendant (m : mainPool) (t u : MsgTx) : Prop := related (redeemersOf m) t u.
Definition inPool (m : mainPool) (t : MsgTx) : Prop := ∃ d, pool m !! TxHash t = Some d ∧ td_Tx d = t.

Lemma txAncestors_relatives fuel m t cache : txAncestors sha256 fuel m t cache = relatives sha256 (parentsOf m) fuel t cache.
Proof.
  revert t cache. induction fuel as [|fuel IH]; intros t cache; [done|]. cbn [txAncestors relatives].
  unfold parentsOf at 2. rewrite <- foldM_omap. apply foldM_ext. intros s ti _. destruct (pool m !! op_Hash (ti_PreviousOutPoint ti)) as [d|]; cbn; [|done].
  unfold joinRelative, cached. by rewrite IH.
Qed.
Lemma txDescendants_relatives fuel m t cache : txDescendants sha256 fuel m t cache = relatives sha256 (redeemersOf m) fuel t cache.
Proof.
  revert t cache. induction fuel as [|fuel IH]; intros t cache; [done|]. cbn [txDescendants relatives].
  unfold redeemersOf at 2. rewrite <- foldM_omap. apply foldM_ext. intros s op _. destruct (outpoints m !! op) as [u|]; cbn; [|done].
  unfold joinRelative, cached. by rewrite IH.
Qed.

Lemma inPool_inj m u v : inPool m u → inPool m v → TxHash u = TxHash v → u = v.
Proof. intros (d & Hd & <-) (e & He & <-) E. congruence. Qed.
Lemma parentsOf_inPool X m t u : mainOk X m → u ∈ parentsOf m t → inPool m u.
Proof.
  intros Hok Hu. apply list_elem_of_omap in Hu as (ti & _ & Hu). apply fmap_Some in Hu as (d & Hd & ->). exists d. by rewrite (mo_key _ _ _ _ Hok _ _ Hd).
Qed.
Lemma redeemersOf_inPool X m t u : mainOk X m → u ∈ redeemersOf m t → inPool m u.
Proof. intros Hok Hu. apply list_elem_of_omap in Hu as (op & _ & Hu). apply (mo_out _ _ _ _ Hok) in Hu as (d & Hd & Ht & _). by exists d. Qed.

Definition earlier (m : mainPool) (h : bytes) : gset bytes := filter (λ k, (rank k < rank h)%nat) (dom (pool m)).
Lemma parents_measure X m t u : mainOk X m → ranked t → u ∈ parentsOf m t → ranked u ∧ (size (earlier m (TxHash u)) < size (earlier m (TxHash t)))%nat.
Proof.
  intros Hok Ht Hu. pose proof Hu as (ti & Hti & (d & Hd & ->)%fmap_Some)%list_elem_of_omap. split; [by apply (mo_rank _ _ _ _ Hok _ _ Hd)|].
  rewrite (mo_key _ _ _ _ Hok _ _ Hd). specialize (Ht (ti_PreviousOutPoint ti) (list_elem_of_fmap_2 _ _ _ Hti)). apply subset_size. unfold earlier. split.
  - intros k. rewrite !elem_of_filter. intros [Hk Hin]. split; [lia|done].
  - intros Hc. specialize (Hc (op_Hash (ti_PreviousOutPoint ti))). rewrite !elem_of_filter in Hc. destruct Hc as [Hlt _]; [|lia]. split; [done|by eapply elem_of_dom_2].
Qed.
Lemma redeemers_measure X m t u : mainOk X m → u ∈ redeemersOf m t → (size (later rank m (TxHash u)) < size (later rank m (TxHash t)))%nat.
Proof.
  intros Hok Hu. apply list_elem_of_omap in Hu as (op & Hop & Hu). apply (mo_out _ _ _ _ Hok) in Hu as (d & Hd & Ht & Hin).
  pose proof (mo_rank _ _ _ _ Hok _ _ Hd) as Hr. rewrite Ht in Hr. specialize (Hr op Hin). rewrite (op_Hash_outputsOf _ _ _ Hop) in Hr.
  refine (later_lt sha256 rank m m (TxHash t) (TxHash u) _ _ Hr); [done|by eapply elem_of_dom_2].
Qed.
Lemma size_filter_pool m (P : bytes → Prop) `{∀ k, Decision (P k)} : (size (filter P (dom (pool m)) : gset bytes) < poolFuel m)%nat.
Proof.
  unfold poolFuel. rewrite <- (size_dom (D := gset bytes)). pose proof (subseteq_size (filter P (dom (pool m)) : gset bytes) (dom (pool m))) as Hs.
  specialize (Hs ltac:(set_solver)). lia.
Qed.

Lemma txAncestors_spec X m t : mainOk X m → ranked t → ∃ M c, txAncestors sha256 (poolFuel m) m t ∅ = Some (M, c) ∧ ∀ h u, M !! h = Some u ↔ TxHash u = h ∧ ancestor m t u.
Proof.
  intros Hok Ht. rewrite txAncestors_relatives.
  destruct (relatives_spec sha256 (parentsOf m) ranked (inPool m) (λ t, size (earlier m (TxHash t)))) with (fuel := poolFuel m) (t := t) (cache := ∅ : gmap bytes (gmap bytes MsgTx))
    as (M & c & E & HM & _); [|by intros; eapply parentsOf_inPool|apply inPool_inj|done|done|apply size_filter_pool|by exists M, c].
  intros u v Hu Hv. by eapply parents_measure.
Qed.
Lemma txDescendants_spec X m t : mainOk X m → ∃ M c, txDescendants sha256 (poolFuel m) m t ∅ = Some (M, c) ∧ ∀ h u, M !! h = Some u ↔ TxHash u = h ∧ descendant m t u.
Proof.
  intros Hok. rewrite txDescendants_relatives.
  destruct (relatives_spec sha256 (redeemersOf m) (λ _, True) (inPool m) (λ t, size (later rank m (TxHash t)))) with (fuel := poolFuel m) (t := t) (cache := ∅ : gmap bytes (gmap bytes MsgTx))
    as (M & c & E & HM & _); [|by intros; eapply redeemersOf_inPool|apply inPool_inj|done|done|apply size_filter_pool|by exists M, c].
  intros u v Hu Hv. split; [done|]. by eapply redeemers_measure.
Qed.
Lemma descendant_inPool X m t u : mainOk X m → descendant m t u → inPool m u.
Proof. intros Hok. apply related_member. intros v w. by eapply redeemersOf_inPool. Qed.

(** ** Signalling *)
(** A transaction signals by a sequence number of its own or by a parent in the
    pool that signals. *)
Inductive signals (m : mainPool) (t : MsgTx) : Prop :=
| sig_own ti : ti ∈ tx_TxIn t → ti_Sequence ti <= MaxRBFSequence → signals m t
| sig_parent u : u ∈ parentsOf m t → signals m u → signals m t.

Definition inputSignals (m : mainPool) (ti : TxIn) : Prop :=
  ti_Sequence ti <= MaxRBFSequence ∨ ∃ d, pool m !! op_Hash (ti_PreviousOutPoint ti) = Some d ∧ signals m (td_Tx d).
Lemma signals_inputs m t : signals m t ↔ ∃ ti, ti ∈ tx_TxIn t ∧ inputSignals m ti.
Proof.
  split.
  - intros [ti Hti Hs|u Hu Hs]; [exists ti; split; [done|by left]|]. apply list_elem_of_omap in Hu as (ti & Hti & (d & Hd & ->)%fmap_Some). exists ti. split; [done|]. right. by exists d.
  - intros (ti & Hti & [Hs|(d & Hd & Hs)]); [by eapply sig_own|]. eapply sig_parent; [|done]. apply list_elem_of_omap. exists ti. split; [done|]. by rewrite Hd.
Qed.

Definition silent (m : mainPool) (cache : gset bytes) : Prop := ∀ h d, h ∈ cache → pool m !! h = Some d → ¬ signals m (td_Tx d).

Lemma signalsReplacement_spec X m : mainOk X m → ∀ fuel t cache, ranked t → silent m cache → (size (earlier m (TxHash t)) < fuel)%nat →
  ∃ (b : bool) cache', signalsReplacement fuel m t cache = Some (b, cache') ∧ (b = true ↔ signals m t) ∧ silent m cache'.
Proof.
  intros Hok. induction fuel as [|fuel IH]; intros t cache Ht Hc Hf; [lia|]. cbn [signalsReplacement]. set (f := λ s txIn, _).
  assert (Hstop : ∀ l c, foldM f (true, c) l = Some (true, c)) by (intros l; induction l as [|ti l IHl]; intros c; [done|]; cbn; apply IHl).
  assert (Hgen : ∀ l c, (∀ ti, ti ∈ l → ti ∈ tx_TxIn t) → silent m c →
    ∃ (b : bool) c', foldM f (false, c) l = Some (b, c') ∧ (b = true ↔ ∃ ti, ti ∈ l ∧ inputSignals m ti) ∧ silent m c').
  { clear cache Hc. induction l as [|ti l IHl]; intros c Hl Hc.
    - exists false, c. split; [done|]. split; [|done]. split; [done|]. by intros (ti & Hti%elem_of_nil & _).
    - assert (Hstep : (∃ c', f (false, c) ti = Some (true, c') ∧ silent m c' ∧ inputSignals m ti) ∨ (∃ c', f (false, c) ti = Some (false, c') ∧ silent m c' ∧ ¬ inputSignals m ti)).
      { unfold f. cbn [fst snd]. destruct (Z.leb_spec (ti_Sequence ti) MaxRBFSequence) as [Hs|Hs]; [left; exists c; split_and!; [done|done|by left]|].
        destruct (pool m !! op_Hash (ti_PreviousOutPoint ti)) as [d|] eqn:Ed.
        2: { right. exists c. split_and!; [done|done|]. intros [?|(d & Hd & _)]; [lia|congruence]. }
        case_bool_decide as Hin.
        { right. exists c. split_and!; [done|done|]. intros [?|(e & He & Hse)]; [lia|]. by apply (Hc _ e Hin). }
        assert (Hu : td_Tx d ∈ parentsOf m t) by (apply list_elem_of_omap; exists ti; split; [apply Hl; by left|by rewrite Ed]).
        destruct (parents_measure X m t _ Hok Ht Hu) as [Hru Hlt]. destruct (IH (td_Tx d) c Hru Hc) as (b & c' & -> & Hb & Hc'); [lia|]. cbn [mbind option_bind].
        destruct b.
        - left. exists c'. split_and!; [done|done|]. right. exists d. split; [done|]. by apply Hb.
        - right. exists ({[op_Hash (ti_PreviousOutPoint ti)]} ∪ c'). assert (Hns : ¬ signals m (td_Tx d)) by (by intros Hs'%Hb). split_and!; [done| |].
          + intros h e [->%elem_of_singleton|Hh]%elem_of_union He; [congruence|by apply (Hc' h)].
          + intros [?|(e & He & Hse)]; [lia|congruence]. }
      cbn [foldM]. destruct Hstep as [(c' & -> & Hc' & Hi)|(c' & -> & Hc' & Hi)]; cbn [mbind option_bind].
      + rewrite Hstop. exists true, c'. split; [done|]. split; [|done]. split; [|done]. intros _. exists ti. split; [by left|done].
      + destruct (IHl c' ltac:(intros; apply Hl; by right) Hc') as (b & c'' & -> & Hb & Hc''). exists b, c''. split; [done|]. split; [|done]. rewrite Hb.
        setoid_rewrite elem_of_cons. naive_solver. }
  destruct (Hgen (tx_TxIn t) cache ltac:(done) Hc) as (b & c' & -> & Hb & Hc'). exists b, c'. split; [done|]. by rewrite Hb, signals_inputs.
Qed.

(** The double spends of a transaction are all replaceable, or it is rejected. *)
Lemma checkPoolDoubleSpend_spec policy X m tx : mainOk X m →
  ∃ r, checkPoolDoubleSpend policy m tx = Some r ∧
    match r with
    | Err e => e = TxRuleError RejectDuplicate ∧ ∃ op t, op ∈ insOf tx ∧ outpoints m !! op = Some t ∧ (RejectReplacement policy = true ∨ ¬ signals m t)
    | Ok b => (b = true ↔ ∃ op t, op ∈ insOf tx ∧ outpoints m !! op = Some t)
              ∧ ∀ op t, op ∈ insOf tx → outpoints m !! op = Some t → RejectReplacement policy = false ∧ signals m t
    end.
Proof.
  intros Hok. unfold checkPoolDoubleSpend, insOf. set (f := λ r txIn, _).
  assert (Herr : ∀ l e, foldM f (Err e) l = Some (Err e)) by (intros l; induction l as [|ti l IHl]; intros e; [done|]; cbn; apply IHl).
  assert (Hgen : ∀ l b, ∃ r, foldM f (Ok b) l = Some r ∧
    match r with
    | Err e => e = TxRuleError RejectDuplicate ∧ ∃ op t, op ∈ ti_PreviousOutPoint <$> l ∧ outpoints m !! op = Some t ∧ (RejectReplacement policy = true ∨ ¬ signals m t)
    | Ok b' => (b' = true ↔ b = true ∨ ∃ op t, op ∈ ti_PreviousOutPoint <$> l ∧ outpoints m !! op = Some t)
              ∧ ∀ op t, op ∈ ti_PreviousOutPoint <$> l → outpoints m !! op = Some t → RejectReplacement policy = false ∧ signals m t
    end).
  { induction l as [|ti l IHl]; intros b.
    - exists (Ok b). split; [done|]. split; [|by intros op t Hop%elem_of_nil]. split; [by left|]. intros [?|(op & t & Hop%elem_of_nil & _)]; done.
    - cbn [foldM]. rewrite fmap_cons. destruct (outpoints m !! ti_PreviousOutPoint ti) as [t|] eqn:Et.
      + assert (Hf : f (Ok b) ti = if RejectReplacement policy then Some (txRuleError RejectDuplicate) else
          '(s, _) ← signalsReplacement (poolFuel m) m t ∅; if negb s then Some (txRuleError RejectDuplicate) else Some (Ok true)) by (unfold f; by rewrite Et).
        rewrite Hf. pose proof Et as (d & Hd & Htx & _)%(mo_out _ _ _ _ Hok). pose proof (mo_rank _ _ _ _ Hok _ _ Hd) as Hr. rewrite Htx in Hr.
        destruct (RejectReplacement policy) eqn:ER.
        { cbn [mbind option_bind]. unfold txRuleError. rewrite Herr. eexists. split; [done|]. split; [done|]. exists (ti_PreviousOutPoint ti), t. split_and!; [by left|done|by left]. }
        destruct (signalsReplacement_spec X m Hok (poolFuel m) t ∅ Hr ltac:(intros h e Hh; set_solver) (size_filter_pool m _)) as (s & c & -> & Hs & _).
        cbn [mbind option_bind]. destruct s; cbn [negb mbind option_bind].
        * destruct (IHl true) as (r & -> & H). exists r. split; [done|]. destruct r as [b'|e]; setoid_rewrite elem_of_cons.
          -- destruct H as [H1 H2]. split; [rewrite H1; split; [|by left]; intros _; right; exists (ti_PreviousOutPoint ti), t; by auto|].
             intros op u [->|Hop] Hu; [|by apply (H2 op)]. assert (u = t) as -> by congruence. split; [done|]. by apply Hs.
          -- destruct H as (-> & op & u & Hop & Hu & Hr'). split; [done|]. exists op, u. by auto.
        * unfold txRuleError. rewrite Herr. eexists. split; [done|]. split; [done|]. exists (ti_PreviousOutPoint ti), t. split_and!; [by left|done|]. right. by intros Hsig%Hs.
      + assert (Hf : f (Ok b) ti = Some (Ok b)) by (unfold f; by rewrite Et). rewrite Hf. cbn [mbind option_bind].
        destruct (IHl b) as (r & -> & H). exists r. split; [done|]. destruct r as [b'|e]; setoid_rewrite elem_of_cons; naive_solver. }
  destruct (Hgen (tx_TxIn tx) false) as (r & -> & H). exists r. split; [done|]. destruct r as [b|e]; [|done]. destruct H as [H1 H2]. split; [|done]. rewrite H1. naive_solver.
Qed.

(** ** Conflicts *)
(** [u] spends an output that [tx] spends, or descends from one that does. *)
Definition conflicting (m : mainPool) (tx u : MsgTx) : Prop :=
  ∃ op v, op ∈ insOf tx ∧ outpoints m !! op = Some v ∧ (u = v ∨ descendant m v u).
Definition conflictMap (m : mainPool) (tx : MsgTx) (C : gmap bytes MsgTx) : Prop := ∀ h u, C !! h = Some u ↔ TxHash u = h ∧ conflicting m tx u.

Lemma conflicting_inPool X m tx u : mainOk X m → conflicting m tx u → inPool m u.
Proof.
  intros Hok (op & v & _ & Hv & [->|Hd]); [|by eapply descendant_inPool]. apply (mo_out _ _ _ _ Hok) in Hv as (d & Hd & Ht & _). by exists d.
Qed.
Lemma txConflicts_spec X m tx : mainOk X m → ∃ C, txConflicts sha256 m tx = Some C ∧ conflictMap m tx C.
Proof.
  intros Hok. unfold txConflicts. set (g := λ ti, outpoints m !! ti_PreviousOutPoint ti). set (f := λ (conflicts : gmap bytes MsgTx) conflict,
    '(descendants, _) ← txDescendants sha256 (poolFuel m) m conflict ∅; Some (mapsCopy (<[TxHash conflict := conflict]> conflicts) descendants)).
  rewrite (foldM_omap g f (tx_TxIn tx) ∅ : foldM (λ conflicts txIn, match outpoints m !! ti_PreviousOutPoint txIn with Some c => f conflicts c | None => Some conflicts end) _ _ = _).
  assert (Hin : ∀ u, u ∈ omap g (tx_TxIn tx) → inPool m u).
  { intros u (ti & _ & Hu)%list_elem_of_omap. apply (mo_out _ _ _ _ Hok) in Hu as (d & Hd & Ht & _). by exists d. }
  assert (Hgen : ∀ l done C, (∀ u, u ∈ done → inPool m u) → (∀ u, u ∈ l → inPool m u) → setFor sha256 (redeemersOf m) done C →
    ∃ C', foldM f C l = Some C' ∧ setFor sha256 (redeemersOf m) (done ++ l) C').
  { induction l as [|v l IHl]; intros done C Hd Hl HC; [exists C; by rewrite app_nil_r|]. cbn [foldM].
    destruct (txDescendants_spec X m v Hok) as (N & c & E & HN). assert (f C v = Some (mapsCopy (<[TxHash v := v]> C) N)) as -> by (unfold f; by rewrite E).
    cbn [mbind option_bind]. assert (Hv : inPool m v) by (apply Hl; by left).
    destruct (IHl (done ++ [v]) (mapsCopy (<[TxHash v := v]> C) N)) as (C' & -> & HC').
    - intros u [Hu| ->%list_elem_of_singleton]%elem_of_app; [by apply Hd|done].
    - intros u Hu. apply Hl. by right.
    - apply (setFor_join sha256 (redeemersOf m) (inPool m)); try done; [by intros; eapply redeemersOf_inPool|apply inPool_inj].
    - exists C'. by rewrite <- app_assoc in HC'. }
  destruct (Hgen (omap g (tx_TxIn tx)) [] ∅) as (C & -> & HC); [by intros u Hu%elem_of_nil|done| |].
  { intros h u. rewrite lookup_empty. split; [done|]. by intros [_ (v & Hv%elem_of_nil & _)]. }
  exists C. split; [done|]. intros h u. rewrite (HC h u). unfold conflicting, insOf. setoid_rewrite list_elem_of_omap. setoid_rewrite list_elem_of_fmap. naive_solver.
Qed.

(** ** The replacement rule *)
Definition feeAt (m : mainPool) (h : bytes) : Z := default 0 (td_Fee <$> pool m !! h).
Definition conflictFees (m : mainPool) (C : gmap bytes MsgTx) : Z := sumZ (feeAt m) (elements (dom C)).

Record validReplacement (policy : Policy) (m : mainPool) (tx : MsgTx) (txFee : Z) (C : gmap bytes MsgTx) : Prop := {
  vr_few : Z.of_nat (size C) <= MaxReplacementEvictions;
  vr_ancestors u : ancestor m tx u → ¬ conflicting m tx u;
  vr_rate h d : h ∈ dom C → pool m !! h = Some d → td_FeePerKB d < feeRateOf txFee (GetTransactionVsize tx);
  vr_fee : conflictFees m C + calcMinRequiredTxRelayFee (GetTransactionVsize tx) (MinRelayTxFee policy) <= txFee;
  vr_parents op : op ∈ insOf tx → is_Some (pool m !! op_Hash op) → ∃ u op', conflicting m tx u ∧ op' ∈ insOf u ∧ op_Hash op' = op_Hash op }.

Lemma sumZ_perm {A} (f : A → Z) l l' : l ≡ₚ l' → sumZ f l = sumZ f l'.
Proof. induction 1; cbn in *; unfold sumZ in *; cbn; lia. Qed.
Lemma relayFee_range size rate : 0 <= calcMinRequiredTxRelayFee size rate <= MaxGrain.
Proof.
  unfold calcMinRequiredTxRelayFee. destruct (_ && _); [unfold MaxGrain, GrainPerMDL; lia|]. cbv zeta.
  destruct (_ || _) eqn:E; [unfold MaxGrain, GrainPerMDL; lia|]. apply orb_false_iff in E as [E1 E2]. lia.
Qed.

Lemma conflictLoop_spec X m rate C ks fee P : mainOk X m → (∀ h, h ∈ ks → ∃ u, C !! h = Some u ∧ inPool m u ∧ TxHash u = h) →
  0 <= fee → fee + Z.of_nat (length ks) * MaxGrain < 2 ^ 63 →
  ∃ acc, foldM (conflictLoop m rate C) (Ok (fee, P)) ks = Some acc ∧
    match acc with
    | Err e => e = TxRuleError RejectInsufficientFee ∧ ∃ h d, h ∈ ks ∧ pool m !! h = Some d ∧ rate <= td_FeePerKB d
    | Ok (fee', P') => (∀ h d, h ∈ ks → pool m !! h = Some d → td_FeePerKB d < rate) ∧ fee' = fee + sumZ (feeAt m) ks
        ∧ ∀ x, x ∈ P' ↔ x ∈ P ∨ ∃ h u op, h ∈ ks ∧ C !! h = Some u ∧ op ∈ insOf u ∧ op_Hash op = x
    end.
Proof.
  intros Hok. assert (Herr : ∀ l e, foldM (conflictLoop m rate C) (Err e) l = Some (Err e)) by (intros l; induction l as [|h l IHl]; intros e; [done|]; cbn; apply IHl).
  revert fee P. induction ks as [|h ks IH]; intros fee P Hks Hf Hb.
  - eexists. split; [done|]. cbn. split_and!; [by intros h d Hh%elem_of_nil|lia|]. intros x. split; [by left|]. intros [?|(h & u & op & Hh%elem_of_nil & _)]; done.
  - destruct (Hks h ltac:(by left)) as (u & Hu & (d & Hd & Hdt) & Hh). rewrite Hh in Hd. cbn [foldM].
    assert (conflictLoop m rate C (Ok (fee, P)) h = if rate <=? td_FeePerKB d then Some (txRuleError RejectInsufficientFee)
      else Some (Ok (i64 (fee + td_Fee d), list_to_set (op_Hash <$> insOf u) ∪ P))) as -> by (cbn; by rewrite Hd, Hu).
    pose proof (mo_fee _ _ _ _ Hok _ _ Hd) as Hfee. cbn [length] in Hb. rewrite Nat2Z.inj_succ in Hb.
    destruct (Z.leb_spec rate (td_FeePerKB d)) as [Hr|Hr].
    { unfold txRuleError. cbn [mbind option_bind]. rewrite Herr. eexists. split; [done|]. split; [done|]. exists h, d. split; [by left|done]. }
    cbn [mbind option_bind].
    rewrite wrapS_small by (unfold inS; unfold MaxGrain, GrainPerMDL in *; lia).
    destruct (IH (fee + td_Fee d) (list_to_set (op_Hash <$> insOf u) ∪ P)) as (acc & -> & Hacc); [intros k Hk; apply Hks; by right|lia|lia|].
    exists acc. split; [done|]. destruct acc as [[fee' P']|e].
    + destruct Hacc as (H1 & -> & H3). split_and!.
      * intros k e [->|Hk]%elem_of_cons He; [congruence|by apply (H1 k)].
      * unfold sumZ. cbn. unfold feeAt at 2. rewrite Hd. cbn. lia.
      * intros x. rewrite H3, elem_of_union, elem_of_list_to_set, list_elem_of_fmap. setoid_rewrite elem_of_cons. naive_solver.
    + destruct Hacc as (-> & k & d1 & Hk & He & Hre). split; [done|]. exists k, d1. split; [by right|done].
Qed.

(** [validateReplacement] never faults, and accepts exactly the valid replacements. *)
Lemma validateReplacement_spec policy env X m tx txFee : fairOrder env → mainOk X m → ranked tx →
  ∃ r, validateReplacement sha256 policy env m tx txFee = Some r ∧ ∀ C, r = Ok C ↔ conflictMap m tx C ∧ validReplacement policy m tx txFee C.
Proof.
  intros Hord Hok Hr. unfold validateReplacement. destruct (txConflicts_spec X m tx Hok) as (C & -> & HC). cbn [mbind option_bind].
  assert (Hu : ∀ C', conflictMap m tx C' → C' = C) by (intros C' HC'; apply map_eq; intros h; apply option_eq; intros u; by rewrite (HC' h u), (HC h u)).
  assert (Hno : ∀ e, ¬ validReplacement policy m tx txFee C → ∃ r, Some (Err e : res mperr (gmap bytes MsgTx)) = Some r ∧ ∀ C', r = Ok C' ↔ conflictMap m tx C' ∧ validReplacement policy m tx txFee C').
  { intros e Hn. eexists. split; [done|]. intros C'. split; [done|]. intros [HC' HV]. by rewrite (Hu C' HC') in HV. }
  destruct (Z.ltb_spec MaxReplacementEvictions (Z.of_nat (size C))) as [Hfew|Hfew]; [apply Hno; intros [? _ _ _ _]; lia|].
  destruct (txAncestors_spec X m tx Hok Hr) as (A & c & -> & HA). cbn [mbind option_bind]. case_bool_decide as Hanc.
  { apply Hno. intros [_ HV _ _ _]. apply Hanc. apply set_eq. intros h. split; [|set_solver]. intros [[u Hu1]%elem_of_dom [v Hv]%elem_of_dom]%elem_of_intersection. exfalso.
    apply HA in Hu1 as [E1 Hau]. apply HC in Hv as [E2 Hcv]. apply (HV u Hau). assert (u = v) as ->; [|done].
    apply (inPool_inj m); [|by eapply conflicting_inPool|congruence]. by eapply (related_member (parentsOf m)); [intros; by eapply parentsOf_inPool|]. }
  set (ks := order env (mainTick m) (dom C)). pose proof (Hord (mainTick m) (dom C)) as Hp. fold ks in Hp.
  assert (Hks : ∀ h, h ∈ ks ↔ h ∈ dom C) by (intros h; rewrite Hp; apply elem_of_elements).
  assert (Hmem : ∀ h, h ∈ ks → ∃ u, C !! h = Some u ∧ inPool m u ∧ TxHash u = h).
  { intros h [u Hu1]%Hks%elem_of_dom. exists u. pose proof Hu1 as [E Hc]%HC. split_and!; [done|by eapply conflicting_inPool|done]. }
  assert (Hlen : Z.of_nat (length ks) <= 100) by (rewrite Hp; change (length (elements (dom C))) with (size (dom C)); by rewrite size_dom).
  destruct (conflictLoop_spec X m (feeRateOf txFee (GetTransactionVsize tx)) C ks 0 ∅ Hok Hmem) as (acc & -> & Hacc); [lia|unfold MaxGrain, GrainPerMDL; lia|]. cbn [mbind option_bind].
  destruct acc as [[fee P]|e].
  2: { destruct Hacc as (-> & h & d & Hh & Hd & Hle). apply Hno. intros [_ _ HV _ _]. apply Hks in Hh. specialize (HV h d Hh Hd). lia. }
  destruct Hacc as (Hrate & -> & HP). rewrite (sumZ_perm _ _ _ Hp : sumZ (feeAt m) ks = conflictFees m C). rewrite Z.add_0_l.
  assert (Hfees : 0 <= conflictFees m C <= 100 * MaxGrain).
  { unfold conflictFees. rewrite <- (sumZ_perm _ _ _ Hp). clear -Hmem Hlen Hok. assert (Hall : ∀ h, 0 <= feeAt m h <= MaxGrain).
    { intros h. unfold feeAt. destruct (pool m !! h) as [d|] eqn:E; [by apply (mo_fee _ _ _ _ Hok h)|]. cbn. unfold MaxGrain, GrainPerMDL. lia. }
    assert (0 <= sumZ (feeAt m) ks <= Z.of_nat (length ks) * MaxGrain); [|unfold MaxGrain, GrainPerMDL in *; lia].
    clear -Hall. induction ks as [|h l IH]; [done|]. unfold sumZ in *. cbn [foldr length]. specialize (Hall h). rewrite Nat2Z.inj_succ. lia. }
  pose proof (relayFee_range (GetTransactionVsize tx) (MinRelayTxFee policy)) as Hmin.
  rewrite wrapS_small by (unfold inS; unfold MaxGrain, GrainPerMDL in *; lia).
  destruct (Z.ltb_spec txFee (conflictFees m C + calcMinRequiredTxRelayFee (GetTransactionVsize tx) (MinRelayTxFee policy))) as [Hfee|Hfee]; [apply Hno; intros [_ _ _ ? _]; lia|].
  assert (HPc : ∀ x, x ∈ P ↔ ∃ u op, conflicting m tx u ∧ op ∈ insOf u ∧ op_Hash op = x).
  { intros x. rewrite HP. split.
    - intros [?|(h & u & op & Hh & Hcu & Hop & E)]; [set_solver|]. apply HC in Hcu as [_ Hcu]. by exists u, op.
    - intros (u & op & Hcu & Hop & E). right. exists (TxHash u), u, op. assert (HCu : C !! TxHash u = Some u) by (by apply HC). split; [|done]. apply Hks. by eapply elem_of_dom_2. }
  destruct (existsb _ (insOf tx)) eqn:Enew.
  { apply existsb_exists in Enew as (op & Hop%list_elem_of_In & Hb). apply andb_true_iff in Hb as [Hb1 Hb2]. apply bool_decide_eq_true in Hb2. apply negb_true_iff, bool_decide_eq_false in Hb1.
    apply Hno. intros [_ _ _ _ HV]. destruct (HV op Hop Hb2) as (u & op' & H1 & H2 & H3). apply Hb1, HPc. by exists u, op'. }
  eexists. split; [done|]. intros C'. split.
  - intros [= <-]. split; [done|]. split; try done.
    + intros u Hau Hcu. assert (TxHash u ∈ dom A ∩ dom C) as Hin; [|by rewrite Hanc in Hin].
      apply elem_of_intersection. split; apply elem_of_dom; exists u; [by apply HA|by apply HC].
    + intros h d Hh Hd. apply (Hrate h); [by apply Hks|done].
    + intros op Hop Hpool. apply HPc. destruct (decide (op_Hash op ∈ P)) as [|Hn]; [done|]. exfalso.
      assert (existsb (λ prevOut, negb (bool_decide (op_Hash prevOut ∈ P)) && bool_decide (is_Some (pool m !! op_Hash prevOut))) (insOf tx) = true) as Ht; [|congruence].
      apply existsb_exists. exists op. split; [by apply list_elem_of_In|]. by rewrite bool_decide_eq_false_2, bool_decide_eq_true_2.
  - intros [HC' _]. by rewrite (Hu C' HC').
Qed.
End rbf.
