(* ===== verification/MempoolInv.v ===== *)
(** * The mempool as a whole: acceptance and its invariant (src/node/mempool/mempool.go)

    Every operation keeps the invariant [poolOk] and none faults or runs out of
    fuel; the theorems at the end state what this means for the states that can
    be reached from a new pool. *)
From Stdlib Require Import ZArith Lia Strings.Byte.
From stdpp Require Import base gmap list.
From S2P Require Import Prelude RuleErrors WireTx Merkle Script Utxo Covenant Chaincfg TxRules ScriptVal FeeHeap MempoolPolicy Mempool MempoolOrphans MempoolMain MempoolRbf.
Import InferenceGo.
Open Scope Z_scope.
Open Scope list_scope.

(** ** Sizes and fees *)
Lemma foldl_grow {A} (g : Z → A → Z) l n : (∀ n a, n <= g n a) → n <= foldl g n l.
Proof. intros Hg. revert n. induction l as [|a l IH]; intros n; cbn; [lia|]. etrans; [apply Hg|apply IH]. Qed.
Lemma VarIntSerializeSize_pos v : 0 < VarIntSerializeSize v.
Proof. unfold VarIntSerializeSize. repeat case_match; lia. Qed.
(** The declared size of a byte string is positive. *)
Lemma varSize_pos (b : bytes) : 0 < VarIntSerializeSize (zlen b) + zlen b.
Proof. pose proof (VarIntSerializeSize_pos (zlen b)). pose proof (zlen_nonneg b). lia. Qed.
Lemma baseSize_pos tx : 0 < baseSize tx.
Proof.
  unfold baseSize. pose proof (VarIntSerializeSize_pos (zlen (tx_TxIn tx))). pose proof (VarIntSerializeSize_pos (zlen (tx_TxOut tx))).
  eapply Z.lt_le_trans; [|apply foldl_grow]; [eapply Z.lt_le_trans; [|apply foldl_grow]; [lia|]|]; intros n a;
    unfold TxIn_SerializeSize, TxOut_SerializeSize.
  - pose proof (varSize_pos (ti_SignatureScript a)). lia.
  - pose proof (varSize_pos (to_PkScript a)). lia.
Qed.
Lemma SerializeSize_base tx : baseSize tx <= SerializeSize tx.
Proof.
  unfold SerializeSize. destruct (HasWitness tx); [|lia]. etrans; [|apply foldl_grow]; [lia|]. intros n ti. unfold TxWitness_SerializeSize.
  pose proof (VarIntSerializeSize_pos (zlen (ti_Witness ti))) as Hv.
  pose proof (foldl_grow (λ n w, n + VarIntSerializeSize (zlen w) + zlen w) (ti_Witness ti) (VarIntSerializeSize (zlen (ti_Witness ti)))
    ltac:(intros k w; cbv beta; pose proof (varSize_pos w); lia)). lia.
Qed.
(** A sane transaction has at most four million bytes. *)
Lemma SerializeSize_vsize tx : 0 < SerializeSize tx <= 4 * GetTransactionVsize tx.
Proof.
  pose proof (baseSize_pos tx). pose proof (SerializeSize_base tx). split; [lia|].
  unfold GetTransactionVsize, CalcVsize, SerializeSizeStripped, WitnessScaleFactor. rewrite Z.quot_div_nonneg by lia.
  pose proof (Z.mul_succ_div_gt (SerializeSize tx - baseSize tx + 4 - 1) 4 ltac:(lia)). lia.
Qed.
Lemma sizeOf_sane `{Schnorr} d allow : CheckTransactionSanity (td_Tx d) allow = Ok tt → sizeOf d <= 4000000.
Proof.
  intros Hs%sane_iff. pose proof (sane_vsize _ _ Hs). pose proof (SerializeSize_vsize (td_Tx d)). unfold MaxBlockVsize in *.
  unfold sizeOf. rewrite wrapU_small by (unfold inU; lia). lia.
Qed.

Lemma sumSizes_sub p p' : p' ⊆ p → sumSizes p' <= sumSizes p.
Proof.
  revert p'. induction p as [|h d p Hn IH] using map_ind; intros p' Hs.
  - assert (p' = ∅) as -> by (by apply (anti_symm (⊆)); [|apply map_empty_subseteq]). done.
  - rewrite sumSizes_insert by done. specialize (IH (delete h p')).
    assert (Hd : delete h p' ⊆ p) by (rewrite <- (delete_insert_id p h d) by done; by apply delete_mono). specialize (IH Hd).
    pose proof (wrapU_in 64 (SerializeSize (td_Tx d)) ltac:(lia)) as [Hnn _]. fold (sizeOf d) in Hnn.
    destruct (p' !! h) as [e|] eqn:E; [|rewrite delete_id in IH by done; lia]. rewrite (sumSizes_delete _ _ _ E).
    pose proof (lookup_weaken _ _ _ _ E Hs) as He. rewrite lookup_insert_eq in He. injection He as <-. lia.
Qed.

Lemma checkInputs_money params hgt w ins acc t : 0 <= acc <= MaxGrain → res_foldl (checkInput hgt w params) acc ins = Ok t → 0 <= t <= MaxGrain.
Proof.
  revert acc. induction ins as [|ti ins IH]; intros acc Ha Hr; cbn [res_foldl] in Hr; [injection Hr as <-; lia|].
  apply res_bind_Ok in Hr as (a & H1 & Hr). apply checkInput_sound in H1 as (c & Hc & Hp & -> & Hm); [|done]. eapply IH; [|exact Hr]; lia.
Qed.
Lemma inputs_fee `{Schnorr} tx allow hgt w params issued fee : CheckTransactionSanity tx allow = Ok tt →
  CheckTransactionInputsWithIssuance tx hgt w params issued = Ok fee → 0 <= fee <= MaxGrain.
Proof.
  intros Hs%sane_iff. pose proof (sane_money _ _ Hs) as Hm. pose proof MaxGrain_small. unfold CheckTransactionInputsWithIssuance.
  assert (Hmg : 0 <= MaxGrain) by (unfold MaxGrain, GrainPerMDL; lia). destruct (IsCoinBaseTx tx); [intros [= <-]; lia|]. rewrite totalOut_money by done.
  pose proof (sumZ_Forall_nonneg _ _ (proj1 Hm)) as Hnn. destruct Hm as [_ Hmax].
  intros (t & Ht & Hr)%res_bind_Ok. apply checkInputs_money in Ht; [|lia]. apply res_bind_Ok in Hr as (r & Hadd & Hr).
  assert (Hrr : 0 <= r <= MaxGrain).
  { unfold addIssuance in Hadd. destruct (issued <? 0); [done|]. destruct (0 <? issued); [|injection Hadd as <-; lia].
    destruct (_ || _) eqn:E; [done|]. injection Hadd as <-. apply orb_false_iff in E as [E1%Z.ltb_ge E2%Z.ltb_ge]. lia. }
  destruct (Z.ltb_spec r (sumZ to_Value (tx_TxOut tx))); [done|]. injection Hr as <-. rewrite wrapS_small by (try unfold inS; lia). lia.
Qed.

(** ** Acceptance *)
Section accept.
Context `{Schnorr} (sha256 sha3 : bytes → bytes) (engine : bytes → MsgTx → nat → Z → UtxoViewpoint → engineResult)
  (chainParams : Params) (policy : Policy) (rank : bytes → nat).
Context (Hmax : 0 <= MaxMempoolSize policy < 2 ^ 63).
Abbreviation TxHash := (TxHash sha256).
Abbreviation mainOk := (mainOk sha256 rank).
Abbreviation ranked := (ranked sha256 rank).
Abbreviation accept env := (checkMempoolAcceptance sha256 sha3 engine chainParams policy env).

Record poolOk (mp : TxPool) : Prop := {
  pk_main : mainOk ∅ (mp_main mp);
  pk_size : MaxMempoolSize policy ≠ 0 → sumSizes (pool (mp_main mp)) <= MaxMempoolSize policy;
  pk_orphans : orphansOk sha256 ∅ (mp_orphans mp);
  pk_few : Z.of_nat (size (orphans (mp_orphans mp))) <= Z.max 0 (MaxOrphanTxs policy);
  pk_ranked h x : orphans (mp_orphans mp) !! h = Some x → ranked (ot_tx x) }.

(** What an accepted transaction satisfies; a set of conflicts that is not a
    valid replacement is empty. *)
Record acceptable (m : mainPool) (tx : MsgTx) (r : MempoolAcceptResult) : Prop := {
  ac_fee : 0 <= ar_TxFee r <= MaxGrain;
  ac_relay : calcMinRequiredTxRelayFee (GetTransactionVsize tx) (MinRelayTxFee policy) <= ar_TxFee r;
  ac_sane : CheckTransactionSanity tx (TxVersionInference <=? MaxSupportedTxVersion chainParams) = Ok tt;
  ac_conflicts : ar_Conflicts r = ∅ ∧ (∀ op, op ∈ insOf tx → outpoints m !! op = None)
    ∨ conflictMap sha256 m tx (ar_Conflicts r) ∧ validReplacement sha256 policy m tx (ar_TxFee r) (ar_Conflicts r)
      ∧ RejectReplacement policy = false ∧ (∀ op t, op ∈ insOf tx → outpoints m !! op = Some t → signals m t);
  ac_scripts : ∃ v, ar_utxoView r = Some v ∧ ValidateTransactionScripts engine v tx = Ok tt }.

Lemma bindOR_some {E A B} (c : res E A) (k : A → option (res E B)) (P : res E B → Prop) :
  (∀ e, P (Err e)) → (∀ a, c = Ok a → ∃ r, k a = Some r ∧ P r) → ∃ r, bindOR (Some c) k = Some r ∧ P r.
Proof. intros He Hk. destruct c as [a|e]; cbn; [by apply Hk|by exists (Err e)]. Qed.
Lemma fromChain_ok {A} (r : res verr A) a : fromChain r = Ok a → r = Ok a.
Proof. by destruct r; intros [= ->]. Qed.

(** The transaction is new and, unless parents are missing, acceptable. *)
Definition checked (mp : TxPool) (tx : MsgTx) (rej : bool) (r : res mperr MempoolAcceptResult) : Prop :=
  ∀ a, r = Ok a → pool (mp_main mp) !! TxHash tx = None ∧ (rej = true → orphans (mp_orphans mp) !! TxHash tx = None)
    ∧ (ar_MissingParents a = [] → acceptable (mp_main mp) tx a).
Lemma checkMempoolAcceptance_spec env mp tx rej : fairOrder env → mainOk ∅ (mp_main mp) → ranked tx →
  ∃ r, accept env mp tx rej = Some r ∧ checked mp tx rej r.
Proof.
  intros Hord Hok Hr. unfold checkMempoolAcceptance. set (m := mp_main mp) in *.
  set (P := checked mp tx rej). assert (Herr : ∀ e, P (Err e)) by (by intros e a).
  assert (Hfail : ∀ c, ∃ r, Some (txRuleError c) = Some r ∧ P r) by (intros c; by exists (txRuleError c)).
  destruct (negb (HasWitness tx)); [apply Hfail|]. destruct (_ || _) eqn:Edup; [apply Hfail|]. destruct (_ <? _); [apply Hfail|].
  apply bindOR_some; [done|]. intros [] Hsane%fromChain_ok. destruct (IsCoinBaseTx tx); [apply Hfail|].
  apply orb_false_iff in Edup as [Edup1 Edup2]. apply bool_decide_eq_false, eq_None_not_Some in Edup1.
  assert (Hnorph : rej = true → orphans (mp_orphans mp) !! TxHash tx = None).
  { intros ->. cbn in Edup2. by apply bool_decide_eq_false, eq_None_not_Some in Edup2. }
  destruct (checkPoolDoubleSpend_spec sha256 rank policy ∅ m tx Hok) as (rd & -> & Hrd). destruct rd as [isRep|e]; [|by exists (Err e)]. cbn [bindOR].
  apply bindOR_some; [done|]. intros v0 _. apply bindOR_some; [done|]. intros v _.
  destruct (missingOf v) as [|h l] eqn:Emiss; cbn [length Nat.ltb Nat.leb]; [|by eexists; split; [done|]; intros a [= <-]].
  apply bindOR_some; [done|]. intros issued _. apply bindOR_some; [done|]. intros txFee Hfee%fromChain_ok. apply bindOR_some; [done|]. intros _ _.
  apply bindOR_some; [done|]. intros lock _. destruct (negb _); [apply Hfail|]. destruct (belowFloor _ _ _ _); [apply Hfail|].
  apply bindOR_some; [done|]. intros [] Hrelay. unfold validateRelayFeeMet in Hrelay. apply ifErr_ok in Hrelay as [Hrelay%Z.ltb_ge _].
  assert (Hconf : ∃ rc, (if isRep : bool then validateReplacement sha256 policy env m tx txFee else Some (Ok ∅)) = Some rc
    ∧ ∀ C, rc = Ok C → C = ∅ ∧ (∀ op, op ∈ insOf tx → outpoints m !! op = None)
      ∨ conflictMap sha256 m tx C ∧ validReplacement sha256 policy m tx txFee C ∧ RejectReplacement policy = false ∧ (∀ op t, op ∈ insOf tx → outpoints m !! op = Some t → signals m t)).
  { destruct Hrd as [Hb Hsig]. destruct isRep.
    - destruct (validateReplacement_spec sha256 rank policy env ∅ m tx txFee Hord Hok Hr) as (rc & -> & Hrc). exists rc. split; [done|]. intros C [H1 H2]%Hrc. right.
      destruct (proj1 Hb eq_refl) as (op & t & Ho & Ht). split_and!; try done; [by eapply (proj1 (Hsig op t Ho Ht))|]. intros op' t' Ho' Ht'. by eapply Hsig.
    - eexists. split; [done|]. intros C [= <-]. left. split; [done|]. intros op Ho. destruct (outpoints m !! op) as [t|] eqn:E; [|done]. assert (false = true) by (apply Hb; by exists op, t). done. }
  destruct Hconf as (rc & -> & Hrc). destruct rc as [C|e]; [|by exists (Err e)]. cbn [bindOR].
  apply bindOR_some; [done|]. intros [] Hscr%fromChain_ok. apply bindOR_some; [done|]. intros _ _.
  eexists. split; [done|]. intros a [= <-]. split_and!; [done|done|]. intros _. split; cbn; [by eapply inputs_fee|done|done|by apply Hrc|by exists v].
Qed.

(** The conflicts leave the pool, and nothing else. *)
Lemma removeConflicts_spec env m tx C : fairOrder env → mainOk ∅ m → (C = ∅ ∨ conflictMap sha256 m tx C) →
  ∃ m', removeConflicts sha256 env m C = Some m' ∧ mainOk ∅ m' ∧ mainGone m m' ∧ ∀ h, pool m' !! h = if decide (h ∈ dom C) then None else pool m !! h.
Proof.
  intros Hord Hok HC. unfold removeConflicts. set (ks := order env _ _). assert (Hp : ks ≡ₚ elements (dom C)) by apply Hord.
  assert (Hmem : ∀ h u, C !! h = Some u → TxHash u = h ∧ inPool sha256 m u).
  { intros h u Hu. destruct HC as [->|HC]; [done|]. apply HC in Hu as [E Hu]. split; [done|]. by eapply conflicting_inPool. }
  assert (Hgen : ∀ l s, NoDup l → mainOk ∅ s → (∀ h, h ∈ l → ∃ u, C !! h = Some u ∧ is_Some (pool s !! h)) →
    ∃ s', foldM (λ m hash, conflict ← C !! hash; _ ← pool m !! TxHash conflict; removeTx sha256 env m conflict false) s l = Some s' ∧ mainOk ∅ s'
      ∧ ∀ h, pool s' !! h = if decide (h ∈ l) then None else pool s !! h).
  { induction l as [|h l IH]; intros s Hnd Hs Hl; cbn [foldM].
    - exists s. split_and!; [done|done|]. intros h. by rewrite decide_False by apply not_elem_of_nil.
    - apply NoDup_cons in Hnd as [Hnl Hnd]. destruct (Hl h ltac:(by left)) as (u & Hu & [d Hd]). destruct (Hmem _ _ Hu) as [Eh _]. rewrite Hu. cbn [mbind option_bind].
      rewrite Eh, Hd. cbn [mbind option_bind]. destruct (removeTx_spec sha256 rank env ∅ s u false Hs) as (s1 & -> & G1 & _ & G3). cbn [mbind option_bind]. rewrite Eh in G3.
      destruct (IH s1 Hnd G1) as (s' & -> & K1 & K2).
      { intros k Hk. destruct (Hl k ltac:(by right)) as (v & Hv & Hpv). exists v. split; [done|]. rewrite G3, lookup_delete_ne; [done|]. by intros ->. }
      exists s'. split_and!; [done|done|]. intros k. rewrite K2, G3. destruct (decide (k = h)) as [->|Hk].
      + rewrite lookup_delete_eq, (decide_True (P := h ∈ h :: l)) by (by left). by case_decide.
      + rewrite lookup_delete_ne by done. apply decide_ext. rewrite elem_of_cons. naive_solver. }
  destruct (Hgen ks m) as (m' & -> & H1 & H2).
  - rewrite Hp. apply NoDup_elements.
  - done.
  - intros h Hh. rewrite Hp in Hh. apply elem_of_elements, elem_of_dom in Hh as [u Hu]. exists u. split; [done|]. destruct (Hmem _ _ Hu) as [<- (d & Hd & _)]. by eexists.
  - assert (Hpool : ∀ h, pool m' !! h = if decide (h ∈ dom C) then None else pool m !! h).
    { intros h. rewrite H2. apply decide_ext. by rewrite Hp, elem_of_elements. }
    assert (Hsub : pool m' ⊆ pool m). { apply map_subseteq_spec. intros h d. rewrite Hpool. by case_decide. }
    exists m'. split_and!; try done. split; [done|by intros op; eapply outpoints_free|]. intros h d op Hd Hn Ho. rewrite Hpool in Hn. case_decide as Hc; [|congruence].
    destruct (outpoints m' !! op) as [t|] eqn:Et; [|done]. exfalso. destruct HC as [->|HC]; [set_solver|].
    pose proof (outpoints_sub _ _ _ _ _ _ _ Hok H1 Hsub Et) as Et'. apply elem_of_dom in Hc as [u Hu]. pose proof Hu as [Eu Hcu]%HC.
    assert (u = td_Tx d) as ->. { destruct (conflicting_inPool _ _ _ _ _ _ Hok Hcu) as (d' & Hd' & <-). rewrite Eu in Hd'. congruence. }
    assert (Hct : conflicting sha256 m tx t).
    { destruct Hcu as (op0 & v & Hin & Hv & Hrel). exists op0, v. split_and!; try done. right. assert (Ht : t ∈ redeemersOf sha256 m (td_Tx d)).
      { apply list_elem_of_omap. exists op. by rewrite Eu. }
      destruct Hrel as [<-|Hrel]; [by apply rel_one|]. clear -Hrel Ht. induction Hrel as [v w Hw|v w x Hw Hr IH]; (eapply rel_more; [done|]); [by apply rel_one|by apply IH]. }
    apply (mo_out _ _ _ _ H1) in Et as (e & He & _). rewrite Hpool, decide_True in He; [done|]. apply elem_of_dom. exists t. by apply HC.
Qed.

Lemma mainOk_size m : mainOk ∅ m → sumSizes (pool m) < 2 ^ 64 → poolBytes m = sumSizes (pool m).
Proof. intros Hok Hs. rewrite (mo_bytes _ _ _ _ Hok). apply wrapU_small. split; [apply sumSizes_nonneg|done]. Qed.

Abbreviation maybeAccept env := (maybeAcceptTransaction sha256 sha3 engine chainParams policy env).
(** The outcomes: an error, with the orphans untouched; missing parents, with the
    pool untouched; or the transaction is in the pool. *)
Definition outcome (mp : TxPool) (tx : MsgTx) (rej : bool) (r : res mperr (list bytes * option TxDesc)) (mp' : TxPool) : Prop :=
  match r with
  | Err _ => True
  | Ok (missing, txD) =>
      (rej = true → orphans (mp_orphans mp) !! TxHash tx = None)
      ∧ if (0 <? length missing)%nat then mp' = mp ∧ txD = None
        else ∃ d, txD = Some d ∧ td_Tx d = tx ∧ pool (mp_main mp') !! TxHash tx = Some d
  end.

Lemma maybeAccept_spec env mp tx rej : fairOrder env → poolOk mp → ranked tx →
  ∃ r mp', maybeAccept env mp tx rej = Some (r, mp') ∧ poolOk mp' ∧ mp_orphans mp' = mp_orphans mp ∧ outcome mp tx rej r mp'.
Proof.
  intros Hord Hok Hr. unfold maybeAcceptTransaction.
  destruct (checkMempoolAcceptance_spec env mp tx rej Hord (pk_main _ Hok) Hr) as (r & -> & Hck). cbn [mbind option_bind]. destruct r as [a|e]; [|by exists (Err e), mp].
  destruct (Hck a eq_refl) as (Hnew & Hnorph & Hacc). destruct (ar_MissingParents a) as [|h l] eqn:Em; cbn [length Nat.ltb Nat.leb].
  2: { eexists _, mp. split; [done|]. by split_and!. }
  specialize (Hacc eq_refl). destruct Hok as [Hm Hsz Ho Hfew Hrk].
  destruct (removeConflicts_spec env (mp_main mp) tx (ar_Conflicts a) Hord Hm) as (m1 & -> & Hm1 & Hg1 & Hp1); [destruct (ac_conflicts _ _ _ Hacc) as [[? _]|[? _]]; [by left|by right]|].
  cbn [mbind option_bind].
  destruct (addTransaction_spec sha256 rank env m1 tx (ar_bestHeight a) (ar_TxFee a) Hm1) as (d & m2 & -> & Hm2 & Hp2 & Hd & _ & _); [| |done|by apply Hacc|].
  { rewrite Hp1. by case_decide. }
  { intros op Hop. destruct (ac_conflicts _ _ _ Hacc) as [[_ Hfree]|[HC _]]; [by apply Hg1, Hfree|].
    destruct (outpoints m1 !! op) as [t|] eqn:E; [|done]. exfalso. pose proof (outpoints_sub _ _ _ _ _ _ _ Hm Hm1 (mg_sub _ _ Hg1) E) as E'.
    apply (mo_out _ _ _ _ Hm1) in E as (d & Hd & _). rewrite Hp1, decide_True in Hd; [done|]. apply elem_of_dom. exists t. apply HC. split; [done|]. exists op, t. by auto. }
  cbn [mbind option_bind]. destruct (trimToSize_spec sha256 rank policy env m2 (lastEvictedFeeRate mp) ltac:(lia) Hm2) as (m3 & fl & -> & Hm3 & Hg3 & Hsz3). cbn [mbind option_bind].
  assert (Hok3 : poolOk (mkTxPool m3 (mp_orphans mp) fl)).
  { split; try done. cbn. intros Hmx. specialize (Hsz Hmx). destruct Hsz3 as [[? _]|[Hle _]]; [done|]. rewrite <- mainOk_size; [done|done|].
    pose proof (sumSizes_sub _ _ (mg_sub _ _ Hg3)) as H3. rewrite Hp2, sumSizes_insert in H3 by (rewrite Hp1; by case_decide).
    pose proof (sumSizes_sub _ _ (mg_sub _ _ Hg1)). pose proof (sizeOf_sane d _ ltac:(rewrite Hd; apply Hacc)). lia. }
  destruct (pool m3 !! TxHash tx) as [d'|] eqn:E; eexists _, _; (split; [done|]); [|by split_and!]. split_and!; [done|done|]. split; [done|]. exists d. split_and!; [done|done|].
  pose proof (lookup_weaken _ _ _ _ E (mg_sub _ _ Hg3)) as E2. rewrite Hp2, lookup_insert_eq in E2. cbn. congruence.
Qed.

(** ** Orphans that become acceptable *)
Abbreviation norphans mp := (size (orphans (mp_orphans mp))).
Lemma poolOk_orphans mp o : poolOk mp → orphansOk sha256 ∅ o → orphans o ⊆ orphans (mp_orphans mp) → poolOk (setOrphans mp o).
Proof.
  intros [H1 H2 H3 H4 H5] Ho Hs. split; cbn; try done.
  - apply subseteq_dom, subseteq_size in Hs. rewrite !size_dom in Hs. lia.
  - intros h x Hx. apply (H5 h). by eapply lookup_weaken.
Qed.

Lemma tryOrphans_spec env mp txs : fairOrder env → poolOk mp → (∀ t, t ∈ txs → ∃ x, orphans (mp_orphans mp) !! TxHash t = Some x ∧ ot_tx x = t) →
  ∃ r mp', tryOrphans sha256 sha3 engine chainParams policy env mp txs = Some (r, mp') ∧ poolOk mp'
    ∧ match r with Some (d, t) => td_Tx d = t ∧ (S (norphans mp') <= norphans mp)%nat | None => (norphans mp' <= norphans mp)%nat end.
Proof.
  intros Hord. revert mp. induction txs as [|tx txs IH]; intros mp Hok Ht; cbn [tryOrphans]; [by exists None, mp|].
  destruct (Ht tx ltac:(by left)) as (x & Hx & Hxt). pose proof (pk_ranked _ Hok _ _ Hx) as Hr. rewrite Hxt in Hr.
  destruct (maybeAccept_spec env mp tx false Hord Hok Hr) as (r & mp1 & -> & Hok1 & Ho1 & Hout). cbn [mbind option_bind].
  destruct r as [[missing txD]|e].
  - destruct Hout as [_ Hout]. destruct (0 <? length missing)%nat.
    + destruct Hout as [-> ->]. apply IH; [done|]. intros t Hin. apply Ht. by right.
    + destruct Hout as (d & -> & Hd & _). cbn [mbind option_bind].
      destruct (removeOrphanTop_spec sha256 env (mp_orphans mp1) tx false Hord (pk_orphans _ Hok1) ltac:(done)) as (o & -> & G1 & G2 & _ & G4). cbn [mbind option_bind].
      eexists _, _. split; [done|]. rewrite Ho1 in G4. split; [apply poolOk_orphans; [done|done|rewrite Ho1, G4; apply delete_subseteq]|]. split; [done|]. cbn.
      pose proof (size_delete_sub (orphans (mp_orphans mp)) (orphans o) (TxHash tx) ltac:(by rewrite G4) ltac:(by eexists)). lia.
  - destruct (removeOrphanTop_spec sha256 env (mp_orphans mp1) tx true Hord (pk_orphans _ Hok1)) as (o & -> & G1 & G2 & _ & G4); [rewrite Ho1; intros _ y; rewrite Hx; by intros [= <-]|].
    cbn [mbind option_bind]. eexists _, _. split; [done|]. pose proof (og_sub _ _ G4) as Hs. split; [by apply poolOk_orphans|]. cbn.
    rewrite Ho1 in Hs. apply subseteq_dom, subseteq_size in Hs. by rewrite !size_dom in Hs.
Qed.

Lemma processOutput_spec env acc mp op : fairOrder env → poolOk mp →
  ∃ new mp', processOutput sha256 sha3 engine chainParams policy env (acc, mp) op = Some (acc ++ new, mp') ∧ poolOk mp'
    ∧ (length new + norphans mp' <= norphans mp)%nat ∧ Forall (λ p, td_Tx p.1 = p.2) new.
Proof.
  intros Hord Hok. unfold processOutput. destruct (orphansByPrev (mp_orphans mp) !! op) as [M|] eqn:EM; [|by exists [], mp; rewrite app_nil_r].
  assert (Hok1 : poolOk (setOrphans mp (tickOrphans (mp_orphans mp)))) by (apply poolOk_orphans; [done|apply tickOrphans_ok, Hok|done]).
  destruct (tryOrphans_spec env (setOrphans mp (tickOrphans (mp_orphans mp))) (omap (λ hash, M !! hash) (order env (orphanTick (mp_orphans mp)) (dom M))) Hord Hok1) as (r & mp' & -> & Hok' & Hr).
  { intros t (h & _ & Hh)%list_elem_of_omap. assert (Hi : orphansByPrev (mp_orphans mp) !! op ≫= (.!! h) = Some t) by (by rewrite EM).
    apply (oo_index _ _ _ (pk_orphans _ Hok)) in Hi as (_ & x & Hx & Hxt & _). exists x. cbn. by rewrite <- Hxt, (oo_key _ _ _ (pk_orphans _ Hok) _ _ Hx). }
  cbn [mbind option_bind]. destruct r as [[d t]|]; eexists _, mp'; (split; [done|]); (split; [done|]); cbn in *.
  - destruct Hr as [Hd Hs]. split; [lia|]. by repeat constructor.
  - split; [lia|constructor].
Qed.
Lemma processOutputs_spec env ops acc mp : fairOrder env → poolOk mp →
  ∃ new mp', foldM (processOutput sha256 sha3 engine chainParams policy env) (acc, mp) ops = Some (acc ++ new, mp') ∧ poolOk mp'
    ∧ (length new + norphans mp' <= norphans mp)%nat ∧ Forall (λ p, td_Tx p.1 = p.2) new.
Proof.
  intros Hord. revert acc mp. induction ops as [|op ops IH]; intros acc mp Hok; cbn [foldM]; [exists [], mp; rewrite app_nil_r; by split_and!; [..|constructor]|].
  destruct (processOutput_spec env acc mp op Hord Hok) as (n1 & mp1 & -> & H1 & H2 & H3). cbn [mbind option_bind].
  destruct (IH (acc ++ n1) mp1 H1) as (n2 & mp2 & -> & K1 & K2 & K3). exists (n1 ++ n2), mp2. rewrite app_assoc, length_app. split_and!; [done|done|lia|by apply Forall_app].
Qed.
Lemma processLoop_spec env fuel mp l acc : fairOrder env → poolOk mp → (length l + norphans mp <= fuel)%nat →
  ∃ acc' mp', processLoop sha256 sha3 engine chainParams policy env fuel mp l acc = Some (acc', mp') ∧ poolOk mp'.
Proof.
  intros Hord. revert mp l acc. induction fuel as [|fuel IH]; intros mp l acc Hok Hf; (destruct l as [|t l]; cbn [processLoop]; [by exists acc, mp|]); [cbn in Hf; lia|].
  destruct (processOutputs_spec env (outputsOf (TxHash t) t) [] mp Hord Hok) as (new & mp1 & -> & H1 & H2 & H3). cbn [mbind option_bind app].
  apply IH; [done|]. rewrite length_app, length_fmap. cbn in Hf. lia.
Qed.

(** Afterwards no orphan spends what the accepted transactions spend. *)
Lemma processOrphans_spec env mp tx : fairOrder env → poolOk mp →
  ∃ ds mp', processOrphans sha256 sha3 engine chainParams policy env mp tx = Some (ds, mp') ∧ poolOk mp'
    ∧ ∀ t op, t ∈ tx :: (td_Tx <$> ds) → op ∈ insOf t → orphansByPrev (mp_orphans mp') !! op = None.
Proof.
  intros Hord Hok. unfold processOrphans. destruct (processLoop_spec env (S (norphans mp)) mp [tx] [] Hord Hok ltac:(cbn; lia)) as (ds & mp1 & -> & H1). cbn [mbind option_bind].
  destruct (foldM_spec (removeOrphanDoubleSpends sha256 env) (orphansOk sha256 ∅) orphansGone (λ t o, ∀ op, op ∈ insOf t → orphansByPrev o !! op = None) (tx :: (td_Tx <$> ds))) with (s := mp_orphans mp1)
    as (o & -> & G1 & G2 & G3); [intros; apply orphansGone_refl|apply orphansGone_trans|intros t s s' _ _ Hg Hn op Hop; by apply Hg, Hn| |apply H1|].
  { intros s t Hs _. by apply removeOrphanDoubleSpends_spec. }
  cbn [mbind option_bind]. eexists ds, _. split; [done|]. split; [apply poolOk_orphans; [done|done|apply G2]|]. intros t op Ht Hop. cbn. by apply (G3 t).
Qed.

Lemma ProcessTransaction_spec env mp tx allow tag : fairOrder env → poolOk mp → ranked tx →
  ∃ r mp', ProcessTransaction sha256 sha3 engine chainParams policy env mp tx allow tag = Some (r, mp') ∧ poolOk mp'
    ∧ ∀ d ds, r = Ok (d :: ds) → td_Tx d = tx
        ∧ ∀ e op h x, e ∈ d :: ds → op ∈ insOf (td_Tx e) → orphans (mp_orphans mp') !! h = Some x → op ∉ insOf (ot_tx x).
Proof.
  intros Hord Hok Hr. unfold ProcessTransaction. destruct (maybeAccept_spec env mp tx true Hord Hok Hr) as (r & mp1 & -> & H1 & Ho & Hout). cbn [mbind option_bind].
  destruct r as [[missing txD]|e]; [|by eexists _, _]. destruct Hout as [Hnew Hout]. destruct missing as [|h l]; cbn [length Nat.ltb Nat.leb Nat.eqb] in *.
  - destruct Hout as (d & -> & Hd & _). destruct (processOrphans_spec env mp1 tx Hord H1) as (ds & mp2 & -> & H2 & Hgone). cbn [mbind option_bind].
    eexists _, mp2. split; [done|]. split; [done|]. intros d' ds' [= <- <-]. split; [done|]. intros e op k x He Hop Hx Hin.
    assert (Hn : orphansByPrev (mp_orphans mp2) !! op = None). { eapply (Hgone (td_Tx e)); [|done]. apply elem_of_cons in He as [->|He]; [rewrite Hd; by left|right; by apply list_elem_of_fmap_2]. }
    assert (Hi : orphansByPrev (mp_orphans mp2) !! op ≫= (.!! k) = Some (ot_tx x)); [|by rewrite Hn in Hi]. apply (oo_index _ _ _ (pk_orphans _ H2)). split; [set_solver|]. by exists x.
  - destruct Hout as [-> ->]. destruct (negb allow); [by eexists _, _|].
    destruct (maybeAddOrphan_spec sha256 policy env (mp_orphans mp) tx tag Hord (pk_orphans _ Hok) (Hnew eq_refl) (pk_few _ Hok)) as (r & o & -> & G1 & G2 & G3). cbn [mbind option_bind].
    eexists _, _. split; [done|]. split; [|destruct r; by intros]. destruct Hok as [K1 K2 K3 K4 K5]. split; cbn; try done.
    intros k x [Hx|(-> & -> & _)]%G3; [by apply (K5 k)|done].
Qed.

(** ** Removal from the pool *)
Lemma poolOk_main mp m : poolOk mp → mainOk ∅ m → pool m ⊆ pool (mp_main mp) → poolOk (mkTxPool m (mp_orphans mp) (lastEvictedFeeRate mp)).
Proof. intros [H1 H2 H3 H4 H5] Hm Hs. split; cbn; try done. intros Hx. specialize (H2 Hx). pose proof (sumSizes_sub _ _ Hs). lia. Qed.

Lemma Purge_spec env m : fairOrder env → mainOk ∅ m → ∃ m', PurgeStaleInferenceClaims sha256 env m = Some m' ∧ mainOk ∅ m' ∧ mainGone m m'
  ∧ ∀ check h d, CheckInferenceBountySpends env = Some check → pool m' !! h = Some d → staleClaim env check d = false.
Proof.
  intros Hord Hok. unfold PurgeStaleInferenceClaims. destruct (CheckInferenceBountySpends env) as [check|]; [|exists m; split_and!; [done|done|apply mainGone_refl|done]].
  set (stale := omap _ _). assert (Hst : ∀ t, t ∈ stale ↔ ∃ h d, pool m !! h = Some d ∧ staleClaim env check d = true ∧ td_Tx d = t).
  { intros t. unfold stale. rewrite list_elem_of_omap. setoid_rewrite (Hord _ _). setoid_rewrite elem_of_elements. split.
    - intros (h & _ & (d & Hd & Ht)%bind_Some). exists h, d. destruct (staleClaim env check d) eqn:E; [|done]. by injection Ht as ->.
    - intros (h & d & Hd & Hs & <-). exists h. split; [by eapply elem_of_dom_2|]. rewrite Hd. cbn. by rewrite Hs. }
  destruct (foldM_spec (λ m tx, removeTx sha256 env m tx true) (λ s, mainOk ∅ s ∧ mainGone m s) mainGone (λ t s, pool s !! TxHash t = None) stale) with (s := m) as (m' & -> & [H1 H2] & _ & H3).
  - intros; apply mainGone_refl.
  - apply mainGone_trans.
  - intros t s s' _ _ Hg Hn. destruct (pool s' !! TxHash t) as [d|] eqn:E; [|done]. pose proof (lookup_weaken _ _ _ _ E (mg_sub _ _ Hg)). congruence.
  - intros s t [K1 K2] Ht. apply Hst in Ht as (h & d & Hd & _ & <-). pose proof (mo_key _ _ _ _ Hok _ _ Hd) as Hk.
    destruct (removeTx_spec sha256 rank env ∅ s (td_Tx d) true K1) as (s' & E & G1 & G2 & _ & _ & G5). exists s'.
    assert (Hg : mainGone s s'). { apply G5. intros e He. rewrite Hk in He. pose proof (lookup_weaken _ _ _ _ He (mg_sub _ _ K2)) as He'. rewrite Hd in He'. by injection He' as ->. }
    split_and!; try done. by eapply mainGone_trans.
  - split; [done|apply mainGone_refl].
  - exists m'. split_and!; try done. intros check' h d [= <-] Hd. destruct (staleClaim env check d) eqn:E; [|done]. exfalso.
    pose proof (lookup_weaken _ _ _ _ Hd (mg_sub _ _ H2)) as Hdm. assert (Hin : td_Tx d ∈ stale) by (apply Hst; by exists h, d). apply H3 in Hin. rewrite (mo_key _ _ _ _ H1 _ _ Hd) in Hin. congruence.
Qed.

Lemma RemoveDoubleSpends_spec env m tx : mainOk ∅ m → ∃ m', RemoveDoubleSpends sha256 env m tx = Some m' ∧ mainOk ∅ m' ∧ mainGone m m'
  ∧ ∀ op h d, op ∈ insOf tx → pool m' !! h = Some d → op ∈ insOf (td_Tx d) → h = TxHash tx.
Proof.
  intros Hok. unfold RemoveDoubleSpends.
  match goal with |- context [foldM ?f _ _] => destruct (foldM_spec f (λ s, mainOk ∅ s ∧ mainGone m s) mainGone (λ op s, ∀ t, outpoints s !! op = Some t → TxHash t = TxHash tx) (insOf tx)) with (s := m) as (m' & -> & [H1 H2] & _ & H3) end.
  - intros; apply mainGone_refl.
  - apply mainGone_trans.
  - intros op s s' [K1 _] [K2 _] Hg Hn t Ht. apply Hn. by eapply outpoints_sub, Ht; [| |apply Hg].
  - intros s op [K1 K2] Hop. destruct (outpoints s !! op) as [t|] eqn:Et; [|exists s; split_and!; [done..|apply mainGone_refl|congruence]].
    case_bool_decide as Eh; [exists s; split_and!; [done..|apply mainGone_refl|by intros t'; rewrite Et; intros [= <-]]|].
    pose proof Et as (d & Hd & Ht & _)%(mo_out _ _ _ _ K1). rewrite <- Ht.
    destruct (removeTx_member sha256 rank env ∅ s (TxHash t) d K1 Hd) as (s' & -> & G1 & G2 & G3). exists s'. split_and!; [done|done|by eapply mainGone_trans|done|].
    intros t' Ht'. exfalso. pose proof (outpoints_sub _ _ _ _ _ _ _ K1 G1 (mg_sub _ _ G3) Ht') as E. assert (t' = t) as -> by congruence. apply (mo_out _ _ _ _ G1) in Ht' as (e & He & _). congruence.
  - split; [done|apply mainGone_refl].
  - exists m'. split_and!; try done. intros op h d Hop Hd Hin. pose proof (mo_key _ _ _ _ H1 _ _ Hd) as Hk. rewrite <- Hk. apply (H3 op Hop). apply (mo_out _ _ _ _ H1). exists d. by rewrite Hk.
Qed.

(** ** The public operations *)
Inductive poolOp :=
| OpProcess (tx : MsgTx) (allowOrphan : bool) (tag : Z)
| OpMaybeAccept (tx : MsgTx)
| OpProcessOrphans (tx : MsgTx)
| OpRemoveTransaction (tx : MsgTx) (removeRedeemers : bool)
| OpRemoveDoubleSpends (tx : MsgTx)
| OpPurge
| OpRemoveOrphan (tx : MsgTx)
| OpRemoveOrphansByTag (tag : Z).

Definition onMain (mp : TxPool) (r : option mainPool) : option TxPool := m ← r; Some (mkTxPool m (mp_orphans mp) (lastEvictedFeeRate mp)).
Definition runOp (mp : TxPool) (eo : Env * poolOp) : option TxPool :=
  let '(env, op) := eo in
  match op with
  | OpProcess tx allowOrphan tag => snd <$> ProcessTransaction sha256 sha3 engine chainParams policy env mp tx allowOrphan tag
  | OpMaybeAccept tx => snd <$> MaybeAcceptTransaction sha256 sha3 engine chainParams policy env mp tx
  | OpProcessOrphans tx => snd <$> processOrphans sha256 sha3 engine chainParams policy env mp tx
  | OpRemoveTransaction tx r => onMain mp (removeTx sha256 env (mp_main mp) tx r)
  | OpRemoveDoubleSpends tx => onMain mp (RemoveDoubleSpends sha256 env (mp_main mp) tx)
  | OpPurge => onMain mp (PurgeStaleInferenceClaims sha256 env (mp_main mp))
  | OpRemoveOrphan tx => setOrphans mp <$> RemoveOrphan sha256 env (mp_orphans mp) tx
  | OpRemoveOrphansByTag tag => (λ r, setOrphans mp r.2) <$> RemoveOrphansByTag sha256 env (mp_orphans mp) tag
  end.

(** Map iterations visit every key, and the transactions that are offered have
    their parents before them. *)
Definition opOk (eo : Env * poolOp) : Prop :=
  fairOrder eo.1 ∧ match eo.2 with OpProcess tx _ _ | OpMaybeAccept tx => ranked tx | _ => True end.

Lemma runOp_ok mp eo : poolOk mp → opOk eo → ∃ mp', runOp mp eo = Some mp' ∧ poolOk mp'.
Proof.
  intros Hok [Hord Hr]. destruct eo as [env op]. unfold runOp. cbn [fst snd] in *. destruct op as [tx al tag|tx|tx|tx r|tx| |tx|tag].
  - destruct (ProcessTransaction_spec env mp tx al tag Hord Hok Hr) as (r & mp' & -> & H1 & _). by exists mp'.
  - destruct (maybeAccept_spec env mp tx true Hord Hok Hr) as (r & mp' & E & H1 & _). unfold MaybeAcceptTransaction. rewrite E. by exists mp'.
  - destruct (processOrphans_spec env mp tx Hord Hok) as (r & mp' & -> & H1 & _). by exists mp'.
  - destruct (removeTx_spec sha256 rank env ∅ (mp_main mp) tx r (pk_main _ Hok)) as (m' & -> & H1 & _ & H3). eexists. split; [done|]. apply poolOk_main; [done|done|].
    destruct r; [exact (proj1 H3)|rewrite H3; apply delete_subseteq].
  - destruct (RemoveDoubleSpends_spec env (mp_main mp) tx (pk_main _ Hok)) as (m' & -> & H1 & H2 & _). eexists. split; [done|]. apply poolOk_main; [done|done|apply H2].
  - destruct (Purge_spec env (mp_main mp) Hord (pk_main _ Hok)) as (m' & -> & H1 & H2 & _). eexists. split; [done|]. apply poolOk_main; [done|done|apply H2].
  - unfold RemoveOrphan. destruct (removeOrphanTop_spec sha256 env (mp_orphans mp) tx false Hord (pk_orphans _ Hok) ltac:(done)) as (o & -> & H1 & _ & _ & H4).
    eexists. split; [done|]. apply poolOk_orphans; [done|done|rewrite H4; apply delete_subseteq].
  - destruct (RemoveOrphansByTag_spec sha256 env (mp_orphans mp) tag Hord (pk_orphans _ Hok)) as (n & o & -> & H1 & H2 & _). eexists. split; [done|]. apply poolOk_orphans; [done|done|apply H2].
Qed.

Lemma New_ok env : poolOk (New env).
Proof.
  split; cbn.
  - split; cbn; try done; [intros op t; split; [done|by intros (d & ? & _)]|apply feeHeap_new].
  - intros _. change (sumSizes ∅) with 0. lia.
  - split; cbn; try done. intros op h t. split; [done|]. by intros (_ & x & ? & _).
  - change (size (∅ : gmap bytes orphanTx)) with 0%nat. lia.
  - done.
Qed.
End accept.
