(* ===== verification/MempoolThms.v ===== *)
(** * What the mempool guarantees (src/node/mempool/mempool.go)

    The theorems about the pool, and a run in which an orphan waits for its
    parent, both are accepted, and a third transaction replaces them. *)
From Stdlib Require Import ZArith Lia Strings.Byte.
From stdpp Require Import base gmap list.
From S2P Require Import Prelude RuleErrors WireTx Merkle Script Utxo Covenant Chaincfg Taproot TxRules ScriptVal FeeHeap MempoolPolicy Mempool MempoolOrphans MempoolMain MempoolRbf MempoolInv.
Import InferenceGo.
Open Scope Z_scope.
Open Scope list_scope.

Module MempoolDemo.
Definition toyHash : bytes → bytes := TapDemo.mix.
Definition taprootScript : bytes := [x51; x20] ++ replicate 32 x07.
Definition coin : OutPoint := mkOutPoint (replicate 32 x05) 0.
Definition coinEntry : UtxoEntry := mkUtxoEntry 100000 taprootScript 3 0.
Definition spend (prev : OutPoint) (value : Z) : MsgTx :=
  mkMsgTx 1 [mkTxIn prev [] [[x01]] 0] [mkTxOut value taprootScript] 0.
Definition parent : MsgTx := spend coin 90000.
Definition child : MsgTx := spend (mkOutPoint (TxHash toyHash parent) 0) 80000.
Definition replacement : MsgTx := spend coin 50000.
Definition policy : Policy := mkPolicy 5 true 10 100000 1000 false 300000000.
Definition env : Env :=
  mkEnv (λ tx, Ok (mkView (list_to_map ((λ op, (op, if decide (op = coin) then Some coinEntry else None)) <$> insOf tx)) []))
    None 100 0 (λ _ _, Ok (mkSequenceLock (-1) (-1))) Z.of_nat (λ _ s, elements s).
Definition engine : bytes → MsgTx → nat → Z → UtxoViewpoint → engineResult := λ _ _ _ _ _, EngineOk.
Definition rank (h : bytes) : nat :=
  if decide (h = op_Hash coin) then 0 else if decide (h = TxHash toyHash parent) then 1 else 2.
Definition process (tx : MsgTx) : Env * poolOp := (env, OpProcess tx true 7).
Definition run (ops : list (Env * poolOp)) : option TxPool :=
  foldM (runOp (H := Toy.toySchnorr) toyHash toyHash engine MainNetParams policy) (New env) ops.
Definition ops : list (Env * poolOp) := [process child; process parent; process replacement].
(** The hashes in the pool and among the orphans. *)
Definition contents (mp : TxPool) : list bytes * list bytes :=
  ((map_to_list (pool (mp_main mp))).*1, (map_to_list (orphans (mp_orphans mp))).*1).
End MempoolDemo.

Example demo_orphan : MempoolDemo.contents <$> MempoolDemo.run [MempoolDemo.process MempoolDemo.child]
  = Some ([], [TxHash MempoolDemo.toyHash MempoolDemo.child]).
Proof. vm_compute. reflexivity. Qed.
Example demo_accepted : (λ mp, (length (MempoolDemo.contents mp).1, (MempoolDemo.contents mp).2)) <$> MempoolDemo.run [MempoolDemo.process MempoolDemo.child; MempoolDemo.process MempoolDemo.parent]
  = Some (2%nat, []).
Proof. vm_compute. reflexivity. Qed.
Example demo_replaced : MempoolDemo.contents <$> MempoolDemo.run MempoolDemo.ops = Some ([TxHash MempoolDemo.toyHash MempoolDemo.replacement], []).
Proof. vm_compute. reflexivity. Qed.

Section thms.
Context `{Schnorr} (sha256 sha3 : bytes → bytes) (engine : bytes → MsgTx → nat → Z → UtxoViewpoint → engineResult)
  (chainParams : Params) (policy : Policy) (rank : bytes → nat).
Abbreviation TxHash := (TxHash sha256).
Abbreviation runOps := (foldM (runOp sha256 sha3 engine chainParams policy)).

Lemma runOps_ok mp ops : 0 <= MaxMempoolSize policy < 2 ^ 63 → poolOk sha256 policy rank mp → Forall (opOk sha256 rank) ops →
  ∃ mp', runOps mp ops = Some mp' ∧ poolOk sha256 policy rank mp'.
Proof.
  intros Hmax Hok Hops. revert mp Hok. induction Hops as [|op ops Hop _ IH]; intros mp Hok; cbn [foldM]; [by exists mp|].
  destruct (runOp_ok sha256 sha3 engine chainParams policy rank Hmax mp op Hok Hop) as (mp1 & -> & H1). by apply IH.
Qed.

(** C16. The invariant of the mempool.  From a new pool, any sequence of calls to
    the public operations (offering transactions, removing them, removing double
    spends, purging stale claims, dropping orphans), with any chain state, clock
    and order of map iterations in each call, returns without a fault.  In the
    state that results every transaction is stored under its hash; the outpoint
    index names exactly the inputs of the pool, so no two transactions spend the
    same output; with a size limit the recorded size is the sum of the serialized
    sizes and within the limit; the fee-rate heap holds exactly the pool; the
    orphans are at most as many as allowed and their index lists exactly their
    inputs. *)
Theorem mempool_safe env0 ops (Hmax : 0 <= MaxMempoolSize policy < 2 ^ 63) (Hops : Forall (opOk sha256 rank) ops) :
  ∃ mp, runOps (New env0) ops = Some mp
    ∧ (∀ h d, pool (mp_main mp) !! h = Some d → TxHash (td_Tx d) = h)
    ∧ (∀ op t, CheckSpend (mp_main mp) op = Some t ↔ ∃ d, pool (mp_main mp) !! TxHash t = Some d ∧ td_Tx d = t ∧ op ∈ insOf t)
    ∧ (∀ h1 d1 h2 d2 op, pool (mp_main mp) !! h1 = Some d1 → pool (mp_main mp) !! h2 = Some d2 → op ∈ insOf (td_Tx d1) → op ∈ insOf (td_Tx d2) → h1 = h2)
    ∧ (MaxMempoolSize policy ≠ 0 → poolBytes (mp_main mp) = sumSizes (pool (mp_main mp)) ∧ poolBytes (mp_main mp) <= MaxMempoolSize policy)
    ∧ feeHeap (feeView ∅ (pool (mp_main mp))) (feeRateHeap (mp_main mp))
    ∧ Z.of_nat (size (orphans (mp_orphans mp))) <= Z.max 0 (MaxOrphanTxs policy)
    ∧ (∀ op h t, orphansByPrev (mp_orphans mp) !! op ≫= (.!! h) = Some t ↔ ∃ x, orphans (mp_orphans mp) !! h = Some x ∧ ot_tx x = t ∧ op ∈ insOf t).
Proof.
  destruct (runOps_ok (New env0) ops Hmax (New_ok sha256 policy rank Hmax env0) Hops) as (mp & -> & [Hm Hs Ho Hf _]). exists mp. split; [done|].
  split; [apply Hm|]. split; [apply (mo_out _ _ _ _ Hm)|]. split.
  { intros h1 d1 h2 d2 op H1 H2 I1 I2. pose proof (mo_key _ _ _ _ Hm _ _ H1) as K1. pose proof (mo_key _ _ _ _ Hm _ _ H2) as K2.
    assert (E1 : outpoints (mp_main mp) !! op = Some (td_Tx d1)) by (apply Hm; exists d1; by rewrite K1).
    assert (E2 : outpoints (mp_main mp) !! op = Some (td_Tx d2)) by (apply Hm; exists d2; by rewrite K2). congruence. }
  split. { intros Hn. specialize (Hs Hn). rewrite (mainOk_size _ _ _ Hm) by lia. done. }
  split; [apply Hm|]. split; [done|]. intros op h t. rewrite (oo_index _ _ _ Ho). set_solver.
Qed.

(** C21. Removing a transaction with its redeemers is complete: the call returns,
    the transaction is gone, and no transaction that is left spends an output of
    it or of any transaction that was removed with it. *)
Theorem remove_with_redeemers env mp tx (Hok : poolOk sha256 policy rank mp) (Hsame : sameOutputs sha256 (mp_main mp) tx) :
  ∃ m, removeTx sha256 env (mp_main mp) tx true = Some m ∧ pool m ⊆ pool (mp_main mp) ∧ pool m !! TxHash tx = None
    ∧ ∀ h d k e op, pool (mp_main mp) !! h = Some d → pool m !! h = None → pool m !! k = Some e → op ∈ outputsOf h (td_Tx d) → op ∉ insOf (td_Tx e).
Proof.
  destruct (removeTx_spec sha256 rank env ∅ (mp_main mp) tx true (pk_main _ _ _ _ Hok)) as (m & -> & Hm & Hn & Hsub & _ & Hg). specialize (Hg Hsame).
  exists m. split_and!; try done. intros h d k e op Hd Hdn He Ho Hin. pose proof (mg_closed _ _ Hg h d op Hd Hdn Ho) as Hfree.
  assert (outpoints m !! op = Some (td_Tx e)); [|congruence]. apply (mo_out _ _ _ _ Hm). exists e. by rewrite (mo_key _ _ _ _ Hm _ _ He).
Qed.

(** C20. The replacement rule is exact: [validateReplacement] returns, and accepts a
    transaction with the set [C] if and only if [C] are the transactions that
    spend its inputs together with all their descendants in the pool; there are at
    most 100 of them; none is an ancestor of the transaction; its fee rate is
    above that of each; its fee covers the sum of their fees and its own relay fee
    (exactly, no sum wraps); and every pool transaction it spends from is also
    spent from by a member of [C]. *)
Theorem replacement_rule env mp tx txFee (Hord : fairOrder env) (Hok : poolOk sha256 policy rank mp) (Hr : ranked sha256 rank tx) :
  ∃ r, validateReplacement sha256 policy env (mp_main mp) tx txFee = Some r
    ∧ ∀ C, r = Ok C ↔ conflictMap sha256 (mp_main mp) tx C ∧ validReplacement sha256 policy (mp_main mp) tx txFee C.
Proof. eapply validateReplacement_spec; [done|apply Hok|done]. Qed.

(** The cached recursions over the pool compute what they are meant to: for a
    pool transaction [signalsReplacement] is true if and only if the transaction or
    one of its ancestors in the pool has an input with a sequence number of at
    most 0xfffffffd, and [txAncestors] and [txDescendants] are exactly the
    transactions reachable over inputs and over outputs. *)
Lemma pool_recursions_exact mp h d (Hok : poolOk sha256 policy rank mp) (Hd : pool (mp_main mp) !! h = Some d) :
  let m := mp_main mp in
  (∃ b c, signalsReplacement (poolFuel m) m (td_Tx d) ∅ = Some (b, c) ∧ (b = true ↔ signals m (td_Tx d)))
  ∧ (∃ A c, txAncestors sha256 (poolFuel m) m (td_Tx d) ∅ = Some (A, c) ∧ ∀ k u, A !! k = Some u ↔ TxHash u = k ∧ ancestor m (td_Tx d) u)
  ∧ (∃ D c, txDescendants sha256 (poolFuel m) m (td_Tx d) ∅ = Some (D, c) ∧ ∀ k u, D !! k = Some u ↔ TxHash u = k ∧ descendant sha256 m (td_Tx d) u).
Proof.
  pose proof (pk_main _ _ _ _ Hok) as Hm. pose proof (mo_rank _ _ _ _ Hm _ _ Hd) as Hr. cbv zeta. split; [|split].
  - destruct (signalsReplacement_spec sha256 rank ∅ (mp_main mp) Hm (poolFuel (mp_main mp)) (td_Tx d) ∅ Hr ltac:(intros k e Hk; set_solver) (size_filter_pool (mp_main mp) _)) as (b & c & E & Hb & _).
    by exists b, c.
  - by eapply txAncestors_spec.
  - by eapply txDescendants_spec.
Qed.

(** C22. What acceptance guarantees: when [maybeAcceptTransaction] returns a
    descriptor, the transaction was new and is now in the pool under the descriptor,
    the invariant holds again and the orphans are untouched; the transaction
    passed the context-free rules and the script checks, pays the relay fee, and
    spends nothing that a pool transaction spent, unless all those signal
    replacement and the replacement rule holds. *)
Theorem acceptance_sound env mp tx rej d mp' (Hmax : 0 <= MaxMempoolSize policy < 2 ^ 63) (Hord : fairOrder env)
  (Hok : poolOk sha256 policy rank mp) (Hr : ranked sha256 rank tx)
  (Hacc : maybeAcceptTransaction sha256 sha3 engine chainParams policy env mp tx rej = Some (Ok ([], Some d), mp')) :
  pool (mp_main mp) !! TxHash tx = None ∧ pool (mp_main mp') !! TxHash tx = Some d ∧ td_Tx d = tx
  ∧ poolOk sha256 policy rank mp' ∧ mp_orphans mp' = mp_orphans mp
  ∧ ∃ a, checkMempoolAcceptance sha256 sha3 engine chainParams policy env mp tx rej = Some (Ok a) ∧ acceptable sha256 engine chainParams policy (mp_main mp) tx a.
Proof.
  destruct (maybeAccept_spec sha256 sha3 engine chainParams policy rank Hmax env mp tx rej Hord Hok Hr) as (r & mp1 & E & H1 & H2 & Hout). rewrite Hacc in E. injection E as <- <-.
  destruct Hout as [_ (d' & [= <-] & Hd & Hp)].
  destruct (checkMempoolAcceptance_spec sha256 sha3 engine chainParams policy rank env mp tx rej Hord (pk_main _ _ _ _ Hok) Hr) as (r & Ec & Hck).
  unfold maybeAcceptTransaction in Hacc. rewrite Ec in Hacc. cbn [mbind option_bind] in Hacc. destruct r as [a|e]; [|done]. destruct (Hck a eq_refl) as (Hnew & _ & Ha).
  split_and!; try done. exists a. split; [done|]. apply Ha. destruct (ar_MissingParents a) as [|x l]; [done|]. cbn in Hacc. done.
Qed.

(** Trimming: with a size limit, [trimToSize] returns with the pool at or
    below the limit; what is left is a part of the pool in which no transaction
    spends from one that was evicted, and if anything was evicted, the fee rate
    recorded as the floor is at most that of every transaction that stayed. *)
Lemma trim_to_size env mp floor (Hmax : 0 < MaxMempoolSize policy) (Hok : mainOk sha256 rank ∅ mp) :
  ∃ m floor', trimToSize sha256 policy env mp floor = Some (m, floor') ∧ mainOk sha256 rank ∅ m ∧ mainGone mp m
    ∧ poolBytes m <= MaxMempoolSize policy ∧ (m = mp ∨ ∀ h d, pool m !! h = Some d → floor' <= td_FeePerKB d).
Proof.
  destruct (trimToSize_spec sha256 rank policy env mp floor ltac:(lia) Hok) as (m & fl & E & H1 & H2 & [[? _]|[H3 H4]]); [lia|]. by exists m, fl.
Qed.
(** The fee floor applies only when the pool is exactly as large as the limit: the
    pool is never larger. *)
Lemma floor_only_at_limit mp txFee txSize : 0 <= MaxMempoolSize policy < 2 ^ 63 → poolOk sha256 policy rank mp → belowFloor policy mp txFee txSize = true → poolBytes (mp_main mp) = MaxMempoolSize policy.
Proof.
  intros Hmax [Hm Hs _ _ _] Hb. unfold belowFloor in Hb. rewrite !andb_true_iff in Hb. destruct Hb as [[[H1%Z.ltb_lt _] H2%Z.leb_le] _].
  specialize (Hs ltac:(lia)). rewrite (mainOk_size _ _ _ Hm) in * by lia. lia.
Qed.
End thms.

(** ** Instances *)
Section demo.
Import MempoolDemo.
Abbreviation demoOk := (poolOk toyHash policy rank).
Lemma demo_max : 0 <= MaxMempoolSize policy < 2 ^ 63.
Proof. cbn [MaxMempoolSize policy]. lia. Qed.
Lemma demo_new : demoOk (New env).
Proof. exact (New_ok toyHash policy rank demo_max env). Qed.
Lemma demo_fair : fairOrder env.
Proof. by intros n s'. Qed.
Lemma demo_ranked tx : tx ∈ [child; parent; replacement] → ranked toyHash rank tx.
Proof.
  intros Htx op Hop. repeat (apply elem_of_cons in Htx as [->|Htx]; [apply list_elem_of_singleton in Hop as ->; vm_compute; lia|]). by apply elem_of_nil in Htx.
Qed.
Lemma demo_ops l : l ⊆ [child; parent; replacement] → Forall (opOk toyHash rank) (process <$> l).
Proof. intros Hl. apply Forall_fmap, Forall_forall. intros tx Htx. split; [apply demo_fair|]. by apply demo_ranked, Hl. Qed.
(** The state after the first two transactions. *)
Lemma demo_state : ∃ mp, run [process child; process parent] = Some mp ∧ demoOk mp.
Proof.
  apply (runOps_ok (H := Toy.toySchnorr) toyHash toyHash engine MainNetParams policy rank (New env) [process child; process parent]); [exact demo_max|exact demo_new|].
  apply (demo_ops [child; parent]). set_solver.
Qed.
Lemma demo_member mp : run [process child; process parent] = Some mp → ∃ d, pool (mp_main mp) !! TxHash toyHash parent = Some d ∧ td_Tx d = parent.
Proof.
  intros E. assert (F : (mp ← run [process child; process parent]; d ← pool (mp_main mp) !! TxHash toyHash parent; Some (td_Tx d)) = Some parent) by (vm_compute; reflexivity).
  rewrite E in F. cbn [mbind option_bind] in F. destruct (pool (mp_main mp) !! TxHash toyHash parent) as [d|]; [|done]. exists d. split; [done|]. by injection F.
Qed.
End demo.

Lemma mempool_safe_witness : ∃ mp, MempoolDemo.run MempoolDemo.ops = Some mp
  ∧ (∀ h1 d1 h2 d2 op, pool (mp_main mp) !! h1 = Some d1 → pool (mp_main mp) !! h2 = Some d2 → op ∈ insOf (td_Tx d1) → op ∈ insOf (td_Tx d2) → h1 = h2).
Proof.
  destruct (mempool_safe (H := Toy.toySchnorr) MempoolDemo.toyHash MempoolDemo.toyHash MempoolDemo.engine MainNetParams MempoolDemo.policy MempoolDemo.rank MempoolDemo.env MempoolDemo.ops)
    as (mp & E & _ & _ & Hd & _); [exact demo_max|apply (demo_ops [MempoolDemo.child; MempoolDemo.parent; MempoolDemo.replacement]); done|]. exists mp. exact (conj E Hd).
Defined.
Lemma remove_with_redeemers_witness : ∃ mp m, MempoolDemo.run [MempoolDemo.process MempoolDemo.child; MempoolDemo.process MempoolDemo.parent] = Some mp
  ∧ removeTx MempoolDemo.toyHash MempoolDemo.env (mp_main mp) MempoolDemo.parent true = Some m ∧ pool m !! TxHash MempoolDemo.toyHash MempoolDemo.parent = None.
Proof.
  destruct demo_state as (mp & E & Hok). destruct (remove_with_redeemers MempoolDemo.toyHash MempoolDemo.policy MempoolDemo.rank MempoolDemo.env mp MempoolDemo.parent Hok) as (m & Em & _ & Hn & _).
  - destruct (demo_member mp E) as (d & Hd & Ht). intros d' Hd'. rewrite Hd in Hd'. injection Hd' as <-. by rewrite Ht.
  - exists mp, m. exact (conj E (conj Em Hn)).
Defined.
Lemma replacement_rule_witness : ∃ mp C, MempoolDemo.run [MempoolDemo.process MempoolDemo.child; MempoolDemo.process MempoolDemo.parent] = Some mp
  ∧ validateReplacement MempoolDemo.toyHash MempoolDemo.policy MempoolDemo.env (mp_main mp) MempoolDemo.replacement 50000 = Some (Ok C)
  ∧ conflictFees (mp_main mp) C + calcMinRequiredTxRelayFee (GetTransactionVsize MempoolDemo.replacement) 1000 <= 50000.
Proof.
  destruct demo_state as (mp & E & Hok). destruct (replacement_rule MempoolDemo.toyHash MempoolDemo.policy MempoolDemo.rank MempoolDemo.env mp MempoolDemo.replacement 50000 demo_fair Hok) as (r & Er & Hr).
  - apply demo_ranked. right. right. by left.
  - assert (F : (mp ← MempoolDemo.run [MempoolDemo.process MempoolDemo.child; MempoolDemo.process MempoolDemo.parent];
        r ← validateReplacement MempoolDemo.toyHash MempoolDemo.policy MempoolDemo.env (mp_main mp) MempoolDemo.replacement 50000; Some (is_Ok r)) = Some true) by (vm_compute; reflexivity).
    rewrite E in F. cbn [mbind option_bind] in F. rewrite Er in F. destruct r as [C|e]; [|discriminate F]. exists mp, C. destruct (proj1 (Hr C) eq_refl) as [_ HV].
    exact (conj E (conj Er (vr_fee _ _ _ _ _ _ HV))).
Defined.
Lemma pool_recursions_exact_witness : ∃ mp d b c, MempoolDemo.run [MempoolDemo.process MempoolDemo.child; MempoolDemo.process MempoolDemo.parent] = Some mp
  ∧ pool (mp_main mp) !! TxHash MempoolDemo.toyHash MempoolDemo.parent = Some d ∧ signalsReplacement (poolFuel (mp_main mp)) (mp_main mp) (td_Tx d) ∅ = Some (b, c).
Proof.
  destruct demo_state as (mp & E & Hok). destruct (demo_member mp E) as (d & Hd & Ht).
  destruct (pool_recursions_exact MempoolDemo.toyHash MempoolDemo.policy MempoolDemo.rank mp _ d Hok Hd) as [(b & c & Es & _) _]. exists mp, d, b, c. exact (conj E (conj Hd Es)).
Defined.
Lemma acceptance_sound_witness : ∃ d mp', maybeAcceptTransaction (H := Toy.toySchnorr) MempoolDemo.toyHash MempoolDemo.toyHash MempoolDemo.engine MainNetParams MempoolDemo.policy MempoolDemo.env
    (New MempoolDemo.env) MempoolDemo.parent true = Some (Ok ([], Some d), mp') ∧ td_Tx d = MempoolDemo.parent.
Proof.
  eexists _, _. split; [vm_compute; reflexivity|].
  eapply (acceptance_sound (H := Toy.toySchnorr) MempoolDemo.toyHash MempoolDemo.toyHash MempoolDemo.engine MainNetParams MempoolDemo.policy MempoolDemo.rank MempoolDemo.env (New MempoolDemo.env) MempoolDemo.parent true);
    [exact demo_max|exact demo_fair|exact demo_new|apply demo_ranked; right; by left|vm_compute; reflexivity].
Defined.
Lemma trim_to_size_witness : ∃ m f, trimToSize MempoolDemo.toyHash MempoolDemo.policy MempoolDemo.env (mp_main (New MempoolDemo.env)) 0 = Some (m, f) ∧ poolBytes m <= 300000000.
Proof.
  destruct (trim_to_size MempoolDemo.toyHash MempoolDemo.policy MempoolDemo.rank MempoolDemo.env (mp_main (New MempoolDemo.env)) 0) as (m & f & E & _ & _ & Hb & _);
    [cbn; lia|exact (pk_main _ _ _ _ demo_new)|]. exists m, f. exact (conj E Hb).
Defined.
