(* ===== verification/Mining.v ===== *)
(** * Block templates (src/node/mining/mining.go)

    The generator considers every transaction of the pool: those whose inputs are
    all in the chain enter a priority queue, the others wait for the pool
    transactions they spend from.  It then takes transactions from the queue as
    long as they fit and are valid, releases what waited for them, and finishes
    with the coinbase, the witness commitment and the header.

    Items are shared between the queue and the waiting lists, so they live in a
    store; the queue implements the heap interface of GoHeap.  The chain is the
    record [ChainView], what the generator asks of it. *)
From Stdlib Require Import ZArith Lia Strings.Byte Strings.String.
From stdpp Require Import base gmap list.
From S2P Require Import Prelude RuleErrors WireTx WireBlock Merkle Script ScriptBuilder Utxo Covenant Chaincfg TxRules ScriptVal BlockRules Chain GoHeap Mempool.
Open Scope Z_scope.
Open Scope list_scope.

Definition MaxVarIntPayload : Z := 9.
Definition blockHeaderOverhead : Z := MaxBlockHeaderPayload + MaxVarIntPayload.
(** "/P2SH/pearld/" *)
Definition CoinbaseFlags : bytes := [x2f; x50; x32; x53; x48; x2f; x70; x65; x61; x72; x6c; x64; x2f].

Record MiningPolicy := mkMiningPolicy { BlockMinVsize : Z; BlockMaxVsize : Z }.

(** ** The priority queue *)
Record txPrioItem := mkPrioItem {
  pi_tx : MsgTx;
  pi_fee : Z;
  pi_feePerKB : Z;
  pi_dependsOn : option (gset bytes) }.
Record txPriorityQueue := mkQueue {
  pq_objs : gmap nat txPrioItem;
  pq_items : list nat }.

Definition isInferenceTx (tx : MsgTx) : bool :=
  (tx_Version tx =? TxVersionInference) || (tx_Version tx =? TxVersionInferenceProof).
Definition feeBefore (a b : txPrioItem) : bool :=
  let pi := isInferenceTx (pi_tx a) in let pj := isInferenceTx (pi_tx b) in
  if negb (eqb pi pj) then pi else pi_feePerKB b <? pi_feePerKB a.
Definition txPQByFee (pq : txPriorityQueue) (i j : nat) : option bool :=
  p ← pq_items pq !! i; q ← pq_items pq !! j;
  a ← pq_objs pq !! p; b ← pq_objs pq !! q;
  Some (feeBefore a b).
Definition pqSwap (pq : txPriorityQueue) (i j : nat) : option txPriorityQueue :=
  p ← pq_items pq !! i; q ← pq_items pq !! j;
  Some (mkQueue (pq_objs pq) (<[i := q]> (<[j := p]> (pq_items pq)))).
Definition pqPush (pq : txPriorityQueue) (x : nat) : txPriorityQueue := mkQueue (pq_objs pq) (pq_items pq ++ [x]).
Definition pqPop (pq : txPriorityQueue) : option (nat * txPriorityQueue) :=
  match last (pq_items pq) with
  | Some item => Some (item, mkQueue (pq_objs pq) (take (length (pq_items pq) - 1) (pq_items pq)))
  | None => None
  end.
#[export] Instance priorityInterface : HeapInterface txPriorityQueue nat := {|
  hp_Len pq := length (pq_items pq); hp_Less := txPQByFee; hp_Swap := pqSwap; hp_Push := pqPush; hp_Pop := pqPop |}.
Definition newTxPriorityQueue : txPriorityQueue := mkQueue ∅ [].

(** ** Views *)
Definition mergeUtxoView (viewA viewB : UtxoViewpoint) : UtxoViewpoint :=
  mkView (map_fold (λ outpoint entryB a,
            match entries viewA !! outpoint with
            | Some (Some entryA) => if IsSpent entryA then <[outpoint := entryB]> a else a
            | _ => <[outpoint := entryB]> a
            end) (entries viewA) (entries viewB)) (bestHash viewA).

(** [entry.Spend] changes the entry in the view. *)
Definition spendInput (v : UtxoViewpoint) (txIn : TxIn) : UtxoViewpoint :=
  match LookupEntry v (ti_PreviousOutPoint txIn) with
  | Some entry => setEntry v (ti_PreviousOutPoint txIn) (Spend entry)
  | None => v
  end.

Section mining.
Context `{Schnorr} (sha256 sha3 : bytes → bytes) (engine : bytes → MsgTx → nat → Z → UtxoViewpoint → engineResult).

Definition spendTransaction (utxoView : UtxoViewpoint) (tx : MsgTx) (height : Z) : UtxoViewpoint :=
  AddTxOuts sha256 (foldl spendInput utxoView (tx_TxIn tx)) tx height.

(** What the generator asks of the chain, the transaction source and the clock. *)
Record ChainView := mkChainView {
  cv_best : BestState;
  cv_FetchUtxoView : MsgTx → res verr UtxoViewpoint;
  cv_HaveTransaction : bytes → bool;
  cv_MiningDescs : list TxDesc;
  cv_AdjustedTime : nat → Z;
  cv_CheckInferenceBountySpendsAgainstTip : MsgTx → UtxoViewpoint → res verr unit;
  cv_CalcNextRequiredDifficulty : Z → res verr Z;
  cv_CalcNextBlockVersion : res verr Z;
  cv_CheckConnectBlockTemplate : MsgBlock → Z → res verr unit;
  cv_order : nat → gset bytes → list bytes }.
Context (policy : MiningPolicy) (chainParams : Params) (g : ChainView).

Definition TxVersion : Z := 1.

(** ** The coinbase *)
(** [None] is the panic of the script builder on the least int64. *)
Definition standardCoinbaseScript (nextBlockHeight extraNonce : Z) : option (res verr bytes) :=
  b ← AddInt64 NewScriptBuilder nextBlockHeight;
  b ← AddInt64 b (i64 extraNonce);
  let b := AddData b CoinbaseFlags in
  Some (if sb_err b then Err OtherError else Ok (sb_script b)).

(** [addr] is the result of [PayToAddrScript], or nil. *)
Definition createCoinbaseTx (coinbaseScript : bytes) (nextBlockHeight : Z) (addr : option (res verr bytes)) : option (res verr MsgTx) :=
  let script := match addr with
                | Some r => r
                | None => let b := AddOp NewScriptBuilder (z2b OP_RETURN) in if sb_err b then Err OtherError else Ok (sb_script b)
                end in
  match script with
  | Err e => Some (Err e)
  | Ok pkScript =>
      subsidy ← CalcBlockSubsidy nextBlockHeight (Some chainParams);
      Some (Ok (mkMsgTx TxVersion [mkTxIn (mkOutPoint zeroHash 4294967295) coinbaseScript [] 4294967295]
                  [mkTxOut subsidy pkScript] 0))
  end.

(** ** Considering the pool *)
Record considered := mkConsidered {
  cs_queue : txPriorityQueue;
  cs_next : nat;
  cs_dependers : gmap bytes (gmap bytes nat);
  cs_utxos : UtxoViewpoint }.

Definition setObj (p : nat) (it : txPrioItem) (pq : txPriorityQueue) : txPriorityQueue := mkQueue (<[p := it]> (pq_objs pq)) (pq_items pq).
Definition dependOn (originHash : bytes) (it : txPrioItem) : txPrioItem :=
  mkPrioItem (pi_tx it) (pi_fee it) (pi_feePerKB it) (Some ({[originHash]} ∪ default ∅ (pi_dependsOn it))).

(** The loop over the inputs of item [p]: [false] when an input is not available
    ([continue mempoolLoop]); what was registered before stays. *)
Fixpoint setupDeps (utxos : UtxoViewpoint) (p : nat) (txHash : bytes) (ins : list TxIn)
    (deps : gmap bytes (gmap bytes nat)) (it : txPrioItem) : bool * gmap bytes (gmap bytes nat) * txPrioItem :=
  match ins with
  | [] => (true, deps, it)
  | txIn :: ins' =>
      let originHash := op_Hash (ti_PreviousOutPoint txIn) in
      let missing := match LookupEntry utxos (ti_PreviousOutPoint txIn) with Some entry => IsSpent entry | None => true end in
      if missing then
        if negb (cv_HaveTransaction g originHash) then (false, deps, it) else
        setupDeps utxos p txHash ins' (<[originHash := <[txHash := p]> (default ∅ (deps !! originHash))]> deps) (dependOn originHash it)
      else setupDeps utxos p txHash ins' deps it
  end.

Definition considerTx (nextBlockHeight : Z) (s : considered) (x : nat * TxDesc) : option considered :=
  let '(k, txDesc) := x in
  let tx := td_Tx txDesc in
  if IsCoinBaseTx tx then Some s else
  if negb (IsFinalizedTransaction tx nextBlockHeight (unixOf (cv_AdjustedTime g k))) then Some s else
  match cv_FetchUtxoView g tx with
  | Err _ => Some s
  | Ok utxos =>
      let p := cs_next s in
      let '(ok, deps, it) := setupDeps utxos p (TxHash sha256 tx) (tx_TxIn tx) (cs_dependers s) (mkPrioItem tx 0 0 None) in
      if negb ok then Some (mkConsidered (setObj p it (cs_queue s)) (S p) deps (cs_utxos s)) else
      let it := mkPrioItem tx (td_Fee txDesc) (td_FeePerKB txDesc) (pi_dependsOn it) in
      let pq := setObj p it (cs_queue s) in
      pq ← match pi_dependsOn it with None => heapPush pq p | Some _ => Some pq end;
      Some (mkConsidered pq (S p) deps (mergeUtxoView (cs_utxos s) utxos))
  end.

Definition considerAll (nextBlockHeight : Z) : option considered :=
  foldM (considerTx nextBlockHeight) (mkConsidered newTxPriorityQueue 0 ∅ (mkView ∅ zeroHash)) (imap pair (cv_MiningDescs g)).

(** ** Choosing transactions *)
Record selection := mkSelection {
  sl_queue : txPriorityQueue;
  sl_utxos : UtxoViewpoint;
  sl_txns : list MsgTx;
  sl_fees : list Z;
  sl_vsize : Z;
  sl_total : Z;
  sl_tick : nat }.

(** One item that waited for the transaction [txHash]. *)
Definition release (txHash : bytes) (pq : txPriorityQueue) (p : nat) : option txPriorityQueue :=
  it ← pq_objs pq !! p;
  let d := default ∅ (pi_dependsOn it) ∖ {[txHash]} in
  let pq := setObj p (mkPrioItem (pi_tx it) (pi_fee it) (pi_feePerKB it) (const d <$> pi_dependsOn it)) pq in
  if (size d =? 0)%nat then heapPush pq p else Some pq.

(** The checks on a transaction from the queue. *)
Definition includable (nextBlockHeight : Z) (utxos : UtxoViewpoint) (tx : MsgTx) : bool :=
  match InferenceGo.CheckInferenceGoIssuance sha3 tx nextBlockHeight chainParams with
  | Err _ => false
  | Ok issued =>
      is_Ok (CheckTransactionInputsWithIssuance tx nextBlockHeight utxos chainParams issued)
      && is_Ok (ValidateTransactionScripts engine utxos tx)
      && is_Ok (cv_CheckInferenceBountySpendsAgainstTip g tx utxos)
  end.

Definition selectOne (nextBlockHeight : Z) (dependers : gmap bytes (gmap bytes nat)) (s : selection) : option selection :=
  '(p, pq) ← heapPop (sl_queue s);
  prioItem ← pq_objs pq !! p;
  let tx := pi_tx prioItem in
  let s := mkSelection pq (sl_utxos s) (sl_txns s) (sl_fees s) (sl_vsize s) (sl_total s) (sl_tick s) in
  let deps := default ∅ (dependers !! TxHash sha256 tx) in
  let txVsize := u32 (GetTransactionVsize tx) in
  let blockPlusTxVsize := u32 (sl_vsize s + txVsize) in
  if (blockPlusTxVsize <? sl_vsize s) || (BlockMaxVsize policy <=? blockPlusTxVsize) then Some s else
  if negb (includable nextBlockHeight (sl_utxos s) tx) then Some s else
  pq ← foldM (λ pq hash, match deps !! hash with Some item => release (TxHash sha256 tx) pq item | None => Some pq end)
         pq (cv_order g (sl_tick s) (dom deps));
  Some (mkSelection pq (spendTransaction (sl_utxos s) tx nextBlockHeight) (sl_txns s ++ [tx]) (sl_fees s ++ [pi_fee prioItem])
          (u32 (sl_vsize s + txVsize)) (i64 (sl_total s + pi_fee prioItem)) (S (sl_tick s))).

Fixpoint selectLoop (fuel : nat) (nextBlockHeight : Z) (dependers : gmap bytes (gmap bytes nat)) (s : selection) : option selection :=
  if (length (pq_items (sl_queue s)) =? 0)%nat then Some s else
  match fuel with
  | O => None
  | S fuel' => s ← selectOne nextBlockHeight dependers s; selectLoop fuel' nextBlockHeight dependers s
  end.

(** ** The finished block *)
Definition setWitness (w : list bytes) (tx : MsgTx) : MsgTx :=
  mkMsgTx (tx_Version tx) (match tx_TxIn tx with ti :: l => mkTxIn (ti_PreviousOutPoint ti) (ti_SignatureScript ti) w (ti_Sequence ti) :: l | [] => [] end)
    (tx_TxOut tx) (tx_LockTime tx).
Definition addTxOut (o : TxOut) (tx : MsgTx) : MsgTx := mkMsgTx (tx_Version tx) (tx_TxIn tx) (tx_TxOut tx ++ [o]) (tx_LockTime tx).
Definition setFirstValue (f : Z → Z) (tx : MsgTx) : MsgTx :=
  mkMsgTx (tx_Version tx) (tx_TxIn tx) (match tx_TxOut tx with o :: l => mkTxOut (f (to_Value o)) (to_PkScript o) :: l | [] => [] end) (tx_LockTime tx).

(** The coinbase with the commitment to the other transactions, and the
    commitment. *)
Definition AddWitnessCommitment (coinbaseTx : MsgTx) (txns : list MsgTx) : option (bytes * MsgTx) :=
  let witnessNonce := replicate CoinbaseWitnessDataLen x00 in
  let coinbaseTx := setWitness [witnessNonce] coinbaseTx in
  witnessMerkleRoot ← CalcMerkleRoot sha256 (coinbaseTx :: txns) true;
  let witnessCommitment := DoubleHashH sha256 (witnessMerkleRoot ++ witnessNonce) in
  let witnessScript := WitnessMagicBytes ++ witnessCommitment in
  Some (witnessCommitment, addTxOut (mkTxOut 0 witnessScript) coinbaseTx).

(** The vsize that the commitment adds to the coinbase. *)
Definition commitmentOverhead (coinbaseTx : MsgTx) : Z :=
  let coinbaseCopy := addTxOut (mkTxOut 0 (replicate CoinbaseWitnessPkScriptLength x61)) (setWitness [replicate CoinbaseWitnessDataLen x61] coinbaseTx) in
  GetTransactionVsize coinbaseCopy - GetTransactionVsize coinbaseTx.

(** Times are in nanoseconds; the snapshot holds seconds. *)
Definition MinBlockTimestamp (best : BestState) : Z := timeUnix (bst_BlockTime best) + MinTimestampDeltaSeconds * Second.
Definition adjustedBlockTime (best : BestState) (now : Z) : Z :=
  let minTimestamp := MinBlockTimestamp best in if now <? minTimestamp then minTimestamp else now.

Record BlockTemplate := mkTemplate {
  bt_Block : MsgBlock;
  bt_Fees : list Z;
  bt_Height : Z;
  bt_ValidPayAddress : bool;
  bt_WitnessCommitment : bytes }.

Definition NewBlockTemplate (payToAddress : option (res verr bytes)) : option (res verr BlockTemplate) :=
  let best := cv_best g in
  let nextBlockHeight := i32 (bst_Height best + 1) in
  do? coinbaseScript := standardCoinbaseScript nextBlockHeight 0 in
  do? coinbaseTx := createCoinbaseTx coinbaseScript nextBlockHeight payToAddress in
  c ← considerAll nextBlockHeight;
  let blockVsize := u32 (blockHeaderOverhead + GetTransactionVsize coinbaseTx) in
  let blockVsize := u32 (blockVsize + u32 (commitmentOverhead coinbaseTx)) in
  s ← selectLoop (cs_next c) nextBlockHeight (cs_dependers c) (mkSelection (cs_queue c) (cs_utxos c) [] [] blockVsize 0 0);
  let coinbaseTx := setFirstValue (λ v, i64 (v + sl_total s)) coinbaseTx in
  let txFees := i64 (- sl_total s) :: sl_fees s in
  '(witnessCommitment, coinbaseTx) ← AddWitnessCommitment coinbaseTx (sl_txns s);
  let blockTxns := coinbaseTx :: sl_txns s in
  let ts := adjustedBlockTime best (cv_AdjustedTime g (length (cv_MiningDescs g))) in
  do? reqDifficulty := Some (cv_CalcNextRequiredDifficulty g ts) in
  do? nextBlockVersion := Some (cv_CalcNextBlockVersion g) in
  merkleRoot ← CalcMerkleRoot sha256 blockTxns false;
  let header := mkBlockHeader nextBlockVersion (bst_Hash best) merkleRoot ts reqDifficulty zeroHash in
  let msgBlock := mkMsgBlock (mkMsgHeader (Some (mkZKCertificate (BlockHash sha256 header) (replicate 164 x00) [])) header) None blockTxns in
  do? _ := Some (cv_CheckConnectBlockTemplate g msgBlock nextBlockHeight) in
  Some (Ok (mkTemplate msgBlock txFees nextBlockHeight (bool_decide (is_Some payToAddress)) witnessCommitment)).

(** ** Updates of a template *)
Definition withHeader (f : BlockHeader → BlockHeader) (b : MsgBlock) : MsgBlock :=
  mkMsgBlock (mkMsgHeader (mh_Certificate (mb_MsgHeader b)) (f (mh_BlockHeader (mb_MsgHeader b)))) (mb_AuxPow b) (mb_Transactions b).
Definition setTimestamp (t : Z) (h : BlockHeader) : BlockHeader :=
  mkBlockHeader (bh_Version h) (bh_PrevBlock h) (bh_MerkleRoot h) t (bh_Bits h) (bh_ProofCommitment h).
Definition setBits (b : Z) (h : BlockHeader) : BlockHeader :=
  mkBlockHeader (bh_Version h) (bh_PrevBlock h) (bh_MerkleRoot h) (bh_Timestamp h) b (bh_ProofCommitment h).
Definition setMerkleRoot (r : bytes) (h : BlockHeader) : BlockHeader :=
  mkBlockHeader (bh_Version h) (bh_PrevBlock h) r (bh_Timestamp h) (bh_Bits h) (bh_ProofCommitment h).

(** The header as the call leaves it, also when the difficulty is an error. *)
Definition UpdateBlockTime (msgBlock : MsgBlock) : res verr unit * MsgBlock :=
  let newTime := adjustedBlockTime (cv_best g) (cv_AdjustedTime g 0) in
  let msgBlock := withHeader (setTimestamp newTime) msgBlock in
  if ReduceMinDifficulty chainParams then
    match cv_CalcNextRequiredDifficulty g newTime with
    | Err e => (Err e, msgBlock)
    | Ok difficulty => (Ok tt, withHeader (setBits difficulty) msgBlock)
    end
  else (Ok tt, msgBlock).

Definition setSigScript (script : bytes) (tx : MsgTx) : MsgTx :=
  mkMsgTx (tx_Version tx) (match tx_TxIn tx with ti :: l => mkTxIn (ti_PreviousOutPoint ti) script (ti_Witness ti) (ti_Sequence ti) :: l | [] => [] end)
    (tx_TxOut tx) (tx_LockTime tx).
(** [None]: the block has no transactions or its first one no inputs. *)
Definition UpdateExtraNonce (msgBlock : MsgBlock) (blockHeight extraNonce : Z) : option (res verr MsgBlock) :=
  do? coinbaseScript := standardCoinbaseScript blockHeight extraNonce in
  if MaxCoinbaseScriptLen <? zlen coinbaseScript then Some (Err OtherError) else
  match mb_Transactions msgBlock with
  | [] => None
  | cb :: txs =>
      match tx_TxIn cb with
      | [] => None
      | _ :: _ =>
          let txs := setSigScript coinbaseScript cb :: txs in
          merkleRoot ← CalcMerkleRoot sha256 txs false;
          let b := mkMsgBlock (mb_MsgHeader msgBlock) (mb_AuxPow msgBlock) txs in
          Some (Ok (withHeader (setMerkleRoot merkleRoot) b))
      end
  end.
End mining.
