(* ===== verification/MiningSelect.v ===== *)
(** * Block templates: the selection of transactions (src/node/mining/mining.go)

    The priority queue implements the heap interface for a fixed store.  The
    selection never pushes an item twice: an item waits exactly for the pool
    transactions it is registered under, and each is taken from the queue at most
    once.  So the loop ends within the number of items, nothing that can be chosen
    is forgotten, and what is chosen is a valid sequence of spends within the size
    limit, in the order of the queue.  An item that is left out although what it
    waits for is in the block failed in its turn: after all it waits for, when no
    ready item ranked before it. *)
From Stdlib Require Import ZArith Lia Strings.Byte.
From stdpp Require Import base gmap list.
From S2P Require Import Prelude RuleErrors WireTx WireBlock Merkle Script ScriptBuilder Utxo Covenant Chaincfg TxRules ScriptVal BlockRules Chain GoHeap Mempool MempoolOrphans Mining.
Open Scope Z_scope.
Open Scope list_scope.

(** ** The queue *)
(** What the order looks at. *)
Definition prioKey (objs : gmap nat txPrioItem) (p : nat) : bool * Z :=
  match objs !! p with Some it => (isInferenceTx (pi_tx it), pi_feePerKB it) | None => (false, 0) end.
Definition keyBefore (a b : bool * Z) : bool := if negb (eqb a.1 b.1) then a.1 else b.2 <? a.2.
Definition ltAt (objs : gmap nat txPrioItem) (p q : nat) : bool := keyBefore (prioKey objs p) (prioKey objs q).
Definition queueOf (objs : gmap nat txPrioItem) (pq : txPriorityQueue) : Prop :=
  pq_objs pq = objs ∧ ∀ p, p ∈ pq_items pq → is_Some (objs !! p).

Lemma queueLaws objs : HeapLaws txPriorityQueue nat nat (ltAt objs) pq_items (queueOf objs) (λ _ x a, x = a ∧ is_Some (objs !! x)) (λ _ x a, x = a).
Proof.
  split.
  - intros a b. unfold ltAt, keyBefore. destruct (prioKey objs a) as [[] x], (prioKey objs b) as [[] y]; cbn; rewrite ?Z.ltb_lt, ?Z.ltb_ge; lia || done.
  - intros a b c. unfold ltAt, keyBefore. destruct (prioKey objs a) as [[] x], (prioKey objs b) as [[] y], (prioKey objs c) as [[] z]; cbn; rewrite ?Z.ltb_ge; lia || done.
  - done.
  - intros pq i j a b [<- Hd] Ha Hb. cbn. unfold txPQByFee. rewrite Ha, Hb. cbn. destruct (Hd a) as [x Hx]; [by eapply list_elem_of_lookup_2|].
    destruct (Hd b) as [y Hy]; [by eapply list_elem_of_lookup_2|]. rewrite Hx, Hy. cbn. unfold ltAt, prioKey. by rewrite Hx, Hy.
  - intros pq i j [<- Hd] Hi Hj. destruct (lookup_lt_is_Some_2 _ _ Hi) as [p Hp], (lookup_lt_is_Some_2 _ _ Hj) as [q Hq]. cbn. unfold pqSwap. rewrite Hp, Hq. cbn.
    eexists. split; [done|]. split; [|unfold swapAt; by rewrite Hp, Hq]. split; [done|]. cbn. intros x Hx. apply Hd.
    assert (Hperm : <[i:=q]> (<[j:=p]> (pq_items pq)) ≡ₚ pq_items pq) by (by apply Permutation_insert_swap). by rewrite Hperm in Hx.
  - intros pq x a [<- Hd] [<- Hx]. cbn. split; [|done]. split; [done|]. intros p [Hp| ->%list_elem_of_singleton]%elem_of_app; [by apply Hd|done].
  - intros pq l a [<- Hd] El. cbn. unfold pqPop. rewrite El, last_snoc. eexists _, _. split; [done|]. split; [done|]. rewrite length_app. cbn. rewrite Nat.add_sub, take_app_length.
    split; [|done]. split; [done|]. cbn. intros p Hp. apply Hd. rewrite El. apply elem_of_app. by left.
Qed.
#[export] Existing Instance queueLaws.

Abbreviation heapAt objs pq := (isHeap (lt := ltAt objs) (arr := pq_items) (inv := queueOf objs) pq).

(** Changing the waiting set of an item keeps the order. *)
Definition sameKeys (objs objs' : gmap nat txPrioItem) : Prop := ∀ p, prioKey objs' p = prioKey objs p ∧ (is_Some (objs !! p) → is_Some (objs' !! p)).
Lemma heapAt_keys objs objs' pq : heapAt objs pq → sameKeys objs objs' → heapAt objs' (mkQueue objs' (pq_items pq)).
Proof.
  intros [[_ Hd] Ho] Hk. split; [split; [done|]; cbn; intros p Hp; by apply Hk, Hd|]. cbn. intros k Hk' a b Ha Hb. unfold ltAt. rewrite !(proj1 (Hk _)). by apply (Ho k).
Qed.
Lemma push_heapAt objs pq p : heapAt objs pq → is_Some (objs !! p) → ∃ pq', heapPush pq p = Some pq' ∧ heapAt objs pq' ∧ pq_items pq' ≡ₚ p :: pq_items pq ∧ pq_objs pq' = objs.
Proof.
  intros Hh Hp. destruct (heapPush_spec (HeapLaws0 := queueLaws objs) pq p p Hh) as (pq' & E & H1 & H2); [by split|]. exists pq'. split_and!; try done. apply H1.
Qed.
Lemma pop_heapAt objs pq : heapAt objs pq → pq_items pq ≠ [] → ∃ p pq', heapPop pq = Some (p, pq') ∧ heapAt objs pq' ∧ p :: pq_items pq' ≡ₚ pq_items pq ∧ pq_objs pq' = objs
  ∧ ∀ q, q ∈ pq_items pq → ltAt objs q p = false.
Proof.
  intros Hh Hne. destruct (heapPop_spec (HeapLaws0 := queueLaws objs) pq Hh Hne) as (x & pq' & a & E & -> & H1 & H2 & _ & H4). exists a, pq'. split_and!; try done. apply H1.
Qed.

(** ** Items that wait *)
Definition txAt (objs : gmap nat txPrioItem) (p : nat) : option MsgTx := pi_tx <$> objs !! p.
Definition waits (objs : gmap nat txPrioItem) (p : nat) : gset bytes :=
  match objs !! p with Some it => default ∅ (pi_dependsOn it) | None => ∅ end.
Abbreviation registered dependers h k := (dependers !! h ≫= (.!! k)).

Lemma txAt_insert objs p it q : pi_tx <$> objs !! p = Some (pi_tx it) → txAt (<[p := it]> objs) q = txAt objs q.
Proof. intros Hp. unfold txAt. destruct (decide (q = p)) as [->|]; [by rewrite lookup_insert_eq, Hp|by rewrite lookup_insert_ne]. Qed.
Lemma waits_insert objs p it q : waits (<[p := it]> objs) q = if decide (q = p) then default ∅ (pi_dependsOn it) else waits objs q.
Proof. unfold waits. case_decide as E; [subst; by rewrite lookup_insert_eq|by rewrite lookup_insert_ne]. Qed.
Lemma insert_sameKeys objs p it it' : objs !! p = Some it → pi_tx it' = pi_tx it → pi_feePerKB it' = pi_feePerKB it → sameKeys objs (<[p := it']> objs).
Proof.
  intros Hp Ht Hf q. unfold prioKey. destruct (decide (q = p)) as [->|]; [|by rewrite lookup_insert_ne]. rewrite lookup_insert_eq, Hp, Ht, Hf. by split.
Qed.
Lemma insert_new_heapAt objs pq p it : heapAt objs pq → objs !! p = None → heapAt (<[p := it]> objs) (mkQueue (<[p := it]> objs) (pq_items pq)).
Proof.
  intros [[Hq Hd] Ho] Hp. assert (Hne : ∀ q, q ∈ pq_items pq → q ≠ p) by (intros q Hin ->; destruct (Hd p Hin); congruence).
  split; [split; [done|]; cbn; intros q Hin; rewrite lookup_insert_ne by (by symmetry; apply Hne); by apply Hd|]. cbn. intros k Hk a b Ha Hb.
  pose proof (Ho k Hk a b Ha Hb) as Hab. unfold ltAt, prioKey in *. by rewrite !lookup_insert_ne by (symmetry; apply Hne; by eapply list_elem_of_lookup_2).
Qed.

(** The queue while items are taken: [P] are those taken so far, [E] those that
    must not be forgotten. *)
Record queueOk (E P : gset nat) (pq : txPriorityQueue) : Prop := {
  qo_heap : heapAt (pq_objs pq) pq;
  qo_nodup : NoDup (pq_items pq);
  qo_fresh p : p ∈ pq_items pq → p ∉ P;
  qo_ready p : p ∈ pq_items pq ∨ p ∈ P → waits (pq_objs pq) p = ∅;
  qo_live p : p ∈ E → p ∈ pq_items pq ∨ p ∈ P ∨ waits (pq_objs pq) p ≠ ∅ }.

(** Items keep their transaction, their fees and their place in the store. *)
Definition itemInfo (objs : gmap nat txPrioItem) (p : nat) : option (MsgTx * Z * Z) := (λ it, (pi_tx it, pi_fee it, pi_feePerKB it)) <$> objs !! p.
Definition sameItems (pq pq' : txPriorityQueue) : Prop := ∀ q, itemInfo (pq_objs pq') q = itemInfo (pq_objs pq) q.
Lemma sameItems_trans pq1 pq2 pq3 : sameItems pq1 pq2 → sameItems pq2 pq3 → sameItems pq1 pq3.
Proof. intros H1 H2 q. by rewrite H2, H1. Qed.
Lemma txAt_info objs p : txAt objs p = (λ x, x.1.1) <$> itemInfo objs p.
Proof. unfold txAt, itemInfo. by destruct (objs !! p). Qed.
Lemma prioKey_info objs p : prioKey objs p = match itemInfo objs p with Some x => (isInferenceTx x.1.1, x.2) | None => (false, 0) end.
Proof. unfold prioKey, itemInfo. by destruct (objs !! p). Qed.
Lemma sameItems_txAt pq pq' q : sameItems pq pq' → txAt (pq_objs pq') q = txAt (pq_objs pq) q.
Proof. intros Hs. by rewrite !txAt_info, Hs. Qed.
Lemma sameItems_ltAt pq pq' p q : sameItems pq pq' → ltAt (pq_objs pq') p q = ltAt (pq_objs pq) p q.
Proof. intros Hs. unfold ltAt. by rewrite !prioKey_info, !Hs. Qed.
Lemma sameItems_dom pq pq' : sameItems pq pq' → dom (pq_objs pq') = dom (pq_objs pq).
Proof.
  intros Hs. apply set_eq. intros q. rewrite !elem_of_dom. specialize (Hs q). unfold itemInfo in Hs. by destruct (pq_objs pq' !! q), (pq_objs pq !! q).
Qed.

Lemma push_queueOk E P pq p : queueOk E P pq → is_Some (pq_objs pq !! p) → p ∉ pq_items pq → p ∉ P → waits (pq_objs pq) p = ∅ →
  ∃ pq', heapPush pq p = Some pq' ∧ pq_objs pq' = pq_objs pq ∧ pq_items pq' ≡ₚ p :: pq_items pq ∧ queueOk E P pq'.
Proof.
  intros [Hh Hn Hf Hr Hl] Hp Hnew HP Hw. destruct (push_heapAt _ _ _ Hh Hp) as (pq' & E1 & H1 & H2 & H3). exists pq'. split_and!; try done. split.
  - by rewrite H3.
  - rewrite H2. by constructor.
  - intros q. rewrite H2. intros [->|Hq]%elem_of_cons; [done|by apply Hf].
  - intros q. rewrite H2, H3. intros [[->|Hq]%elem_of_cons|Hq]; [done|apply Hr; by left|apply Hr; by right].
  - intros q Hq. rewrite H2, H3. destruct (Hl q Hq) as [?|?]; [left; by right|by right].
Qed.

Lemma release_ok E P h pq p : queueOk E P pq → h ∈ waits (pq_objs pq) p →
  ∃ pq', release h pq p = Some pq' ∧ queueOk E P pq' ∧ sameItems pq pq' ∧ pq_items pq ⊆ pq_items pq'
    ∧ ∀ q, waits (pq_objs pq') q = if decide (q = p) then waits (pq_objs pq) p ∖ {[h]} else waits (pq_objs pq) q.
Proof.
  intros Hq Hh. pose proof Hq as [Hhp Hn Hf Hr Hl]. unfold waits in Hh at 1. unfold release. destruct (pq_objs pq !! p) as [it|] eqn:Ep; [|set_solver]. cbn [mbind option_bind].
  set (it' := mkPrioItem _ _ _ _). set (objs' := <[p := it']> (pq_objs pq)).
  assert (Hd : default ∅ (pi_dependsOn it') = default ∅ (pi_dependsOn it) ∖ {[h]}) by (cbn; destruct (pi_dependsOn it); cbn; [done|set_solver]).
  assert (Hw : ∀ q, waits objs' q = if decide (q = p) then waits (pq_objs pq) p ∖ {[h]} else waits (pq_objs pq) q).
  { intros q. unfold objs'. rewrite waits_insert, Hd. unfold waits at 2. by rewrite Ep. }
  assert (Hnot : ∀ q, q ∈ pq_items pq ∨ q ∈ P → q ≠ p) by (intros q Hin ->; pose proof (Hr p Hin) as Hw0; unfold waits in Hw0; rewrite Ep in Hw0; set_solver).
  assert (Hs : sameItems pq (mkQueue objs' (pq_items pq))).
  { intros q. unfold itemInfo. cbn. unfold objs'. destruct (decide (q = p)) as [->|]; [by rewrite lookup_insert_eq, Ep|by rewrite lookup_insert_ne]. }
  assert (Hb : heapAt objs' (mkQueue objs' (pq_items pq))) by (apply (heapAt_keys (pq_objs pq)); [done|by eapply insert_sameKeys]).
  assert (Hready : ∀ q, q ∈ pq_items pq ∨ q ∈ P → waits objs' q = ∅) by (intros q Hin; rewrite Hw, decide_False by (by apply Hnot); by apply Hr).
  destruct (Nat.eqb_spec (size (default ∅ (pi_dependsOn it) ∖ {[h]})) 0) as [Hz|Hz].
  - assert (Hwp : waits objs' p = ∅).
    { rewrite Hw, decide_True by done. unfold waits. rewrite Ep. apply size_empty_inv in Hz. set_solver. }
    destruct (push_queueOk (E ∖ {[p]}) P (mkQueue objs' (pq_items pq)) p) as (pq' & Epush & Eo & Ei & [G1 G2 G3 G4 G5]);
      [split; try done; intros q Hin; cbn; destruct (Hl q) as [?|[?|?]]; [set_solver|by left|right; by left|]; right; right; rewrite Hw, decide_False by set_solver; done
      |cbn; unfold objs'; rewrite lookup_insert_eq; done|intros Hin; by apply (Hnot p); [left|]|intros Hin; by apply (Hnot p); [right|]|done|].
    exists pq'. unfold setObj. fold it'. fold objs'. split; [exact Epush|]. split; [|split_and!; [|intros q; rewrite Ei; by right|intros q; by rewrite Eo]].
    + split; try done. intros q Hin. destruct (decide (q = p)) as [->|]; [left; rewrite Ei; by left|]. apply G5. set_solver.
    + intros q. rewrite Eo. apply Hs.
  - exists (mkQueue objs' (pq_items pq)). split; [done|]. split; [|done]. split; try done. intros q Hin. cbn. rewrite Hw. case_decide as Eq; [|by apply Hl].
    right. right. intros Ew. apply Hz. unfold waits in Ew. rewrite Ep in Ew. rewrite Ew. apply size_empty.
Qed.

(** All the items that waited for [h]: each is released once. *)
Definition releaseAll (h : bytes) (deps : gmap bytes nat) : txPriorityQueue → list bytes → option txPriorityQueue :=
  foldM (λ pq hash, match deps !! hash with Some item => release h pq item | None => Some pq end).
Definition inList (deps : gmap bytes nat) (l : list bytes) (q : nat) : bool := existsb (λ k, bool_decide (deps !! k = Some q)) l.
Lemma inList_true deps l q : inList deps l q = true ↔ ∃ k, k ∈ l ∧ deps !! k = Some q.
Proof. unfold inList. rewrite existsb_exists. setoid_rewrite bool_decide_eq_true. by setoid_rewrite <- list_elem_of_In. Qed.

Lemma releaseAll_ok E P h deps l : NoDup l → (∀ k k' q, deps !! k = Some q → deps !! k' = Some q → k = k') →
  ∀ pq, queueOk E P pq → (∀ k q, k ∈ l → deps !! k = Some q → h ∈ waits (pq_objs pq) q) →
  ∃ pq', releaseAll h deps pq l = Some pq' ∧ queueOk E P pq' ∧ sameItems pq pq' ∧ pq_items pq ⊆ pq_items pq'
    ∧ ∀ q, waits (pq_objs pq') q = if inList deps l q then waits (pq_objs pq) q ∖ {[h]} else waits (pq_objs pq) q.
Proof.
  intros Hn Hinj. induction Hn as [|k l Hk Hn IH]; intros pq Hq Hw; cbn [releaseAll foldM].
  - exists pq. split_and!; try done.
  - destruct (deps !! k) as [p|] eqn:Ep; cbn [mbind option_bind].
    + destruct (release_ok E P h pq p Hq ltac:(by apply (Hw k); [left|])) as (pq1 & -> & Hq1 & Hs1 & Hi1 & Hw1). cbn [mbind option_bind].
      assert (Hnp : ∀ k' q, k' ∈ l → deps !! k' = Some q → q ≠ p) by (intros k' q Hin Hd ->; by rewrite (Hinj k' k p Hd Ep) in Hin).
      destruct (IH pq1 Hq1) as (pq2 & E2 & Hq2 & Hs2 & Hi2 & Hw2).
      { intros k' q Hin Hd. rewrite Hw1, decide_False by (by eapply Hnp). apply (Hw k'); [by right|done]. }
      exists pq2. split_and!; [exact E2|done|by eapply sameItems_trans|set_solver|]. intros q. rewrite Hw2, Hw1. cbn [inList existsb]. fold (inList deps l q). rewrite Ep.
      destruct (decide (q = p)) as [->|Hne]; [|rewrite bool_decide_eq_false_2 by congruence; done]. rewrite bool_decide_eq_true_2 by done. cbn [orb].
      destruct (inList deps l p) eqn:Ei; [|done]. apply inList_true in Ei as (k' & Hin & Hd). by destruct (Hnp k' p Hin Hd).
    + destruct (IH pq Hq) as (pq2 & E2 & Hq2 & Hs2 & Hi2 & Hw2); [intros k' q Hin Hd; apply (Hw k'); [by right|done]|]. exists pq2. split_and!; [exact E2|done|done|done|].
      intros q. rewrite Hw2. cbn [inList existsb]. rewrite Ep, bool_decide_eq_false_2 by done. done.
Qed.

Section template.
Context `{Schnorr} (sha256 sha3 : bytes → bytes) (engine : bytes → MsgTx → nat → Z → UtxoViewpoint → engineResult).
Context (policy : MiningPolicy) (chainParams : Params) (g : ChainView) (height : Z).
Abbreviation TxHash := (TxHash sha256).
(** A [range] over a map visits every key once. *)
Definition fairRange : Prop := ∀ n s, cv_order g n s ≡ₚ elements s.

(** ** The waiting lists *)
Definition hashesInj (objs : gmap nat txPrioItem) : Prop :=
  ∀ p q t u, txAt objs p = Some t → txAt objs q = Some u → TxHash t = TxHash u → p = q.
(** Item [p] waits for [h] exactly when it is registered under [h], but for the
    hashes [C] of the transactions chosen. *)
Record linked (dependers : gmap bytes (gmap bytes nat)) (C : gset bytes) (objs : gmap nat txPrioItem) : Prop := {
  lk_inj : hashesInj objs;
  lk_reg h k p : registered dependers h k = Some p → ∃ t, txAt objs p = Some t ∧ TxHash t = k ∧ (h ∈ waits objs p ∨ h ∈ C);
  lk_waits h p : h ∈ waits objs p → h ∉ C ∧ ∃ t, txAt objs p = Some t ∧ registered dependers h (TxHash t) = Some p }.

(** ** What was chosen *)
(** [txns] can be spent one after the other, from [u] to [v]. *)
Inductive spends : UtxoViewpoint → list MsgTx → UtxoViewpoint → Prop :=
| spends_nil u : spends u [] u
| spends_snoc u l v t : spends u l v → includable sha3 engine chainParams g height v t = true → spends u (l ++ [t]) (spendTransaction sha256 v t height).
Lemma spends_view u l v : spends u l v → v = foldl (λ v t, spendTransaction sha256 v t height) u l.
Proof. induction 1 as [|u l v t _ -> _]; [done|by rewrite foldl_app]. Qed.
Definition vsizes (l : list MsgTx) : Z := foldr (λ t s, u32 (GetTransactionVsize t) + s) 0 l.
Lemma vsizes_app l l' : vsizes (l ++ l') = vsizes l + vsizes l'.
Proof. unfold vsizes. induction l as [|t l IH]; cbn [app foldr]; [done|]. rewrite IH. apply Z.add_assoc. Qed.
Definition feeSum (l : list Z) : Z := foldr Z.add 0 l.

(** ** The order of the items *)
(** The items are seen by what never changes: the waiting lists [dependers], the
    transactions and fees [info], and the items [E] that must not be forgotten. *)
Section items.
Context (u : UtxoViewpoint) (size : Z) (dependers : gmap bytes (gmap bytes nat)) (info : nat → option (MsgTx * Z * Z)) (E : gset nat).
Definition txOf (p : nat) : option MsgTx := (λ x, x.1.1) <$> info p.
Definition keyOf (p : nat) : bool * Z := match info p with Some x => (isInferenceTx x.1.1, x.2) | None => (false, 0) end.
Definition before (p q : nat) : bool := keyBefore (keyOf p) (keyOf q).
(** Item [p] is registered under [h]; it can be taken once all such transactions
    are in [l]. *)
Definition waited (p : nat) (h : bytes) : Prop := ∃ t, txOf p = Some t ∧ registered dependers h (TxHash t) = Some p.
Definition ready (l : list MsgTx) (p : nat) : Prop := ∀ h, waited p h → h ∈ TxHash <$> l.

(** The turn of item [p] comes when [l] is chosen, and [l'] is chosen later: [p]
    is ready, it ranks before nothing in [l] that was chosen while [p] was ready,
    and the ready items that rank before [p] are in a set [Q] of items taken
    earlier, of which nothing is in [l']. *)
Record turnAt (Q : gset nat) (l l' : list MsgTx) (p : nat) : Prop := {
  ta_ready : ready l p;
  ta_earlier i t q : l !! i = Some t → txOf q = Some t → ready (take i l) p → before p q = false;
  ta_first q : q ∈ E → ready l q → before q p = true → q ∈ Q;
  ta_later q t : q ∈ Q → txOf q = Some t → t ∉ l' }.
(** Too large or not valid in its turn, as one of the items [P] taken. *)
Definition refusedAt (P : gset nat) (txns : list MsgTx) (p : nat) : Prop :=
  ∃ Q l l' v t, Q ⊆ P ∧ txns = l ++ l' ∧ txOf p = Some t ∧ spends u l v
    ∧ (BlockMaxVsize policy <= size + vsizes l + u32 (GetTransactionVsize t) ∨ includable sha3 engine chainParams g height v t = false) ∧ turnAt Q l l' p.
Definition settledAt (P : gset nat) (txns : list MsgTx) (p : nat) : Prop := (∃ t, txOf p = Some t ∧ t ∈ txns) ∨ refusedAt P txns p.

Record chosen (P : gset nat) (s : selection) : Prop := {
  ch_info p : itemInfo (pq_objs (sl_queue s)) p = info p;
  ch_queue : queueOk E P (sl_queue s);
  ch_linked : linked dependers (list_to_set (TxHash <$> sl_txns s)) (pq_objs (sl_queue s));
  ch_dom : P ⊆ dom (pq_objs (sl_queue s));
  ch_spends : spends u (sl_txns s) (sl_utxos s);
  ch_word : inU 32 (sl_vsize s);
  ch_vsize : sl_vsize s = size + vsizes (sl_txns s);
  ch_limit : sl_txns s ≠ [] → sl_vsize s < BlockMaxVsize policy;
  ch_fees : length (sl_fees s) = length (sl_txns s);
  ch_total : sl_total s = i64 (feeSum (sl_fees s));
  ch_nodup : NoDup (TxHash <$> sl_txns s);
  ch_taken i t : sl_txns s !! i = Some t → ∃ p x, p ∈ P ∧ info p = Some x ∧ x.1.1 = t ∧ sl_fees s !! i = Some x.1.2 ∧ ready (take i (sl_txns s)) p
    ∧ ∀ q, q ∈ E → ready (take i (sl_txns s)) q → before q p = true → q ∈ P ∧ settledAt P (take i (sl_txns s)) q;
  ch_settled p : p ∈ P → p ∈ E → settledAt P (sl_txns s) p }.

(** What is static and what is in the store agree. *)
Lemma chosen_txOf P s p : chosen P s → txAt (pq_objs (sl_queue s)) p = txOf p.
Proof. intros Hc. unfold txOf. by rewrite txAt_info, (ch_info _ _ Hc). Qed.
Lemma chosen_before P s p q : chosen P s → ltAt (pq_objs (sl_queue s)) p q = before p q.
Proof. intros Hc. unfold ltAt, before, keyOf. by rewrite !prioKey_info, !(ch_info _ _ Hc). Qed.
Lemma chosen_inj P s p q t t' : chosen P s → txOf p = Some t → txOf q = Some t' → TxHash t = TxHash t' → p = q.
Proof. intros Hc Hp Hq. apply (lk_inj _ _ _ (ch_linked _ _ Hc)); by rewrite (chosen_txOf P s). Qed.
(** An item is ready when it waits for nothing any more. *)
Lemma chosen_ready P s p : chosen P s → ready (sl_txns s) p ↔ waits (pq_objs (sl_queue s)) p = ∅.
Proof.
  intros Hc. pose proof (ch_linked _ _ Hc) as [_ Hr Hw]. split.
  - intros Hp. apply set_eq. intros h. split; [|set_solver]. intros Hh. destruct (Hw h p Hh) as (Hn & t & Et & Hreg). destruct Hn.
    apply elem_of_list_to_set, Hp. exists t. by rewrite <- (chosen_txOf P s).
  - intros Hp h (t & Et & Hreg). destruct (Hr h _ p Hreg) as (_ & _ & _ & [Hin|Hin]); [set_solver|]. by apply elem_of_list_to_set in Hin.
Qed.
Lemma chosen_live P s p q : chosen P s → (∀ q, q ∈ pq_items (sl_queue s) → ltAt (pq_objs (sl_queue s)) q p = false) →
  q ∈ E → ready (sl_txns s) q → before q p = true → q ∈ P.
Proof.
  intros Hc Hmax Hq Hr Hb. rewrite (chosen_ready P s q Hc) in Hr. destruct (qo_live _ _ _ (ch_queue _ _ Hc) q Hq) as [Hin|[Hin|?]]; [|done|done].
  specialize (Hmax q Hin). rewrite (chosen_before P s q p Hc) in Hmax. congruence.
Qed.
(** An item still to be taken ranks before nothing chosen while it was ready. *)
Lemma chosen_earlier P s p i t q : chosen P s → p ∈ E → p ∉ P → sl_txns s !! i = Some t → txOf q = Some t → ready (take i (sl_txns s)) p → before p q = false.
Proof.
  intros Hc Hp HnP Hi Hq Hr. destruct (ch_taken _ _ Hc i t Hi) as (q' & x & _ & Ex & Et & _ & _ & Hord).
  assert (q = q') as <- by (apply (chosen_inj P s q q' t t Hc); [done|unfold txOf; by rewrite Ex, <- Et|done]).
  destruct (before p q) eqn:Eb; [|done]. by destruct (Hord p Hp Hr Eb).
Qed.
Lemma refusedAt_mono P P' l p : P ⊆ P' → refusedAt P l p → refusedAt P' l p.
Proof. intros HP (Q & l1 & l2 & v & t & HQ & R). exists Q, l1, l2, v, t. split; [set_solver|done]. Qed.
Lemma settledAt_mono P P' l p : P ⊆ P' → settledAt P l p → settledAt P' l p.
Proof. intros HP [Hin|Hr]; [by left|right; by eapply refusedAt_mono]. Qed.
(** Choosing the transaction of an item that was not taken yet. *)
Lemma settledAt_snoc P l p t : (∀ q, q ∈ P → txOf q ≠ Some t) → settledAt P l p → settledAt P (l ++ [t]) p.
Proof.
  intros Hnew [(t' & Et & Hin)|(Q & l1 & l2 & v & t' & HQ & -> & Et & Hs & Hwhy & [T1 T2 T3 T4])]; [left; exists t'; set_solver|]. right.
  exists Q, l1, (l2 ++ [t]), v, t'. rewrite (assoc_L app). split_and!; try done. split; try done.
  intros q t1 Hq Et1 [Hin|<-%list_elem_of_singleton]%elem_of_app; [by apply (T4 q t1)|]. apply (Hnew q); [set_solver|done].
Qed.
End items.

(** ** One round *)
Lemma pop_queueOk E P pq : queueOk E P pq → pq_items pq ≠ [] → ∃ p pq' it, heapPop pq = Some (p, pq') ∧ pq_objs pq' = pq_objs pq
  ∧ pq_objs pq !! p = Some it ∧ p ∈ pq_items pq ∧ p ∉ P ∧ p ∉ pq_items pq' ∧ queueOk E ({[p]} ∪ P) pq'
  ∧ (∀ q, q ∈ pq_items pq → q = p ∨ q ∈ pq_items pq') ∧ ∀ q, q ∈ pq_items pq → ltAt (pq_objs pq) q p = false.
Proof.
  intros [Hh Hn Hf Hr Hl] Hne. destruct (pop_heapAt _ _ Hh Hne) as (p & pq' & Epop & H1 & H2 & H3 & H4).
  assert (Hp : p ∈ pq_items pq) by (rewrite <- H2; by left). pose proof Hh as [[_ Hd] _]. destruct (Hd p Hp) as [it Hit].
  rewrite <- H2 in Hn. apply NoDup_cons in Hn as [Hp' Hn]. exists p, pq', it. split_and!; try done.
  - by apply Hf.
  - split; rewrite ?H3; try done.
    + intros q Hq [->%elem_of_singleton|HP]%elem_of_union; [done|]. by apply (Hf q); [rewrite <- H2; right|].
    + intros q [Hq|[->%elem_of_singleton|Hq]%elem_of_union]; [apply Hr; left; rewrite <- H2; by right|apply Hr; by left|apply Hr; by right].
    + intros q Hq. destruct (Hl q Hq) as [Hi|[Hi|Hi]]; [|right; left; set_solver|by right; right]. rewrite <- H2 in Hi. apply elem_of_cons in Hi as [->|]; [right; left; set_solver|by left].
  - intros q Hq. rewrite <- H2 in Hq. by apply elem_of_cons in Hq.
Qed.

Lemma size_guard v w m : inU 32 v → inU 32 w → inU 32 m →
  (u32 (v + w) <? v) || (m <=? u32 (v + w)) = false ∧ u32 (v + w) = v + w ∧ inU 32 (v + w) ∧ v + w < m
  ∨ (u32 (v + w) <? v) || (m <=? u32 (v + w)) = true ∧ m <= v + w.
Proof.
  unfold inU. intros Hv Hw Hm. destruct (decide (v + w < 2 ^ 32)) as [Hs|Hs].
  - rewrite (wrapU_small 32 (v + w)) by (unfold inU; lia). destruct (Z.ltb_spec (v + w) v); [lia|]. destruct (Z.leb_spec m (v + w)); [right|left]; split_and!; try done; lia.
  - right. assert (Eq : u32 (v + w) = v + w - 2 ^ 32).
    { unfold wrapU. symmetry. apply (Z.mod_unique _ _ 1); lia. }
    rewrite Eq. split; [|lia]. apply orb_true_iff. left. apply Z.ltb_lt. lia.
Qed.

(** Releasing what waits for the chosen transaction [t] of item [p]. *)
Lemma release_linked E P dependers C pq p t l : queueOk E P pq → linked dependers C (pq_objs pq) → p ∈ P → txAt (pq_objs pq) p = Some t → TxHash t ∉ C →
  l ≡ₚ elements (dom (default ∅ (dependers !! TxHash t))) →
  ∃ pq', releaseAll (TxHash t) (default ∅ (dependers !! TxHash t)) pq l = Some pq' ∧ queueOk E P pq' ∧ sameItems pq pq'
    ∧ pq_items pq ⊆ pq_items pq' ∧ linked dependers ({[TxHash t]} ∪ C) (pq_objs pq') ∧ ∀ q, waits (pq_objs pq') q ⊆ waits (pq_objs pq) q.
Proof.
  intros Hq [Hi Hr Hw] Hp Ht HC Hl. set (deps := default ∅ (dependers !! TxHash t)).
  assert (Hd : ∀ k q, deps !! k = Some q ↔ registered dependers (TxHash t) k = Some q) by (intros k q; unfold deps; by destruct (dependers !! TxHash t)).
  destruct (releaseAll_ok E P (TxHash t) deps l) with (pq := pq) as (pq' & -> & Hq' & Hs & Hi' & Hw').
  - rewrite Hl. apply NoDup_elements.
  - intros k k' q Hk%Hd Hk'%Hd. destruct (Hr _ _ _ Hk) as (t1 & E1 & <- & _), (Hr _ _ _ Hk') as (t2 & E2 & <- & _). congruence.
  - done.
  - intros k q _ Hk%Hd. destruct (Hr _ _ _ Hk) as (t1 & _ & _ & [Hin|Hin]); done.
  - assert (Hsub : ∀ q, waits (pq_objs pq') q ⊆ waits (pq_objs pq) q) by (intros q; rewrite Hw'; destruct (inList deps l q); set_solver).
    exists pq'. split_and!; try done. split.
    + intros q q' t1 t2. rewrite !(sameItems_txAt pq pq') by done. apply Hi.
    + intros h k q Hk. destruct (Hr _ _ _ Hk) as (t1 & E1 & E2 & Hin). exists t1. rewrite (sameItems_txAt pq pq') by done. split_and!; try done.
      destruct Hin as [Hin|Hin]; [|set_solver]. rewrite Hw'. destruct (decide (h = TxHash t)) as [->|]; [set_solver|]. left. destruct (inList deps l q); set_solver.
    + intros h q Hin. destruct (Hw h q (Hsub q h Hin)) as (HnC & t1 & E1 & E2). rewrite (sameItems_txAt pq pq') by done. split; [|by exists t1].
      intros [->%elem_of_singleton|?]%elem_of_union; [|done]. rewrite Hw' in Hin. assert (inList deps l q = true) as Hl'; [|rewrite Hl' in Hin; set_solver].
      apply inList_true. exists (TxHash t1). split; [|by apply Hd]. rewrite Hl. apply elem_of_elements, elem_of_dom. exists q. by apply Hd.
Qed.

Hypothesis Hpolicy : inU 32 (BlockMaxVsize policy).
Abbreviation includable := (includable sha3 engine chainParams g height).
Abbreviation selectOne := (selectOne sha256 sha3 engine policy chainParams g height).

(** The state with another queue. *)
Definition withQueue (pq : txPriorityQueue) (s : selection) : selection :=
  mkSelection pq (sl_utxos s) (sl_txns s) (sl_fees s) (sl_vsize s) (sl_total s) (sl_tick s).

Lemma chosen_skip u size dependers info E P s p pq t : chosen u size dependers info E P s → queueOk E ({[p]} ∪ P) pq → pq_objs pq = pq_objs (sl_queue s) →
  p ∈ pq_items (sl_queue s) → p ∉ P → (∀ q, q ∈ pq_items (sl_queue s) → ltAt (pq_objs (sl_queue s)) q p = false) → txAt (pq_objs pq) p = Some t →
  BlockMaxVsize policy <= sl_vsize s + u32 (GetTransactionVsize t) ∨ includable (sl_utxos s) t = false →
  chosen u size dependers info E ({[p]} ∪ P) (withQueue pq s).
Proof.
  intros Hc Hq Eo Hin HnP Hmax Ht Hwhy. assert (HP : P ⊆ {[p]} ∪ P) by set_solver. rewrite Eo, (chosen_txOf _ _ _ _ _ _ _ _ Hc) in Ht.
  pose proof Hc as [H1 H2 H3 H4 H5 H6 H7 H8 H9 H10 H11 H12 H13]. split; cbn; rewrite ?Eo; try done.
  - destruct (qo_heap _ _ _ H2) as [[_ Hd] _]. pose proof (Hd p Hin) as Hp%elem_of_dom. set_solver.
  - intros i t' Hit. destruct (H12 i t' Hit) as (p' & x & Hp' & Ex & Et & Ef & Hr & Hord). exists p', x. split_and!; try done; [set_solver|].
    intros q Hq1 Hq2 Hq3. destruct (Hord q Hq1 Hq2 Hq3) as [Hq4 Hq5]. split; [set_solver|by eapply settledAt_mono].
  - intros q [->%elem_of_singleton|HqP]%elem_of_union HqE; [|eapply settledAt_mono; [done|by apply H13]].
    right. exists P, (sl_txns s), [], (sl_utxos s), t. rewrite (right_id_L [] app), <- H7. split_and!; try done. split.
    + apply (chosen_ready _ _ _ _ _ _ _ _ Hc), (qo_ready E P _ H2). by left.
    + intros i t1 q. by apply (chosen_earlier u size dependers info E P s p).
    + intros q. by apply (chosen_live u size dependers info E P s).
    + intros q t1 _ _. apply not_elem_of_nil.
Qed.

Lemma feeSum_snoc l x : feeSum (l ++ [x]) = feeSum l + x.
Proof. unfold feeSum. induction l as [|y l IH]; cbn [app foldr]; [lia|]. rewrite IH. lia. Qed.
Lemma wrapS_add_l w a b : 0 < w → wrapS w (wrapS w a + b) = wrapS w (a + b).
Proof.
  intros Hw. unfold wrapS. f_equal. set (m := 2 ^ w). set (k := 2 ^ (w - 1)). replace ((a + k) mod m - k + b + k) with ((a + k) mod m + b) by lia.
  rewrite Z.add_mod_idemp_l by (unfold m; apply Z.pow_nonzero; lia). f_equal. lia.
Qed.

Lemma chosen_add u size dependers info E P s p pq it tick : let t := pi_tx it in
  chosen u size dependers info E P s → queueOk E ({[p]} ∪ P) pq → sameItems (sl_queue s) pq → p ∈ pq_items (sl_queue s) → p ∉ P →
  linked dependers ({[TxHash t]} ∪ list_to_set (TxHash <$> sl_txns s)) (pq_objs pq) →
  (∀ q, q ∈ pq_items (sl_queue s) → ltAt (pq_objs (sl_queue s)) q p = false) →
  pq_objs (sl_queue s) !! p = Some it → includable (sl_utxos s) t = true →
  inU 32 (sl_vsize s + u32 (GetTransactionVsize t)) → sl_vsize s + u32 (GetTransactionVsize t) < BlockMaxVsize policy →
  chosen u size dependers info E ({[p]} ∪ P) (mkSelection pq (spendTransaction sha256 (sl_utxos s) t height) (sl_txns s ++ [t]) (sl_fees s ++ [pi_fee it])
    (sl_vsize s + u32 (GetTransactionVsize t)) (i64 (sl_total s + pi_fee it)) tick).
Proof.
  intros t Hc Hq Hs Hin HnP Hl Hmax Hit Hinc Hv1 Hv2. assert (HP : P ⊆ {[p]} ∪ P) by set_solver.
  pose proof Hc as [H1 H2 H3 H4 H5 H6 H7 H8 H9 H10 H11 H12 H13].
  assert (Hip : info p = Some (t, pi_fee it, pi_feePerKB it)) by (rewrite <- H1; unfold itemInfo; by rewrite Hit).
  assert (Ht : txOf info p = Some t) by (unfold txOf; by rewrite Hip).
  assert (Hne : ∀ q, q ∈ P → txOf info q ≠ Some t) by (intros q Hq' Et; apply HnP; by rewrite (chosen_inj _ _ _ _ _ P s p q t t Hc)).
  assert (Hsnoc : ∀ l q, settledAt u size dependers info E P l q → settledAt u size dependers info E ({[p]} ∪ P) (l ++ [t]) q)
    by (intros l q Hq'; eapply settledAt_mono; [done|by apply settledAt_snoc]).
  assert (Hnew : TxHash t ∉ TxHash <$> sl_txns s).
  { intros (t' & E1 & Hin')%list_elem_of_fmap. apply list_elem_of_lookup in Hin' as [i Hi']. destruct (H12 i t' Hi') as (p' & x & Hp' & Ex & Et & _).
    apply HnP. rewrite (chosen_inj _ _ _ _ _ P s p p' t t' Hc); [done|done|unfold txOf; by rewrite Ex, <- Et|done]. }
  split; cbn; try done.
  - intros q. by rewrite Hs.
  - assert (list_to_set (TxHash <$> sl_txns s ++ [t]) = ({[TxHash t]} : gset bytes) ∪ list_to_set (TxHash <$> sl_txns s)) as ->; [|done].
    rewrite fmap_app, list_to_set_app_L. cbn. set_solver.
  - rewrite (sameItems_dom _ _ Hs). apply elem_of_dom_2 in Hit. set_solver.
  - by apply spends_snoc.
  - rewrite vsizes_app, H7. cbn [vsizes foldr]. lia.
  - rewrite !length_app, H9. done.
  - rewrite feeSum_snoc, H10. apply wrapS_add_l. lia.
  - rewrite fmap_app. apply NoDup_app. split_and!; [done| |apply NoDup_singleton]. intros h Hh ->%list_elem_of_singleton. done.
  - intros i t' Hit'. apply lookup_snoc_Some in Hit' as [[Hlt Hit']|[-> <-]].
    + destruct (H12 i t' Hit') as (p' & x & Hp' & Ex & Et & Ef & Hr & Hord). exists p', x. rewrite take_app_le by lia. split_and!; try done; [set_solver|by apply lookup_app_l_Some|].
      intros q Hq1 Hq2 Hq3. destruct (Hord q Hq1 Hq2 Hq3) as [Hq4 Hq5]. split; [set_solver|by eapply settledAt_mono].
    + exists p, (t, pi_fee it, pi_feePerKB it). rewrite take_app_length. split_and!; [set_solver|done|done|rewrite lookup_app_r by lia; by rewrite H9, Nat.sub_diag| |].
      * apply (chosen_ready _ _ _ _ _ _ _ _ Hc), (qo_ready E P _ H2). by left.
      * intros q Hq1 Hq2 Hq3. assert (q ∈ P) as HqP by (by apply (chosen_live u size dependers info E P s p)). split; [set_solver|]. eapply settledAt_mono; [done|by apply H13].
  - intros q [->%elem_of_singleton|HqP]%elem_of_union HqE; [left; exists t; set_solver|by apply Hsnoc, H13].
Qed.

Lemma selectOne_ok u size dependers info E P s : fairRange → chosen u size dependers info E P s → pq_items (sl_queue s) ≠ [] →
  ∃ p s', selectOne dependers s = Some s' ∧ p ∈ dom (pq_objs (sl_queue s)) ∧ p ∉ P ∧ sameItems (sl_queue s) (sl_queue s')
    ∧ (∀ q, waits (pq_objs (sl_queue s')) q ⊆ waits (pq_objs (sl_queue s)) q) ∧ chosen u size dependers info E ({[p]} ∪ P) s'.
Proof.
  intros Hord Hc Hne. pose proof Hc as [H1 H2 H3 H4 H5 H6 H7 H8 H9 H10 H11 H12 H13].
  destruct (pop_queueOk E P (sl_queue s) H2 Hne) as (p & pq & it & Epop & Eo & Hit & Hin & HnP & Hnp & Hq & Hi & Hmax).
  assert (Hdom : p ∈ dom (pq_objs (sl_queue s))) by (by apply elem_of_dom_2 in Hit).
  assert (Ht : txAt (pq_objs pq) p = Some (pi_tx it)) by (unfold txAt; by rewrite Eo, Hit).
  unfold Mining.selectOne. rewrite Epop. cbn [mbind option_bind]. rewrite Eo, Hit. cbn [mbind option_bind sl_vsize sl_utxos sl_txns sl_fees sl_total sl_tick].
  set (t := pi_tx it) in *. fold (withQueue pq s).
  assert (Hskip : BlockMaxVsize policy <= sl_vsize s + u32 (GetTransactionVsize t) ∨ includable (sl_utxos s) t = false →
    ∃ p s', Some (withQueue pq s) = Some s' ∧ p ∈ dom (pq_objs (sl_queue s)) ∧ p ∉ P ∧ sameItems (sl_queue s) (sl_queue s')
      ∧ (∀ q, waits (pq_objs (sl_queue s')) q ⊆ waits (pq_objs (sl_queue s)) q) ∧ chosen u size dependers info E ({[p]} ∪ P) s').
  { intros Hwhy. exists p, (withQueue pq s). split_and!; try done; cbn; rewrite ?Eo; try done; [intros q; by rewrite Eo|by eapply chosen_skip]. }
  destruct (size_guard (sl_vsize s) (u32 (GetTransactionVsize t)) (BlockMaxVsize policy)) as [(-> & Es & Hv1 & Hv2)|[-> Hbig]];
    [done|apply wrapU_in; lia|done| |apply Hskip; by left].
  destruct (includable (sl_utxos s) t) eqn:Hinc; cbn [negb]; [|apply Hskip; by right]. clear Hskip.
  assert (Hnew : TxHash t ∉ (list_to_set (TxHash <$> sl_txns s) : gset bytes)).
  { intros (t' & E1 & Hin')%elem_of_list_to_set%list_elem_of_fmap. apply list_elem_of_lookup in Hin' as [i Hi']. destruct (H12 i t' Hi') as (p' & x & Hp' & Ex & Et & _).
    apply HnP. rewrite (chosen_inj _ _ _ _ _ P s p p' t t' Hc); [done|by rewrite <- (chosen_txOf _ _ _ _ _ P s p Hc), <- Eo|unfold txOf; by rewrite Ex, <- Et|done]. }
  destruct (release_linked E ({[p]} ∪ P) dependers (list_to_set (TxHash <$> sl_txns s)) pq p t (cv_order g (sl_tick s) (dom (default ∅ (dependers !! TxHash t)))))
    as (pq' & Erel & Hq' & Hs & Hi' & Hl & Hsub); [done|rewrite Eo; exact H3|set_solver|done|done|apply Hord|].
  unfold releaseAll in Erel. rewrite Erel. cbn [mbind option_bind]. rewrite Es.
  assert (Hs' : sameItems (sl_queue s) pq') by (intros q; by rewrite Hs, Eo).
  eexists p, _. split; [done|]. cbn [sl_queue]. split_and!; try done; [intros q; rewrite <- Eo; apply Hsub|].
  by eapply chosen_add.
Qed.

Lemma selectLoop_ok u size dependers info E : fairRange → ∀ fuel P s, chosen u size dependers info E P s → (base.size (dom (pq_objs (sl_queue s)) ∖ P) <= fuel)%nat →
  ∃ P' s', selectLoop sha256 sha3 engine policy chainParams g fuel height dependers s = Some s' ∧ pq_items (sl_queue s') = [] ∧ sameItems (sl_queue s) (sl_queue s')
    ∧ (∀ q, waits (pq_objs (sl_queue s')) q ⊆ waits (pq_objs (sl_queue s)) q) ∧ chosen u size dependers info E P' s'.
Proof.
  intros Hord. induction fuel as [|fuel IH]; intros P s Hc Hf; cbn [selectLoop].
  all: destruct (pq_items (sl_queue s)) as [|p0 l0] eqn:El; cbn [length Nat.eqb]; [exists P, s; by split_and!|].
  all: destruct (selectOne_ok u size dependers info E P s Hord Hc ltac:(by rewrite El)) as (p & s1 & E1 & Hp & HnP & Hs1 & Hw1 & Hc1).
  - assert (Hz : base.size (dom (pq_objs (sl_queue s)) ∖ P) = 0%nat) by lia. apply size_empty_inv in Hz. set_solver.
  - rewrite E1. cbn [mbind option_bind]. destruct (IH _ s1 Hc1) as (P' & s' & -> & H1 & H2 & H3 & H4).
    { rewrite (sameItems_dom _ _ Hs1). assert (base.size (dom (pq_objs (sl_queue s)) ∖ ({[p]} ∪ P)) < base.size (dom (pq_objs (sl_queue s)) ∖ P))%nat; [|lia].
      apply subset_size. set_solver. }
    exists P', s'. split_and!; try done; [by eapply sameItems_trans|]. intros q. by rewrite H3.
Qed.

(** ** Considering the pool *)
(** [setupDeps] registers item [p] under the set [N] of pool transactions it waits
    for; it succeeds when every input is available. *)
Definition missing (utxos : UtxoViewpoint) (txIn : TxIn) : bool :=
  match LookupEntry utxos (ti_PreviousOutPoint txIn) with Some entry => IsSpent entry | None => true end.
Definition available (utxos : UtxoViewpoint) (txIn : TxIn) : bool :=
  negb (missing utxos txIn) || cv_HaveTransaction g (op_Hash (ti_PreviousOutPoint txIn)).
(** An output that is not in the view is spent, of the pool transaction [h]. *)
Definition spendsFrom (utxos : UtxoViewpoint) (ins : list TxIn) (h : bytes) : Prop :=
  cv_HaveTransaction g h = true ∧ ∃ txIn, txIn ∈ ins ∧ missing utxos txIn = true ∧ op_Hash (ti_PreviousOutPoint txIn) = h.
Lemma spendsFrom_cons utxos txIn ins h : spendsFrom utxos (txIn :: ins) h ↔
  cv_HaveTransaction g h = true ∧ missing utxos txIn = true ∧ op_Hash (ti_PreviousOutPoint txIn) = h ∨ spendsFrom utxos ins h.
Proof. unfold spendsFrom. setoid_rewrite elem_of_cons. naive_solver. Qed.
Lemma setupDeps_ok utxos p txHash ins : ∀ deps it, pi_dependsOn it ≠ Some ∅ → ∃ N deps' it',
  setupDeps g utxos p txHash ins deps it = (forallb (available utxos) ins, deps', it')
  ∧ pi_tx it' = pi_tx it ∧ pi_fee it' = pi_fee it ∧ pi_feePerKB it' = pi_feePerKB it ∧ pi_dependsOn it' ≠ Some ∅
  ∧ default ∅ (pi_dependsOn it') = N ∪ default ∅ (pi_dependsOn it)
  ∧ (∀ h, h ∈ N → spendsFrom utxos ins h) ∧ (forallb (available utxos) ins = true → ∀ h, spendsFrom utxos ins h → h ∈ N)
  ∧ ∀ h k, registered deps' h k = if decide (h ∈ N ∧ k = txHash) then Some p else registered deps h k.
Proof.
  induction ins as [|txIn ins IH]; intros deps it Hd; cbn [setupDeps forallb].
  { exists ∅, deps, it. split_and!; try done; try (intros h k; by rewrite decide_False by set_solver); [by rewrite (left_id_L ∅ (∪))|].
    intros _ h (_ & ti & Hti & _). by apply elem_of_nil in Hti. }
  setoid_rewrite spendsFrom_cons. set (o := op_Hash (ti_PreviousOutPoint txIn)). unfold available at 1 3. fold o. fold (missing utxos txIn).
  destruct (missing utxos txIn); cbn [negb orb].
  - destruct (cv_HaveTransaction g o) eqn:Eh; cbn [negb andb].
    + destruct (IH (<[o := <[txHash := p]> (default ∅ (deps !! o))]> deps) (dependOn o it)) as (N & deps' & it' & -> & H1 & H2 & H3 & H4 & H5 & H6 & H7 & H8); [cbn; intros [=]; set_solver|].
      exists ({[o]} ∪ N), deps', it'. split_and!; try done; [rewrite H5; cbn; set_solver| | |].
      { intros h [->%elem_of_singleton|Hn]%elem_of_union; [by left|right; by apply H6]. }
      { intros Hall h [(_ & _ & <-)|Hh]; [set_solver|]. apply elem_of_union. right. by apply H7. }
      intros h k. rewrite H8.
      destruct (decide (h ∈ N ∧ k = txHash)) as [[Hn ->]|Hn]; [by rewrite decide_True by set_solver|].
      destruct (decide (h = o)) as [->|Hne]; [|rewrite lookup_insert_ne by done; by rewrite decide_False by set_solver].
      rewrite lookup_insert_eq. cbn [mbind option_bind]. destruct (decide (k = txHash)) as [->|Hk]; [rewrite lookup_insert_eq; by rewrite decide_True by set_solver|].
      rewrite lookup_insert_ne by done. rewrite decide_False by set_solver. by destruct (deps !! o).
    + exists ∅, deps, it. split_and!; try done; try (intros h k; by rewrite decide_False by set_solver). by rewrite (left_id_L ∅ (∪)).
  - destruct (IH deps it Hd) as (N & deps' & it' & -> & H1 & H2 & H3 & H4 & H5 & H6 & H7 & H8). exists N, deps', it'. split_and!; try done.
    + intros h Hn. right. by apply H6.
    + intros Hall h [(_ & [=] & _)|Hh]. by apply H7.
Qed.

(** A transaction waits for the pool transactions whose outputs it spends, of those
    outputs that the chain does not have. *)
Definition waitsFor (tx : MsgTx) (h : bytes) : Prop := ∃ utxos, cv_FetchUtxoView g tx = Ok utxos ∧ spendsFrom utxos (tx_TxIn tx) h.

(** A transaction of the pool that the generator can choose or wait for. *)
Definition eligible (x : nat * TxDesc) : bool :=
  let tx := td_Tx x.2 in
  negb (IsCoinBaseTx tx) && IsFinalizedTransaction tx height (unixOf (cv_AdjustedTime g x.1))
  && match cv_FetchUtxoView g tx with Ok utxos => forallb (available utxos) (tx_TxIn tx) | Err _ => false end.
(** The coins the selection starts from: the views of the eligible transactions,
    one after the other. *)
Definition mergeCandidate (u : UtxoViewpoint) (x : nat * TxDesc) : UtxoViewpoint :=
  if eligible x then match cv_FetchUtxoView g (td_Tx x.2) with Ok utxos => mergeUtxoView u utxos | Err _ => u end else u.
Definition poolView (l : list (nat * TxDesc)) : UtxoViewpoint := foldl mergeCandidate (mkView ∅ zeroHash) l.
Lemma poolView_snoc l x : poolView (l ++ [x]) = mergeCandidate (poolView l) x.
Proof. unfold poolView. by rewrite foldl_app. Qed.
Definition infoOf (d : TxDesc) : MsgTx * Z * Z := (td_Tx d, td_Fee d, td_FeePerKB d).

(** It has every coin that is unspent in the view of an eligible transaction, and
    nothing that is in none of them. *)
Lemma lookup_mergeUtxoView a b op : entries (mergeUtxoView a b) !! op =
  match entries a !! op, entries b !! op with
  | Some (Some e), Some e' => if IsSpent e then Some e' else Some (Some e)
  | Some None, Some e' | None, Some e' => Some e'
  | x, None => x
  end.
Proof.
  unfold mergeUtxoView. cbn [entries]. apply (map_fold_weak_ind (λ r m, r !! op = match entries a !! op, m !! op with
    | Some (Some e), Some e' => if IsSpent e then Some e' else Some (Some e) | Some None, Some e' | None, Some e' => Some e' | x, None => x end)).
  - rewrite lookup_empty. by destruct (entries a !! op) as [[]|].
  - intros i x m r Hi IH. destruct (decide (op = i)) as [->|Hne].
    + rewrite lookup_insert_eq. rewrite Hi in IH. destruct (entries a !! i) as [[e|]|] eqn:Ea; rewrite ?lookup_insert_eq; try done. destruct (IsSpent e); [by rewrite lookup_insert_eq|done].
    + rewrite lookup_insert_ne by done. rewrite <- IH. destruct (entries a !! i) as [[e|]|]; rewrite ?lookup_insert_ne by done; try done. destruct (IsSpent e); [by rewrite lookup_insert_ne|done].
Qed.
Lemma mergeUtxoView_entry a b op e : LookupEntry (mergeUtxoView a b) op = Some e → LookupEntry a op = Some e ∨ LookupEntry b op = Some e.
Proof.
  unfold LookupEntry. rewrite lookup_mergeUtxoView. destruct (entries a !! op) as [[ea|]|], (entries b !! op) as [[eb|]|]; cbn; try destruct (IsSpent ea); auto; done.
Qed.
Lemma mergeUtxoView_unspent a b op e : LookupEntry a op = Some e ∨ LookupEntry b op = Some e → IsSpent e = false →
  ∃ e', LookupEntry (mergeUtxoView a b) op = Some e' ∧ IsSpent e' = false.
Proof.
  unfold LookupEntry. rewrite lookup_mergeUtxoView. intros Hor He. destruct (entries a !! op) as [[ea|]|], (entries b !! op) as [[eb|]|]; cbn in *; try destruct (IsSpent ea) eqn:Ea; destruct Hor as [[= <-]|[= <-]]; eauto; congruence.
Qed.
Lemma poolView_entry l op e : LookupEntry (poolView l) op = Some e →
  ∃ x utxos, x ∈ l ∧ eligible x = true ∧ cv_FetchUtxoView g (td_Tx x.2) = Ok utxos ∧ LookupEntry utxos op = Some e.
Proof.
  induction l as [|x l IH] using rev_ind; [done|]. rewrite poolView_snoc. unfold mergeCandidate.
  assert (Hold : LookupEntry (poolView l) op = Some e → ∃ x0 utxos, x0 ∈ l ++ [x] ∧ eligible x0 = true ∧ cv_FetchUtxoView g (td_Tx x0.2) = Ok utxos ∧ LookupEntry utxos op = Some e).
  { intros Hl. destruct (IH Hl) as (y & utxos & Hy & R). exists y, utxos. split; [set_solver|done]. }
  destruct (eligible x) eqn:Ee; [|done]. destruct (cv_FetchUtxoView g (td_Tx x.2)) as [utxos|] eqn:Ef; [|done].
  intros [Hl|Hl]%mergeUtxoView_entry; [by apply Hold|]. exists x, utxos. split_and!; try done. set_solver.
Qed.
Lemma poolView_unspent l x utxos op e : x ∈ l → eligible x = true → cv_FetchUtxoView g (td_Tx x.2) = Ok utxos → LookupEntry utxos op = Some e → IsSpent e = false →
  ∃ e', LookupEntry (poolView l) op = Some e' ∧ IsSpent e' = false.
Proof.
  intros Hx Ee Ef Hl He. induction l as [|y l IH] using rev_ind; [by apply elem_of_nil in Hx|]. rewrite poolView_snoc. unfold mergeCandidate.
  apply elem_of_app in Hx as [Hx| ->%list_elem_of_singleton]; [|rewrite Ee, Ef; eapply mergeUtxoView_unspent; [by right|done]].
  destruct (IH Hx) as (e' & Hl' & He'). destruct (eligible y); [|by exists e']. destruct (cv_FetchUtxoView g (td_Tx y.2)); [|by exists e']. eapply mergeUtxoView_unspent; [by left|done].
Qed.

Record consideredOk (visited : list (nat * TxDesc)) (E : gset nat) (c : considered) : Prop := {
  co_queue : queueOk E ∅ (cs_queue c);
  co_linked : linked (cs_dependers c) ∅ (pq_objs (cs_queue c));
  co_view : cs_utxos c = poolView visited;
  co_dom p : p ∈ dom (pq_objs (cs_queue c)) ↔ (p < cs_next c)%nat;
  co_sub : E ⊆ dom (pq_objs (cs_queue c));
  co_from p t : txAt (pq_objs (cs_queue c)) p = Some t → ∃ x, x ∈ visited ∧ td_Tx x.2 = t;
  co_waits p h : h ∈ waits (pq_objs (cs_queue c)) p → ∃ t, txAt (pq_objs (cs_queue c)) p = Some t ∧ waitsFor t h;
  co_exact p t h : p ∈ E → txAt (pq_objs (cs_queue c)) p = Some t → waitsFor t h → h ∈ waits (pq_objs (cs_queue c)) p;
  co_eligible x : x ∈ visited → eligible x = true → ∃ p, p ∈ E ∧ itemInfo (pq_objs (cs_queue c)) p = Some (infoOf x.2) }.

(** A new item [p], registered under the set it waits for. *)
Lemma linked_new dependers deps objs p it : linked dependers ∅ objs → p ∉ dom objs → (∀ q t, txAt objs q = Some t → TxHash t ≠ TxHash (pi_tx it)) →
  (∀ h k, registered deps h k = if decide (h ∈ default ∅ (pi_dependsOn it) ∧ k = TxHash (pi_tx it)) then Some p else registered dependers h k) →
  linked deps ∅ (<[p := it]> objs).
Proof.
  intros [Hi Hr Hw] Hp Hnew Hreg. assert (Hn : txAt objs p = None) by (unfold txAt; by rewrite (proj1 (not_elem_of_dom _ _) Hp)).
  assert (Ht : ∀ q, txAt (<[p := it]> objs) q = if decide (q = p) then Some (pi_tx it) else txAt objs q).
  { intros q. unfold txAt. case_decide as Eq; [subst; by rewrite lookup_insert_eq|by rewrite lookup_insert_ne]. }
  split.
  - intros q q' t u. rewrite !Ht. repeat case_decide; subst; try done; [intros [= <-] Hu Eh; by destruct (Hnew _ _ Hu)|intros Hu [= <-] Eh; by destruct (Hnew _ _ Hu)|apply Hi].
  - intros h k q. rewrite Hreg. case_decide as Eh.
    + intros [= <-]. exists (pi_tx it). rewrite Ht, waits_insert, !decide_True by done. split_and!; [done|by destruct Eh|left; by destruct Eh].
    + intros Hk. destruct (Hr h k q Hk) as (t & E1 & E2 & Hin). exists t. rewrite Ht, waits_insert. rewrite !decide_False by (intros ->; congruence). done.
  - intros h q. rewrite waits_insert, Ht. case_decide as Eq; intros Hin; (split; [set_solver|]).
    + subst. exists (pi_tx it). split; [done|]. rewrite Hreg, decide_True by done. done.
    + destruct (Hw h q Hin) as (_ & t & E1 & E2). exists t. split; [done|]. rewrite Hreg, decide_False; [done|]. intros [_ Ek]. by apply (Hnew q t).
Qed.
Lemma queueOk_new E pq p it : queueOk E ∅ pq → p ∉ dom (pq_objs pq) → E ⊆ dom (pq_objs pq) → queueOk E ∅ (setObj p it pq).
Proof.
  intros [Hh Hn Hf Hr Hl] Hp HE. pose proof (proj1 (not_elem_of_dom _ _) Hp) as Hnone. split; cbn; try done.
  - by apply insert_new_heapAt.
  - intros q Hq. rewrite waits_insert. rewrite decide_False; [by apply Hr|]. intros ->. destruct Hq as [Hq|]; [|set_solver]. destruct Hh as [[_ Hd] _]. destruct (Hd p Hq). congruence.
  - intros q Hq. rewrite waits_insert. rewrite decide_False by (intros ->; set_solver). by apply Hl.
Qed.
Lemma consider_store visited E E' c x it deps pq utxos : let p := cs_next c in consideredOk visited E c → pi_tx it = td_Tx x.2 →
  TxHash (td_Tx x.2) ∉ (TxHash ∘ td_Tx ∘ snd <$> visited) → (∀ h, h ∈ default ∅ (pi_dependsOn it) → waitsFor (pi_tx it) h) →
  (p ∈ E' → ∀ h, waitsFor (pi_tx it) h → h ∈ default ∅ (pi_dependsOn it)) →
  (∀ h k, registered deps h k = if decide (h ∈ default ∅ (pi_dependsOn it) ∧ k = TxHash (pi_tx it)) then Some p else registered (cs_dependers c) h k) →
  queueOk E' ∅ pq → pq_objs pq = <[p := it]> (pq_objs (cs_queue c)) → E ⊆ E' → E' ⊆ {[p]} ∪ E → utxos = poolView (visited ++ [x]) →
  (eligible x = true → p ∈ E' ∧ (pi_fee it, pi_feePerKB it) = (td_Fee x.2, td_FeePerKB x.2)) →
  consideredOk (visited ++ [x]) E' (mkConsidered pq (S p) deps utxos).
Proof.
  intros p [H1 H2 _ H3 H4 H5 H6 H8 H7] Et Hnew Hsp Hex Hreg Hq Eo HE1 HE2 Hview Hel. set (objs := pq_objs (cs_queue c)) in *.
  assert (Hp : p ∉ dom objs) by (rewrite H3; unfold p; lia). assert (Hnone : objs !! p = None) by (by apply not_elem_of_dom).
  split; cbn; rewrite ?Eo; try done.
  - eapply linked_new; try done. intros q t Hq' Eh. apply Hnew. destruct (H5 q t Hq') as (y & Hy & <-). apply list_elem_of_fmap. exists y. split; [|done]. cbn. by rewrite Eh, Et.
  - intros q. rewrite dom_insert, elem_of_union, elem_of_singleton, H3. unfold p. lia.
  - rewrite dom_insert_L. set_solver.
  - intros q t. unfold txAt. destruct (decide (q = p)) as [->|]; [rewrite lookup_insert_eq; intros [= <-]; exists x; split; [set_solver|done]|].
    rewrite lookup_insert_ne by done. intros Hq'. destruct (H5 q t Hq') as (y & Hy & Ey). exists y. split; [set_solver|done].
  - intros q h. rewrite waits_insert. unfold txAt. case_decide as Eq; [subst q; rewrite lookup_insert_eq; intros Hin; exists (pi_tx it); split; [done|by apply Hsp]|].
    rewrite lookup_insert_ne by done. apply H6.
  - intros q t h Hq'. rewrite waits_insert. unfold txAt. case_decide as Eq; [subst q; rewrite lookup_insert_eq; intros [= <-]; by apply Hex|].
    rewrite lookup_insert_ne by done. apply H8. set_solver.
  - intros y [Hy| ->%list_elem_of_singleton]%elem_of_app He.
    + destruct (H7 y Hy He) as (q & Hq' & Ei). exists q. split; [set_solver|]. unfold itemInfo. rewrite lookup_insert_ne; [done|]. intros <-. set_solver.
    + destruct (Hel He) as [Hin [= Ef Ek]]. exists p. split; [done|]. unfold itemInfo, infoOf. rewrite lookup_insert_eq. cbn. by rewrite Et, Ef, Ek.
Qed.

Lemma considerTx_ok visited E c x : consideredOk visited E c → TxHash (td_Tx x.2) ∉ (TxHash ∘ td_Tx ∘ snd <$> visited) →
  ∃ E' c', considerTx sha256 g height c x = Some c' ∧ consideredOk (visited ++ [x]) E' c'.
Proof.
  intros Hc Hnew. destruct x as [k d]. unfold considerTx.
  assert (Hskip : eligible (k, d) = false → consideredOk (visited ++ [(k, d)]) E c).
  { intros He. destruct Hc as [H1 H2 Hv H3 H4 H5 H6 H8 H7]. split; try done.
    - rewrite poolView_snoc, <- Hv. unfold mergeCandidate. by rewrite He.
    - intros p t Ht. destruct (H5 p t Ht) as (y & Hy & Ey). exists y. split; [set_solver|done].
    - intros y [Hy| ->%list_elem_of_singleton]%elem_of_app Hy'; [by apply H7|congruence]. }
  unfold eligible in Hskip. cbn [fst snd] in Hskip.
  destruct (IsCoinBaseTx (td_Tx d)) eqn:Ecb; [exists E, c; split; [done|by apply Hskip]|]. cbn [negb andb] in Hskip.
  destruct (IsFinalizedTransaction (td_Tx d) height (unixOf (cv_AdjustedTime g k))) eqn:Efin; cbn [negb andb] in *; [|exists E, c; split; [done|by apply Hskip]].
  destruct (cv_FetchUtxoView g (td_Tx d)) as [utxos|] eqn:Ef; [|exists E, c; split; [done|by apply Hskip]]. clear Hskip.
  destruct (setupDeps_ok utxos (cs_next c) (TxHash (td_Tx d)) (tx_TxIn (td_Tx d)) (cs_dependers c) (mkPrioItem (td_Tx d) 0 0 None))
    as (N & deps & it & -> & Et & _ & _ & Hne & EN & Hsp & Hall & Hreg); [done|]. cbn in Et, EN. rewrite (right_id_L ∅ (∪)) in EN. subst N.
  assert (Hwt : ∀ h, waitsFor (td_Tx d) h ↔ spendsFrom utxos (tx_TxIn (td_Tx d)) h) by (intros h; unfold waitsFor; rewrite Ef; naive_solver).
  assert (Hp : cs_next c ∉ dom (pq_objs (cs_queue c))) by (rewrite (co_dom _ _ _ Hc); lia).
  assert (Hbase : ∀ it0, queueOk E ∅ (setObj (cs_next c) it0 (cs_queue c))) by (intros it0; apply queueOk_new; [apply Hc|done|apply Hc]).
  destruct (forallb (available utxos) (tx_TxIn (td_Tx d))) eqn:Eav; cbn [negb].
  2:{ eexists E, _. split; [done|]. eapply (consider_store visited E E c (k, d) it); try done; try (by rewrite Et); [intros h Hh; rewrite Et; by apply Hwt, Hsp| |set_solver| |].
      { intros Hin. by apply (co_sub _ _ _ Hc) in Hin. }
      { rewrite poolView_snoc, <- (co_view _ _ _ Hc). unfold mergeCandidate, eligible. cbn [fst snd]. by rewrite Ecb, Efin, Ef, Eav. }
      unfold eligible. cbn [fst snd]. by rewrite Ecb, Efin, Ef, Eav. }
  cbn [pi_dependsOn]. set (it' := mkPrioItem _ _ _ _). set (p := cs_next c) in *.
  assert (∃ pq, match pi_dependsOn it with None => heapPush (setObj p it' (cs_queue c)) p | Some _ => Some (setObj p it' (cs_queue c)) end = Some pq
    ∧ pq_objs pq = <[p := it']> (pq_objs (cs_queue c)) ∧ queueOk ({[p]} ∪ E) ∅ pq) as (pq & -> & Eo & Hq).
  { assert (Hwp : waits (<[p := it']> (pq_objs (cs_queue c))) p = default ∅ (pi_dependsOn it)) by (by rewrite waits_insert, decide_True).
    destruct (pi_dependsOn it) as [D|] eqn:ED.
    - eexists. split; [done|]. split; [done|]. destruct (Hbase it') as [G1 G2 G3 G4 G5]. split; try done. intros q [->%elem_of_singleton|Hq]%elem_of_union; [|by apply G5].
      right. right. cbn. rewrite Hwp. cbn. congruence.
    - destruct (push_queueOk E ∅ (setObj p it' (cs_queue c)) p (Hbase it')) as (pq & E1 & E2 & E3 & [G1 G2 G3 G4 G5]); [cbn; by rewrite lookup_insert_eq| |set_solver|done|].
      + cbn. intros Hin. destruct (co_queue _ _ _ Hc) as [[[_ Hd] _] _ _ _ _]. apply Hp, elem_of_dom. by apply Hd.
      + exists pq. split; [done|]. split; [done|]. split; try done. intros q [->%elem_of_singleton|Hq]%elem_of_union; [left; rewrite E3; by left|by apply G5]. }
  cbn [mbind option_bind]. eexists ({[p]} ∪ E), _. split; [done|]. eapply (consider_store visited E ({[p]} ∪ E) c (k, d) it'); try done;
    [intros h Hh; by apply Hwt, Hsp|intros _ h Hh; apply Hall; [done|by apply Hwt]|set_solver| |].
  { rewrite poolView_snoc, <- (co_view _ _ _ Hc). unfold mergeCandidate, eligible. cbn [fst snd]. by rewrite Ecb, Efin, Ef, Eav. }
  intros _. split; [set_solver|done].
Qed.

(** The pool holds each transaction once. *)
Hypothesis Hdistinct : NoDup (TxHash ∘ td_Tx <$> cv_MiningDescs g).

Lemma snd_imap (l : list TxDesc) : snd <$> imap pair l = l.
Proof. apply list_eq. intros i. rewrite list_lookup_fmap, list_lookup_imap. by destruct (l !! i). Qed.
Lemma considerAll_ok : ∃ E c, considerAll sha256 g height = Some c ∧ consideredOk (imap pair (cv_MiningDescs g)) E c.
Proof.
  unfold considerAll. set (c0 := mkConsidered newTxPriorityQueue 0 ∅ (mkView ∅ zeroHash)).
  assert (H0 : consideredOk [] ∅ c0).
  { split; cbn; try done; try set_solver.
    - split; cbn; try set_solver; [split; [split; [done|cbn; set_solver]|intros k Hk; cbn in Hk; lia]|constructor].
    - intros p. rewrite dom_empty. split; [set_solver|lia]. }
  assert (Hstep : ∀ l visited E c, consideredOk visited E c → NoDup (TxHash ∘ td_Tx ∘ snd <$> visited ++ l) →
    ∃ E' c', foldM (considerTx sha256 g height) c l = Some c' ∧ consideredOk (visited ++ l) E' c').
  { induction l as [|x l IH]; intros visited E c Hc Hn; cbn [foldM].
    - exists E, c. by rewrite (right_id_L [] app).
    - destruct (considerTx_ok visited E c x Hc) as (E1 & c1 & -> & Hc1).
      { rewrite fmap_app in Hn. apply NoDup_app in Hn as (_ & Hd & _). intros Hin. apply (Hd _ Hin). cbn. by left. }
      cbn [mbind option_bind]. destruct (IH (visited ++ [x]) E1 c1 Hc1) as (E' & c' & -> & Hc'); [by rewrite <- (assoc_L app)|]. exists E', c'. by rewrite <- (assoc_L app) in Hc'. }
  apply (Hstep _ [] ∅ c0 H0). cbn [app]. replace (TxHash ∘ td_Tx ∘ snd <$> imap pair (cv_MiningDescs g)) with (TxHash ∘ td_Tx <$> (snd <$> imap pair (cv_MiningDescs g)))
    by (by rewrite <- list_fmap_compose). by rewrite snd_imap.
Qed.

(** ** The selection *)
(** The pool transactions that compete for the block, and their order. *)
Definition candidate (x : nat * TxDesc) : Prop := x ∈ imap pair (cv_MiningDescs g) ∧ eligible x = true.
Definition ahead (x y : nat * TxDesc) : bool := keyBefore (isInferenceTx (td_Tx x.2), td_FeePerKB x.2) (isInferenceTx (td_Tx y.2), td_FeePerKB y.2).
(** All that [tx] waits for is in [l]. *)
Definition readyAfter (l : list MsgTx) (tx : MsgTx) : Prop := ∀ h, waitsFor tx h → h ∈ TxHash <$> l.

(** The turn of [x] in a block [l ++ l'] comes after [l]: all it waits for is in
    [l]; of the candidates in [l], it ranks before none that was chosen when [x]
    was already ready; and no candidate in [l'] that was ready too ranks before
    [x]. *)
Record turn (l l' : list MsgTx) (x : nat * TxDesc) : Prop := {
  tn_ready : readyAfter l (td_Tx x.2);
  tn_earlier i y : candidate y → l !! i = Some (td_Tx y.2) → readyAfter (take i l) (td_Tx x.2) → ahead x y = false;
  tn_later y : candidate y → td_Tx y.2 ∈ l' → readyAfter l (td_Tx y.2) → ahead y x = false }.
(** When the turn of [x] came, it was too large or not valid in the view that the
    transactions chosen so far leave. *)
Definition refused (u : UtxoViewpoint) (size : Z) (txns : list MsgTx) (x : nat * TxDesc) : Prop :=
  ∃ l l' v, txns = l ++ l' ∧ turn l l' x ∧ spends u l v
    ∧ (BlockMaxVsize policy <= size + vsizes l + u32 (GetTransactionVsize (td_Tx x.2)) ∨ includable v (td_Tx x.2) = false).
Definition settled (u : UtxoViewpoint) (size : Z) (txns : list MsgTx) (x : nat * TxDesc) : Prop := td_Tx x.2 ∈ txns ∨ refused u size txns x.

(** [txns] and [fees] from the pool, in the view [u] and from the size [size]. *)
Record selected (u : UtxoViewpoint) (size : Z) (txns : list MsgTx) (fees : list Z) : Prop := {
  se_pool t : t ∈ txns → t ∈ td_Tx <$> cv_MiningDescs g;
  se_once : NoDup (TxHash <$> txns);
  se_valid : ∃ v, spends u txns v;
  se_size : txns ≠ [] → size + vsizes txns < BlockMaxVsize policy;
  se_fees : length fees = length txns;
  se_paid i x : candidate x → txns !! i = Some (td_Tx x.2) → fees !! i = Some (td_Fee x.2);
  se_ready i x : candidate x → txns !! i = Some (td_Tx x.2) → readyAfter (take i txns) (td_Tx x.2);
  se_order i x y : candidate x → candidate y → txns !! i = Some (td_Tx x.2) → readyAfter (take i txns) (td_Tx y.2) → ahead y x = true →
    settled u size (take i txns) y;
  se_complete x : candidate x → settled u size txns x ∨ ∃ h, waitsFor (td_Tx x.2) h ∧ h ∉ TxHash <$> txns }.

(** Item [p] of the store stands for the candidate [x]. *)
Record stands (dependers : gmap bytes (gmap bytes nat)) (info : nat → option (MsgTx * Z * Z)) (E : gset nat) (p : nat) (x : nat * TxDesc) : Prop := {
  st_in : p ∈ E;
  st_info : info p = Some (infoOf x.2);
  st_waited h : waited dependers info p h ↔ waitsFor (td_Tx x.2) h }.
Lemma stands_tx dependers info E p x : stands dependers info E p x → txOf info p = Some (td_Tx x.2).
Proof. intros [_ Ei _]. unfold txOf. by rewrite Ei. Qed.
Lemma stands_ready dependers info E p x l : stands dependers info E p x → ready dependers info l p ↔ readyAfter l (td_Tx x.2).
Proof. intros [_ _ Hw]. unfold ready, readyAfter. by setoid_rewrite Hw. Qed.
Lemma stands_before dependers info E p q x y : stands dependers info E p x → stands dependers info E q y → before info p q = ahead x y.
Proof. intros [_ Ep _] [_ Eq _]. unfold before, keyOf, ahead. by rewrite Ep, Eq. Qed.
Lemma stands_settled u size dependers info E P txns p x : (∀ y, candidate y → ∃ q, stands dependers info E q y) → stands dependers info E p x →
  settledAt u size dependers info E P txns p → settled u size txns x.
Proof.
  intros Hall Hx [(t & Et & Hin)|(Q & l & l' & v & t & _ & -> & Et & Hs & Hwhy & [T1 T2 T3 T4])]; rewrite (stands_tx _ _ _ _ _ Hx) in Et; injection Et as <-; [by left|right].
  exists l, l', v. split; [done|]. split; [|done]. split.
  - by apply (stands_ready _ _ _ _ _ _ Hx).
  - intros i y Hy Hi Hr. destruct (Hall y Hy) as [q Hq]. rewrite <- (stands_before _ _ _ _ _ _ _ Hx Hq). apply (T2 i (td_Tx y.2)); [done|by eapply stands_tx|].
    by apply (stands_ready _ _ _ _ _ _ Hx).
  - intros y Hy Hin Hr. destruct (Hall y Hy) as [q Hq]. destruct (ahead y x) eqn:Ea; [|done]. rewrite <- (stands_before _ _ _ _ _ _ _ Hq Hx) in Ea.
    apply (stands_ready _ _ _ _ _ _ Hq) in Hr. destruct (T4 q (td_Tx y.2)); [|by eapply stands_tx|done]. apply T3; [apply Hq|done|done].
Qed.

Lemma consider_stands E c x : consideredOk (imap pair (cv_MiningDescs g)) E c → candidate x →
  ∃ p, stands (cs_dependers c) (itemInfo (pq_objs (cs_queue c))) E p x.
Proof.
  intros Hc [Hx He]. destruct (co_eligible _ _ _ Hc x Hx He) as (p & Hp & Ei). exists p. split; [done|done|]. intros h.
  assert (Ht : txAt (pq_objs (cs_queue c)) p = Some (td_Tx x.2)) by (by rewrite txAt_info, Ei). unfold waited, txOf. rewrite <- txAt_info, Ht. split.
  - intros (t & [= <-] & Hr). destruct (lk_reg _ _ _ (co_linked _ _ _ Hc) _ _ _ Hr) as (_ & _ & _ & [Hin|Hin]); [|set_solver].
    destruct (co_waits _ _ _ Hc p h Hin) as (t' & Et & Hw). rewrite Ht in Et. by injection Et as <-.
  - intros Hw. exists (td_Tx x.2). split; [done|]. destruct (lk_waits _ _ _ (co_linked _ _ _ Hc) h p) as (_ & t & Et & Hr); [by eapply co_exact|].
    rewrite Ht in Et. by injection Et as <-.
Qed.

(** A finished selection has the properties promised. *)
Lemma chosen_selected u size dependers info E P s : chosen u size dependers info E P s → pq_items (sl_queue s) = [] →
  (∀ x, candidate x → ∃ p, stands dependers info E p x) → (∀ p t, txOf info p = Some t → t ∈ td_Tx <$> cv_MiningDescs g) →
  selected u size (sl_txns s) (sl_fees s).
Proof.
  intros Hc Hempty Hall Hpool. pose proof Hc as [H1 H2 H3 H4 H5 H6 H7 H8 H9 H10 H11 H12 H13].
  assert (Hat : ∀ i x p, stands dependers info E p x → sl_txns s !! i = Some (td_Tx x.2) → sl_fees s !! i = Some (td_Fee x.2)
    ∧ ready dependers info (take i (sl_txns s)) p
    ∧ ∀ q, q ∈ E → ready dependers info (take i (sl_txns s)) q → before info q p = true → settledAt u size dependers info E P (take i (sl_txns s)) q).
  { intros i x p Hx Hi. destruct (H12 i _ Hi) as (p' & z & _ & Ez & Et & Ef & Hr & Hord).
    assert (p' = p) as -> by (apply (chosen_inj _ _ _ _ _ P s p' p (td_Tx x.2) (td_Tx x.2) Hc); [unfold txOf; by rewrite Ez, <- Et|by eapply stands_tx|done]).
    rewrite (st_info _ _ _ _ _ Hx) in Ez. injection Ez as <-. split_and!; try done. intros q Hq1 Hq2 Hq3. by apply Hord. }
  split; try done.
  - intros t [i Hi]%list_elem_of_lookup. destruct (H12 i t Hi) as (p & x & _ & Ex & <- & _). apply (Hpool p). unfold txOf. by rewrite Ex.
  - by exists (sl_utxos s).
  - intros Hne. rewrite <- H7. by apply H8.
  - intros i x Hx Hi. destruct (Hall x Hx) as [p Hp]. by destruct (Hat i x p Hp Hi).
  - intros i x Hx Hi. destruct (Hall x Hx) as [p Hp]. apply (stands_ready _ _ _ _ _ _ Hp). by apply (Hat i x p Hp Hi).
  - intros i x y Hx Hy Hi Hr Ha. destruct (Hall x Hx) as [p Hp], (Hall y Hy) as [q Hq]. apply (stands_settled _ _ _ _ _ P _ q y Hall Hq).
    destruct (Hat i x p Hp Hi) as (_ & _ & Hord). apply Hord; [apply Hq|by apply (stands_ready _ _ _ _ _ _ Hq)|by rewrite (stands_before _ _ _ _ _ _ _ Hq Hp)].
  - intros x Hx. destruct (Hall x Hx) as [p Hp]. destruct (qo_live _ _ _ H2 p (st_in _ _ _ _ _ Hp)) as [Hin|[Hin|Hw]]; [rewrite Hempty in Hin; by apply elem_of_nil in Hin| |].
    + left. apply (stands_settled _ _ _ _ _ P _ p x Hall Hp), H13; [done|apply Hp].
    + right. apply set_choose_L in Hw as [h Hh]. destruct (lk_waits _ _ _ H3 h p Hh) as (Hn & t & Et & Hr). exists h. split; [|intros Hin; apply Hn; by apply elem_of_list_to_set].
      apply (st_waited _ _ _ _ _ Hp). exists t. by rewrite <- (chosen_txOf _ _ _ _ _ P s p Hc).
Qed.

Lemma selection_ok size : fairRange → inU 32 size →
  ∃ c s, considerAll sha256 g height = Some c
    ∧ selectLoop sha256 sha3 engine policy chainParams g (cs_next c) height (cs_dependers c) (mkSelection (cs_queue c) (cs_utxos c) [] [] size 0 0) = Some s
    ∧ selected (poolView (imap pair (cv_MiningDescs g))) size (sl_txns s) (sl_fees s) ∧ sl_total s = i64 (feeSum (sl_fees s)).
Proof.
  intros Hord Hsize. destruct considerAll_ok as (E & c & Ec & Hc). exists c. rewrite <- (co_view _ _ _ Hc). set (s0 := mkSelection _ _ _ _ _ _ _).
  assert (H0 : chosen (cs_utxos c) size (cs_dependers c) (itemInfo (pq_objs (cs_queue c))) E ∅ s0).
  { destruct Hc. split; cbn [s0 sl_queue sl_txns sl_utxos sl_vsize sl_fees sl_total fmap list_fmap list_to_set]; try done; [constructor|unfold vsizes; cbn; lia|constructor]. }
  destruct (selectLoop_ok (cs_utxos c) size (cs_dependers c) (itemInfo (pq_objs (cs_queue c))) E Hord (cs_next c) ∅ s0 H0) as (P & s & Es & Hempty & _ & _ & Hch).
  { cbn. rewrite difference_empty_L. assert (Hd : dom (pq_objs (cs_queue c)) ⊆ list_to_set (seq 0 (cs_next c))).
    { intros p Hp. apply (co_dom _ _ _ Hc) in Hp. apply elem_of_list_to_set, elem_of_seq. lia. }
    apply subseteq_size in Hd. rewrite size_list_to_set in Hd by apply NoDup_seq. by rewrite length_seq in Hd. }
  exists s. split; [done|]. split; [done|]. split; [|apply Hch]. eapply chosen_selected; [exact Hch|done|intros x Hx; by apply consider_stands|].
  intros p t Ht. unfold txOf in Ht. rewrite <- txAt_info in Ht. destruct (co_from _ _ _ Hc p t Ht) as (y & Hy & <-).
  apply list_elem_of_fmap. exists y.2. split; [done|]. rewrite <- (snd_imap (cv_MiningDescs g)). by apply list_elem_of_fmap_2.
Qed.
End template.
