(* ===== verification/MiningBlock.v ===== *)
(** * Block templates: the block (src/node/mining/mining.go)

    The coinbase script carries the height, the witness commitment validates, the
    size that was accounted for is that of the finished block, and the template
    has the properties of the selection.  Changing the extra nonce keeps them. *)
From Stdlib Require Import ZArith Lia Strings.Byte.
From stdpp Require Import base gmap list.
From S2P Require Import Prelude RuleErrors WireTx WireBlock Merkle Script ScriptBuilder Utxo Covenant Chaincfg TxRules ScriptVal BlockRules Chain GoHeap Mempool MempoolOrphans Mining MiningSelect.
Open Scope Z_scope.
Open Scope list_scope.

(** ** The coinbase script *)
Lemma scriptNumBytes_total n : - 2 ^ 63 < n < 2 ^ 63 → ∃ v, scriptNumBytes n = Some v ∧ (length v <= 9)%nat.
Proof.
  intros Hn. destruct (decide (n = 0)) as [->|Hz]; [exists []; split; [done|cbn; lia]|].
  destruct (magBytes_spec 8 (Z.abs n)) as (w & c & _ & Hc & Hd & Hw); [cbn; lia|].
  rewrite (scriptNumBytes_pos w c n) by (done || lia). eexists. split; [done|]. repeat case_match; rewrite length_app; cbn; lia.
Qed.
Lemma AddData_short b v : sb_err b = false → zlen (sb_script b) <= 100 → (length v <= 20)%nat →
  ∃ l, AddData b v = mkSB (sb_script b ++ l) false ∧ (1 <= length l <= S (length v))%nat.
Proof.
  intros He Hl Hv. unfold AddData. rewrite He. assert (Hz : zlen v <= 20) by (unfold zlen; lia).
  assert (Hc : canonicalDataSize v <= 21) by (unfold canonicalDataSize, OP_PUSHDATA1; repeat case_match; try lia; rewrite ?Z.ltb_ge in *; lia).
  destruct (Z.ltb_spec MaxScriptSize (zlen (sb_script b) + canonicalDataSize v)); [unfold MaxScriptSize in *; lia|].
  destruct (Z.ltb_spec MaxScriptElementSize (zlen v)); [unfold MaxScriptElementSize in *; lia|].
  unfold addData, append. rewrite He. destruct v as [|d [|e l]].
  - eexists. split; [done|]. cbn. lia.
  - repeat case_match; (eexists; split; [done|]; cbn; lia).
  - destruct (Z.ltb_spec (zlen (d :: e :: l)) OP_PUSHDATA1); [|unfold OP_PUSHDATA1 in *; lia]. eexists. split; [done|]. cbn. lia.
Qed.
Lemma AddInt64_short b n : sb_err b = false → zlen (sb_script b) <= 100 → - 2 ^ 63 < n < 2 ^ 63 →
  ∃ l, AddInt64 b n = Some (mkSB (sb_script b ++ l) false) ∧ (1 <= length l <= 10)%nat.
Proof.
  intros He Hl Hn. unfold AddInt64. rewrite He. destruct (Z.ltb_spec MaxScriptSize (zlen (sb_script b) + 1)); [unfold MaxScriptSize in *; lia|].
  unfold append. rewrite He. destruct (n =? 0); [eexists; split; [done|cbn; lia]|].
  destruct ((n =? -1) || ((1 <=? n) && (n <=? 16))); [eexists; split; [done|cbn; lia]|].
  destruct (scriptNumBytes_total n Hn) as (v & -> & Hv). cbn [fmap option_fmap option_map].
  destruct (AddData_short b v He Hl) as (l & -> & Hl'); [lia|]. exists l. split; [done|lia].
Qed.

(** The script starts with the height and has a valid length; the one extra nonce
    for which the builder panics is 2^63. *)
Lemma standardCoinbaseScript_ok h extra : 0 <= h < 2 ^ 31 → i64 extra ≠ - 2 ^ 63 →
  ∃ l, standardCoinbaseScript h extra = Some (Ok (heightScript h ++ l)) ∧ MinCoinbaseScriptLen <= zlen (heightScript h ++ l) <= MaxCoinbaseScriptLen.
Proof.
  intros Hh Hx. unfold standardCoinbaseScript. assert (Hlen : (1 <= length (heightScript h) <= 5)%nat).
  { unfold heightScript. destruct (Z.eqb_spec h 0); [cbn; lia|]. destruct (h <=? 16); [cbn; lia|]. destruct (scriptNum_height h) as (v & -> & _ & Hv); [lia|]. cbn. lia. }
  rewrite AddInt64_height by done. cbn [mbind option_bind].
  pose proof (wrapS_in 64 extra ltac:(lia)) as Hi. unfold inS in Hi.
  destruct (AddInt64_short (mkSB (heightScript h) false) (i64 extra)) as (l1 & -> & Hl1); [done|cbn; unfold zlen; lia|cbn in Hi; lia|]. cbn [mbind option_bind sb_script].
  destruct (AddData_short (mkSB (heightScript h ++ l1) false) CoinbaseFlags) as (l2 & -> & Hl2); [done|cbn; unfold zlen; rewrite length_app; lia|cbn; lia|].
  cbn [sb_err sb_script]. exists (l1 ++ l2). rewrite (assoc_L app). split; [done|]. cbn in Hl2. unfold MinCoinbaseScriptLen, MaxCoinbaseScriptLen, zlen. rewrite !length_app. lia.
Qed.

(** ** The witness commitment *)
Section block.
Context (sha256 : bytes → bytes) (Hsha : ∀ b, length (sha256 b) = 32%nat).

(** The witness root does not depend on the coinbase. *)
Lemma witness_root_coinbase cb cb' txns : Z.of_nat (length txns) < 2 ^ 61 →
  ∃ r, CalcMerkleRoot sha256 (cb :: txns) true = Some r ∧ CalcMerkleRoot sha256 (cb' :: txns) true = Some r.
Proof.
  intros Hl. destruct (CalcMerkleRoot_isRoot sha256 (cb :: txns) true) as (r & E & Hr); [done|cbn [length]; lia|].
  destruct (CalcMerkleRoot_isRoot sha256 (cb' :: txns) true) as (r' & E' & Hr'); [done|cbn [length]; lia|]. exists r. split; [done|]. rewrite E'. f_equal.
  apply isRoot_merkleRoot in Hr, Hr'. cbn [imap] in Hr, Hr'. change (leafOf sha256 true 0 cb') with (leafOf sha256 true 0 cb) in Hr'. congruence.
Qed.

Lemma AddWitnessCommitment_ok cb txns : IsCoinBaseTx cb = true → Z.of_nat (length txns) < 2 ^ 61 →
  ∃ wc, length wc = 32%nat ∧ let cb' := addTxOut (mkTxOut 0 (WitnessMagicBytes ++ wc)) (setWitness [replicate CoinbaseWitnessDataLen x00] cb) in
    AddWitnessCommitment sha256 cb txns = Some (wc, cb') ∧ ValidateWitnessCommitment sha256 (cb' :: txns) = Ok tt ∧ ExtractWitnessCommitment cb' = Some wc.
Proof.
  intros Hcb Hl. unfold AddWitnessCommitment. set (nonce := replicate CoinbaseWitnessDataLen x00). set (cb1 := setWitness [nonce] cb).
  destruct (witness_root_coinbase cb1 (addTxOut (mkTxOut 0 (WitnessMagicBytes ++ DoubleHashH sha256 (default [] (CalcMerkleRoot sha256 (cb1 :: txns) true) ++ nonce))) cb1) txns Hl) as (r & Er & Er').
  rewrite Er in *. cbn [default mbind option_bind] in *. change (id r) with r in *. set (wc := DoubleHashH sha256 (r ++ nonce)) in *. assert (Hwc : length wc = 32%nat) by apply Hsha.
  exists wc. split; [done|]. cbv zeta. fold cb1. split; [done|].
  assert (Hx : ExtractWitnessCommitment (addTxOut (mkTxOut 0 (WitnessMagicBytes ++ wc)) cb1) = Some wc).
  { unfold ExtractWitnessCommitment. assert (IsCoinBaseTx (addTxOut (mkTxOut 0 (WitnessMagicBytes ++ wc)) cb1) = true) as ->.
    { unfold IsCoinBaseTx in *. cbn. unfold cb1, setWitness. cbn. destruct (tx_TxIn cb) as [|ti [|]]; done. }
    cbn [negb addTxOut tx_TxOut]. rewrite reverse_snoc. cbn [findCommitment to_PkScript]. rewrite length_app, Hwc. cbn [length WitnessMagicBytes Nat.add CoinbaseWitnessPkScriptLength Nat.leb andb].
    rewrite bool_decide_eq_true_2 by done. f_equal. unfold slice. cbn [drop app WitnessMagicBytes CoinbaseWitnessPkScriptLength Nat.sub]. rewrite drop_0, take_ge; [done|]. rewrite Hwc. done. }
  split; [|done]. unfold ValidateWitnessCommitment. rewrite Hx, Er'. unfold IsCoinBaseTx in Hcb. cbn [tx_TxIn addTxOut]. unfold cb1, setWitness. cbn [tx_TxIn].
  destruct (tx_TxIn cb) as [|ti [|]]; [done| |done]. cbn [ti_Witness]. rewrite bool_decide_eq_true_2 by done. done.
Qed.

(** The size that was reserved for the coinbase is the size it has in the end. *)
Lemma commitmentOverhead_exact v ti o lt f wc : length wc = 32%nat → let cb := mkMsgTx v [ti] [o] lt in
  GetTransactionVsize (addTxOut (mkTxOut 0 (WitnessMagicBytes ++ wc)) (setWitness [replicate CoinbaseWitnessDataLen x00] (setFirstValue f cb)))
  = GetTransactionVsize cb + commitmentOverhead cb.
Proof.
  intros Hwc cb. unfold commitmentOverhead. set (w := GetTransactionVsize cb). rewrite Z.add_comm, Z.sub_add. clear w.
  assert (Hlen : zlen (WitnessMagicBytes ++ wc) = zlen (replicate CoinbaseWitnessPkScriptLength x61)) by (unfold zlen; rewrite length_app, Hwc; done).
  unfold GetTransactionVsize, SerializeSizeStripped, SerializeSize, baseSize, HasWitness, setFirstValue, setWitness, addTxOut, cb. cbn [tx_TxIn tx_TxOut foldl existsb ti_Witness app length].
  unfold TxOut_SerializeSize, TxIn_SerializeSize, TxWitness_SerializeSize. cbn [to_PkScript ti_SignatureScript ti_Witness foldl]. by rewrite Hlen.
Qed.
Lemma u32_add a b : u32 (u32 a + u32 b) = u32 (a + b).
Proof. unfold wrapU. by rewrite <- Z.add_mod by lia. Qed.

(** ** The template *)
Context `{Schnorr} (sha3 : bytes → bytes) (engine : bytes → MsgTx → nat → Z → UtxoViewpoint → engineResult).
Context (policy : MiningPolicy) (chainParams : Params) (g : ChainView).

Record templateOk (b : BlockTemplate) : Prop := {
  to_height : bt_Height b = bst_Height (cv_best g) + 1;
  to_block : ∃ cb txns fees,
    mb_Transactions (bt_Block b) = cb :: txns
    ∧ selected sha256 sha3 engine policy chainParams g (bt_Height b) (poolView g (bt_Height b) (imap pair (cv_MiningDescs g))) (u32 (blockHeaderOverhead + GetTransactionVsize cb)) txns fees
    ∧ bt_Fees b = i64 (- i64 (feeSum fees)) :: fees
    ∧ (∃ o, tx_TxOut cb !! 0%nat = Some o ∧ to_Value o = i64 (subsidyAt (bt_Height b) + i64 (feeSum fees)))
    ∧ IsCoinBaseTx cb = true ∧ CheckSerializedHeight cb (bt_Height b) = Ok tt
    ∧ ExtractWitnessCommitment cb = Some (bt_WitnessCommitment b);
  to_commitment : ValidateWitnessCommitment sha256 (mb_Transactions (bt_Block b)) = Ok tt;
  to_root : CalcMerkleRoot sha256 (mb_Transactions (bt_Block b)) false = Some (bh_MerkleRoot (mb_BlockHeader (bt_Block b)));
  to_prev : bh_PrevBlock (mb_BlockHeader (bt_Block b)) = bst_Hash (cv_best g);
  to_time : timeUnix (bst_BlockTime (cv_best g) + 1) <= bh_Timestamp (mb_BlockHeader (bt_Block b));
  to_connects : cv_CheckConnectBlockTemplate g (bt_Block b) (bt_Height b) = Ok tt }.

Lemma selected_length h u size txns fees : selected sha256 sha3 engine policy chainParams g h u size txns fees → (length txns <= length (cv_MiningDescs g))%nat.
Proof.
  intros [Hp Hn _ _ _ _ _ _ _]. apply NoDup_fmap_1 in Hn. rewrite <- (length_fmap td_Tx (cv_MiningDescs g)). by apply submseteq_length, NoDup_submseteq.
Qed.
Lemma adjustedBlockTime_min now : timeUnix (bst_BlockTime (cv_best g) + 1) <= adjustedBlockTime (cv_best g) now.
Proof.
  unfold adjustedBlockTime, MinBlockTimestamp, timeUnix, MinTimestampDeltaSeconds, Second, second. destruct (Z.ltb_spec now (bst_BlockTime (cv_best g) * 1000000000 + 1 * 1000000000)); lia.
Qed.
Lemma height_prefix tx ti l h : tx_TxIn tx = [ti] → ti_SignatureScript ti = heightScript h ++ l → 0 <= h < 2 ^ 31 → CheckSerializedHeight tx h = Ok tt.
Proof.
  intros Et Es Hh. destruct (coinbase_height_iff tx ti h) as (enc & Ee & Hiff); [by rewrite Et|done|]. apply Hiff. rewrite AddInt64_height in Ee by done. cbn in Ee. injection Ee as <-.
  rewrite Es. by exists l.
Qed.

(** C18. Block templates are sound and complete: [NewBlockTemplate] returns, and a
    template it returns is a block on the best tip, with a later time, whose
    coinbase carries the height, pays the subsidy and the fees, and holds a witness
    commitment that validates.  Its other transactions come from the pool, each
    once and after the pool transactions it waits for; each passes the issuance,
    input, script and bounty checks in the view that those before it leave, starting
    from the coins the chain has for the eligible transactions ([poolView]); their
    sizes with the header and the finished coinbase stay below the limit, with no
    wrap; an eligible transaction that ranks before a chosen one, and for which all
    it waits for was in the block by then, was settled before it.  Every eligible
    pool transaction is in the block, or waits for a pool transaction that is not in
    the block, or was too large or invalid when its turn came: after a prefix of the
    block that holds all it waits for, where it ranks before nothing in the prefix
    that was chosen while it was ready, and nothing after the prefix that was ready
    ranks before it. *)
Theorem template_sound payToAddress (Hrange : fairRange g) (Hpolicy : inU 32 (BlockMaxVsize policy))
    (Hdistinct : NoDup (TxHash sha256 ∘ td_Tx <$> cv_MiningDescs g)) (Hpool : Z.of_nat (length (cv_MiningDescs g)) < 2 ^ 61)
    (Hheight : 0 <= bst_Height (cv_best g) < 2 ^ 31 - 1) (Htarget : TargetTimePerBlock chainParams = 194 * Second) :
  ∃ r, NewBlockTemplate sha256 sha3 engine policy chainParams g payToAddress = Some r ∧ ∀ b, r = Ok b → templateOk b.
Proof.
  unfold NewBlockTemplate. assert (i32 (bst_Height (cv_best g) + 1) = bst_Height (cv_best g) + 1) as -> by (apply wrapS_small; [lia|unfold inS; cbn; lia]).
  set (h := bst_Height (cv_best g) + 1). assert (Hh : 0 <= h < 2 ^ 31) by (unfold h; lia).
  destruct (standardCoinbaseScript_ok h 0 Hh ltac:(done)) as (l & -> & Hlen). cbn [bindOR].
  unfold createCoinbaseTx. set (addr := match payToAddress with Some r => r | None => _ end). destruct addr as [pkScript|e]; [|cbn [bindOR]; by exists (Err e)].
  rewrite (CalcBlockSubsidy_at chainParams h Htarget Hh). cbn [mbind option_bind bindOR].
  set (ti := mkTxIn _ _ _ _). set (cb := mkMsgTx _ _ _ _). rewrite u32_add.
  destruct (selection_ok sha256 sha3 engine policy chainParams g h Hpolicy Hdistinct (u32 (blockHeaderOverhead + GetTransactionVsize cb + commitmentOverhead cb)) Hrange) as (c & s & Ec & Es & Hsel & Htot);
    [apply wrapU_in; lia|]. rewrite Ec. cbn [mbind option_bind]. rewrite Es. cbn [mbind option_bind]. pose proof (selected_length _ _ _ _ _ Hsel) as Hn.
  destruct (AddWitnessCommitment_ok (setFirstValue (λ v, i64 (v + sl_total s)) cb) (sl_txns s)) as (wc & Hwc & -> & Hval & Hext); [done|lia|]. cbn [mbind option_bind].
  set (cb' := addTxOut _ _) in *. set (ts := adjustedBlockTime _ _).
  destruct (cv_CalcNextRequiredDifficulty g ts) as [bits|e]; cbn [bindOR]; [|by exists (Err e)].
  destruct (cv_CalcNextBlockVersion g) as [version|e]; cbn [bindOR]; [|by exists (Err e)].
  destruct (CalcMerkleRoot_isRoot sha256 (cb' :: sl_txns s) false) as (root & Eroot & _); [done|cbn [length]; lia|]. rewrite Eroot. cbn [mbind option_bind].
  set (blk := mkMsgBlock _ _ _). destruct (cv_CheckConnectBlockTemplate g blk h) as [[]|e] eqn:Econ; cbn [bindOR]; [|by exists (Err e)].
  eexists. split; [done|]. intros b [= <-]. split; cbn [bt_Height bt_Block bt_Fees bt_WitnessCommitment blk mb_Transactions mb_BlockHeader mb_MsgHeader mh_BlockHeader bh_MerkleRoot bh_PrevBlock bh_Timestamp];
    try done; [|apply adjustedBlockTime_min].
  exists cb', (sl_txns s), (sl_fees s). split; [done|].
  assert (GetTransactionVsize cb' = GetTransactionVsize cb + commitmentOverhead cb) as -> by (by apply commitmentOverhead_exact). rewrite Z.add_assoc.
  split; [done|]. rewrite <- Htot. split; [done|]. split; [eexists; split; [done|done]|]. split; [done|]. split; [by eapply height_prefix|done].
Qed.

(** Without an address nobody can spend the coinbase. *)
Lemma coinbase_without_address script h : TargetTimePerBlock chainParams = 194 * Second → 0 <= h < 2 ^ 31 →
  ∃ cb, createCoinbaseTx chainParams script h None = Some (Ok cb) ∧ tx_TxOut cb = [mkTxOut (subsidyAt h) [z2b OP_RETURN]].
Proof. intros Ht Hh. unfold createCoinbaseTx. cbn [AddOp NewScriptBuilder]. rewrite (CalcBlockSubsidy_at chainParams h Ht Hh). eexists. by split. Qed.

(** ** Updates of a template *)
(** The miner's calls: the time from some state of the chain, or an extra nonce.
    The block is as the call leaves it, also when it fails. *)
Inductive update := TimeUpdate (view : ChainView) | NonceUpdate (extraNonce : Z).
Definition applyUpdate (height : Z) (blk : MsgBlock) (op : update) : option MsgBlock :=
  match op with
  | TimeUpdate view => Some (UpdateBlockTime chainParams view blk).2
  | NonceUpdate extraNonce =>
      match UpdateExtraNonce sha256 blk height extraNonce with
      | None => None
      | Some (Ok blk') => Some blk'
      | Some (Err _) => Some blk
      end
  end.

(** A coinbase for [height], then [txns], committed to by the coinbase and by the
    header. *)
Record sealed (height : Z) (txns : list MsgTx) (blk : MsgBlock) : Prop := {
  sd_txns : ∃ cb, mb_Transactions blk = cb :: txns ∧ IsCoinBaseTx cb = true ∧ CheckSerializedHeight cb height = Ok tt;
  sd_commitment : ValidateWitnessCommitment sha256 (mb_Transactions blk) = Ok tt;
  sd_root : CalcMerkleRoot sha256 (mb_Transactions blk) false = Some (bh_MerkleRoot (mb_BlockHeader blk)) }.

Lemma setSigScript_commitment script cb txns : Z.of_nat (length txns) < 2 ^ 61 →
  ValidateWitnessCommitment sha256 (setSigScript script cb :: txns) = ValidateWitnessCommitment sha256 (cb :: txns).
Proof.
  intros Hl. destruct (witness_root_coinbase cb (setSigScript script cb) txns Hl) as (r & E1 & E2). unfold ValidateWitnessCommitment. rewrite E1, E2.
  assert (Hw : existsb HasWitness (setSigScript script cb :: txns) = existsb HasWitness (cb :: txns)) by (cbn; f_equal; unfold HasWitness; cbn; by destruct (tx_TxIn cb)).
  assert (Hx : ExtractWitnessCommitment (setSigScript script cb) = ExtractWitnessCommitment cb).
  { unfold ExtractWitnessCommitment, IsCoinBaseTx, setSigScript. cbn. by destruct (tx_TxIn cb) as [|? [|]]. }
  rewrite Hw, Hx. unfold setSigScript. cbn [tx_TxIn]. by destruct (tx_TxIn cb).
Qed.

Lemma applyUpdate_sealed height txns blk op : 0 <= height < 2 ^ 31 → Z.of_nat (length txns) < 2 ^ 61 → (∀ x, op = NonceUpdate x → i64 x ≠ - 2 ^ 63) →
  sealed height txns blk → ∃ blk', applyUpdate height blk op = Some blk' ∧ sealed height txns blk'.
Proof.
  intros Hh Hl Hop [(cb & Et & Hcb & Hch) Hc Hr]. destruct op as [view|x]; cbn [applyUpdate].
  - eexists. split; [done|]. unfold UpdateBlockTime. assert (∀ f, bh_MerkleRoot (f (mb_BlockHeader blk)) = bh_MerkleRoot (mb_BlockHeader blk) → sealed height txns (withHeader f blk)) as Hf.
    { intros f Hf. split; [by exists cb|done|]. change (CalcMerkleRoot sha256 (mb_Transactions blk) false = Some (bh_MerkleRoot (f (mb_BlockHeader blk)))). by rewrite Hf. }
    destruct (ReduceMinDifficulty chainParams); [destruct (cv_CalcNextRequiredDifficulty view _)|]; cbn [snd]; try (by apply Hf). split; [by exists cb|done|done].
  - unfold UpdateExtraNonce. destruct (standardCoinbaseScript_ok height x Hh (Hop x eq_refl)) as (l & -> & Hlen). cbn [bindOR].
    destruct (Z.ltb_spec MaxCoinbaseScriptLen (zlen (heightScript height ++ l))); [lia|]. rewrite Et in *.
    destruct (tx_TxIn cb) as [|ti [|]] eqn:Ei; [by unfold IsCoinBaseTx in Hcb; rewrite Ei in Hcb| |by unfold IsCoinBaseTx in Hcb; rewrite Ei in Hcb].
    destruct (CalcMerkleRoot_isRoot sha256 (setSigScript (heightScript height ++ l) cb :: txns) false) as (root & Eroot & _); [done|cbn [length]; lia|].
    rewrite Eroot. cbn [mbind option_bind]. eexists. split; [done|]. split; cbn [withHeader mb_Transactions].
    + eexists. split; [done|]. split; [unfold IsCoinBaseTx, setSigScript in *; by rewrite Ei in *|]. by eapply height_prefix; [unfold setSigScript; by rewrite Ei|cbn|].
    + by rewrite setSigScript_commitment.
    + done.
Qed.

Lemma template_sealed b : templateOk b → ∃ txns, sealed (bt_Height b) txns (bt_Block b).
Proof. intros [_ (cb & txns & fees & Et & _ & _ & _ & Hcb & Hch & _) Hc Hr _ _ _]. exists txns. split; [by exists cb|done|done]. Qed.

(** C19. A template stays a valid block under the miner's updates: any sequence of time
    and extra-nonce updates returns (2^63 is the one nonce on which the script
    builder panics), the transactions after the coinbase are the same, the coinbase
    still carries the height, the witness commitment still validates, and the
    header commits to the transactions as they are now. *)
Theorem template_updates height txns blk ops (Hh : 0 <= height < 2 ^ 31) (Hl : Z.of_nat (length txns) < 2 ^ 61)
    (Hops : ∀ x, NonceUpdate x ∈ ops → i64 x ≠ - 2 ^ 63) (Hs : sealed height txns blk) :
  ∃ blk', foldM (applyUpdate height) blk ops = Some blk' ∧ sealed height txns blk'.
Proof.
  revert blk Hs. induction ops as [|op ops IH]; intros blk Hs; cbn [foldM]; [by exists blk|].
  destruct (applyUpdate_sealed height txns blk op Hh Hl) as (blk1 & -> & Hs1); [intros x ->; apply Hops; by left|done|]. cbn [mbind option_bind].
  apply IH; [|done]. intros x Hx. apply Hops. by right.
Qed.
End block.

(** ** An instance: a child that waits for its parent *)
Module MiningDemo.
Definition coin (n : Z) : OutPoint := mkOutPoint (z2b n :: replicate 31 x07) 0.
Definition spend (version : Z) (op : OutPoint) (v : Z) : MsgTx := mkMsgTx version [mkTxIn op [] [] 4294967295] [mkTxOut v [x51]] 0.
Definition parent : MsgTx := spend 1 (coin 1) 900.
Definition child : MsgTx := spend 1 (mkOutPoint (TxHash toySha parent) 0) 700.
Definition ordinary : MsgTx := spend 2 (coin 2) 1900.
Definition desc (t : MsgTx) (fee rate : Z) : TxDesc := mkTxDesc t 0 5 fee rate.
Definition view : UtxoViewpoint :=
  mkView (<[coin 1 := Some (mkUtxoEntry 1000 [x51] 3 0)]> (<[coin 2 := Some (mkUtxoEntry 2000 [x51] 3 0)]> ∅)) zeroHash.
Definition policy : MiningPolicy := mkMiningPolicy 0 750000.
Definition chain : ChainView :=
  mkChainView (mkBestState (replicate 32 x09) 5 0x1e010000 0 0 0 0 1000 1000) (λ _, Ok view) (λ h, bool_decide (h = TxHash toySha parent))
    [desc child 200 3000; desc parent 100 1000; desc ordinary 100 2000] (λ _, 5000000000000) (λ _ _, Ok tt) (λ _, Ok 0x1e010000) (Ok 8) (λ _ _, Ok tt) (λ _ s, elements s).
Definition address : option (res verr bytes) := Some (Ok [x51; x20]).
Definition engine : bytes → MsgTx → nat → Z → UtxoViewpoint → engineResult := λ _ _ _ _ _, EngineOk.
Definition template : option (res verr BlockTemplate) := NewBlockTemplate (H := Toy.toySchnorr) toySha toySha engine policy MainNetParams chain address.
End MiningDemo.
Section demo.
Import MiningDemo.
Lemma demo_selection : match template with Some (Ok b) => (tail (mb_Transactions (bt_Block b)), bt_Fees b) = ([ordinary; parent; child], [-400; 100; 100; 200]) | _ => False end.
Proof. vm_compute. reflexivity. Qed.
(** A block without the child is not a selection: the child waits for the parent
    only, and after the parent it fits and is valid. *)
Lemma demo_child_required fees : ¬ selected (H := Toy.toySchnorr) toySha toySha engine policy MainNetParams chain 6 (poolView chain 6 (imap pair (cv_MiningDescs chain))) 300 [ordinary; parent] fees.
Proof.
  intros [_ _ _ _ _ _ _ _ Hall]. set (x := (0%nat, desc child 200 3000)).
  assert (Hw : ∀ h, waitsFor chain child h ↔ h = TxHash toySha parent).
  { intros h. split; [intros (utxos & _ & _ & ti & ->%list_elem_of_singleton & _ & <-); done|]. intros ->. exists view. split; [done|].
    split; [vm_compute; reflexivity|]. eexists. split; [by left|]. split; [vm_compute; reflexivity|done]. }
  assert (Hx : candidate chain 6 x) by (split; [cbn; by left|vm_compute; reflexivity]). destruct (Hall x Hx) as [[Hin|(l & l' & v & El & [Hr _ _] & Hs & Hwhy)]|(h & ->%Hw & Hn)].
  - apply elem_of_cons in Hin as [Et|Et%list_elem_of_singleton]; apply (f_equal tx_TxOut) in Et; discriminate Et.
  - assert (Hp : TxHash toySha parent ∈ TxHash toySha <$> l) by (apply Hr; by apply Hw). apply spends_view in Hs.
    assert (l = [ordinary; parent]) as ->.
    { destruct l as [|a [|b l]]; cbn in El; [by apply elem_of_nil in Hp| |].
      - injection El as <- El. apply list_elem_of_singleton in Hp. exfalso. revert Hp. apply (bool_decide_unpack _). vm_compute. exact I.
      - injection El as <- <- El. by destruct l. }
    rewrite Hs in Hwhy. destruct Hwhy as [Hbig|Hinv]; [revert Hbig|revert Hinv]; apply (bool_decide_unpack _); vm_compute; exact I.
  - apply Hn. by right; left.
Qed.
Lemma template_sound_witness :
  ∃ r, NewBlockTemplate (H := Toy.toySchnorr) toySha toySha engine policy MainNetParams chain address = Some r
    ∧ ∀ b, r = Ok b → templateOk (H := Toy.toySchnorr) toySha toySha engine policy MainNetParams chain b.
Proof.
  apply (template_sound (H := Toy.toySchnorr) toySha toySha_length toySha engine policy MainNetParams chain address).
  - intros n s. reflexivity.
  - unfold inU. cbn. lia.
  - apply (bool_decide_unpack _). vm_compute. exact I.
  - cbn. lia.
  - cbn. lia.
  - reflexivity.
Defined.

Definition demoBlock : MsgBlock := match template with Some (Ok b) => bt_Block b | _ => mkMsgBlock (mkMsgHeader None (mkBlockHeader 0 [] [] 0 0 [])) None [] end.
Lemma demo_sealed : sealed toySha 6 [ordinary; parent; child] demoBlock.
Proof. split; [eexists; split; [vm_compute; reflexivity|split; vm_compute; reflexivity]|vm_compute; reflexivity|vm_compute; reflexivity]. Qed.
Lemma template_updates_witness :
  ∃ blk', foldM (applyUpdate toySha MainNetParams 6) demoBlock [NonceUpdate 7; TimeUpdate chain; NonceUpdate 1000000] = Some blk' ∧ sealed toySha 6 [ordinary; parent; child] blk'.
Proof.
  apply (template_updates toySha MainNetParams 6 [ordinary; parent; child] demoBlock [NonceUpdate 7; TimeUpdate chain; NonceUpdate 1000000]).
  - lia.
  - cbn. lia.
  - intros x Hx. rewrite !elem_of_cons in Hx. destruct Hx as [[= ->]|[?|[[= ->]|Hx]]]; [vm_compute; discriminate|discriminate|vm_compute; discriminate|by apply elem_of_nil in Hx].
  - exact demo_sealed.
Defined.
End demo.
