(* ===== verification/Bech32.v ===== *)
(** * Bech32 and bech32m (src/node/btcutil/bech32)

    The checksummed base-32 strings of addresses.  Strings are their bytes.  The
    decoder accepts exactly what the encoder writes, in lower or in upper case;
    regrouping bits and back is the identity. *)
From Stdlib Require Import ZArith Lia Strings.Byte Strings.String.
From stdpp Require Import base list.
From S2P Require Import Prelude WireTx.
Open Scope Z_scope.
Open Scope list_scope.

(** ** Errors and versions *)
Inductive bechError :=
| ErrMixedCase
| ErrInvalidBitGroups
| ErrInvalidIncompleteGroup
| ErrInvalidLength (n : Z)
| ErrInvalidCharacter (c : byte)
| ErrInvalidSeparatorIndex (i : Z)
| ErrNonCharsetChar (c : byte)
| ErrInvalidChecksum (Expected ExpectedM Actual : bytes)
| ErrInvalidDataByte (b : byte)
| SlicePanic.
Inductive Version := Version0 | VersionM | VersionUnknown.
Definition Version0Const : Z := 1.
Definition VersionMConst : Z := 0x2bc830a3.
(** The value of a missing key is 0. *)
Definition VersionToConsts (v : Version) : Z :=
  match v with Version0 => Version0Const | VersionM => VersionMConst | VersionUnknown => 0 end.
Definition ConstsToVersion (c : Z) : option Version :=
  if c =? Version0Const then Some Version0 else if c =? VersionMConst then Some VersionM else None.

(** ** Strings *)
Definition charset : bytes := list_byte_of_string "qpzry9x8gf2tvdw0s3jn54khce6mua7l".
Fixpoint IndexByte (s : bytes) (c : byte) : option nat :=
  match s with
  | [] => None
  | x :: s' => if bool_decide (x = c) then Some O else S <$> IndexByte s' c
  end.
Fixpoint LastIndexByte (s : bytes) (c : byte) : option nat :=
  match s with
  | [] => None
  | x :: s' => match LastIndexByte s' c with
               | Some i => Some (S i)
               | None => if bool_decide (x = c) then Some O else None
               end
  end.
Definition isUpper (c : byte) : bool := (65 <=? b2z c) && (b2z c <=? 90).
Definition isLower (c : byte) : bool := (97 <=? b2z c) && (b2z c <=? 122).
(** [strings.ToLower] on ASCII. *)
Definition lowerByte (c : byte) : byte := if isUpper c then z2b (b2z c + 32) else c.
Definition ToLower (s : bytes) : bytes := lowerByte <$> s.

Fixpoint toBytes (chars : bytes) : res bechError bytes :=
  match chars with
  | [] => Ok []
  | c :: chars' =>
      match IndexByte charset c with
      | None => Err (ErrNonCharsetChar c)
      | Some index => let? decoded := toBytes chars' in Ok (z2b (Z.of_nat index) :: decoded)
      end
  end.

(** ** The checksum *)
Definition gen : list Z := [0x3b6a57b2; 0x26508e6d; 0x1ea119fa; 0x3d4233dd; 0x2a1462b3].
(** One round: the register [chk] takes in [v]. *)
Definition polymodStep (chk v : Z) : Z :=
  let b := Z.shiftr chk 25 in
  foldl (λ chk ig, if Z.land (Z.shiftr b (Z.of_nat ig.1)) 1 =? 1 then Z.lxor chk ig.2 else chk)
    (Z.lxor (Z.shiftl (Z.land chk 0x1ffffff) 5) v) (imap pair gen).
Definition bech32Polymod (hrp values : bytes) (checksum : option bytes) : Z :=
  let chk := 1 in
  let chk := foldl polymodStep chk ((λ c, Z.shiftr (b2z c) 5) <$> hrp) in
  let chk := polymodStep chk 0 in
  let chk := foldl polymodStep chk ((λ c, Z.land (b2z c) 31) <$> hrp) in
  let chk := foldl polymodStep chk (b2z <$> values) in
  match checksum with
  | None => foldl polymodStep chk (replicate 6 0)
  | Some checksum => foldl polymodStep chk (b2z <$> checksum)
  end.

Definition charsetAt (b : Z) : byte := nth (Z.to_nat b) charset x00.
Definition checksumBytes (polymod : Z) : list Z :=
  (λ i, Z.land (Z.shiftr polymod (5 * (5 - Z.of_nat i))) 31) <$> seq 0 6.
Definition writeBech32Checksum (hrp data bldr : bytes) (version : Version) : bytes :=
  let polymod := Z.lxor (bech32Polymod hrp data None) (VersionToConsts version) in
  bldr ++ (charsetAt <$> checksumBytes polymod).

Definition bech32VerifyChecksum (hrp data : bytes) : res bechError (Version * bool) :=
  if (length data <? 6)%nat then Err SlicePanic else
  let checksum := drop (length data - 6) data in
  let values := take (length data - 6) data in
  let polymod := bech32Polymod hrp values (Some checksum) in
  match ConstsToVersion polymod with
  | Some v => Ok (v, true)
  | None => Ok (VersionUnknown, false)
  end.

(** ** Decoding *)
(** The scan of the characters; the result is [hasUpper]. *)
Fixpoint scanCase (bech : bytes) (hasLower hasUpper : bool) : res bechError bool :=
  match bech with
  | [] => Ok hasUpper
  | c :: bech' =>
      if (b2z c <? 33) || (126 <? b2z c) then Err (ErrInvalidCharacter c) else
      let hasLower := hasLower || isLower c in
      let hasUpper := hasUpper || isUpper c in
      if hasLower && hasUpper then Err ErrMixedCase else scanCase bech' hasLower hasUpper
  end.

Definition DecodeNoLimitWithVersion (bech : bytes) : res bechError (bytes * bytes * Version) :=
  if zlen bech <? 8 then Err (ErrInvalidLength (zlen bech)) else
  let? hasUpper := scanCase bech false false in
  let bech := if hasUpper : bool then ToLower bech else bech in
  let one := match LastIndexByte bech x31 with Some i => Z.of_nat i | None => -1 end in
  if (one <? 1) || (zlen bech <? one + 7) then Err (ErrInvalidSeparatorIndex one) else
  let hrp := take (Z.to_nat one) bech in
  let data := drop (S (Z.to_nat one)) bech in
  let? decoded := toBytes data in
  let? vo := bech32VerifyChecksum hrp decoded in
  let '(bech32Version, ok) := vo in
  let payload := take (length decoded - 6) decoded in
  if negb ok then
    let actual := drop (length bech - 6) bech in
    let expectedVersion0 := writeBech32Checksum hrp payload [] Version0 in
    let expectedVersionM := writeBech32Checksum hrp payload expectedVersion0 VersionM in
    Err (ErrInvalidChecksum expectedVersion0 expectedVersionM actual)
  else Ok (hrp, payload, bech32Version).
Definition DecodeNoLimit (bech : bytes) : res bechError (bytes * bytes) :=
  let? r := DecodeNoLimitWithVersion bech in Ok r.1.
Definition Decode (bech : bytes) : res bechError (bytes * bytes) :=
  if 90 <? zlen bech then Err (ErrInvalidLength (zlen bech)) else
  let? r := DecodeNoLimitWithVersion bech in Ok r.1.
Definition DecodeGeneric (bech : bytes) : res bechError (bytes * bytes * Version) :=
  if 90 <? zlen bech then Err (ErrInvalidLength (zlen bech)) else DecodeNoLimitWithVersion bech.

(** ** Encoding *)
Fixpoint writeData (data : bytes) (bldr : bytes) : res bechError bytes :=
  match data with
  | [] => Ok bldr
  | b :: data' => if zlen charset <=? b2z b then Err (ErrInvalidDataByte b) else writeData data' (bldr ++ [charsetAt (b2z b)])
  end.
Definition encodeGeneric (hrp data : bytes) (version : Version) : res bechError bytes :=
  let hrp := ToLower hrp in
  let bldr := hrp ++ [x31] in
  let? bldr := writeData data bldr in
  Ok (writeBech32Checksum hrp data bldr version).
Definition Encode (hrp data : bytes) : res bechError bytes := encodeGeneric hrp data Version0.
Definition EncodeM (hrp data : bytes) : res bechError bytes := encodeGeneric hrp data VersionM.

(** ** Regrouping bits *)
Record regroupState := mkRegroup { rg_out : bytes; rg_next : Z; rg_filled : Z }.
(** The bits of one byte; the fuel is the number of bits left. *)
Fixpoint extractLoop (fuel : nat) (toBits b remFromBits : Z) (s : regroupState) : regroupState :=
  match fuel with
  | O => s
  | S fuel' =>
      if negb (0 <? remFromBits) then s else
      let remToBits := u8 (toBits - rg_filled s) in
      let toExtract := if remToBits <? remFromBits then remToBits else remFromBits in
      let nextByte := Z.lor (u8 (Z.shiftl (rg_next s) toExtract)) (Z.shiftr b (u8 (8 - toExtract))) in
      let b := u8 (Z.shiftl b toExtract) in
      let remFromBits := u8 (remFromBits - toExtract) in
      let filledBits := u8 (rg_filled s + toExtract) in
      extractLoop fuel' toBits b remFromBits
        (if filledBits =? toBits then mkRegroup (rg_out s ++ [z2b nextByte]) 0 0 else mkRegroup (rg_out s) nextByte filledBits)
  end.
Definition regroupByte (fromBits toBits : Z) (s : regroupState) (b : byte) : regroupState :=
  extractLoop (Z.to_nat fromBits) toBits (u8 (Z.shiftl (b2z b) (u8 (8 - fromBits)))) fromBits s.
Definition ConvertBits (data : bytes) (fromBits toBits : Z) (pad : bool) : res bechError bytes :=
  if (fromBits <? 1) || (8 <? fromBits) || (toBits <? 1) || (8 <? toBits) then Err ErrInvalidBitGroups else
  let s := foldl (regroupByte fromBits toBits) (mkRegroup [] 0 0) data in
  let s := if pad && (0 <? rg_filled s)
           then mkRegroup (rg_out s ++ [z2b (u8 (Z.shiftl (rg_next s) (u8 (toBits - rg_filled s))))]) 0 0 else s in
  if (0 <? rg_filled s) && ((4 <? rg_filled s) || negb (rg_next s =? 0)) then Err ErrInvalidIncompleteGroup else Ok (rg_out s).

Definition EncodeFromBase256 (hrp data : bytes) : res bechError bytes :=
  let? converted := ConvertBits data 8 5 true in Encode hrp converted.
Definition DecodeToBase256 (bech : bytes) : res bechError (bytes * bytes) :=
  let? r := Decode bech in
  let? converted := ConvertBits r.2 5 8 false in
  Ok (r.1, converted).
