(* ===== verification/Bech32Thms.v ===== *)
(** * Bech32: what it guarantees (src/node/btcutil/bech32)

    Regrouping keeps the string of bits; the checksum is linear, so there is one
    checksum for each payload and version; the decoder accepts exactly the
    encodings. *)
From Stdlib Require Import ZArith Lia Btauto Strings.Byte Strings.String.
From stdpp Require Import base list.
From S2P Require Import Prelude WireTx Bech32.
Open Scope Z_scope.
Open Scope list_scope.

(** ** The bits of a number, the highest first *)
Fixpoint bitsBE (w : nat) (x : Z) : list bool :=
  match w with O => [] | S w' => Z.testbit x (Z.of_nat w') :: bitsBE w' x end.
Lemma length_bitsBE w x : length (bitsBE w x) = w.
Proof. induction w; cbn; congruence. Qed.
Lemma bitsBE_ext w x y : (∀ i, 0 <= i < Z.of_nat w → Z.testbit x i = Z.testbit y i) → bitsBE w x = bitsBE w y.
Proof. induction w as [|w IH]; intros Hi; cbn; [done|]. rewrite Hi by lia. f_equal. apply IH. intros i Hw. apply Hi. lia. Qed.
Lemma bitsBE_inj_bits w x y i : bitsBE w x = bitsBE w y → 0 <= i < Z.of_nat w → Z.testbit x i = Z.testbit y i.
Proof.
  induction w as [|w IH]; intros E Hi; [lia|]. cbn in E. injection E as E1 E2. destruct (decide (i = Z.of_nat w)) as [->|]; [done|]. apply IH; [done|lia].
Qed.
Lemma testbit_high x n i : 0 <= x < 2 ^ n → n <= i → Z.testbit x i = false.
Proof. intros Hx Hi. destruct (decide (x = 0)) as [->|]; [apply Z.bits_0|]. apply Z.bits_above_log2; [lia|]. apply Z.log2_lt_pow2; [lia|]. apply (Z.lt_le_trans _ (2 ^ n)); [lia|]. apply Z.pow_le_mono_r; lia. Qed.
Lemma bitsBE_inj w x y : 0 <= x < 2 ^ Z.of_nat w → 0 <= y < 2 ^ Z.of_nat w → bitsBE w x = bitsBE w y → x = y.
Proof.
  intros Hx Hy E. apply Z.bits_inj'. intros i Hi. destruct (decide (i < Z.of_nat w)); [by apply (bitsBE_inj_bits w)|].
  rewrite (testbit_high x (Z.of_nat w)), (testbit_high y (Z.of_nat w)) by lia. done.
Qed.
Lemma bitsBE_app a b x : bitsBE (a + b) x = bitsBE a (Z.shiftr x (Z.of_nat b)) ++ bitsBE b x.
Proof. induction a as [|a IH]; cbn; [done|]. rewrite IH. f_equal. rewrite Z.shiftr_spec by lia. f_equal. lia. Qed.
Lemma bitsBE_0 w : bitsBE w 0 = replicate w false.
Proof. induction w as [|w IH]; cbn; [done|]. by rewrite Z.bits_0, IH. Qed.
Lemma bitsBE_shiftl w k x : bitsBE (w + k) (Z.shiftl x (Z.of_nat k)) = bitsBE w x ++ replicate k false.
Proof.
  rewrite bitsBE_app, Z.shiftr_shiftl_l, Z.sub_diag by lia. f_equal. rewrite <- bitsBE_0. apply bitsBE_ext. intros i Hi. rewrite Z.shiftl_spec_low, Z.bits_0 by lia. done.
Qed.
Lemma u8_bits x i : 0 <= i < 8 → Z.testbit (u8 x) i = Z.testbit x i.
Proof. intros Hi. unfold wrapU. by rewrite Z.mod_pow2_bits_low by lia. Qed.
Lemma u8_small n : 0 <= n < 256 → u8 n = n.
Proof. intros Hn. apply wrapU_small. done. Qed.
Lemma range_bits x n : 0 <= n → (∀ i, n <= i → Z.testbit x i = false) → 0 <= x → x < 2 ^ n.
Proof.
  intros Hn Hb Hx. destruct (decide (x = 0)) as [->|]; [lia|]. apply Z.log2_lt_pow2; [lia|]. apply Z.nle_gt. intros Hl. pose proof (Z.bit_log2 x ltac:(lia)) as E. by rewrite Hb in E.
Qed.

(** ** Regrouping *)
Record regroupOk (to : nat) (s : regroupState) (f : nat) : Prop := {
  ro_filled : rg_filled s = Z.of_nat f;
  ro_below : (f < to)%nat;
  ro_next : 0 <= rg_next s < 2 ^ Z.of_nat f;
  ro_out : Forall (λ b, b2z b < 2 ^ Z.of_nat to) (rg_out s) }.
Definition groupBits (w : nat) (l : bytes) : list bool := concat (bitsBE w ∘ b2z <$> l).
Definition stateBits (to : nat) (s : regroupState) : list bool := groupBits to (rg_out s) ++ bitsBE (Z.to_nat (rg_filled s)) (rg_next s).
Lemma groupBits_app w l l' : groupBits w (l ++ l') = groupBits w l ++ groupBits w l'.
Proof. unfold groupBits. by rewrite fmap_app, concat_app. Qed.
Lemma length_groupBits w l : length (groupBits w l) = (w * length l)%nat.
Proof. unfold groupBits. induction l as [|b l IH]; cbn [fmap list_fmap concat length]; [lia|]. rewrite length_app, IH. cbn [compose]. rewrite length_bitsBE. lia. Qed.
Lemma groupBits_inj w l l' : (0 < w <= 8)%nat → Forall (λ b, b2z b < 2 ^ Z.of_nat w) l → Forall (λ b, b2z b < 2 ^ Z.of_nat w) l' →
  groupBits w l = groupBits w l' → l = l'.
Proof.
  intros Hw Hl. revert l'. induction Hl as [|b l Hb Hl IH]; intros l' Hl' E.
  - destruct l' as [|c l']; [done|]. apply (f_equal length) in E. rewrite !length_groupBits in E. cbn in E. lia.
  - destruct Hl' as [|c l' Hc Hl']; [apply (f_equal length) in E; rewrite !length_groupBits in E; cbn in E; lia|].
    unfold groupBits in E. cbn in E. apply app_inj_1 in E as [E1 E2]; [|by rewrite !length_bitsBE]. f_equal; [|by apply IH].
    apply b2z_inj. pose proof (b2z_range b). pose proof (b2z_range c). apply (bitsBE_inj w); [lia|lia|done].
Qed.

(** The byte that takes [e] more bits from the top of [b]. *)
Lemma takeIn_bits f e nb b : 0 <= nb < 2 ^ Z.of_nat f → (f + e <= 8)%nat → 0 <= b < 256 →
  let nb' := Z.lor (u8 (Z.shiftl nb (Z.of_nat e))) (Z.shiftr b (u8 (8 - Z.of_nat e))) in
  0 <= nb' < 2 ^ Z.of_nat (f + e) ∧ bitsBE (f + e) nb' = bitsBE f nb ++ bitsBE e (Z.shiftr b (8 - Z.of_nat e)).
Proof.
  intros Hnb Hfe Hb nb'. assert (Hu : u8 (8 - Z.of_nat e) = 8 - Z.of_nat e) by (apply u8_small; lia).
  assert (Hbit : ∀ i, 0 <= i → Z.testbit nb' i = if decide (i < Z.of_nat e) then Z.testbit b (i + (8 - Z.of_nat e)) else Z.testbit nb (i - Z.of_nat e)).
  { intros i Hi. unfold nb'. rewrite Hu, Z.lor_spec, Z.shiftr_spec by lia. case_decide as Ei.
    - rewrite u8_bits, Z.shiftl_spec_low by lia. done.
    - rewrite (testbit_high b 8) by lia. rewrite orb_false_r. destruct (decide (i < 8)); [rewrite u8_bits, Z.shiftl_spec by lia; done|].
      unfold wrapU. rewrite Z.mod_pow2_bits_high by lia. symmetry. apply (testbit_high nb (Z.of_nat f)); lia. }
  assert (Hnn : 0 <= nb').
  { unfold nb'. apply Z.lor_nonneg. split; [apply (wrapU_in 8); lia|]. apply Z.shiftr_nonneg. lia. }
  split.
  - split; [done|]. apply range_bits; [lia| |done]. intros i Hi. rewrite Hbit by lia. rewrite decide_False by lia. apply (testbit_high nb (Z.of_nat f)); lia.
  - rewrite bitsBE_app. f_equal; apply bitsBE_ext; intros i Hi.
    + rewrite Z.shiftr_spec, Hbit, decide_False by lia. f_equal. lia.
    + rewrite Hbit, decide_True, Z.shiftr_spec by lia. done.
Qed.

Lemma extractLoop_ok (to : nat) : (1 <= to <= 8)%nat → ∀ fuel rem b s f, (rem <= fuel)%nat → (rem <= 8)%nat → 0 <= b < 256 → regroupOk to s f →
  ∃ f', regroupOk to (extractLoop fuel (Z.of_nat to) b (Z.of_nat rem) s) f'
    ∧ stateBits to (extractLoop fuel (Z.of_nat to) b (Z.of_nat rem) s) = stateBits to s ++ bitsBE rem (Z.shiftr b (8 - Z.of_nat rem)).
Proof.
  intros Hto. induction fuel as [|fuel IH]; intros rem b s f Hf Hr Hb Hok; cbn [extractLoop].
  { assert (rem = 0%nat) as -> by lia. exists f. cbn [bitsBE]. by rewrite (right_id_L [] app). }
  destruct (Z.ltb_spec 0 (Z.of_nat rem)) as [Hrem|Hrem]; cbn [negb]; [|assert (rem = 0%nat) as -> by lia; exists f; cbn [bitsBE]; by rewrite (right_id_L [] app)].
  pose proof Hok as [Ef Hbel Hn Ho]. rewrite Ef, (u8_small (Z.of_nat to - Z.of_nat f)) by lia.
  set (e := Nat.min (to - f) rem). assert ((if Z.of_nat to - Z.of_nat f <? Z.of_nat rem then Z.of_nat to - Z.of_nat f else Z.of_nat rem) = Z.of_nat e) as ->
    by (unfold e; destruct (Z.ltb_spec (Z.of_nat to - Z.of_nat f) (Z.of_nat rem)); lia).
  assert (He : (1 <= e <= rem)%nat ∧ (f + e <= to)%nat) by (unfold e; lia).
  destruct (takeIn_bits f e (rg_next s) b Hn ltac:(lia) Hb) as [Hnr Hnb]. set (nb := Z.lor _ _) in *.
  rewrite (u8_small (Z.of_nat rem - Z.of_nat e)), (u8_small (Z.of_nat f + Z.of_nat e)) by lia. rewrite <- Nat2Z.inj_sub by lia.
  set (s1 := if _ =? _ then _ else _).
  assert (∃ f1, regroupOk to s1 f1 ∧ stateBits to s1 = stateBits to s ++ bitsBE e (Z.shiftr b (8 - Z.of_nat e))) as (f1 & Hok1 & Hb1).
  { unfold s1, stateBits. rewrite Ef, Nat2Z.id, <- (assoc_L app), <- Hnb. destruct (Z.eqb_spec (Z.of_nat f + Z.of_nat e) (Z.of_nat to)) as [Et|Et].
    - assert (f + e = to)%nat as Et' by lia. exists 0%nat. rewrite Et' in *. assert (Hz : b2z (z2b nb) = nb).
      { rewrite b2z_z2b. apply Z.mod_small. split; [lia|]. apply (Z.lt_le_trans _ (2 ^ Z.of_nat to)); [lia|]. change 256 with (2 ^ 8). apply Z.pow_le_mono_r; lia. }
      split; [split; cbn; [done|lia|lia|]|].
      + apply Forall_app. split; [done|]. constructor; [rewrite Hz; lia|constructor].
      + cbn [rg_out rg_filled rg_next Z.to_nat bitsBE]. change (bitsBE (Z.to_nat 0) 0) with (@nil bool). rewrite groupBits_app, (right_id_L [] app). f_equal. unfold groupBits. cbn. by rewrite (right_id_L [] app), Hz.
    - exists (f + e)%nat. split; [split; cbn; [lia|lia|done|done]|]. cbn. by rewrite <- Nat2Z.inj_add, Nat2Z.id. }
  assert (Hb' : 0 <= u8 (Z.shiftl b (Z.of_nat e)) < 256) by apply (wrapU_in 8 _ ltac:(lia)).
  destruct (IH (rem - e)%nat (u8 (Z.shiftl b (Z.of_nat e))) s1 f1 ltac:(lia) ltac:(lia) Hb' Hok1) as (f' & Hok' & Hbits). exists f'. split; [done|].
  rewrite Hbits, Hb1, <- (assoc_L app). f_equal. replace rem with (e + (rem - e))%nat at 3 by lia. rewrite bitsBE_app. f_equal; apply bitsBE_ext; intros i Hi; rewrite !Z.shiftr_spec by lia.
  - f_equal. lia.
  - rewrite u8_bits by lia. rewrite Z.shiftl_spec by lia. f_equal. lia.
Qed.

Lemma regroup_ok (from to : nat) : (1 <= from <= 8)%nat → (1 <= to <= 8)%nat → ∀ data s f, regroupOk to s f →
  ∃ f', regroupOk to (foldl (regroupByte (Z.of_nat from) (Z.of_nat to)) s data) f'
    ∧ stateBits to (foldl (regroupByte (Z.of_nat from) (Z.of_nat to)) s data) = stateBits to s ++ groupBits from data.
Proof.
  intros Hfrom Hto. induction data as [|b data IH]; intros s f Hok; cbn [foldl]; [exists f; change (groupBits from []) with (@nil bool); by rewrite (right_id_L [] app)|].
  unfold regroupByte at 2 4. rewrite Nat2Z.id, (u8_small (8 - Z.of_nat from)) by lia.
  destruct (extractLoop_ok to Hto from from (u8 (Z.shiftl (b2z b) (8 - Z.of_nat from))) s f ltac:(lia) ltac:(lia) (wrapU_in 8 _ ltac:(lia)) Hok) as (f1 & Hok1 & E1).
  destruct (IH _ f1 Hok1) as (f' & Hok' & E'). exists f'. split; [exact Hok'|]. rewrite E', E1, <- (assoc_L app). f_equal. unfold groupBits. cbn. f_equal.
  apply bitsBE_ext. intros i Hi. rewrite Z.shiftr_spec, u8_bits, Z.shiftl_spec by lia. f_equal. lia.
Qed.

Abbreviation fiveBits := (Forall (λ b, b2z b < 32)).
Lemma regroup_start (from to : nat) data : (1 <= from <= 8)%nat → (1 <= to <= 8)%nat →
  let s := foldl (regroupByte (Z.of_nat from) (Z.of_nat to)) (mkRegroup [] 0 0) data in ∃ f, regroupOk to s f ∧ groupBits to (rg_out s) ++ bitsBE f (rg_next s) = groupBits from data.
Proof.
  intros Hf Ht s. destruct (regroup_ok from to Hf Ht data (mkRegroup [] 0 0) 0) as (f & Hok & E); [split; cbn; [done|lia|lia|constructor]|].
  exists f. split; [exact Hok|]. fold s in E, Hok. unfold stateBits in E. rewrite (ro_filled _ _ _ Hok), Nat2Z.id in E. exact E.
Qed.

(** Padding fills the last group with zeros. *)
Lemma convert_pad data : ∃ o k, ConvertBits data 8 5 true = Ok o ∧ fiveBits o ∧ (k < 5)%nat ∧ groupBits 5 o = groupBits 8 data ++ replicate k false.
Proof.
  destruct (regroup_start 8 5 data ltac:(lia) ltac:(lia)) as (f & [Ef Hb Hn Ho] & E). unfold ConvertBits. change (Z.of_nat 8) with 8 in *. change (Z.of_nat 5) with 5 in *. cbn [Z.ltb Z.compare orb andb].
  set (s := foldl _ _ _) in *. rewrite Ef. destruct (Z.ltb_spec 0 (Z.of_nat f)) as [Hf|Hf]; cbn [rg_filled rg_out rg_next andb].
  - change (0 <? 0) with false. cbn [andb]. eexists _, (5 - f)%nat. split; [done|].
    assert (Hu : u8 (5 - Z.of_nat f) = Z.of_nat (5 - f)) by (rewrite u8_small; lia). rewrite Hu. set (x := u8 _).
    assert (Hx : x = Z.shiftl (rg_next s) (Z.of_nat (5 - f))).
    { unfold x. apply u8_small. rewrite Z.shiftl_mul_pow2 by lia. split; [apply Z.mul_nonneg_nonneg; lia|].
      apply (Z.lt_le_trans _ (2 ^ Z.of_nat f * 2 ^ Z.of_nat (5 - f))); [apply Z.mul_lt_mono_pos_r; lia|]. rewrite <- Z.pow_add_r by lia. replace (Z.of_nat f + Z.of_nat (5 - f)) with 5 by lia. lia. }
    assert (Hx32 : 0 <= x < 32).
    { rewrite Hx, Z.shiftl_mul_pow2 by lia. split; [apply Z.mul_nonneg_nonneg; lia|]. replace 32 with (2 ^ Z.of_nat f * 2 ^ Z.of_nat (5 - f)); [apply Z.mul_lt_mono_pos_r; lia|].
      rewrite <- Z.pow_add_r by lia. replace (Z.of_nat f + Z.of_nat (5 - f)) with 5 by lia. done. }
    assert (Hz : b2z (z2b x) = x) by (rewrite b2z_z2b; apply Z.mod_small; lia).
    split; [apply Forall_app; split; [done|]; constructor; [rewrite Hz; lia|constructor]|]. split; [lia|].
    rewrite groupBits_app, <- E, <- (assoc_L app). f_equal. unfold groupBits. cbn [fmap list_fmap concat compose]. rewrite Hz, (right_id_L [] app), Hx, <- bitsBE_shiftl. f_equal. lia.
  - rewrite Ef. destruct (Z.ltb_spec 0 (Z.of_nat f)); [lia|]. cbn [andb]. exists (rg_out s), 0%nat. split; [done|]. split; [done|]. split; [lia|].
    assert (f = 0%nat) as -> by lia. cbn [replicate]. rewrite (right_id_L [] app). cbn [bitsBE] in E. by rewrite (right_id_L [] app) in E.
Qed.
Lemma replicate_bits f x : 0 <= x < 2 ^ Z.of_nat f → bitsBE f x = replicate f false → x = 0.
Proof. intros Hx E. apply (bitsBE_inj f); [done|lia|by rewrite bitsBE_0]. Qed.
(** Without padding the rest must be at most four zeros. *)
Lemma convert_back o d : ConvertBits o 5 8 false = Ok d ↔ ∃ k, (k < 5)%nat ∧ groupBits 5 o = groupBits 8 d ++ replicate k false.
Proof.
  destruct (regroup_start 5 8 o ltac:(lia) ltac:(lia)) as (f & [Ef Hb Hn Ho] & E). unfold ConvertBits. change (Z.of_nat 8) with 8 in *. change (Z.of_nat 5) with 5 in *. cbn [Z.ltb Z.compare orb andb].
  set (s := foldl _ _ _) in *. rewrite Ef. split.
  - intros Hd. exists f. destruct (Z.ltb_spec 4 (Z.of_nat f)); [destruct (Z.ltb_spec 0 (Z.of_nat f)); [done|lia]|]. split; [lia|]. rewrite <- E.
    assert (rg_next s = 0) as En.
    { destruct (decide (f = 0%nat)) as [->|]; [cbn in Hn; lia|]. destruct (Z.ltb_spec 0 (Z.of_nat f)); [|lia]. cbn [andb orb] in Hd. by destruct (Z.eqb_spec (rg_next s) 0). }
    rewrite En, bitsBE_0. rewrite En in Hd. change (0 =? 0) with true in Hd. cbn [negb orb] in Hd. rewrite andb_false_r in Hd. by injection Hd as <-.
  - intros (k & Hk & Eb). rewrite Eb in E. pose proof (f_equal length E) as El. rewrite !length_app, !length_groupBits, length_bitsBE, length_replicate in El.
    assert (length (rg_out s) = length d ∧ f = k) as [El1 <-] by lia. apply app_inj_1 in E as [E1 E2]; [|by rewrite !length_groupBits, El1].
    apply replicate_bits in E2; [|done]. rewrite E2. change (0 =? 0) with true. destruct (Z.ltb_spec 4 (Z.of_nat f)); [lia|]. cbn [negb orb]. rewrite andb_false_r. f_equal.
    apply (groupBits_inj 8); [lia| | |done]; apply Forall_forall; intros b _; pose proof (b2z_range b); cbn; lia.
Qed.

(** Regrouping and back. *)
Lemma convert_roundtrip data o : fiveBits o → ConvertBits data 8 5 true = Ok o ↔ ConvertBits o 5 8 false = Ok data.
Proof.
  intros Ho. destruct (convert_pad data) as (o' & k & -> & Ho' & Hk & E). rewrite convert_back. split.
  - intros [= <-]. by exists k.
  - intros (j & Hj & Ej). f_equal. apply (groupBits_inj 5); [lia|done|done|]. rewrite E, Ej. f_equal. f_equal.
    pose proof (f_equal length E) as E1. pose proof (f_equal length Ej) as E2. rewrite length_app, !length_groupBits, length_replicate in E1, E2. lia.
Qed.
Lemma convert_pad_five data o : ConvertBits data 8 5 true = Ok o → fiveBits o.
Proof. destruct (convert_pad data) as (o' & k & -> & Ho' & _). by intros [= <-]. Qed.

(** ** The checksum is linear *)
Definition genTerm (b i g : Z) : Z := if Z.testbit b i then g else 0.
Lemma land1_testbit b i : 0 <= i → (Z.land (Z.shiftr b i) 1 =? 1) = Z.testbit b i.
Proof.
  intros Hi. rewrite (Z.land_ones _ 1) by lia. rewrite Z.shiftr_div_pow2 by lia. rewrite <- Z.testbit_spec' by lia. by destruct (Z.testbit b i).
Qed.
Lemma polymodStep_terms c v : let b := Z.shiftr c 25 in
  polymodStep c v = Z.lxor (Z.lxor (Z.lxor (Z.lxor (Z.lxor (Z.lxor (Z.shiftl (Z.land c 0x1ffffff) 5) v) (genTerm b 0 0x3b6a57b2)) (genTerm b 1 0x26508e6d))
    (genTerm b 2 0x1ea119fa)) (genTerm b 3 0x3d4233dd)) (genTerm b 4 0x2a1462b3).
Proof.
  intros b. unfold polymodStep. fold b. change (imap pair gen) with [(0%nat, 0x3b6a57b2); (1%nat, 0x26508e6d); (2%nat, 0x1ea119fa); (3%nat, 0x3d4233dd); (4%nat, 0x2a1462b3)].
  cbn [foldl fst snd]. rewrite !land1_testbit by lia. unfold genTerm. change (Z.of_nat 0) with 0. change (Z.of_nat 1) with 1. change (Z.of_nat 2) with 2. change (Z.of_nat 3) with 3. change (Z.of_nat 4) with 4.
  destruct (Z.testbit b 0), (Z.testbit b 1), (Z.testbit b 2), (Z.testbit b 3), (Z.testbit b 4); by rewrite ?Z.lxor_0_r.
Qed.
Lemma genTerm_lxor a b i g : genTerm (Z.lxor a b) i g = Z.lxor (genTerm a i g) (genTerm b i g).
Proof. unfold genTerm. rewrite Z.lxor_spec. destruct (Z.testbit a i), (Z.testbit b i); cbn [xorb]; by rewrite ?Z.lxor_nilpotent, ?Z.lxor_0_r, ?Z.lxor_0_l. Qed.
Lemma polymodStep_linear c d v w : polymodStep (Z.lxor c d) (Z.lxor v w) = Z.lxor (polymodStep c v) (polymodStep d w).
Proof.
  rewrite !polymodStep_terms, Z.shiftr_lxor, !genTerm_lxor. apply Z.bits_inj'. intros n Hn. rewrite !Z.lxor_spec, !Z.shiftl_spec, !Z.land_spec, !Z.lxor_spec by done. btauto.
Qed.
Lemma polymodStep_small d w : 0 <= d < 2 ^ 25 → polymodStep d w = Z.lxor (Z.shiftl d 5) w.
Proof.
  intros Hd. rewrite polymodStep_terms. rewrite Z.shiftr_div_pow2, Z.div_small by lia. unfold genTerm. rewrite !Z.testbit_0_l, !Z.lxor_0_r.
  change 0x1ffffff with (Z.ones 25). by rewrite Z.land_ones, Z.mod_small by lia.
Qed.
Lemma lxor_range a b n : 0 <= n → 0 <= a < 2 ^ n → 0 <= b < 2 ^ n → 0 <= Z.lxor a b < 2 ^ n.
Proof.
  intros Hn Ha Hb. assert (0 <= Z.lxor a b) by (apply Z.lxor_nonneg; lia). split; [done|]. apply range_bits; [done| |done].
  intros i Hi. by rewrite Z.lxor_spec, (testbit_high a n), (testbit_high b n).
Qed.
Lemma polymodStep_range c v : 0 <= c < 2 ^ 30 → 0 <= v < 256 → 0 <= polymodStep c v < 2 ^ 30.
Proof.
  intros Hc Hv. rewrite polymodStep_terms. assert (Hg : ∀ b i g, 0 <= g < 2 ^ 30 → 0 <= genTerm b i g < 2 ^ 30) by (intros b i g Hg; unfold genTerm; destruct (Z.testbit b i); lia).
  repeat apply lxor_range; try lia; try (apply Hg; lia). change 0x1ffffff with (Z.ones 25). rewrite Z.land_ones, Z.shiftl_mul_pow2 by lia.
  pose proof (Z.mod_pos_bound c (2 ^ 25) ltac:(lia)). change (2 ^ 30) with (2 ^ 25 * 2 ^ 5). nia.
Qed.

(** Six values at the end change the register by what they spell. *)
Definition pack (d : Z) (l : list Z) : Z := foldl (λ d w, d * 32 + w) d l.
Lemma shiftl_lxor_add d w : 0 <= d → 0 <= w < 32 → Z.lxor (Z.shiftl d 5) w = d * 32 + w.
Proof.
  intros Hd Hw. rewrite <- Z.add_nocarry_lxor; [by rewrite Z.shiftl_mul_pow2|]. apply Z.bits_inj'. intros n Hn. rewrite Z.land_spec, Z.bits_0, Z.shiftl_spec by done.
  destruct (decide (n < 5)); [by rewrite Z.testbit_neg_r by lia|]. by rewrite (testbit_high w 5), andb_false_r by lia.
Qed.
Lemma polymod_tail l : ∀ c d k, Forall (λ w, 0 <= w < 32) l → 0 <= k → 0 <= d < 2 ^ (5 * k) → k + zlen l <= 6 →
  foldl polymodStep (Z.lxor c d) l = Z.lxor (foldl polymodStep c (replicate (length l) 0)) (pack d l).
Proof.
  induction l as [|w l IH]; intros c d k Hl Hk Hd Hlen; cbn [foldl replicate length pack]; [done|].
  apply Forall_cons in Hl as [Hw Hl]. unfold zlen in *. cbn [length] in Hlen.
  assert (Hd25 : 0 <= d < 2 ^ 25) by (split; [lia|]; apply (Z.lt_le_trans _ (2 ^ (5 * k))); [lia|apply Z.pow_le_mono_r; lia]).
  replace (polymodStep (Z.lxor c d) w) with (Z.lxor (polymodStep c 0) (d * 32 + w)).
  - rewrite (IH (polymodStep c 0) (d * 32 + w) (k + 1)); [done|done|lia| |lia]. replace (2 ^ (5 * (k + 1))) with (2 ^ (5 * k) * 32) by (replace (5 * (k + 1)) with (5 * k + 5) by lia; by rewrite Z.pow_add_r by lia). lia.
  - rewrite <- shiftl_lxor_add by lia. rewrite <- polymodStep_small by done. rewrite <- polymodStep_linear. by rewrite Z.lxor_0_l.
Qed.

Lemma checksumBytes_digits x : checksumBytes x = [x / 2 ^ 25 mod 32; x / 2 ^ 20 mod 32; x / 2 ^ 15 mod 32; x / 2 ^ 10 mod 32; x / 2 ^ 5 mod 32; x mod 32].
Proof.
  unfold checksumBytes. cbn [seq fmap list_fmap]. change 31 with (Z.ones 5). rewrite !Z.land_ones, !Z.shiftr_div_pow2 by lia. repeat f_equal. by rewrite Z.div_1_r.
Qed.
Lemma pack_checksum x l : 0 <= x < 2 ^ 30 → length l = 6%nat → Forall (λ w, 0 <= w < 32) l → pack 0 l = x ↔ l = checksumBytes x.
Proof.
  intros Hx Hl Hr. rewrite checksumBytes_digits. do 6 (destruct l as [|? l]; [done|]). destruct l; [|done]. rewrite !Forall_cons in Hr. unfold pack. cbn [foldl]. split.
  - intros <-. repeat f_equal; Z.to_euclidean_division_equations; lia.
  - intros [= -> -> -> -> -> ->]. Z.to_euclidean_division_equations; lia.
Qed.
Lemma foldl_polymod_range l : ∀ c, 0 <= c < 2 ^ 30 → Forall (λ w, 0 <= w < 256) l → 0 <= foldl polymodStep c l < 2 ^ 30.
Proof. induction l as [|w l IH]; intros c Hc Hl; cbn [foldl]; [done|]. apply Forall_cons in Hl as [Hw Hl]. apply IH; [by apply polymodStep_range|done]. Qed.
Lemma bytes_range (s : bytes) : Forall (λ w, 0 <= w < 256) (b2z <$> s).
Proof. apply Forall_fmap, Forall_forall. intros b _. apply b2z_range. Qed.
Lemma polymod_range hrp values : 0 <= bech32Polymod hrp values None < 2 ^ 30.
Proof.
  unfold bech32Polymod. repeat first [apply foldl_polymod_range | apply polymodStep_range]; try lia; try apply bytes_range; try (apply Forall_replicate; lia).
  all: apply Forall_fmap, Forall_forall; intros b _; pose proof (b2z_range b) as Hb; cbn.
  - rewrite Z.shiftr_div_pow2 by lia. cbn. split; [apply Z.div_pos; lia|]. apply Z.div_lt_upper_bound; lia.
  - change 31 with (Z.ones 5). rewrite Z.land_ones by lia. pose proof (Z.mod_pos_bound (b2z b) (2 ^ 5) ltac:(lia)). lia.
Qed.
Lemma lxor_cancel a b c : Z.lxor a b = c ↔ b = Z.lxor a c.
Proof. split; [intros <-|intros ->]; by rewrite <- Z.lxor_assoc, Z.lxor_nilpotent, Z.lxor_0_l. Qed.

Definition polymodPrefix (hrp values : bytes) : Z :=
  foldl polymodStep (foldl polymodStep (polymodStep (foldl polymodStep 1 ((λ c, Z.shiftr (b2z c) 5) <$> hrp)) 0) ((λ c, Z.land (b2z c) 31) <$> hrp)) (b2z <$> values).
Lemma polymod_split hrp values cs : bech32Polymod hrp values cs = foldl polymodStep (polymodPrefix hrp values) (match cs with None => replicate 6 0 | Some cs => b2z <$> cs end).
Proof. unfold bech32Polymod, polymodPrefix. cbv zeta. destruct cs; reflexivity. Qed.

(** There is one checksum for a payload and a constant. *)
Lemma polymod_checksum hrp values cs const : length cs = 6%nat → fiveBits cs → 0 <= const < 2 ^ 30 →
  bech32Polymod hrp values (Some cs) = const ↔ b2z <$> cs = checksumBytes (Z.lxor (bech32Polymod hrp values None) const).
Proof.
  intros Hl Hf Hc. assert (Hr : Forall (λ w, 0 <= w < 32) (b2z <$> cs)).
  { apply Forall_fmap. eapply Forall_impl; [exact Hf|]. intros b Hb. cbn in *. pose proof (b2z_range b). lia. }
  rewrite <- pack_checksum; [|apply lxor_range; [lia|apply polymod_range|done]|by rewrite length_fmap|done].
  rewrite !polymod_split. set (C := polymodPrefix hrp values). replace (foldl polymodStep C (b2z <$> cs)) with (foldl polymodStep (Z.lxor C 0) (b2z <$> cs)) by (by rewrite Z.lxor_0_r).
  rewrite (polymod_tail (b2z <$> cs) C 0 0); [|done|lia|cbn; lia|unfold zlen; rewrite length_fmap; lia]. rewrite length_fmap, Hl. apply lxor_cancel.
Qed.
Lemma versionConst_range v : 0 <= VersionToConsts v < 2 ^ 30.
Proof. destruct v; cbn; unfold Version0Const, VersionMConst; lia. Qed.
Lemma ConstsToVersion_spec c v : ConstsToVersion c = Some v ↔ v ≠ VersionUnknown ∧ VersionToConsts v = c.
Proof.
  unfold ConstsToVersion. destruct (Z.eqb_spec c Version0Const) as [->|H0]; [|destruct (Z.eqb_spec c VersionMConst) as [->|HM]].
  - split; [by intros [= <-]|]. intros [Hv E]. destruct v; [done|by cbn in E|done].
  - split; [by intros [= <-]|]. intros [Hv E]. destruct v; [by cbn in E|done|done].
  - split; [done|]. intros [Hv E]. destruct v; cbn in E; congruence.
Qed.
Lemma verify_checksum hrp values cs v : length cs = 6%nat → fiveBits cs →
  bech32VerifyChecksum hrp (values ++ cs) = Ok (v, true) ↔ v ≠ VersionUnknown ∧ b2z <$> cs = checksumBytes (Z.lxor (bech32Polymod hrp values None) (VersionToConsts v)).
Proof.
  intros Hl Hf. unfold bech32VerifyChecksum. rewrite length_app, Hl. destruct (Nat.ltb_spec (length values + 6) 6); [lia|].
  replace (length values + 6 - 6)%nat with (length values) by lia. rewrite drop_app_length, take_app_length.
  rewrite <- (polymod_checksum hrp values cs (VersionToConsts v) Hl Hf (versionConst_range v)).
  destruct (ConstsToVersion (bech32Polymod hrp values (Some cs))) as [v'|] eqn:Ev.
  - apply ConstsToVersion_spec in Ev as [Hv' Ev]. split; [intros [= ->]; done|]. intros [Hv E]. rewrite <- Ev in E. destruct v, v'; by cbn in E.
  - split; [done|]. intros Hv. assert (ConstsToVersion (bech32Polymod hrp values (Some cs)) = Some v) by (apply ConstsToVersion_spec; split; [apply Hv|symmetry; apply Hv]). congruence.
Qed.

(** ** Characters *)
Lemma IndexByte_Some s c i : IndexByte s c = Some i → s !! i = Some c.
Proof.
  revert i. induction s as [|x s IH]; intros i; cbn; [done|]. case_bool_decide as E; [intros [= <-]; by subst|]. destruct (IndexByte s c) as [j|]; [|done]. cbn. intros [= <-]. by apply IH.
Qed.
Definition charOk (i : nat) : bool :=
  let c := charsetAt (Z.of_nat i) in
  bool_decide (IndexByte charset c = Some i) && negb (isUpper c) && negb (bool_decide (c = x31)) && (33 <=? b2z c) && (b2z c <=? 126).
Lemma charset_ok i : (i < 32)%nat → charOk i = true.
Proof. intros Hi. assert (Hall : forallb charOk (seq 0 32) = true) by (vm_compute; reflexivity). rewrite forallb_forall in Hall. apply Hall, in_seq. lia. Qed.
Definition chars (l : list Z) : bytes := charsetAt <$> l.
Lemma charsetAt_index b : 0 <= b < 32 → IndexByte charset (charsetAt b) = Some (Z.to_nat b).
Proof.
  intros Hb. pose proof (charset_ok (Z.to_nat b) ltac:(lia)) as H. unfold charOk in H. rewrite Z2Nat.id in H by lia. rewrite !andb_true_iff in H. destruct H as [[[[H _] _] _] _]. by apply bool_decide_eq_true in H.
Qed.
Lemma charset_index c i : IndexByte charset c = Some i → (i < 32)%nat ∧ charsetAt (Z.of_nat i) = c.
Proof.
  intros Hi%IndexByte_Some. split; [by apply lookup_lt_Some in Hi|]. unfold charsetAt. rewrite Nat2Z.id. by apply nth_lookup_Some.
Qed.
Lemma chars_facts l : Forall (λ w, 0 <= w < 32) l → ToLower (chars l) = chars l ∧ x31 ∉ chars l.
Proof.
  induction 1 as [|w l Hw Hl [IH1 IH2]]; [split; [done|by apply not_elem_of_nil]|]. change (chars (w :: l)) with (charsetAt w :: chars l). change (ToLower (charsetAt w :: chars l)) with (lowerByte (charsetAt w) :: ToLower (chars l)).
  pose proof (charset_ok (Z.to_nat w) ltac:(lia)) as H. unfold charOk in H. rewrite Z2Nat.id in H by lia.
  rewrite !andb_true_iff, !negb_true_iff in H. destruct H as [[[[_ Hu] H1] _] _]. apply bool_decide_eq_false in H1. split.
  - f_equal; [unfold lowerByte; by rewrite Hu|exact IH1].
  - apply not_elem_of_cons. split; [congruence|exact IH2].
Qed.
Lemma fiveBits_range l : fiveBits l → Forall (λ w, 0 <= w < 32) (b2z <$> l).
Proof. intros Hf. apply Forall_fmap. eapply Forall_impl; [exact Hf|]. intros b Hb. cbn in *. pose proof (b2z_range b). lia. Qed.
Lemma chars_cons b d : chars (b2z <$> b :: d) = charsetAt (b2z b) :: chars (b2z <$> d).
Proof. reflexivity. Qed.
Lemma toBytes_iff s d : toBytes s = Ok d ↔ fiveBits d ∧ s = chars (b2z <$> d).
Proof.
  revert d. induction s as [|c s IH]; intros d; cbn [toBytes].
  - split; [by intros [= <-]|]. intros [_ E]. by destruct d.
  - destruct (IndexByte charset c) as [i|] eqn:Ei.
    + apply charset_index in Ei as [Hi Ec]. assert (Hz : b2z (z2b (Z.of_nat i)) = Z.of_nat i) by (rewrite b2z_z2b; apply Z.mod_small; lia). split.
      * destruct (toBytes s) as [d'|e]; cbn [res_bind]; [|done]. intros [= <-]. destruct (proj1 (IH d') eq_refl) as [Hf ->]. split; [constructor; [rewrite Hz; lia|done]|]. by rewrite chars_cons, Hz, Ec.
      * intros [Hf E]. destruct d as [|b d]; [done|]. rewrite chars_cons in E. injection E as Ec' Es. apply Forall_cons in Hf as [Hb Hf]. rewrite (proj2 (IH d)) by done. cbn [res_bind]. do 2 f_equal.
        apply b2z_inj. rewrite Hz. pose proof (b2z_range b). pose proof (charsetAt_index (b2z b) ltac:(lia)) as Hx. rewrite <- Ec', <- Ec, charsetAt_index in Hx by lia. injection Hx. lia.
    + split; [done|]. intros [Hf E]. destruct d as [|b d]; [done|]. rewrite chars_cons in E. injection E as Ec' Es. apply Forall_cons in Hf as [Hb Hf]. pose proof (b2z_range b).
      rewrite Ec', charsetAt_index in Ei by lia. done.
Qed.
Lemma writeData_iff data : ∀ bldr r, writeData data bldr = Ok r ↔ fiveBits data ∧ r = bldr ++ chars (b2z <$> data).
Proof.
  induction data as [|b data IH]; intros bldr r; cbn [writeData].
  - cbn. rewrite (right_id_L [] app). split; [by intros [= <-]|by intros [_ ->]].
  - change (zlen charset) with 32. destruct (Z.leb_spec 32 (b2z b)).
    + split; [done|]. intros [Hf _]. apply Forall_cons in Hf as [Hb _]. lia.
    + rewrite IH, Forall_cons, <- (assoc_L app), chars_cons. cbn [app]. naive_solver.
Qed.

(** ** Case *)
Definition printable (s : bytes) : Prop := Forall (λ c, 33 <= b2z c <= 126) s.
Definition oneCase (s : bytes) : Prop := existsb isLower s && existsb isUpper s = false.
Lemma scanCase_iff s : ∀ l u h, l && u = false →
  scanCase s l u = Ok h ↔ printable s ∧ (l || existsb isLower s) && (u || existsb isUpper s) = false ∧ h = u || existsb isUpper s.
Proof.
  induction s as [|c s IH]; intros l u h Hlu; cbn [scanCase existsb].
  - rewrite !orb_false_r. split; [intros [= <-]; split_and!; [constructor|done|done]|by intros (_ & _ & ->)].
  - destruct (Z.ltb_spec (b2z c) 33); cbn [orb]; [split; [done|]; intros [Hp _]; apply Forall_cons in Hp as [Hp _]; lia|].
    destruct (Z.ltb_spec 126 (b2z c)); cbn [orb]; [split; [done|]; intros [Hp _]; apply Forall_cons in Hp as [Hp _]; lia|].
    destruct ((l || isLower c) && (u || isUpper c)) eqn:Eb.
    + split; [done|]. intros (_ & E & _). apply andb_true_iff in Eb as [E1 E2]. rewrite !orb_assoc, E1, E2 in E. done.
    + rewrite (IH _ _ _ Eb), !orb_assoc. unfold printable. rewrite Forall_cons. naive_solver lia.
Qed.
Lemma ToLower_noUpper s : existsb isUpper s = false → ToLower s = s.
Proof.
  induction s as [|c s IH]; cbn; [done|]. intros [E1 E2]%orb_false_iff. unfold lowerByte. rewrite E1. f_equal. by apply IH.
Qed.
Lemma lowerByte_idem c : lowerByte (lowerByte c) = lowerByte c.
Proof. destruct c; reflexivity. Qed.
Lemma ToLower_idem s : ToLower (ToLower s) = ToLower s.
Proof. unfold ToLower. rewrite <- list_fmap_compose. apply list_fmap_ext. intros i c _. apply lowerByte_idem. Qed.
Lemma LastIndexByte_app a c b : c ∉ b → LastIndexByte (a ++ c :: b) c = Some (length a).
Proof.
  intros Hb. assert (Hn : LastIndexByte b c = None).
  { induction b as [|x b IH]; cbn; [done|]. apply not_elem_of_cons in Hb as [Hx Hb]. rewrite IH by done. by rewrite bool_decide_eq_false_2. }
  induction a as [|x a IH]; cbn; [rewrite Hn, bool_decide_eq_true_2 by done; done|by rewrite IH].
Qed.
Lemma LastIndexByte_Some s c i : LastIndexByte s c = Some i → ∃ a b, s = a ++ c :: b ∧ length a = i ∧ c ∉ b.
Proof.
  assert (Hnone : ∀ s, LastIndexByte s c = None → c ∉ s).
  { clear s i. induction s as [|x s IH]; cbn; [intros _; apply not_elem_of_nil|]. destruct (LastIndexByte s c); [done|]. case_bool_decide; [done|]. intros _. apply not_elem_of_cons. split; [congruence|by apply IH]. }
  revert i. induction s as [|x s IH]; intros i; cbn; [done|]. destruct (LastIndexByte s c) as [j|] eqn:E.
  - intros [= <-]. destruct (IH j eq_refl) as (a & b & -> & <- & Hb). by exists (x :: a), b.
  - case_bool_decide as Ex; [|done]. intros [= <-]. subst. exists [], s. split_and!; [done|done|by apply Hnone].
Qed.

(** ** Decoding accepts exactly the encodings *)
Definition encoding (hrp data : bytes) (v : Version) : bytes :=
  hrp ++ x31 :: chars (b2z <$> data) ++ chars (checksumBytes (Z.lxor (bech32Polymod hrp data None) (VersionToConsts v))).
Lemma encodeGeneric_iff hrp data v r : encodeGeneric hrp data v = Ok r ↔ fiveBits data ∧ r = encoding (ToLower hrp) data v.
Proof.
  unfold encodeGeneric, encoding. destruct (writeData data (ToLower hrp ++ [x31])) as [b|e] eqn:E; cbn [res_bind].
  - apply writeData_iff in E as [Hf ->]. unfold writeBech32Checksum, chars. cbv zeta. generalize (checksumBytes (Z.lxor (bech32Polymod (ToLower hrp) data None) (VersionToConsts v))) as cs. intros cs.
    rewrite <- !(assoc_L app). split; [intros [= <-]; by split|by intros [_ ->]].
  - split; [done|]. intros [Hf _]. assert (writeData data (ToLower hrp ++ [x31]) = Ok ((ToLower hrp ++ [x31]) ++ chars (b2z <$> data))) by (by apply writeData_iff). congruence.
Qed.
Lemma checksumBytes_range x : Forall (λ w, 0 <= w < 32) (checksumBytes x).
Proof. rewrite checksumBytes_digits. repeat constructor; apply Z.mod_pos_bound; lia. Qed.
(** The register as bytes. *)
Lemma checksum_as_bytes x : ∃ cs, length cs = 6%nat ∧ fiveBits cs ∧ b2z <$> cs = checksumBytes x.
Proof.
  exists (z2b <$> checksumBytes x). split; [done|]. pose proof (checksumBytes_range x) as Hr. split.
  - apply Forall_fmap. eapply Forall_impl; [exact Hr|]. intros w Hw. unfold compose. cbv beta in *. rewrite b2z_z2b, Z.mod_small; lia.
  - rewrite <- list_fmap_compose. rewrite <- (list_fmap_id (checksumBytes x)) at 2. apply list_fmap_ext. intros i w Hi. unfold compose. rewrite b2z_z2b. apply Z.mod_small.
    rewrite Forall_lookup in Hr. pose proof (Hr i w Hi). unfold id. cbv beta in *. lia.
Qed.

(** The body of the decoder, after the scan and the lower-casing. *)
Lemma split_last6 (d : bytes) : (6 <= length d)%nat → ∃ cs, d = take (length d - 6) d ++ cs ∧ length cs = 6%nat.
Proof. intros Hd. exists (drop (length d - 6) d). rewrite take_drop, length_drop. split; [done|lia]. Qed.
Lemma decode_iff s hrp data v : DecodeNoLimitWithVersion s = Ok (hrp, data, v) ↔
  hrp ≠ [] ∧ ToLower hrp = hrp ∧ v ≠ VersionUnknown ∧ printable s ∧ oneCase s ∧ encodeGeneric hrp data v = Ok (ToLower s).
Proof.
  unfold DecodeNoLimitWithVersion. assert (Hlen : zlen (ToLower s) = zlen s) by (unfold zlen, ToLower; by rewrite length_fmap).
  split.
  - destruct (Z.ltb_spec (zlen s) 8); [done|]. destruct (scanCase s false false) as [up|e] eqn:Es; cbn [res_bind]; [|done].
    apply scanCase_iff in Es as (Hp & Hc & Hu); [|done]. cbn [orb] in Hc, Hu. assert ((if up then ToLower s else s) = ToLower s) as -> by (destruct up; [done|]; by rewrite ToLower_noUpper).
    destruct (LastIndexByte (ToLower s) x31) as [i|] eqn:Ei; [|done]. apply LastIndexByte_Some in Ei as (a & b & Eab & <- & H1). rewrite Eab, Nat2Z.id.
    destruct (Z.ltb_spec (Z.of_nat (length a)) 1) as [|Ha1]; [done|]. cbn [orb]. destruct (Z.ltb_spec (zlen (a ++ x31 :: b)) (Z.of_nat (length a) + 7)) as [|Hb]; [done|].
    unfold zlen in Hb. rewrite length_app in Hb. cbn [length] in Hb. rewrite take_app_length, (drop_app_ge a) by lia. replace (S (length a) - length a)%nat with 1%nat by lia. cbn [drop].
    rewrite drop_0. destruct (toBytes b) as [d|e] eqn:Ed; cbn [res_bind]; [|done]. apply toBytes_iff in Ed as [Hf Eb].
    assert (Hld : (6 <= length d)%nat) by (apply (f_equal length) in Eb; unfold chars in Eb; rewrite !length_fmap in Eb; lia).
    destruct (split_last6 d Hld) as (cs & Edc & Hcs). set (vals := take (length d - 6) d) in *. rewrite Edc in Hf. apply Forall_app in Hf as [Hfv Hfc].
    rewrite Edc at 1. destruct (bech32VerifyChecksum a (vals ++ cs)) as [[v' ok]|e] eqn:Ev; cbn [res_bind]; [|done]. destruct ok; cbn [negb]; [|done]. intros [= <- <- <-].
    apply verify_checksum in Ev as [Hv Ecs]; [|done|done]. assert (Ha : ToLower a = a).
    { pose proof (ToLower_idem s) as Hi. rewrite Eab in Hi. unfold ToLower in Hi. rewrite fmap_app in Hi. apply app_inj_1 in Hi as [Hi _]; [exact Hi|by rewrite length_fmap]. }
    split; [intros E0; rewrite E0 in Ha1; cbn [length] in Ha1; lia|]. do 4 (split; [assumption|]). apply encodeGeneric_iff. split; [done|]. rewrite Ha. unfold encoding. rewrite <- Ecs, Eb, Edc, fmap_app. unfold chars. rewrite fmap_app. reflexivity.
  - intros (Hh & Hl & Hv & Hp & Hc & [Hf E]%encodeGeneric_iff). rewrite Hl in E. unfold encoding in E. set (x := Z.lxor _ _) in E.
    destruct (checksum_as_bytes x) as (cs & Hcs & Hfc & Ecs). rewrite <- Ecs in E. assert (Echars : chars (b2z <$> data) ++ chars (b2z <$> cs) = chars (b2z <$> data ++ cs)) by (unfold chars; by rewrite !fmap_app).
    rewrite Echars in E. assert (Hfall : fiveBits (data ++ cs)) by (by apply Forall_app). assert (Hlc : length (chars (b2z <$> data ++ cs)) = (length data + 6)%nat) by (unfold chars; rewrite !length_fmap, length_app; lia).
    assert (Hlh : (1 <= length hrp)%nat) by (destruct hrp; [done|cbn; lia]).
    assert (Hls : zlen s = Z.of_nat (length hrp + S (length data + 6))) by (rewrite <- Hlen, E; unfold zlen; rewrite length_app; cbn [length]; by rewrite Hlc).
    destruct (Z.ltb_spec (zlen s) 8); [lia|]. rewrite (proj2 (scanCase_iff s false false (existsb isUpper s) eq_refl)) by (by split_and!). cbn [res_bind].
    assert ((if existsb isUpper s then ToLower s else s) = ToLower s) as -> by (destruct (existsb isUpper s) eqn:Eu; [done|]; by rewrite ToLower_noUpper).
    rewrite Hlen, E, LastIndexByte_app by (apply chars_facts; by apply fiveBits_range). destruct (Z.ltb_spec (Z.of_nat (length hrp)) 1); [lia|]. cbn [orb].
    destruct (Z.ltb_spec (zlen s) (Z.of_nat (length hrp) + 7)); [lia|]. rewrite Nat2Z.id, take_app_length, (drop_app_ge hrp) by lia. replace (S (length hrp) - length hrp)%nat with 1%nat by lia.
    cbn [drop]. rewrite drop_0, (proj2 (toBytes_iff _ (data ++ cs))) by done. cbn [res_bind]. rewrite (proj2 (verify_checksum hrp data cs v Hcs Hfc)) by done. cbn [res_bind negb].
    rewrite length_app, Hcs. replace (length data + 6 - 6)%nat with (length data) by lia. by rewrite take_app_length.
Qed.

(** The error for a wrong checksum reports as the bech32m checksum both checksums,
    one after the other. *)
Lemma checksum_error_doubled :
  DecodeNoLimitWithVersion (list_byte_of_string "A1LQFN3Q")
  = Err (ErrInvalidChecksum (list_byte_of_string "2uel5l") (list_byte_of_string "2uel5llqfn3a") (list_byte_of_string "lqfn3q")).
Proof. vm_compute. reflexivity. Qed.
