(* ===== verification/Address.v ===== *)
(** * Addresses (src/node/btcutil/address.go, src/node/chaincfg/params.go,
      src/node/txscript/standard.go)

    An address is the bech32m string of a witness version and program under the
    prefix of a registered network.  Decoding accepts exactly the encodings of the
    addresses of registered networks; an address and the script that pays to it
    determine each other. *)
From Stdlib Require Import ZArith Lia Strings.Byte Strings.String.
From stdpp Require Import base gmap list.
From S2P Require Import Prelude WireTx Script ScriptBuilder Chaincfg Bech32 Bech32Thms.
Open Scope Z_scope.
Open Scope list_scope.

(** ** Registered networks *)
Inductive netError := ErrDuplicateNet | ErrInvalidHDKeyID | ErrUnknownHDKeyID.
Record netRegistry := mkRegistry {
  registeredNets : gset Z;
  bech32SegwitPrefixes : gset bytes;
  hdPrivToPubKeyIDs : gmap bytes bytes }.
Definition hrpOf (params : Params) : bytes := list_byte_of_string (Bech32HRPSegwit params).
Definition RegisterHDKeyID (r : netRegistry) (hdPublicKeyID hdPrivateKeyID : bytes) : res netError netRegistry :=
  if negb (length hdPublicKeyID =? 4)%nat || negb (length hdPrivateKeyID =? 4)%nat then Err ErrInvalidHDKeyID
  else Ok (mkRegistry (registeredNets r) (bech32SegwitPrefixes r) (<[hdPrivateKeyID := hdPublicKeyID]> (hdPrivToPubKeyIDs r))).
Definition Register (r : netRegistry) (params : Params) : res netError netRegistry :=
  if bool_decide (Net params ∈ registeredNets r) then Err ErrDuplicateNet else
  let r := mkRegistry ({[Net params]} ∪ registeredNets r) (bech32SegwitPrefixes r) (hdPrivToPubKeyIDs r) in
  let? r := RegisterHDKeyID r (be_encode 4 (HDPublicKeyID params)) (be_encode 4 (HDPrivateKeyID params)) in
  Ok (mkRegistry (registeredNets r) ({[hrpOf params ++ [x31]]} ∪ bech32SegwitPrefixes r) (hdPrivToPubKeyIDs r)).
(** [init]: an error is a panic. *)
Definition registerDefaults : res netError netRegistry :=
  res_foldl Register (mkRegistry ∅ ∅ ∅) [MainNetParams; TestNetParams; TestNet2Params; RegressionNetParams; SimNetParams].
Definition IsBech32SegwitPrefix (r : netRegistry) (prefix : bytes) : bool := bool_decide (ToLower prefix ∈ bech32SegwitPrefixes r).
Definition HDPrivateKeyToPublicKeyID (r : netRegistry) (id : bytes) : res netError bytes :=
  if negb (length id =? 4)%nat then Err ErrUnknownHDKeyID else
  match hdPrivToPubKeyIDs r !! id with Some pubBytes => Ok pubBytes | None => Err ErrUnknownHDKeyID end.

(** ** Witness programs as strings *)
Inductive addrError :=
| BechErr (e : bechError)
| UnsupportedVersion (v : Z)
| NoWitnessVersion
| NotBech32m (v : Z)
| InvalidDataLength
| InvalidSegwitAddress
| BadProgramLength (v : Z)
| UnsupportedAddress.
Definition bech {A} (r : res bechError A) : res addrError A := match r with Ok a => Ok a | Err e => Err (BechErr e) end.

Definition decodeSegWitAddress (address : bytes) : res addrError (Z * bytes) :=
  let? r := bech (DecodeGeneric address) in
  let '(_, data, bech32version) := r in
  match data with
  | [] => Err NoWitnessVersion
  | v :: rest =>
      let version := b2z v in
      if (version =? 0) || (16 <? version) then Err (UnsupportedVersion version) else
      match bech32version with
      | VersionM =>
          let? regrouped := bech (ConvertBits rest 5 8 false) in
          if (zlen regrouped <? 2) || (40 <? zlen regrouped) then Err InvalidDataLength else Ok (version, regrouped)
      | _ => Err (NotBech32m version)
      end
  end.
Definition encodeSegWitAddress (hrp : bytes) (witnessVersion : Z) (witnessProgram : bytes) : res addrError bytes :=
  if (witnessVersion <? 1) || (16 <? witnessVersion) then Err (UnsupportedVersion witnessVersion) else
  let? converted := bech (ConvertBits witnessProgram 8 5 true) in
  let combined := z2b witnessVersion :: converted in
  let? s := bech (EncodeM hrp combined) in
  let? vp := decodeSegWitAddress s in
  if negb (vp.1 =? witnessVersion) || negb (bool_decide (vp.2 = witnessProgram)) then Err InvalidSegwitAddress else Ok s.

(** ** Addresses *)
Record address := mkAddress { a_hrp : bytes; a_witnessVersion : Z; a_witnessProgram : bytes }.
Inductive Address := AddressTaproot (a : address) | AddressMerkleRoot (a : address).
Definition base (a : Address) : address := match a with AddressTaproot a | AddressMerkleRoot a => a end.

(** The empty string on an error. *)
Definition EncodeAddress (a : Address) : bytes :=
  match encodeSegWitAddress (a_hrp (base a)) (a_witnessVersion (base a)) (a_witnessProgram (base a)) with Ok s => s | Err _ => [] end.
Definition IsForNet (a : Address) (net : Params) : bool := bool_decide (a_hrp (base a) = hrpOf net).
Definition ScriptAddress (a : Address) : bytes := a_witnessProgram (base a).

Definition newAddress (hrp : bytes) (version : Z) (witnessProg : bytes) : res addrError address :=
  if negb (zlen witnessProg =? 32) then Err (BadProgramLength version) else Ok (mkAddress (ToLower hrp) version witnessProg).
Definition newAddressTaproot (hrp witnessProg : bytes) : res addrError Address :=
  let? a := newAddress hrp 1 witnessProg in Ok (AddressTaproot a).
Definition newAddressMerkleRoot (hrp witnessProg : bytes) : res addrError Address :=
  let? a := newAddress hrp 2 witnessProg in Ok (AddressMerkleRoot a).
Definition NewAddressTaproot (witnessProg : bytes) (net : Params) : res addrError Address := newAddressTaproot (hrpOf net) witnessProg.
Definition NewAddressMerkleRoot (witnessProg : bytes) (net : Params) : res addrError Address := newAddressMerkleRoot (hrpOf net) witnessProg.

Definition DecodeAddress (r : netRegistry) (addr : bytes) : res addrError Address :=
  let oneIndex := match LastIndexByte addr x31 with Some i => Z.of_nat i | None => -1 end in
  if 1 <? oneIndex then
    let prefix := take (Z.to_nat (oneIndex + 1)) addr in
    if IsBech32SegwitPrefix r prefix then
      let? vp := decodeSegWitAddress addr in
      let '(witnessVer, witnessProg) := vp in
      let hrp := take (length prefix - 1) prefix in
      if witnessVer =? 1 then newAddressTaproot hrp witnessProg
      else if witnessVer =? 2 then newAddressMerkleRoot hrp witnessProg
      else Err (UnsupportedVersion witnessVer)
    else Err UnsupportedAddress
  else Err UnsupportedAddress.

(** ** Addresses and scripts *)
Inductive scriptError := ErrUnsupportedAddress | ErrTooMuchNullData | ErrBuilder.
Definition buildOr (b : ScriptBuilder) : res scriptError bytes := match Build b with Some s => Ok s | None => Err ErrBuilder end.
Definition payToWitnessTaprootScript (rawKey : bytes) : res scriptError bytes := buildOr (AddData (AddOp NewScriptBuilder (z2b OP_1)) rawKey).
Definition payToMerkleRootScript (merkleRoot : bytes) : res scriptError bytes := buildOr (AddData (AddOp NewScriptBuilder (z2b OP_2)) merkleRoot).
(** [None]: a nil address. *)
Definition PayToAddrScript (addr : option Address) : res scriptError bytes :=
  match addr with
  | Some (AddressTaproot a) => payToWitnessTaprootScript (a_witnessProgram a)
  | Some (AddressMerkleRoot a) => payToMerkleRootScript (a_witnessProgram a)
  | None => Err ErrUnsupportedAddress
  end.
Definition MaxDataCarrierSize : Z := 80.
Definition NullDataScript (data : bytes) : res scriptError bytes :=
  if MaxDataCarrierSize <? zlen data then Err ErrTooMuchNullData
  else buildOr (AddData (AddOp NewScriptBuilder (z2b OP_RETURN)) data).
(** The class, the addresses and the number of signatures. *)
Definition ExtractPkScriptAddrs (pkScript : bytes) (chainParams : Params) : ScriptClass * list Address * Z * option addrError :=
  if isNullDataScript pkScript then (NullDataTy, [], 0, None) else
  match extractWitnessV1KeyBytes pkScript with
  | Some rawKey =>
      match NewAddressTaproot rawKey chainParams with
      | Err e => (NonStandardTy, [], 0, Some e)
      | Ok addr => (WitnessV1TaprootTy, [addr], 1, None)
      end
  | None =>
      match extractWitnessV2MerkleRootBytes pkScript with
      | Some rawRoot =>
          match NewAddressMerkleRoot rawRoot chainParams with
          | Err e => (NonStandardTy, [], 0, Some e)
          | Ok addr => (WitnessV2MerkleRootTy, [addr], 1, None)
          end
      | None => (NonStandardTy, [], 0, None)
      end
  end.

(** ** Strings of witness programs *)
Lemma existsb_ToLower s : existsb isUpper (ToLower s) = false.
Proof. induction s as [|c s IH]; [done|]. change (isUpper (lowerByte c) || existsb isUpper (ToLower s) = false). rewrite IH, orb_false_r. by destruct c. Qed.
Lemma printable_ToLower s : printable s → printable (ToLower s).
Proof.
  intros Hp. apply Forall_fmap. eapply Forall_impl; [exact Hp|]. intros c Hc. unfold compose, lowerByte, isUpper. cbv beta in *.
  destruct (Z.leb_spec 65 (b2z c)), (Z.leb_spec (b2z c) 90); cbn [andb]; try lia. rewrite b2z_z2b, Z.mod_small; lia.
Qed.
Lemma oneCase_ToLower s : oneCase (ToLower s).
Proof. unfold oneCase. by rewrite existsb_ToLower, andb_false_r. Qed.
Lemma length_ToLower s : length (ToLower s) = length s.
Proof. apply length_fmap. Qed.

(** What a string says: the version and program it encodes under [hrp]. *)
Definition segwitString (hrp : bytes) (version : Z) (prog s : bytes) : Prop :=
  ∃ conv, ConvertBits prog 8 5 true = Ok conv ∧ EncodeM hrp (z2b version :: conv) = Ok s.
Definition segwitOk (hrp : bytes) (version : Z) (prog s : bytes) : Prop :=
  zlen s <= 90 ∧ hrp ≠ [] ∧ ToLower hrp = hrp ∧ printable s ∧ oneCase s ∧ 1 <= version <= 16 ∧ 2 <= zlen prog <= 40.
Lemma decodeSegWit_iff s version prog : decodeSegWitAddress s = Ok (version, prog) ↔
  ∃ hrp, segwitOk hrp version prog s ∧ segwitString hrp version prog (ToLower s).
Proof.
  unfold decodeSegWitAddress, DecodeGeneric, segwitOk. split.
  - destruct (Z.ltb_spec 90 (zlen s)) as [|Hlen]; [done|]. destruct (DecodeNoLimitWithVersion s) as [[[hrp data] bv]|e] eqn:Ed; cbn [bech res_bind]; [|done].
    apply decode_iff in Ed as (H1 & H2 & H3 & H4 & H5 & H6). destruct data as [|v rest]; [done|]. pose proof (b2z_range v).
    destruct (Z.eqb_spec (b2z v) 0); cbn [orb]; [done|]. destruct (Z.ltb_spec 16 (b2z v)); cbn [orb]; [done|]. destruct bv; [done| |done].
    destruct (ConvertBits rest 5 8 false) as [p|e] eqn:Ec; cbn [bech res_bind]; [|done]. destruct (Z.ltb_spec (zlen p) 2); cbn [orb]; [done|]. destruct (Z.ltb_spec 40 (zlen p)); cbn [orb]; [done|].
    intros [= <- <-]. exists hrp. split; [repeat split; done || lia|]. exists rest. rewrite z2b_b2z. split; [|exact H6].
    apply convert_roundtrip; [|exact Ec]. apply encodeGeneric_iff in H6 as [H6 _]. by apply Forall_cons in H6 as [_ H6].
  - intros (hrp & (H1 & H2 & H3 & H4 & H5 & H6 & H7) & conv & Ec & Ee). destruct (Z.ltb_spec 90 (zlen s)); [lia|].
    assert (Hd : DecodeNoLimitWithVersion s = Ok (hrp, z2b version :: conv, VersionM)) by (apply decode_iff; split_and!; try assumption; discriminate).
    rewrite Hd. cbn [bech res_bind]. assert (Hv : b2z (z2b version) = version) by (rewrite b2z_z2b; apply Z.mod_small; lia). rewrite Hv.
    destruct (Z.eqb_spec version 0); [lia|]. destruct (Z.ltb_spec 16 version); [lia|]. cbn [orb].
    rewrite (proj1 (convert_roundtrip prog conv (convert_pad_five prog conv Ec)) Ec). cbn [bech res_bind]. destruct (Z.ltb_spec (zlen prog) 2); [lia|]. destruct (Z.ltb_spec 40 (zlen prog)); [lia|]. done.
Qed.
Lemma encodeSegWit_iff hrp version prog s : ToLower hrp = hrp → encodeSegWitAddress hrp version prog = Ok s ↔
  segwitOk hrp version prog s ∧ segwitString hrp version prog s ∧ ToLower s = s.
Proof.
  intros Hl. unfold encodeSegWitAddress. split.
  - destruct (Z.ltb_spec version 1); cbn [orb]; [done|]. destruct (Z.ltb_spec 16 version); cbn [orb]; [done|].
    destruct (ConvertBits prog 8 5 true) as [conv|e] eqn:Ec; cbn [bech res_bind]; [|done]. destruct (EncodeM hrp (z2b version :: conv)) as [s'|e] eqn:Ee; cbn [bech res_bind]; [|done].
    destruct (decodeSegWitAddress s') as [[v p]|e] eqn:Ed; cbn [res_bind fst snd]; [|done]. destruct (Z.eqb_spec v version) as [->|]; cbn [negb orb]; [|done].
    case_bool_decide as Ep; cbn [negb]; [|done]. subst p. intros [= ->]. apply decodeSegWit_iff in Ed as (hrp' & Hok & conv' & Ec' & Ee').
    rewrite Ec in Ec'. injection Ec' as <-. pose proof Ee as Ee0. apply encodeGeneric_iff in Ee as [_ Es], Ee' as [_ Es']. rewrite Hl in Es.
    destruct Hok as (H1 & H2 & H3 & H4 & H5 & H6 & H7). rewrite H3 in Es'.
    assert (Hs : ToLower s = s).
    { rewrite Es. unfold encoding, ToLower. rewrite fmap_app. fold (ToLower hrp). rewrite Hl. f_equal. rewrite fmap_cons, fmap_app. change (lowerByte x31) with x31. f_equal.
      f_equal; apply chars_facts; [|apply checksumBytes_range]. apply fiveBits_range. apply encodeGeneric_iff in Ee0 as [Hf _]. exact Hf. }
    split; [|split; [by exists conv|exact Hs]]. repeat split; try assumption; try lia.
    intros ->. rewrite Hs in Es'. rewrite Es in Es'. unfold encoding in Es'.
    assert (Hlast : ∀ h d, fiveBits d → LastIndexByte (h ++ x31 :: chars (b2z <$> d) ++ chars (checksumBytes (Z.lxor (bech32Polymod h d None) (VersionToConsts VersionM)))) x31 = Some (length h)).
    { intros h d Hf. apply LastIndexByte_app. rewrite not_elem_of_app. split; apply chars_facts; [by apply fiveBits_range|apply checksumBytes_range]. }
    apply encodeGeneric_iff in Ee0 as [Hf _]. pose proof (Hlast [] _ Hf) as L1. rewrite Es', (Hlast hrp' _ Hf) in L1. injection L1 as L1. by destruct hrp'.
  - intros ((H1 & H2 & _ & H4 & H5 & H6 & H7) & (conv & Ec & Ee) & Hs). destruct (Z.ltb_spec version 1); [lia|]. destruct (Z.ltb_spec 16 version); [lia|]. cbn [orb].
    rewrite Ec. cbn [bech res_bind]. rewrite Ee. cbn [bech res_bind].
    rewrite (proj2 (decodeSegWit_iff s version prog)) by (exists hrp; split; [repeat split; assumption || lia|exists conv; by rewrite Hs]). cbn [res_bind fst snd].
    rewrite Z.eqb_refl, bool_decide_eq_true_2 by done. done.
Qed.

Lemma lowerByte_one c : lowerByte c = x31 ↔ c = x31.
Proof. destruct c; cbv; split; intros E; first [exact E | discriminate E | reflexivity]. Qed.
Lemma LastIndexByte_ToLower s : LastIndexByte (ToLower s) x31 = LastIndexByte s x31.
Proof.
  induction s as [|c s IH]; [done|]. cbn [ToLower fmap list_fmap LastIndexByte]. fold (ToLower s). rewrite IH. destruct (LastIndexByte s x31); [done|]. f_equal.
  by rewrite (bool_decide_ext _ _ (lowerByte_one c)).
Qed.
Lemma segwit_prefix hrp version prog s : ToLower hrp = hrp → segwitString hrp version prog s → LastIndexByte s x31 = Some (length hrp) ∧ take (length hrp) s = hrp.
Proof.
  intros Hl (conv & _ & [Hf ->]%encodeGeneric_iff). rewrite Hl. unfold encoding. split; [|apply take_app_length].
  apply LastIndexByte_app. rewrite not_elem_of_app. split; apply chars_facts; [by apply fiveBits_range|apply checksumBytes_range].
Qed.
Lemma take_prefix s i : LastIndexByte s x31 = Some i → take (S i) s = take i s ++ [x31].
Proof. intros (a & b & -> & <- & _)%LastIndexByte_Some. rewrite take_app_length, take_app_ge by lia. replace (S (length a) - length a)%nat with 1%nat by lia. done. Qed.

(** ** Decoding and encoding addresses *)
Definition kind (a : Address) : Z := match a with AddressTaproot _ => 1 | AddressMerkleRoot _ => 2 end.
(** An address of a registered network. *)
Record wfAddress (r : netRegistry) (a : Address) : Prop := {
  wa_hrp : 2 <= zlen (a_hrp (base a)) ∧ ToLower (a_hrp (base a)) = a_hrp (base a);
  wa_net : a_hrp (base a) ++ [x31] ∈ bech32SegwitPrefixes r;
  wa_version : a_witnessVersion (base a) = kind a;
  wa_program : zlen (a_witnessProgram (base a)) = 32 }.

(** The constructors by version. *)
Lemma newAddress_iff hrp v prog a : 
  (if v =? 1 then newAddressTaproot hrp prog else if v =? 2 then newAddressMerkleRoot hrp prog else Err (UnsupportedVersion v)) = Ok a ↔
  kind a = v ∧ zlen prog = 32 ∧ base a = mkAddress (ToLower hrp) v prog.
Proof.
  unfold newAddressTaproot, newAddressMerkleRoot, newAddress. destruct (Z.eqb_spec (zlen prog) 32) as [E32|E32]; cbn [negb res_bind].
  - destruct (Z.eqb_spec v 1) as [->|H1]; [|destruct (Z.eqb_spec v 2) as [->|H2]]; (split; [intros E|intros (Ek & _ & Eb)]).
    all: try (injection E as <-; done). all: try discriminate. all: destruct a; cbn in Ek, Eb; subst; done || lia.
  - destruct (v =? 1), (v =? 2); (split; [done|]); intros (_ & ? & _); done.
Qed.

Lemma DecodeAddress_iff r s a : DecodeAddress r s = Ok a ↔
  wfAddress r a ∧ s ≠ [] ∧ printable s ∧ oneCase s ∧ EncodeAddress a = ToLower s.
Proof.
  unfold DecodeAddress. split.
  - destruct (LastIndexByte s x31) as [i|] eqn:Ei; [|done]. destruct (Z.ltb_spec 1 (Z.of_nat i)) as [Hi|]; [|done]. replace (Z.to_nat (Z.of_nat i + 1)) with (S i) by lia.
    unfold IsBech32SegwitPrefix. case_bool_decide as Hp; [|done]. destruct (decodeSegWitAddress s) as [[v prog]|e] eqn:Ed; cbn [res_bind]; [|done].
    intros (Ek & H32 & Eb)%newAddress_iff. apply decodeSegWit_iff in Ed as (hrp & (H1 & H2 & H3 & H4 & H5 & H6 & H7) & Hstr).
    destruct (segwit_prefix hrp v prog _ H3 Hstr) as [El Et]. rewrite LastIndexByte_ToLower, Ei in El. injection El as El. subst i.
    rewrite (take_prefix s _ Ei) in Hp, Eb. rewrite length_app, Nat.add_sub, take_app_length in Eb.
    assert (Hh : ToLower (take (length hrp) s) = hrp) by (rewrite <- Et at 2; apply fmap_take). rewrite Hh in Eb.
    unfold EncodeAddress. split; [|split; [by intros ->|split; [done|split; [done|]]]].
    + split; rewrite Eb; cbn [a_hrp a_witnessVersion a_witnessProgram]; [split; [unfold zlen; lia|done]| |done|done]. unfold ToLower in Hp. rewrite fmap_app in Hp. fold (ToLower (take (length hrp) s)) in Hp. by rewrite Hh in Hp.
    + rewrite Eb. cbn [a_hrp a_witnessVersion a_witnessProgram]. rewrite (proj2 (encodeSegWit_iff hrp v prog (ToLower s) H3)); [done|].
      split; [|split; [done|apply ToLower_idem]]. unfold segwitOk, zlen in *. rewrite length_ToLower. split_and!; try assumption; try lia; [by apply printable_ToLower|apply oneCase_ToLower].
  - intros ([[Hl2 Hl] Hnet Hv Hp] & Hne & H4 & H5 & He). unfold EncodeAddress in He.
    destruct (encodeSegWitAddress (a_hrp (base a)) (a_witnessVersion (base a)) (a_witnessProgram (base a))) as [s'|e] eqn:Ee; [|by destruct s].
    subst s'. apply encodeSegWit_iff in Ee as ((H1 & H2 & _ & _ & _ & H6 & H7) & Hstr & _); [|done]. destruct (segwit_prefix _ _ _ _ Hl Hstr) as [El Et]. rewrite LastIndexByte_ToLower in El. rewrite El.
    unfold zlen in Hl2. destruct (Z.ltb_spec 1 (Z.of_nat (length (a_hrp (base a))))); [|lia]. replace (Z.to_nat (Z.of_nat (length (a_hrp (base a))) + 1)) with (S (length (a_hrp (base a)))) by lia.
    rewrite (take_prefix s _ El). assert (Hh : ToLower (take (length (a_hrp (base a))) s) = a_hrp (base a)) by (rewrite <- Et at 2; apply fmap_take).
    unfold IsBech32SegwitPrefix. rewrite bool_decide_eq_true_2; [|unfold ToLower; rewrite fmap_app; fold (ToLower (take (length (a_hrp (base a))) s)); by rewrite Hh].
    rewrite (proj2 (decodeSegWit_iff s (a_witnessVersion (base a)) (a_witnessProgram (base a)))).
    2:{ exists (a_hrp (base a)). split; [|done]. unfold segwitOk, zlen in *. rewrite length_ToLower in H1. split_and!; try assumption; lia. }
    cbn [res_bind]. apply newAddress_iff. rewrite length_app, Nat.add_sub, take_app_length, Hh. split; [done|]. split; [done|]. by destruct (base a).
Qed.

(** Every address of a registered network has a string. *)
Lemma chars_printable l : Forall (λ w, 0 <= w < 32) l → printable (chars l).
Proof.
  intros Hl. apply Forall_fmap. eapply Forall_impl; [exact Hl|]. intros w Hw. unfold compose. cbv beta in *. pose proof (charset_ok (Z.to_nat w) ltac:(lia)) as H. unfold charOk in H.
  rewrite Z2Nat.id in H by lia. rewrite !andb_true_iff in H. destruct H as [[_ H1%Z.leb_le] H2%Z.leb_le]. lia.
Qed.
Lemma convert_length data o : ConvertBits data 8 5 true = Ok o → 5 * zlen o <= 8 * zlen data + 4.
Proof.
  destruct (convert_pad data) as (o' & k & -> & _ & Hk & E). intros [= <-]. apply (f_equal length) in E. rewrite length_app, !length_groupBits, length_replicate in E. unfold zlen. lia.
Qed.
Lemma EncodeAddress_total r a : wfAddress r a → printable (a_hrp (base a)) → zlen (a_hrp (base a)) <= 30 →
  EncodeAddress a ≠ [] ∧ DecodeAddress r (EncodeAddress a) = Ok a.
Proof.
  intros Hwf Hpr H30. pose proof Hwf as [[Hl2 Hl] Hnet Hv Hp]. destruct (convert_pad (a_witnessProgram (base a))) as (conv & k & Ec & Hf & _ & _). pose proof (convert_length _ _ Ec) as Hcl.
  set (h := a_hrp (base a)) in *. set (v := a_witnessVersion (base a)) in *. assert (Hv12 : 1 <= v <= 2) by (rewrite Hv; destruct a; cbn; lia).
  assert (Hfv : fiveBits (z2b v :: conv)) by (constructor; [rewrite b2z_z2b, Z.mod_small; lia|done]).
  set (s := encoding h (z2b v :: conv) VersionM). assert (Es : EncodeM h (z2b v :: conv) = Ok s) by (apply encodeGeneric_iff; by rewrite Hl).
  assert (Hlow : ToLower s = s).
  { unfold s, encoding, ToLower. rewrite fmap_app. fold (ToLower h). rewrite Hl, fmap_cons, fmap_app. f_equal. change (lowerByte x31) with x31. f_equal.
    f_equal; apply chars_facts; [by apply fiveBits_range|apply checksumBytes_range]. }
  assert (Hprs : printable s).
  { unfold s, encoding. apply Forall_app. split; [done|]. constructor; [vm_compute; split; discriminate|]. apply Forall_app. split; apply chars_printable; [by apply fiveBits_range|apply checksumBytes_range]. }
  assert (Hlen : zlen s <= 90).
  { unfold s, encoding, zlen. rewrite length_app. cbn [length]. rewrite length_app. unfold chars. rewrite !length_fmap, checksumBytes_digits. cbn [length]. unfold zlen in *. lia. }
  assert (He : encodeSegWitAddress h v (a_witnessProgram (base a)) = Ok s).
  { apply encodeSegWit_iff; [done|]. split; [|split; [by exists conv|done]]. unfold segwitOk. split_and!; try done; try lia; [intros Eh; unfold zlen in Hl2; rewrite Eh in Hl2; cbn [length] in Hl2; lia|rewrite <- Hlow; apply oneCase_ToLower]. }
  assert (Ea : EncodeAddress a = s) by (unfold EncodeAddress; fold h; fold v; by rewrite He). rewrite Ea. assert (Hne : s ≠ []) by (unfold s, encoding; by destruct h). split; [done|].
  apply DecodeAddress_iff. split_and!; try done; [rewrite <- Hlow; apply oneCase_ToLower|by rewrite Hlow].
Qed.

(** ** Addresses and the scripts that pay to them *)
Lemma payTo_script v prog : zlen prog = 32 → v = OP_1 ∨ v = OP_2 →
  buildOr (AddData (AddOp NewScriptBuilder (z2b v)) prog) = Ok (z2b v :: x20 :: prog).
Proof.
  intros Hp Hv. unfold buildOr, Build, AddData. cbn [AddOp NewScriptBuilder sb_err sb_script]. change (MaxScriptSize <? zlen [] + 1) with false. cbv iota. unfold append. cbn [sb_err sb_script app].
  assert (Hl : length prog = 32%nat) by (unfold zlen in Hp; lia). do 33 (destruct prog as [|? prog]; [cbn in Hl; try lia|]); [|cbn in Hl; lia]. vm_compute. done.
Qed.
Lemma witness32_iff v s prog : 0 <= v < 256 → witness32 v s = Some prog ↔ s = z2b v :: x20 :: prog ∧ zlen prog = 32.
Proof.
  intros Hv. assert (Hz : b2z (z2b v) = v) by (rewrite b2z_z2b; apply Z.mod_small; lia). unfold witness32, zlen. split.
  - destruct s as [|a [|b p]]; [done|done|]. cbn [length]. destruct (Nat.eqb_spec (S (S (length p))) 34); cbn [andb]; [|done]. destruct (Z.eqb_spec (b2z a) v) as [Ea|]; cbn [andb]; [|done].
    destruct (Z.eqb_spec (b2z b) OP_DATA_32) as [Eb|]; [|done]. intros [= ->]. split; [|lia]. f_equal; [by rewrite <- Ea, z2b_b2z|]. f_equal. apply b2z_inj. by rewrite Eb.
  - intros [-> Hp]. cbn [length]. assert (length prog = 32%nat) as -> by lia. rewrite Hz, Z.eqb_refl. done.
Qed.
Definition classOf (a : Address) : ScriptClass := match a with AddressTaproot _ => WitnessV1TaprootTy | AddressMerkleRoot _ => WitnessV2MerkleRootTy end.
Definition opOf (a : Address) : Z := match a with AddressTaproot _ => OP_1 | AddressMerkleRoot _ => OP_2 end.
Lemma PayToAddr_script a : zlen (a_witnessProgram (base a)) = 32 → PayToAddrScript (Some a) = Ok (z2b (opOf a) :: x20 :: a_witnessProgram (base a)).
Proof. intros Hp. destruct a as [a|a]; apply payTo_script; auto. Qed.

(** A script pays to an address of the network exactly when it is the address's script. *)
Lemma extract_iff params s a : ToLower (hrpOf params) = hrpOf params →
  ExtractPkScriptAddrs s params = (classOf a, [a], 1, None) ↔
  PayToAddrScript (Some a) = Ok s ∧ zlen (ScriptAddress a) = 32 ∧ a_witnessVersion (base a) = kind a ∧ IsForNet a params = true.
Proof.
  intros Hl. unfold ExtractPkScriptAddrs, IsForNet, ScriptAddress, extractWitnessV1KeyBytes, extractWitnessV2MerkleRootBytes. split.
  - destruct (isNullDataScript s); [done|]. destruct (witness32 OP_1 s) as [p|] eqn:E1; [|destruct (witness32 OP_2 s) as [p|] eqn:E2; [|done]].
    + apply witness32_iff in E1 as [-> Hp]; [|done]. unfold NewAddressTaproot, newAddressTaproot, newAddress. rewrite Hp. cbn [Z.eqb Pos.eqb negb res_bind]. intros [= _ <-].
      cbn [base a_witnessProgram a_witnessVersion a_hrp kind]. rewrite (PayToAddr_script (AddressTaproot _)) by done. split_and!; try done. apply bool_decide_eq_true. exact Hl.
    + apply witness32_iff in E2 as [-> Hp]; [|done]. unfold NewAddressMerkleRoot, newAddressMerkleRoot, newAddress. rewrite Hp. cbn [Z.eqb Pos.eqb negb res_bind]. intros [= _ <-].
      cbn [base a_witnessProgram a_witnessVersion a_hrp kind]. rewrite (PayToAddr_script (AddressMerkleRoot _)) by done. split_and!; try done. apply bool_decide_eq_true. exact Hl.
  - intros (Es & Hp & Hv & Hn%bool_decide_eq_true). rewrite (PayToAddr_script a Hp) in Es. injection Es as <-.
    assert (isNullDataScript (z2b (opOf a) :: x20 :: a_witnessProgram (base a)) = false) as -> by (by destruct a).
    unfold NewAddressTaproot, newAddressTaproot, NewAddressMerkleRoot, newAddressMerkleRoot, newAddress. destruct a as [[h v p]|[h v p]]; cbn [base a_hrp a_witnessVersion a_witnessProgram kind opOf] in *; subst.
    + rewrite (proj2 (witness32_iff OP_1 _ p ltac:(done))) by done. rewrite Hp. cbn [Z.eqb Pos.eqb negb res_bind]. by rewrite Hl.
    + destruct (witness32 OP_1 (z2b OP_2 :: x20 :: p)) as [q|] eqn:E1; [apply witness32_iff in E1 as [E1 _]; done|]. rewrite (proj2 (witness32_iff OP_2 _ p ltac:(done))) by done.
      rewrite Hp. cbn [Z.eqb Pos.eqb negb res_bind]. by rewrite Hl.
Qed.

(** C29. Decoding accepts exactly the addresses: [DecodeAddress] returns an address if and
    only if it belongs to a registered network, with a prefix of at least two
    characters, and has a program of 32 bytes, and the string is its encoding,
    printed in lower or in upper case throughout. *)
Theorem address_decode_iff r s a : DecodeAddress r s = Ok a ↔
  wfAddress r a ∧ s ≠ [] ∧ printable s ∧ oneCase s ∧ EncodeAddress a = ToLower s.
Proof. apply DecodeAddress_iff. Qed.

(** C30. Addresses, their strings and their scripts determine each other: the string of an
    address of a registered network (with a prefix of at most 30 printable
    characters) is not empty and decodes to the address, the script that pays to it
    is recognised as paying to exactly it on its network, and a script that is
    recognised as paying to an address is that address's script. *)
Theorem address_roundtrip r params a s (Hwf : wfAddress r a) (Hnet : IsForNet a params = true) (Hprint : printable (hrpOf params)) (Hlen : zlen (hrpOf params) <= 30) :
  EncodeAddress a ≠ [] ∧ DecodeAddress r (EncodeAddress a) = Ok a
  ∧ (PayToAddrScript (Some a) = Ok s ↔ ExtractPkScriptAddrs s params = (classOf a, [a], 1, None)).
Proof.
  pose proof Hnet as En. apply bool_decide_eq_true in En. destruct (EncodeAddress_total r a Hwf) as [H1 H2]; [by rewrite En|by rewrite En|]. split; [done|]. split; [done|].
  destruct Hwf as [[_ Hl] _ Hv Hp]. rewrite En in Hl. rewrite (extract_iff params s a Hl). unfold ScriptAddress. tauto.
Qed.

(** ** An instance *)
Definition defaultNets : netRegistry := match registerDefaults with Ok r => r | Err _ => mkRegistry ∅ ∅ ∅ end.
Definition demoAddress : Address := AddressTaproot (mkAddress (hrpOf MainNetParams) 1 (replicate 32 x07)).
Lemma defaults_registered : is_Ok registerDefaults = true ∧ bech32SegwitPrefixes defaultNets = list_to_set (list_byte_of_string <$> ["mdl1"; "tmdl1"; "rmdl1"; "smdl1"]%string).
Proof. split; vm_compute; reflexivity. Qed.
Lemma demoAddress_wf : wfAddress defaultNets demoAddress.
Proof. split; [split; vm_compute; [discriminate|reflexivity]| |reflexivity|reflexivity]. apply (bool_decide_unpack _). vm_compute. exact I. Qed.
Lemma address_roundtrip_witness : EncodeAddress demoAddress ≠ [] ∧ DecodeAddress defaultNets (EncodeAddress demoAddress) = Ok demoAddress
  ∧ (PayToAddrScript (Some demoAddress) = Ok (x51 :: x20 :: replicate 32 x07) ↔ ExtractPkScriptAddrs (x51 :: x20 :: replicate 32 x07) MainNetParams = (classOf demoAddress, [demoAddress], 1, None)).
Proof.
  apply (address_roundtrip defaultNets MainNetParams demoAddress (x51 :: x20 :: replicate 32 x07)).
  - exact demoAddress_wf.
  - vm_compute. reflexivity.
  - apply (bool_decide_unpack _). vm_compute. exact I.
  - vm_compute. discriminate.
Defined.
Lemma demo_string : string_of_list_byte (EncodeAddress demoAddress) = "mdl1pqurswpc8qurswpc8qurswpc8qurswpc8qurswpc8qurswpc8qursew5ws2"%string.
Proof. vm_compute. reflexivity. Qed.
